(* ===== verification/_CoqProject ===== *)
-Q . S2P
Prelude.v
Frames.v
BlockTable.v
Heap.v
NativeHandle.v
BootLedger.v
InterruptVector.v
TeardownHistory.v
Dma.v
DmaArena.v
Multiboot2.v
Clock.v
ApicTimer.v
Timer.v
Thread.v
ThreadSpec.v
Paging.v
PagingSpec.v
PagingRange.v
PagingCalls.v
PagingBackend.v
PagingAudit.v
PagingBoot.v
PagingWindows.v
PagingInstall.v
PagingProcess.v
PagingIsolation.v
PagingSwitch.v
WallClock.v
Rtc.v
Framebuffer.v
Surface.v
Keyboard.v
