(* ===== verification/Prelude.v ===== *)
(** * RSD kernel: a verification development

    The program is the kernel of the RSD operating system: freestanding C under
    [src/src/kernel] with its interfaces under [src/include/rsd].  This library
    models the kernel's resource-management core, one file per component, and
    proves the properties its clients rely on.

    ** The parts and how they interact

    - [Frames] ([physical_memory.c]): the physical frame allocator.  Two bitmaps
      over the first 4 GiB, built from the boot memory map, single frames,
      contiguous runs with an ownership table, and running statistics.
    - [BlockTable] ([heap.c], [dma_arena.c]): the sorted array of
      offset/size/used blocks both byte allocators keep, as an array with a count
      and as the list of blocks it represents.
    - [Heap] ([heap.c]): the kernel heap.  It takes pages from the page tables
      and the frame allocator through the class [page_backend]; the laws it
      relies on are [page_backend_laws], discharged over [Frames].
    - [Dma] ([dma.c]): ownership-tracked DMA memory.  It calls [Frames] directly
      and reads the page tables through the class [address_space]; the callers'
      structures live in an explicit store, because the kernel compares their
      addresses.
    - [DmaArena] ([dma_arena.c]): an aligned first-fit allocator inside one DMA
      allocation, created and destroyed over [Dma], with the block table of
      [BlockTable].
    - [Multiboot2] ([multiboot2.c]): the parser of the boot information, over a
      partial byte memory; its memory map is what [Frames] is initialized from.
    - [NativeHandle] ([native_handle.c]): a process's capability handles.
    - [BootLedger] ([boot_ledger.c]): the plan of boot stages, its validation
      into a canonical order, its execution and the audit of its receipts.
    - [InterruptVector] ([interrupt_vector.c]): the dynamic interrupt vectors.
    - [TeardownHistory] ([native_process_teardown.c]): the ring of the last
      teardown attempts of a process.
    - [Clock] ([pm_timer.c], [tsc.c], [clock.c]): the reference timer of known
      rate, the time-stamp counter calibrated against it and the monotonic clock.
      What the processor answers is the class [time_hardware].
    - [ApicTimer] ([apic_timer.c], the handler table of [interrupts.c]): the one
      count register behind a periodic tick and a one-shot deadline, over the
      class [apic_device] with its [apic_device_laws].
    - [Timer] ([timer.c]): the deadline table over [Clock] and [ApicTimer], its
      interrupt with callbacks that may use the table themselves, and the sleep as
      a step relation in which interrupts come between the steps.
    - [Thread] ([thread.c], [arch/x86_64/thread.S]): the scheduler.  The context
      switch is modelled down to the words it pushes and pops; stacks are mapped
      through [page_backend], the table is a block of [Heap], the deadline layer is
      the class [timer_service].  [ThreadSpec] holds the abstract round-robin
      scheduler and the theorems.
    - [Paging] ([paging.c]): the four-level page tables, as words of physical memory
      the kernel reads and writes at their own addresses, with table frames from
      [Frames].  [PagingSpec] has the invariant (the tables in memory are a tree),
      [PagingRange] what the range operations do to translations, [PagingCalls] the
      public calls, [PagingBackend] the instance of [page_backend] over them, so the
      heap and the threads run on these tables.  [PagingAudit] relates the audit walk to
      the addresses of the machine.
    - [PagingBoot] (the boot part of [paging.c]): the device windows, the checks of the
      processor (class [processor]) and of the linked image (class [kernel_image]), the
      identity map, its read-back and its installation.  [PagingWindows] has the
      validation of the windows, [PagingInstall] what a successful [paging_initialize]
      leaves.
    - [PagingProcess] (the process part of [paging.c]): up to four private hierarchies
      behind tokens, the pages narrowed to read-only with their shared reference-counted
      table, user pages, the validations and the switches of [cr3].  [PagingIsolation]
      says what a validated process can reach, [PagingSwitch] relates all calls to an
      abstract machine of slots.
    - [WallClock] ([wall_clock.c]) and [Rtc] ([rtc.c]): the two readers of the
      real-time clock chip, over the class [port_hardware]; [Rtc] carries the time it
      read with [Clock].
    - [Framebuffer] ([framebuffer.c]) and [Surface] ([surface.c]): the screen the boot
      loader set, in a window [PagingBoot] mapped, and pictures in the heap with the
      rectangle that changed since they were shown, over one store of pixel words.  The
      store fence of [surface_present] orders stores the model already orders.
    - [Keyboard] ([keyboard.c]): the 8042 controller over the class [port_hardware], the
      scancode decoder and the ring of events between the interrupt and the reader.  The
      I/O APIC and the handler table are the class [interrupt_routing].

    ** How the code is translated

    A C unsigned integer of width [w] is a [Z] in [0, 2^w), and arithmetic that
    can leave the range is written with its reduction ([u16], [u32], [u64]).  A
    module's static variables are a record which the operations take and return.
    A status is an inductive type with the enum's constructors.  A null pointer
    is [None].  A loop is a [Fixpoint] on the number of iterations the C loop has
    left, which the loop's own bound gives, so no operation runs out of fuel.
    Two loops have no such bound in their text: the wait on the power management
    timer runs at most [2^29] iterations of [loop_pow], twice its poll limit, and
    the expiry loop of [Timer] one more than there are slots; both are proved to
    return within that.  The loops of the two page audits of [Framebuffer] and [Surface]
    get one iteration per page and are proved to end.
    Names are those of the source.

    ** What the theorems show

    Each stateful component has a well-formedness invariant which every operation
    preserves, and for each operation a theorem that describes every branch: what
    a success does, when each refusal happens, and that a refusal changes
    nothing.  On top of those: allocate/release round trips; the equivalence of
    the audits [validate_table], [heap_verify] and [dma_verify] with
    declarative statements; that the audits accept every reachable state
    ([heap_reachable_verified], [dma_reachable_safe]); that stale handles and
    copied or released structures are never honoured again
    ([closed_handle_stays_stale], [released_copy_refused]); that a validated boot
    plan runs every stage once after its providers, and that its receipts pass
    the independent audit; and refinements of abstract specifications (the
    ownership protocol of one DMA allocation, the log behind the teardown ring).
    The time theorems show that the bounded wait returns and measures exactly
    across wraps, that the clock never runs backwards and is exact while its
    counter is, that periodic and one-shot modes exclude each other, that the
    expiry loop ends whatever the callbacks do and fires in deadline order, and
    that a sleep never ends early under any interleaving of interrupts.
    The scheduler refines an abstract machine of suspended contexts: a thread
    continues with exactly the registers it left, on a stack no other thread
    touches, no ready thread waits for more than six handovers, exiting never
    finds the run queue empty, and the audit accepts every reachable state.
    The page-table theorems are about every address: a map, unmap or protect call
    changes exactly the translations of its range, a refusal changes none, every page
    that changes is invalidated, nothing becomes writable and executable or open to
    user mode, mapping and unmapping give back every table frame, and all bytes the
    heap hands out are writable memory on frames of their own
    ([heap_memory_exclusive], which composes the three allocators).  The audit finds a
    page that breaks the rules exactly when there is one, and a successful boot installs
    the identity map of memory with the permissions of every section and window and
    nothing else ([paging_initialize_correct]).
    A process that passed validation reaches the pages it listed and nothing else, and
    what it executes is read-only for the kernel ([native_process_isolated]; also
    [linux_process_isolated], [first_process_isolated]).  The calls on process spaces
    refine a machine of slots ([process_calls_refine]): the processor runs on the kernel's
    hierarchy or on that of the one active space, whose code is narrowed
    ([running_space_unique]), and a released token is never honoured again
    ([released_token_refused]).
    The calendar theorems relate the arithmetic of the wall clock to counting days one by
    one, its decoding to an encoder, and show that a reading is one moment of the chip
    ([wall_clock_utc_to_unix_exact], [wall_clock_decode_roundtrip],
    [wall_clock_read_coherent]); [rtc_now_correct] says what the carried time is.
    The display theorems say that pixels do not alias ([framebuffer_pixels_independent]),
    that a scroll and a copy are right whatever overlaps ([framebuffer_scroll_up_correct],
    [surface_copy_rect_memmove]), that damage is the bounding rectangle of what was drawn
    ([add_damage_spec]), and that after a present the screen shows what was drawn
    ([display_shows_surface], which composes the loader's mode, the device windows, the
    heap and both files).
    The keyboard refines a queue of 63 events behind a decoder under any interleaving of
    interrupts and reads ([keyboard_refines]), its modifiers are edges of the byte stream
    ([keyboard_modifiers_exact]), and its bring-up is ordered and undone on every failure
    ([keyboard_initialize_safe]).

    Five theorems record where the code does not do what its comments say:
    [heap_full_table_stale], [timer_far_deadline_lost],
    [timer_sleep_lost_wakeup] with [timer_sleep_late_interrupts_on],
    [count_for_nanoseconds_overflow] and [refused_map_keeps_tables].

    ** Not modelled

    The unmap and protect theorems are for ranges below 2^63 bytes, which excludes only
    ranges across the hole between the canonical halves.  [running_space_unique] takes as
    given that no process is built on the frame of the kernel's own root.  Process records,
    executables and system calls ([native_process.c] and others), interrupt controllers,
    other device drivers, the text console and the desktop, the network stack, the filesystems
    and the package manager are not modelled: they program devices or
    keep on-disk formats.  Self tests and tables from a status to a string are
    left out of the modelled files, as are functions that only copy a record out. *)

From stdpp Require Import base list numbers gmap.

(** ** Machine words *)

Declare Scope rsd_scope.
Delimit Scope rsd_scope with rsd.
Open Scope rsd_scope.
Open Scope Z_scope.

Notation "x .& y" := (Z.land x y) (at level 37, left associativity) : rsd_scope.
Notation "x .| y" := (Z.lor x y) (at level 38, left associativity) : rsd_scope.
Notation "x .<< n" := (Z.shiftl x n) (at level 36, left associativity) : rsd_scope.
Notation "x .>> n" := (Z.shiftr x n) (at level 36, left associativity) : rsd_scope.

(** A C unsigned integer of width [w] is a [Z] in [0, 2^w); conversion to the
    type and every arithmetic operation on it reduce modulo [2^w]. *)
Definition wrap (w x : Z) : Z := x mod 2 ^ w.
Arguments wrap : simpl never.

Abbreviation u8 := (wrap 8).
Abbreviation u16 := (wrap 16).
Abbreviation u32 := (wrap 32).
Abbreviation u64 := (wrap 64).

Definition UINT16_MAX : Z := 2 ^ 16 - 1.
Definition UINT64_MAX : Z := 2 ^ 64 - 1.

(** [~x] at 64 bits. *)
Definition not64 (x : Z) : Z := u64 (Z.lnot x).

(** [x] is representable at width [w]. *)
Definition fits (w x : Z) : Prop := 0 <= x < 2 ^ w.

#[global] Instance fits_dec w x : Decision (fits w x).
Proof. unfold fits. apply _. Defined.

(** Linear arithmetic with division by constants. *)
Ltac div_lia := Z.to_euclidean_division_equations; lia.

Lemma wrap_small w x : fits w x -> wrap w x = x.
Proof. unfold fits, wrap. intros. by apply Z.mod_small. Qed.

Lemma wrap_fits w x : 0 <= w -> fits w (wrap w x).
Proof. unfold fits, wrap. intros. apply Z.mod_pos_bound. lia. Qed.

Lemma land_not64 x k :
  fits 64 x -> 0 <= k <= 64 -> x .& not64 (2 ^ k - 1) = x - x mod 2 ^ k.
Proof.
  intros Hx Hk. unfold not64, wrap.
  rewrite <- (Z.land_ones _ 64) by lia.
  replace (2 ^ k - 1) with (Z.ones k) by (rewrite Z.ones_equiv; lia).
  rewrite (Z.land_comm (Z.lnot _)), Z.land_assoc, Z.land_ones by lia.
  rewrite (Z.mod_small x) by exact Hx.
  rewrite <- Z.ldiff_land, Z.ldiff_ones_r by lia.
  rewrite Z.shiftl_mul_pow2, Z.shiftr_div_pow2 by lia.
  pose proof (Z.div_mod x (2 ^ k)). lia.
Qed.

(** Masking never leaves the width of the left operand. *)
Lemma land_fits w a b : 0 <= w -> fits w a -> fits w (a .& b).
Proof.
  intros Hw Ha. replace (a .& b) with ((a .& b) mod 2 ^ w).
  { apply Z.mod_pos_bound. lia. }
  rewrite <- Z.land_ones by done. rewrite (Z.land_comm a b), <- Z.land_assoc.
  rewrite Z.land_ones, (Z.mod_small a) by done. by rewrite Z.land_comm.
Qed.

(** [x & (2^k - 1)] is the remainder. *)
Lemma land_mask x k : 0 <= k -> x .& (2 ^ k - 1) = x mod 2 ^ k.
Proof.
  intros. replace (2 ^ k - 1) with (Z.ones k) by (rewrite Z.ones_equiv; lia).
  by apply Z.land_ones.
Qed.

(** [v & (v - 1) == 0] with [v] nonzero singles out the powers of two. *)
Lemma land_pred_pow2 v : 0 < v -> v .& (v - 1) = 0 -> exists k, 0 <= k /\ v = 2 ^ k.
Proof.
  intros Hv H0. exists (Z.log2 v).
  pose proof (Z.log2_nonneg v) as Hl. split; [done|].
  pose proof (Z.log2_spec v Hv) as [Hlo Hhi].
  destruct (Z.eq_dec v (2 ^ Z.log2 v)) as [|Hne]; [done|exfalso].
  assert (Hb : Z.testbit (v .& (v - 1)) (Z.log2 v) = true).
  { rewrite Z.land_spec, Z.bit_log2 by done.
    replace (Z.log2 v) with (Z.log2 (v - 1)) at 1.
    - rewrite Z.bit_log2; [done|].
      assert (1 <= 2 ^ Z.log2 v) by (apply (Z.pow_le_mono_r 2 0); lia). lia.
    - apply Z.log2_unique; lia. }
  rewrite H0, Z.bits_0 in Hb. done.
Qed.

Lemma round_up_spec v k :
  fits 64 v -> 0 <= k <= 64 -> fits 64 (v + (2 ^ k - 1)) ->
  let r := (v + (2 ^ k - 1)) .& not64 (2 ^ k - 1) in
  v <= r < v + 2 ^ k /\ r mod 2 ^ k = 0.
Proof.
  intros Hv Hk Hs r. subst r. rewrite land_not64 by done.
  assert (0 < 2 ^ k) by lia.
  pose proof (Z.mod_pos_bound (v + (2 ^ k - 1)) (2 ^ k)). split; [lia|].
  rewrite Zminus_mod, Z.mod_mod, Z.sub_diag by lia. apply Z.mod_0_l. lia.
Qed.

(** Fields packed with shifts and [|] are sums when the low field fits. *)
Lemma lor_shift_add a b n : 0 <= n -> fits n b -> (a .<< n) .| b = a * 2 ^ n + b.
Proof.
  intros Hn Hb. assert (H0 : (a .<< n) .& b = 0).
  { apply Z.bits_inj'. intros i Hi. rewrite Z.land_spec, Z.bits_0.
    destruct (Z.lt_ge_cases i n) as [Hlt|Hge].
    - by rewrite Z.shiftl_spec_low.
    - rewrite <- (wrap_small n b) by done. unfold wrap.
      by rewrite (Z.mod_pow2_bits_high b n i), andb_false_r by lia. }
  rewrite <- Z.lxor_lor, <- Z.add_nocarry_lxor by done. by rewrite Z.shiftl_mul_pow2.
Qed.

(** ** Tactics *)

(** Close [exists st, st <> OK /\ (st, x) = (st', x)]: a branch that refuses
    with a named status. *)
Ltac refused := eexists; split; [|reflexivity]; discriminate.

(** Split every conjunction among the hypotheses and case on disjunctions. *)
Ltac split_hyps := destruct_and?; destruct_or?.

(** ** Counting *)

Section Counting.
Context {A : Type}.

(** The number of entries of [l] that satisfy [f], as a C loop that
    increments a counter computes it. *)
Fixpoint countb (f : A -> bool) (l : list A) : Z :=
  match l with
  | [] => 0
  | x :: l => (if f x then 1 else 0) + countb f l
  end.

Lemma countb_app f (l k : list A) : countb f (l ++ k) = countb f l + countb f k.
Proof. induction l; simpl; lia. Qed.

Lemma countb_bounds f (l : list A) : 0 <= countb f l <= Z.of_nat (length l).
Proof. induction l as [|x l IH]; simpl; [lia|]. destruct (f x); lia. Qed.

Lemma countb_insert f (l : list A) i x y :
  l !! i = Some x ->
  countb f (<[i := y]> l) =
    countb f l - (if f x then 1 else 0) + (if f y then 1 else 0).
Proof.
  revert i. induction l as [|z l IH]; intros [|i] Hi; simplify_eq/=; [lia|].
  rewrite IH by done. lia.
Qed.

Lemma countb_ext f g (l : list A) :
  (forall i x, l !! i = Some x -> f x = g x) -> countb f l = countb g l.
Proof.
  induction l as [|x l IH]; intros H; simpl; [done|].
  rewrite (H O x) by done. rewrite IH; [done|].
  intros i y Hi. by apply (H (S i)).
Qed.

Lemma countb_pos f (l : list A) i x :
  l !! i = Some x -> f x = true -> 0 < countb f l.
Proof.
  revert i. induction l as [|z l IH]; intros [|i] Hi Hf; simplify_eq/=.
  - rewrite Hf. pose proof (countb_bounds f l). lia.
  - specialize (IH i Hi Hf). destruct (f z); lia.
Qed.

Lemma countb_zero f (l : list A) :
  countb f l = 0 <-> (forall i x, l !! i = Some x -> f x = false).
Proof.
  split.
  - intros H i x Hi. destruct (f x) eqn:E; [|done].
    pose proof (countb_pos f l i x Hi E). lia.
  - intros H. rewrite (countb_ext f (fun _ => false)) by done.
    clear H. induction l; simpl; lia.
Qed.

Lemma countb_replicate f n (x : A) :
  countb f (replicate n x) = if f x then Z.of_nat n else 0.
Proof. induction n; simpl; [by destruct (f x)|]. rewrite IHn. destruct (f x); lia. Qed.

(** A satisfied entry exists when the count is positive. *)
Lemma countb_exists f (l : list A) :
  0 < countb f l -> exists i x, l !! i = Some x /\ f x = true.
Proof.
  induction l as [|x l IH]; simpl; [lia|]. intros H.
  destruct (f x) eqn:E; [by exists O, x|].
  destruct IH as (i & y & ? & ?); [lia|]. by exists (S i), y.
Qed.

Lemma countb_le f g (l : list A) :
  (forall x, f x = true -> g x = true) -> countb f l <= countb g l.
Proof.
  intros H. induction l as [|x l IH]; simpl; [lia|]. specialize (H x).
  destruct (f x); [rewrite H by done|destruct (g x)]; lia.
Qed.

(** Two distinct satisfied entries make the count at least two. *)
Lemma countb_two f (l : list A) i j x y :
  i <> j -> l !! i = Some x -> l !! j = Some y -> f x = true -> f y = true ->
  2 <= countb f l.
Proof.
  revert i j. induction l as [|z l IH]; intros [|i] [|j] Hij Hi Hj Hx Hy;
    simplify_eq/=; try done.
  - rewrite Hx. pose proof (countb_pos f l j y Hj Hy). lia.
  - rewrite Hy. pose proof (countb_pos f l i x Hi Hx). lia.
  - assert (i <> j) by congruence. specialize (IH i j). destruct (f z); naive_solver lia.
Qed.

(** The sum of a measure over a list: byte totals over block tables. *)
Fixpoint sumz (f : A -> Z) (l : list A) : Z :=
  match l with
  | [] => 0
  | x :: l => f x + sumz f l
  end.

Lemma sumz_app f (l k : list A) : sumz f (l ++ k) = sumz f l + sumz f k.
Proof. induction l; simpl; lia. Qed.

Lemma sumz_plus f g (l : list A) :
  sumz (fun x => f x + g x) l = sumz f l + sumz g l.
Proof. induction l; simpl; lia. Qed.

Lemma sumz_indicator p (l : list A) :
  sumz (fun x => if p x : bool then 1 else 0) l = countb p l.
Proof. induction l; simpl; lia. Qed.

Lemma sumz_nonneg f (l : list A) : Forall (fun x => 0 <= f x) l -> 0 <= sumz f l.
Proof. induction 1; simpl; lia. Qed.
End Counting.

Lemma countb_fmap {A B} (f : B -> bool) (g : A -> B) (l : list A) :
  countb f (g <$> l) = countb (fun x => f (g x)) l.
Proof. induction l as [|x l IH]; [done|]. rewrite fmap_cons. cbn [countb]. by rewrite IH. Qed.

(** Counting over a range of integers: the census loops over frames. *)

Lemma lookup_seqZ_inv lo n i x : seqZ lo n !! i = Some x -> lo <= x < lo + n.
Proof. intros [-> ?]%lookup_seqZ. lia. Qed.

Lemma countz_ext p q lo n :
  (forall x, lo <= x < lo + n -> p x = q x) -> countb p (seqZ lo n) = countb q (seqZ lo n).
Proof. intros H. apply countb_ext. intros i x Hi. apply H. by eapply lookup_seqZ_inv. Qed.

Lemma countz_S p lo n :
  countb p (seqZ lo (Z.of_nat (S n))) =
    (if p lo then 1 else 0) + countb p (seqZ (lo + 1) (Z.of_nat n)).
Proof.
  rewrite (seqZ_cons lo) by lia. cbn [countb].
  by replace (Z.pred (Z.of_nat (S n))) with (Z.of_nat n) by lia.
Qed.

Lemma countz_all p lo n :
  0 <= n -> (forall x, lo <= x < lo + n -> p x = true) -> countb p (seqZ lo n) = n.
Proof.
  intros Hn H. rewrite (countz_ext p (fun _ => true)) by done.
  assert (forall l : list Z, countb (fun _ => true) l = Z.of_nat (length l)) as ->.
  { induction l; simpl; lia. }
  rewrite length_seqZ. lia.
Qed.

Lemma countz_none p lo n :
  (forall x, lo <= x < lo + n -> p x = false) -> countb p (seqZ lo n) = 0.
Proof. intros H. apply countb_zero. intros i x Hi. apply H. by eapply lookup_seqZ_inv. Qed.

Lemma countz_pos p lo n x :
  lo <= x < lo + n -> p x = true -> 0 < countb p (seqZ lo n).
Proof.
  intros Hx Hp. apply (countb_pos p _ (Z.to_nat (x - lo)) x); [|done].
  apply lookup_seqZ. lia.
Qed.

Lemma countz_exists p lo n :
  0 < countb p (seqZ lo n) -> exists x, lo <= x < lo + n /\ p x = true.
Proof.
  intros (i & x & Hi & Hp)%countb_exists. exists x. split; [|done].
  by eapply lookup_seqZ_inv.
Qed.

Lemma countz_nonzero p lo n : countb p (seqZ lo n) <> 0 -> exists x, p x = true.
Proof.
  intros H. pose proof (countb_bounds p (seqZ lo n)).
  destruct (countz_exists p lo n) as (x & _ & Hx); [lia|by exists x].
Qed.

(** An integer occurs at most once in a range. *)
Lemma countz_single x lo n : countb (fun j => x =? j) (seqZ lo n) <= 1.
Proof.
  destruct (decide (lo <= x < lo + n)) as [Hx|Hx].
  - replace n with ((x - lo) + (1 + (lo + n - x - 1))) by lia.
    rewrite !seqZ_app by lia. rewrite !countb_app.
    rewrite (countz_none _ lo) by (intros; apply Z.eqb_neq; lia).
    rewrite (countz_none _ (lo + (x - lo) + 1)) by (intros; apply Z.eqb_neq; lia).
    pose proof (countb_bounds (fun j => x =? j) (seqZ (lo + (x - lo)) 1)) as Hb.
    rewrite length_seqZ in Hb. lia.
  - rewrite countz_none; [lia|]. intros. apply Z.eqb_neq. lia.
Qed.

(** Classes of a partition: every entry of [l] falls under at most one key, so
    the keys that are hit number at most the entries counted by [p]. *)
Lemma countb_classes {A} (p : A -> bool) (key : A -> Z) (hit : Z -> bool) (l : list A) n :
  (forall j, 0 <= j < n -> hit j = true -> 0 < countb (fun x => p x && (key x =? j)) l) ->
  countb hit (seqZ 0 n) <= countb p l.
Proof.
  intros Hhit.
  assert (Hsum : sumz (fun j => countb (fun x => p x && (key x =? j)) l) (seqZ 0 n) <= countb p l).
  { clear Hhit. induction l as [|x l IH]; simpl.
    - induction (seqZ 0 n); simpl; lia.
    - rewrite sumz_plus, sumz_indicator. destruct (p x); simpl.
      + pose proof (countz_single (key x) 0 n). lia.
      + assert (countb (fun _ => false) (seqZ 0 n) = 0) as -> by (by apply countz_none). lia. }
  etransitivity; [|exact Hsum]. clear Hsum.
  assert (Hgen : forall k : list Z, (forall j, j ∈ k -> 0 <= j < n) ->
    countb hit k <= sumz (fun j => countb (fun x => p x && (key x =? j)) l) k).
  { induction k as [|j k IH]; intros Hk; simpl; [lia|].
    specialize (IH (fun i Hi => Hk i (list_elem_of_further _ _ _ Hi))).
    pose proof (countb_bounds (fun x => p x && (key x =? j)) l).
    destruct (hit j) eqn:Hj; [|lia].
    specialize (Hhit j (Hk j (list_elem_of_here _ _)) Hj). lia. }
  apply Hgen. intros j Hj%elem_of_seqZ. lia.
Qed.

(** Changing the predicate on the window [a, a + m) only. *)
Lemma countz_update p q lo n a m :
  lo <= a -> 0 <= m -> a + m <= lo + n ->
  (forall x, lo <= x < lo + n -> ~ a <= x < a + m -> p x = q x) ->
  countb q (seqZ lo n) =
    countb p (seqZ lo n) - countb p (seqZ a m) + countb q (seqZ a m).
Proof.
  intros Ha Hm Hn H.
  replace n with ((a - lo) + (m + (lo + n - a - m))) by lia.
  rewrite !seqZ_app by lia. rewrite !countb_app.
  replace (lo + (a - lo)) with a by lia.
  rewrite (countz_ext q p lo) by (intros; symmetry; apply H; lia).
  rewrite (countz_ext q p (a + m)) by (intros; symmetry; apply H; lia).
  lia.
Qed.

(** ** First-match scans

    [for (i = 0; i < n; ++i) if (p(a[i])) return i;] *)

Section Scans.
Context {A : Type}.

Fixpoint first_index (p : A -> bool) (l : list A) : option nat :=
  match l with
  | [] => None
  | x :: l => if p x then Some O else S <$> first_index p l
  end.

Lemma first_index_Some p (l : list A) i :
  first_index p l = Some i <->
  (exists x, l !! i = Some x /\ p x = true) /\
  (forall j y, (j < i)%nat -> l !! j = Some y -> p y = false).
Proof.
  revert i. induction l as [|x l IH]; intros i; simpl.
  - split; [done|]. by intros [(? & ? & ?) _].
  - destruct (p x) eqn:E.
    + split.
      * intros [= <-]. split; [by exists x|lia].
      * intros [_ H]. destruct i as [|i]; [done|].
        specialize (H O x ltac:(lia) eq_refl). congruence.
    + rewrite fmap_Some. split.
      * intros (k & Hk & ->). apply IH in Hk as [(y & ? & ?) Hlt]. split; [by exists y|].
        intros [|j] z Hj Hz; simplify_eq/=; [done|]. apply (Hlt j); [lia|done].
      * intros [(y & Hy & Hp) Hlt]. destruct i as [|i]; [simplify_eq/=; congruence|].
        exists i. split; [|done]. apply IH. split; [by exists y|].
        intros j z Hj Hz. apply (Hlt (S j)); [lia|done].
Qed.

Lemma first_index_None p (l : list A) :
  first_index p l = None <-> (forall i x, l !! i = Some x -> p x = false).
Proof.
  induction l as [|x l IH]; simpl; [done|]. destruct (p x) eqn:E.
  - split; [done|]. intros H. specialize (H O x eq_refl). congruence.
  - rewrite fmap_None, IH. split; intros H.
    + intros [|i] y Hy; simplify_eq/=; [done|by eapply H].
    + intros i y Hy. by apply (H (S i)).
Qed.

Lemma first_index_lt p (l : list A) i : first_index p l = Some i -> (i < length l)%nat.
Proof. intros [(x & Hx & _) _]%first_index_Some. by eapply lookup_lt_Some. Qed.
End Scans.

(** ** Array shifts

    The kernel keeps ordered tables in fixed arrays and opens or closes a hole
    by moving entries one at a time. *)

Section Shifts.
Context {A : Type} `{Inhabited A}.

(** [for (i = index; i + 1 < count; ++i) table[i] = table[i + 1];]
    with [steps] iterations left. *)
Fixpoint shift_down (steps index : nat) (table : list A) : list A :=
  match steps with
  | O => table
  | S steps => shift_down steps (S index) (<[index := table !!! S index]> table)
  end.

(** [for (i = count; i > index; --i) table[i] = table[i - 1];] *)
Fixpoint shift_up (steps top : nat) (table : list A) : list A :=
  match steps with
  | O => table
  | S steps => shift_up steps (pred top) (<[top := table !!! pred top]> table)
  end.

Lemma length_shift_down steps index table :
  length (shift_down steps index table) = length table.
Proof.
  revert index table. induction steps as [|n IH]; intros; simpl; [done|].
  by rewrite IH, length_insert.
Qed.

Lemma length_shift_up steps top table :
  length (shift_up steps top table) = length table.
Proof.
  revert top table. induction steps as [|n IH]; intros; simpl; [done|].
  by rewrite IH, length_insert.
Qed.

Lemma lookup_shift_down steps index table i :
  (index + steps < length table)%nat ->
  shift_down steps index table !! i =
    if decide (index <= i < index + steps)%nat then table !! S i else table !! i.
Proof.
  revert index table. induction steps as [|n IH]; intros index table Hl; simpl.
  { case_decide; [lia|done]. }
  rewrite IH by (rewrite length_insert; lia).
  destruct (decide (i = index)) as [->|Hi].
  - rewrite decide_False by lia. rewrite decide_True by lia.
    rewrite list_lookup_insert_eq by lia.
    symmetry. apply list_lookup_lookup_total_lt. lia.
  - repeat case_decide; try lia; by rewrite list_lookup_insert_ne by lia.
Qed.

Lemma lookup_shift_up steps top table i :
  (steps <= top < length table)%nat ->
  shift_up steps top table !! i =
    if decide (top - steps < i <= top)%nat then table !! pred i else table !! i.
Proof.
  revert top table. induction steps as [|n IH]; intros top table Hl; simpl.
  { case_decide; [lia|done]. }
  rewrite IH by (rewrite length_insert; lia).
  destruct (decide (i = top)) as [->|Hi].
  - rewrite decide_False by lia. rewrite decide_True by lia.
    rewrite list_lookup_insert_eq by lia.
    symmetry. apply list_lookup_lookup_total_lt. lia.
  - repeat case_decide; try lia; by rewrite list_lookup_insert_ne by lia.
Qed.

(** Closing the hole at [index] removes exactly that entry of the live
    prefix. *)
Lemma take_shift_down index count table :
  (index < count <= length table)%nat ->
  take (pred count) (shift_down (pred count - index) index table) =
    take index (take count table) ++ drop (S index) (take count table).
Proof.
  intros Hl. apply list_eq. intros i.
  destruct (decide (i < pred count)%nat) as [Hi|Hi].
  - rewrite lookup_take_lt by done. rewrite lookup_shift_down by lia.
    destruct (decide (i < index)%nat).
    + rewrite decide_False by lia.
      rewrite lookup_app_l by (rewrite !length_take; lia).
      rewrite !lookup_take_lt by lia. done.
    + rewrite decide_True by lia.
      rewrite lookup_app_r by (rewrite !length_take; lia).
      rewrite lookup_drop, !length_take, lookup_take_lt by lia. f_equal. lia.
  - rewrite lookup_take_ge by lia. symmetry. apply lookup_ge_None.
    rewrite length_app, length_drop, !length_take. lia.
Qed.

(** Opening a hole at [index] and storing [x] there inserts [x] into the live
    prefix. *)
Lemma take_shift_up index count table x :
  (index <= count < length table)%nat ->
  take (S count) (<[index := x]> (shift_up (count - index) count table)) =
    take index (take count table) ++ x :: drop index (take count table).
Proof.
  intros Hl. apply list_eq. intros i.
  destruct (decide (i < S count)%nat) as [Hi|Hi].
  - rewrite lookup_take_lt by done.
    destruct (decide (i = index)) as [->|Hne].
    + rewrite list_lookup_insert_eq by (rewrite length_shift_up; lia).
      rewrite lookup_app_r by (rewrite !length_take; lia).
      rewrite !length_take. replace (index - _)%nat with O by lia. done.
    + rewrite list_lookup_insert_ne by lia. rewrite lookup_shift_up by lia.
      destruct (decide (i < index)%nat).
      * rewrite decide_False by lia.
        rewrite lookup_app_l by (rewrite !length_take; lia).
        rewrite !lookup_take_lt by lia. done.
      * rewrite decide_True by lia.
        rewrite lookup_app_r by (rewrite !length_take; lia).
        rewrite !length_take. replace (i - _)%nat with (S (pred i - index)) by lia.
        simpl. rewrite lookup_drop, lookup_take_lt by lia. f_equal. lia.
  - rewrite lookup_take_ge by lia. symmetry. apply lookup_ge_None.
    rewrite length_app. simpl. rewrite length_drop, !length_take. lia.
Qed.
End Shifts.

(** An element of an updated array is the new one or was there. *)
Lemma elem_of_insert_inv {A} (x y : A) i (l : list A) : x ∈ <[i := y]> l -> x = y \/ x ∈ l.
Proof.
  intros [j Hj]%list_elem_of_lookup. apply list_lookup_insert_Some in Hj as [(_ & -> & _)|[_ Hj]].
  - by left.
  - right. by eapply list_elem_of_lookup_2.
Qed.

(** ** Loops that return

    A C [while] loop whose body either goes on with a new state ([inl]) or
    leaves the loop ([inr]), run for at most [2 ^ k] iterations. *)

Section Loops.
Context {A R : Type} (step : A -> A + R).

Fixpoint loop_pow (k : nat) (s : A) : A + R :=
  match k with
  | O => step s
  | S k => match loop_pow k s with inl s => loop_pow k s | inr r => inr r end
  end.

(** What the body preserves, the loop preserves. *)
Lemma loop_pow_preserves (P : A -> Prop) (Q : R -> Prop) :
  (forall s, P s -> match step s with inl s' => P s' | inr r => Q r end) ->
  forall k s, P s -> match loop_pow k s with inl s' => P s' | inr r => Q r end.
Proof.
  intros Hstep k. induction k as [|k IH]; intros s Hs; [by apply Hstep|]. cbn [loop_pow].
  specialize (IH s Hs) as H1. destruct (loop_pow k s); [by apply IH|done].
Qed.

(** A body that preserves [P] and lowers a measure below [2 ^ k] returns. *)
Lemma loop_pow_returns (P : A -> Prop) (Q : R -> Prop) (m : A -> Z) :
  (forall s, P s -> 0 <= m s) ->
  (forall s, P s -> match step s with inl s' => P s' /\ m s' < m s | inr r => Q r end) ->
  forall k s, P s -> m s < 2 ^ Z.of_nat k -> exists r, loop_pow k s = inr r /\ Q r.
Proof.
  intros Hm Hstep k s Hs Hk.
  assert (forall k s, P s -> match loop_pow k s with
    | inl s' => P s' /\ m s' + 2 ^ Z.of_nat k <= m s | inr r => Q r end) as Hl.
  { clear k s Hs Hk. induction k as [|k IH]; intros s Hs; cbn [loop_pow].
    - specialize (Hstep s Hs). destruct (step s); [|done].
      change (2 ^ Z.of_nat 0) with 1. split; [tauto|lia].
    - pose proof (IH s Hs) as H1. destruct (loop_pow k s) as [s1|r]; [|done].
      destruct H1 as [HP1 H1]. pose proof (IH s1 HP1) as H2.
      destruct (loop_pow k s1) as [s2|r]; [|done].
      rewrite Nat2Z.inj_succ, Z.pow_succ_r by lia. split; [tauto|lia]. }
  specialize (Hl k s Hs). destruct (loop_pow k s) as [s'|r]; [|eauto].
  destruct Hl as [HP Hl]. pose proof (Hm s' HP). lia.
Qed.
End Loops.

(** ** Automation

    [rsd] closes range side conditions: results of the word operations and
    counts stay in their ranges. *)

Create HintDb rsd.
Create Rewrite HintDb rsd.
#[export] Hint Resolve wrap_fits land_fits : rsd.
#[export] Hint Extern 1 (_ <= _) => lia : rsd.
#[export] Hint Extern 1 (_ < _) => lia : rsd.
#[export] Hint Rewrite @length_insert @length_replicate @length_app : rsd.

(** The value of a machine operation whose exact result is representable. *)
Ltac unwrap := rewrite !wrap_small by (unfold fits; lia).

