(* ===== verification/Frames.v ===== *)
(** * Physical frame allocator ([src/kernel/physical_memory.c]) *)

From stdpp Require Import base list numbers gmap.
From S2P Require Import Prelude.

Definition RSD_PAGE_SIZE : Z := 4096.
Definition RSD_LOW_MEMORY_RESERVATION : Z := 0x100000.
Definition RSD_EARLY_PHYSICAL_LIMIT : Z := 0x100000000.
Definition FRAME_CONTIGUOUS_ALLOCATION_CAPACITY : nat := 32.
Definition FRAME_COUNT : Z := RSD_EARLY_PHYSICAL_LIMIT / RSD_PAGE_SIZE.
Definition ISA_DMA_FRAME_LIMIT : Z := 0x1000000 / RSD_PAGE_SIZE.
Definition MULTIBOOT2_MEMORY_AVAILABLE : Z := 1.

Inductive frame_status :=
  | FRAME_STATUS_OK
  | FRAME_STATUS_NULL_ARGUMENT
  | FRAME_STATUS_NOT_INITIALIZED
  | FRAME_STATUS_BAD_MEMORY_MAP
  | FRAME_STATUS_RANGE_OVERFLOW
  | FRAME_STATUS_RANGE_OUTSIDE_LIMIT
  | FRAME_STATUS_OUT_OF_MEMORY
  | FRAME_STATUS_UNALIGNED_ADDRESS
  | FRAME_STATUS_FRAME_NOT_ALLOCATABLE
  | FRAME_STATUS_FRAME_IN_USE
  | FRAME_STATUS_DOUBLE_FREE
  | FRAME_STATUS_ZERO_PAGE_COUNT
  | FRAME_STATUS_BAD_ALIGNMENT
  | FRAME_STATUS_ALIGNMENT_UNSATISFIABLE
  | FRAME_STATUS_ADDRESS_BOUND_UNSATISFIED
  | FRAME_STATUS_TOO_MANY_CONTIGUOUS_ALLOCATIONS
  | FRAME_STATUS_BAD_CONTIGUOUS_ALLOCATION.

#[global] Instance frame_status_eq_dec : EqDecision frame_status.
Proof. solve_decision. Defined.

(** ** Data *)

(** A byte array of [BITMAP_BYTE_COUNT] bytes: the value every byte was last
    filled with and the bytes stored since. *)
Record bitmap := Bitmap { bm_fill : Z; bm_bytes : gmap Z Z }.

Definition bitmap_byte (b : bitmap) (index : Z) : Z :=
  default (bm_fill b) (bm_bytes b !! index).

Record frame_allocator_stats := Stats {
  addressable_frames : Z;
  allocatable_frames : Z;
  free_frames : Z;
  allocated_frames : Z;
  reserved_frames : Z;
  highest_allocatable_address : Z
}.

Record contiguous_record := ContiguousRecord {
  cr_physical_base : Z;
  cr_page_count : Z;
  cr_identifier : Z;
  cr_active : bool
}.

#[global] Instance contiguous_record_inhabited : Inhabited contiguous_record :=
  populate (ContiguousRecord 0 0 0 false).

Record frame_contiguous_request := ContiguousRequest {
  req_page_count : Z;
  req_alignment : Z;
  req_maximum_physical_address : Z
}.

Record frame_contiguous_allocation := ContiguousAllocation {
  ca_physical_base : Z;
  ca_page_count : Z;
  ca_alignment : Z;
  ca_maximum_physical_address : Z;
  ca_identifier : Z;
  ca_active : bool
}.

(** The file's static storage. *)
Record frames := Frames {
  eligible_bitmap : bitmap;
  used_bitmap : bitmap;
  allocator_stats : frame_allocator_stats;
  next_search_index : Z;
  allocator_initialized : bool;
  contiguous_records : list contiguous_record;
  next_contiguous_identifier : Z
}.

Record boot_memory_region := Region {
  base_address : Z;
  region_length : Z;
  region_type : Z
}.

Record boot_information := BootInformation {
  memory_map : option (list boot_memory_region);
  memory_map_entry_count : Z;
  information_start : Z;
  information_end : Z
}.

(** ** Bitmaps *)

Definition bitmap_get (b : bitmap) (frame_index : Z) : bool :=
  let mask := u8 (1 .<< (frame_index mod 8)) in
  negb (bitmap_byte b (frame_index / 8) .& mask =? 0).

Definition bitmap_set (b : bitmap) (frame_index : Z) (value : bool) : bitmap :=
  let mask := u8 (1 .<< (frame_index mod 8)) in
  let byte := bitmap_byte b (frame_index / 8) in
  let byte := if value then u8 (byte .| mask) else byte .& u8 (Z.lnot mask) in
  Bitmap (bm_fill b) (<[frame_index / 8 := byte]> (bm_bytes b)).

Definition bitmap_fill (value : Z) : bitmap := Bitmap value ∅.

(** [for (frame = first; n iterations; ++frame) bitmap_set(b, frame, v);] *)
Fixpoint bitmap_set_run (n : nat) (first : Z) (v : bool) (b : bitmap) : bitmap :=
  match n with
  | O => b
  | S n => bitmap_set_run n (first + 1) v (bitmap_set b first v)
  end.

(** [for (i = first; n iterations; ++i) if (p(i)) return true;] *)
Fixpoint any_frame (n : nat) (first : Z) (p : Z -> bool) : bool :=
  match n with
  | O => false
  | S n => if p first then true else any_frame n (first + 1) p
  end.

(** ** Ranges *)

Definition checked_range_end (base length : Z) : option Z :=
  if UINT64_MAX - base <? length then None else Some (base + length).

Definition power_of_two (value : Z) : bool :=
  negb (value =? 0) && (value .& (value - 1) =? 0).

Definition frame_in_contiguous_allocation (s : frames) (frame : Z) : bool :=
  existsb
    (fun record =>
       let first := cr_physical_base record / RSD_PAGE_SIZE in
       cr_active record && (first <=? frame) &&
       (frame - first <? cr_page_count record))
    (contiguous_records s).

Definition available_frame_bounds (base length : Z) : frame_status * Z * Z :=
  let page_mask := RSD_PAGE_SIZE - 1 in
  match checked_range_end base length with
  | None => (FRAME_STATUS_RANGE_OVERFLOW, 0, 0)
  | Some endp =>
      if (length =? 0) || (RSD_EARLY_PHYSICAL_LIMIT <=? base) then
        (FRAME_STATUS_OK, 0, 0)
      else
        let clipped_end :=
          if endp <? RSD_EARLY_PHYSICAL_LIMIT then endp
          else RSD_EARLY_PHYSICAL_LIMIT in
        let aligned_base := u64 (base + page_mask) .& not64 page_mask in
        if clipped_end <=? aligned_base then (FRAME_STATUS_OK, 0, 0)
        else
          (FRAME_STATUS_OK, aligned_base / RSD_PAGE_SIZE,
           (clipped_end .& not64 page_mask) / RSD_PAGE_SIZE)
  end.

Definition covering_frame_bounds (base length : Z) : frame_status * Z * Z :=
  match checked_range_end base length with
  | None => (FRAME_STATUS_RANGE_OVERFLOW, 0, 0)
  | Some endp =>
      if length =? 0 then (FRAME_STATUS_OK, 0, 0)
      else if RSD_EARLY_PHYSICAL_LIMIT <=? base then
        (FRAME_STATUS_RANGE_OUTSIDE_LIMIT, 0, 0)
      else
        let clipped_end :=
          if endp <? RSD_EARLY_PHYSICAL_LIMIT then endp
          else RSD_EARLY_PHYSICAL_LIMIT in
        let past := clipped_end / RSD_PAGE_SIZE in
        (FRAME_STATUS_OK, base / RSD_PAGE_SIZE,
         if clipped_end .& (RSD_PAGE_SIZE - 1) =? 0 then past else past + 1)
  end.

(** ** State updates *)

Definition set_bitmaps (e u : bitmap) (s : frames) : frames :=
  Frames e u (allocator_stats s) (next_search_index s) (allocator_initialized s)
    (contiguous_records s) (next_contiguous_identifier s).

Definition set_stats (st : frame_allocator_stats) (s : frames) : frames :=
  Frames (eligible_bitmap s) (used_bitmap s) st (next_search_index s)
    (allocator_initialized s) (contiguous_records s) (next_contiguous_identifier s).

Definition set_search (n : Z) (s : frames) : frames :=
  Frames (eligible_bitmap s) (used_bitmap s) (allocator_stats s) n
    (allocator_initialized s) (contiguous_records s) (next_contiguous_identifier s).

Definition set_initialized (b : bool) (s : frames) : frames :=
  Frames (eligible_bitmap s) (used_bitmap s) (allocator_stats s)
    (next_search_index s) b (contiguous_records s) (next_contiguous_identifier s).

Definition set_records (rs : list contiguous_record) (next : Z) (s : frames) : frames :=
  Frames (eligible_bitmap s) (used_bitmap s) (allocator_stats s)
    (next_search_index s) (allocator_initialized s) rs next.

(** [free_frames += n; allocated_frames -= n], at the width of [size_t]. *)
Definition stats_shift (n : Z) (st : frame_allocator_stats) : frame_allocator_stats :=
  Stats (addressable_frames st) (allocatable_frames st) (u64 (free_frames st + n))
    (u64 (allocated_frames st - n)) (reserved_frames st)
    (highest_allocatable_address st).

Definition frame_eligible (s : frames) (f : Z) : bool := bitmap_get (eligible_bitmap s) f.
Definition frame_used (s : frames) (f : Z) : bool := bitmap_get (used_bitmap s) f.

(** The allocators' test of one frame: eligible and not used. *)
Definition frame_is_free (s : frames) (f : Z) : bool :=
  frame_eligible s f && negb (frame_used s f).

(** ** Marking *)

Definition mark_available_frames (first past : Z) (s : frames) : frames :=
  set_bitmaps (bitmap_set_run (Z.to_nat (past - first)) first true (eligible_bitmap s))
    (bitmap_set_run (Z.to_nat (past - first)) first false (used_bitmap s)) s.

Definition mark_reserved_frames (first past : Z) (s : frames) : frames :=
  set_bitmaps (bitmap_set_run (Z.to_nat (past - first)) first false (eligible_bitmap s))
    (bitmap_set_run (Z.to_nat (past - first)) first true (used_bitmap s)) s.

Definition reserve_internal (base length : Z) (s : frames) : frame_status * frames :=
  match covering_frame_bounds base length with
  | (FRAME_STATUS_OK, first, past) => (FRAME_STATUS_OK, mark_reserved_frames first past s)
  | (status, _, _) => (status, s)
  end.

(** One iteration of the census over every frame. *)
Definition recompute_frame (s : frames) (frame : Z) (st : frame_allocator_stats) :
    frame_allocator_stats :=
  if negb (frame_eligible s frame) then
    Stats (addressable_frames st) (allocatable_frames st) (free_frames st)
      (allocated_frames st) (reserved_frames st + 1) (highest_allocatable_address st)
  else if frame_used s frame then
    Stats (addressable_frames st) (allocatable_frames st + 1) (free_frames st)
      (allocated_frames st + 1) (reserved_frames st) ((frame + 1) * RSD_PAGE_SIZE)
  else
    Stats (addressable_frames st) (allocatable_frames st + 1) (free_frames st + 1)
      (allocated_frames st) (reserved_frames st) ((frame + 1) * RSD_PAGE_SIZE).

Fixpoint recompute_run (s : frames) (n : nat) (frame : Z) (st : frame_allocator_stats) :
    frame_allocator_stats :=
  match n with
  | O => st
  | S n => recompute_run s n (frame + 1) (recompute_frame s frame st)
  end.

Definition recompute_stats (s : frames) : frames :=
  set_stats (recompute_run s (Z.to_nat FRAME_COUNT) 0 (Stats FRAME_COUNT 0 0 0 0 0)) s.

(** ** Initialization *)

Definition boot_information_region_at (context : boot_information) (index : Z) :
    option boot_memory_region :=
  match memory_map context with
  | None => None
  | Some entries =>
      if memory_map_entry_count context <=? index then None
      else entries !! Z.to_nat index
  end.

(** One pass over the memory map: pass 0 marks the available regions, pass 1
    the reserved ones. *)
Fixpoint apply_memory_map_pass (context : boot_information) (pass0 : bool)
    (n : nat) (index : Z) (s : frames) : frame_status * frames :=
  match n with
  | O => (FRAME_STATUS_OK, s)
  | S n =>
      match boot_information_region_at context index with
      | None => (FRAME_STATUS_BAD_MEMORY_MAP, s)
      | Some region =>
          let available := region_type region =? MULTIBOOT2_MEMORY_AVAILABLE in
          let continue := apply_memory_map_pass context pass0 n (index + 1) in
          if negb (Bool.eqb pass0 available) then continue s
          else if available then
            match available_frame_bounds (base_address region) (region_length region) with
            | (FRAME_STATUS_OK, first, past) => continue (mark_available_frames first past s)
            | (status, _, _) => (status, s)
            end
          else
            match covering_frame_bounds (base_address region) (region_length region) with
            | (FRAME_STATUS_RANGE_OUTSIDE_LIMIT, _, _) => continue s
            | (FRAME_STATUS_OK, first, past) => continue (mark_reserved_frames first past s)
            | (status, _, _) => (status, s)
            end
      end
  end.

Definition apply_memory_map (context : boot_information) (s : frames) :
    frame_status * frames :=
  let n := Z.to_nat (memory_map_entry_count context) in
  match apply_memory_map_pass context true n 0 s with
  | (FRAME_STATUS_OK, s) => apply_memory_map_pass context false n 0 s
  | failed => failed
  end.

(** [kernel_start] and [kernel_end] are the linker's [__kernel_start] and
    [__kernel_end]. *)
Definition frame_allocator_initialize (kernel_start kernel_end : Z)
    (context : option boot_information) (s : frames) : frame_status * frames :=
  match context with
  | None => (FRAME_STATUS_NULL_ARGUMENT, s)
  | Some context =>
      match memory_map context with
      | None => (FRAME_STATUS_NULL_ARGUMENT, s)
      | Some _ =>
          let s := Frames (bitmap_fill 0) (bitmap_fill 255) (allocator_stats s) 0 false
            (replicate FRAME_CONTIGUOUS_ALLOCATION_CAPACITY (ContiguousRecord 0 0 0 false)) 1 in
          match apply_memory_map context s with
          | (FRAME_STATUS_OK, s) =>
              match reserve_internal 0 RSD_LOW_MEMORY_RESERVATION s with
              | (FRAME_STATUS_OK, s) =>
                  if kernel_end <? kernel_start then (FRAME_STATUS_RANGE_OVERFLOW, s)
                  else
                    match reserve_internal kernel_start (kernel_end - kernel_start) s with
                    | (FRAME_STATUS_OK, s) =>
                        match reserve_internal (information_start context)
                          (u64 (information_end context - information_start context)) s with
                        | (FRAME_STATUS_OK, s) =>
                            let s := recompute_stats s in
                            if free_frames (allocator_stats s) =? 0 then
                              (FRAME_STATUS_OUT_OF_MEMORY, s)
                            else
                              (FRAME_STATUS_OK,
                               set_initialized true
                                 (set_search (RSD_LOW_MEMORY_RESERVATION / RSD_PAGE_SIZE) s))
                        | failed => failed
                        end
                    | failed => failed
                    end
              | failed => failed
              end
          | failed => failed
          end
      end
  end.

(** ** Single frames *)

(** The inner scan of one pass: [n] steps left from [step]. *)
Fixpoint scan_frames (s : frames) (first start count : Z) (n : nat) (step : Z) : option Z :=
  match n with
  | O => None
  | S n =>
      let frame := first + (start - first + step) mod count in
      if frame_is_free s frame then Some frame
      else scan_frames s first start count n (step + 1)
  end.

Definition scan_pass (s : frames) (first past : Z) : option Z :=
  let count := past - first in
  let next := next_search_index s in
  let start := if (first <=? next) && (next <? past) then next else first in
  scan_frames s first start count (Z.to_nat count) 0.

Definition take_frame (frame : Z) (s : frames) : frames :=
  let s := set_bitmaps (eligible_bitmap s) (bitmap_set (used_bitmap s) frame true) s in
  let s := set_stats (stats_shift (-1) (allocator_stats s)) s in
  set_search (if frame + 1 =? FRAME_COUNT then ISA_DMA_FRAME_LIMIT else frame + 1) s.

Definition frame_allocate (physical_address : option Z) (s : frames) :
    frame_status * option Z * frames :=
  match physical_address with
  | None => (FRAME_STATUS_NULL_ARGUMENT, None, s)
  | Some old =>
      if negb (allocator_initialized s) then
        (FRAME_STATUS_NOT_INITIALIZED, Some old, s)
      else if free_frames (allocator_stats s) =? 0 then
        (FRAME_STATUS_OUT_OF_MEMORY, Some old, s)
      else
        match scan_pass s ISA_DMA_FRAME_LIMIT FRAME_COUNT with
        | Some frame => (FRAME_STATUS_OK, Some (frame * RSD_PAGE_SIZE), take_frame frame s)
        | None =>
            match scan_pass s 0 ISA_DMA_FRAME_LIMIT with
            | Some frame => (FRAME_STATUS_OK, Some (frame * RSD_PAGE_SIZE), take_frame frame s)
            | None => (FRAME_STATUS_OUT_OF_MEMORY, Some old, s)
            end
        end
  end.

Definition frame_release (physical_address : Z) (s : frames) : frame_status * frames :=
  if negb (allocator_initialized s) then (FRAME_STATUS_NOT_INITIALIZED, s)
  else if negb (physical_address .& (RSD_PAGE_SIZE - 1) =? 0) then
    (FRAME_STATUS_UNALIGNED_ADDRESS, s)
  else if RSD_EARLY_PHYSICAL_LIMIT <=? physical_address then
    (FRAME_STATUS_RANGE_OUTSIDE_LIMIT, s)
  else
    let frame := physical_address / RSD_PAGE_SIZE in
    if negb (frame_eligible s frame) then (FRAME_STATUS_FRAME_NOT_ALLOCATABLE, s)
    else if negb (frame_used s frame) then (FRAME_STATUS_DOUBLE_FREE, s)
    else if frame_in_contiguous_allocation s frame then (FRAME_STATUS_FRAME_IN_USE, s)
    else
      let s := set_bitmaps (eligible_bitmap s) (bitmap_set (used_bitmap s) frame false) s in
      let s := set_stats (stats_shift 1 (allocator_stats s)) s in
      (FRAME_STATUS_OK,
       if frame <? next_search_index s then set_search frame s else s).

(** ** Contiguous runs *)

(** The search over aligned bases: [n] candidates left from frame [first]. *)
Fixpoint find_run (s : frames) (alignment page_count : Z) (n : nat) (first : Z) : option Z :=
  match n with
  | O => None
  | S n =>
      if negb ((first * RSD_PAGE_SIZE) .& (alignment - 1) =? 0) then
        find_run s alignment page_count n (first + 1)
      else if any_frame (Z.to_nat page_count) first (fun f => negb (frame_is_free s f)) then
        find_run s alignment page_count n (first + 1)
      else Some first
  end.

Definition empty_allocation : frame_contiguous_allocation :=
  ContiguousAllocation 0 0 0 0 0 false.

(** The refusals of [frame_allocate_contiguous] before its search, in order. *)
Definition contiguous_request_check (s : frames) (request : frame_contiguous_request) :
    frame_status :=
  let page_count := req_page_count request in
  let alignment := req_alignment request in
  let maximum := req_maximum_physical_address request in
  let length := u64 (page_count * RSD_PAGE_SIZE) in
  if negb (allocator_initialized s) then FRAME_STATUS_NOT_INITIALIZED
  else if page_count =? 0 then FRAME_STATUS_ZERO_PAGE_COUNT
  else if negb (power_of_two alignment) || (alignment <? RSD_PAGE_SIZE) ||
          negb (alignment mod RSD_PAGE_SIZE =? 0) then FRAME_STATUS_BAD_ALIGNMENT
  else if (RSD_EARLY_PHYSICAL_LIMIT <? alignment) ||
          (maximum + (if maximum =? UINT64_MAX then 0 else 1) <? alignment) then
    FRAME_STATUS_ALIGNMENT_UNSATISFIABLE
  else if UINT64_MAX / RSD_PAGE_SIZE <? page_count then FRAME_STATUS_RANGE_OVERFLOW
  else if (length =? 0) || (maximum <? length - 1) then
    FRAME_STATUS_ADDRESS_BOUND_UNSATISFIED
  else FRAME_STATUS_OK.

(** [maximum_past_frame]: the frames below the inclusive address bound. *)
Definition contiguous_past_frame (maximum : Z) : Z :=
  let bound_end := if maximum =? UINT64_MAX then UINT64_MAX else maximum + 1 in
  (if RSD_EARLY_PHYSICAL_LIMIT <? bound_end then RSD_EARLY_PHYSICAL_LIMIT else bound_end)
  / RSD_PAGE_SIZE.

Definition take_run (record_index : nat) (request : frame_contiguous_request) (first : Z)
    (s : frames) : frame_contiguous_allocation * frames :=
  let page_count := req_page_count request in
  let base := first * RSD_PAGE_SIZE in
  let identifier := next_contiguous_identifier s in
  let next := u64 (identifier + 1) in
  let s := set_bitmaps (eligible_bitmap s)
    (bitmap_set_run (Z.to_nat page_count) first true (used_bitmap s)) s in
  let s := set_records
    (<[record_index := ContiguousRecord base page_count identifier true]>
       (contiguous_records s))
    (if next =? 0 then 1 else next) s in
  let s := set_stats (stats_shift (- page_count) (allocator_stats s)) s in
  let search := first + page_count in
  let s := set_search (if FRAME_COUNT <=? search then 0 else search) s in
  (ContiguousAllocation base page_count (req_alignment request)
     (req_maximum_physical_address request) identifier true, s).

Definition frame_allocate_contiguous (request : option frame_contiguous_request)
    (allocation : option frame_contiguous_allocation) (s : frames) :
    frame_status * option frame_contiguous_allocation * frames :=
  match request, allocation with
  | Some request, Some _ =>
      let refuse status := (status, Some empty_allocation, s) in
      match contiguous_request_check s request with
      | FRAME_STATUS_OK =>
          let page_count := req_page_count request in
          let past := contiguous_past_frame (req_maximum_physical_address request) in
          if past <? page_count then refuse FRAME_STATUS_ADDRESS_BOUND_UNSATISFIED
          else
            match first_index (fun r => negb (cr_active r)) (contiguous_records s) with
            | None => refuse FRAME_STATUS_TOO_MANY_CONTIGUOUS_ALLOCATIONS
            | Some record_index =>
                match find_run s (req_alignment request) page_count
                        (Z.to_nat (past - page_count + 1)) 0 with
                | None => refuse FRAME_STATUS_OUT_OF_MEMORY
                | Some first =>
                    let '(result, s) := take_run record_index request first s in
                    (FRAME_STATUS_OK, Some result, s)
                end
            end
      | status => refuse status
      end
  | _, _ => (FRAME_STATUS_NULL_ARGUMENT, allocation, s)
  end.

Definition record_matches (identifier : Z) (r : contiguous_record) : bool :=
  cr_active r && (cr_identifier r =? identifier).

Definition deactivate_record (r : contiguous_record) : contiguous_record :=
  ContiguousRecord (cr_physical_base r) (cr_page_count r) (cr_identifier r) false.

Definition deactivate_allocation (a : frame_contiguous_allocation) :
    frame_contiguous_allocation :=
  ContiguousAllocation (ca_physical_base a) (ca_page_count a) (ca_alignment a)
    (ca_maximum_physical_address a) (ca_identifier a) false.

Definition drop_run (record_index : nat) (record : contiguous_record) (s : frames) : frames :=
  let first := cr_physical_base record / RSD_PAGE_SIZE in
  let n := cr_page_count record in
  let s := set_bitmaps (eligible_bitmap s)
    (bitmap_set_run (Z.to_nat n) first false (used_bitmap s)) s in
  let s := set_stats (stats_shift n (allocator_stats s)) s in
  let s := if first <? next_search_index s then set_search first s else s in
  set_records (<[record_index := deactivate_record record]> (contiguous_records s))
    (next_contiguous_identifier s) s.

Definition frame_release_contiguous (allocation : option frame_contiguous_allocation)
    (s : frames) : frame_status * option frame_contiguous_allocation * frames :=
  match allocation with
  | None => (FRAME_STATUS_NULL_ARGUMENT, None, s)
  | Some a =>
      let refuse status := (status, Some a, s) in
      if negb (allocator_initialized s) then refuse FRAME_STATUS_NOT_INITIALIZED
      else if negb (ca_active a) then refuse FRAME_STATUS_DOUBLE_FREE
      else
        match first_index (record_matches (ca_identifier a)) (contiguous_records s) with
        | None => refuse FRAME_STATUS_DOUBLE_FREE
        | Some record_index =>
            let record := contiguous_records s !!! record_index in
            if negb (cr_physical_base record =? ca_physical_base a) ||
               negb (cr_page_count record =? ca_page_count a) then
              refuse FRAME_STATUS_BAD_CONTIGUOUS_ALLOCATION
            else if any_frame (Z.to_nat (cr_page_count record))
                      (cr_physical_base record / RSD_PAGE_SIZE)
                      (fun f => negb (frame_eligible s f) || negb (frame_used s f)) then
              refuse FRAME_STATUS_BAD_CONTIGUOUS_ALLOCATION
            else
              (FRAME_STATUS_OK, Some (deactivate_allocation a),
               drop_run record_index record s)
        end
  end.

Definition frame_reserve_range (base length : Z) (s : frames) : frame_status * frames :=
  if negb (allocator_initialized s) then (FRAME_STATUS_NOT_INITIALIZED, s)
  else
    match covering_frame_bounds base length with
    | (FRAME_STATUS_OK, first, past) =>
        if any_frame (Z.to_nat (past - first)) first
             (fun f => frame_eligible s f && frame_used s f) then
          (FRAME_STATUS_FRAME_IN_USE, s)
        else (FRAME_STATUS_OK, recompute_stats (mark_reserved_frames first past s))
    | (status, _, _) => (status, s)
    end.

Definition frame_range_overlaps_allocatable_memory (base length : Z) (s : frames) : bool :=
  if negb (allocator_initialized s) || (length =? 0) then false
  else
    match checked_range_end base length with
    | None => false
    | Some endp =>
        if RSD_EARLY_PHYSICAL_LIMIT <=? base then false
        else
          let endp :=
            if RSD_EARLY_PHYSICAL_LIMIT <? endp then RSD_EARLY_PHYSICAL_LIMIT else endp in
          let first := base / RSD_PAGE_SIZE in
          let past := endp / RSD_PAGE_SIZE in
          let past := if endp .& (RSD_PAGE_SIZE - 1) =? 0 then past else past + 1 in
          any_frame (Z.to_nat (past - first)) first (frame_eligible s)
    end.

(** ** Bitmap laws *)

Definition bitmap_wf (b : bitmap) : Prop :=
  fits 8 (bm_fill b) /\ map_Forall (fun _ v => fits 8 v) (bm_bytes b).

Lemma bitmap_byte_fits b i : bitmap_wf b -> fits 8 (bitmap_byte b i).
Proof.
  intros [Hf Hb]. unfold bitmap_byte. destruct (bm_bytes b !! i) eqn:E; simpl; [|done].
  by apply (Hb i).
Qed.

Lemma mask_bit k : 0 <= k < 8 -> u8 (1 .<< k) = 2 ^ k.
Proof.
  intros. rewrite Z.shiftl_1_l. apply wrap_small. split; [lia|].
  apply Z.pow_lt_mono_r; lia.
Qed.

Lemma land_bit x k : 0 <= k -> negb (x .& 2 ^ k =? 0) = Z.testbit x k.
Proof.
  intros Hk. destruct (Z.testbit x k) eqn:E.
  - apply negb_true_iff, Z.eqb_neq. intros H0.
    assert (Z.testbit (x .& 2 ^ k) k = true) as Ht.
    { by rewrite Z.land_spec, E, Z.pow2_bits_true. }
    by rewrite H0, Z.bits_0 in Ht.
  - apply negb_false_iff, Z.eqb_eq. apply Z.bits_inj'. intros n Hn.
    rewrite Z.land_spec, Z.bits_0, Z.pow2_bits_eqb by lia.
    destruct (Z.eqb_spec k n) as [<-|]; [by rewrite E|by rewrite andb_false_r].
Qed.

Lemma bitmap_get_testbit b f :
  bitmap_get b f = Z.testbit (bitmap_byte b (f / 8)) (f mod 8).
Proof.
  unfold bitmap_get. pose proof (Z.mod_pos_bound f 8). rewrite mask_bit by lia.
  apply land_bit. lia.
Qed.

Lemma set_byte_fits byte k v :
  fits 8 byte -> 0 <= k < 8 ->
  fits 8 (if v : bool then u8 (byte .| 2 ^ k) else byte .& u8 (Z.lnot (2 ^ k))).
Proof.
  intros Hb Hk. destruct v; [by apply wrap_fits|by apply land_fits].
Qed.

Lemma set_byte_testbit byte k v j :
  fits 8 byte -> 0 <= k < 8 -> 0 <= j < 8 ->
  Z.testbit (if v : bool then u8 (byte .| 2 ^ k) else byte .& u8 (Z.lnot (2 ^ k))) j =
    if decide (j = k) then v else Z.testbit byte j.
Proof.
  intros Hb Hk Hj. unfold wrap. destruct v.
  - rewrite Z.mod_pow2_bits_low, Z.lor_spec, Z.pow2_bits_eqb by lia.
    case_decide; destruct (Z.eqb_spec k j); try lia; simpl; by destruct (Z.testbit byte j).
  - rewrite Z.land_spec, Z.mod_pow2_bits_low, Z.lnot_spec, Z.pow2_bits_eqb by lia.
    case_decide; destruct (Z.eqb_spec k j); try lia; simpl; by destruct (Z.testbit byte j).
Qed.

Lemma bitmap_set_wf b f v : bitmap_wf b -> bitmap_wf (bitmap_set b f v).
Proof.
  intros Hb. pose proof (Z.mod_pos_bound f 8). destruct (Hb) as [Hf Hm].
  split; [done|]. unfold bitmap_set. rewrite mask_bit by lia. simpl.
  apply map_Forall_insert_2; [|done].
  apply set_byte_fits; [by apply bitmap_byte_fits|lia].
Qed.

Lemma bitmap_get_set b f v g :
  bitmap_wf b ->
  bitmap_get (bitmap_set b f v) g = if decide (f = g) then v else bitmap_get b g.
Proof.
  intros Hb. rewrite !bitmap_get_testbit. unfold bitmap_set.
  pose proof (Z.mod_pos_bound f 8). pose proof (Z.mod_pos_bound g 8).
  rewrite mask_bit by lia. unfold bitmap_byte at 1. simpl.
  destruct (decide (f / 8 = g / 8)) as [E|E].
  - rewrite E, lookup_insert_eq. cbn [from_option id].
    rewrite set_byte_testbit by (try lia; by apply bitmap_byte_fits).
    pose proof (Z.div_mod f 8). pose proof (Z.div_mod g 8).
    repeat case_decide; try done; lia.
  - rewrite lookup_insert_ne by done. rewrite decide_False by congruence. done.
Qed.

Lemma bitmap_set_run_wf n first v b : bitmap_wf b -> bitmap_wf (bitmap_set_run n first v b).
Proof.
  revert first b. induction n as [|n IH]; intros; simpl; [done|].
  by apply IH, bitmap_set_wf.
Qed.

Lemma bitmap_get_set_run n first v b g :
  bitmap_wf b ->
  bitmap_get (bitmap_set_run n first v b) g =
    if decide (first <= g < first + Z.of_nat n) then v else bitmap_get b g.
Proof.
  revert first b. induction n as [|n IH]; intros first b Hb; simpl.
  { by rewrite decide_False by lia. }
  rewrite IH by (by apply bitmap_set_wf). rewrite bitmap_get_set by done.
  repeat case_decide; try lia; done.
Qed.

Lemma bitmap_get_fill_0 g : bitmap_get (bitmap_fill 0) g = false.
Proof. rewrite bitmap_get_testbit. apply Z.bits_0. Qed.

(** ** Census *)

Definition count_frames (p : Z -> bool) : Z := countb p (seqZ 0 FRAME_COUNT).

Definition frame_allocated (s : frames) (f : Z) : bool := frame_eligible s f && frame_used s f.

Definition stats_match (s : frames) : Prop :=
  free_frames (allocator_stats s) = count_frames (frame_is_free s) /\
  allocated_frames (allocator_stats s) = count_frames (frame_allocated s).

Lemma recompute_run_counts s n f st :
  let st' := recompute_run s n f st in
  free_frames st' = free_frames st + countb (frame_is_free s) (seqZ f (Z.of_nat n)) /\
  allocated_frames st' = allocated_frames st + countb (frame_allocated s) (seqZ f (Z.of_nat n)).
Proof.
  revert f st. induction n as [|n IH]; intros f st; [simpl; lia|].
  cbn zeta. cbn [recompute_run]. rewrite !countz_S.
  destruct (IH (f + 1) (recompute_frame s f st)) as [-> ->].
  unfold recompute_frame, frame_is_free, frame_allocated.
  destruct (frame_eligible s f), (frame_used s f); simpl; lia.
Qed.

Lemma FRAME_COUNT_nat : Z.of_nat (Z.to_nat FRAME_COUNT) = FRAME_COUNT.
Proof. apply Z2Nat.id. done. Qed.

Lemma recompute_stats_match s : stats_match (recompute_stats s).
Proof.
  unfold stats_match, count_frames, recompute_stats.
  pose proof FRAME_COUNT_nat as Hn. revert Hn.
  generalize (Z.to_nat FRAME_COUNT). intros n Hn. rewrite <- Hn.
  cbn [allocator_stats set_stats]. apply recompute_run_counts.
Qed.

(** ** Invariant *)

Definition run_first (r : contiguous_record) : Z := cr_physical_base r / RSD_PAGE_SIZE.

Definition in_run (r : contiguous_record) (f : Z) : Prop :=
  run_first r <= f < run_first r + cr_page_count r.

(** An active record names a page-aligned run of allocated frames. *)
Record run_ok (s : frames) (r : contiguous_record) : Prop := RunOk {
  run_base : cr_physical_base r = run_first r * RSD_PAGE_SIZE;
  run_low : 0 <= run_first r;
  run_count : 0 < cr_page_count r;
  run_high : run_first r + cr_page_count r <= FRAME_COUNT;
  run_used : forall f, in_run r f -> frame_allocated s f = true
}.

Record frames_wf (s : frames) : Prop := FramesWf {
  wf_eligible : bitmap_wf (eligible_bitmap s);
  wf_used : bitmap_wf (used_bitmap s);
  wf_stats : stats_match s;
  wf_search : 0 <= next_search_index s < FRAME_COUNT;
  wf_records : length (contiguous_records s) = FRAME_CONTIGUOUS_ALLOCATION_CAPACITY;
  wf_runs : forall i r, contiguous_records s !! i = Some r -> cr_active r = true ->
    run_ok s r;
  wf_disjoint : forall i j r q f,
    contiguous_records s !! i = Some r -> contiguous_records s !! j = Some q ->
    cr_active r = true -> cr_active q = true -> in_run r f -> in_run q f -> i = j;
  wf_identifiers : forall i r, contiguous_records s !! i = Some r -> cr_active r = true ->
    0 < cr_identifier r < next_contiguous_identifier s;
  wf_distinct : forall i j r q,
    contiguous_records s !! i = Some r -> contiguous_records s !! j = Some q ->
    cr_active r = true -> cr_active q = true ->
    cr_identifier r = cr_identifier q -> i = j;
  wf_next : 0 < next_contiguous_identifier s < 2 ^ 64
}.

(** Two states with the same eligibility whose use differs on [a, a + m) only. *)
Definition used_window (s s' : frames) (a m : Z) (v : bool) : Prop :=
  (forall f, frame_eligible s' f = frame_eligible s f) /\
  (forall f, frame_used s' f = if decide (a <= f < a + m) then v else frame_used s f).

Lemma counts_window s s' a m v :
  0 <= a -> 0 <= m -> a + m <= FRAME_COUNT -> used_window s s' a m v ->
  (forall f, a <= f < a + m -> frame_eligible s f = true /\ frame_used s f = negb v) ->
  count_frames (frame_is_free s') =
    count_frames (frame_is_free s) + (if v then - m else m) /\
  count_frames (frame_allocated s') =
    count_frames (frame_allocated s) - (if v then - m else m).
Proof.
  intros Ha Hm Hn [He Hu] Hw. unfold count_frames.
  rewrite (countz_update (frame_is_free s) (frame_is_free s') 0 _ a m),
    (countz_update (frame_allocated s) (frame_allocated s') 0 _ a m).
  2-9: try lia; unfold frame_is_free, frame_allocated; intros f ? ?;
    rewrite He, Hu; by rewrite decide_False by done.
  assert (Hin : forall f, a <= f < a + m ->
    frame_is_free s f = v /\ frame_is_free s' f = negb v /\
    frame_allocated s f = negb v /\ frame_allocated s' f = v).
  { intros f Hf. unfold frame_is_free, frame_allocated. rewrite He, Hu.
    rewrite decide_True by done. destruct (Hw f Hf) as [-> ->]. by destruct v. }
  destruct v; simpl in Hin.
  - rewrite (countz_all (frame_is_free s) a m), (countz_none (frame_is_free s') a m),
      (countz_none (frame_allocated s) a m), (countz_all (frame_allocated s') a m)
      by (try done; intros x Hx; by destruct (Hin x Hx) as (?&?&?&?)). lia.
  - rewrite (countz_none (frame_is_free s) a m), (countz_all (frame_is_free s') a m),
      (countz_all (frame_allocated s) a m), (countz_none (frame_allocated s') a m)
      by (try done; intros x Hx; by destruct (Hin x Hx) as (?&?&?&?)). lia.
Qed.

Lemma count_frames_bounds p : 0 <= count_frames p <= FRAME_COUNT.
Proof.
  unfold count_frames. pose proof (countb_bounds p (seqZ 0 FRAME_COUNT)) as H.
  rewrite length_seqZ, FRAME_COUNT_nat in H. done.
Qed.

Lemma count_frames_zero p f : count_frames p = 0 -> 0 <= f < FRAME_COUNT -> p f = false.
Proof.
  unfold count_frames. intros H0 Hf. apply (proj1 (countb_zero p _) H0 (Z.to_nat f)).
  apply lookup_seqZ. lia.
Qed.

Lemma count_frames_pos p f : 0 <= f < FRAME_COUNT -> p f = true -> 0 < count_frames p.
Proof. intros Hf. apply (countz_pos p 0 FRAME_COUNT f). by rewrite Z.add_0_l. Qed.

Lemma count_frames_exists p : count_frames p <> 0 -> exists f, p f = true.
Proof. exact (countz_nonzero p 0 FRAME_COUNT). Qed.

Lemma stats_shift_match s s' st k :
  stats_match s ->
  count_frames (frame_is_free s') = count_frames (frame_is_free s) + k ->
  count_frames (frame_allocated s') = count_frames (frame_allocated s) - k ->
  st = allocator_stats s -> allocator_stats s' = stats_shift k st -> stats_match s'.
Proof.
  intros [Hf Ha] Ef Ea -> Hs. unfold stats_match. rewrite Hs. simpl. rewrite Hf, Ha.
  rewrite <- Ef, <- Ea.
  pose proof (count_frames_bounds (frame_is_free s')).
  pose proof (count_frames_bounds (frame_allocated s')).
  assert (FRAME_COUNT < 2 ^ 64) by done.
  split; apply wrap_small; unfold fits; lia.
Qed.

(** ** The scan *)

Lemma scan_frames_Some s first start count n step f :
  0 < count -> scan_frames s first start count n step = Some f ->
  first <= f < first + count /\ frame_is_free s f = true.
Proof.
  intros Hc. revert step. induction n as [|n IH]; intros step; cbn [scan_frames]; [done|].
  case_match eqn:E; [|by apply IH]. intros [= <-]. split; [|done].
  pose proof (Z.mod_pos_bound (start - first + step) count). lia.
Qed.

Lemma scan_frames_None s first start count n step k :
  scan_frames s first start count n step = None ->
  step <= k < step + Z.of_nat n ->
  frame_is_free s (first + (start - first + k) mod count) = false.
Proof.
  revert step. induction n as [|n IH]; intros step; cbn [scan_frames]; [lia|].
  case_match eqn:E; [done|]. intros H Hk.
  destruct (Z.eq_dec k step) as [->|]; [done|]. apply (IH (step + 1)); [done|lia].
Qed.

Lemma scan_pass_Some s first past f :
  first < past -> scan_pass s first past = Some f ->
  first <= f < past /\ frame_is_free s f = true.
Proof.
  intros Hp H. apply scan_frames_Some in H; [|lia]. split; [lia|apply H].
Qed.

Lemma scan_pass_None s first past f :
  first <= f < past -> scan_pass s first past = None -> frame_is_free s f = false.
Proof.
  intros Hf. unfold scan_pass. set (start := if _ : bool then _ else _).
  intros H. apply (scan_frames_None _ _ _ _ _ _ ((f - start) mod (past - first))) in H.
  - rewrite Zplus_mod_idemp_r in H.
    replace (start - first + (f - start)) with (f - first) in H by lia.
    rewrite Z.mod_small in H by lia. by replace (first + (f - first)) with f in H by lia.
  - rewrite Z2Nat.id by lia. pose proof (Z.mod_pos_bound (f - start) (past - first)). lia.
Qed.

(** ** Single-frame operations *)

(** Only allocated frames leave the used set, and never one of [r]'s. *)
Lemma run_ok_window s s' a m v r :
  used_window s s' a m v -> (v = false -> forall f, a <= f < a + m -> ~ in_run r f) ->
  run_ok s r -> run_ok s' r.
Proof.
  intros [He Hu] Hv [Hb Hl Hc Hh Hr]. constructor; try done.
  intros f Hf. specialize (Hr f Hf). unfold frame_allocated in *. rewrite He, Hu.
  apply andb_true_iff in Hr as [-> Hr]. case_decide; [|done].
  destruct v; [done|]. exfalso. by eapply Hv.
Qed.

Lemma window_single s f v :
  bitmap_wf (used_bitmap s) ->
  used_window s (set_bitmaps (eligible_bitmap s) (bitmap_set (used_bitmap s) f v) s) f 1 v.
Proof.
  intros Hb. split; [done|]. intros g. unfold frame_used. simpl.
  rewrite bitmap_get_set by done. repeat case_decide; try done; lia.
Qed.

(** A change of one window that leaves the records alone keeps the invariant. *)
Lemma frames_wf_window s s' a m v :
  frames_wf s -> 0 <= a -> 0 <= m -> a + m <= FRAME_COUNT ->
  used_window s s' a m v ->
  (forall f, a <= f < a + m -> frame_eligible s f = true /\ frame_used s f = negb v) ->
  (v = false -> forall i r f, contiguous_records s !! i = Some r -> cr_active r = true ->
     a <= f < a + m -> ~ in_run r f) ->
  bitmap_wf (eligible_bitmap s') -> bitmap_wf (used_bitmap s') ->
  allocator_stats s' = stats_shift (if v then - m else m) (allocator_stats s) ->
  0 <= next_search_index s' < FRAME_COUNT ->
  contiguous_records s' = contiguous_records s ->
  next_contiguous_identifier s' = next_contiguous_identifier s ->
  frames_wf s'.
Proof.
  intros Hwf Ha Hm Hn Hw Hin Hrun He Hu Hst Hs Hr Hid.
  destruct (counts_window s s' a m v Ha Hm Hn Hw Hin) as [Hcf Hca].
  constructor; rewrite ?Hr, ?Hid; [exact He|exact Hu| |exact Hs| | | | | |]; try apply Hwf.
  - exact (stats_shift_match s s' _ _ (wf_stats s Hwf) Hcf Hca eq_refl Hst).
  - intros i r Hi Hact. apply (run_ok_window s s' a m v r Hw).
    + intros Hv f Hf. by eapply Hrun.
    + by eapply wf_runs.
Qed.

Lemma frame_is_free_iff s f :
  frame_is_free s f = true <-> frame_eligible s f = true /\ frame_used s f = false.
Proof. unfold frame_is_free. rewrite andb_true_iff, negb_true_iff. done. Qed.

Lemma next_search_bound frame :
  0 <= frame < FRAME_COUNT ->
  0 <= (if frame + 1 =? FRAME_COUNT then ISA_DMA_FRAME_LIMIT else frame + 1) < FRAME_COUNT.
Proof. intros. case_match eqn:E; [by vm_compute|]. lia. Qed.

Lemma take_frame_window s frame :
  frames_wf s -> used_window s (take_frame frame s) frame 1 true.
Proof. intros Hwf. apply window_single, Hwf. Qed.

Lemma take_frame_wf s frame :
  frames_wf s -> 0 <= frame < FRAME_COUNT -> frame_is_free s frame = true ->
  frames_wf (take_frame frame s).
Proof.
  intros Hwf Hf Hfree. apply frame_is_free_iff in Hfree as [He Hu].
  apply (frames_wf_window s _ frame 1 true); try done; try lia.
  - by apply take_frame_window.
  - intros f ?. by replace f with frame by lia.
  - apply Hwf.
  - simpl. apply bitmap_set_wf, Hwf.
  - by apply next_search_bound.
Qed.

(** Which frame a successful [frame_allocate] picks. *)
Definition frame_choice (s : frames) (frame : Z) : Prop :=
  0 <= frame < FRAME_COUNT /\ frame_is_free s frame = true /\
  (frame < ISA_DMA_FRAME_LIMIT ->
   forall f, ISA_DMA_FRAME_LIMIT <= f < FRAME_COUNT -> frame_is_free s f = false).

Lemma frame_allocate_cases s old :
  frames_wf s -> allocator_initialized s = true ->
  (exists frame, frame_choice s frame /\
     frame_allocate (Some old) s =
       (FRAME_STATUS_OK, Some (frame * RSD_PAGE_SIZE), take_frame frame s)) \/
  ((forall f, 0 <= f < FRAME_COUNT -> frame_is_free s f = false) /\
     frame_allocate (Some old) s = (FRAME_STATUS_OUT_OF_MEMORY, Some old, s)).
Proof.
  intros Hwf Hi. unfold frame_allocate. rewrite Hi. cbn [negb].
  assert (HISA : 0 < ISA_DMA_FRAME_LIMIT < FRAME_COUNT) by (by vm_compute).
  destruct (wf_stats s Hwf) as [Hfree _]. rewrite Hfree.
  destruct (Z.eqb_spec (count_frames (frame_is_free s)) 0) as [H0|H0].
  { right. split; [|done]. intros f. by apply count_frames_zero. }
  destruct (scan_pass s ISA_DMA_FRAME_LIMIT FRAME_COUNT) as [f|] eqn:E1.
  { left. exists f. apply scan_pass_Some in E1 as [Hf Hfr]; [|lia].
    split; [|done]. split; [lia|]. split; [done|lia]. }
  destruct (scan_pass s 0 ISA_DMA_FRAME_LIMIT) as [f|] eqn:E2.
  { left. exists f. apply scan_pass_Some in E2 as [Hf Hfr]; [|lia].
    split; [|done]. split; [lia|]. split; [done|].
    intros _ g Hg. exact (scan_pass_None _ _ _ _ Hg E1). }
  right. split; [|done]. intros f Hf.
  destruct (Z.lt_ge_cases f ISA_DMA_FRAME_LIMIT) as [Hlt|Hge].
  - exact (scan_pass_None s 0 _ f (conj (proj1 Hf) Hlt) E2).
  - exact (scan_pass_None s _ _ f (conj Hge (proj2 Hf)) E1).
Qed.

(** Window facts restated for the free set. *)
Lemma free_window s s' a m v f :
  used_window s s' a m v ->
  frame_is_free s' f =
    if decide (a <= f < a + m) then frame_eligible s f && negb v else frame_is_free s f.
Proof. intros [He Hu]. unfold frame_is_free. rewrite He, Hu. by case_decide. Qed.

Lemma in_contiguous_iff s f :
  frame_in_contiguous_allocation s f = true <->
  exists i r, contiguous_records s !! i = Some r /\ cr_active r = true /\ in_run r f.
Proof.
  unfold frame_in_contiguous_allocation. rewrite existsb_exists. split.
  - intros (r & Hin & Hr). apply list_elem_of_In, list_elem_of_lookup in Hin as [i Hi].
    apply andb_true_iff in Hr as [[Ha Hl]%andb_true_iff Hu].
    exists i, r. split; [done|]. split; [done|]. unfold in_run, run_first. lia.
  - intros (i & r & Hi & Ha & Hr). exists r. split.
    + apply list_elem_of_In, list_elem_of_lookup. eauto.
    + unfold in_run, run_first in Hr. cbv zeta. rewrite Ha, !andb_true_iff. lia.
Qed.

(** What a caller of [frame_release] may give back. *)
Definition releasable (s : frames) (pa : Z) : Prop :=
  pa mod RSD_PAGE_SIZE = 0 /\ pa < RSD_EARLY_PHYSICAL_LIMIT /\
  frame_allocated s (pa / RSD_PAGE_SIZE) = true /\
  frame_in_contiguous_allocation s (pa / RSD_PAGE_SIZE) = false.

Lemma page_mask_zero x : (x .& (RSD_PAGE_SIZE - 1) =? 0) = (x mod RSD_PAGE_SIZE =? 0).
Proof. change (RSD_PAGE_SIZE - 1) with (2 ^ 12 - 1). by rewrite land_mask. Qed.

(** The state after a successful release. *)
Definition drop_frame (frame : Z) (s : frames) : frames :=
  let s := set_bitmaps (eligible_bitmap s) (bitmap_set (used_bitmap s) frame false) s in
  let s := set_stats (stats_shift 1 (allocator_stats s)) s in
  if frame <? next_search_index s then set_search frame s else s.

Lemma frame_release_cases s pa :
  allocator_initialized s = true -> 0 <= pa ->
  (releasable s pa /\
     frame_release pa s = (FRAME_STATUS_OK, drop_frame (pa / RSD_PAGE_SIZE) s)) \/
  (~ releasable s pa /\ exists st, st <> FRAME_STATUS_OK /\ frame_release pa s = (st, s)).
Proof.
  intros Hi Hpa. unfold frame_release, releasable, frame_allocated. rewrite Hi.
  rewrite page_mask_zero. cbn [negb].
  destruct (Z.eqb_spec (pa mod RSD_PAGE_SIZE) 0); cbn [negb]; [|right; split; [intros (? & ? & ? & ?); simplify_eq/=; congruence|refused]].
  destruct (Z.leb_spec RSD_EARLY_PHYSICAL_LIMIT pa); [right; split; [lia|refused]|].
  destruct (frame_eligible s _) eqn:E1; cbn [negb]; [|right; split; [intros (? & ? & ? & ?); simplify_eq/=; congruence|refused]].
  destruct (frame_used s _) eqn:E2; cbn [negb]; [|right; split; [intros (? & ? & ? & ?); simplify_eq/=; congruence|refused]].
  destruct (frame_in_contiguous_allocation s _) eqn:E3; [right; split; [intros (? & ? & ? & ?); congruence|refused]|].
  left. done.
Qed.

Lemma drop_frame_window s frame :
  frames_wf s -> used_window s (drop_frame frame s) frame 1 false.
Proof.
  intros Hwf. unfold drop_frame. case_match; apply window_single, Hwf.
Qed.

Lemma allocated_iff s f :
  frame_allocated s f = true <-> frame_eligible s f = true /\ frame_used s f = true.
Proof. apply andb_true_iff. Qed.

Lemma drop_frame_wf s frame :
  frames_wf s -> 0 <= frame < FRAME_COUNT -> frame_allocated s frame = true ->
  frame_in_contiguous_allocation s frame = false -> frames_wf (drop_frame frame s).
Proof.
  intros Hwf Hf [He Hu]%allocated_iff Hc.
  pose proof (wf_search s Hwf).
  apply (frames_wf_window s _ frame 1 false); try lia; try done.
  - by apply drop_frame_window.
  - intros f ?. by replace f with frame by lia.
  - intros _ i r f Hi Ha Hr Hin. replace f with frame in Hin by lia.
    assert (frame_in_contiguous_allocation s frame = true) by (apply in_contiguous_iff; eauto).
    congruence.
  - unfold drop_frame. case_match; apply Hwf.
  - unfold drop_frame. case_match; simpl; apply bitmap_set_wf, Hwf.
  - unfold drop_frame. by case_match.
  - unfold drop_frame. case_match; simpl; [lia|apply Hwf].
  - unfold drop_frame. by case_match.
  - unfold drop_frame. by case_match.
Qed.

Lemma page_frame_bound pa : 0 <= pa < RSD_EARLY_PHYSICAL_LIMIT -> 0 <= pa / RSD_PAGE_SIZE < FRAME_COUNT.
Proof.
  intros. split; [apply Z.div_pos; [lia|done]|]. change FRAME_COUNT with 1048576.
  apply Z.div_lt_upper_bound; [done|]. change (RSD_PAGE_SIZE * 1048576) with RSD_EARLY_PHYSICAL_LIMIT.
  lia.
Qed.

(** C1: on a well-formed, initialized allocator [frame_allocate] either hands out
    one free frame inside the map (from the DMA-able low 16 MiB only when every
    frame above is taken) and removes exactly that frame from the free set, or
    reports exhaustion with nothing changed when no frame at all is free; the
    invariant, statistics included, is kept, and no other status is returned. *)
Theorem frame_allocate_correct s old :
  frames_wf s -> allocator_initialized s = true ->
  let '(st, out, s') := frame_allocate (Some old) s in
  frames_wf s' /\
  match st with
  | FRAME_STATUS_OK => exists frame,
      out = Some (frame * RSD_PAGE_SIZE) /\ frame_choice s frame /\
      (forall f, frame_is_free s' f = frame_is_free s f && negb (f =? frame)) /\
      contiguous_records s' = contiguous_records s
  | FRAME_STATUS_OUT_OF_MEMORY => out = Some old /\ s' = s /\
      forall f, 0 <= f < FRAME_COUNT -> frame_is_free s f = false
  | _ => False
  end.
Proof.
  intros Hwf Hi. destruct (frame_allocate_cases s old Hwf Hi) as
    [(frame & Hc & ->) | [Hn ->]]; [|by auto].
  pose proof Hc as (Hr & Hf & _). split; [by apply take_frame_wf|].
  exists frame. split; [done|]. split; [done|]. split; [|done].
  intros f. rewrite (free_window _ _ _ _ _ f (take_frame_window s frame Hwf)).
  case_decide; [replace f with frame by lia|]; destruct (Z.eqb_spec f frame); try lia.
  all: by rewrite ?andb_false_r, ?Z.eqb_refl, ?andb_true_r, ?andb_false_r.
Qed.

(** C36: [frame_release] succeeds exactly on the page-aligned address of an
    allocated frame that belongs to no live contiguous run; it then returns
    exactly that frame to the free set; any other call is refused with the
    state unchanged, and the invariant is kept. *)
Theorem frame_release_correct s pa :
  frames_wf s -> allocator_initialized s = true -> 0 <= pa ->
  let '(st, s') := frame_release pa s in
  frames_wf s' /\
  (st = FRAME_STATUS_OK <-> releasable s pa) /\
  (st <> FRAME_STATUS_OK -> s' = s) /\
  (st = FRAME_STATUS_OK -> forall f,
     frame_is_free s' f = frame_is_free s f || (f =? pa / RSD_PAGE_SIZE)).
Proof.
  intros Hwf Hi Hpa. destruct (frame_release_cases s pa Hi Hpa) as
    [[Hr ->] | [Hr (st & Hst & ->)]]; [|by tauto].
  pose proof Hr as (_ & Hlim & Ha & Hc).
  assert (0 <= pa / RSD_PAGE_SIZE < FRAME_COUNT) by (apply page_frame_bound; lia).
  split; [by apply drop_frame_wf|]. split; [done|]. split; [done|]. intros _ f.
  rewrite (free_window _ _ _ _ _ f (drop_frame_window s (pa / RSD_PAGE_SIZE) Hwf)).
  apply allocated_iff in Ha as [He Hu].
  case_decide; destruct (Z.eqb_spec f (pa / RSD_PAGE_SIZE)); try lia.
  - by rewrite e, He, orb_true_r.
  - by rewrite orb_false_r.
Qed.

(** A frame just handed out can be given back, and the free set is what it was. *)
Lemma take_drop_free s frame :
  frames_wf s -> frame_choice s frame ->
  let s' := take_frame frame s in
  frame_release (frame * RSD_PAGE_SIZE) s' =
    (if allocator_initialized s
     then (FRAME_STATUS_OK, drop_frame frame s') else (FRAME_STATUS_NOT_INITIALIZED, s')) /\
  (forall f, frame_is_free (drop_frame frame s') f = frame_is_free s f).
Proof.
  intros Hwf (Hb & Hf & _) s'. pose proof (take_frame_wf s frame Hwf Hb Hf) as Hwf'.
  pose proof (take_frame_window s frame Hwf) as Hw.
  apply frame_is_free_iff in Hf as [He Hu].
  assert (Hdiv : frame * RSD_PAGE_SIZE / RSD_PAGE_SIZE = frame) by (by apply Z.div_mul).
  assert (Ha : frame_allocated s' frame = true).
  { apply allocated_iff. destruct Hw as [-> ->]. by rewrite decide_True by lia. }
  split.
  - destruct (allocator_initialized s) eqn:Ei; [|unfold frame_release; simpl; by rewrite Ei].
    destruct (frame_release_cases s' (frame * RSD_PAGE_SIZE)) as [[_ ->] | [Hn _]];
      [done|unfold RSD_PAGE_SIZE; lia|by rewrite Hdiv|].
    destruct Hn. unfold releasable. rewrite Hdiv. split; [by apply Z.mod_mul|].
    split; [|split; [done|]].
    + change RSD_EARLY_PHYSICAL_LIMIT with (FRAME_COUNT * RSD_PAGE_SIZE).
      apply Z.mul_lt_mono_pos_r; [done|lia].
    + apply not_true_iff_false. intros (i & r & Hi & Hact & Hin)%in_contiguous_iff.
      pose proof (run_used _ _ (wf_runs s Hwf i r Hi Hact) frame Hin) as Hal.
      apply allocated_iff in Hal as [_ ?]. congruence.
  - intros f. rewrite (free_window _ _ _ _ _ f (drop_frame_window s' frame Hwf')).
    subst s'. rewrite (free_window _ _ _ _ _ f Hw).
    destruct Hw as [Hel _]. rewrite Hel.
    case_decide; [|done]. replace f with frame by lia. unfold frame_is_free.
    by rewrite He, Hu.
Qed.

Lemma take_drop_wf s frame :
  frames_wf s -> frame_choice s frame -> frames_wf (drop_frame frame (take_frame frame s)).
Proof.
  intros Hwf Hc. pose proof Hc as (Hb & Hf & _).
  pose proof (take_frame_window s frame Hwf) as [He Hu].
  apply frame_is_free_iff in Hf as [Hel Hus].
  apply drop_frame_wf; [by apply take_frame_wf; [..|apply frame_is_free_iff]|done| |].
  - apply allocated_iff. rewrite He, Hu. by rewrite decide_True by lia.
  - apply not_true_iff_false. intros (i & r & Hi & Hact & Hin)%in_contiguous_iff.
    pose proof (run_used _ _ (wf_runs s Hwf i r Hi Hact) frame Hin) as Hal.
    apply allocated_iff in Hal as [_ ?]. congruence.
Qed.

(** A frame that was just allocated can be released, which restores the
    free set and the free count. *)
Theorem frame_allocate_release_roundtrip s old pa s' :
  frames_wf s -> allocator_initialized s = true ->
  frame_allocate (Some old) s = (FRAME_STATUS_OK, Some pa, s') ->
  exists s'', frame_release pa s' = (FRAME_STATUS_OK, s'') /\ frames_wf s'' /\
    (forall f, frame_is_free s'' f = frame_is_free s f) /\
    free_frames (allocator_stats s'') = free_frames (allocator_stats s).
Proof.
  intros Hwf Hi Ha. destruct (frame_allocate_cases s old Hwf Hi) as
    [(frame & Hc & Heq) | [_ Heq]]; rewrite Heq in Ha; [|done].
  injection Ha as <- <-. destruct (take_drop_free s frame Hwf Hc) as [Hrel Hfree].
  rewrite Hi in Hrel. exists (drop_frame frame (take_frame frame s)).
  split; [exact Hrel|].
  pose proof Hc as (Hb & Hf & _).
  assert (Hwf'' : frames_wf (drop_frame frame (take_frame frame s))).
  { by apply take_drop_wf. }
  split; [done|]. split; [done|].
  rewrite (proj1 (wf_stats _ Hwf'')), (proj1 (wf_stats _ Hwf)).
  apply countz_ext. intros f _. apply Hfree.
Qed.

(** ** Contiguous runs *)

Lemma any_frame_true n first p :
  any_frame n first p = true <-> exists f, first <= f < first + Z.of_nat n /\ p f = true.
Proof.
  revert first. induction n as [|n IH]; intros first; cbn [any_frame].
  { split; [done|]. intros (f & ? & ?). lia. }
  destruct (p first) eqn:E.
  - split; [|done]. intros _. exists first. split; [lia|done].
  - rewrite IH. split; intros (f & Hf & Hp); exists f; (split; [|done]).
    + lia.
    + destruct (Z.eq_dec f first); [subst; congruence|lia].
Qed.

Lemma any_frame_false n first p :
  any_frame n first p = false <-> (forall f, first <= f < first + Z.of_nat n -> p f = false).
Proof.
  rewrite <- not_true_iff_false, any_frame_true. split.
  - intros H f Hf. apply not_true_iff_false. intros Hp. apply H. eauto.
  - intros H (f & Hf & Hp). rewrite H in Hp; done.
Qed.

(** Frame [x] starts an aligned run of [n] free frames. *)
Definition free_run (s : frames) (alignment n x : Z) : Prop :=
  (x * RSD_PAGE_SIZE) .& (alignment - 1) = 0 /\
  forall f, x <= f < x + n -> frame_is_free s f = true.

Lemma find_run_step s alignment pc x :
  0 <= pc ->
  (negb ((x * RSD_PAGE_SIZE) .& (alignment - 1) =? 0)
   || any_frame (Z.to_nat pc) x (fun f => negb (frame_is_free s f))) = false <->
  free_run s alignment pc x.
Proof.
  intros Hpc. unfold free_run. rewrite orb_false_iff, negb_false_iff, Z.eqb_eq, any_frame_false.
  rewrite Z2Nat.id by done. setoid_rewrite negb_false_iff. done.
Qed.

Lemma find_run_spec s alignment pc n first :
  0 <= pc ->
  match find_run s alignment pc n first with
  | Some x => first <= x < first + Z.of_nat n /\ free_run s alignment pc x /\
      forall y, first <= y < x -> ~ free_run s alignment pc y
  | None => forall y, first <= y < first + Z.of_nat n -> ~ free_run s alignment pc y
  end.
Proof.
  intros Hpc. revert first. induction n as [|n IH]; intros first; cbn [find_run]; [lia|].
  specialize (IH (first + 1)).
  pose proof (find_run_step s alignment pc first Hpc) as Hstep.
  destruct (negb ((first * RSD_PAGE_SIZE) .& (alignment - 1) =? 0)) eqn:E1;
    [|destruct (any_frame (Z.to_nat pc) first _) eqn:E2]; cbn [orb] in Hstep.
  3: { split; [lia|]. split; [by apply Hstep|lia]. }
  all: assert (Hnot : ~ free_run s alignment pc first) by (intros H; by apply Hstep in H).
  all: case_match; [destruct IH as (? & ? & Hmin)|].
  1,3: split; [lia|]; split; [done|]; intros y Hy;
    destruct (Z.eq_dec y first); [by subst|apply Hmin; lia].
  all: intros y Hy; destruct (Z.eq_dec y first); [by subst|apply IH; lia].
Qed.

Definition request_fits (request : frame_contiguous_request) : Prop :=
  fits 64 (req_page_count request) /\ fits 64 (req_alignment request) /\
  fits 64 (req_maximum_physical_address request).

(** A request that passes the refusals names a positive run, a power-of-two
    alignment and a search window inside the early map. *)
Lemma contiguous_check_ok s request :
  request_fits request -> contiguous_request_check s request = FRAME_STATUS_OK ->
  0 < req_page_count request /\ power_of_two (req_alignment request) = true.
Proof.
  intros (Hp & _ & _). unfold contiguous_request_check.
  destruct (negb (allocator_initialized s)); [done|].
  destruct (Z.eqb_spec (req_page_count request) 0); [done|].
  destruct (power_of_two (req_alignment request)) eqn:E; [|done].
  intros _. split; [|done]. destruct Hp. lia.
Qed.

Lemma past_frame_bound maximum x :
  fits 64 maximum -> x <= contiguous_past_frame maximum ->
  x <= FRAME_COUNT /\ x * RSD_PAGE_SIZE - 1 <= maximum.
Proof.
  unfold contiguous_past_frame, fits, UINT64_MAX. intros Hm Hx.
  set (b := if RSD_EARLY_PHYSICAL_LIMIT <? _ then _ else _) in Hx.
  assert (b <= RSD_EARLY_PHYSICAL_LIMIT /\ b <= maximum + 1) as [Hb1 Hb2].
  { unfold b, RSD_EARLY_PHYSICAL_LIMIT. destruct (Z.eqb_spec maximum (2 ^ 64 - 1));
      destruct (Z.ltb_spec 0x100000000 (2 ^ 64 - 1)); destruct (Z.ltb_spec 0x100000000 (maximum + 1));
      lia. }
  pose proof (Z.mul_div_le b RSD_PAGE_SIZE ltac:(done)).
  assert (x * RSD_PAGE_SIZE <= b) by (unfold RSD_PAGE_SIZE in *; lia). split; [|lia].
  unfold RSD_PAGE_SIZE in *. change FRAME_COUNT with 1048576.
  change RSD_EARLY_PHYSICAL_LIMIT with 4294967296 in Hb1. lia.
Qed.

Section TakeRun.
Variables (s : frames) (request : frame_contiguous_request) (index : nat) (first : Z).
Let n := req_page_count request.
Let s' := (take_run index request first s).2.
Let new := ContiguousRecord (first * RSD_PAGE_SIZE) n (next_contiguous_identifier s) true.
Hypothesis Hwf : frames_wf s.
Hypothesis Hfirst : 0 <= first.
Hypothesis Hn : 0 < n.
Hypothesis Hpast : first + n <= FRAME_COUNT.
Hypothesis Hfree : forall f, first <= f < first + n -> frame_is_free s f = true.
Hypothesis Hindex : exists old, contiguous_records s !! index = Some old /\ cr_active old = false.
Hypothesis Hnext : next_contiguous_identifier s + 1 < 2 ^ 64.

Lemma take_run_window : used_window s s' first n true.
Proof.
  split; [done|]. intros f. subst s'. unfold frame_used. cbn.
  rewrite bitmap_get_set_run by apply Hwf. fold n. by rewrite Z2Nat.id by lia.
Qed.

Lemma take_run_first : run_first new = first.
Proof. apply Z.div_mul. done. Qed.

Lemma take_run_next : next_contiguous_identifier s' = next_contiguous_identifier s + 1.
Proof.
  subst s'. cbn. pose proof (wf_next s Hwf). rewrite wrap_small by (unfold fits; lia).
  destruct (Z.eqb_spec (next_contiguous_identifier s + 1) 0); lia.
Qed.

(** An old active record is somewhere else and owns none of the new run. *)
Lemma take_run_old i r :
  contiguous_records s' !! i = Some r -> cr_active r = true ->
  (i = index /\ r = new) \/
  (i <> index /\ contiguous_records s !! i = Some r /\
   forall f, first <= f < first + n -> ~ in_run r f).
Proof.
  intros Hi Ha. subst s'. cbn in Hi. destruct Hindex as (old & Hold & _).
  destruct (decide (i = index)) as [->|Hne].
  - left. rewrite list_lookup_insert_eq in Hi by (by eapply lookup_lt_Some).
    injection Hi as <-. done.
  - right. rewrite list_lookup_insert_ne in Hi by done. split; [done|]. split; [done|].
    intros f Hf Hin. pose proof (run_used _ _ (wf_runs s Hwf i r Hi Ha) f Hin) as Hal.
    apply allocated_iff in Hal as [_ Hu].
    specialize (Hfree f Hf). apply frame_is_free_iff in Hfree as [_ ?]. congruence.
Qed.

Lemma take_run_stats : stats_match s'.
Proof.
  destruct (counts_window s s' first n true Hfirst ltac:(lia) Hpast take_run_window)
    as [Hcf Hca].
  { intros f Hf. by apply frame_is_free_iff, Hfree. }
  exact (stats_shift_match s s' _ _ (wf_stats s Hwf) Hcf Hca eq_refl eq_refl).
Qed.

Lemma take_run_new_ok : run_ok s' new.
Proof.
  constructor; rewrite ?take_run_first; try done.
  intros f Hf. unfold in_run in Hf. rewrite take_run_first in Hf. cbn in Hf.
  apply allocated_iff. destruct take_run_window as [-> ->].
  rewrite decide_True by done. split; [|done]. by apply frame_is_free_iff, Hfree.
Qed.

Lemma take_run_wf : frames_wf s'.
Proof.
  assert (Hrun : forall f, in_run new f <-> first <= f < first + n).
  { intros f. unfold in_run. by rewrite take_run_first. }
  constructor.
  - apply Hwf.
  - subst s'. apply bitmap_set_run_wf, Hwf.
  - apply take_run_stats.
  - subst s'. cbn. fold n. destruct (Z.leb_spec FRAME_COUNT (first + n)); [|lia].
    by vm_compute.
  - subst s'. cbn. rewrite length_insert. apply Hwf.
  - intros i r Hi Ha. destruct (take_run_old i r Hi Ha) as [[-> ->] | (_ & Hi' & _)].
    + apply take_run_new_ok.
    + apply (run_ok_window s s' first n true r take_run_window); [done|].
      by eapply wf_runs.
  - intros i j r q f Hi Hj Har Haq Hr Hq.
    destruct (take_run_old i r Hi Har) as [[-> ->] | (? & Hi' & Hno)];
      destruct (take_run_old j q Hj Haq) as [[-> ->] | (? & Hj' & Hno')]; [done| | |].
    + exfalso. eapply Hno'; [by apply Hrun|done].
    + exfalso. eapply Hno; [by apply Hrun|done].
    + eapply (wf_disjoint s Hwf i j r q f); done.
  - intros i r Hi Ha. rewrite take_run_next.
    destruct (take_run_old i r Hi Ha) as [[-> ->] | (_ & Hi' & _)].
    + cbn. pose proof (wf_next s Hwf). lia.
    + pose proof (wf_identifiers s Hwf i r Hi' Ha). lia.
  - intros i j r q Hi Hj Har Haq He.
    destruct (take_run_old i r Hi Har) as [[-> ->] | (? & Hi' & _)];
      destruct (take_run_old j q Hj Haq) as [[-> ->] | (? & Hj' & _)]; [done| | |].
    + pose proof (wf_identifiers s Hwf j q Hj' Haq). cbn in He. lia.
    + pose proof (wf_identifiers s Hwf i r Hi' Har). cbn in He. lia.
    + by eapply (wf_distinct s Hwf i j r q).
  - rewrite take_run_next. pose proof (wf_next s Hwf). lia.
Qed.
End TakeRun.

(** How [frame_allocate_contiguous] ends: the lowest free run inside the address
    bound is taken under a fresh identifier, or nothing changes. *)
Lemma allocate_contiguous_cases s request old :
  frames_wf s -> request_fits request -> next_contiguous_identifier s + 1 < 2 ^ 64 ->
  let n := req_page_count request in
  let past := contiguous_past_frame (req_maximum_physical_address request) in
  (exists index first result s',
     take_run index request first s = (result, s') /\
     frame_allocate_contiguous (Some request) (Some old) s =
       (FRAME_STATUS_OK, Some result, s') /\
     frames_wf s' /\ (index < length (contiguous_records s))%nat /\
     0 < n /\ 0 <= first /\ first + n <= FRAME_COUNT /\
     free_run s (req_alignment request) n first /\
     (first + n) * RSD_PAGE_SIZE - 1 <= req_maximum_physical_address request /\
     (forall y, 0 <= y < first -> ~ free_run s (req_alignment request) n y) /\
     used_window s s' first n true) \/
  (exists st, st <> FRAME_STATUS_OK /\
     frame_allocate_contiguous (Some request) (Some old) s =
       (st, Some empty_allocation, s) /\
     (st = FRAME_STATUS_OUT_OF_MEMORY -> forall y, 0 <= y -> y + n <= past ->
        ~ free_run s (req_alignment request) n y)).
Proof.
  intros Hwf Hfits Hid n past. unfold frame_allocate_contiguous. fold n past.
  destruct (contiguous_request_check s request) eqn:Ec;
    try (right; eexists; split; [|split; [reflexivity|]]; done).
  2: { unfold contiguous_request_check in Ec. repeat case_match; done. }
  destruct (contiguous_check_ok s request Hfits Ec) as [Hn _]. fold n in Hn.
  destruct (Z.ltb_spec past n);
    [right; eexists; split; [|split; [reflexivity|]]; done|].
  destruct (first_index _ _) as [index|] eqn:Ei;
    [|right; eexists; split; [|split; [reflexivity|]]; done].
  pose proof (find_run_spec s (req_alignment request) n (Z.to_nat (past - n + 1)) 0
    ltac:(lia)) as Hrun.
  rewrite Z2Nat.id in Hrun by lia.
  destruct (find_run _ _ _ _ _) as [x|].
  2: { right. eexists. split; [|split; [reflexivity|]]; [done|].
       intros _ y Hy Hp. apply Hrun. lia. }
  destruct Hrun as (Hx & Hfr & Hmin). destruct Hfits as (_ & _ & Hmax).
  destruct (past_frame_bound _ (x + n) Hmax ltac:(fold past; lia)) as [Hp Hlast].
  left. exists index, x, (take_run index request x s).1, (take_run index request x s).2.
  split; [by destruct (take_run _ _ _ _)|]. split; [by destruct (take_run _ _ _ _)|].
  split.
  { apply take_run_wf; try done; [lia|apply Hfr|].
    apply first_index_Some in Ei as [(r & Hr & Ha) _]. exists r. by destruct (cr_active r). }
  split; [by eapply first_index_lt|].
  do 4 (split; [done || lia|]). split; [done|]. split; [intros y Hy; apply Hmin; lia|].
  by apply take_run_window.
Qed.

(** [frame_allocate_contiguous] hands out the lowest aligned run of free
    frames of the asked length whose last byte is within the address bound and
    marks exactly that run used; it reports exhaustion only when no such run
    exists; every refusal leaves the state as it was and clears the result. *)
Theorem frame_allocate_contiguous_correct s request old :
  frames_wf s -> request_fits request -> next_contiguous_identifier s + 1 < 2 ^ 64 ->
  let n := req_page_count request in
  let '(st, out, s') := frame_allocate_contiguous (Some request) (Some old) s in
  frames_wf s' /\
  match st with
  | FRAME_STATUS_OK => exists first,
      out = Some (ContiguousAllocation (first * RSD_PAGE_SIZE) n (req_alignment request)
        (req_maximum_physical_address request) (next_contiguous_identifier s) true) /\
      0 <= first /\ free_run s (req_alignment request) n first /\
      (first + n) * RSD_PAGE_SIZE - 1 <= req_maximum_physical_address request /\
      (forall y, 0 <= y < first -> ~ free_run s (req_alignment request) n y) /\
      used_window s s' first n true
  | FRAME_STATUS_OUT_OF_MEMORY => s' = s /\ out = Some empty_allocation /\
      forall y, 0 <= y ->
        y + n <= contiguous_past_frame (req_maximum_physical_address request) ->
        ~ free_run s (req_alignment request) n y
  | _ => s' = s /\ out = Some empty_allocation
  end.
Proof.
  intros Hwf Hfits Hid n.
  destruct (allocate_contiguous_cases s request old Hwf Hfits Hid) as
    [(index & first & result & s' & Ht & -> & Hwf' & _ & Hn & Hf0 & _ & Hrun & Hlast & Hmin & Hw)
    | (st & Hst & -> & Hoom)].
  - split; [done|]. exists first. injection Ht as <- _. split_and!; done.
  - split; [done|]. destruct st; try done. auto.
Qed.

Section DropRun.
Variables (s : frames) (index : nat) (r : contiguous_record).
Let s' := drop_run index r s.
Hypothesis Hwf : frames_wf s.
Hypothesis Hr : contiguous_records s !! index = Some r.
Hypothesis Ha : cr_active r = true.

Lemma drop_run_fields :
  eligible_bitmap s' = eligible_bitmap s /\
  used_bitmap s' = bitmap_set_run (Z.to_nat (cr_page_count r)) (run_first r) false
    (used_bitmap s) /\
  allocator_stats s' = stats_shift (cr_page_count r) (allocator_stats s) /\
  contiguous_records s' = <[index := deactivate_record r]> (contiguous_records s) /\
  next_contiguous_identifier s' = next_contiguous_identifier s /\
  (next_search_index s' = next_search_index s \/ next_search_index s' = run_first r).
Proof. subst s'. unfold drop_run. fold (run_first r). case_match; cbn; tauto. Qed.

Lemma drop_run_window : used_window s s' (run_first r) (cr_page_count r) false.
Proof.
  destruct drop_run_fields as (He & Hu & _). pose proof (wf_runs s Hwf _ _ Hr Ha) as Hok.
  split; intros f; unfold frame_eligible, frame_used; rewrite ?He, ?Hu; [done|].
  rewrite bitmap_get_set_run by apply Hwf.
  rewrite Z2Nat.id by (pose proof (run_count _ _ Hok); lia). done.
Qed.

Lemma drop_run_old i q :
  contiguous_records s' !! i = Some q -> cr_active q = true ->
  i <> index /\ contiguous_records s !! i = Some q.
Proof.
  destruct drop_run_fields as (_ & _ & _ & -> & _). intros Hi Hq.
  destruct (decide (i = index)) as [->|Hne].
  - rewrite list_lookup_insert_eq in Hi by (by eapply lookup_lt_Some).
    by injection Hi as <-.
  - by rewrite list_lookup_insert_ne in Hi.
Qed.

Lemma drop_run_wf : frames_wf s'.
Proof.
  pose proof drop_run_fields as (He & Hu & Hs & Hrec & Hid & Hsearch).
  pose proof (wf_runs s Hwf _ _ Hr Ha) as [Hb Hl Hc Hh Hused].
  constructor; rewrite ?He, ?Hu, ?Hid.
  - apply Hwf.
  - apply bitmap_set_run_wf, Hwf.
  - destruct (counts_window s s' (run_first r) (cr_page_count r) false Hl ltac:(lia) Hh
      drop_run_window) as [Hcf Hca].
    { intros f Hf. by apply allocated_iff, Hused. }
    exact (stats_shift_match s s' _ _ (wf_stats s Hwf) Hcf Hca eq_refl Hs).
  - destruct Hsearch as [-> | ->]; [apply Hwf|lia].
  - rewrite Hrec, length_insert. apply Hwf.
  - intros i q Hi Hq. destruct (drop_run_old i q Hi Hq) as [Hne Hi'].
    apply (run_ok_window s s' _ _ false q drop_run_window); [|by eapply wf_runs].
    intros _ f Hf Hin. apply Hne. by eapply (wf_disjoint s Hwf i index q r f).
  - intros i j q p f Hi Hj Hq Hp.
    destruct (drop_run_old i q Hi Hq) as [_ Hi'], (drop_run_old j p Hj Hp) as [_ Hj'].
    by eapply (wf_disjoint s Hwf).
  - intros i q Hi Hq. destruct (drop_run_old i q Hi Hq) as [_ Hi'].
    by eapply (wf_identifiers s Hwf).
  - intros i j q p Hi Hj Hq Hp.
    destruct (drop_run_old i q Hi Hq) as [_ Hi'], (drop_run_old j p Hj Hp) as [_ Hj'].
    by eapply (wf_distinct s Hwf).
  - apply Hwf.
Qed.
End DropRun.

(** The allocation [a] is the live owner of record [index]. *)
Definition owns_record (s : frames) (a : frame_contiguous_allocation) (index : nat)
    (r : contiguous_record) : Prop :=
  contiguous_records s !! index = Some r /\ cr_active r = true /\
  cr_identifier r = ca_identifier a /\ cr_physical_base r = ca_physical_base a /\
  cr_page_count r = ca_page_count a.

Lemma release_contiguous_cases s a :
  frames_wf s -> allocator_initialized s = true ->
  (ca_active a = true /\ exists index r, owns_record s a index r /\
     frame_release_contiguous (Some a) s =
       (FRAME_STATUS_OK, Some (deactivate_allocation a), drop_run index r s)) \/
  (~ (ca_active a = true /\ exists index r, owns_record s a index r) /\
   exists st, st <> FRAME_STATUS_OK /\ frame_release_contiguous (Some a) s = (st, Some a, s)).
Proof.
  intros Hwf Hi. unfold frame_release_contiguous. rewrite Hi. cbn [negb].
  destruct (ca_active a); cbn [negb]; [|right; split; [intros [? _]; congruence|refused]].
  destruct (first_index _ _) as [index|] eqn:Ei.
  - apply first_index_Some in Ei as [(r & Hr & Hm) _].
    apply andb_true_iff in Hm as [Hact Hid]. apply Z.eqb_eq in Hid.
    rewrite (list_lookup_total_correct _ _ _ Hr).
    assert (Huniq : forall j q, owns_record s a j q -> q = r).
    { intros j q (Hj & Hq & Hqid & _). assert (j = index) as ->.
      { by eapply (wf_distinct s Hwf j index q r); [..|congruence]. }
      congruence. }
    destruct (Z.eqb_spec (cr_physical_base r) (ca_physical_base a)) as [Hb|Hb];
      [|right; split; [|refused]].
    2: { intros (_ & j & q & Ho). rewrite (Huniq _ _ Ho) in Ho. by destruct Ho as (?&?&?&?&?). }
    destruct (Z.eqb_spec (cr_page_count r) (ca_page_count a)) as [Hp|Hp];
      [|right; split; [|refused]].
    2: { intros (_ & j & q & Ho). rewrite (Huniq _ _ Ho) in Ho. by destruct Ho as (?&?&?&?&?). }
    cbn [negb orb]. fold (run_first r).
    pose proof (wf_runs s Hwf _ _ Hr Hact) as [_ _ Hc _ Hused].
    replace (any_frame _ _ _) with false.
    + left. split; [done|]. exists index, r. split; [done|]. done.
    + symmetry. apply any_frame_false. rewrite Z2Nat.id by lia. intros f Hf.
      specialize (Hused f Hf). by apply allocated_iff in Hused as [-> ->].
  - right. split; [|refused]. intros (_ & j & q & Hj & Hq & Hqid & _).
    rewrite first_index_None in Ei. specialize (Ei j q Hj). unfold record_matches in Ei.
    rewrite Hq, Hqid, Z.eqb_refl in Ei. done.
Qed.

Lemma drop_run_initialized s index r :
  allocator_initialized (drop_run index r s) = allocator_initialized s.
Proof. unfold drop_run. by case_match. Qed.

Lemma contiguous_ok_initialized s request old out s' :
  frame_allocate_contiguous (Some request) old s = (FRAME_STATUS_OK, out, s') ->
  allocator_initialized s = true.
Proof.
  unfold frame_allocate_contiguous, contiguous_request_check.
  destruct old; [|done]. by destruct (allocator_initialized s).
Qed.

(** A successful contiguous allocation took over an inactive record. *)
Lemma contiguous_ok_inv s request old out s' :
  frame_allocate_contiguous (Some request) (Some old) s = (FRAME_STATUS_OK, out, s') ->
  exists index first free, contiguous_records s !! index = Some free /\ cr_active free = false /\
    out = Some (take_run index request first s).1 /\ s' = (take_run index request first s).2.
Proof.
  unfold frame_allocate_contiguous. destruct (contiguous_request_check s request); try done.
  destruct (_ <? _); [done|]. destruct (first_index _ _) as [index|] eqn:Ei; [|done].
  destruct (find_run _ _ _ _ _) as [first|]; [|done].
  apply first_index_Some in Ei as [(free & Hf & Ha) _].
  destruct (take_run index request first s) as [a t] eqn:Et. intros [= <- <-].
  exists index, first, free. rewrite Et. split_and!; try done. by destruct (cr_active free).
Qed.

(** Other owners keep their records across an allocation and a release. *)
Lemma owns_after_allocate s request old out s' a j r :
  frame_allocate_contiguous (Some request) (Some old) s = (FRAME_STATUS_OK, out, s') ->
  owns_record s a j r -> owns_record s' a j r.
Proof.
  intros (index & first & free & Hi & Hf & _ & ->)%contiguous_ok_inv (Hj & Ha & Hrest).
  split; [|done]. cbn. rewrite list_lookup_insert_ne; [done|]. intros ->. congruence.
Qed.

Lemma owns_after_drop s index q a j r :
  owns_record s a j r -> j <> index -> owns_record (drop_run index q s) a j r.
Proof.
  intros (Hj & Hrest) Hne. split; [|done].
  destruct (drop_run_fields s index q) as (_ & _ & _ & -> & _). by rewrite list_lookup_insert_ne.
Qed.

(** Releasing what was just allocated: the run's record is dropped again. *)
Lemma contiguous_release_undoes s request old a s' :
  frames_wf s -> request_fits request -> next_contiguous_identifier s + 1 < 2 ^ 64 ->
  frame_allocate_contiguous (Some request) (Some old) s = (FRAME_STATUS_OK, Some a, s') ->
  exists index r, owns_record s' a index r /\ cr_identifier r = next_contiguous_identifier s /\
    ca_active a = true /\ allocator_initialized s' = true /\ frames_wf s' /\
    frame_release_contiguous (Some a) s' =
      (FRAME_STATUS_OK, Some (deactivate_allocation a), drop_run index r s') /\
    frames_wf (drop_run index r s') /\
    (forall f, frame_is_free (drop_run index r s') f = frame_is_free s f) /\
    (forall f, frame_eligible s' f = frame_eligible s f) /\
    (forall f, frame_eligible (drop_run index r s') f = frame_eligible s f).
Proof.
  intros Hwf Hfits Hid Hal.
  destruct (allocate_contiguous_cases s request old Hwf Hfits Hid) as
    [(index & first & result & s1 & Ht & Heq & Hwf' & Hidx & Hn & Hf0 & _ & [_ Hfree] & _ & _ & Hw)
    | (st & Hst & Heq & _)]; rewrite Heq in Hal; [|congruence].
  injection Hal as <- <-. injection Ht as <- Hs.
  set (a := ContiguousAllocation _ _ _ _ _ _) in *.
  set (r := ContiguousRecord (first * RSD_PAGE_SIZE) (req_page_count request)
    (next_contiguous_identifier s) true).
  assert (Hr : contiguous_records s1 !! index = Some r).
  { subst s1. cbn. by rewrite list_lookup_insert_eq. }
  assert (Hinit : allocator_initialized s1 = true).
  { subst s1. cbn. eapply contiguous_ok_initialized. exact Heq. }
  assert (Ho : owns_record s1 a index r) by done.
  destruct (release_contiguous_cases s1 a Hwf' Hinit) as
    [(_ & j & q & (Hj & Hq & Hqid & _) & Hrel) | [Hno _]]; [|by destruct Hno; split; [done|exists index, r]].
  assert (j = index) as -> by (by eapply (wf_distinct s1 Hwf' j index q r)).
  assert (q = r) as -> by congruence.
  pose proof (drop_run_window s1 index r Hwf' Hr eq_refl) as Hdw.
  exists index, r. split_and!; try done.
  - by apply drop_run_wf.
  - intros f. rewrite (free_window _ _ _ _ _ f Hdw). rewrite (free_window _ _ _ _ _ f Hw).
    change (run_first r) with (first * RSD_PAGE_SIZE / RSD_PAGE_SIZE). rewrite Z.div_mul by done.
    destruct Hw as [-> _]. cbn [cr_page_count r]. case_decide as Hd; [|done].
    specialize (Hfree f Hd). rewrite Hfree. apply frame_is_free_iff in Hfree as [-> _]. done.
  - apply Hw.
  - intros f. destruct Hdw as [-> _]. apply Hw.
Qed.

(** A contiguous allocation can be released, which restores the free set,
    and releasing the same (now inactive) allocation again is refused as a
    double free without a change. *)
Theorem frame_contiguous_roundtrip s request old a s' :
  frames_wf s -> request_fits request -> next_contiguous_identifier s + 1 < 2 ^ 64 ->
  frame_allocate_contiguous (Some request) (Some old) s = (FRAME_STATUS_OK, Some a, s') ->
  exists s'',
    frame_release_contiguous (Some a) s' =
      (FRAME_STATUS_OK, Some (deactivate_allocation a), s'') /\
    frames_wf s'' /\ (forall f, frame_is_free s'' f = frame_is_free s f) /\
    frame_release_contiguous (Some (deactivate_allocation a)) s'' =
      (FRAME_STATUS_DOUBLE_FREE, Some (deactivate_allocation a), s'').
Proof.
  intros Hwf Hfits Hid Hal.
  destruct (contiguous_release_undoes s request old a s' Hwf Hfits Hid Hal) as
    (index & r & _ & _ & _ & Hinit & _ & Hrel & Hwf'' & Hfree & _ & _).
  exists (drop_run index r s'). split_and!; try done.
  unfold frame_release_contiguous. by rewrite drop_run_initialized, Hinit.
Qed.

(** ** Ranges and reservation *)

Lemma frame_of_byte a f : a / RSD_PAGE_SIZE = f <-> f * RSD_PAGE_SIZE <= a < (f + 1) * RSD_PAGE_SIZE.
Proof.
  unfold RSD_PAGE_SIZE. split.
  - intros <-. pose proof (Z.div_mod a 4096). pose proof (Z.mod_pos_bound a 4096). lia.
  - intros H. symmetry. apply (Z.div_unique_pos a 4096 f (a - f * 4096)); lia.
Qed.

Lemma checked_range_end_Some base length e :
  checked_range_end base length = Some e -> e = base + length /\ base + length <= UINT64_MAX.
Proof. unfold checked_range_end. case_match eqn:E; [done|]. intros [= <-]. lia. Qed.

(** The page arithmetic of both bounds routines, past the clipped end. *)
Lemma clip_end e :
  (if e <? RSD_EARLY_PHYSICAL_LIMIT then e else RSD_EARLY_PHYSICAL_LIMIT) =
  Z.min e RSD_EARLY_PHYSICAL_LIMIT.
Proof. case_match eqn:E; lia. Qed.

Lemma page_round_down x :
  fits 64 x -> (x .& not64 (RSD_PAGE_SIZE - 1)) / RSD_PAGE_SIZE = x / RSD_PAGE_SIZE.
Proof.
  intros Hx. change (RSD_PAGE_SIZE - 1) with (2 ^ 12 - 1).
  rewrite land_not64 by (done || lia). change (2 ^ 12) with RSD_PAGE_SIZE.
  unfold RSD_PAGE_SIZE. pose proof (Z.div_mod x 4096).
  replace (x - x mod 4096) with (x / 4096 * 4096) by lia. by apply Z.div_mul.
Qed.

Lemma available_frame_bounds_ok base length first past :
  fits 64 base -> fits 64 length ->
  available_frame_bounds base length = (FRAME_STATUS_OK, first, past) ->
  past <= FRAME_COUNT /\
  (forall f, first <= f < past <->
     base <= f * RSD_PAGE_SIZE /\ (f + 1) * RSD_PAGE_SIZE <= base + length /\
     (f + 1) * RSD_PAGE_SIZE <= RSD_EARLY_PHYSICAL_LIMIT /\ length <> 0).
Proof.
  intros Hb Hl. unfold available_frame_bounds.
  destruct (checked_range_end base length) as [e|] eqn:Ee; [|done].
  apply checked_range_end_Some in Ee as [-> He]. unfold UINT64_MAX, fits in *.
  destruct (Z.eqb_spec length 0); cbn [orb].
  { intros [= <- <-]. split; [done|]. lia. }
  destruct (Z.leb_spec RSD_EARLY_PHYSICAL_LIMIT base) as [Hge|Hlt].
  { intros [= <- <-]. split; [done|]. unfold RSD_PAGE_SIZE. lia. }
  rewrite clip_end.
  change RSD_EARLY_PHYSICAL_LIMIT with 4294967296 in *. change FRAME_COUNT with 1048576.
  change (RSD_PAGE_SIZE - 1) with (2 ^ 12 - 1).
  rewrite wrap_small by (unfold fits; lia).
  destruct (round_up_spec base 12) as [Hr Hm]; try (unfold fits; lia).
  cbv zeta in Hr, Hm. set (ab := (base + (2 ^ 12 - 1)) .& not64 (2 ^ 12 - 1)) in *.
  change (2 ^ 12) with 4096 in Hr, Hm. clearbody ab.
  destruct (Z.leb_spec (Z.min (base + length) 4294967296) ab).
  { intros [= <- <-]. split; [lia|]. unfold RSD_PAGE_SIZE. lia. }
  change (2 ^ 12 - 1) with (RSD_PAGE_SIZE - 1).
  rewrite page_round_down by (unfold fits; lia). intros [= <- <-].
  unfold RSD_PAGE_SIZE. set (c := Z.min _ _) in *.
  pose proof (Z.div_mod ab 4096). pose proof (Z.div_mod c 4096).
  pose proof (Z.mod_pos_bound c 4096). split; [lia|]. intros f. split; lia.
Qed.

Lemma covering_frame_bounds_ok base length first past :
  fits 64 base -> fits 64 length ->
  covering_frame_bounds base length = (FRAME_STATUS_OK, first, past) ->
  0 <= first /\ past <= FRAME_COUNT /\
  (forall f, first <= f < past <->
     length <> 0 /\ 0 <= f < FRAME_COUNT /\
     exists a, base <= a < base + length /\ a / RSD_PAGE_SIZE = f).
Proof.
  intros Hb Hl. unfold covering_frame_bounds.
  destruct (checked_range_end base length) as [e|] eqn:Ee; [|done].
  apply checked_range_end_Some in Ee as [-> He]. unfold UINT64_MAX, fits in *.
  destruct (Z.eqb_spec length 0).
  { intros [= <- <-]. split; [done|]. split; [done|]. split; [lia|]. by intros [? _]. }
  destruct (Z.leb_spec RSD_EARLY_PHYSICAL_LIMIT base) as [|Hlt]; [done|].
  rewrite clip_end, page_mask_zero.
  change RSD_EARLY_PHYSICAL_LIMIT with 4294967296 in *. change FRAME_COUNT with 1048576.
  set (c := Z.min (base + length) 4294967296).
  unfold RSD_PAGE_SIZE in *.
  pose proof (Z.div_mod c 4096). pose proof (Z.mod_pos_bound c 4096).
  set (p := if c mod 4096 =? 0 then c / 4096 else c / 4096 + 1).
  assert (Hp : p * 4096 < c + 4096 /\ c <= p * 4096).
  { unfold p. destruct (Z.eqb_spec (c mod 4096) 0); lia. }
  intros [= <- Hpast]. fold p in Hpast. subst past.
  assert (Hc : c <= 4294967296 /\ c <= base + length /\ (c = base + length \/ c = 4294967296))
    by lia. clearbody p c. pose proof (Z.div_mod base 4096).
  pose proof (Z.mod_pos_bound base 4096).
  split; [apply Z.div_pos; lia|]. split; [lia|]. intros f. split.
  - intros Hf. split; [done|]. split; [lia|].
    exists (Z.max base (f * 4096)). split; [lia|]. apply frame_of_byte. unfold RSD_PAGE_SIZE. lia.
  - intros (_ & Hf & a & Ha & <-). pose proof (Z.div_mod a 4096).
    pose proof (Z.mod_pos_bound a 4096). split; [apply Z.div_le_mono; lia|]. lia.
Qed.

(** Marking a run reserved or available. *)
Lemma mark_reserved_spec first past s :
  bitmap_wf (eligible_bitmap s) -> bitmap_wf (used_bitmap s) ->
  let s' := mark_reserved_frames first past s in
  bitmap_wf (eligible_bitmap s') /\ bitmap_wf (used_bitmap s') /\
  (forall f, frame_eligible s' f =
     if decide (first <= f < past) then false else frame_eligible s f) /\
  (forall f, frame_used s' f = if decide (first <= f < past) then true else frame_used s f).
Proof.
  intros He Hu s'. subst s'. unfold mark_reserved_frames, frame_eligible, frame_used. simpl.
  split; [by apply bitmap_set_run_wf|]. split; [by apply bitmap_set_run_wf|].
  split; intros f; rewrite bitmap_get_set_run by done; repeat case_decide; lia || done.
Qed.

Lemma mark_available_spec first past s :
  bitmap_wf (eligible_bitmap s) -> bitmap_wf (used_bitmap s) ->
  let s' := mark_available_frames first past s in
  bitmap_wf (eligible_bitmap s') /\ bitmap_wf (used_bitmap s') /\
  (forall f, frame_eligible s' f =
     if decide (first <= f < past) then true else frame_eligible s f) /\
  (forall f, frame_used s' f = if decide (first <= f < past) then false else frame_used s f).
Proof.
  intros He Hu s'. subst s'. unfold mark_available_frames, frame_eligible, frame_used. simpl.
  split; [by apply bitmap_set_run_wf|]. split; [by apply bitmap_set_run_wf|].
  split; intros f; rewrite bitmap_get_set_run by done; repeat case_decide; lia || done.
Qed.

(** [frame_reserve_range] keeps the invariant, never takes an allocated
    frame away, changes nothing when it refuses, and after success no address
    of the range below the early limit lies in a frame that can be handed
    out. *)
Theorem frame_reserve_range_correct s base length :
  frames_wf s -> fits 64 base -> fits 64 length ->
  let '(st, s') := frame_reserve_range base length s in
  frames_wf s' /\
  (st <> FRAME_STATUS_OK -> s' = s) /\
  (forall f, frame_allocated s' f = frame_allocated s f) /\
  (st = FRAME_STATUS_OK -> forall a, base <= a < base + length ->
     0 <= a < RSD_EARLY_PHYSICAL_LIMIT -> frame_is_free s' (a / RSD_PAGE_SIZE) = false).
Proof.
  intros Hwf Hb Hl. unfold frame_reserve_range.
  destruct (negb (allocator_initialized s)); [by split_and!|].
  destruct (covering_frame_bounds base length) as [[st first] past] eqn:Ec.
  destruct st; try by split_and!.
  destruct (covering_frame_bounds_ok _ _ _ _ Hb Hl Ec) as (Hf & Hp & Hcov).
  destruct (any_frame _ _ _) eqn:Ea; [by split_and!|].
  rewrite any_frame_false in Ea.
  assert (Hfree : forall f, first <= f < past -> frame_allocated s f = false).
  { intros f Hin. apply Ea. lia. }
  destruct (mark_reserved_spec first past s) as (Hbe & Hbu & He & Hu); [apply Hwf..|].
  set (m := mark_reserved_frames first past s) in *.
  assert (Halloc : forall f, frame_allocated m f = frame_allocated s f).
  { intros f. unfold frame_allocated at 1. rewrite He, Hu. case_decide; [|done].
    by rewrite Hfree. }
  pose proof (recompute_stats_match m) as Hst. unfold recompute_stats in Hst |- *.
  revert Hst. generalize (recompute_run m (Z.to_nat FRAME_COUNT) 0 (Stats FRAME_COUNT 0 0 0 0 0)).
  intros stats Hst. split_and!.
  - constructor; [exact Hbe|exact Hbu|exact Hst|..]; try apply Hwf.
    intros i r Hi Ha. destruct (wf_runs s Hwf i r Hi Ha) as [? ? ? ? Hr].
    constructor; [done..|]. intros f Hin. rewrite <- (Hr f Hin). apply Halloc.
  - done.
  - exact Halloc.
  - intros _ a Ha Hlim. change (frame_is_free m (a / RSD_PAGE_SIZE) = false).
    unfold frame_is_free. rewrite He, decide_True; [done|].
    apply Hcov. split; [lia|]. split; [by apply page_frame_bound|]. by exists a.
Qed.

(** ** Initialization *)

Definition regions_fit (context : boot_information) : Prop :=
  forall i r, boot_information_region_at context i = Some r ->
    fits 64 (base_address r) /\ fits 64 (region_length r).

(** Frame [f] lies wholly inside an available region of the memory map. *)
Definition in_available (context : boot_information) (f : Z) : Prop :=
  exists i r, boot_information_region_at context i = Some r /\
    region_type r = MULTIBOOT2_MEMORY_AVAILABLE /\
    base_address r <= f * RSD_PAGE_SIZE /\
    (f + 1) * RSD_PAGE_SIZE <= base_address r + region_length r.

(** Frame [f] holds a byte of [base, base + length). *)
Definition touches (base length f : Z) : Prop :=
  exists a, base <= a < base + length /\ a / RSD_PAGE_SIZE = f.

(** While the map is applied, an eligible frame is unused, lies inside the early
    map and comes from an available region. *)
Record applying (context : boot_information) (s : frames) : Prop := Applying {
  ap_eligible : bitmap_wf (eligible_bitmap s);
  ap_used : bitmap_wf (used_bitmap s);
  ap_frames : forall f, frame_eligible s f = true ->
    frame_used s f = false /\ 0 <= f < FRAME_COUNT /\ in_available context f
}.

(** The fields marking does not touch. *)
Definition same_rest (s s' : frames) : Prop :=
  next_search_index s' = next_search_index s /\
  allocator_initialized s' = allocator_initialized s /\
  contiguous_records s' = contiguous_records s /\
  next_contiguous_identifier s' = next_contiguous_identifier s.

(** Eligibility only shrinks. *)
Definition shrinks (s s' : frames) : Prop :=
  forall f, frame_eligible s' f = true -> frame_eligible s f = true.

Lemma applying_reserved context s first past :
  applying context s ->
  applying context (mark_reserved_frames first past s) /\
  shrinks s (mark_reserved_frames first past s) /\
  (forall f, first <= f < past -> frame_eligible (mark_reserved_frames first past s) f = false).
Proof.
  intros [He Hu Hf]. destruct (mark_reserved_spec first past s He Hu) as (H1 & H2 & H3 & H4).
  split_and!.
  - constructor; [done|done|]. intros f. rewrite H3, H4. case_decide; [done|apply Hf].
  - intros f. rewrite H3. by case_decide.
  - intros f Hr. rewrite H3. by rewrite decide_True.
Qed.

Lemma reserve_internal_applying context base length s s' :
  fits 64 base -> fits 64 length -> applying context s ->
  reserve_internal base length s = (FRAME_STATUS_OK, s') ->
  applying context s' /\ shrinks s s' /\ same_rest s s' /\
  (forall f, frame_eligible s' f = true -> ~ touches base length f).
Proof.
  intros Hb Hl Hs. unfold reserve_internal.
  destruct (covering_frame_bounds base length) as [[st first] past] eqn:Ec.
  destruct st; try done. intros [= <-].
  destruct (covering_frame_bounds_ok _ _ _ _ Hb Hl Ec) as (_ & _ & Hcov).
  destruct (applying_reserved context s first past Hs) as (H1 & H2 & H3).
  split_and!; try done. intros f Hf (a & Ha & Hfa).
  rewrite H3 in Hf; [done|]. apply Hcov. split; [lia|]. split; [by apply (ap_frames _ _ H1)|].
  by exists a.
Qed.

Lemma apply_pass_available context n index s s' :
  regions_fit context -> applying context s ->
  apply_memory_map_pass context true n index s = (FRAME_STATUS_OK, s') ->
  applying context s' /\ same_rest s s'.
Proof.
  intros Hfit. revert index s. induction n as [|n IH]; intros index s Hs;
    cbn [apply_memory_map_pass]; [by intros [= <-]|].
  destruct (boot_information_region_at context index) as [r|] eqn:Er; [|done].
  destruct (Z.eqb_spec (region_type r) MULTIBOOT2_MEMORY_AVAILABLE) as [Ht|Ht];
    cbn [Bool.eqb negb]; [|by apply IH].
  destruct (available_frame_bounds _ _) as [[st first] past] eqn:Ea.
  destruct st; try done. destruct (Hfit _ _ Er) as [Hb Hl].
  destruct (available_frame_bounds_ok _ _ _ _ Hb Hl Ea) as [_ Hav].
  destruct Hs as [He Hu Hf]. intros Happ.
  destruct (mark_available_spec first past s He Hu) as (H1 & H2 & H3 & H4).
  apply IH in Happ; [done|]. constructor; [done|done|].
  intros f. rewrite H3, H4. case_decide as Hd; [|apply Hf]. intros _.
  apply Hav in Hd as (Ha1 & Ha2 & Ha3 & _).
  split; [done|]. unfold fits, RSD_PAGE_SIZE, RSD_EARLY_PHYSICAL_LIMIT in *.
  split; [change FRAME_COUNT with 1048576; lia|].
  exists index, r. unfold RSD_PAGE_SIZE. done.
Qed.

Lemma apply_pass_reserved context n index s s' :
  regions_fit context -> applying context s ->
  apply_memory_map_pass context false n index s = (FRAME_STATUS_OK, s') ->
  applying context s' /\ same_rest s s' /\ shrinks s s' /\
  (forall i r f, index <= i < index + Z.of_nat n ->
     boot_information_region_at context i = Some r ->
     region_type r <> MULTIBOOT2_MEMORY_AVAILABLE ->
     frame_eligible s' f = true -> ~ touches (base_address r) (region_length r) f).
Proof.
  intros Hfit. revert index s. induction n as [|n IH]; intros index s Hs;
    cbn [apply_memory_map_pass]; [intros [= <-]; split_and!; [done|done|by intros f|intros; lia]|].
  destruct (boot_information_region_at context index) as [r|] eqn:Er; [|done].
  destruct (Hfit _ _ Er) as [Hb Hl].
  (* One region handled by [s1], the remaining ones by the induction. *)
  assert (Hstep : forall s1, applying context s1 -> same_rest s s1 -> shrinks s s1 ->
    (forall f, region_type r <> MULTIBOOT2_MEMORY_AVAILABLE -> frame_eligible s1 f = true ->
       ~ touches (base_address r) (region_length r) f) ->
    apply_memory_map_pass context false n (index + 1) s1 = (FRAME_STATUS_OK, s') ->
    applying context s' /\ same_rest s s' /\ shrinks s s' /\
    (forall i r f, index <= i < index + Z.of_nat (S n) ->
       boot_information_region_at context i = Some r ->
       region_type r <> MULTIBOOT2_MEMORY_AVAILABLE ->
       frame_eligible s' f = true -> ~ touches (base_address r) (region_length r) f)).
  { intros s1 Ha Hsame Hshr Hno Happ. destruct (IH _ _ Ha Happ) as (Ha' & Hs' & Hsh' & Hno').
    split; [done|]. split; [unfold same_rest in *; destruct_and?; split_and!; congruence|].
    split; [intros f Hf; by apply Hshr, Hsh'|]. intros i q f Hi Hq Ht Hf.
    destruct (Z.eq_dec i index) as [->|Hne]; [|apply (Hno' i q f); [lia|done..]].
    rewrite Er in Hq. injection Hq as <-. apply Hno; [done|]. by apply Hsh'. }
  destruct (Z.eqb_spec (region_type r) MULTIBOOT2_MEMORY_AVAILABLE) as [Ht|Ht];
    cbn [Bool.eqb negb]; [apply (Hstep s); [done|done|by intros f|done]|].
  destruct (covering_frame_bounds _ _) as [[st first] past] eqn:Ec.
  destruct st; try done.
  - destruct (covering_frame_bounds_ok _ _ _ _ Hb Hl Ec) as (_ & _ & Hcov).
    destruct (applying_reserved context s first past Hs) as (H1 & H2 & H3).
    apply Hstep; try done. intros f _ Hf (a & Ha & Hfa).
    rewrite H3 in Hf; [done|]. apply Hcov. split; [lia|].
    split; [by apply (ap_frames _ _ H1)|]. by exists a.
  - apply (Hstep s); [done|done|by intros f|]. intros f _ Hf (a & Ha & Hfa).
    destruct (ap_frames _ _ Hs f Hf) as (_ & Hr & _). apply frame_of_byte in Hfa.
    unfold covering_frame_bounds in Ec. repeat case_match; simplify_eq.
    unfold RSD_PAGE_SIZE, RSD_EARLY_PHYSICAL_LIMIT in *. change FRAME_COUNT with 1048576 in Hr.
    lia.
Qed.

(** The allocator's storage when [apply_memory_map] starts. *)
Definition cleared (s : frames) : frames :=
  Frames (bitmap_fill 0) (bitmap_fill 255) (allocator_stats s) 0 false
    (replicate FRAME_CONTIGUOUS_ALLOCATION_CAPACITY (ContiguousRecord 0 0 0 false)) 1.

Lemma cleared_applying context s : applying context (cleared s).
Proof.
  constructor; [by split|by split|]. intros f. unfold frame_eligible. simpl.
  by rewrite bitmap_get_fill_0.
Qed.

(** With no active run, an applied and recounted allocator is well formed. *)
Lemma applying_wf context s stats search :
  applying context s -> stats_match (set_stats stats s) ->
  contiguous_records s = contiguous_records (cleared s) ->
  next_contiguous_identifier s = 1 -> 0 <= search < FRAME_COUNT ->
  frames_wf (set_initialized true (set_search search (set_stats stats s))).
Proof.
  intros Ha Hst Hr Hid Hs.
  assert (Hno : forall i r, contiguous_records s !! i = Some r -> cr_active r = true -> False).
  { rewrite Hr. intros i r [-> _]%lookup_replicate. done. }
  constructor; [apply Ha|apply Ha|exact Hst|exact Hs|by cbn; rewrite Hr|..]; cbn.
  1-4: intros; exfalso; by eapply Hno.
  by rewrite Hid.
Qed.

(** What the boot owns: no frame that touches it may be handed out. *)
Definition boot_reserved (kernel_start kernel_end : Z) (context : boot_information) (f : Z) : Prop :=
  touches 0 RSD_LOW_MEMORY_RESERVATION f \/
  touches kernel_start (kernel_end - kernel_start) f \/
  touches (information_start context)
    (u64 (information_end context - information_start context)) f \/
  exists i r, 0 <= i /\ boot_information_region_at context i = Some r /\
    region_type r <> MULTIBOOT2_MEMORY_AVAILABLE /\
    touches (base_address r) (region_length r) f.

Lemma reserve_internal_rest base length s : same_rest s (reserve_internal base length s).2.
Proof. unfold reserve_internal. by repeat case_match. Qed.

Lemma apply_pass_rest context pass0 n index s :
  same_rest s (apply_memory_map_pass context pass0 n index s).2.
Proof.
  revert index s. induction n as [|n IH]; intros index s; cbn [apply_memory_map_pass]; [done|].
  repeat case_match; try done;
    first [apply IH | exact (IH _ (mark_available_frames _ _ s))
          | exact (IH _ (mark_reserved_frames _ _ s))].
Qed.

Lemma apply_memory_map_rest context s : same_rest s (apply_memory_map context s).2.
Proof.
  unfold apply_memory_map.
  pose proof (apply_pass_rest context true (Z.to_nat (memory_map_entry_count context)) 0 s) as H.
  destruct (apply_memory_map_pass _ _ _ _ _) as [st s1]; cbn in H.
  pose proof (apply_pass_rest context false (Z.to_nat (memory_map_entry_count context)) 0 s1) as H'.
  unfold same_rest in *. destruct st; cbn; try done. destruct_and?. split_and!; congruence.
Qed.

Lemma apply_memory_map_ok context s s' :
  regions_fit context -> applying context s ->
  apply_memory_map context s = (FRAME_STATUS_OK, s') ->
  applying context s' /\ same_rest s s' /\
  (forall i r f, 0 <= i -> boot_information_region_at context i = Some r ->
     region_type r <> MULTIBOOT2_MEMORY_AVAILABLE -> frame_eligible s' f = true ->
     ~ touches (base_address r) (region_length r) f).
Proof.
  intros Hfit Hs Happ. pose proof (apply_memory_map_rest context s) as Hrest.
  rewrite Happ in Hrest. unfold apply_memory_map in Happ.
  destruct (apply_memory_map_pass context true _ _ _) as [st s1] eqn:E1.
  destruct st; try done. apply apply_pass_available in E1 as [Hs1 _]; [|done..].
  apply apply_pass_reserved in Happ as (Hs' & _ & _ & Hno); [|done..].
  split_and!; try done. intros i r f Hi Hr. apply (Hno i r f); [|done].
  split; [done|]. unfold boot_information_region_at in Hr.
  destruct (memory_map context); [|done].
  destruct (Z.leb_spec (memory_map_entry_count context) i); [done|]. lia.
Qed.

(** Nothing but the last step of initialization turns the allocator on. *)
Lemma initialize_failed ks ke context s st s' :
  frame_allocator_initialize ks ke (Some context) s = (st, s') -> st <> FRAME_STATUS_OK ->
  allocator_initialized s' = false \/ (s' = s /\ memory_map context = None).
Proof.
  unfold frame_allocator_initialize. fold (cleared s).
  destruct (memory_map context) as [entries|] eqn:Em; [|intros [= <- <-] _; by right].
  intros Heq Hst. left. revert Heq.
  pose proof (apply_memory_map_rest context (cleared s)) as (_ & H0 & _).
  destruct (apply_memory_map context (cleared s)) as [st0 s0]. cbn in H0.
  destruct st0; [|intros [= <- <-]; congruence..].
  pose proof (reserve_internal_rest 0 RSD_LOW_MEMORY_RESERVATION s0) as (_ & H1 & _).
  destruct (reserve_internal 0 _ s0) as [st1 s1]. cbn in H1.
  destruct st1; [|intros [= <- <-]; congruence..].
  destruct (ke <? ks); [intros [= <- <-]; congruence|].
  pose proof (reserve_internal_rest ks (ke - ks) s1) as (_ & H2 & _).
  destruct (reserve_internal ks _ s1) as [st2 s2]. cbn in H2.
  destruct st2; [|intros [= <- <-]; congruence..].
  set (len := u64 _).
  pose proof (reserve_internal_rest (information_start context) len s2) as (_ & H3 & _).
  destruct (reserve_internal _ len s2) as [st3 s3]. cbn in H3.
  destruct st3; [|intros [= <- <-]; congruence..].
  unfold recompute_stats. generalize (recompute_run s3 (Z.to_nat FRAME_COUNT) 0
    (Stats FRAME_COUNT 0 0 0 0 0)). intros stats. cbn [allocator_stats set_stats].
  destruct (free_frames stats =? 0); intros [= <- <-]; [cbn; congruence|done].
Qed.

Lemma initialize_ok ks ke context s s' :
  fits 64 ks -> fits 64 ke -> fits 64 (information_start context) -> regions_fit context ->
  frame_allocator_initialize ks ke (Some context) s = (FRAME_STATUS_OK, s') ->
  frames_wf s' /\ allocator_initialized s' = true /\
  (exists f, frame_is_free s' f = true) /\ applying context s' /\
  (forall f, frame_eligible s' f = true -> ~ boot_reserved ks ke context f).
Proof.
  intros Hks Hke Hinf Hfit. unfold frame_allocator_initialize. fold (cleared s).
  destruct (memory_map context); [|done].
  destruct (apply_memory_map context (cleared s)) as [st0 s0] eqn:E0.
  destruct st0; [|done..].
  apply apply_memory_map_ok in E0 as (A0 & R0 & N0); [|done|apply cleared_applying].
  destruct (reserve_internal 0 _ s0) as [st1 s1] eqn:E1. destruct st1; [|done..].
  apply (reserve_internal_applying context) in E1 as (A1 & S1 & R1 & N1); [|done..].
  destruct (Z.ltb_spec ke ks); [done|].
  destruct (reserve_internal ks _ s1) as [st2 s2] eqn:E2. destruct st2; [|done..].
  apply (reserve_internal_applying context) in E2 as (A2 & S2 & R2 & N2);
    [|done|unfold fits in *; lia|done].
  set (len := u64 _).
  destruct (reserve_internal _ len s2) as [st3 s3] eqn:E3. destruct st3; [|done..].
  apply (reserve_internal_applying context) in E3 as (A3 & S3 & R3 & N3);
    [|done|by apply wrap_fits|done].
  pose proof (recompute_stats_match s3) as Hst. unfold recompute_stats in Hst |- *.
  revert Hst. generalize (recompute_run s3 (Z.to_nat FRAME_COUNT) 0
    (Stats FRAME_COUNT 0 0 0 0 0)). intros stats Hst. cbn [allocator_stats set_stats].
  destruct (Z.eqb_spec (free_frames stats) 0) as [|Hfree]; [done|]. intros [= <-].
  assert (Hrec : contiguous_records s3 = contiguous_records (cleared s3) /\
    next_contiguous_identifier s3 = 1).
  { destruct R0 as (_ & _ & R0 & R0'), R1 as (_ & _ & R1 & R1'), R2 as (_ & _ & R2 & R2'),
      R3 as (_ & _ & R3 & R3'). rewrite R3, R2, R1, R0, R3', R2', R1', R0'. done. }
  split_and!.
  - by eapply applying_wf; [done|exact Hst|apply Hrec|apply Hrec|].
  - done.
  - destruct Hst as [Hst _]. apply (count_frames_exists (frame_is_free (set_stats stats s3))).
    by rewrite <- Hst.
  - destruct A3. by constructor.
  - intros f Hf. change (frame_eligible s3 f = true) in Hf.
    intros [Ht | [Ht | [Ht | (i & r & Hi & Hr & Hty & Ht)]]].
    + by eapply N1; [apply S2, S3|].
    + by eapply N2; [apply S3|].
    + by eapply N3.
    + by eapply (N0 i r f); [..|apply S1, S2, S3, Hf|].
Qed.

(** The bitmaps before the statistics are computed. *)
Definition initialize_map (ks ke : Z) (context : boot_information) (s : frames) : frame_status * frames :=
  match apply_memory_map context (cleared s) with
  | (FRAME_STATUS_OK, s) =>
      match reserve_internal 0 RSD_LOW_MEMORY_RESERVATION s with
      | (FRAME_STATUS_OK, s) =>
          match reserve_internal ks (ke - ks) s with
          | (FRAME_STATUS_OK, s) =>
              reserve_internal (information_start context)
                (u64 (information_end context - information_start context)) s
          | failed => failed
          end
      | failed => failed
      end
  | failed => failed
  end.

(** Initialization succeeds as soon as one frame is left over. *)
Lemma initialize_succeeds ks ke context s s3 f :
  memory_map context <> None -> ks <= ke -> initialize_map ks ke context s = (FRAME_STATUS_OK, s3) ->
  0 <= f < FRAME_COUNT -> frame_is_free s3 f = true ->
  exists s', frame_allocator_initialize ks ke (Some context) s = (FRAME_STATUS_OK, s').
Proof.
  intros Hm Hk Hmap Hf Hfree. unfold frame_allocator_initialize, initialize_map in *. fold (cleared s).
  destruct (memory_map context); [|done].
  destruct (apply_memory_map context (cleared s)) as [st0 s0]. destruct st0; try done.
  destruct (reserve_internal 0 _ s0) as [st1 s1]. destruct st1; try done.
  destruct (Z.ltb_spec ke ks); [lia|].
  destruct (reserve_internal ks _ s1) as [st2 s2]. destruct st2; try done. rewrite Hmap.
  pose proof (recompute_stats_match s3) as [Hst _]. unfold recompute_stats in Hst |- *.
  revert Hst. generalize (recompute_run s3 (Z.to_nat FRAME_COUNT) 0 (Stats FRAME_COUNT 0 0 0 0 0)).
  intros stats Hst. cbn [allocator_stats set_stats] in *.
  destruct (Z.eqb_spec (free_frames stats) 0) as [Hz|]; [|by eexists].
  exfalso. pose proof (count_frames_pos (frame_is_free (set_stats stats s3)) f Hf Hfree) as Hp.
  rewrite <- Hst, Hz in Hp. by apply Z.lt_irrefl in Hp.
Qed.

(** After a successful [frame_allocator_initialize] the allocator is
    well-formed with at least one free frame, and every frame it may ever hand
    out lies wholly inside an available region of the memory map and touches
    neither low memory, the kernel image, the boot information nor a reserved
    region; after a failure the allocator stays unusable. *)
Theorem frame_allocator_initialize_correct ks ke context s :
  fits 64 ks -> fits 64 ke -> fits 64 (information_start context) -> regions_fit context ->
  let '(st, s') := frame_allocator_initialize ks ke (Some context) s in
  (st = FRAME_STATUS_OK ->
     frames_wf s' /\ allocator_initialized s' = true /\
     (exists f, frame_is_free s' f = true) /\
     (forall f, frame_eligible s' f = true ->
        frame_is_free s' f = true /\ 0 <= f < FRAME_COUNT /\ in_available context f /\
        ~ boot_reserved ks ke context f)) /\
  (st <> FRAME_STATUS_OK ->
     allocator_initialized s' = false \/ (s' = s /\ memory_map context = None)).
Proof.
  intros Hks Hke Hinf Hfit.
  destruct (frame_allocator_initialize ks ke (Some context) s) as [st s'] eqn:E.
  split; intros Hst; [|by eapply initialize_failed]. subst st.
  apply initialize_ok in E as (Hwf & Hi & Hf & Ha & Hr); [|done..].
  split_and!; try done. intros f He. destruct (ap_frames _ _ Ha f He) as (Hu & Hb & Hav).
  split; [by apply frame_is_free_iff|]. split; [done|]. split; [done|]. by apply Hr.
Qed.

(** ** Concrete allocators

    [n] free frames from frame [first], nothing allocated. *)

Definition fresh_frames (n : nat) (first : Z) : frames :=
  Frames (bitmap_set_run n first true (bitmap_fill 0))
    (bitmap_set_run n first false (bitmap_fill 255))
    (Stats FRAME_COUNT (Z.of_nat n) (Z.of_nat n) 0 (FRAME_COUNT - Z.of_nat n)
       ((first + Z.of_nat n) * RSD_PAGE_SIZE))
    first true (replicate FRAME_CONTIGUOUS_ALLOCATION_CAPACITY (ContiguousRecord 0 0 0 false)) 1.

Definition sample_frames (first : Z) : frames := fresh_frames 4 first.

Lemma fresh_frames_eligible n first f :
  frame_eligible (fresh_frames n first) f = bool_decide (first <= f < first + Z.of_nat n).
Proof.
  unfold frame_eligible, fresh_frames. cbn [eligible_bitmap].
  rewrite bitmap_get_set_run by done. rewrite bitmap_get_fill_0. by case_decide; case_bool_decide.
Qed.

Lemma fresh_frames_used n first f :
  first <= f < first + Z.of_nat n -> frame_used (fresh_frames n first) f = false.
Proof.
  intros. unfold frame_used, fresh_frames. cbn [used_bitmap].
  rewrite bitmap_get_set_run by done. by rewrite decide_True.
Qed.

Lemma fresh_frames_counts n first :
  0 <= first -> first + Z.of_nat n <= FRAME_COUNT -> stats_match (fresh_frames n first).
Proof.
  intros H0 H1. unfold stats_match, count_frames, frame_allocated, frame_is_free.
  cbn [allocator_stats fresh_frames free_frames allocated_frames].
  revert H1. generalize FRAME_COUNT. intros c H1. split; symmetry.
  - rewrite (countz_update (fun _ => false) _ 0 c first (Z.of_nat n)); [|lia..|].
    + rewrite !(countz_none (fun _ => false)) by done. rewrite countz_all; [lia|lia|].
      intros x Hx. rewrite fresh_frames_eligible, fresh_frames_used by done. by rewrite bool_decide_true.
    + intros x _ Hx. by rewrite fresh_frames_eligible, bool_decide_false.
  - apply countz_none. intros x _. rewrite fresh_frames_eligible. case_bool_decide; [|done].
    by rewrite fresh_frames_used.
Qed.

Lemma fresh_frames_wf n first :
  0 <= first < FRAME_COUNT -> first + Z.of_nat n <= FRAME_COUNT -> frames_wf (fresh_frames n first).
Proof.
  intros H0 H1.
  assert (Hr : forall i r, contiguous_records (fresh_frames n first) !! i = Some r ->
    cr_active r = false).
  { intros i r [-> _]%lookup_replicate. done. }
  constructor.
  - by apply bitmap_set_run_wf.
  - by apply bitmap_set_run_wf.
  - by apply fresh_frames_counts; [lia|].
  - cbn [next_search_index fresh_frames]. lia.
  - apply length_replicate.
  - intros i r Hi Ha. apply Hr in Hi. congruence.
  - intros i j r q f Hi _ Ha. apply Hr in Hi. congruence.
  - intros i r Hi Ha. apply Hr in Hi. congruence.
  - intros i j r q Hi _ Ha. apply Hr in Hi. congruence.
  - done.
Qed.

Lemma sample_wf first :
  0 <= first -> first + 4 <= FRAME_COUNT -> frames_wf (sample_frames first).
Proof. intros H0 H1. apply fresh_frames_wf; lia. Qed.

(** The first of the four frames is handed out. *)
Lemma sample_allocate :
  frame_allocate (Some 0) (sample_frames 4096) =
    (FRAME_STATUS_OK, Some 0x1000000, take_frame 4096 (sample_frames 4096)).
Proof. reflexivity. Qed.

Lemma sample_taken_wf : frames_wf (take_frame 4096 (sample_frames 4096)).
Proof. by apply take_frame_wf; [apply sample_wf|..]. Qed.

(** Two 8 KiB-aligned pages below 2 MiB. *)
Definition sample_request : frame_contiguous_request := ContiguousRequest 2 0x2000 0x1FFFFF.

Lemma sample_contiguous :
  exists a s', frame_allocate_contiguous (Some sample_request) (Some empty_allocation)
    (sample_frames 256) = (FRAME_STATUS_OK, Some a, s').
Proof. do 2 eexists. vm_compute. reflexivity. Qed.

Definition sample_boot : boot_information :=
  BootInformation (Some [Region 0x100000 0x100000 1; Region 0x200000 0x1000 2]) 2 0x9000 0xA000.

Lemma sample_boot_fit : regions_fit sample_boot.
Proof.
  intros i r. unfold boot_information_region_at. cbn [memory_map memory_map_entry_count sample_boot].
  destruct (2 <=? i); [done|]. destruct (Z.to_nat i) as [|[|n]]; intros [= <-]; done.
Qed.

(** ** Witnesses *)

Lemma frame_allocate_correct_witness :
  frames_wf (sample_frames 4096) /\
  (exists frame, Some 0x1000000 = Some (frame * RSD_PAGE_SIZE) /\
     frame_choice (sample_frames 4096) frame).
Proof.
  assert (Hwf : frames_wf (sample_frames 4096)) by (apply sample_wf; done).
  split; [exact Hwf|].
  pose proof (frame_allocate_correct (sample_frames 4096) 0 Hwf eq_refl) as H.
  rewrite sample_allocate in H. destruct H as (_ & frame & Hf & Hc & _).
  exists frame. by split.
Defined.

Lemma frame_release_correct_witness :
  frames_wf (frame_release 0x1000000 (take_frame 4096 (sample_frames 4096))).2.
Proof.
  pose proof (frame_release_correct (take_frame 4096 (sample_frames 4096)) 0x1000000
    sample_taken_wf eq_refl ltac:(done)) as H.
  destruct (frame_release _ _) as [st s']. exact (proj1 H).
Defined.

Lemma frame_allocate_release_roundtrip_witness :
  exists s'', frame_release 0x1000000 (take_frame 4096 (sample_frames 4096)) =
    (FRAME_STATUS_OK, s'').
Proof.
  destruct (frame_allocate_release_roundtrip (sample_frames 4096) 0 0x1000000
    (take_frame 4096 (sample_frames 4096))) as (s'' & H & _).
  - apply sample_wf; done.
  - reflexivity.
  - exact sample_allocate.
  - by exists s''.
Defined.

Lemma frame_allocate_contiguous_correct_witness :
  request_fits sample_request /\
  frames_wf (frame_allocate_contiguous (Some sample_request) (Some empty_allocation)
    (sample_frames 256)).2.
Proof.
  assert (Hfits : request_fits sample_request) by done. split; [exact Hfits|].
  pose proof (frame_allocate_contiguous_correct (sample_frames 256) sample_request
    empty_allocation ltac:(by apply sample_wf) Hfits ltac:(done)) as H.
  cbv zeta in H. destruct (frame_allocate_contiguous _ _ _) as [[st out] s']. exact (proj1 H).
Defined.

Lemma frame_contiguous_roundtrip_witness :
  exists a s' s'', frame_release_contiguous (Some a) s' =
    (FRAME_STATUS_OK, Some (deactivate_allocation a), s'').
Proof.
  destruct sample_contiguous as (a & s' & Ha).
  destruct (frame_contiguous_roundtrip (sample_frames 256) sample_request empty_allocation a s')
    as (s'' & H & _).
  - by apply sample_wf.
  - split_and!; vm_compute; split; congruence.
  - reflexivity.
  - exact Ha.
  - by exists a, s', s''.
Defined.

Lemma frame_reserve_range_correct_witness :
  frames_wf (frame_reserve_range 0x100000 0x1800 (sample_frames 256)).2.
Proof.
  pose proof (frame_reserve_range_correct (sample_frames 256) 0x100000 0x1800
    ltac:(by apply sample_wf) ltac:(done) ltac:(done)) as H.
  destruct (frame_reserve_range _ _ _) as [st s']. exact (proj1 H).
Defined.

Lemma frame_allocator_initialize_correct_witness :
  exists s', frame_allocator_initialize 0x100000 0x180000 (Some sample_boot) (sample_frames 256) =
    (FRAME_STATUS_OK, s') /\ frames_wf s'.
Proof.
  pose proof (frame_allocator_initialize_correct 0x100000 0x180000 sample_boot
    (sample_frames 256) ltac:(done) ltac:(done) ltac:(done) sample_boot_fit) as H.
  destruct (initialize_succeeds 0x100000 0x180000 sample_boot (sample_frames 256)
    (initialize_map 0x100000 0x180000 sample_boot (sample_frames 256)).2 0x1FF) as (s' & Hs);
    [discriminate|discriminate|vm_compute; reflexivity|split; [discriminate|reflexivity]|vm_compute; reflexivity|].
  exists s'. split; [exact Hs|].
  rewrite Hs in H. exact (proj1 (proj1 H eq_refl)).
Defined.
