(* ===== verification/BlockTable.v ===== *)
(** * Block tables (shared by [src/kernel/heap.c] and [src/kernel/dma_arena.c])

    Both allocators keep a fixed array of [{ offset, size, used }] blocks sorted
    by offset with a count of the live ones.  The array operations are those of
    [heap.c]; the lemmas relate the array to the list of live blocks and say how
    splitting and merging keep a table that tiles its region. *)

From stdpp Require Import base option list numbers gmap.
From S2P Require Import Prelude.

Record block := Block { offset : Z; size : Z; used : bool }.

#[global] Instance block_eq_dec : EqDecision block.
Proof. solve_decision. Defined.

#[global] Instance block_inhabited : Inhabited block :=
  populate (Block 0 0 false).

(** ** Table operations *)

Definition remove_block (table : list block) (count index : nat) :
    list block * nat :=
  (shift_down (pred count - index) index table, pred count).

Definition set_used (u : bool) (b : block) : block := Block (offset b) (size b) u.
Definition set_size (s : Z) (b : block) : block := Block (offset b) s (used b).

Definition merge_forward (table : list block) (count index : nat) :
    list block * nat :=
  if (S index <? count)%nat && negb (used (table !!! S index)) then
    let merged := u64 (size (table !!! index) + size (table !!! S index)) in
    remove_block (<[index := set_size merged (table !!! index)]> table) count (S index)
  else (table, count).

Definition merge_backward (table : list block) (count index : nat) :
    list block * nat :=
  if (0 <? index)%nat && negb (used (table !!! pred index)) then
    let merged := u64 (size (table !!! pred index) + size (table !!! index)) in
    remove_block (<[pred index := set_size merged (table !!! pred index)]> table) count index
  else (table, count).

Definition merge_free_neighbours (table : list block) (count index : nat) :
    list block * nat :=
  let '(table, count) := merge_forward table count index in
  merge_backward table count index.

(** The entries the byte and allocation counters range over. *)
Definition used_blocks (l : list block) : list block :=
  filter (fun b => used b = true) l.

(** ** The table as a list of blocks *)

(** The first [count] entries of a table of [cap] are [l]. *)
Definition represents (cap : nat) (table : list block) (count : nat) (l : list block) : Prop :=
  length table = cap /\ (count <= cap)%nat /\ take count table = l.

Section Represents.
Context {cap : nat}.
Implicit Types (l : list block) (b x y : block).

Lemma represents_length t c l : represents cap t c l -> length l = c.
Proof. intros (Hl & Hc & <-). rewrite length_take. lia. Qed.

Lemma represents_lookup t c l i b : represents cap t c l -> l !! i = Some b -> t !!! i = b.
Proof.
  intros (Hl & Hc & <-) Hi. apply lookup_take_Some in Hi as [Hi _].
  by apply list_lookup_total_correct.
Qed.

Lemma represents_mid t c l1 x l2 : represents cap t c (l1 ++ x :: l2) -> t !!! length l1 = x.
Proof. intros H. eapply represents_lookup; [done|]. by apply list_lookup_middle. Qed.

Lemma represents_insert t c l1 x y l2 :
  represents cap t c (l1 ++ x :: l2) -> represents cap (<[length l1 := y]> t) c (l1 ++ y :: l2).
Proof.
  intros H. pose proof (represents_length _ _ _ H) as Hlen. destruct H as (Hl & Hc & Ht).
  rewrite length_app in Hlen. simpl in Hlen.
  split; [by rewrite length_insert|]. split; [done|].
  rewrite take_insert_lt by lia. rewrite Ht.
  rewrite insert_app_r_alt by done. by rewrite Nat.sub_diag.
Qed.

Lemma represents_extend t c l y :
  represents cap t c l -> (c < cap)%nat -> represents cap (<[c := y]> t) (S c) (l ++ [y]).
Proof.
  intros (Hl & Hc & Ht) Hlt. split; [by rewrite length_insert|]. split; [lia|].
  rewrite (take_S_r _ c y) by (by rewrite list_lookup_insert_eq by lia).
  by rewrite take_insert_ge, Ht by lia.
Qed.

Lemma represents_remove t c l1 x l2 :
  represents cap t c (l1 ++ x :: l2) ->
  represents cap (remove_block t c (length l1)).1 (remove_block t c (length l1)).2 (l1 ++ l2).
Proof.
  intros H. pose proof (represents_length _ _ _ H) as Hlen. destruct H as (Hl & Hc & Ht).
  rewrite length_app in Hlen. simpl in Hlen. simpl.
  split; [by rewrite length_shift_down|]. split; [lia|].
  rewrite take_shift_down by lia. rewrite Ht, take_app_length, drop_app_ge by lia.
  by replace (S (length l1) - length l1)%nat with 1%nat by lia.
Qed.

Lemma represents_open t c l1 x y l2 :
  represents cap t c (l1 ++ x :: l2) -> (c < cap)%nat ->
  represents cap (<[S (length l1) := y]> (shift_up (c - S (length l1)) c t)) (S c)
    (l1 ++ x :: y :: l2) /\
  shift_up (c - S (length l1)) c t !!! length l1 = x.
Proof.
  intros H Hlt. pose proof (represents_length _ _ _ H) as Hlen.
  pose proof (represents_mid _ _ _ _ _ H) as Hmid. destruct H as (Hl & Hc & Ht).
  rewrite length_app in Hlen. simpl in Hlen. split.
  - split; [by rewrite length_insert, length_shift_up|]. split; [lia|].
    rewrite take_shift_up by lia. rewrite Ht.
    replace (l1 ++ x :: l2) with ((l1 ++ [x]) ++ l2) by by rewrite <- app_assoc.
    replace (S (length l1)) with (length (l1 ++ [x])) by (rewrite length_app; simpl; lia).
    rewrite take_app_length, drop_app_length. by rewrite <- app_assoc.
  - rewrite list_lookup_total_alt, lookup_shift_up by lia.
    rewrite decide_False by lia. by rewrite <- list_lookup_total_alt.
Qed.
End Represents.

(** ** Layouts

    [layout grain off prev l e]: the blocks [l] tile [off, e) in order, each of a
    positive multiple of [grain], no two neighbours both free; [prev]
    says whether the block before [l] is used. *)
Fixpoint layout (grain off : Z) (prev : bool) (l : list block) (e : Z) : Prop :=
  match l with
  | [] => off = e
  | b :: l =>
      offset b = off /\ 0 < size b /\ size b mod grain = 0 /\
      (prev || used b = true) /\ layout grain (off + size b) (used b) l e
  end.

Section Tiling.
Context {cap : nat} {grain : Z}.

(** Whether the last block of [l], or else the one before [l], is used. *)
Definition last_used (prev : bool) (l : list block) : bool :=
  default prev (used <$> last l).

Lemma last_used_cons prev b l : last_used prev (b :: l) = last_used (used b) l.
Proof. unfold last_used. rewrite last_cons. by destruct (last l). Qed.

Lemma layout_app off prev l k e :
  layout grain off prev (l ++ k) e <->
  layout grain off prev l (off + sumz size l) /\
  layout grain (off + sumz size l) (last_used prev l) k e.
Proof.
  revert off prev. induction l as [|b l IH]; intros off prev; simpl.
  - rewrite Z.add_0_r. tauto.
  - rewrite IH, last_used_cons, !Z.add_assoc. tauto.
Qed.

Lemma layout_end off prev l e : layout grain off prev l e -> e = off + sumz size l.
Proof.
  revert off prev. induction l as [|b l IH]; intros off prev; simpl; [lia|].
  intros (_ & _ & _ & _ & H). apply IH in H. lia.
Qed.

Lemma layout_sizes off prev l e : layout grain off prev l e -> Forall (fun b => 0 < size b) l.
Proof.
  revert off prev. induction l as [|b l IH]; intros off prev; simpl; [constructor|].
  intros (_ & ? & _ & _ & H). constructor; [done|by eapply IH].
Qed.

Lemma sizes_nonneg l : Forall (fun b => 0 < size b) l -> 0 <= sumz size l.
Proof. intros H. apply sumz_nonneg. eapply Forall_impl; [done|]. simpl. lia. Qed.

Lemma layout_grows off prev l e : layout grain off prev l e -> off <= e.
Proof.
  intros H. pose proof (layout_end _ _ _ _ H). pose proof (sizes_nonneg l (layout_sizes _ _ _ _ H)).
  lia.
Qed.

(** Every block of a layout lies in its span. *)
Lemma layout_block off prev l1 b l2 e :
  layout grain off prev (l1 ++ b :: l2) e ->
  offset b = off + sumz size l1 /\ 0 < size b /\ off <= offset b /\ offset b + size b <= e.
Proof.
  intros [H1 H2]%layout_app. destruct H2 as (Ho & Hs & _ & _ & H2).
  apply layout_grows in H1, H2. lia.
Qed.

(** A used predecessor only weakens the requirement. *)
Lemma layout_prev off prev l e : layout grain off prev l e -> layout grain off true l e.
Proof. destruct l; simpl; intuition. Qed.

Lemma aligned_sum a : a mod grain = 0 -> forall b, b mod grain = 0 ->
  (a + b) mod grain = 0 /\ (a - b) mod grain = 0.
Proof.
  intros Ha b Hb. destruct (decide (grain = 0)) as [Hz|Hg].
  { rewrite Hz, !Z.mod_0_r in *. lia. }
  apply Z.mod_divide in Ha, Hb; [|done..]. destruct Ha as [x ->], Hb as [y ->].
  by rewrite <- Z.mul_add_distr_r, <- Z.mul_sub_distr_r, !Z.mod_mul.
Qed.

Lemma take_drop_S {A} `{Inhabited A} (t : list A) n i :
  (i < length t)%nat -> take (S n) (drop i t) = t !!! i :: take n (drop (S i) t).
Proof.
  intros Hi. destruct (lookup_lt_is_Some_2 t i Hi) as [x Hx].
  rewrite (drop_S _ x) by done. simpl. f_equal. symmetry. by apply list_lookup_total_correct.
Qed.

(** The blocks an allocation of [sz] bytes leaves in place of [b]. *)
Definition carve (b : block) (sz : Z) : list block :=
  Block (offset b) sz true ::
  (if size b =? sz then [] else [Block (offset b + sz) (size b - sz) false]).

Lemma carve_layout off prev l1 b l2 sz e :
  layout grain off prev (l1 ++ b :: l2) e -> used b = false ->
  0 < sz <= size b -> sz mod grain = 0 ->
  layout grain off prev (l1 ++ carve b sz ++ l2) e.
Proof.
  intros (H1 & Ho & Hs & Ha & Hp & H2)%layout_app Hu Hsz Hal. apply layout_app.
  split; [done|]. rewrite Hu in Hp, H2. unfold carve. cbn [app layout used offset size].
  destruct (Z.eqb_spec (size b) sz) as [Heq|Hne]; cbn [app layout used offset size].
  - subst sz. rewrite orb_true_r. split_and!; try done. by eapply layout_prev.
  - destruct (aligned_sum _ Ha _ Hal) as [_ ?]. rewrite orb_true_r.
    split_and!; try done; try lia.
    by replace (off + sumz size l1 + sz + (size b - sz)) with (off + sumz size l1 + size b) by lia.
Qed.

(** *** Merging *)

(** [a] grown over its successor [b]. *)
Definition join (a b : block) : block := set_size (size a + size b) a.

Definition absorb_next (b : block) (l2 : list block) : block * list block :=
  match l2 with
  | n :: r => if used n then (b, l2) else (join b n, r)
  | [] => (b, [])
  end.

Definition absorb_prev (l1 : list block) (b : block) : list block :=
  match last l1 with
  | Some p => if used p then l1 ++ [b] else removelast l1 ++ [join p b]
  | None => [b]
  end.

(** The live list after the free block [b] has merged with its neighbours. *)
Definition coalesce (l1 : list block) (b : block) (l2 : list block) :
    list block :=
  absorb_prev l1 (absorb_next b l2).1 ++ (absorb_next b l2).2.

Lemma represents_next t c l1 b l2 i :
  represents cap t c (l1 ++ b :: l2) -> i = length l1 ->
  (S i <? c)%nat && negb (used (t !!! S i)) =
    match l2 with [] => false | n :: _ => negb (used n) end.
Proof.
  intros Hr ->. pose proof (represents_length _ _ _ Hr) as Hlen.
  rewrite length_app in Hlen. simpl in Hlen. destruct l2 as [|n r].
  - destruct (Nat.ltb_spec (S (length l1)) c); [simpl in *; lia|done].
  - destruct (Nat.ltb_spec (S (length l1)) c); [|simpl in *; lia].
    rewrite (represents_lookup _ _ _ (S (length l1)) n Hr); [done|].
    rewrite lookup_app_r by lia. by replace (S (length l1) - length l1)%nat with 1%nat by lia.
Qed.

Lemma merge_forward_spec t c l1 b l2 :
  represents cap t c (l1 ++ b :: l2) -> 0 <= size b ->
  size b + sumz size (take 1 l2) < 2 ^ 64 -> Forall (fun x => 0 < size x) l2 ->
  let r := merge_forward t c (length l1) in
  represents cap r.1 r.2 (l1 ++ (absorb_next b l2).1 :: (absorb_next b l2).2).
Proof.
  intros Hr Hb Hw Hs. unfold merge_forward. rewrite (represents_next _ _ _ _ _ _ Hr eq_refl).
  rewrite (represents_mid _ _ _ _ _ Hr).
  destruct l2 as [|n r]; [done|]. cbn [absorb_next]. destruct (used n) eqn:Hu; [done|].
  cbn [negb fst snd]. apply Forall_cons in Hs as [Hn _]. simpl in Hw.
  assert (Ht : t !!! S (length l1) = n).
  { eapply represents_lookup; [done|]. rewrite lookup_app_r by lia.
    by replace (S (length l1) - length l1)%nat with 1%nat by lia. }
  rewrite Ht, wrap_small by (unfold fits; lia).
  pose proof (represents_insert _ _ _ _ (join b n) _ Hr) as H2. fold (join b n).
  replace (S (length l1)) with (length (l1 ++ [join b n])) by (rewrite length_app; simpl; lia).
  replace (l1 ++ join b n :: r) with ((l1 ++ [join b n]) ++ r) by by rewrite <- app_assoc.
  apply (represents_remove _ _ _ n). by rewrite <- app_assoc.
Qed.

Lemma merge_backward_spec t c l1 b l2 :
  represents cap t c (l1 ++ b :: l2) -> 0 <= size b ->
  Forall (fun x => 0 < size x) l1 -> sumz size l1 + size b < 2 ^ 64 ->
  let r := merge_backward t c (length l1) in
  represents cap r.1 r.2 (absorb_prev l1 b ++ l2).
Proof.
  intros Hr Hb Hs Hw. unfold merge_backward, absorb_prev.
  destruct (last l1) as [p|] eqn:Hlast.
  2: { apply last_None in Hlast as ->. done. }
  apply last_Some in Hlast as [k ->]. rewrite removelast_last.
  rewrite length_app, Nat.add_comm. cbn [length Nat.add pred Nat.ltb Nat.leb].
  rewrite <- app_assoc in Hr. cbn [app] in Hr.
  rewrite (represents_mid _ _ _ _ _ Hr).
  assert (Ht : t !!! S (length k) = b).
  { eapply represents_lookup; [done|]. rewrite lookup_app_r by lia.
    by replace (S (length k) - length k)%nat with 1%nat by lia. }
  destruct (used p) eqn:Hu; cbn [andb negb].
  { by rewrite <- !app_assoc. }
  rewrite Forall_app in Hs. destruct Hs as [Hk [Hp _]%Forall_cons].
  rewrite sumz_app in Hw. simpl in Hw. pose proof (sizes_nonneg k Hk).
  rewrite Ht, wrap_small by (unfold fits; lia). fold (join p b).
  pose proof (represents_insert _ _ _ _ (join p b) _ Hr) as H2.
  replace (S (length k)) with (length (k ++ [join p b])) by (rewrite length_app; simpl; lia).
  apply (represents_remove _ _ _ b). by rewrite <- app_assoc.
Qed.

Lemma merge_free_neighbours_spec t c l1 b l2 e :
  represents cap t c (l1 ++ b :: l2) -> e < 2 ^ 64 ->
  sumz size (l1 ++ b :: l2) = e -> Forall (fun x => 0 < size x) (l1 ++ b :: l2) ->
  let r := merge_free_neighbours t c (length l1) in
  represents cap r.1 r.2 (coalesce l1 b l2).
Proof.
  intros Hr He Hsum Hs. apply Forall_app in Hs as [Hs1 [Hb Hs2]%Forall_cons].
  rewrite sumz_app in Hsum. simpl in Hsum.
  pose proof (sizes_nonneg _ Hs1). pose proof (sizes_nonneg _ Hs2).
  assert (Hn : size (absorb_next b l2).1 + sumz size (absorb_next b l2).2 = size b + sumz size l2).
  { destruct l2 as [|n r]; simpl; [done|]. destruct (used n); simpl; lia. }
  assert (Hpos : 0 < size (absorb_next b l2).1 /\ 0 <= sumz size (absorb_next b l2).2).
  { destruct l2 as [|n r]; simpl; [lia|]. apply Forall_cons in Hs2 as [? ?%sizes_nonneg].
    destruct (used n); simpl in *; lia. }
  assert (Ht : sumz size (take 1 l2) <= sumz size l2).
  { destruct l2 as [|n r]; simpl; [done|]. apply Forall_cons in Hs2 as [_ ?%sizes_nonneg].
    lia. }
  unfold merge_free_neighbours.
  pose proof (merge_forward_spec t c l1 b l2 Hr) as Hf. cbv zeta in Hf.
  destruct (merge_forward t c (length l1)) as [t1 c1]. cbn [fst snd] in Hf.
  apply merge_backward_spec; [apply Hf|..]; lia || done.
Qed.

Lemma used_blocks_app l k : used_blocks (l ++ k) = used_blocks l ++ used_blocks k.
Proof. apply filter_app. Qed.

Lemma used_blocks_cons b l :
  used_blocks (b :: l) = if used b then b :: used_blocks l else used_blocks l.
Proof.
  unfold used_blocks. rewrite filter_cons. by case_decide; destruct (used b).
Qed.

Lemma used_blocks_In b l : b ∈ used_blocks l <-> used b = true /\ b ∈ l.
Proof. unfold used_blocks. by rewrite list_elem_of_filter. Qed.

Lemma absorb_next_layout b l2 e :
  0 < size b -> size b mod grain = 0 -> used b = false ->
  layout grain (offset b + size b) true l2 e ->
  let '(c, r) := absorb_next b l2 in
  offset c = offset b /\ 0 < size c /\ size c mod grain = 0 /\ used c = false /\
  layout grain (offset c + size c) false r e /\ used_blocks r = used_blocks l2.
Proof.
  intros Hs Ha Hu Hl. destruct l2 as [|n r]; simpl in *; [done|].
  destruct Hl as (Ho & Hn & Hna & _ & Hr). rewrite used_blocks_cons. revert Hr.
  destruct (used n) eqn:Hnu; intros Hr; simpl; [rewrite Hnu; split_and!; try done; by rewrite used_blocks_cons, Hnu|].
  destruct (aligned_sum _ Ha _ Hna) as [? _].
  split_and!; try done; [lia|]. by rewrite Z.add_assoc.
Qed.

Lemma absorb_prev_layout l1 b l2 e off :
  layout grain off true l1 (off + sumz size l1) -> offset b = off + sumz size l1 ->
  0 < size b -> size b mod grain = 0 -> used b = false ->
  layout grain (offset b + size b) false l2 e ->
  layout grain off true (absorb_prev l1 b ++ l2) e /\
  used_blocks (absorb_prev l1 b) = used_blocks l1.
Proof.
  intros H1 Ho Hs Ha Hu H2. unfold absorb_prev. rewrite Ho in H2.
  destruct (last l1) as [p|] eqn:Hlast.
  2: { apply last_None in Hlast as ->. simpl in *. rewrite used_blocks_cons, Hu.
       split_and!; try done; [lia|]. by rewrite Z.add_0_r in H2. }
  destruct (used p) eqn:Hp.
  - rewrite <- app_assoc, layout_app, used_blocks_app, used_blocks_cons, Hu, app_nil_r.
    split; [|done]. split; [done|]. cbn [app layout]. unfold last_used. rewrite Hlast. simpl.
    rewrite Hp, Hu. by split_and!.
  - apply last_Some in Hlast as [k ->]. rewrite removelast_last, <- app_assoc.
    rewrite layout_app in H1 |- *. rewrite sumz_app in H1, Ho, H2. simpl in H1, Ho, H2.
    destruct H1 as (H1 & Hpo & Hps & Hpa & Hpp & _). rewrite Hp in Hpp.
    destruct (aligned_sum _ Hpa _ Ha) as [? _].
    rewrite !used_blocks_app, !used_blocks_cons. simpl. rewrite Hp.
    split_and!; try done; [lia|]. by rewrite !Z.add_assoc, Z.add_0_r in *.
Qed.

Lemma coalesce_layout l1 b l2 e :
  layout grain 0 true (l1 ++ b :: l2) e -> used b = true ->
  layout grain 0 true (coalesce l1 (set_used false b) l2) e /\
  used_blocks (coalesce l1 (set_used false b) l2) = used_blocks l1 ++ used_blocks l2.
Proof.
  intros (H1 & Ho & Hs & Ha & _ & H2)%layout_app Hu. rewrite Hu, <- Ho in H2.
  unfold coalesce. pose proof (absorb_next_layout (set_used false b) l2 e Hs Ha eq_refl H2) as Hn.
  destruct (absorb_next (set_used false b) l2) as [c r]. cbn [fst snd].
  destruct Hn as (Hco & Hcs & Hca & Hcu & Hr & Hru). simpl in Hco.
  destruct (absorb_prev_layout l1 c r e 0 H1) as [Hl Hul]; [congruence|done..|].
  split; [done|]. by rewrite used_blocks_app, Hul, Hru.
Qed.

(** Freeing what was just carved gives the block back whole. *)
Lemma coalesce_carve l1 b l2 sz e :
  layout grain 0 true (l1 ++ b :: l2) e -> used b = false -> 0 < sz <= size b ->
  exists r, carve b sz ++ l2 = Block (offset b) sz true :: r /\
    coalesce l1 (set_used false (Block (offset b) sz true)) r = l1 ++ b :: l2.
Proof.
  intros (H1 & Ho & Hs & Ha & Hp & H2)%layout_app Hu Hsz. rewrite Hu in Hp, H2.
  assert (Hl1 : forall x, absorb_prev l1 x = l1 ++ [x]).
  { intros x. unfold absorb_prev. unfold last_used in Hp.
    destruct (last l1) eqn:El; simpl in Hp.
    - rewrite orb_false_r in Hp. by rewrite Hp.
    - by apply last_None in El as ->. }
  unfold carve, coalesce. destruct b as [o s u]. simpl in *. subst u.
  destruct (Z.eqb_spec s sz) as [->|Hne]; eexists; (split; [reflexivity|]); simpl.
  - destruct l2 as [|n r]; simpl.
    + by rewrite Hl1, <- app_assoc.
    + destruct H2 as (_ & _ & _ & Hn & _). simpl in Hn. rewrite Hn. simpl.
      by rewrite Hl1, <- app_assoc.
  - unfold join, set_size, set_used. simpl. rewrite Hl1, <- app_assoc. simpl.
    by replace (sz + (s - sz)) with s by lia.
Qed.

End Tiling.
