(* ===== verification/Heap.v ===== *)
(** * Kernel heap ([src/kernel/heap.c], [include/rsd/heap.h])

    A first-fit allocator over a fixed table of blocks that tile the committed
    part of a virtual window.  The page tables and the frame allocator the heap
    calls are the operations of the class [page_backend]; what the heap relies
    on is the class [page_backend_laws], and an implementation over the frame
    allocator of [Frames] discharges it at the end of the file. *)

From stdpp Require Import base list numbers gmap.
From S2P Require Import Prelude BlockTable Frames.

Definition HEAP_BASE : Z := 0x400000000.
Definition HEAP_SIZE : Z := 16 * 1024 * 1024.
Definition PAGING_PAGE_SIZE : Z := 4096.
Definition HEAP_GUARD_BELOW : Z := HEAP_BASE - 4096.
Definition HEAP_GUARD_ABOVE : Z := HEAP_BASE + HEAP_SIZE.
Definition HEAP_ALIGNMENT : Z := 16.
Definition HEAP_MAX_BLOCKS : nat := 256.
Definition PAGING_WRITE : Z := 1.

Inductive heap_status :=
  | HEAP_STATUS_OK
  | HEAP_STATUS_NULL_ARGUMENT
  | HEAP_STATUS_ALREADY_INITIALIZED
  | HEAP_STATUS_NOT_INITIALIZED
  | HEAP_STATUS_INTERRUPTS_ENABLED
  | HEAP_STATUS_PAGING_INACTIVE
  | HEAP_STATUS_GUARD_MAPPED
  | HEAP_STATUS_ZERO_SIZE
  | HEAP_STATUS_TOO_LARGE
  | HEAP_STATUS_OUT_OF_MEMORY
  | HEAP_STATUS_OUT_OF_BLOCKS
  | HEAP_STATUS_MAPPING_FAILURE
  | HEAP_STATUS_BAD_POINTER
  | HEAP_STATUS_DOUBLE_FREE
  | HEAP_STATUS_VALIDATION_FAILURE.

#[global] Instance heap_status_eq_dec : EqDecision heap_status.
Proof. solve_decision. Defined.

(** ** Data *)

Record heap_state := HeapState {
  hs_base_address : Z;
  hs_size : Z;
  committed_bytes : Z;
  allocated_bytes : Z;
  hs_block_count : Z;
  live_allocations : Z;
  mapped_pages : Z;
  active : bool
}.

(** The file's static storage: [blocks], [block_count] and [state]. *)
Record heap := Heap {
  blocks : list block;
  block_count : nat;
  state : heap_state
}.

(** The entries of the table in use. *)
Definition live (h : heap) : list block := take (block_count h) (blocks h).

(** ** The page tables the heap calls *)

(** [enum paging_status], as far as the heap tells its values apart. *)
Inductive paging_status :=
  | PAGING_STATUS_OK
  | PAGING_STATUS_NOT_MAPPED
  | PAGING_STATUS_OTHER (code : Z).

#[global] Instance paging_status_eq_dec : EqDecision paging_status.
Proof. solve_decision. Defined.

Record paging_translation := Translation {
  physical_address : Z;
  permissions : Z;
  level : Z
}.

Class page_backend (M : Type) := {
  paging_is_active : M -> bool;
  cpu_interrupts_enabled : M -> bool;
  paging_translate : M -> Z -> paging_status * paging_translation;
  paging_map : Z -> Z -> Z -> Z -> M -> paging_status * M;
  paging_unmap : Z -> Z -> M -> paging_status * M;
  backend_frame_allocate : M -> frame_status * Z * M;
  backend_frame_release : Z -> M -> frame_status * M
}.

(** ** Block table *)

Definition align_up (value alignment : Z) : Z :=
  u64 (value + alignment - 1) .& not64 (alignment - 1).

Definition find_fit (table : list block) (count : nat) (sz : Z) : option nat :=
  first_index (fun b => negb (used b) && (sz <=? size b)) (take count table).

Definition block_index_for_offset (table : list block) (count : nat) (off : Z) :
    option nat :=
  first_index (fun b => offset b =? off) (take count table).

Definition split_block (table : list block) (count index : nat) (sz : Z) :
    option (list block * nat) :=
  let remainder := u64 (size (table !!! index) - sz) in
  if HEAP_ALIGNMENT <=? remainder then
    if (count =? HEAP_MAX_BLOCKS)%nat then None
    else
      let table := shift_up (count - S index) count table in
      let table :=
        <[S index := Block (u64 (offset (table !!! index) + sz)) remainder false]> table in
      let table := <[index := set_size sz (table !!! index)]> table in
      Some (<[index := set_used true (table !!! index)]> table, S count)
  else Some (<[index := set_used true (table !!! index)]> table, count).

(** The loop of [validate_table]: [n] positions left from [position]. *)
Fixpoint validate_from (table : list block) (n position : nat) (expected committed : Z) :
    bool :=
  match n with
  | O => expected =? committed
  | S n =>
      let b := table !!! position in
      if negb (offset b =? expected) || (size b =? 0) ||
         negb (size b mod HEAP_ALIGNMENT =? 0) then false
      else if (0 <? position)%nat && negb (used (table !!! pred position)) &&
              negb (used b) then false
      else validate_from table n (S position) (u64 (expected + size b)) committed
  end.

Definition validate_table (table : list block) (count : nat) (committed : Z) : bool :=
  if (HEAP_MAX_BLOCKS <? count)%nat then false
  else if (count =? 0)%nat then committed =? 0
  else validate_from table count 0 0 committed.

Definition refresh_state (h : heap) : heap :=
  let st := state h in
  Heap (blocks h) (block_count h)
    (HeapState (hs_base_address st) (hs_size st) (committed_bytes st)
       (u64 (sumz size (used_blocks (live h))))
       (Z.of_nat (block_count h)) (countb used (live h)) (mapped_pages st) (active st)).

Definition set_table (table : list block) (count : nat) (h : heap) : heap :=
  Heap table count (state h).

Definition set_committed (c : Z) (mp : Z) (h : heap) : heap :=
  let st := state h in
  Heap (blocks h) (block_count h)
    (HeapState (hs_base_address st) (hs_size st) c (allocated_bytes st)
       (hs_block_count st) (live_allocations st) mp (active st)).

(** ** Operations *)

Section Operations.
Context {M : Type} `{!page_backend M}.

(** Iterations of [for (offset = from; offset < to; offset += PAGING_PAGE_SIZE)]. *)
Definition page_steps (from to : Z) : nat :=
  Z.to_nat ((to - from + (PAGING_PAGE_SIZE - 1)) / PAGING_PAGE_SIZE).

(** [release_pages] with [n] pages left from [off]; threads
    [state.mapped_pages]. *)
Fixpoint release_run (n : nat) (off mp : Z) (m : M) : Z * M :=
  match n with
  | O => (mp, m)
  | S n =>
      let address := HEAP_BASE + off in
      let next := off + PAGING_PAGE_SIZE in
      match paging_translate m address with
      | (PAGING_STATUS_OK, translation) =>
          match paging_unmap address PAGING_PAGE_SIZE m with
          | (PAGING_STATUS_OK, m) =>
              let m := (backend_frame_release (physical_address translation) m).2 in
              release_run n next (u64 (mp - 1)) m
          | (_, m) => release_run n next mp m
          end
      | _ => release_run n next mp m
      end
  end.

Definition release_pages (from to mp : Z) (m : M) : Z * M :=
  release_run (page_steps from to) from mp m.

Fixpoint commit_run (n : nat) (from off mp : Z) (m : M) : heap_status * Z * M :=
  match n with
  | O => (HEAP_STATUS_OK, mp, m)
  | S n =>
      match backend_frame_allocate m with
      | (FRAME_STATUS_OK, frame, m) =>
          match paging_map (HEAP_BASE + off) frame PAGING_PAGE_SIZE PAGING_WRITE m with
          | (PAGING_STATUS_OK, m) =>
              commit_run n from (off + PAGING_PAGE_SIZE) (u64 (mp + 1)) m
          | (_, m) =>
              let m := (backend_frame_release frame m).2 in
              let '(mp, m) := release_pages from off mp m in
              (HEAP_STATUS_MAPPING_FAILURE, mp, m)
          end
      | (_, _, m) =>
          let '(mp, m) := release_pages from off mp m in
          (HEAP_STATUS_OUT_OF_MEMORY, mp, m)
      end
  end.

Definition commit_pages (from to mp : Z) (m : M) : heap_status * Z * M :=
  commit_run (page_steps from to) from from mp m.

(** [Some index] with [HEAP_STATUS_OK], nothing stored otherwise. *)
Definition grow_for (sz : Z) (h : heap) (m : M) : heap_status * option nat * heap * M :=
  let last := blocks h !!! pred (block_count h) in
  let extend_last := (0 <? block_count h)%nat && negb (used last) in
  let trailing := if extend_last then size last else 0 in
  let growth := align_up (u64 (sz - trailing)) PAGING_PAGE_SIZE in
  let committed := committed_bytes (state h) in
  if u64 (HEAP_SIZE - committed) <? growth then (HEAP_STATUS_OUT_OF_MEMORY, None, h, m)
  else if negb extend_last && (block_count h =? HEAP_MAX_BLOCKS)%nat then
    (HEAP_STATUS_OUT_OF_BLOCKS, None, h, m)
  else
    match commit_pages committed (committed + growth) (mapped_pages (state h)) m with
    | (HEAP_STATUS_OK, mp, m) =>
        let '(table, count) :=
          if extend_last then
            (<[pred (block_count h) := set_size (u64 (size last + growth)) last]> (blocks h),
             block_count h)
          else
            (<[block_count h := Block committed growth false]> (blocks h),
             S (block_count h)) in
        (HEAP_STATUS_OK, Some (pred count),
         set_committed (u64 (committed + growth)) mp (set_table table count h), m)
    | (status, mp, m) => (status, None, set_committed committed mp h, m)
    end.

Definition guards_absent (m : M) : bool :=
  bool_decide ((paging_translate m HEAP_GUARD_BELOW).1 = PAGING_STATUS_NOT_MAPPED) &&
  bool_decide ((paging_translate m HEAP_GUARD_ABOVE).1 = PAGING_STATUS_NOT_MAPPED).

Definition heap_initialize (h : heap) (m : M) : heap_status * heap :=
  if active (state h) then (HEAP_STATUS_ALREADY_INITIALIZED, h)
  else if negb (paging_is_active m) then (HEAP_STATUS_PAGING_INACTIVE, h)
  else if cpu_interrupts_enabled m then (HEAP_STATUS_INTERRUPTS_ENABLED, h)
  else if negb (guards_absent m) then (HEAP_STATUS_GUARD_MAPPED, h)
  else
    let st := state h in
    (HEAP_STATUS_OK,
     refresh_state
       (Heap (blocks h) 0
          (HeapState HEAP_BASE HEAP_SIZE 0 (allocated_bytes st) (hs_block_count st)
             (live_allocations st) 0 true))).

(** The result's second component is what [pointer] points to afterwards: the
    outer [None] is a null [pointer], the inner one a stored [NULL]. *)
Definition heap_allocate (sz : Z) (pointer : option (option Z)) (h : heap) (m : M) :
    heap_status * option (option Z) * heap * M :=
  match pointer with
  | None => (HEAP_STATUS_NULL_ARGUMENT, None, h, m)
  | Some _ =>
      let refuse status h m := (status, Some None, h, m) in
      if negb (active (state h)) then refuse HEAP_STATUS_NOT_INITIALIZED h m
      else if sz =? 0 then refuse HEAP_STATUS_ZERO_SIZE h m
      else if HEAP_SIZE <? sz then refuse HEAP_STATUS_TOO_LARGE h m
      else
        let requested := align_up sz HEAP_ALIGNMENT in
        if HEAP_SIZE <? requested then refuse HEAP_STATUS_TOO_LARGE h m
        else
          let '(status, found, h, m) :=
            match find_fit (blocks h) (block_count h) requested with
            | Some index => (HEAP_STATUS_OK, Some index, h, m)
            | None => grow_for requested h m
            end in
          match status, found with
          | HEAP_STATUS_OK, Some index =>
              match split_block (blocks h) (block_count h) index requested with
              | None => refuse HEAP_STATUS_OUT_OF_BLOCKS h m
              | Some (table, count) =>
                  let h := refresh_state (set_table table count h) in
                  (HEAP_STATUS_OK,
                   Some (Some (u64 (HEAP_BASE + offset (blocks h !!! index)))), h, m)
              end
          | _, _ => refuse status h m
          end
  end.

Definition heap_free (pointer : option Z) (h : heap) : heap_status * heap :=
  if negb (active (state h)) then (HEAP_STATUS_NOT_INITIALIZED, h)
  else
    match pointer with
    | None => (HEAP_STATUS_NULL_ARGUMENT, h)
    | Some address =>
        if (address <? HEAP_BASE) ||
           (HEAP_BASE + committed_bytes (state h) <=? address) then
          (HEAP_STATUS_BAD_POINTER, h)
        else
          match block_index_for_offset (blocks h) (block_count h) (address - HEAP_BASE) with
          | None => (HEAP_STATUS_BAD_POINTER, h)
          | Some index =>
              let b := blocks h !!! index in
              if negb (used b) then (HEAP_STATUS_DOUBLE_FREE, h)
              else
                let '(table, count) :=
                  merge_free_neighbours (<[index := set_used false b]> (blocks h))
                    (block_count h) index in
                (HEAP_STATUS_OK, refresh_state (set_table table count h))
          end
    end.

(** The page walk of [heap_verify]: [n] pages left from [off]. *)
Fixpoint pages_valid (m : M) (n : nat) (off : Z) : bool :=
  match n with
  | O => true
  | S n =>
      match paging_translate m (HEAP_BASE + off) with
      | (PAGING_STATUS_OK, t) =>
          if negb (permissions t =? PAGING_WRITE) || negb (level t =? 1) then false
          else pages_valid m n (off + PAGING_PAGE_SIZE)
      | _ => false
      end
  end.

Definition heap_verify (h : heap) (m : M) : heap_status :=
  let st := state h in
  if negb (active st) then HEAP_STATUS_NOT_INITIALIZED
  else if (HEAP_SIZE <? committed_bytes st) ||
          negb (committed_bytes st mod PAGING_PAGE_SIZE =? 0) ||
          negb (mapped_pages st =? committed_bytes st / PAGING_PAGE_SIZE) then
    HEAP_STATUS_VALIDATION_FAILURE
  else if negb (validate_table (blocks h) (block_count h) (committed_bytes st)) then
    HEAP_STATUS_VALIDATION_FAILURE
  else if negb (guards_absent m) then HEAP_STATUS_GUARD_MAPPED
  else if negb (pages_valid m (page_steps 0 (committed_bytes st)) 0) then
    HEAP_STATUS_VALIDATION_FAILURE
  else if negb (u64 (sumz size (used_blocks (live h))) =?
                allocated_bytes st) ||
          negb (countb used (live h) =? live_allocations st) ||
          negb (Z.of_nat (block_count h) =? hs_block_count st) then
    HEAP_STATUS_VALIDATION_FAILURE
  else HEAP_STATUS_OK.
End Operations.

(** *** The validator decides the layout *)

Lemma validate_from_layout table n position expected committed :
  (position + n <= length table)%nat -> 0 <= expected ->
  Forall (fun b => 0 <= size b) (take n (drop position table)) ->
  expected + sumz size (take n (drop position table)) < 2 ^ 64 ->
  validate_from table n position expected committed = true <->
  layout HEAP_ALIGNMENT expected
    (if (position =? 0)%nat then true else used (table !!! pred position))
    (take n (drop position table)) committed.
Proof.
  revert position expected. induction n as [|n IH]; intros position expected Hl He Hs Hw.
  { simpl. apply Z.eqb_eq. }
  rewrite take_drop_S in Hs, Hw |- * by lia. simpl in Hw.
  apply Forall_cons in Hs as [Hb Hs]. pose proof (sumz_nonneg size _ Hs).
  cbn [validate_from layout].
  set (b := table !!! position) in *.
  destruct (Z.eqb_spec (offset b) expected) as [Ho|Ho]; simpl; [|by split; [done|intros []]].
  destruct (Z.eqb_spec (size b) 0) as [Hz|Hz]; simpl; [split; [done|lia]|].
  destruct (Z.eqb_spec (size b mod HEAP_ALIGNMENT) 0) as [Ha|Ha]; simpl; [|split; [done|tauto]].
  rewrite wrap_small by (unfold fits; lia).
  specialize (IH (S position) (expected + size b) ltac:(lia) ltac:(lia) Hs ltac:(lia)).
  cbn [Nat.eqb pred] in IH. fold b in IH.
  assert (Hp : ((0 <? position)%nat && negb (used (table !!! pred position)) && negb (used b)) =
    negb ((if (position =? 0)%nat then true else used (table !!! pred position)) || used b)).
  { destruct position; simpl; [done|]. by destruct (used (table !!! position)), (used b). }
  rewrite Hp. destruct (_ || used b); simpl; [rewrite IH|]; intuition lia.
Qed.

Lemma validate_layout table count committed :
  length table = HEAP_MAX_BLOCKS ->
  Forall (fun b => 0 <= size b) (take count table) ->
  sumz size (take count table) < 2 ^ 64 ->
  validate_table table count committed = true <->
  (count <= HEAP_MAX_BLOCKS)%nat /\ layout HEAP_ALIGNMENT 0 true (take count table) committed.
Proof.
  intros Hl Hs Hw. unfold validate_table.
  destruct (Nat.ltb_spec HEAP_MAX_BLOCKS count) as [|Hc]; [split; [done|lia]|].
  destruct (Nat.eqb_spec count 0) as [->|Hn].
  { simpl. rewrite Z.eqb_eq. intuition. }
  rewrite (validate_from_layout table count 0 0 committed) by (rewrite ?drop_0; lia || done).
  rewrite drop_0. simpl. tauto.
Qed.

(** [validate_table] accepts a table exactly when its live entries tile the
    committed region in ascending order, without gap or overlap, in positive
    multiples of the granularity, with no two free neighbours. *)
Theorem validate_table_correct table count committed :
  length table = HEAP_MAX_BLOCKS ->
  Forall (fun b => 0 <= size b) (take count table) ->
  sumz size (take count table) < 2 ^ 64 ->
  validate_table table count committed = true <->
  (count <= HEAP_MAX_BLOCKS)%nat /\ layout HEAP_ALIGNMENT 0 true (take count table) committed.
Proof. apply validate_layout. Qed.

(** *** Splitting *)

Lemma align_up_spec v k :
  0 <= k <= 12 -> 0 <= v < 2 ^ 63 ->
  v <= align_up v (2 ^ k) < v + 2 ^ k /\ align_up v (2 ^ k) mod 2 ^ k = 0.
Proof.
  intros Hk Hv. unfold align_up.
  assert (1 <= 2 ^ k <= 2 ^ 12) by (split; [apply (Z.pow_le_mono_r 2 0)|apply Z.pow_le_mono_r]; lia).
  replace (v + 2 ^ k - 1) with (v + (2 ^ k - 1)) by lia.
  rewrite wrap_small by (unfold fits; lia).
  apply round_up_spec; unfold fits; lia.
Qed.

Lemma align_up_unit v :
  0 <= v < 2 ^ 63 -> v <= align_up v HEAP_ALIGNMENT < v + 16 /\
  align_up v HEAP_ALIGNMENT mod HEAP_ALIGNMENT = 0.
Proof. intros. apply (align_up_spec v 4); lia. Qed.

Lemma align_up_page v :
  0 <= v < 2 ^ 63 -> v <= align_up v PAGING_PAGE_SIZE < v + 4096 /\
  align_up v PAGING_PAGE_SIZE mod PAGING_PAGE_SIZE = 0.
Proof. intros. apply (align_up_spec v 12); lia. Qed.

Lemma split_block_spec t c l1 b l2 sz :
  represents HEAP_MAX_BLOCKS t c (l1 ++ b :: l2) ->
  0 < sz <= size b -> sz mod HEAP_ALIGNMENT = 0 -> size b mod HEAP_ALIGNMENT = 0 ->
  0 <= offset b -> offset b + size b < 2 ^ 64 ->
  match split_block t c (length l1) sz with
  | None => c = HEAP_MAX_BLOCKS /\ size b <> sz
  | Some (t', c') => represents HEAP_MAX_BLOCKS t' c' (l1 ++ carve b sz ++ l2)
  end.
Proof.
  intros Hr Hsz Ha Hb Ho Hw. unfold split_block, carve.
  rewrite (represents_mid _ _ _ _ _ Hr). rewrite wrap_small by (unfold fits; lia).
  destruct (aligned_sum _ Hb _ Ha) as [_ Hd].
  destruct (Z.leb_spec HEAP_ALIGNMENT (size b - sz)) as [Hrem|Hrem].
  - destruct (Z.eqb_spec (size b) sz) as [|Hne]; [unfold HEAP_ALIGNMENT in *; lia|].
    destruct (Nat.eqb_spec c HEAP_MAX_BLOCKS) as [->|Hc]; [done|].
    destruct (represents_open t c l1 b
      (Block (u64 (offset b + sz)) (size b - sz) false) l2 Hr) as [Hopen Hx].
    { destruct Hr as (_ & ? & _). lia. }
    rewrite Hx. rewrite (wrap_small 64 (offset b + sz)) in Hopen |- * by (unfold fits; lia).
    rewrite (represents_mid _ _ _ _ _ Hopen).
    pose proof (represents_insert _ _ _ _ (set_size sz b) _ Hopen) as H2.
    rewrite (represents_mid _ _ _ _ _ H2).
    exact (represents_insert _ _ _ _ (set_used true (set_size sz b)) _ H2).
  - assert (size b = sz) as <-.
    { pose proof (Z.div_mod (size b - sz) HEAP_ALIGNMENT). unfold HEAP_ALIGNMENT in *. lia. }
    rewrite Z.eqb_refl. exact (represents_insert _ _ _ _ (set_used true b) _ Hr).
Qed.

(** ** What the heap relies on *)

Definition page_address (va : Z) : Prop := va mod PAGING_PAGE_SIZE = 0.

(** What [paging.c] and [physical_memory.c] promise about 4 KiB pages.
    [frame_in_use] are the frames the allocator will not hand out. *)
Class page_backend_laws (M : Type) `{!page_backend M} := {
  backend_ok : M -> Prop;
  frame_in_use : M -> Z -> Prop;
  frame_allocate_law m st f m' :
    backend_ok m -> backend_frame_allocate m = (st, f, m') ->
    backend_ok m' /\ (forall va, paging_translate m' va = paging_translate m va) /\
    (forall g, frame_in_use m g -> frame_in_use m' g) /\
    (st = FRAME_STATUS_OK -> ~ frame_in_use m f /\ frame_in_use m' f);
  frame_release_law m f st m' :
    backend_ok m -> frame_in_use m f -> backend_frame_release f m = (st, m') ->
    backend_ok m' /\ (forall va, paging_translate m' va = paging_translate m va) /\
    (forall g, g <> f -> frame_in_use m g -> frame_in_use m' g);
  paging_map_law m va f perms st m' :
    backend_ok m -> page_address va -> frame_in_use m f ->
    paging_map va f PAGING_PAGE_SIZE perms m = (st, m') ->
    backend_ok m' /\
    (forall va', page_address va' -> va' <> va ->
       paging_translate m' va' = paging_translate m va') /\
    (forall g, frame_in_use m g -> frame_in_use m' g) /\
    (if decide (st = PAGING_STATUS_OK)
     then paging_translate m' va = (PAGING_STATUS_OK, Translation f perms 1)
     else paging_translate m' va = paging_translate m va);
  paging_unmap_law m va t st m' :
    backend_ok m -> page_address va ->
    paging_translate m va = (PAGING_STATUS_OK, t) -> level t = 1 ->
    paging_unmap va PAGING_PAGE_SIZE m = (st, m') ->
    st = PAGING_STATUS_OK /\ backend_ok m' /\
    (paging_translate m' va).1 = PAGING_STATUS_NOT_MAPPED /\
    (forall va', page_address va' -> va' <> va ->
       paging_translate m' va' = paging_translate m va') /\
    (forall va' t', page_address va' -> paging_translate m va' = (PAGING_STATUS_OK, t') ->
       frame_in_use m (physical_address t') -> frame_in_use m' (physical_address t'))
}.

(** The address of page [k] of the window. *)
Definition page (k : Z) : Z := HEAP_BASE + k * PAGING_PAGE_SIZE.

Lemma page_is_address k : page_address (page k).
Proof.
  unfold page_address, page. rewrite Z.mod_add by done. done.
Qed.

Lemma page_inj j k : page j = page k -> j = k.
Proof. unfold page, PAGING_PAGE_SIZE. lia. Qed.

Section Pages.
Context {M : Type} `{!page_backend M, !page_backend_laws M}.
Implicit Types (m : M) (P : Z -> Prop).

(** The pages of [P] are writable 4 KiB pages on distinct frames in use. *)
Definition backed m P : Prop :=
  (forall k, P k -> exists t, paging_translate m (page k) = (PAGING_STATUS_OK, t) /\
     permissions t = PAGING_WRITE /\ level t = 1 /\ frame_in_use m (physical_address t)) /\
  (forall j k t u, P j -> P k -> paging_translate m (page j) = (PAGING_STATUS_OK, t) ->
     paging_translate m (page k) = (PAGING_STATUS_OK, u) ->
     physical_address t = physical_address u -> j = k).

Definition unmapped m P : Prop :=
  forall k, P k -> (paging_translate m (page k)).1 = PAGING_STATUS_NOT_MAPPED.

(** Translations outside the pages of [P] are those of [m]. *)
Definition same_elsewhere m m' P : Prop :=
  forall va, page_address va -> (forall k, P k -> va <> page k) ->
    paging_translate m' va = paging_translate m va.

Lemma backed_kept m m' P Q :
  backed m P -> (forall k, Q k -> P k) ->
  (forall k, Q k -> paging_translate m' (page k) = paging_translate m (page k)) ->
  (forall k t, Q k -> paging_translate m (page k) = (PAGING_STATUS_OK, t) ->
     frame_in_use m (physical_address t) -> frame_in_use m' (physical_address t)) ->
  backed m' Q.
Proof.
  intros [Hb Hinj] HQ Hsame Huse. split.
  - intros k Hk. destruct (Hb k (HQ k Hk)) as (t & Ht & Hp & Hl & Hu).
    exists t. rewrite Hsame by done. split_and!; try done. by eapply Huse.
  - intros j k t u Hj Hk. rewrite !Hsame by done. apply Hinj; auto.
Qed.

Lemma backed_add m P k f :
  backed m P -> (forall j t, P j -> paging_translate m (page j) = (PAGING_STATUS_OK, t) ->
    physical_address t <> f) ->
  frame_in_use m f ->
  paging_translate m (page k) = (PAGING_STATUS_OK, Translation f PAGING_WRITE 1) ->
  backed m (fun j => P j \/ j = k).
Proof.
  intros [Hb Hinj] Hf Hu Ht. split.
  - intros j [Hj | ->]; [by apply Hb|]. eexists; split; [exact Ht|]. by split_and!.
  - intros i j t u [Hi | ->] [Hj | ->] Hti Htj He; [by eapply Hinj| | |done];
      exfalso.
    + rewrite Ht in Htj. injection Htj as <-. by apply (Hf i t).
    + rewrite Ht in Hti. injection Hti as <-. by apply (Hf j u).
Qed.

(** Unmapping page [k] and releasing its frame takes exactly that page away. *)
Lemma release_one m P k t m1 m2 st st' :
  backend_ok m -> backed m P -> P k -> paging_translate m (page k) = (PAGING_STATUS_OK, t) ->
  paging_unmap (page k) PAGING_PAGE_SIZE m = (st, m1) ->
  backend_frame_release (physical_address t) m1 = (st', m2) ->
  st = PAGING_STATUS_OK /\ backend_ok m2 /\
  (paging_translate m2 (page k)).1 = PAGING_STATUS_NOT_MAPPED /\
  same_elsewhere m m2 (fun j => j = k) /\ backed m2 (fun j => P j /\ j <> k).
Proof.
  intros Hok Hbk Hk Ht Hun Hrel. pose proof Hbk as [Hb Hinj].
  destruct (Hb k Hk) as (t0 & Ht0 & _ & Hl & Hu). rewrite Ht in Ht0. simplify_eq.
  destruct (paging_unmap_law m (page k) t0 st m1 Hok (page_is_address k) Ht Hl Hun)
    as (-> & Hok1 & Hnm & Hs1 & Hu1).
  destruct (frame_release_law m1 (physical_address t0) st' m2) as (Hok2 & Hs2 & Hu2);
    [done|by eapply Hu1; [apply page_is_address|..]|done|].
  assert (Hsame : same_elsewhere m m2 (fun j => j = k)).
  { intros va Hva Hne. rewrite Hs2. apply Hs1; [done|]. by apply Hne. }
  split_and!; try done; [by rewrite Hs2|].
  eapply backed_kept; [exact Hbk|tauto|..].
  - intros j [Hj Hjk]. apply Hsame; [apply page_is_address|].
    by intros i -> ?%page_inj.
  - intros j u [Hj Hjk] Hju Huse. apply Hu2.
    + intros He. apply Hjk. by eapply (Hinj j k u t0).
    + eapply Hu1; [apply page_is_address|done..].
Qed.

Lemma release_run_spec n k mp m P :
  backend_ok m -> backed m P -> (forall j, k <= j < k + Z.of_nat n -> P j) ->
  Z.of_nat n <= mp < 2 ^ 64 ->
  let '(mp', m') := release_run n (k * PAGING_PAGE_SIZE) mp m in
  backend_ok m' /\ mp' = mp - Z.of_nat n /\
  unmapped m' (fun j => k <= j < k + Z.of_nat n) /\
  same_elsewhere m m' (fun j => k <= j < k + Z.of_nat n) /\
  backed m' (fun j => P j /\ ~ k <= j < k + Z.of_nat n).
Proof.
  revert k mp m P. induction n as [|n IH]; intros k mp m P Hok Hb HP Hmp.
  { simpl. split_and!; try done; [lia|intros j Hj; lia|].
    eapply backed_kept; [exact Hb|tauto|done|done]. }
  cbn [release_run]. fold (page k).
  destruct (proj1 Hb k) as (t & Ht & _); [apply HP; lia|]. rewrite Ht.
  destruct (paging_unmap (page k) PAGING_PAGE_SIZE m) as [st m1] eqn:Hun.
  destruct (backend_frame_release (physical_address t) m1) as [st' m2] eqn:Hrel.
  destruct (release_one m P k t m1 m2 st st') as (-> & Hok2 & Hnm & Hs2 & Hb2);
    [done|done|apply HP; lia|done|done|done|].
  cbn [snd]. rewrite wrap_small by (unfold fits; lia).
  replace (k * PAGING_PAGE_SIZE + PAGING_PAGE_SIZE) with ((k + 1) * PAGING_PAGE_SIZE) by lia.
  specialize (IH (k + 1) (mp - 1) m2 _ Hok2 Hb2).
  destruct (release_run n _ _ m2) as [mp' m'].
  destruct IH as (Hok' & -> & Hun' & Hs' & Hb'); [|lia|].
  { intros j Hj. split; [apply HP; lia|lia]. }
  split_and!; [done|lia| | |].
  - intros j Hj. destruct (decide (j = k)) as [->|]; [|apply Hun'; lia].
    rewrite Hs'; [done|apply page_is_address|]. intros i Hi ->%page_inj. lia.
  - intros va Hva Hne. rewrite Hs', Hs2; [done|done| |done|].
    + intros i ->. apply Hne. lia.
    + intros i Hi. apply Hne. lia.
  - eapply backed_kept; [exact Hb'| |done|done]. simpl. intros j ?. split; [split|]; try tauto; lia.
Qed.

Lemma page_steps_pages j k :
  j <= k -> page_steps (j * PAGING_PAGE_SIZE) (k * PAGING_PAGE_SIZE) = Z.to_nat (k - j).
Proof.
  intros H. unfold page_steps. f_equal. unfold PAGING_PAGE_SIZE.
  replace (k * 4096 - j * 4096 + (4096 - 1)) with (4095 + (k - j) * 4096) by lia.
  by rewrite Z.div_add.
Qed.

(** What a [commit_run] that stands at page [k], started at [k0], with [n]
    pages to go may return. *)
Definition commit_result (m : M) (k0 k : Z) (n : nat) (mp : Z) (r : heap_status * Z * M) : Prop :=
  let '(st, mp', m') := r in
  backend_ok m' /\ same_elsewhere m m' (fun j => k0 <= j < k + Z.of_nat n) /\
  match st with
  | HEAP_STATUS_OK => mp' = mp + Z.of_nat n /\ backed m' (fun j => 0 <= j < k + Z.of_nat n)
  | HEAP_STATUS_OUT_OF_MEMORY | HEAP_STATUS_MAPPING_FAILURE =>
      mp' = mp - (k - k0) /\ backed m' (fun j => 0 <= j < k0) /\
      unmapped m' (fun j => k0 <= j < k + Z.of_nat n)
  | _ => False
  end.

(** The unwinding after a failure at page [k]. *)
Lemma commit_unwind n k0 k mp m m1 code :
  0 <= k0 <= k -> k - k0 <= mp < 2 ^ 64 ->
  unmapped m (fun j => k <= j < k + Z.of_nat n) ->
  code = HEAP_STATUS_OUT_OF_MEMORY \/ code = HEAP_STATUS_MAPPING_FAILURE ->
  backend_ok m1 -> backed m1 (fun j => 0 <= j < k) ->
  (forall va, page_address va -> paging_translate m1 va = paging_translate m va) ->
  commit_result m k0 k n mp (let '(mp', m') :=
    release_pages (k0 * PAGING_PAGE_SIZE) (k * PAGING_PAGE_SIZE) mp m1 in (code, mp', m')).
Proof.
  intros Hk Hmp Hun Hcode Hok1 Hb1 Hs1. unfold release_pages.
  rewrite page_steps_pages by lia.
  pose proof (release_run_spec (Z.to_nat (k - k0)) k0 mp m1 _ Hok1 Hb1) as Hr.
  rewrite Z2Nat.id in Hr by lia. replace (k0 + (k - k0)) with k in Hr by lia.
  destruct (release_run _ _ _ m1) as [mp' m'].
  destruct Hr as (Hok' & -> & Hun' & Hs' & Hb'); [lia|lia|].
  assert (Hb0 : backed m' (fun j => 0 <= j < k0)).
  { eapply backed_kept; [exact Hb'| |done|done]. simpl. lia. }
  assert (Hun0 : unmapped m' (fun j => k0 <= j < k + Z.of_nat n)).
  { intros j Hj. destruct (decide (j < k)); [apply Hun'; lia|].
    rewrite Hs', Hs1; [apply Hun; lia|apply page_is_address..|].
    intros i Hi ->%page_inj. lia. }
  unfold commit_result. split; [done|]. split.
  - intros va Hva Hne. rewrite Hs', Hs1; [done|done|done|]. intros i Hi. apply Hne. lia.
  - by destruct Hcode as [-> | ->].
Qed.

(** Growing page by page: all of [k, k + n) or, after the unwinding, nothing
    above [k0]. *)
Lemma commit_run_spec n k0 k mp m :
  0 <= k0 <= k -> backend_ok m -> backed m (fun j => 0 <= j < k) ->
  unmapped m (fun j => k <= j < k + Z.of_nat n) ->
  k - k0 <= mp -> mp + Z.of_nat n < 2 ^ 64 ->
  commit_result m k0 k n mp
    (commit_run n (k0 * PAGING_PAGE_SIZE) (k * PAGING_PAGE_SIZE) mp m).
Proof.
  revert k mp m. induction n as [|n IH]; intros k mp m Hk Hok Hb Hun Hlo Hhi.
  { cbn. rewrite !Z.add_0_r. by split_and!. }
  cbn [commit_run].
  assert (Hfail := fun m1 code => commit_unwind (S n) k0 k mp m m1 code Hk ltac:(lia) Hun).
  destruct (backend_frame_allocate m) as [[fs f] m1] eqn:Hal.
  destruct (frame_allocate_law m fs f m1 Hok Hal) as (Hok1 & Hs1 & Hu1 & Hf1).
  assert (Hb1 : backed m1 (fun j => 0 <= j < k)).
  { eapply backed_kept; [exact Hb|done|by intros; apply Hs1|]. intros j t _ _. apply Hu1. }
  destruct (decide (fs = FRAME_STATUS_OK)) as [->|Hfs].
  2: { assert (Hgoal := Hfail m1 HEAP_STATUS_OUT_OF_MEMORY (or_introl eq_refl) Hok1 Hb1
         ltac:(by intros; apply Hs1)).
       by destruct fs. }
  destruct (Hf1 eq_refl) as [Hnew Huse]. fold (page k).
  destruct (paging_map (page k) f PAGING_PAGE_SIZE PAGING_WRITE m1) as [ps m2] eqn:Hmap.
  destruct (paging_map_law m1 (page k) f PAGING_WRITE ps m2) as (Hok2 & Hs2 & Hu2 & Ht2);
    [done|apply page_is_address|done|done|].
  assert (Hfresh : forall j t, 0 <= j < k ->
    paging_translate m1 (page j) = (PAGING_STATUS_OK, t) -> physical_address t <> f).
  { intros j t Hj Ht <-. destruct (proj1 Hb j Hj) as (t' & Ht' & _ & _ & Hin).
    rewrite Hs1, Ht' in Ht. injection Ht as ->. by apply Hnew. }
  assert (Hb2 : backed m2 (fun j => 0 <= j < k)).
  { eapply backed_kept; [exact Hb1|done| |].
    - intros j Hj. apply Hs2; [apply page_is_address|]. intros ->%page_inj. lia.
    - intros j t _ _. apply Hu2. }
  case_decide as Hps.
  - subst ps. rewrite wrap_small by (unfold fits; lia).
    replace (k * PAGING_PAGE_SIZE + PAGING_PAGE_SIZE) with ((k + 1) * PAGING_PAGE_SIZE) by lia.
    assert (Hsame : same_elsewhere m m2 (fun j => j = k)).
    { intros va Hva Hne. rewrite Hs2, Hs1; [done|done|by apply Hne]. }
    specialize (IH (k + 1) (mp + 1) m2 ltac:(lia) Hok2).
    destruct (commit_run n _ _ _ m2) as [[st mp'] m']. unfold commit_result in IH |- *.
    destruct IH as (Hok' & Hs' & Hst); [ | |lia|lia|].
    + eapply backed_kept; [apply (backed_add m2 _ k f Hb2); try done|..]; try done.
      * intros j t Hj Ht. apply (Hfresh j t Hj). rewrite <- Ht. symmetry.
        apply Hs2; [apply page_is_address|]. intros ->%page_inj. lia.
      * by apply Hu2.
      * simpl. intros j Hj. destruct (decide (j = k)); [by right|left; lia].
    + intros j Hj. rewrite Hsame; [apply Hun; lia|apply page_is_address|].
      intros i -> ->%page_inj. lia.
    + replace (k + Z.of_nat (S n)) with (k + 1 + Z.of_nat n) by lia. split; [done|]. split.
      * intros va Hva Hne. rewrite Hs', Hsame; [done|done| |done|done].
        intros i ->. apply Hne. lia.
      * destruct st; try done; destruct Hst as (-> & Hst); (split; [lia|done]).
  - destruct (backend_frame_release f m2) as [rs m3] eqn:Hrel.
    destruct (frame_release_law m2 f rs m3 Hok2 (Hu2 f Huse) Hrel) as (Hok3 & Hs3 & Hu3).
    assert (Hs3m : forall va, page_address va -> paging_translate m3 va = paging_translate m va).
    { intros va Hva. rewrite Hs3, <- Hs1. destruct (decide (va = page k)) as [->|]; [done|].
      by apply Hs2. }
    assert (Hb3 : backed m3 (fun j => 0 <= j < k)).
    { eapply backed_kept; [exact Hb2|done|by intros; apply Hs3|].
      intros j t Hj Ht. apply Hu3. apply (Hfresh j t Hj).
      rewrite <- Ht. symmetry. apply Hs2; [apply page_is_address|].
      intros ->%page_inj. lia. }
    assert (Hgoal := Hfail m3 HEAP_STATUS_MAPPING_FAILURE (or_intror eq_refl) Hok3 Hb3 Hs3m).
    by destruct ps; rewrite ?Hrel.
Qed.
End Pages.

(** ** The invariant *)

Section Invariant.
Context {M : Type} `{!page_backend M, !page_backend_laws M}.
Implicit Types (h : heap) (m : M).

(** The blocks tile the committed bytes, which are the first
    [mapped_pages] pages of the window; everything above, and both guards, is
    unmapped. *)
Record heap_core h m : Prop := HeapCore {
  hc_active : active (state h) = true;
  hc_represents : represents HEAP_MAX_BLOCKS (blocks h) (block_count h) (live h);
  hc_layout : layout HEAP_ALIGNMENT 0 true (live h) (committed_bytes (state h));
  hc_bound : committed_bytes (state h) <= HEAP_SIZE;
  hc_pages : committed_bytes (state h) = mapped_pages (state h) * PAGING_PAGE_SIZE;
  hc_backend : backend_ok m;
  hc_backed : backed m (fun k => 0 <= k < mapped_pages (state h));
  hc_unmapped : unmapped m (fun k => k = -1 \/ mapped_pages (state h) <= k <= 4096)
}.

(** The reported counters are those of the table. *)
Definition synced h : Prop :=
  allocated_bytes (state h) = sumz size (used_blocks (live h)) /\
  live_allocations (state h) = countb used (live h) /\
  hs_block_count (state h) = Z.of_nat (block_count h).

Definition heap_wf h m : Prop := heap_core h m /\ synced h.

Lemma core_committed h m : heap_core h m -> 0 <= committed_bytes (state h) <= HEAP_SIZE.
Proof. intros H. split; [by eapply layout_grows, hc_layout|by eapply hc_bound]. Qed.

Lemma core_count h m : heap_core h m -> 0 <= mapped_pages (state h) <= 4096.
Proof.
  intros H. pose proof (core_committed h m H). rewrite (hc_pages h m H) in *.
  unfold HEAP_SIZE, PAGING_PAGE_SIZE in *. lia.
Qed.

Lemma used_sum l : Forall (fun b => 0 < size b) l ->
  0 <= sumz size (used_blocks l) <= sumz size l.
Proof.
  induction 1 as [|b l Hb _ IH]; [done|]. rewrite used_blocks_cons.
  destruct (used b); simpl; lia.
Qed.

Lemma represents_live t c l st :
  represents HEAP_MAX_BLOCKS t c l -> live (Heap t c st) = l.
Proof. by intros (_ & _ & H). Qed.

(** A new table over the same region keeps the core. *)
Lemma core_table h m t c l :
  heap_core h m -> represents HEAP_MAX_BLOCKS t c l -> layout HEAP_ALIGNMENT 0 true l (committed_bytes (state h)) ->
  heap_wf (refresh_state (set_table t c h)) m /\ live (refresh_state (set_table t c h)) = l.
Proof.
  intros H Hr Hl. assert (Hlive : live (refresh_state (set_table t c h)) = l).
  { by eapply represents_live. }
  split; [|done]. split.
  - destruct H. constructor; simpl; try done; by rewrite Hlive.
  - unfold synced. rewrite Hlive. simpl. change (live (set_table t c h)) with (take c t).
    rewrite (proj2 (proj2 Hr)).
    split; [|done]. apply wrap_small. pose proof (core_committed h m H).
    pose proof (used_sum l (layout_sizes _ _ _ _ Hl)). pose proof (layout_end _ _ _ _ Hl).
    unfold fits, HEAP_SIZE in *. lia.
Qed.

Lemma set_committed_same h :
  set_committed (committed_bytes (state h)) (mapped_pages (state h)) h = h.
Proof. by destruct h as [? ? []]. Qed.

(** Moving the end of the committed region up by [g] freshly mapped pages. *)
Lemma core_grow h m m' t c l g :
  heap_core h m -> 0 <= g -> committed_bytes (state h) + g * PAGING_PAGE_SIZE <= HEAP_SIZE ->
  represents HEAP_MAX_BLOCKS t c l ->
  layout HEAP_ALIGNMENT 0 true l (committed_bytes (state h) + g * PAGING_PAGE_SIZE) ->
  backend_ok m' ->
  same_elsewhere m m' (fun j => mapped_pages (state h) <= j < mapped_pages (state h) + g) ->
  backed m' (fun j => 0 <= j < mapped_pages (state h) + g) ->
  heap_core (set_committed (committed_bytes (state h) + g * PAGING_PAGE_SIZE)
    (mapped_pages (state h) + g) (set_table t c h)) m'.
Proof.
  intros H Hg Hb Hr Hl Hok Hs Hbk. pose proof (core_count h m H).
  pose proof (hc_pages h m H) as Hp.
  assert (Hlive : forall c' mp, live (set_committed c' mp (set_table t c h)) = l).
  { intros. by eapply represents_live. }
  constructor; rewrite ?Hlive; simpl; try done; [by eapply hc_active|..].
  - lia.
  - intros k Hk. rewrite Hs; [|apply page_is_address|].
    + apply (hc_unmapped h m H). lia.
    + intros j Hj ->%page_inj. lia.
Qed.

(** What growth for a request of [sz] bytes returns. *)
Definition grow_result (sz : Z) h (r : heap_status * option nat * heap * M) : Prop :=
  let '(st, found, h', m') := r in
  match st with
  | HEAP_STATUS_OK => exists l b,
      found = Some (length l) /\ live h' = l ++ [b] /\ used b = false /\ sz <= size b /\
      heap_core h' m' /\ used_blocks (live h') = used_blocks (live h) /\
      committed_bytes (state h) < committed_bytes (state h')
  | HEAP_STATUS_OUT_OF_MEMORY | HEAP_STATUS_OUT_OF_BLOCKS | HEAP_STATUS_MAPPING_FAILURE =>
      h' = h /\ heap_core h m'
  | _ => False
  end.

Lemma commit_pages_core h m g :
  heap_core h m -> 0 <= g -> committed_bytes (state h) + g * PAGING_PAGE_SIZE <= HEAP_SIZE ->
  commit_result m (mapped_pages (state h)) (mapped_pages (state h)) (Z.to_nat g)
    (mapped_pages (state h))
    (commit_pages (committed_bytes (state h))
       (committed_bytes (state h) + g * PAGING_PAGE_SIZE) (mapped_pages (state h)) m).
Proof.
  intros H Hg Hb. pose proof (core_count h m H). rewrite (hc_pages h m H) in *.
  set (k := mapped_pages (state h)) in *. unfold commit_pages.
  replace (k * PAGING_PAGE_SIZE + g * PAGING_PAGE_SIZE) with ((k + g) * PAGING_PAGE_SIZE) by lia.
  rewrite page_steps_pages by lia. replace (k + g - k) with g by lia.
  assert (k + g <= 4096) by (unfold PAGING_PAGE_SIZE, HEAP_SIZE in *; lia).
  apply commit_run_spec; [lia|by eapply hc_backend|by eapply hc_backed| |lia|lia].
  intros j Hj. apply (hc_unmapped h m H). fold k. lia.
Qed.

(** The block at the end of the table after growth by [g] pages. *)
Definition grown_table h (extend_last : bool) (growth : Z) : list block * nat :=
  let last := blocks h !!! pred (block_count h) in
  if extend_last then
    (<[pred (block_count h) := set_size (u64 (size last + growth)) last]> (blocks h),
     block_count h)
  else
    (<[block_count h := Block (committed_bytes (state h)) growth false]> (blocks h),
     S (block_count h)).

Definition extend_last h : bool :=
  (0 <? block_count h)%nat && negb (used (blocks h !!! pred (block_count h))).

Definition trailing h : Z :=
  if extend_last h then size (blocks h !!! pred (block_count h)) else 0.

Lemma extend_last_spec h m :
  heap_core h m ->
  if extend_last h
  then exists l b, live h = l ++ [b] /\ used b = false /\ pred (block_count h) = length l /\
    blocks h !!! pred (block_count h) = b
  else last_used true (live h) = true.
Proof.
  intros H. pose proof (hc_represents h m H) as Hr. unfold extend_last.
  pose proof (represents_length _ _ _ Hr) as Hlen. unfold last_used.
  destruct (last (live h)) as [b|] eqn:El.
  - pose proof El as [l Hl]%last_Some. rewrite Hl in Hr, Hlen.
    rewrite length_app in Hlen. simpl in Hlen.
    assert (pred (block_count h) = length l) as Hp by lia.
    rewrite Hp, (represents_mid _ _ _ _ _ Hr).
    destruct (Nat.ltb_spec 0 (block_count h)); [|lia]. simpl.
    destruct (used b) eqn:Hu; [done|]. simpl. by exists l, b.
  - apply last_None in El. rewrite El in Hlen. simpl in Hlen. by rewrite <- Hlen.
Qed.

Lemma grown_table_spec h m g :
  heap_core h m -> 0 < g -> committed_bytes (state h) + g * PAGING_PAGE_SIZE <= HEAP_SIZE ->
  (extend_last h = false -> block_count h <> HEAP_MAX_BLOCKS) ->
  let growth := g * PAGING_PAGE_SIZE in
  let '(t, c) := grown_table h (extend_last h) growth in
  exists l b, represents HEAP_MAX_BLOCKS t c (l ++ [b]) /\ pred c = length l /\ used b = false /\
    size b = trailing h + growth /\
    layout HEAP_ALIGNMENT 0 true (l ++ [b]) (committed_bytes (state h) + growth) /\
    used_blocks (l ++ [b]) = used_blocks (live h).
Proof.
  intros H Hg Hb Hfull growth. pose proof (extend_last_spec h m H) as He.
  pose proof (hc_represents h m H) as Hr. pose proof (hc_layout h m H) as Hl.
  pose proof (core_committed h m H) as Hc.
  assert (Hga : growth mod HEAP_ALIGNMENT = 0).
  { unfold growth, PAGING_PAGE_SIZE, HEAP_ALIGNMENT.
    replace (g * 4096) with (g * 256 * 16) by lia. by apply Z.mod_mul. }
  assert (Hgp : 0 < growth) by (unfold growth, PAGING_PAGE_SIZE; lia).
  fold growth in Hb. unfold grown_table, trailing. clearbody growth. destruct (extend_last h).
  - destruct He as (l & b & Hlive & Hu & Hp & ->). rewrite Hp, Hlive in *.
    pose proof (layout_block _ _ _ _ _ _ Hl) as (Hbo & Hbs & Hb0 & Hbe).
    rewrite wrap_small by (unfold fits, HEAP_SIZE in *; lia).
    exists l, (set_size (size b + growth) b).
    split; [by eapply represents_insert|]. split; [done|]. split; [done|]. split; [done|].
    rewrite !used_blocks_app, !used_blocks_cons. simpl. rewrite Hu. split; [|done].
    apply layout_app in Hl as (H1 & Ho & Hs & Ha & Hpv & Hl2). rewrite layout_app.
    split; [done|]. simpl. rewrite Hu in *. destruct (aligned_sum _ Ha _ Hga) as [? _].
    simpl in Hl2. split_and!; try done; lia.
  - exists (live h), (Block (committed_bytes (state h)) growth false).
    assert (block_count h < HEAP_MAX_BLOCKS)%nat.
    { destruct Hr as (_ & ? & _). specialize (Hfull eq_refl). lia. }
    split; [by apply represents_extend|].
    split; [by rewrite (represents_length _ _ _ Hr)|]. split; [done|]. split; [done|].
    rewrite used_blocks_app, used_blocks_cons. simpl. rewrite app_nil_r. split; [|done].
    rewrite layout_app. pose proof (layout_end _ _ _ _ Hl) as Hend. rewrite <- Hend.
    split; [done|]. simpl. rewrite He. by split_and!.
Qed.

Lemma find_fit_None t c l sz :
  represents HEAP_MAX_BLOCKS t c l -> find_fit t c sz = None -> forall b, b ∈ l -> used b = true \/ size b < sz.
Proof.
  intros (_ & _ & Ht) Hf b [i Hi]%list_elem_of_lookup. unfold find_fit in Hf. rewrite Ht in Hf.
  rewrite first_index_None in Hf. specialize (Hf i b Hi). simpl in Hf.
  destruct (used b); [by left|]. right. apply andb_false_iff in Hf as [|Hf]; [done|].
  by apply Z.leb_gt in Hf.
Qed.

Lemma find_fit_Some t c l sz i :
  represents HEAP_MAX_BLOCKS t c l -> find_fit t c sz = Some i ->
  exists l1 b l2, l = l1 ++ b :: l2 /\ i = length l1 /\ used b = false /\ sz <= size b /\
    forall x, x ∈ l1 -> used x = true \/ size x < sz.
Proof.
  intros (_ & _ & Ht) Hf. unfold find_fit in Hf. rewrite Ht in Hf.
  apply first_index_Some in Hf as [(b & Hb & Hp) Hlt].
  apply andb_true_iff in Hp as [Hu%negb_true_iff Hs%Z.leb_le].
  pose proof (lookup_lt_Some _ _ _ Hb).
  exists (take i l), b, (drop (S i) l). rewrite take_drop_middle by done.
  split_and!; try done; [rewrite length_take; lia|].
  intros x [j Hj]%list_elem_of_lookup. apply lookup_take_Some in Hj as [Hj Hji].
  specialize (Hlt j x Hji Hj). simpl in Hlt. destruct (used x); [by left|]. right.
  apply andb_false_iff in Hlt as [|Hlt]; [done|]. by apply Z.leb_gt in Hlt.
Qed.

Lemma trailing_short h m sz :
  heap_core h m -> 0 < sz -> find_fit (blocks h) (block_count h) sz = None ->
  0 <= trailing h < sz.
Proof.
  intros H Hsz Hf. pose proof (extend_last_spec h m H) as He. unfold trailing.
  destruct (extend_last h); [|lia]. destruct He as (l & b & Hl & Hu & _ & ->).
  pose proof (hc_layout h m H) as Hlay. rewrite Hl in Hlay.
  apply layout_block in Hlay as (_ & ? & _).
  destruct (find_fit_None _ _ _ _ (hc_represents h m H) Hf b) as [|]; [|congruence|lia].
  rewrite Hl. apply elem_of_app. right. by apply list_elem_of_singleton.
Qed.

Lemma grow_for_spec sz h m :
  heap_core h m -> 0 < sz <= HEAP_SIZE ->
  find_fit (blocks h) (block_count h) sz = None -> grow_result sz h (grow_for sz h m).
Proof.
  intros H Hsz Hf. pose proof (trailing_short h m sz H ltac:(lia) Hf) as Htr.
  pose proof (core_committed h m H) as Hc.
  assert (Hsz' : sz < 2 ^ 62) by (unfold HEAP_SIZE in *; lia).
  destruct (align_up_page (sz - trailing h)) as [Hg1 Hg2]; [lia|].
  unfold grow_for. cbv zeta. fold (extend_last h). fold (trailing h).
  rewrite !wrap_small by (unfold fits, HEAP_SIZE in *; lia).
  apply Z.mod_divide in Hg2 as [g Hg]; [|done]. rewrite Hg in *.
  destruct (Z.ltb_spec (HEAP_SIZE - committed_bytes (state h)) (g * PAGING_PAGE_SIZE))
    as [|Hroom]; [done|].
  destruct (negb (extend_last h) && (block_count h =? HEAP_MAX_BLOCKS)%nat) eqn:Hfull; [done|].
  assert (Hg0 : 0 < g) by (unfold PAGING_PAGE_SIZE in *; lia).
  pose proof (commit_pages_core h m g H ltac:(lia) ltac:(lia)) as Hcommit.
  destruct (commit_pages _ _ _ m) as [[st mp] m'].
  destruct Hcommit as (Hok & Hs & Hst). rewrite !Z2Nat.id in * by lia.
  destruct st; try done.
  2-3: destruct Hst as (-> & Hb & Hun); rewrite Z.sub_diag, Z.sub_0_r, set_committed_same;
    (split; [done|]); pose proof H as [H1 H2 H3 H4 H5 H6 H7 H8]; constructor; try done;
    intros k Hk; destruct (decide (mapped_pages (state h) <= k < mapped_pages (state h) + g));
    [by apply Hun|]; rewrite Hs; [by apply H8|apply page_is_address|by intros j Hj ->%page_inj].
  destruct Hst as (-> & Hb).
  pose proof (grown_table_spec h m g H Hg0 ltac:(lia)) as Htab. cbv zeta in Htab.
  fold (grown_table h (extend_last h) (g * PAGING_PAGE_SIZE)).
  destruct (grown_table h (extend_last h) (g * PAGING_PAGE_SIZE)) as [t c].
  destruct Htab as (l & b & Hr & Hp & Hu & Hbs & Hl & Hub).
  { intros He. rewrite He in Hfull. simpl in Hfull. by apply Nat.eqb_neq. }
  rewrite wrap_small by (unfold fits, HEAP_SIZE in *; lia).
  exists l, b. rewrite Hp. split; [done|].
  change (live (set_committed _ _ _)) with (take c t). rewrite (proj2 (proj2 Hr)).
  split_and!; try done; [lia|eapply core_grow; try done; lia|].
  simpl. unfold PAGING_PAGE_SIZE. lia.
Qed.

(** Two blocks share no byte. *)
Definition disjoint_blocks (x b : block) : Prop :=
  offset x + size x <= offset b \/ offset b + size b <= offset x.

Lemma layout_disjoint off prev l1 b l2 e x :
  layout HEAP_ALIGNMENT off prev (l1 ++ b :: l2) e -> x ∈ l1 ++ l2 -> disjoint_blocks x b.
Proof.
  intros (H1 & Ho & Hs & _ & _ & H2)%layout_app Hx. unfold disjoint_blocks.
  apply elem_of_app in Hx as [(k1 & k2 & ->)%list_elem_of_split | (k1 & k2 & ->)%list_elem_of_split].
  - apply layout_block in H1. lia.
  - apply layout_block in H2. lia.
Qed.

Lemma layout_sum_aligned off prev l e :
  layout HEAP_ALIGNMENT off prev l e -> sumz size l mod HEAP_ALIGNMENT = 0.
Proof.
  revert off prev. induction l as [|y l IH]; intros off prev; simpl; [done|].
  intros (_ & _ & Ha & _ & Hl). by apply aligned_sum; [|eapply IH].
Qed.

Lemma layout_aligned prev l1 b l2 e :
  layout HEAP_ALIGNMENT 0 prev (l1 ++ b :: l2) e -> offset b mod HEAP_ALIGNMENT = 0.
Proof.
  intros H. pose proof (layout_block _ _ _ _ _ _ H) as (-> & _).
  apply layout_app in H as [H _]. rewrite Z.add_0_l. by eapply layout_sum_aligned.
Qed.

(** Every outcome of an allocation on an active heap.  On success [hg] is the
    heap the block was carved from: the heap itself, or the heap after growth. *)
Lemma heap_allocate_cases sz old h m :
  heap_core h m -> fits 64 sz ->
  let requested := align_up sz HEAP_ALIGNMENT in
  let '(st, out, h', m') := heap_allocate sz (Some old) h m in
  match st with
  | HEAP_STATUS_OK => exists hg l1 b l2,
      heap_core hg m' /\ live hg = l1 ++ b :: l2 /\ used b = false /\
      0 < sz <= requested /\ requested <= size b /\ requested < sz + 16 /\
      requested mod HEAP_ALIGNMENT = 0 /\
      live h' = l1 ++ carve b requested ++ l2 /\ heap_wf h' m' /\
      out = Some (Some (HEAP_BASE + offset b)) /\
      used_blocks (live hg) = used_blocks (live h) /\
      (exists t c, h' = refresh_state (set_table t c hg)) /\
      committed_bytes (state h') = committed_bytes (state hg) /\
      (hg = h \/ committed_bytes (state h) < committed_bytes (state hg))
  | HEAP_STATUS_OUT_OF_BLOCKS =>
      heap_core h' m' /\ out = Some None /\ used_blocks (live h') = used_blocks (live h)
  | HEAP_STATUS_ZERO_SIZE => h' = h /\ m' = m /\ out = Some None /\ sz = 0
  | HEAP_STATUS_TOO_LARGE => h' = h /\ m' = m /\ out = Some None /\ HEAP_SIZE < sz
  | HEAP_STATUS_OUT_OF_MEMORY | HEAP_STATUS_MAPPING_FAILURE =>
      h' = h /\ heap_core h m' /\ out = Some None
  | _ => False
  end.
Proof.
  intros H Hsz requested. unfold heap_allocate. rewrite (hc_active h m H). simpl.
  destruct (Z.eqb_spec sz 0) as [|Hz]; [done|].
  destruct (Z.ltb_spec HEAP_SIZE sz) as [|Hmax]; [done|].
  destruct Hsz as [Hs0 _]. fold requested.
  destruct (align_up_unit sz) as [Hreq Hal]; [unfold HEAP_SIZE in *; lia|]. fold requested in Hreq, Hal.
  destruct (Z.ltb_spec HEAP_SIZE requested) as [Hbig|Hfit].
  { exfalso. pose proof (Z.div_mod requested HEAP_ALIGNMENT).
    unfold HEAP_SIZE, HEAP_ALIGNMENT in *. lia. }
  clearbody requested.
  assert (Hpre : forall st found hg mg,
    match find_fit (blocks h) (block_count h) requested with
    | Some index => (HEAP_STATUS_OK, Some index, h, m)
    | None => grow_for requested h m
    end = (st, found, hg, mg) ->
    match st with
    | HEAP_STATUS_OK => exists l1 b l2,
        found = Some (length l1) /\ live hg = l1 ++ b :: l2 /\ used b = false /\
        requested <= size b /\ heap_core hg mg /\
        used_blocks (live hg) = used_blocks (live h) /\
        (hg = h \/ committed_bytes (state h) < committed_bytes (state hg))
    | HEAP_STATUS_OUT_OF_MEMORY | HEAP_STATUS_OUT_OF_BLOCKS | HEAP_STATUS_MAPPING_FAILURE =>
        hg = h /\ heap_core h mg
    | _ => False
    end).
  { intros st found hg mg E. destruct (find_fit _ _ requested) as [i|] eqn:Hf.
    - injection E as <- <- <- <-.
      destruct (find_fit_Some _ _ _ _ _ (hc_represents h m H) Hf)
        as (l1 & b & l2 & Hl & -> & Hu & Hs & _).
      exists l1, b, l2. split_and!; try done. by left.
    - pose proof (grow_for_spec requested h m H ltac:(lia) Hf) as Hg. rewrite E in Hg.
      destruct st; try done. destruct Hg as (l & b & -> & Hl & Hu & Hs & Hc & Hub & Hcm).
      exists l, b, []. split_and!; try done. by right. }
  destruct (match find_fit _ _ requested with Some _ => _ | None => _ end)
    as [[[st found] hg] mg] eqn:E. specialize (Hpre _ _ _ _ eq_refl).
  destruct st; try done; try by destruct Hpre as [-> ?].
  destruct Hpre as (l1 & b & l2 & -> & Hl & Hu & Hs & Hc & Hub & Hgrow).
  pose proof (hc_layout hg mg Hc) as Hlay. rewrite Hl in Hlay.
  pose proof (layout_block _ _ _ _ _ _ Hlay) as (_ & Hbs & Hb0 & Hbe).
  pose proof (core_committed hg mg Hc) as Hcc.
  assert (Hba : size b mod HEAP_ALIGNMENT = 0).
  { apply layout_app in Hlay as (_ & _ & _ & ? & _). done. }
  pose proof (hc_represents hg mg Hc) as Hr. rewrite Hl in Hr.
  pose proof (split_block_spec _ _ _ _ _ requested Hr ltac:(lia) Hal Hba Hb0) as Hsp.
  destruct (split_block _ _ _ requested) as [[t c]|].
  2: { split_and!; done. }
  specialize (Hsp ltac:(unfold HEAP_SIZE in *; lia)).
  destruct (core_table hg mg t c _ Hc Hsp) as [Hwf Hlive].
  { apply carve_layout; [done|done|lia|done]. }
  exists hg, l1, b, l2. split_and!; try done; try lia; [|by exists t, c].
  cbn [blocks refresh_state set_table].
  assert (Hmid : t !!! length l1 = Block (offset b) requested true).
  { eapply represents_mid. exact Hsp. }
  rewrite Hmid. cbn [offset]. rewrite wrap_small; [done|].
  unfold fits, HEAP_BASE, HEAP_SIZE in *. lia.
Qed.

(** Growing and allocating touch no page outside the window. *)
Lemma grow_for_elsewhere sz h m :
  heap_core h m -> 0 < sz <= HEAP_SIZE ->
  find_fit (blocks h) (block_count h) sz = None ->
  same_elsewhere m (grow_for sz h m).2 (fun k => 0 <= k < 4096).
Proof.
  intros H Hsz Hf. pose proof (trailing_short h m sz H ltac:(lia) Hf) as Htr.
  pose proof (core_committed h m H) as Hc. pose proof (core_count h m H) as Hcount.
  assert (Hsz' : sz < 2 ^ 62) by (unfold HEAP_SIZE in *; lia).
  destruct (align_up_page (sz - trailing h)) as [Hg1 Hg2]; [lia|].
  unfold grow_for. cbv zeta. fold (extend_last h). fold (trailing h).
  rewrite !wrap_small by (unfold fits, HEAP_SIZE in *; lia).
  apply Z.mod_divide in Hg2 as [g Hg]; [|done]. rewrite Hg in *.
  destruct (Z.ltb_spec (HEAP_SIZE - committed_bytes (state h)) (g * PAGING_PAGE_SIZE))
    as [|Hroom]; [done|].
  destruct (negb (extend_last h) && (block_count h =? HEAP_MAX_BLOCKS)%nat); [done|].
  assert (Hg0 : 0 < g) by (unfold PAGING_PAGE_SIZE in *; lia).
  pose proof (commit_pages_core h m g H ltac:(lia) ltac:(lia)) as Hcommit.
  rewrite (hc_pages h m H) in Hroom.
  assert (mapped_pages (state h) + g <= 4096) by (unfold PAGING_PAGE_SIZE, HEAP_SIZE in *; lia).
  destruct (commit_pages _ _ _ m) as [[st mp] m'].
  destruct Hcommit as (_ & Hs & _). rewrite Z2Nat.id in Hs by lia.
  assert (same_elsewhere m m' (fun k => 0 <= k < 4096)) as Hgoal.
  { intros va Hva Hne. apply Hs; [done|]. intros k Hk. apply Hne. lia. }
  by destruct st; try destruct (extend_last h).
Qed.

Lemma heap_allocate_elsewhere sz old h m :
  heap_core h m -> fits 64 sz ->
  same_elsewhere m (heap_allocate sz (Some old) h m).2 (fun k => 0 <= k < 4096).
Proof.
  intros H Hsz. unfold heap_allocate. rewrite (hc_active h m H). cbn [negb].
  destruct (Z.eqb_spec sz 0); [done|].
  destruct (Z.ltb_spec HEAP_SIZE sz); [done|]. cbv zeta.
  destruct (Z.ltb_spec HEAP_SIZE (align_up sz HEAP_ALIGNMENT)) as [|Hr]; [done|].
  destruct (find_fit (blocks h) (block_count h) (align_up sz HEAP_ALIGNMENT)) as [i|] eqn:Hf.
  { by destruct (split_block _ _ _ _) as [[t c]|]. }
  pose proof (grow_for_elsewhere (align_up sz HEAP_ALIGNMENT) h m H) as Hs.
  assert (0 < align_up sz HEAP_ALIGNMENT).
  { destruct (align_up_unit sz) as (Hge & _); unfold fits, HEAP_SIZE in *; lia. }
  specialize (Hs ltac:(lia) Hf). destruct (grow_for _ h m) as [[[st found] h'] m']. cbn [snd] in Hs.
  by destruct st, found; try done; destruct (split_block _ _ _ _) as [[t c]|].
Qed.

(** What a release of the address of a used block leaves. *)
Lemma heap_free_used h m l1 b l2 :
  heap_core h m -> live h = l1 ++ b :: l2 -> used b = true ->
  exists t c, heap_free (Some (HEAP_BASE + offset b)) h =
    (HEAP_STATUS_OK, refresh_state (set_table t c h)) /\
    represents HEAP_MAX_BLOCKS t c (coalesce l1 (set_used false b) l2).
Proof.
  intros H Hl Hu. pose proof (hc_represents h m H) as Hr. rewrite Hl in Hr.
  pose proof (hc_layout h m H) as Hlay. rewrite Hl in Hlay.
  pose proof (layout_block _ _ _ _ _ _ Hlay) as (Ho & Hs & Hb0 & Hbe).
  unfold heap_free. rewrite (hc_active h m H). cbn [negb].
  destruct (Z.ltb_spec (HEAP_BASE + offset b) HEAP_BASE); [lia|].
  destruct (Z.leb_spec (HEAP_BASE + committed_bytes (state h)) (HEAP_BASE + offset b)); [lia|].
  cbn [orb]. replace (HEAP_BASE + offset b - HEAP_BASE) with (offset b) by lia.
  assert (block_index_for_offset (blocks h) (block_count h) (offset b) = Some (length l1)) as ->.
  { unfold block_index_for_offset. fold (live h). rewrite Hl. apply first_index_Some. split.
    - exists b. split; [by apply list_lookup_middle|apply Z.eqb_refl].
    - intros j y Hj Hy. apply Z.eqb_neq. rewrite lookup_app_l in Hy by done.
      apply list_elem_of_lookup_2, list_elem_of_split in Hy as (k1 & k2 & ->).
      rewrite <- app_assoc in Hlay. cbn [app] in Hlay.
      pose proof (layout_block _ _ _ _ _ _ Hlay) as (Hy & Hys & _).
      rewrite sumz_app in Ho. simpl in Ho. apply layout_sizes in Hlay.
      apply Forall_app in Hlay as [_ [_ [Hk _]%Forall_app]%Forall_cons].
      apply sizes_nonneg in Hk. lia. }
  rewrite (represents_mid _ _ _ _ _ Hr), Hu. cbn [negb].
  pose proof (merge_free_neighbours_spec _ _ _ _ _ (committed_bytes (state h))
    (represents_insert _ _ _ _ (set_used false b) _ Hr)) as Hm. cbv zeta in Hm.
  destruct (merge_free_neighbours _ _ _) as [t c]. exists t, c. split; [done|].
  pose proof (core_committed h m H). pose proof (layout_end _ _ _ _ Hlay) as He.
  apply layout_sizes in Hlay. apply Hm.
  - unfold HEAP_SIZE in *. lia.
  - rewrite He, !sumz_app. simpl. lia.
  - apply Forall_app in Hlay as [Hl1 [Hb Hl2]%Forall_cons].
    apply Forall_app. split; [done|]. by apply Forall_cons.
Qed.

Lemma heap_free_cases h m p :
  heap_core h m ->
  (exists l1 b l2, live h = l1 ++ b :: l2 /\ p = HEAP_BASE + offset b /\ used b = true) \/
  (exists b, b ∈ live h /\ p = HEAP_BASE + offset b /\ used b = false /\
     heap_free (Some p) h = (HEAP_STATUS_DOUBLE_FREE, h)) \/
  ((forall b, b ∈ live h -> p <> HEAP_BASE + offset b) /\
     heap_free (Some p) h = (HEAP_STATUS_BAD_POINTER, h)).
Proof.
  intros H. unfold heap_free. rewrite (hc_active h m H). cbn [negb].
  pose proof (hc_represents h m H) as Hr.
  destruct (Z.ltb_spec p HEAP_BASE) as [Hlo|Hlo].
  { right; right. split; [|done]. intros b (k1 & k2 & Hb)%list_elem_of_split.
    pose proof (hc_layout h m H) as Hlay. rewrite Hb in Hlay. apply layout_block in Hlay. lia. }
  destruct (Z.leb_spec (HEAP_BASE + committed_bytes (state h)) p) as [Hhi|Hhi].
  { right; right. split; [|done]. intros b (k1 & k2 & Hb)%list_elem_of_split.
    pose proof (hc_layout h m H) as Hlay. rewrite Hb in Hlay. apply layout_block in Hlay. lia. }
  cbn [orb]. unfold block_index_for_offset. fold (live h).
  destruct (first_index _ (live h)) as [i|] eqn:Hf.
  - apply first_index_Some in Hf as [(b & Hb & Ho%Z.eqb_eq) _].
    rewrite (represents_lookup _ _ _ _ _ Hr Hb). destruct (used b) eqn:Hu.
    + left. exists (take i (live h)), b, (drop (S i) (live h)).
      rewrite take_drop_middle by done. split_and!; try done. lia.
    + right; left. exists b. split; [by eapply list_elem_of_lookup_2|]. split_and!; try done. lia.
  - right; right. split; [|done]. rewrite first_index_None in Hf.
    intros b [i Hi]%list_elem_of_lookup ->. specialize (Hf i b Hi). simpl in Hf.
    apply Z.eqb_neq in Hf. lia.
Qed.

Lemma pages_valid_spec m n k :
  pages_valid m n (k * PAGING_PAGE_SIZE) = true <->
  forall j, k <= j < k + Z.of_nat n -> exists t,
    paging_translate m (page j) = (PAGING_STATUS_OK, t) /\ permissions t = PAGING_WRITE /\
    level t = 1.
Proof.
  revert k. induction n as [|n IH]; intros k; cbn [pages_valid].
  { split; [intros _ j Hj; lia|done]. }
  fold (page k). replace (k * PAGING_PAGE_SIZE + PAGING_PAGE_SIZE) with ((k + 1) * PAGING_PAGE_SIZE) by lia.
  split.
  - destruct (paging_translate m (page k)) as [[] t] eqn:Ht; try done.
    destruct (Z.eqb_spec (permissions t) PAGING_WRITE); [|done].
    destruct (Z.eqb_spec (level t) 1); [|done]. simpl. rewrite IH. intros Hv j Hj.
    destruct (decide (j = k)) as [->|]; [by exists t|]. apply Hv. lia.
  - intros Hv. destruct (Hv k) as (t & -> & -> & ->); [lia|].
    rewrite Z.eqb_refl. simpl. apply IH. intros j Hj. apply Hv. lia.
Qed.

Lemma guards_absent_spec m :
  guards_absent m = true <-> unmapped m (fun k => k = -1 \/ k = 4096).
Proof.
  unfold guards_absent. rewrite andb_true_iff, !bool_decide_eq_true.
  change HEAP_GUARD_BELOW with (page (-1)). change HEAP_GUARD_ABOVE with (page 4096).
  split; [by intros [? ?] k [-> | ->]|]. intros Hk. split; apply Hk; auto.
Qed.
End Invariant.

(** ** Correctness *)

Section Correctness.
Context {M : Type} `{!page_backend M, !page_backend_laws M}.
Implicit Types (h : heap) (m : M).

(** Everything [heap_verify] looks at. *)
Definition verifiable h m : Prop :=
  active (state h) = true /\ committed_bytes (state h) <= HEAP_SIZE /\
  committed_bytes (state h) = mapped_pages (state h) * PAGING_PAGE_SIZE /\
  (block_count h <= HEAP_MAX_BLOCKS)%nat /\
  layout HEAP_ALIGNMENT 0 true (live h) (committed_bytes (state h)) /\
  unmapped m (fun k => k = -1 \/ k = 4096) /\
  (forall k, 0 <= k < mapped_pages (state h) -> exists t,
     paging_translate m (page k) = (PAGING_STATUS_OK, t) /\
     permissions t = PAGING_WRITE /\ level t = 1) /\
  synced h.

Lemma verify_accepts h m :
  length (blocks h) = HEAP_MAX_BLOCKS -> verifiable h m -> heap_verify h m = HEAP_STATUS_OK.
Proof.
  intros Hlen (Ha & Hle & Hp & Hcnt & Hl & Hg & Hpg & (Hb & Hlv & Hbc)).
  unfold heap_verify. rewrite Ha, Hb, Hlv, Hbc, !Z.eqb_refl. cbn [negb].
  pose proof (layout_sizes _ _ _ _ Hl) as Hs. pose proof (layout_grows _ _ _ _ Hl).
  pose proof (layout_end _ _ _ _ Hl) as He. pose proof (used_sum _ Hs).
  destruct (Z.ltb_spec HEAP_SIZE (committed_bytes (state h))); [lia|].
  rewrite Hp, Z.mod_mul, Z.div_mul, !Z.eqb_refl by done. rewrite <- Hp. cbn [orb negb].
  rewrite (proj2 (validate_layout _ _ _ Hlen
    (Forall_impl _ _ _ Hs (fun x => Z.lt_le_incl 0 (size x))) ltac:(fold (live h); unfold HEAP_SIZE in *; lia))
    (conj Hcnt Hl)). cbn [negb].
  rewrite (proj2 (guards_absent_spec m) Hg). cbn [negb].
  assert (pages_valid m (page_steps 0 (committed_bytes (state h))) 0 = true) as ->.
  { rewrite Hp. change 0 with (0 * PAGING_PAGE_SIZE) at 1.
    rewrite page_steps_pages by (unfold PAGING_PAGE_SIZE in *; lia).
    apply (pages_valid_spec m _ 0). intros j Hj. apply Hpg. lia. }
  rewrite wrap_small by (unfold fits, HEAP_SIZE in *; lia). by rewrite Z.eqb_refl.
Qed.

Lemma wf_verify h m : heap_wf h m -> heap_verify h m = HEAP_STATUS_OK.
Proof.
  intros [H Hsync]. pose proof H as [H1 (Hlen & Hcnt & _) H3 H4 H5 H6 H7 H8].
  apply verify_accepts; [done|]. split_and!; try done.
  - pose proof (core_count h m H). intros k Hk. apply H8. lia.
  - intros k Hk. destruct (proj1 H7 k Hk) as (t & ? & ? & ? & _). by exists t.
Qed.

Lemma initialize_wf h m :
  backend_ok m -> unmapped m (fun k => -1 <= k <= 4096) ->
  length (blocks h) = HEAP_MAX_BLOCKS ->
  forall h', heap_initialize h m = (HEAP_STATUS_OK, h') -> heap_wf h' m /\ live h' = [].
Proof.
  intros Hok Hun Hlen h' Hi. unfold heap_initialize in Hi.
  destruct (active (state h)); [done|]. destruct (negb _); [done|].
  destruct (cpu_interrupts_enabled m); [done|]. destruct (negb _); [done|].
  injection Hi as <-. assert (Hl : forall st, live (Heap (blocks h) 0 st) = []) by done.
  split; [|done]. split; [|done]. constructor; try done; simpl.
  - split; [done|]. split; [lia|done].
  - split; [|intros; lia]. intros k Hk. lia.
  - intros k Hk. apply Hun. lia.
Qed.

(** C2: on a well-formed heap [heap_allocate] either returns the address of a
    new block of the requested size rounded up to the granularity, aligned,
    inside the committed window and disjoint from every block in use, with the
    used blocks otherwise exactly as before; or refuses with a null result and
    the used blocks unchanged: [ZERO_SIZE] only for 0, [TOO_LARGE] only above
    the window, and every refusal but [OUT_OF_BLOCKS] leaves the heap exactly
    as it was. *)
Theorem heap_allocate_correct h m sz old :
  heap_wf h m -> fits 64 sz ->
  let '(st, out, h', m') := heap_allocate sz (Some old) h m in
  match st with
  | HEAP_STATUS_OK => heap_wf h' m' /\ exists b l1 l2,
      out = Some (Some (HEAP_BASE + offset b)) /\
      used_blocks (live h) = l1 ++ l2 /\ used_blocks (live h') = l1 ++ b :: l2 /\
      sz <= size b < sz + 16 /\ offset b mod HEAP_ALIGNMENT = 0 /\
      0 <= offset b /\ offset b + size b <= committed_bytes (state h') <= HEAP_SIZE /\
      (forall x, x ∈ l1 ++ l2 -> disjoint_blocks x b)
  | HEAP_STATUS_OUT_OF_BLOCKS =>
      heap_core h' m' /\ out = Some None /\ used_blocks (live h') = used_blocks (live h)
  | HEAP_STATUS_ZERO_SIZE => h' = h /\ m' = m /\ out = Some None /\ sz = 0
  | HEAP_STATUS_TOO_LARGE => h' = h /\ m' = m /\ out = Some None /\ HEAP_SIZE < sz
  | HEAP_STATUS_OUT_OF_MEMORY | HEAP_STATUS_MAPPING_FAILURE =>
      h' = h /\ heap_wf h' m' /\ out = Some None
  | _ => False
  end.
Proof.
  intros [H Hsync] Hsz. pose proof (heap_allocate_cases sz old h m H Hsz) as Hc.
  cbv zeta in Hc. destruct (heap_allocate sz (Some old) h m) as [[[st out] h'] m'].
  destruct st; try done; try (by destruct Hc as (-> & ? & ?)).
  destruct Hc as (hg & l1 & b & l2 & Hcg & Hlg & Hu & Hs & Hrb & Hr16 & Hra & Hl' & Hwf & -> &
    Hub & _ & _ & _).
  split; [done|].
  destruct Hwf as [Hc' _]. pose proof (hc_layout h' m' Hc') as Hlay. rewrite Hl' in Hlay.
  pose proof (layout_block _ _ _ _ _ _ Hlay) as (_ & _ & Hb0 & Hbe). simpl in Hb0, Hbe.
  set (x := Block (offset b) (align_up sz HEAP_ALIGNMENT) true) in *.
  exists x, (used_blocks l1), (used_blocks l2).
  rewrite <- Hub, Hlg, Hl', !used_blocks_app, used_blocks_cons, Hu.
  assert (Hcarve : used_blocks (carve b (align_up sz HEAP_ALIGNMENT)) = [x]).
  { unfold carve. rewrite used_blocks_cons. simpl. by destruct (_ =? _). }
  rewrite Hcarve. split_and!; try done; try (simpl; lia).
  - by apply layout_aligned in Hlay.
  - by eapply hc_bound.
  - intros y Hy. eapply (layout_disjoint _ _ l1 x _ _ y Hlay).
    apply elem_of_app in Hy as [Hy|Hy]; apply used_blocks_In in Hy as [_ Hy]; apply elem_of_app;
      [by left|]. right. apply elem_of_app. by right.
Qed.

Lemma heap_free_wf h m p st h' :
  heap_wf h m -> heap_free (Some p) h = (st, h') -> heap_wf h' m.
Proof.
  intros Hwf Hf. pose proof Hwf as [H _]. destruct (heap_free_cases h m p H) as
    [(l1 & b & l2 & Hl & -> & Hu) | [(b & Hb & -> & Hu & He) | [Hn He]]].
  2-3: rewrite He in Hf; by injection Hf as <- <-.
  destruct (heap_free_used h m l1 b l2 H Hl Hu) as (t & c & He & Hr).
  rewrite He in Hf. injection Hf as <- <-.
  pose proof (hc_layout h m H) as Hlay. rewrite Hl in Hlay.
  destruct (coalesce_layout l1 b l2 _ Hlay Hu) as [Hco Hub].
  by apply (core_table h m t c _ H Hr Hco).
Qed.

Lemma heap_allocate_wf h m sz old st out h' m' :
  heap_wf h m -> fits 64 sz -> heap_allocate sz (Some old) h m = (st, out, h', m') ->
  st <> HEAP_STATUS_OUT_OF_BLOCKS -> heap_wf h' m'.
Proof.
  intros Hwf Hsz Ha Hst. pose proof Hwf as [H Hsync].
  pose proof (heap_allocate_cases sz old h m H Hsz) as Hc. cbv zeta in Hc. rewrite Ha in Hc.
  destruct st; try done.
  - destruct Hc as (hg & l1 & b & l2 & Hc). tauto.
  - by destruct Hc as (-> & -> & _).
  - by destruct Hc as (-> & -> & _).
  - by destruct Hc as (-> & ? & _).
  - by destruct Hc as (-> & ? & _).
Qed.

(** [heap_free] succeeds exactly on the address of a block in use and then
    removes exactly that block from the used ones, merging the freed span with
    its free neighbours; the start of a free block is a double free, any other
    address a bad pointer, both with the heap unchanged; the invariant is kept
    in every case. *)
Theorem heap_free_correct h m p :
  heap_wf h m ->
  let '(st, h') := heap_free (Some p) h in
  heap_wf h' m /\
  match st with
  | HEAP_STATUS_OK => exists l1 b l2,
      live h = l1 ++ b :: l2 /\ p = HEAP_BASE + offset b /\ used b = true /\
      live h' = coalesce l1 (set_used false b) l2 /\
      used_blocks (live h') = used_blocks l1 ++ used_blocks l2
  | HEAP_STATUS_DOUBLE_FREE =>
      h' = h /\ exists b, b ∈ live h /\ p = HEAP_BASE + offset b /\ used b = false
  | HEAP_STATUS_BAD_POINTER =>
      h' = h /\ forall b, b ∈ live h -> p <> HEAP_BASE + offset b
  | _ => False
  end.
Proof.
  intros Hwf. pose proof Hwf as [H _]. destruct (heap_free_cases h m p H) as
    [(l1 & b & l2 & Hl & -> & Hu) | [(b & Hb & -> & Hu & ->) | [Hn ->]]].
  - destruct (heap_free_used h m l1 b l2 H Hl Hu) as (t & c & -> & Hr).
    pose proof (hc_layout h m H) as Hlay. rewrite Hl in Hlay.
    destruct (coalesce_layout l1 b l2 _ Hlay Hu) as [Hco Hub].
    destruct (core_table h m t c _ H Hr Hco) as [Hwf' Hlive].
    split; [done|]. exists l1, b, l2. rewrite Hlive. by split_and!.
  - split; [done|]. split; [done|]. by exists b.
  - by split.
Qed.

Lemma synced_state h h' :
  synced h -> synced h' -> live h' = live h -> block_count h' = block_count h ->
  hs_base_address (state h') = hs_base_address (state h) -> hs_size (state h') = hs_size (state h) ->
  committed_bytes (state h') = committed_bytes (state h) ->
  mapped_pages (state h') = mapped_pages (state h) -> active (state h') = active (state h) ->
  state h' = state h.
Proof.
  intros (A1 & A2 & A3) (B1 & B2 & B3) Hl Hc Hba Hs Hco Hm Ha.
  rewrite Hl in B1, B2. rewrite Hc in B3.
  destruct (state h), (state h'). simpl in *. congruence.
Qed.

(** Freeing what was just allocated undoes the allocation: when the heap
    did not have to grow, the block table and every reported counter are back
    to what they were. *)
Theorem heap_allocate_free_roundtrip h m sz old p h' m' :
  heap_wf h m -> fits 64 sz ->
  heap_allocate sz (Some old) h m = (HEAP_STATUS_OK, Some (Some p), h', m') ->
  committed_bytes (state h') = committed_bytes (state h) ->
  exists h'', heap_free (Some p) h' = (HEAP_STATUS_OK, h'') /\
    live h'' = live h /\ state h'' = state h.
Proof.
  intros [H Hsync] Hsz Ha Hcom. pose proof (heap_allocate_cases sz old h m H Hsz) as Hc.
  cbv zeta in Hc. rewrite Ha in Hc.
  destruct Hc as (hg & l1 & b & l2 & _ & Hlg & Hu & Hs & Hrb & _ & _ & Hl' & [Hc' _] & Hout &
    _ & (t & c & Hh') & Hcg & [-> | Hgrow]); [|lia].
  injection Hout as ->. set (req := align_up sz HEAP_ALIGNMENT) in *.
  pose proof (hc_layout h m H) as Hlay. rewrite Hlg in Hlay.
  destruct (coalesce_carve l1 b l2 req _ Hlay Hu ltac:(lia)) as (r & Hcarve & Hco).
  rewrite Hcarve in Hl'.
  destruct (heap_free_used h' m' l1 _ r Hc' Hl' eq_refl) as (t2 & c2 & Hf & Hr).
  cbn [offset] in Hf. rewrite Hf. eexists; split; [done|]. rewrite Hco, <- Hlg in Hr.
  destruct (core_table h' m' t2 c2 (live h) Hc' Hr) as [[_ Hsync'] Hlive].
  { rewrite Hcom. by eapply hc_layout. }
  split; [done|]. apply synced_state; try done; subst h'; try done.
  cbn. rewrite <- (represents_length _ _ _ Hr).
  by apply (represents_length _ _ _ (hc_represents h m H)).
Qed.

(** [heap_verify] accepts a heap exactly when its table tiles the committed
    region, the committed pages are writable 4 KiB mappings, the guards are
    unmapped and every reported counter agrees with the table. *)
Theorem heap_verify_correct h m :
  length (blocks h) = HEAP_MAX_BLOCKS -> Forall (fun b => 0 <= size b) (live h) ->
  sumz size (live h) < 2 ^ 64 -> 0 <= committed_bytes (state h) ->
  heap_verify h m = HEAP_STATUS_OK <-> verifiable h m.
Proof.
  intros Hlen Hs Hw Hc. split.
  - unfold heap_verify, verifiable, synced. destruct (active (state h)); [|done]. cbn [negb].
    destruct (Z.ltb_spec HEAP_SIZE (committed_bytes (state h))); [done|].
    destruct (Z.eqb_spec (committed_bytes (state h) mod PAGING_PAGE_SIZE) 0) as [Hmod|]; [|done].
    destruct (Z.eqb_spec (mapped_pages (state h)) (committed_bytes (state h) / PAGING_PAGE_SIZE))
      as [Hmp|]; [|done]. cbn [orb negb].
    apply Z.div_exact in Hmod; [|done]. rewrite <- Hmp in Hmod.
    destruct (validate_table _ _ _) eqn:Hv; [|done]. cbn [negb].
    apply validate_layout in Hv; [|done..]. fold (live h) in Hv.
    destruct (guards_absent m) eqn:Hg; [|done]. cbn [negb]. apply guards_absent_spec in Hg.
    destruct (pages_valid _ _ _) eqn:Hp; [|done]. cbn [negb].
    pose proof (used_sum _ (layout_sizes _ _ _ _ (proj2 Hv))) as Hus.
    rewrite wrap_small by (unfold fits; lia).
    destruct (Z.eqb_spec (sumz size (used_blocks (live h))) (allocated_bytes (state h))); [|done].
    destruct (Z.eqb_spec (countb used (live h)) (live_allocations (state h))); [|done].
    destruct (Z.eqb_spec (Z.of_nat (block_count h)) (hs_block_count (state h))); [|done].
    intros _. split_and!; try done; try lia; [by apply Hv..|].
    assert (Hm0 : 0 <= mapped_pages (state h)) by (unfold PAGING_PAGE_SIZE in *; lia).
    rewrite Hmod, Z.mul_comm in Hp. change 0 with (0 * PAGING_PAGE_SIZE) in Hp at 1.
    rewrite page_steps_pages in Hp by done.
    intros k Hk. apply (proj1 (pages_valid_spec m _ 0) Hp). lia.
  - by apply verify_accepts.
Qed.

(** [heap_initialize] succeeds exactly on an inactive heap with the page
    tables active, interrupts disabled and both guard pages unmapped, and then
    the heap is well-formed and empty; a refusal changes nothing. *)
Theorem heap_initialize_correct h m :
  backend_ok m -> unmapped m (fun k => 0 <= k < 4096) -> length (blocks h) = HEAP_MAX_BLOCKS ->
  let '(st, h') := heap_initialize h m in
  (st = HEAP_STATUS_OK <->
     active (state h) = false /\ paging_is_active m = true /\
     cpu_interrupts_enabled m = false /\ unmapped m (fun k => k = -1 \/ k = 4096)) /\
  (st = HEAP_STATUS_OK -> heap_wf h' m /\ live h' = [] /\ committed_bytes (state h') = 0) /\
  (st <> HEAP_STATUS_OK -> h' = h).
Proof.
  intros Hok Hun Hlen. pose proof (initialize_wf h m Hok) as Hwf.
  pose proof (guards_absent_spec m) as Hg. unfold heap_initialize in *.
  destruct (active (state h)); [by split; [split; [|intros []]|]|].
  destruct (paging_is_active m); cbn [negb] in *; [|by split; [split; [|intros (? & ? & ?)]|]].
  destruct (cpu_interrupts_enabled m); [by split; [split; [|intros (? & ? & ? & ?)]|]|].
  destruct (guards_absent m); cbn [negb] in *.
  - assert (Hall : unmapped m (fun k => -1 <= k <= 4096)).
    { pose proof (proj1 Hg eq_refl) as Hgu. intros k Hk.
      destruct (decide (0 <= k < 4096)); [by apply Hun|apply Hgu; lia]. }
    split; [split; [intros _; split_and!; try done; by apply Hg|done]|]. split; [|done].
    intros _. destruct (Hwf Hall Hlen _ eq_refl). by split_and!.
  - split; [split; [done|]|done]. intros (_ & _ & _ & Habs%Hg). done.
Qed.

(** One call into the heap.  The allocations that report a full block table
    are left out: see [heap_full_table_stale]. *)
Inductive heap_step : heap * M -> heap * M -> Prop :=
  | step_allocate h m sz old st out h' m' :
      fits 64 sz -> heap_allocate sz (Some old) h m = (st, out, h', m') ->
      st <> HEAP_STATUS_OUT_OF_BLOCKS -> heap_step (h, m) (h', m')
  | step_free h m p st h' :
      heap_free (Some p) h = (st, h') -> heap_step (h, m) (h', m).

Lemma reachable_wf c c' : rtc heap_step c c' -> heap_wf c.1 c.2 -> heap_wf c'.1 c'.2.
Proof.
  induction 1 as [|x y z Hxy _ IH]; [done|]. intros Hwf. apply IH.
  destruct Hxy as [h m sz old st out h' m' Hs He Hn|h m p st h' He]; simpl in *.
  - exact (heap_allocate_wf h m sz old st out h' m' Hwf Hs He Hn).
  - exact (heap_free_wf h m p st h' Hwf He).
Qed.

(** After a successful initialization, any sequence of allocations and
    frees (of any sizes and any addresses, refused calls included, as long as
    no allocation reported a full block table) leaves a heap that
    [heap_verify] accepts. *)
Theorem heap_reachable_verified h0 m0 h1 h m :
  backend_ok m0 -> unmapped m0 (fun k => -1 <= k <= 4096) ->
  length (blocks h0) = HEAP_MAX_BLOCKS ->
  heap_initialize h0 m0 = (HEAP_STATUS_OK, h1) -> rtc heap_step (h1, m0) (h, m) ->
  heap_verify h m = HEAP_STATUS_OK.
Proof.
  intros Hok Hun Hlen Hi Hr. apply wf_verify. apply (reachable_wf _ _ Hr).
  by eapply initialize_wf.
Qed.
End Correctness.

(** ** A backend over the frame allocator

    Page tables as a finite map from page addresses to translations, frames from
    the allocator of [Frames]. *)

Record mapped_memory := MappedMemory {
  mm_frames : frames;
  mm_pages : gmap Z paging_translation
}.

#[global] Instance mapped_backend : page_backend mapped_memory := {
  paging_is_active _ := true;
  cpu_interrupts_enabled _ := false;
  paging_translate m va :=
    match mm_pages m !! va with
    | Some t => (PAGING_STATUS_OK, t)
    | None => (PAGING_STATUS_NOT_MAPPED, Translation 0 0 0)
    end;
  paging_map va f _ perms m :=
    match mm_pages m !! va with
    | Some _ => (PAGING_STATUS_OTHER 1, m)
    | None => (PAGING_STATUS_OK,
        MappedMemory (mm_frames m) (<[va := Translation f perms 1]> (mm_pages m)))
    end;
  paging_unmap va _ m :=
    match mm_pages m !! va with
    | Some _ => (PAGING_STATUS_OK, MappedMemory (mm_frames m) (delete va (mm_pages m)))
    | None => (PAGING_STATUS_NOT_MAPPED, m)
    end;
  backend_frame_allocate m :=
    let '(st, out, s) := frame_allocate (Some 0) (mm_frames m) in
    (st, default 0 out, MappedMemory s (mm_pages m));
  backend_frame_release f m :=
    let '(st, s) := frame_release f (mm_frames m) in (st, MappedMemory s (mm_pages m))
}.

Definition allocated_page (s : frames) (g : Z) : Prop :=
  0 <= g /\ g mod RSD_PAGE_SIZE = 0 /\ frame_allocated s (g / RSD_PAGE_SIZE) = true.

Lemma allocated_window s s' a v g :
  used_window s s' a 1 v -> (v = true \/ g / RSD_PAGE_SIZE <> a) ->
  allocated_page s g -> allocated_page s' g.
Proof.
  intros [He Hu] Hv (H0 & Hm & Ha). split; [done|]. split; [done|].
  unfold frame_allocated in *. rewrite He, Hu. case_decide; [|done].
  destruct Hv as [-> | Hv]; [|lia]. apply andb_true_iff in Ha as [-> _]. done.
Qed.

Lemma take_frame_law s frame :
  frames_wf s -> frame_choice s frame ->
  (forall g, allocated_page s g -> allocated_page (take_frame frame s) g) /\
  ~ allocated_page s (frame * RSD_PAGE_SIZE) /\
  allocated_page (take_frame frame s) (frame * RSD_PAGE_SIZE).
Proof.
  intros Hwf (Hb & Hf & _). pose proof (take_frame_window s frame Hwf) as Hw.
  apply frame_is_free_iff in Hf as [He Hu]. split.
  { intros g. eapply allocated_window; [exact Hw|by left]. }
  unfold allocated_page, frame_allocated. destruct Hw as [We Wu]. rewrite We, Wu.
  rewrite Z.div_mul, Z.mod_mul, He, Hu by done. split; [by intros (_ & _ & ?)|].
  rewrite decide_True by lia. split_and!; try done. unfold RSD_PAGE_SIZE. lia.
Qed.

Lemma release_law s f g :
  frames_wf s -> allocator_initialized s = true -> allocated_page s f ->
  let s' := (frame_release f s).2 in
  frames_wf s' /\ allocator_initialized s' = true /\
  (g <> f -> allocated_page s g -> allocated_page s' g).
Proof.
  intros Hwf Hi (H0 & Hm & Ha). destruct (frame_release_cases s f Hi H0) as
    [[(_ & Hlim & Hal & Hc) ->] | (_ & st & _ & ->)]; [|by split_and!].
  cbn [snd]. split; [apply drop_frame_wf; try done; by apply page_frame_bound|].
  split; [unfold drop_frame; by case_match|]. intros Hne Hg.
  eapply allocated_window; [by apply drop_frame_window| |done]. right. intros He.
  destruct Hg as (_ & Hgm & _). apply Hne.
  rewrite (Z.div_mod g RSD_PAGE_SIZE), (Z.div_mod f RSD_PAGE_SIZE) by done. congruence.
Qed.

#[global, refine] Instance mapped_backend_laws : page_backend_laws mapped_memory := {
  backend_ok m := frames_wf (mm_frames m) /\ allocator_initialized (mm_frames m) = true;
  frame_in_use m := allocated_page (mm_frames m)
}.
Proof.
  - intros m st f m' [Hwf Hi]. unfold backend_frame_allocate, mapped_backend.
    destruct (frame_allocate_cases (mm_frames m) 0 Hwf Hi) as [(frame & Hc & ->) | [_ ->]].
    + intros [= <- <- <-]. destruct (take_frame_law _ frame Hwf Hc) as (Hk & Hn & Hu).
      split_and!; try done. apply take_frame_wf; [done|apply Hc..].
    + by intros [= <- <- <-].
  - intros m f st m' [Hwf Hi] Hu. unfold backend_frame_release, mapped_backend.
    pose proof (fun g => release_law _ f g Hwf Hi Hu) as Hr. cbv zeta in Hr.
    destruct (frame_release f (mm_frames m)) as [st0 s]. intros [= <- <-].
    split; [by destruct (Hr 0) as (? & ? & _)|]. split; [done|]. intros g. apply Hr.
  - intros m va f perms st m' Hok Hva Hu. simpl.
    destruct (mm_pages m !! va) eqn:E; intros [= <- <-]; simpl.
    + split; [done|]. split; [done|]. split; [done|]. by rewrite E.
    + split; [done|]. split; [|split; [done|by rewrite lookup_insert_eq]].
      intros va' _ Hne. by rewrite lookup_insert_ne.
  - intros m va t st m' Hok Hva Ht Hl. simpl in *.
    destruct (mm_pages m !! va) eqn:E; [|done]. intros [= <- <-]. simpl.
    split; [done|]. split; [done|]. split; [by rewrite lookup_delete_eq|].
    split; [|done]. intros va' _ Hne. by rewrite lookup_delete_ne.
Defined.

(** ** Concrete heaps *)

Definition empty_heap : heap :=
  Heap (replicate HEAP_MAX_BLOCKS (Block 0 0 false)) 0 (HeapState 0 0 0 0 0 0 0 false).

(** Four free frames above 16 MiB and no page mapped. *)
Definition sample_memory : mapped_memory := MappedMemory (sample_frames 4096) ∅.

Definition sample_heap : heap := (heap_initialize empty_heap sample_memory).2.

Lemma sample_backend_ok : backend_ok sample_memory.
Proof. split; [by apply sample_wf|done]. Qed.

Lemma sample_initialized :
  heap_initialize empty_heap sample_memory = (HEAP_STATUS_OK, sample_heap).
Proof. reflexivity. Qed.

Lemma sample_heap_wf : heap_wf sample_heap sample_memory.
Proof.
  eapply initialize_wf; [exact sample_backend_ok|by intros k Hk| |exact sample_initialized].
  reflexivity.
Qed.

Lemma pair_eta {A B} (r : A * B) : r = (r.1, r.2).
Proof. by destruct r. Qed.

(** The heap after a first allocation of 100 bytes. *)
Definition sample_first := heap_allocate 100 (Some None) sample_heap sample_memory.

Lemma sample_first_wf : heap_wf sample_first.1.2 sample_first.2.
Proof.
  apply (heap_allocate_wf sample_heap sample_memory 100 None
    sample_first.1.1.1 sample_first.1.1.2); [exact sample_heap_wf|done|..].
  - change (sample_first = (sample_first.1.1.1, sample_first.1.1.2, sample_first.1.2, sample_first.2)).
    by rewrite <- !pair_eta.
  - vm_compute. discriminate.
Qed.

Definition sample_second := heap_allocate 50 (Some None) sample_first.1.2 sample_first.2.

Lemma sample_second_result :
  sample_second = (HEAP_STATUS_OK, Some (Some (HEAP_BASE + 112)), sample_second.1.2, sample_second.2) /\
  committed_bytes (state sample_second.1.2) = committed_bytes (state sample_first.1.2).
Proof.
  split; [|vm_compute; reflexivity].
  assert (H : sample_second.1.1 = (HEAP_STATUS_OK, Some (Some (HEAP_BASE + 112))))
    by (vm_compute; reflexivity).
  rewrite <- H. by rewrite <- !pair_eta.
Qed.

(** A heap of one page cut into 255 used blocks. *)
Definition full_table : list block :=
  ((fun i => Block (16 * i) 16 true) <$> seqZ 0 254) ++ [Block 4064 32 true; Block 0 0 false].

Definition full_heap : heap :=
  Heap full_table 255 (HeapState HEAP_BASE HEAP_SIZE 4096 4096 255 255 1 true).

Definition full_memory : mapped_memory :=
  MappedMemory (take_frame 4096 (sample_frames 4096)) {[ page 0 := Translation 0x1000000 PAGING_WRITE 1 ]}.

Lemma full_heap_wf : heap_wf full_heap full_memory.
Proof.
  assert (Hv : validate_table full_table 255 4096 = true) by (vm_compute; reflexivity).
  apply validate_layout in Hv as [Hc Hl]; [|vm_compute; reflexivity| |vm_compute; reflexivity].
  2: { apply Forall_lookup. intros i b Hb. apply lookup_take_Some in Hb as [Hb _].
       apply list_elem_of_lookup_2 in Hb. unfold full_table in Hb.
       apply elem_of_app in Hb as [(j & -> & _)%list_elem_of_fmap | Hb]; [simpl; lia|].
       apply elem_of_cons in Hb as [-> | Hb]; [simpl; lia|].
       apply list_elem_of_singleton in Hb as ->. simpl. lia. }
  split; [constructor|].
  - done.
  - split; [vm_compute; reflexivity|]. split; [exact Hc|reflexivity].
  - exact Hl.
  - vm_compute. discriminate.
  - reflexivity.
  - split; [exact sample_taken_wf|reflexivity].
  - split.
    + intros k Hk. cbn in Hk. assert (k = 0) as -> by lia.
      exists (Translation 0x1000000 PAGING_WRITE 1). split_and!; try reflexivity; by vm_compute.
    + intros j k t u Hj Hk _ _ _. cbn in Hj, Hk. lia.
  - intros k Hk. cbn in Hk. cbn [paging_translate mapped_backend full_memory mm_pages].
    rewrite lookup_singleton_ne; [done|]. intros He%page_inj. lia.
  - split; [vm_compute; reflexivity|]. split; vm_compute; reflexivity.
Qed.


(** ** Witnesses *)

Lemma validate_table_correct_witness : layout HEAP_ALIGNMENT 0 true (take 255 full_table) 4096.
Proof.
  apply (validate_table_correct full_table 255 4096).
  - vm_compute. reflexivity.
  - eapply Forall_impl; [exact (layout_sizes _ _ _ _ (hc_layout _ _ (proj1 full_heap_wf)))|].
    simpl. lia.
  - vm_compute. reflexivity.
  - vm_compute. reflexivity.
Defined.

Lemma heap_allocate_correct_witness : heap_wf sample_first.1.2 sample_first.2.
Proof.
  pose proof (heap_allocate_correct sample_heap sample_memory 100 None sample_heap_wf
    ltac:(done)) as H.
  fold sample_first in H.
  assert (E : sample_first.1.1.1 = HEAP_STATUS_OK) by (vm_compute; reflexivity).
  destruct sample_first as [[[st out] h'] m']. cbn [fst snd] in *. subst st. exact (proj1 H).
Defined.

Lemma heap_free_correct_witness :
  heap_wf (heap_free (Some (HEAP_BASE + 0)) sample_first.1.2).2 sample_first.2.
Proof.
  pose proof (heap_free_correct sample_first.1.2 sample_first.2 (HEAP_BASE + 0) sample_first_wf) as H.
  destruct (heap_free _ _) as [st h']. exact (proj1 H).
Defined.

Lemma heap_allocate_free_roundtrip_witness :
  exists h'', heap_free (Some (HEAP_BASE + 112)) sample_second.1.2 = (HEAP_STATUS_OK, h'') /\
    live h'' = live sample_first.1.2.
Proof.
  destruct (heap_allocate_free_roundtrip sample_first.1.2 sample_first.2 50 None
    (HEAP_BASE + 112) sample_second.1.2 sample_second.2) as (h'' & Hf & Hl & _).
  - exact sample_first_wf.
  - done.
  - exact (proj1 sample_second_result).
  - exact (proj2 sample_second_result).
  - exists h''. split; [exact Hf|exact Hl].
Defined.

Lemma heap_verify_correct_witness : heap_verify full_heap full_memory = HEAP_STATUS_OK.
Proof.
  pose proof full_heap_wf as [H Hs]. pose proof (hc_layout _ _ H) as Hl.
  apply heap_verify_correct.
  - vm_compute. reflexivity.
  - eapply Forall_impl; [exact (layout_sizes _ _ _ _ Hl)|]. simpl. lia.
  - vm_compute. reflexivity.
  - vm_compute. discriminate.
  - pose proof H as [H1 (_ & Hc & _) H3 H4 H5 H6 H7 H8].
    split; [exact H1|]. split; [exact H4|]. split; [exact H5|]. split; [exact Hc|].
    split; [exact H3|]. split; [|split; [|exact Hs]].
    + intros k Hk. apply H8. cbn. lia.
    + intros k Hk. destruct (proj1 H7 k Hk) as (t & A & B & C & _). by exists t.
Defined.

Lemma heap_initialize_correct_witness :
  heap_wf sample_heap sample_memory /\ live sample_heap = [].
Proof.
  pose proof (heap_initialize_correct empty_heap sample_memory sample_backend_ok
    ltac:(by intros k Hk) ltac:(reflexivity)) as H.
  rewrite sample_initialized in H. destruct H as (_ & H & _).
  destruct (H eq_refl) as (Hwf & Hl & _). by split.
Defined.

Lemma heap_reachable_verified_witness :
  heap_verify sample_first.1.2 sample_first.2 = HEAP_STATUS_OK.
Proof.
  apply (heap_reachable_verified empty_heap sample_memory sample_heap).
  - exact sample_backend_ok.
  - by intros k Hk.
  - reflexivity.
  - exact sample_initialized.
  - apply rtc_once. apply (step_allocate _ _ 100 None sample_first.1.1.1 sample_first.1.1.2);
      [done| |vm_compute; discriminate].
    change (sample_first = (sample_first.1.1.1, sample_first.1.1.2, sample_first.1.2, sample_first.2)).
    by rewrite <- !pair_eta.
Defined.
