(* ===== verification/NativeHandle.v ===== *)
(** * Native capability handles ([src/kernel/native_handle.c],
    [include/rsd/native_handle.h])

    A process's table of typed, generation-protected handles: slots that refer
    to reference-counted objects.  A null pointer argument is [None]; the close
    callback is a function of the resource's type, the resource and the caller's
    context. *)

From stdpp Require Import base list numbers relations.
From S2P Require Import Prelude.

Definition NATIVE_HANDLE_LIMIT : nat := 128.
Definition NATIVE_RESOURCE_WORDS : nat := 4.
Definition NATIVE_HANDLE_CLOSE_REPORT_CAPACITY : nat := 32.
Definition RSD_HANDLE_INVALID : Z := 0.
Definition RSD_HANDLE_FILE : Z := 1.
Definition RSD_HANDLE_PACKAGE_CONTROL : Z := 11.
Definition NATIVE_HANDLE_CLOSE_TYPE_COUNT : nat := 12.
Definition HANDLE_INDEX_MASK : Z := 0xFFFF.
Definition HANDLE_TYPE_SHIFT : Z := 16.
Definition HANDLE_RESERVED_SHIFT : Z := 24.
Definition HANDLE_GENERATION_SHIFT : Z := 32.

Inductive native_handle_status :=
  | NATIVE_HANDLE_OK
  | NATIVE_HANDLE_NULL_ARGUMENT
  | NATIVE_HANDLE_BAD_LIMIT
  | NATIVE_HANDLE_BAD_TYPE
  | NATIVE_HANDLE_FULL
  | NATIVE_HANDLE_STALE
  | NATIVE_HANDLE_WRONG_TYPE
  | NATIVE_HANDLE_CLOSE_FAILED.

#[global] Instance native_handle_status_eq_dec : EqDecision native_handle_status.
Proof. solve_decision. Defined.

(** [enum native_resource_close_result]; a callback may return any value. *)
Definition NATIVE_RESOURCE_RETAINED : Z := 0.
Definition NATIVE_RESOURCE_CLOSED : Z := 1.
Definition NATIVE_RESOURCE_CLOSED_WITH_ERROR : Z := 2.

Inductive native_handle_close_outcome :=
  | CLOSE_OUTCOME_CLOSED
  | CLOSE_OUTCOME_CONSUMED_ERROR
  | CLOSE_OUTCOME_RETAINED
  | CLOSE_OUTCOME_DUPLICATE
  | CLOSE_OUTCOME_STALE
  | CLOSE_OUTCOME_INVALID.

#[global] Instance close_outcome_eq_dec : EqDecision native_handle_close_outcome.
Proof. solve_decision. Defined.

(** ** Data *)

Definition native_resource : Type := list Z.

Record native_handle_slot := Slot {
  generation : Z;
  object_index : Z;
  slot_type : Z;
  slot_active : bool
}.

Record native_handle_object := Object {
  resource : native_resource;
  references : Z;
  object_type : Z;
  object_active : bool
}.

Definition zero_slot : native_handle_slot := Slot 0 0 0 false.
Definition zero_object : native_handle_object :=
  Object (replicate NATIVE_RESOURCE_WORDS 0) 0 0 false.

#[global] Instance slot_inhabited : Inhabited native_handle_slot := populate zero_slot.
#[global] Instance object_inhabited : Inhabited native_handle_object := populate zero_object.

Record native_handle_table := Table {
  slots : list native_handle_slot;
  objects : list native_handle_object;
  limit : Z;
  active_handles : Z;
  active_objects : Z;
  initialized : bool
}.

(** The nine counters a report keeps in total and per type. *)
Record close_counters := Counters {
  attempted_handles : Z;
  callback_attempts : Z;
  closed_resources : Z;
  consumed_error_resources : Z;
  retained_resources : Z;
  duplicate_references : Z;
  stale_entries : Z;
  invalid_entries : Z;
  retired_handles : Z
}.

Definition zero_counters : close_counters := Counters 0 0 0 0 0 0 0 0 0.

#[global] Instance counters_inhabited : Inhabited close_counters := populate zero_counters.

Record close_report_entry := ReportEntry {
  entry_handle : Z;
  entry_object_index : Z;
  entry_references : Z;
  entry_type : Z;
  entry_outcome : native_handle_close_outcome
}.

Definition zero_entry : close_report_entry := ReportEntry 0 0 0 0 CLOSE_OUTCOME_CLOSED.

Record native_handle_close_report := Report {
  entries : list close_report_entry;
  totals : close_counters;
  invalid_arguments : Z;
  omitted_entries : Z;
  active_handles_before : Z;
  active_handles_after : Z;
  active_objects_before : Z;
  active_objects_after : Z;
  types : list close_counters;
  report_status : native_handle_status;
  retryable : bool;
  progress : bool;
  truncated : bool
}.

Definition native_handle_close_report_reset : native_handle_close_report :=
  Report (replicate NATIVE_HANDLE_CLOSE_REPORT_CAPACITY zero_entry) zero_counters 0 0 0 0 0 0
    (replicate NATIVE_HANDLE_CLOSE_TYPE_COUNT zero_counters) NATIVE_HANDLE_OK false false false.

(** ** Encoding *)

Definition valid_type (type : Z) : bool :=
  (RSD_HANDLE_FILE <=? type) && (type <=? RSD_HANDLE_PACKAGE_CONTROL).

Definition encode_handle (index type gen : Z) : Z :=
  u64 (gen .<< HANDLE_GENERATION_SHIFT) .| u64 (type .<< HANDLE_TYPE_SHIFT) .| u64 (index + 1).

Definition encoded_index (handle : Z) : Z := handle .& HANDLE_INDEX_MASK.
Definition encoded_type (handle : Z) : Z := u8 (handle .>> HANDLE_TYPE_SHIFT).
Definition encoded_reserved (handle : Z) : Z := u8 (handle .>> HANDLE_RESERVED_SHIFT).
Definition encoded_generation (handle : Z) : Z := u32 (handle .>> HANDLE_GENERATION_SHIFT).

Definition invalid_handle_encoding (table : native_handle_table) (handle : Z) : bool :=
  (handle =? RSD_HANDLE_INVALID) || (encoded_index handle =? 0) ||
  (limit table <? encoded_index handle) || negb (encoded_reserved handle =? 0) ||
  (encoded_generation handle =? 0) || negb (valid_type (encoded_type handle)).

Definition bad_limits (table : native_handle_table) : bool :=
  negb (initialized table) || (limit table =? 0) ||
  (Z.of_nat NATIVE_HANDLE_LIMIT <? limit table).

Definition slot_at (table : native_handle_table) (index : Z) : native_handle_slot :=
  slots table !!! Z.to_nat index.
Definition object_at (table : native_handle_table) (index : Z) : native_handle_object :=
  objects table !!! Z.to_nat index.

(** The index of the slot a handle names, or the refusal. *)
Definition decode_slot (table : option native_handle_table) (handle : Z) :
    native_handle_status + Z :=
  match table with
  | None => inl NATIVE_HANDLE_NULL_ARGUMENT
  | Some table =>
      if bad_limits table || invalid_handle_encoding table handle then inl NATIVE_HANDLE_STALE
      else
        let index := encoded_index handle - 1 in
        let slot := slot_at table index in
        if negb (slot_active slot) || negb (generation slot =? encoded_generation handle) ||
           negb (slot_type slot =? encoded_type handle) then inl NATIVE_HANDLE_STALE
        else inr index
  end.

(** ** Table updates *)

Definition set_slot (index : Z) (slot : native_handle_slot) (t : native_handle_table) :
    native_handle_table :=
  Table (<[Z.to_nat index := slot]> (slots t)) (objects t) (limit t) (active_handles t)
    (active_objects t) (initialized t).

Definition set_object (index : Z) (object : native_handle_object) (t : native_handle_table) :
    native_handle_table :=
  Table (slots t) (<[Z.to_nat index := object]> (objects t)) (limit t) (active_handles t)
    (active_objects t) (initialized t).

Definition count_handles (d : Z) (t : native_handle_table) : native_handle_table :=
  Table (slots t) (objects t) (limit t) (u16 (active_handles t + d)) (active_objects t)
    (initialized t).

Definition count_objects (d : Z) (t : native_handle_table) : native_handle_table :=
  Table (slots t) (objects t) (limit t) (active_handles t) (u16 (active_objects t + d))
    (initialized t).

Definition live_slots (t : native_handle_table) : list native_handle_slot :=
  take (Z.to_nat (limit t)) (slots t).
Definition live_objects (t : native_handle_table) : list native_handle_object :=
  take (Z.to_nat (limit t)) (objects t).

Definition free_slot (t : native_handle_table) : option Z :=
  Z.of_nat <$> first_index (fun s => negb (slot_active s)) (live_slots t).
Definition free_object (t : native_handle_table) : option Z :=
  Z.of_nat <$> first_index (fun o => negb (object_active o)) (live_objects t).

(** ** Operations *)

Definition native_handle_table_initialize (table : option native_handle_table) (lim : Z) :
    native_handle_status * option native_handle_table :=
  match table with
  | None => (NATIVE_HANDLE_NULL_ARGUMENT, None)
  | Some t =>
      if (lim =? 0) || (Z.of_nat NATIVE_HANDLE_LIMIT <? lim) then (NATIVE_HANDLE_BAD_LIMIT, Some t)
      else
        (NATIVE_HANDLE_OK,
         Some (Table
           (imap (fun i s => if Z.of_nat i <? lim
                             then Slot 1 (object_index s) (slot_type s) (slot_active s) else s)
              (replicate NATIVE_HANDLE_LIMIT zero_slot))
           (replicate NATIVE_HANDLE_LIMIT zero_object) lim 0 0 true))
  end.

(** Results carry the stored handle and the table afterwards. *)
Definition native_handle_install (table : option native_handle_table) (type : Z)
    (res : option native_resource) (handle : option Z) :
    native_handle_status * option Z * option native_handle_table :=
  match table, res, handle with
  | Some t, Some res, Some _ =>
      let refuse status := (status, Some RSD_HANDLE_INVALID, Some t) in
      if negb (initialized t) then refuse NATIVE_HANDLE_BAD_LIMIT
      else if negb (valid_type type) then refuse NATIVE_HANDLE_BAD_TYPE
      else
        match free_slot t, free_object t with
        | Some slot_index, Some object_index =>
            let gen := generation (slot_at t slot_index) in
            let t := set_object object_index (Object res 1 type true) t in
            let t := set_slot slot_index (Slot gen (u16 object_index) type true) t in
            let t := count_objects 1 (count_handles 1 t) in
            (NATIVE_HANDLE_OK, Some (encode_handle slot_index type gen), Some t)
        | _, _ => refuse NATIVE_HANDLE_FULL
        end
  | _, _, _ => (NATIVE_HANDLE_NULL_ARGUMENT, handle, table)
  end.

(** The result's second component is what [*resource] refers to: the index of
    the object whose resource it points into, [None] for [NULL]. *)
Definition native_handle_resolve (table : option native_handle_table) (handle expected_type : Z)
    (out : option (option Z)) : native_handle_status * option (option Z) :=
  match out with
  | None => (NATIVE_HANDLE_NULL_ARGUMENT, None)
  | Some _ =>
      match decode_slot table handle, table with
      | inr index, Some t =>
          let slot := slot_at t index in
          if negb (expected_type =? 0) && negb (slot_type slot =? expected_type) then
            (NATIVE_HANDLE_WRONG_TYPE, Some None)
          else if limit t <=? object_index slot then (NATIVE_HANDLE_STALE, Some None)
          else
            let object := object_at t (object_index slot) in
            if negb (object_active object) || (references object =? 0) ||
               negb (object_type object =? slot_type slot) then
              (NATIVE_HANDLE_STALE, Some None)
            else (NATIVE_HANDLE_OK, Some (Some (object_index slot)))
      | inl status, _ => (status, Some None)
      | _, None => (NATIVE_HANDLE_NULL_ARGUMENT, Some None)
      end
  end.

Definition native_handle_duplicate (table : option native_handle_table) (source : Z)
    (duplicate : option Z) : native_handle_status * option Z * option native_handle_table :=
  match duplicate with
  | None => (NATIVE_HANDLE_NULL_ARGUMENT, None, table)
  | Some _ =>
      let refuse status := (status, Some RSD_HANDLE_INVALID, table) in
      match decode_slot table source, table with
      | inr source_index, Some t =>
          match free_slot t with
          | None => refuse NATIVE_HANDLE_FULL
          | Some target =>
              if limit t <=? active_handles t then refuse NATIVE_HANDLE_FULL
              else
                let slot := slot_at t source_index in
                let object := object_at t (object_index slot) in
                if negb (object_active object) || (references object =? UINT16_MAX) then
                  refuse NATIVE_HANDLE_STALE
                else
                  let gen := generation (slot_at t target) in
                  let t := set_object (object_index slot)
                    (Object (resource object) (u16 (references object + 1))
                       (object_type object) (object_active object)) t in
                  let t := set_slot target
                    (Slot gen (object_index slot) (slot_type slot) true) t in
                  (NATIVE_HANDLE_OK, Some (encode_handle target (slot_type slot) gen),
                   Some (count_handles 1 t))
          end
      | inl status, _ => refuse status
      | _, None => refuse NATIVE_HANDLE_NULL_ARGUMENT
      end
  end.

Definition valid_slot_object (t : native_handle_table) (slot : native_handle_slot) : bool :=
  if limit t <=? object_index slot then false
  else
    let candidate := object_at t (object_index slot) in
    if negb (object_active candidate) || (references candidate =? 0) ||
       negb (object_type candidate =? slot_type slot) then false
    else true.

(** [retire_slot] on the slot at [index] and the object it refers to. *)
Definition retire_slot (index : Z) (t : native_handle_table) : native_handle_table :=
  let slot := slot_at t index in
  let object := object_at t (object_index slot) in
  let gen := u32 (generation slot + 1) in
  let t := set_slot index (Slot (if gen =? 0 then 1 else gen) 0 0 false) t in
  let t := count_handles (-1) t in
  let refs := u16 (references object - 1) in
  if refs =? 0 then count_objects (-1) (set_object (object_index slot) zero_object t)
  else
    set_object (object_index slot)
      (Object (resource object) refs (object_type object) (object_active object)) t.

(** ** Reports *)

Definition bump_outcome (outcome : native_handle_close_outcome) (c : close_counters) :
    close_counters :=
  let 'Counters att cb cl ce re du st inv ret := c in
  match outcome with
  | CLOSE_OUTCOME_CLOSED => Counters att cb (u16 (cl + 1)) ce re du st inv ret
  | CLOSE_OUTCOME_CONSUMED_ERROR => Counters att cb cl (u16 (ce + 1)) re du st inv ret
  | CLOSE_OUTCOME_RETAINED => Counters att cb cl ce (u16 (re + 1)) du st inv ret
  | CLOSE_OUTCOME_DUPLICATE => Counters att cb cl ce re (u16 (du + 1)) st inv ret
  | CLOSE_OUTCOME_STALE => Counters att cb cl ce re du (u16 (st + 1)) inv ret
  | CLOSE_OUTCOME_INVALID => Counters att cb cl ce re du st (u16 (inv + 1)) ret
  end.

Definition bump_attempted (c : close_counters) : close_counters :=
  let 'Counters att cb cl ce re du st inv ret := c in
  Counters (u16 (att + 1)) cb cl ce re du st inv ret.

Definition bump_callback (c : close_counters) : close_counters :=
  let 'Counters att cb cl ce re du st inv ret := c in
  Counters att (u16 (cb + 1)) cl ce re du st inv ret.

Definition bump_retired (c : close_counters) : close_counters :=
  let 'Counters att cb cl ce re du st inv ret := c in
  Counters att cb cl ce re du st inv (u16 (ret + 1)).

(** Apply [f] to the totals and, for a valid type, to the type's summary. *)
Definition bump (f : close_counters -> close_counters) (type : Z)
    (r : native_handle_close_report) : native_handle_close_report :=
  Report (entries r) (f (totals r)) (invalid_arguments r) (omitted_entries r)
    (active_handles_before r) (active_handles_after r) (active_objects_before r)
    (active_objects_after r)
    (if valid_type type then <[Z.to_nat type := f (types r !!! Z.to_nat type)]> (types r)
     else types r)
    (report_status r) (retryable r) (progress r) (truncated r).

Definition report_record (handle type obj refs : Z) (outcome : native_handle_close_outcome)
    (retired : bool) (r : native_handle_close_report) : native_handle_close_report :=
  let entry_index := attempted_handles (totals r) in
  let r := bump bump_attempted type r in
  let r := bump (bump_outcome outcome) type r in
  let r := if retired then bump bump_retired type r else r in
  if entry_index <? Z.of_nat NATIVE_HANDLE_CLOSE_REPORT_CAPACITY then
    Report (<[Z.to_nat entry_index := ReportEntry handle obj refs type outcome]> (entries r))
      (totals r)
      (invalid_arguments r) (omitted_entries r) (active_handles_before r)
      (active_handles_after r) (active_objects_before r) (active_objects_after r) (types r)
      (report_status r) (retryable r) (progress r) (truncated r)
  else
    Report (entries r) (totals r) (invalid_arguments r) (u16 (omitted_entries r + 1))
      (active_handles_before r) (active_handles_after r) (active_objects_before r)
      (active_objects_after r) (types r) (report_status r) (retryable r) (progress r) true.

Definition report_arguments (status : native_handle_status) (r : native_handle_close_report) :
    native_handle_close_report :=
  Report (entries r) (totals r) (u16 (invalid_arguments r + 1)) (omitted_entries r)
    (active_handles_before r) (active_handles_after r) (active_objects_before r)
    (active_objects_after r) (types r) status (retryable r) (progress r) (truncated r).

Definition report_before (t : native_handle_table) (r : native_handle_close_report) :
    native_handle_close_report :=
  Report (entries r) (totals r) (invalid_arguments r) (omitted_entries r)
    (active_handles t) (active_handles_after r) (active_objects t)
    (active_objects_after r) (types r) (report_status r) (retryable r) (progress r) (truncated r).

Definition report_after (t : native_handle_table) (status : native_handle_status)
    (again forward : bool) (r : native_handle_close_report) : native_handle_close_report :=
  Report (entries r) (totals r) (invalid_arguments r) (omitted_entries r)
    (active_handles_before r) (active_handles t) (active_objects_before r)
    (active_objects t) (types r) status again forward (truncated r).

(** ** Closing *)

Section Close.
Context {C : Type}.

(** [native_handle_close_fn] with its context. *)
Definition close_fn : Type := Z -> native_resource -> C -> Z * C.

Definition close_valid_slot (slot_index : Z) (close_resource : option close_fn) (context : C)
    (report : option native_handle_close_report) (t : native_handle_table) :
    native_handle_status * C * option native_handle_close_report * native_handle_table :=
  let slot := slot_at t slot_index in
  let object := object_at t (object_index slot) in
  let handle := encode_handle slot_index (slot_type slot) (generation slot) in
  let type := object_type object in
  let refs := references object in
  let record outcome retired r :=
    report_record handle type (object_index slot) refs outcome retired <$> r in
  if 1 <? refs then
    (NATIVE_HANDLE_OK, context, record CLOSE_OUTCOME_DUPLICATE true report,
     retire_slot slot_index t)
  else
    let '(closed, context, report) :=
      match close_resource with
      | Some f =>
          let '(closed, context) := f type (resource object) context in
          (closed, context, bump bump_callback type <$> report)
      | None => (NATIVE_RESOURCE_CLOSED, context, report)
      end in
    if closed =? NATIVE_RESOURCE_RETAINED then
      (NATIVE_HANDLE_CLOSE_FAILED, context, record CLOSE_OUTCOME_RETAINED false report, t)
    else if negb (closed =? NATIVE_RESOURCE_CLOSED) &&
            negb (closed =? NATIVE_RESOURCE_CLOSED_WITH_ERROR) then
      (NATIVE_HANDLE_CLOSE_FAILED, context, record CLOSE_OUTCOME_RETAINED false report, t)
    else
      (if closed =? NATIVE_RESOURCE_CLOSED_WITH_ERROR then NATIVE_HANDLE_CLOSE_FAILED
       else NATIVE_HANDLE_OK, context,
       record (if closed =? NATIVE_RESOURCE_CLOSED then CLOSE_OUTCOME_CLOSED
               else CLOSE_OUTCOME_CONSUMED_ERROR) true report,
       retire_slot slot_index t).

Definition native_handle_close (table : option native_handle_table) (handle : Z)
    (close_resource : option close_fn) (context : C) :
    native_handle_status * C * option native_handle_table :=
  match decode_slot table handle, table with
  | inr index, Some t =>
      if negb (valid_slot_object t (slot_at t index)) then
        (NATIVE_HANDLE_STALE, context, table)
      else
        let '(status, context, _, t) :=
          close_valid_slot index close_resource context None t in
        (status, context, Some t)
  | inl status, _ => (status, context, table)
  | _, None => (NATIVE_HANDLE_NULL_ARGUMENT, context, table)
  end.

(** The outcome a refused slot is reported with. *)
Definition broken_outcome (t : native_handle_table) (slot : native_handle_slot) :
    native_handle_close_outcome :=
  if limit t <=? object_index slot then CLOSE_OUTCOME_INVALID else CLOSE_OUTCOME_STALE.
Definition broken_references (t : native_handle_table) (slot : native_handle_slot) : Z :=
  if object_index slot <? limit t then references (object_at t (object_index slot)) else 0.

Definition native_handle_close_with_report (table : option native_handle_table) (handle : Z)
    (close_resource : option close_fn) (context : C)
    (report : option native_handle_close_report) :
    native_handle_status * C * option native_handle_close_report *
    option native_handle_table :=
  match report with
  | None => (NATIVE_HANDLE_NULL_ARGUMENT, context, None, table)
  | Some _ =>
      let report := native_handle_close_report_reset in
      match table with
      | None =>
          (NATIVE_HANDLE_NULL_ARGUMENT, context,
           Some (report_arguments NATIVE_HANDLE_NULL_ARGUMENT report), None)
      | Some t =>
          if bad_limits t then
            (NATIVE_HANDLE_BAD_LIMIT, context,
             Some (report_arguments NATIVE_HANDLE_BAD_LIMIT report), Some t)
          else
            let report := report_before t report in
            let refuse status report :=
              (status, context, Some (report_after t status false false report), Some t) in
            match decode_slot (Some t) handle with
            | inl status =>
                refuse status
                  (report_record handle (encoded_type handle) UINT16_MAX 0
                     (if invalid_handle_encoding t handle then CLOSE_OUTCOME_INVALID
                      else CLOSE_OUTCOME_STALE) false report)
            | inr index =>
                let slot := slot_at t index in
                if (generation slot =? 0) || negb (valid_type (slot_type slot)) then
                  refuse NATIVE_HANDLE_STALE
                    (report_record handle (slot_type slot) (object_index slot) 0
                       CLOSE_OUTCOME_INVALID false report)
                else if negb (valid_slot_object t slot) then
                  refuse NATIVE_HANDLE_STALE
                    (report_record handle (slot_type slot) (object_index slot)
                       (broken_references t slot) (broken_outcome t slot) false report)
                else
                  let '(status, context, report, t) :=
                    close_valid_slot index close_resource context (Some report) t in
                  (status, context,
                   (fun r => report_after t status
                      (negb (retained_resources (totals r) =? 0))
                      (negb (retired_handles (totals r) =? 0)) r) <$> report, Some t)
            end
      end
  end.

(** One iteration of [close_all_impl]'s loop, on the slot at [index]. *)
Definition close_all_slot (index : Z) (close_resource : option close_fn)
    (acc : bool * C * option native_handle_close_report * native_handle_table) :
    bool * C * option native_handle_close_report * native_handle_table :=
  let '(failed, context, report, t) := acc in
  let slot := slot_at t index in
  let handle := encode_handle index (slot_type slot) (generation slot) in
  if negb (slot_active slot) then acc
  else if (generation slot =? 0) || negb (valid_type (slot_type slot)) then
    (true, context,
     report_record handle (slot_type slot) (object_index slot) 0 CLOSE_OUTCOME_INVALID false
       <$> report, t)
  else if negb (valid_slot_object t slot) then
    (true, context,
     report_record handle (slot_type slot) (object_index slot) (broken_references t slot)
       (broken_outcome t slot) false <$> report, t)
  else
    let '(status, context, report, t) := close_valid_slot index close_resource context report t in
    (failed || bool_decide (status <> NATIVE_HANDLE_OK), context, report, t).

Fixpoint close_all_run (n : nat) (index : Z) (close_resource : option close_fn)
    (acc : bool * C * option native_handle_close_report * native_handle_table) :
    bool * C * option native_handle_close_report * native_handle_table :=
  match n with
  | O => acc
  | S n => close_all_run n (index + 1) close_resource (close_all_slot index close_resource acc)
  end.

Definition close_all_impl (table : option native_handle_table)
    (close_resource : option close_fn) (context : C)
    (report : option native_handle_close_report) :
    native_handle_status * C * option native_handle_close_report *
    option native_handle_table :=
  let report := (fun _ => native_handle_close_report_reset) <$> report in
  match table with
  | None =>
      (NATIVE_HANDLE_NULL_ARGUMENT, context,
       report_arguments NATIVE_HANDLE_NULL_ARGUMENT <$> report, None)
  | Some t =>
      if bad_limits t then
        (NATIVE_HANDLE_BAD_LIMIT, context,
         report_arguments NATIVE_HANDLE_BAD_LIMIT <$> report, Some t)
      else
        let '(failed, context, report, t) :=
          close_all_run (Z.to_nat (limit t)) 0 close_resource
            (false, context, report_before t <$> report, t) in
        let status := if failed : bool then NATIVE_HANDLE_CLOSE_FAILED else NATIVE_HANDLE_OK in
        (status, context,
         (fun r => report_after t status (negb (retained_resources (totals r) =? 0))
            (negb (retired_handles (totals r) =? 0)) r) <$> report, Some t)
  end.

Definition native_handle_close_all (table : option native_handle_table)
    (close_resource : option close_fn) (context : C) :
    native_handle_status * C * option native_handle_table :=
  let '(status, context, _, table) := close_all_impl table close_resource context None in
  (status, context, table).

Definition native_handle_close_all_diagnostics (table : option native_handle_table)
    (close_resource : option close_fn) (context : C)
    (report : option native_handle_close_report) :
    native_handle_status * C * option native_handle_close_report *
    option native_handle_table :=
  match report with
  | None => (NATIVE_HANDLE_NULL_ARGUMENT, context, None, table)
  | Some _ => close_all_impl table close_resource context report
  end.

Definition native_handle_close_all_report (table : option native_handle_table)
    (close_resource : option close_fn) (context : C) (again : option bool) :
    native_handle_status * C * option bool * option native_handle_table :=
  match again with
  | None => (NATIVE_HANDLE_NULL_ARGUMENT, context, None, table)
  | Some _ =>
      let '(status, context, report, table) :=
        native_handle_close_all_diagnostics table close_resource context
          (Some native_handle_close_report_reset) in
      (status, context, Some (from_option retryable false report), table)
  end.
End Close.
Arguments close_fn : clear implicits.

(** ** Encoding laws *)

Lemma encode_handle_sum i ty g :
  0 <= i < 2 ^ 16 - 1 -> fits 8 ty -> fits 32 g ->
  encode_handle i ty g = g * 2 ^ 32 + (ty * 2 ^ 16 + (i + 1)).
Proof.
  unfold fits. intros Hi Ht Hg. unfold encode_handle.
  rewrite !Z.shiftl_mul_pow2 by done. unfold HANDLE_GENERATION_SHIFT, HANDLE_TYPE_SHIFT.
  rewrite !wrap_small by (unfold fits; lia).
  rewrite <- Z.lor_assoc, <- !Z.shiftl_mul_pow2 by done.
  rewrite (lor_shift_add ty) by (unfold fits; lia).
  rewrite lor_shift_add by (unfold fits; lia). by rewrite !Z.shiftl_mul_pow2.
Qed.

Lemma encoded_fields h :
  encoded_index h = h mod 2 ^ 16 /\ encoded_type h = (h / 2 ^ 16) mod 2 ^ 8 /\
  encoded_reserved h = (h / 2 ^ 24) mod 2 ^ 8 /\ encoded_generation h = (h / 2 ^ 32) mod 2 ^ 32.
Proof.
  unfold encoded_index, encoded_type, encoded_reserved, encoded_generation, wrap.
  change HANDLE_INDEX_MASK with (2 ^ 16 - 1). rewrite land_mask by done.
  by rewrite !Z.shiftr_div_pow2.
Qed.

Lemma decode_encode i ty g :
  0 <= i < 2 ^ 16 - 1 -> fits 8 ty -> fits 32 g ->
  let h := encode_handle i ty g in
  fits 64 h /\ encoded_index h = i + 1 /\ encoded_type h = ty /\ encoded_reserved h = 0 /\
  encoded_generation h = g.
Proof.
  intros Hi Ht Hg h. destruct (encoded_fields h) as (-> & -> & -> & ->). subst h.
  rewrite encode_handle_sum by done. unfold fits in *. change (2 ^ 16) with 65536 in *.
  change (2 ^ 24) with 16777216. change (2 ^ 32) with 4294967296 in *. change (2 ^ 8) with 256 in *.
  change (2 ^ 64) with 18446744073709551616. split; [lia|].
  rewrite !Z.mod_eq, !Z.div_div by lia. change (65536 * 256) with 16777216.
  change (16777216 * 256) with 4294967296.
  split_and!; Z.to_euclidean_division_equations; lia.
Qed.

Lemma encode_decode h :
  fits 64 h -> encoded_reserved h = 0 -> 0 < encoded_index h < 2 ^ 16 ->
  encode_handle (encoded_index h - 1) (encoded_type h) (encoded_generation h) = h.
Proof.
  destruct (encoded_fields h) as (-> & -> & -> & ->). unfold fits. intros Hh Hr Hi.
  rewrite encode_handle_sum.
  - change (2 ^ 16) with 65536 in *.
    change (2 ^ 24) with 16777216 in *. change (2 ^ 32) with 4294967296 in *.
    change (2 ^ 8) with 256 in *. change (2 ^ 64) with 18446744073709551616 in *.
    Z.to_euclidean_division_equations; lia.
  - lia.
  - apply Z.mod_pos_bound. done.
  - apply Z.mod_pos_bound. done.
Qed.

(** ** Invariant *)

Definition refers (j : Z) (s : native_handle_slot) : bool :=
  slot_active s && (object_index s =? j).

Record table_wf (t : native_handle_table) : Prop := TableWf {
  tw_initialized : initialized t = true;
  tw_limit : 0 < limit t <= 128;
  tw_slots : length (slots t) = NATIVE_HANDLE_LIMIT;
  tw_objects : length (objects t) = NATIVE_HANDLE_LIMIT;
  tw_generation : forall i, 0 <= i < limit t -> 0 < generation (slot_at t i) < 2 ^ 32;
  tw_slot : forall i, 0 <= i < limit t -> slot_active (slot_at t i) = true ->
    let s := slot_at t i in
    0 <= object_index s < limit t /\ object_active (object_at t (object_index s)) = true /\
    object_type (object_at t (object_index s)) = slot_type s /\ valid_type (slot_type s) = true;
  tw_references : forall j, 0 <= j < limit t -> object_active (object_at t j) = true ->
    references (object_at t j) = countb (refers j) (live_slots t) /\
    0 < references (object_at t j);
  tw_handles : active_handles t = countb slot_active (live_slots t);
  tw_actives : active_objects t = countb object_active (live_objects t)
}.

(** The object a live handle refers to. *)
Definition handle_object (t : native_handle_table) (h : Z) : option Z :=
  match decode_slot (Some t) h with
  | inr i => Some (object_index (slot_at t i))
  | inl _ => None
  end.

Definition slot_handle (t : native_handle_table) (i : Z) : Z :=
  encode_handle i (slot_type (slot_at t i)) (generation (slot_at t i)).

Lemma valid_type_fits ty : valid_type ty = true -> fits 8 ty.
Proof.
  unfold valid_type, RSD_HANDLE_FILE, RSD_HANDLE_PACKAGE_CONTROL, fits.
  intros [? ?]%andb_true_iff. lia.
Qed.

(** *** Reading updated tables *)

Section Updates.
Implicit Types (t : native_handle_table) (i j : Z).

Lemma slot_at_set t i j s :
  0 <= i < Z.of_nat (length (slots t)) -> 0 <= j ->
  slot_at (set_slot i s t) j = if decide (i = j) then s else slot_at t j.
Proof.
  intros Hi Hj. unfold slot_at. simpl. case_decide as E; [subst j|].
  - apply list_lookup_total_insert_eq. lia.
  - apply list_lookup_total_insert_ne. lia.
Qed.

Lemma object_at_set t i j o :
  0 <= i < Z.of_nat (length (objects t)) -> 0 <= j ->
  object_at (set_object i o t) j = if decide (i = j) then o else object_at t j.
Proof.
  intros Hi Hj. unfold object_at. simpl. case_decide as E; [subst j|].
  - apply list_lookup_total_insert_eq. lia.
  - apply list_lookup_total_insert_ne. lia.
Qed.

Lemma live_slots_set t i s :
  0 <= i < limit t -> live_slots (set_slot i s t) = <[Z.to_nat i := s]> (live_slots t).
Proof. intros Hi. unfold live_slots. simpl. apply take_insert_lt. lia. Qed.

Lemma live_objects_set t i o :
  0 <= i < limit t -> live_objects (set_object i o t) = <[Z.to_nat i := o]> (live_objects t).
Proof. intros Hi. unfold live_objects. simpl. apply take_insert_lt. lia. Qed.

Lemma live_slot t i :
  0 <= i < limit t -> limit t <= Z.of_nat (length (slots t)) ->
  live_slots t !! Z.to_nat i = Some (slot_at t i).
Proof.
  intros Hi Hl. unfold live_slots, slot_at. rewrite lookup_take_lt by lia.
  apply list_lookup_lookup_total_lt. lia.
Qed.

Lemma live_object t i :
  0 <= i < limit t -> limit t <= Z.of_nat (length (objects t)) ->
  live_objects t !! Z.to_nat i = Some (object_at t i).
Proof.
  intros Hi Hl. unfold live_objects, object_at. rewrite lookup_take_lt by lia.
  apply list_lookup_lookup_total_lt. lia.
Qed.

Lemma live_slot_inv t k s :
  live_slots t !! k = Some s -> 0 <= Z.of_nat k < limit t /\ slot_at t (Z.of_nat k) = s.
Proof.
  unfold live_slots. intros [Hk Hlt]%lookup_take_Some. split; [lia|].
  unfold slot_at. rewrite Nat2Z.id. by apply list_lookup_total_correct.
Qed.

Lemma live_object_inv t k o :
  live_objects t !! k = Some o -> 0 <= Z.of_nat k < limit t /\ object_at t (Z.of_nat k) = o.
Proof.
  unfold live_objects. intros [Hk Hlt]%lookup_take_Some. split; [lia|].
  unfold object_at. rewrite Nat2Z.id. by apply list_lookup_total_correct.
Qed.
End Updates.

Section WellFormed.
Context (t : native_handle_table) (Hwf : table_wf t).

Lemma wf_lengths : limit t <= Z.of_nat (length (slots t)) /\
  limit t <= Z.of_nat (length (objects t)).
Proof.
  pose proof (tw_limit t Hwf). rewrite (tw_slots t Hwf), (tw_objects t Hwf).
  unfold NATIVE_HANDLE_LIMIT. lia.
Qed.

Lemma wf_live_length : length (live_slots t) = Z.to_nat (limit t) /\
  length (live_objects t) = Z.to_nat (limit t).
Proof.
  pose proof wf_lengths. pose proof (tw_limit t Hwf).
  unfold live_slots, live_objects. rewrite !length_take. lia.
Qed.

Lemma wf_limits : bad_limits t = false.
Proof.
  pose proof (tw_limit t Hwf). unfold bad_limits. rewrite (tw_initialized t Hwf). simpl.
  apply orb_false_iff. change (Z.of_nat NATIVE_HANDLE_LIMIT) with 128. lia.
Qed.

Lemma wf_slot_handle i :
  0 <= i < limit t -> slot_active (slot_at t i) = true ->
  let h := slot_handle t i in
  fits 64 h /\ encoded_index h = i + 1 /\ encoded_type h = slot_type (slot_at t i) /\
  encoded_reserved h = 0 /\ encoded_generation h = generation (slot_at t i).
Proof.
  intros Hi Ha. pose proof (tw_limit t Hwf). apply decode_encode; [lia| |].
  - by apply valid_type_fits, (tw_slot t Hwf).
  - pose proof (tw_generation t Hwf i Hi). unfold fits. lia.
Qed.

(** A handle decodes to slot [i] exactly when slot [i] is active and the handle
    is the one slot [i] would be given out under. *)
Lemma decode_slot_iff h i :
  fits 64 h ->
  decode_slot (Some t) h = inr i <->
  0 <= i < limit t /\ slot_active (slot_at t i) = true /\ h = slot_handle t i.
Proof.
  intros Hh. pose proof (tw_limit t Hwf) as Hlim. unfold decode_slot. rewrite wf_limits.
  split.
  - unfold invalid_handle_encoding.
    assert (0 <= encoded_index h < 2 ^ 16).
    { destruct (encoded_fields h) as (-> & _). apply Z.mod_pos_bound. done. }
    destruct (h =? RSD_HANDLE_INVALID); [done|].
    destruct (Z.eqb_spec (encoded_index h) 0); [done|].
    destruct (Z.ltb_spec (limit t) (encoded_index h)); [done|].
    destruct (Z.eqb_spec (encoded_reserved h) 0) as [Hr|]; [|done].
    destruct (encoded_generation h =? 0); [done|].
    destruct (valid_type (encoded_type h)) eqn:Hv; [|done]. cbn [orb negb].
    set (s := slot_at t (encoded_index h - 1)).
    destruct (slot_active s) eqn:Ha; [|done].
    destruct (Z.eqb_spec (generation s) (encoded_generation h)) as [Hg|]; [|done].
    destruct (Z.eqb_spec (slot_type s) (encoded_type h)) as [Ht|]; [|done]. simpl.
    intros [= <-]. split; [lia|]. split; [done|]. unfold slot_handle. fold s.
    rewrite Hg, Ht. symmetry. apply encode_decode; [done|done|lia].
  - intros (Hi & Ha & ->). destruct (wf_slot_handle i Hi Ha) as (_ & Hidx & Hty & Hr & Hg).
    pose proof (tw_generation t Hwf i Hi). destruct (tw_slot t Hwf i Hi Ha) as (_ & _ & _ & Hv).
    unfold invalid_handle_encoding. rewrite Hidx, Hty, Hr, Hg, Hv.
    replace (i + 1 - 1) with i by lia.
    destruct (Z.eqb_spec (slot_handle t i) RSD_HANDLE_INVALID) as [E|].
    { unfold RSD_HANDLE_INVALID in E. rewrite E in Hidx. change (encoded_index 0) with 0 in Hidx. lia. }
    destruct (Z.eqb_spec (i + 1) 0); [lia|]. destruct (Z.ltb_spec (limit t) (i + 1)); [lia|].
    destruct (Z.eqb_spec (generation (slot_at t i)) 0); [lia|]. cbn [orb negb Z.eqb].
    by rewrite Ha, !Z.eqb_refl.
Qed.

Lemma decode_slot_stale h s : decode_slot (Some t) h = inl s -> s = NATIVE_HANDLE_STALE.
Proof.
  unfold decode_slot. destruct (_ || _); [congruence|]. destruct (_ || _); congruence.
Qed.

Lemma handle_object_iff h j :
  fits 64 h ->
  handle_object t h = Some j <->
  exists i, 0 <= i < limit t /\ slot_active (slot_at t i) = true /\ h = slot_handle t i /\
    j = object_index (slot_at t i).
Proof.
  intros Hh. unfold handle_object. destruct (decode_slot (Some t) h) as [st|i] eqn:E.
  - split; [done|]. intros (i & Hi & Ha & He & _).
    rewrite (proj2 (decode_slot_iff h i Hh)) in E by done. done.
  - apply decode_slot_iff in E as (Hi & Ha & He); [|done]. split.
    + intros [= <-]. by exists i.
    + intros (k & Hk & Hka & Hke & ->). do 2 f_equal. f_equal.
      destruct (wf_slot_handle i Hi Ha) as (_ & Hi1 & _).
      destruct (wf_slot_handle k Hk Hka) as (_ & Hk1 & _). rewrite <- He in Hi1.
      rewrite <- Hke in Hk1. lia.
Qed.

Lemma slot_handle_inj i k :
  0 <= i < limit t -> slot_active (slot_at t i) = true ->
  0 <= k < limit t -> slot_active (slot_at t k) = true ->
  slot_handle t i = slot_handle t k -> i = k.
Proof.
  intros Hi Ha Hk Hka E. destruct (wf_slot_handle i Hi Ha) as (_ & Hi1 & _).
  destruct (wf_slot_handle k Hk Hka) as (_ & Hk1 & _). rewrite E in Hi1. lia.
Qed.

(** A live handle's object is active, of the slot's type and referenced. *)
Lemma handle_object_active h j :
  fits 64 h -> handle_object t h = Some j ->
  0 <= j < limit t /\ object_active (object_at t j) = true /\ 0 < references (object_at t j).
Proof.
  intros Hh (i & Hi & Ha & -> & ->)%handle_object_iff; [|done].
  destruct (tw_slot t Hwf i Hi Ha) as (Hj & Hact & _). split; [done|]. split; [done|].
  by apply (tw_references t Hwf).
Qed.
End WellFormed.

(** *** Taking a slot *)

(** Slot [k] made to refer to object [j], whose new contents are [o]. *)
Definition activate (k j : Z) (o : native_handle_object) (d : Z) (t : native_handle_table) :
    native_handle_table :=
  count_objects d (count_handles 1
    (set_slot k (Slot (generation (slot_at t k)) j (object_type o) true) (set_object j o t))).

Lemma countb_refers_none t j :
  table_wf t -> 0 <= j -> object_active (object_at t j) = false ->
  countb (refers j) (live_slots t) = 0.
Proof.
  intros Hwf Hj Ho. apply countb_zero. intros i s Hi. unfold refers.
  destruct (slot_active s) eqn:Ha; [|done]. simpl. apply Z.eqb_neq. intros <-.
  apply live_slot_inv in Hi as [Hi <-]. destruct (tw_slot t Hwf _ Hi Ha) as (_ & Hact & _).
  congruence.
Qed.

Lemma wf_counts t :
  table_wf t -> 0 <= active_handles t <= limit t /\ 0 <= active_objects t <= limit t.
Proof.
  intros Hwf. rewrite (tw_handles t Hwf), (tw_actives t Hwf).
  destruct (wf_live_length t Hwf) as [H1 H2]. pose proof (tw_limit t Hwf).
  pose proof (countb_bounds slot_active (live_slots t)).
  pose proof (countb_bounds object_active (live_objects t)). lia.
Qed.

Lemma wf_count_refs t j :
  table_wf t -> 0 <= countb (refers j) (live_slots t) <= limit t.
Proof.
  intros Hwf. destruct (wf_live_length t Hwf) as [H1 _]. pose proof (tw_limit t Hwf).
  pose proof (countb_bounds (refers j) (live_slots t)). lia.
Qed.

(** What [activate] needs of its arguments. *)
Record activation (t : native_handle_table) (k j : Z) (o : native_handle_object) (d : Z) : Prop := {
  ac_slot : 0 <= k < limit t;
  ac_free : slot_active (slot_at t k) = false;
  ac_object : 0 <= j < limit t;
  ac_active : object_active o = true;
  ac_type : valid_type (object_type o) = true;
  ac_same : object_active (object_at t j) = true -> object_type (object_at t j) = object_type o;
  ac_refs : references o = countb (refers j) (live_slots t) + 1;
  ac_count : d = if object_active (object_at t j) then 0 else 1
}.

Lemma activate_slots t k j o d :
  table_wf t -> activation t k j o d ->
  (forall i, 0 <= i -> slot_at (activate k j o d t) i =
     if decide (k = i) then Slot (generation (slot_at t k)) j (object_type o) true
     else slot_at t i) /\
  (forall i, 0 <= i -> object_at (activate k j o d t) i =
     if decide (j = i) then o else object_at t i).
Proof.
  intros Hwf [Hk _ Hj]. destruct (wf_lengths t Hwf) as [L1 L2]. split; intros i Hi.
  - unfold activate.
    change (slot_at (count_objects d (count_handles 1 ?x)) i) with (slot_at x i).
    by rewrite slot_at_set by (simpl; lia).
  - unfold activate.
    change (object_at (count_objects d (count_handles 1 (set_slot k ?s ?x))) i) with (object_at x i).
    by rewrite object_at_set by lia.
Qed.

Lemma activate_wf t k j o d :
  table_wf t -> activation t k j o d -> table_wf (activate k j o d t).
Proof.
  intros Hwf Hac. destruct (activate_slots t k j o d Hwf Hac) as [Hs Ho].
  destruct Hac as [Hk Hfree Hj Hact Hty Hsame Hrefs Hd].
  destruct (wf_lengths t Hwf) as [L1 L2]. pose proof (wf_counts t Hwf) as [C1 C2].
  pose proof (tw_limit t Hwf) as Hlim.
  assert (Hlive : live_slots (activate k j o d t) =
    <[Z.to_nat k := Slot (generation (slot_at t k)) j (object_type o) true]> (live_slots t)).
  { exact (live_slots_set t k _ Hk). }
  assert (Hlo : live_objects (activate k j o d t) = <[Z.to_nat j := o]> (live_objects t)).
  { exact (live_objects_set t j o Hj). }
  pose proof (live_slot t k Hk L1) as Lk. pose proof (live_object t j Hj L2) as Lj.
  assert (Hlt : active_handles t < limit t).
  { rewrite (tw_handles t Hwf).
    pose proof (countb_insert slot_active (live_slots t) _ _
      (Slot (generation (slot_at t k)) j (object_type o) true) Lk) as Hc.
    rewrite Hfree in Hc. simpl in Hc. destruct (wf_live_length t Hwf) as [Hlen _].
    pose proof (countb_bounds slot_active (<[Z.to_nat k :=
      Slot (generation (slot_at t k)) j (object_type o) true]> (live_slots t))) as Hb.
    rewrite length_insert in Hb. lia. }
  constructor.
  - apply Hwf.
  - apply Hwf.
  - simpl. rewrite length_insert. apply Hwf.
  - simpl. rewrite length_insert. apply Hwf.
  - intros i Hi. rewrite Hs by lia. case_decide; by apply (tw_generation t Hwf).
  - intros i Hi. rewrite Hs by lia. change (limit (activate k j o d t)) with (limit t).
    cbv zeta. case_decide as E.
    + intros _. cbn [object_index slot_type]. rewrite Ho, decide_True by (lia || done). done.
    + intros Ha. destruct (tw_slot t Hwf i Hi Ha) as (Hr & Hoa & Hot & Hv).
      rewrite Ho by lia. case_decide as E2; [|done]. rewrite <- E2 in Hoa, Hot |- *.
      split; [done|]. split; [done|]. split; [|done]. rewrite <- Hot. symmetry. auto.
  - intros i Hi. rewrite Ho by lia. rewrite Hlive.
    rewrite (countb_insert _ _ _ _ _ Lk). unfold refers at 2 3. simpl. rewrite Hfree. simpl.
    case_decide as E.
    + rewrite <- E, Z.eqb_refl, Hrefs. intros _. pose proof (wf_count_refs t j Hwf). lia.
    + destruct (Z.eqb_spec j i); [done|]. intros Ha. destruct (tw_references t Hwf i Hi Ha). lia.
  - rewrite Hlive, (countb_insert _ _ _ _ _ Lk), Hfree, <- (tw_handles t Hwf). simpl.
    rewrite wrap_small by (unfold fits; lia). lia.
  - rewrite Hlo, (countb_insert _ _ _ _ _ Lj), Hact, <- (tw_actives t Hwf). simpl.
    rewrite Hd. destruct (object_active (object_at t j)); rewrite wrap_small by (unfold fits; lia); lia.
Qed.

Lemma activate_handles t k j o d :
  table_wf t -> activation t k j o d ->
  let h := encode_handle k (object_type o) (generation (slot_at t k)) in
  handle_object t h = None /\ fits 64 h /\
  forall g, fits 64 g -> handle_object (activate k j o d t) g =
    if g =? h then Some j else handle_object t g.
Proof.
  intros Hwf Hac h. pose proof (activate_wf t k j o d Hwf Hac) as Hwf'.
  destruct (activate_slots t k j o d Hwf Hac) as [Hs _]. pose proof Hac as [Hk Hfree _ _ _ _ _ _].
  set (t' := activate k j o d t) in *.
  assert (Hsk : slot_at t' k = Slot (generation (slot_at t k)) j (object_type o) true).
  { rewrite Hs, decide_True by lia. done. }
  assert (Hh : slot_handle t' k = h) by (unfold slot_handle; by rewrite Hsk).
  assert (Hother : forall i, 0 <= i -> i <> k -> slot_at t' i = slot_at t i).
  { intros i Hi Hne. rewrite Hs, decide_False by lia. done. }
  assert (Hka : slot_active (slot_at t' k) = true) by by rewrite Hsk.
  destruct (wf_slot_handle t' Hwf' k Hk Hka) as (Hfit & Hidx & _). rewrite Hh in Hfit, Hidx.
  assert (Hnone : handle_object t h = None).
  { apply eq_None_not_Some. intros [j' (i & Hi & Ha & He & _)%handle_object_iff]; [|done..].
    assert (i <> k) by congruence.
    assert (slot_active (slot_at t' i) = true) by (by rewrite Hother by lia).
    destruct (wf_slot_handle t Hwf i Hi Ha) as (_ & Hidx' & _). rewrite <- He in Hidx'. lia. }
  split; [done|]. split; [done|]. intros g Hg. apply option_eq. intros j'.
  rewrite (handle_object_iff t' Hwf') by done. destruct (Z.eqb_spec g h) as [->|Hne].
  - split.
    + intros (i & Hi & Ha & He & ->). rewrite <- Hh in He.
      apply slot_handle_inj in He as <-; [|done..]. by rewrite Hsk.
    + intros [= <-]. exists k. rewrite Hsk. done.
  - rewrite (handle_object_iff t Hwf) by done. split; intros (i & Hi & Ha & He & ->).
    + assert (i <> k) by congruence. exists i. unfold slot_handle in He |- *.
      rewrite Hother in Ha, He |- * by lia. done.
    + assert (i <> k) by congruence. exists i. unfold slot_handle in He |- *.
      rewrite Hother by lia. done.
Qed.

Lemma live_objects_seq t :
  table_wf t -> live_objects t = object_at t <$> seqZ 0 (limit t).
Proof.
  intros Hwf. destruct (wf_lengths t Hwf) as [_ L2]. pose proof (tw_limit t Hwf).
  apply list_eq. intros i. rewrite list_lookup_fmap.
  destruct (decide (i < Z.to_nat (limit t))%nat) as [Hi|Hi].
  - assert (seqZ 0 (limit t) !! i = Some (Z.of_nat i)) as -> by (apply lookup_seqZ; lia).
    simpl. rewrite <- (live_object t (Z.of_nat i)) by lia. by rewrite Nat2Z.id.
  - rewrite !(proj2 (lookup_ge_None _ _)); [done|rewrite length_seqZ; lia|].
    rewrite (proj2 (wf_live_length t Hwf)). lia.
Qed.

(** There are never more objects than handles. *)
Lemma objects_le_handles t : table_wf t -> active_objects t <= active_handles t.
Proof.
  intros Hwf. rewrite (tw_handles t Hwf), (tw_actives t Hwf), live_objects_seq, countb_fmap by done.
  apply (countb_classes slot_active object_index). intros j Hj Ha.
  destruct (tw_references t Hwf j Hj Ha) as [Hr H0]. rewrite Hr in H0. exact H0.
Qed.

Lemma free_slot_Some t k :
  free_slot t = Some k -> 0 <= k < limit t /\ slot_active (slot_at t k) = false.
Proof.
  unfold free_slot. intros (i & Hi & ->)%fmap_Some.
  apply first_index_Some in Hi as [(s & Hs & Hf%negb_true_iff) _].
  apply live_slot_inv in Hs as [? <-]. done.
Qed.

Lemma free_object_Some t k :
  free_object t = Some k -> 0 <= k < limit t /\ object_active (object_at t k) = false.
Proof.
  unfold free_object. intros (i & Hi & ->)%fmap_Some.
  apply first_index_Some in Hi as [(s & Hs & Hf%negb_true_iff) _].
  apply live_object_inv in Hs as [? <-]. done.
Qed.

Lemma countb_full {A} (p : A -> bool) l :
  (forall i x, l !! i = Some x -> p x = true) -> countb p l = Z.of_nat (length l).
Proof.
  intros H. rewrite (countb_ext p (fun _ => true)) by done. clear H.
  induction l; simpl; lia.
Qed.

Lemma free_slot_None t : table_wf t -> free_slot t = None -> active_handles t = limit t.
Proof.
  intros Hwf. unfold free_slot. rewrite fmap_None, first_index_None. intros Hf.
  rewrite (tw_handles t Hwf), countb_full.
  - rewrite (proj1 (wf_live_length t Hwf)). pose proof (tw_limit t Hwf). lia.
  - intros i s Hi. apply negb_false_iff. by apply (Hf i).
Qed.

Lemma free_object_None t : table_wf t -> free_object t = None -> active_handles t = limit t.
Proof.
  intros Hwf. unfold free_object. rewrite fmap_None, first_index_None. intros Hf.
  pose proof (objects_le_handles t Hwf) as Hle. pose proof (wf_counts t Hwf) as [Hc _].
  rewrite (tw_actives t Hwf), countb_full in Hle.
  - rewrite (proj2 (wf_live_length t Hwf)) in Hle. pose proof (tw_limit t Hwf). lia.
  - intros i s Hi. apply negb_false_iff. by apply (Hf i).
Qed.

Lemma free_slot_room t k : table_wf t -> free_slot t = Some k -> active_handles t < limit t.
Proof.
  intros Hwf [Hk Hf]%free_slot_Some. destruct (wf_lengths t Hwf) as [L1 _].
  pose proof (live_slot t k Hk L1) as Lk. pose proof (tw_limit t Hwf).
  pose proof (countb_insert slot_active (live_slots t) _ _ (Slot 0 0 0 true) Lk) as Hc.
  pose proof (countb_bounds slot_active (<[Z.to_nat k := Slot 0 0 0 true]> (live_slots t))) as Hb.
  rewrite length_insert, (proj1 (wf_live_length t Hwf)) in Hb. rewrite (tw_handles t Hwf).
  rewrite Hf in Hc. simpl in Hc. lia.
Qed.

(** *** Retiring a slot *)

Lemma retire_slots t i :
  table_wf t -> 0 <= i < limit t -> slot_active (slot_at t i) = true ->
  let j := object_index (slot_at t i) in
  (forall k, 0 <= k -> slot_at (retire_slot i t) k =
     if decide (i = k)
     then Slot (let g := u32 (generation (slot_at t i) + 1) in if g =? 0 then 1 else g) 0 0 false
     else slot_at t k) /\
  (forall k, 0 <= k -> object_at (retire_slot i t) k =
     if decide (j = k) then
       if references (object_at t j) =? 1 then zero_object
       else Object (resource (object_at t j)) (references (object_at t j) - 1)
              (object_type (object_at t j)) (object_active (object_at t j))
     else object_at t k) /\
  active_handles (retire_slot i t) = active_handles t - 1 /\
  active_objects (retire_slot i t) =
    active_objects t - (if references (object_at t j) =? 1 then 1 else 0) /\
  1 <= active_handles t.
Proof.
  intros Hwf Hi Ha j. destruct (wf_lengths t Hwf) as [L1 L2].
  destruct (tw_slot t Hwf i Hi Ha) as (Hj & Hact & _). fold j in Hj, Hact.
  destruct (tw_references t Hwf j Hj Hact) as [Hr H0].
  pose proof (wf_count_refs t j Hwf). pose proof (wf_counts t Hwf) as [C1 C2].
  pose proof (tw_limit t Hwf).
  assert (1 <= active_handles t).
  { rewrite (tw_handles t Hwf). pose proof (countb_pos _ _ _ _ (live_slot t i Hi L1) Ha). lia. }
  assert (1 <= active_objects t).
  { rewrite (tw_actives t Hwf). pose proof (countb_pos _ _ _ _ (live_object t j Hj L2) Hact). lia. }
  assert (Hone : (u16 (references (object_at t j) - 1) =? 0) = (references (object_at t j) =? 1)).
  { rewrite wrap_small by (unfold fits; lia).
    destruct (Z.eqb_spec (references (object_at t j)) 1), (Z.eqb_spec (references (object_at t j) - 1) 0); lia. }
  unfold retire_slot. cbv zeta. fold j. rewrite Hone.
  split_and!; [intros k Hk|intros k Hk|..|done].
  - destruct (references (object_at t j) =? 1); by rewrite <- slot_at_set by lia.
  - destruct (references (object_at t j) =? 1).
    + by rewrite <- object_at_set by lia.
    + rewrite wrap_small by (unfold fits; lia). by rewrite <- object_at_set by lia.
  - destruct (references (object_at t j) =? 1); simpl; apply wrap_small; unfold fits; lia.
  - destruct (references (object_at t j) =? 1); simpl; [apply wrap_small; unfold fits|]; lia.
Qed.

Lemma retire_lists t i :
  table_wf t -> 0 <= i < limit t -> slot_active (slot_at t i) = true ->
  let j := object_index (slot_at t i) in
  live_slots (retire_slot i t) = <[Z.to_nat i := slot_at (retire_slot i t) i]> (live_slots t) /\
  live_objects (retire_slot i t) = <[Z.to_nat j := object_at (retire_slot i t) j]> (live_objects t) /\
  limit (retire_slot i t) = limit t /\ initialized (retire_slot i t) = initialized t /\
  length (slots (retire_slot i t)) = length (slots t) /\
  length (objects (retire_slot i t)) = length (objects t).
Proof.
  intros Hwf Hi Ha j. destruct (wf_lengths t Hwf) as [L1 L2].
  destruct (tw_slot t Hwf i Hi Ha) as (Hj & _). fold j in Hj.
  unfold retire_slot. cbv zeta. fold j. unfold live_slots, live_objects, slot_at, object_at.
  destruct (_ =? 0); cbn [slots objects limit initialized set_slot set_object count_handles
    count_objects]; rewrite !length_insert, !list_lookup_total_insert_eq by lia;
    split_and!; try done; apply take_insert_lt; lia.
Qed.

Lemma retire_generation t i :
  table_wf t -> 0 <= i < limit t -> slot_active (slot_at t i) = true ->
  slot_active (slot_at (retire_slot i t) i) = false /\
  0 < generation (slot_at (retire_slot i t) i) < 2 ^ 32 /\
  (generation (slot_at t i) + 1 < 2 ^ 32 ->
   generation (slot_at (retire_slot i t) i) = generation (slot_at t i) + 1).
Proof.
  intros Hwf Hi Ha. destruct (retire_slots t i Hwf Hi Ha) as (Hs & _).
  rewrite Hs, decide_True by lia. cbn [slot_active generation]. split; [done|].
  pose proof (tw_generation t Hwf i Hi).
  pose proof (wrap_fits 32 (generation (slot_at t i) + 1) ltac:(lia)) as Hf. unfold fits in Hf.
  cbv zeta. split.
  - destruct (Z.eqb_spec (u32 (generation (slot_at t i) + 1)) 0); lia.
  - intros Hlt. rewrite wrap_small by (unfold fits; lia).
    destruct (Z.eqb_spec (generation (slot_at t i) + 1) 0); lia.
Qed.

(** The references to object [k] after slot [i] is retired. *)
Lemma retire_refs t i k :
  table_wf t -> 0 <= i < limit t -> slot_active (slot_at t i) = true ->
  countb (refers k) (live_slots (retire_slot i t)) =
    countb (refers k) (live_slots t) - (if object_index (slot_at t i) =? k then 1 else 0).
Proof.
  intros Hwf Hi Ha. destruct (retire_lists t i Hwf Hi Ha) as (-> & _).
  destruct (wf_lengths t Hwf) as [L1 _].
  rewrite (countb_insert _ _ _ _ _ (live_slot t i Hi L1)). unfold refers at 2 3.
  rewrite Ha, (proj1 (retire_generation t i Hwf Hi Ha)). simpl. lia.
Qed.

Lemma retire_wf t i :
  table_wf t -> 0 <= i < limit t -> slot_active (slot_at t i) = true ->
  table_wf (retire_slot i t).
Proof.
  intros Hwf Hi Ha. destruct (retire_slots t i Hwf Hi Ha) as (Hs & Ho & Hah & Hao & _).
  destruct (retire_lists t i Hwf Hi Ha) as (Hls & Hlo & Hlim & Hini & Hl1 & Hl2).
  destruct (wf_lengths t Hwf) as [L1 L2]. destruct (tw_slot t Hwf i Hi Ha) as (Hj & Hact & _).
  destruct (retire_generation t i Hwf Hi Ha) as (Hia & Hg & _).
  set (j := object_index (slot_at t i)) in *.
  destruct (tw_references t Hwf j Hj Hact) as [Hr H0].
  constructor.
  - rewrite Hini. apply Hwf.
  - rewrite Hlim. apply Hwf.
  - rewrite Hl1. apply Hwf.
  - rewrite Hl2. apply Hwf.
  - intros k Hk. destruct (decide (i = k)) as [<-|Hne]; [done|].
    rewrite Hs, decide_False by (lia || done). apply (tw_generation t Hwf). lia.
  - intros k Hk Hka. rewrite Hlim in Hk.
    destruct (decide (i = k)) as [<-|Hne]; [congruence|].
    rewrite Hs, decide_False in Hka |- * by (lia || done). cbv zeta.
    destruct (tw_slot t Hwf k Hk Hka) as (Hok & Hoa & Hot & Hv).
    rewrite Ho, Hlim by lia. case_decide as E; [|done]. rewrite <- E in Hoa, Hot.
    destruct (Z.eqb_spec (references (object_at t j)) 1) as [H1|H1]; [|simpl; split_and!; try done; lia].
    exfalso. pose proof (countb_two (refers j) (live_slots t) (Z.to_nat i) (Z.to_nat k)
      (slot_at t i) (slot_at t k)) as H2.
    rewrite <- Hr, H1 in H2. assert (2 <= 1); [|lia].
    apply H2; [lia|by apply live_slot|by apply live_slot| |].
    + unfold refers. rewrite Ha. apply Z.eqb_refl.
    + unfold refers. rewrite Hka, <- E. apply Z.eqb_refl.
  - intros k Hk. rewrite Hlim in Hk. rewrite retire_refs by done. fold j.
    rewrite Ho by lia. case_decide as E.
    + rewrite <- E, Z.eqb_refl. destruct (Z.eqb_spec (references (object_at t j)) 1); [done|].
      simpl. intros _. lia.
    + destruct (Z.eqb_spec j k); [done|]. rewrite Z.sub_0_r. by apply (tw_references t Hwf).
  - rewrite Hah, Hls, (countb_insert _ _ _ _ _ (live_slot t i Hi L1)), Hia, Ha, (tw_handles t Hwf).
    lia.
  - rewrite Hao, Hlo, (countb_insert _ _ _ _ _ (live_object t j Hj L2)), Hact, (tw_actives t Hwf).
    rewrite Ho, decide_True by (lia || done).
    destruct (references (object_at t j) =? 1); simpl; [|rewrite Hact]; lia.
Qed.

Lemma retire_handles t i :
  table_wf t -> 0 <= i < limit t -> slot_active (slot_at t i) = true ->
  forall g, fits 64 g -> handle_object (retire_slot i t) g =
    if g =? slot_handle t i then None else handle_object t g.
Proof.
  intros Hwf Hi Ha g Hg. pose proof (retire_wf t i Hwf Hi Ha) as Hwf'.
  destruct (retire_slots t i Hwf Hi Ha) as (Hs & _).
  destruct (retire_lists t i Hwf Hi Ha) as (_ & _ & Hlim & _).
  destruct (retire_generation t i Hwf Hi Ha) as (Hia & _).
  assert (Hother : forall k, 0 <= k -> k <> i -> slot_at (retire_slot i t) k = slot_at t k).
  { intros k Hk Hne. by rewrite Hs, decide_False by (lia || done). }
  apply option_eq. intros j'. rewrite (handle_object_iff _ Hwf') by done.
  rewrite Hlim. destruct (Z.eqb_spec g (slot_handle t i)) as [->|Hne].
  - split; [|done]. intros (k & Hk & Hka & He & _). assert (k <> i) as Hki by congruence.
    unfold slot_handle at 2 in He. rewrite Hother in Hka, He by lia.
    apply slot_handle_inj in He as <-; done.
  - rewrite (handle_object_iff _ Hwf) by done. split; intros (k & Hk & Hka & He & ->).
    + assert (k <> i) by congruence. exists k. unfold slot_handle in He |- *.
      rewrite Hother in Hka, He |- * by lia. done.
    + assert (k <> i) by congruence. exists k. unfold slot_handle in He |- *.
      rewrite Hother by lia. done.
Qed.

(** ** Correctness *)

(** A handle packs its slot index, type and generation without loss: they
    are read back exactly, the reserved byte is zero, and conversely any handle
    with a zero reserved byte and a nonzero index is the packing of what is read
    from it. *)
Theorem handle_encoding_roundtrip :
  (forall i ty g, 0 <= i < 2 ^ 16 - 1 /\ fits 8 ty /\ fits 32 g ->
    let h := encode_handle i ty g in
    fits 64 h /\ encoded_index h = i + 1 /\ encoded_type h = ty /\ encoded_reserved h = 0 /\
    encoded_generation h = g) /\
  (forall h, fits 64 h /\ encoded_reserved h = 0 /\ 0 < encoded_index h < 2 ^ 16 ->
    encode_handle (encoded_index h - 1) (encoded_type h) (encoded_generation h) = h).
Proof.
  split.
  - intros i ty g (Hi & Ht & Hg). by apply decode_encode.
  - intros h (Hh & Hr & Hi). by apply encode_decode.
Qed.

Lemma initialize_slot lim i :
  0 < lim <= 128 -> 0 <= i < lim ->
  imap (fun k s => if Z.of_nat k <? lim
                   then Slot 1 (object_index s) (slot_type s) (slot_active s) else s)
    (replicate NATIVE_HANDLE_LIMIT zero_slot) !!! Z.to_nat i = Slot 1 0 0 false.
Proof.
  intros Hl Hi. apply list_lookup_total_correct. rewrite list_lookup_imap, lookup_replicate_2.
  - simpl. destruct (Z.ltb_spec (Z.of_nat (Z.to_nat i)) lim); [done|lia].
  - unfold NATIVE_HANDLE_LIMIT. lia.
Qed.

(** The table after initialization with limit [lim]. *)
Definition fresh_table (lim : Z) : native_handle_table :=
  Table
    (imap (fun k s => if Z.of_nat k <? lim
                      then Slot 1 (object_index s) (slot_type s) (slot_active s) else s)
       (replicate NATIVE_HANDLE_LIMIT zero_slot))
    (replicate NATIVE_HANDLE_LIMIT zero_object) lim 0 0 true.

Lemma fresh_table_wf lim :
  0 < lim <= 128 ->
  table_wf (fresh_table lim) /\
  forall h, fits 64 h -> handle_object (fresh_table lim) h = None.
Proof.
  intros Hlim. set (t := fresh_table lim).
  assert (Hs : forall i, 0 <= i < lim -> slot_at t i = Slot 1 0 0 false).
  { intros i Hi. apply initialize_slot; lia. }
  assert (Ho : forall i, object_at t i = zero_object).
  { intros i. unfold object_at. cbn [objects t fresh_table].
    destruct (decide (Z.to_nat i < NATIVE_HANDLE_LIMIT)%nat).
    - by rewrite lookup_total_replicate_2.
    - rewrite list_lookup_total_alt, (proj2 (lookup_ge_None _ _)); [done|].
      rewrite length_replicate. lia. }
  assert (Hwf : table_wf t).
  { constructor; try done.
    - intros i Hi. rewrite Hs by done. done.
    - intros i Hi. rewrite Hs by done. done.
    - intros j Hj. by rewrite Ho.
    - symmetry. apply countb_zero. intros i s Hi. apply live_slot_inv in Hi as [Hi <-].
      by rewrite Hs.
    - symmetry. apply countb_zero. intros i s Hi. apply live_object_inv in Hi as [Hi <-].
      by rewrite Ho. }
  split; [done|]. intros h Hh. apply eq_None_not_Some.
  intros [j (i & Hi & Ha & _)%handle_object_iff]; [|done..]. by rewrite Hs in Ha.
Qed.

(** Initialization accepts exactly the limits 1 to 128, and then yields a
    well-formed table in which no handle is live. *)
Theorem native_handle_table_initialize_correct old lim :
  fits 16 lim ->
  let '(st, out) := native_handle_table_initialize (Some old) lim in
  (st = NATIVE_HANDLE_OK <-> 0 < lim <= 128) /\
  (st <> NATIVE_HANDLE_OK -> st = NATIVE_HANDLE_BAD_LIMIT /\ out = Some old) /\
  (st = NATIVE_HANDLE_OK -> exists t, out = Some t /\ table_wf t /\ limit t = lim /\
     active_handles t = 0 /\ forall h, fits 64 h -> handle_object t h = None).
Proof.
  unfold fits. intros Hfit. unfold native_handle_table_initialize.
  change (Z.of_nat NATIVE_HANDLE_LIMIT) with 128.
  destruct (Z.eqb_spec lim 0) as [->|H0]; [split; [split; [done|lia]|done]|].
  destruct (Z.ltb_spec 128 lim) as [H1|H1]; [split; [split; [done|lia]|done]|]. cbn [orb].
  split; [split; [lia|done]|]. split; [done|]. intros _. exists (fresh_table lim).
  destruct (fresh_table_wf lim) as [Hwf Hn]; [lia|]. by split_and!.
Qed.

Lemma install_cases t type res old :
  table_wf t ->
  (exists k j, activation t k j (Object res 1 type true) 1 /\
     object_active (object_at t j) = false /\
     native_handle_install (Some t) type (Some res) (Some old) =
       (NATIVE_HANDLE_OK, Some (encode_handle k type (generation (slot_at t k))),
        Some (activate k j (Object res 1 type true) 1 t))) \/
  (exists st, native_handle_install (Some t) type (Some res) (Some old) =
     (st, Some RSD_HANDLE_INVALID, Some t) /\
     (st = NATIVE_HANDLE_BAD_TYPE /\ valid_type type = false \/
      st = NATIVE_HANDLE_FULL /\ active_handles t = limit t)).
Proof.
  intros Hwf. unfold native_handle_install. rewrite (tw_initialized t Hwf). cbn [negb].
  destruct (valid_type type) eqn:Hty; [|right; eexists; split; [done|by left]]. cbn [negb].
  destruct (free_slot t) as [k|] eqn:Ek.
  2: { right. eexists. split; [done|]. right. split; [done|by apply free_slot_None]. }
  destruct (free_object t) as [j|] eqn:Ej.
  2: { right. eexists. split; [done|]. right. split; [done|by apply free_object_None]. }
  left. apply free_slot_Some in Ek as [Hk Hka]. apply free_object_Some in Ej as [Hj Hja].
  pose proof (tw_limit t Hwf) as Hlim. rewrite wrap_small by (unfold fits; lia).
  exists k, j. split; [|done].
  constructor; try done; rewrite ?Hja; try done. simpl. rewrite countb_refers_none; [done|done|lia|done].
Qed.

Lemma duplicate_cases t h old :
  table_wf t -> fits 64 h ->
  (exists k j, handle_object t h = Some j /\
     let o := object_at t j in
     let o1 := Object (resource o) (references o + 1) (object_type o) true in
     activation t k j o1 0 /\
     native_handle_duplicate (Some t) h (Some old) =
       (NATIVE_HANDLE_OK, Some (encode_handle k (object_type o) (generation (slot_at t k))),
        Some (activate k j o1 0 t))) \/
  (exists st, native_handle_duplicate (Some t) h (Some old) =
     (st, Some RSD_HANDLE_INVALID, Some t) /\
     (st = NATIVE_HANDLE_STALE /\ handle_object t h = None \/
      st = NATIVE_HANDLE_FULL /\ active_handles t = limit t)).
Proof.
  intros Hwf Hh. unfold native_handle_duplicate, handle_object.
  destruct (decode_slot (Some t) h) as [s|i] eqn:E.
  { apply decode_slot_stale in E as ->. right. eexists. split; [done|by left]. }
  apply decode_slot_iff in E as (Hi & Ha & _); [|done..].
  destruct (free_slot t) as [k|] eqn:Ek.
  2: { right. eexists. split; [done|]. right. split; [done|by apply free_slot_None]. }
  left. pose proof (free_slot_room t k Hwf Ek). apply free_slot_Some in Ek as [Hk Hka].
  destruct (Z.leb_spec (limit t) (active_handles t)); [lia|].
  destruct (tw_slot t Hwf i Hi Ha) as (Hj & Hact & Ht & Hv).
  exists k, (object_index (slot_at t i)). split; [done|].
  set (j := object_index (slot_at t i)) in *. set (o := object_at t j) in *.
  destruct (tw_references t Hwf j Hj Hact) as [Hr Hpos]. fold o in Hr, Hpos.
  pose proof (wf_count_refs t j Hwf). pose proof (tw_limit t Hwf). cbv zeta.
  rewrite Hact. destruct (Z.eqb_spec (references o) UINT16_MAX) as [Hmax|_];
    [unfold UINT16_MAX in Hmax; lia|]. cbn [negb orb].
  rewrite wrap_small by (unfold fits; lia). split.
  { constructor; try done; simpl; fold o; rewrite ?Ht, ?Hact; try done. lia. }
  unfold activate, count_objects. cbn [object_type active_objects set_slot set_object count_handles].
  pose proof (wf_counts t Hwf) as [_ Hc]. rewrite Z.add_0_r, (wrap_small 16 (active_objects t)) by (unfold fits; lia).
  by rewrite Ht.
Qed.

(** Installing a resource of a valid type on a table that is not full makes
    exactly one new handle live, for a fresh object that holds the resource with
    one reference; all other handles and objects are untouched.  It is refused
    as full exactly when the table's handles are at its limit, and a refusal
    changes nothing and stores the invalid handle. *)
Theorem native_handle_install_correct t type res old :
  table_wf t ->
  let '(st, out, t') := native_handle_install (Some t) type (Some res) (Some old) in
  match st with
  | NATIVE_HANDLE_OK => exists t1 h j,
      t' = Some t1 /\ out = Some h /\ fits 64 h /\ table_wf t1 /\
      handle_object t h = None /\ object_active (object_at t j) = false /\
      (forall g, fits 64 g -> handle_object t1 g = if g =? h then Some j else handle_object t g) /\
      (forall k, 0 <= k ->
         object_at t1 k = if k =? j then Object res 1 type true else object_at t k)
  | NATIVE_HANDLE_BAD_TYPE =>
      valid_type type = false /\ out = Some RSD_HANDLE_INVALID /\ t' = Some t
  | NATIVE_HANDLE_FULL =>
      active_handles t = limit t /\ out = Some RSD_HANDLE_INVALID /\ t' = Some t
  | _ => False
  end.
Proof.
  intros Hwf. destruct (install_cases t type res old Hwf) as
    [(k & j & Hac & Hja & ->) | (st & -> & [[-> H] | [-> H]])]; [|done|done].
  destruct (activate_handles t k j _ 1 Hwf Hac) as (Hnone & Hfit & Hhan).
  destruct (activate_slots t k j _ 1 Hwf Hac) as [_ Hobj].
  eexists _, _, j. split; [reflexivity|]. split; [reflexivity|]. split; [exact Hfit|].
  split; [exact (activate_wf t k j _ 1 Hwf Hac)|]. split; [exact Hnone|].
  split; [exact Hja|]. split; [exact Hhan|]. intros i Hi.
  etransitivity; [exact (Hobj i Hi)|]. by case_decide; destruct (Z.eqb_spec i j).
Qed.

(** Resolving succeeds exactly on live handles of the expected type (any
    type when none is expected) and then points at the object the handle refers
    to; a live handle of another type is reported as such, anything else as
    stale. *)
Theorem native_handle_resolve_correct t h ty o :
  table_wf t -> fits 64 h ->
  native_handle_resolve (Some t) h ty (Some o) =
    match handle_object t h with
    | None => (NATIVE_HANDLE_STALE, Some None)
    | Some j =>
        if negb (ty =? 0) && negb (object_type (object_at t j) =? ty)
        then (NATIVE_HANDLE_WRONG_TYPE, Some None) else (NATIVE_HANDLE_OK, Some (Some j))
    end.
Proof.
  intros Hwf Hh. unfold native_handle_resolve, handle_object.
  destruct (decode_slot (Some t) h) as [s|i] eqn:E.
  { by apply decode_slot_stale in E as ->. }
  apply decode_slot_iff in E as (Hi & Ha & _); [|done..].
  destruct (tw_slot t Hwf i Hi Ha) as (Hj & Hact & Ht & Hv). rewrite Ht.
  destruct (negb (ty =? 0) && _); [done|].
  destruct (Z.leb_spec (limit t) (object_index (slot_at t i))); [lia|].
  destruct (tw_references t Hwf _ Hj Hact) as [_ H0].
  rewrite Hact, Z.eqb_refl. destruct (Z.eqb_spec (references (object_at t (object_index (slot_at t i)))) 0);
    [lia|done].
Qed.

(** Duplicating a live handle makes exactly one new handle live, for the
    same object, whose reference count goes up by one; nothing else changes.  A
    handle that is not live is refused as stale and a full table as full, with
    no change. *)
Theorem native_handle_duplicate_correct t h old :
  table_wf t -> fits 64 h ->
  let '(st, out, t') := native_handle_duplicate (Some t) h (Some old) in
  match st with
  | NATIVE_HANDLE_OK => exists t1 h1 j,
      t' = Some t1 /\ out = Some h1 /\ fits 64 h1 /\ table_wf t1 /\
      handle_object t h = Some j /\ handle_object t h1 = None /\
      (forall g, fits 64 g -> handle_object t1 g = if g =? h1 then Some j else handle_object t g) /\
      references (object_at t1 j) = references (object_at t j) + 1 /\
      resource (object_at t1 j) = resource (object_at t j) /\
      (forall k, 0 <= k -> k <> j -> object_at t1 k = object_at t k)
  | NATIVE_HANDLE_STALE => handle_object t h = None /\ out = Some RSD_HANDLE_INVALID /\ t' = Some t
  | NATIVE_HANDLE_FULL =>
      active_handles t = limit t /\ out = Some RSD_HANDLE_INVALID /\ t' = Some t
  | _ => False
  end.
Proof.
  intros Hwf Hh. destruct (duplicate_cases t h old Hwf Hh) as
    [(k & j & Hj & Hac & ->) | (st & -> & [[-> H] | [-> H]])]; [|done|done].
  set (o1 := Object _ _ _ _) in *.
  destruct (activate_handles t k j _ 0 Hwf Hac) as (Hnone & Hfit & Hhan).
  destruct (activate_slots t k j _ 0 Hwf Hac) as [_ Hobj].
  eexists _, _, j. split; [reflexivity|]. split; [reflexivity|]. split; [exact Hfit|].
  split; [exact (activate_wf t k j _ 0 Hwf Hac)|]. split; [done|]. split; [exact Hnone|].
  split; [exact Hhan|]. destruct (ac_object _ _ _ _ _ Hac) as [Hj0 _].
  assert (Hoj : object_at (activate k j o1 0 t) j = o1) by (by rewrite Hobj, decide_True by done).
  rewrite Hoj. split; [done|]. split; [done|].
  intros i' Hi' Hne. by rewrite Hobj, decide_False by (lia || done).
Qed.

(** *** Closing *)

Section CloseProofs.
Context {C : Type}.
Implicit Types (f : option (close_fn C)) (c : C) (t : native_handle_table).

(** What the callback, if there is one, answers for object [o]. *)
Definition close_answer f (o : native_handle_object) c : Z * C :=
  match f with
  | Some f => f (object_type o) (resource o) c
  | None => (NATIVE_RESOURCE_CLOSED, c)
  end.

Definition consumes (z : Z) : bool :=
  (z =? NATIVE_RESOURCE_CLOSED) || (z =? NATIVE_RESOURCE_CLOSED_WITH_ERROR).

(** Status, context and table of [close_valid_slot] on slot [i]. *)
Definition close_slot_result (i : Z) f c t : native_handle_status * C * native_handle_table :=
  let o := object_at t (object_index (slot_at t i)) in
  if 1 <? references o then (NATIVE_HANDLE_OK, c, retire_slot i t)
  else
    let '(z, c') := close_answer f o c in
    if consumes z then
      (if z =? NATIVE_RESOURCE_CLOSED then NATIVE_HANDLE_OK else NATIVE_HANDLE_CLOSE_FAILED,
       c', retire_slot i t)
    else (NATIVE_HANDLE_CLOSE_FAILED, c', t).

Lemma close_valid_slot_result i f c r t :
  exists r', close_valid_slot i f c r t =
    ((close_slot_result i f c t).1.1, (close_slot_result i f c t).1.2, r',
     (close_slot_result i f c t).2).
Proof.
  unfold close_valid_slot, close_slot_result, close_answer, consumes.
  destruct (1 <? _); [by eexists|].
  destruct f as [f|].
  - destruct (f _ _ c) as [z c']. simpl.
    destruct (Z.eqb_spec z NATIVE_RESOURCE_RETAINED) as [->|]; [by eexists|].
    destruct (Z.eqb_spec z NATIVE_RESOURCE_CLOSED) as [->|]; [by eexists|]. simpl.
    destruct (Z.eqb_spec z NATIVE_RESOURCE_CLOSED_WITH_ERROR) as [->|]; by eexists.
  - by eexists.
Qed.

Lemma wf_valid_slot_object t i :
  table_wf t -> 0 <= i < limit t -> slot_active (slot_at t i) = true ->
  valid_slot_object t (slot_at t i) = true.
Proof.
  intros Hwf Hi Ha. destruct (tw_slot t Hwf i Hi Ha) as (Hj & Hact & Ht & _).
  destruct (tw_references t Hwf _ Hj Hact) as [_ H0]. unfold valid_slot_object.
  destruct (Z.leb_spec (limit t) (object_index (slot_at t i))); [lia|].
  rewrite Hact, Ht, Z.eqb_refl. by destruct (Z.eqb_spec (references (object_at t (object_index (slot_at t i)))) 0); [lia|].
Qed.

Lemma close_cases t h f c :
  table_wf t -> fits 64 h ->
  (handle_object t h = None /\
     native_handle_close (Some t) h f c = (NATIVE_HANDLE_STALE, c, Some t)) \/
  (exists i, 0 <= i < limit t /\ slot_active (slot_at t i) = true /\ h = slot_handle t i /\
     handle_object t h = Some (object_index (slot_at t i)) /\
     native_handle_close (Some t) h f c =
       ((close_slot_result i f c t).1, Some (close_slot_result i f c t).2)).
Proof.
  intros Hwf Hh. unfold native_handle_close, handle_object.
  destruct (decode_slot (Some t) h) as [s|i] eqn:E.
  { left. by apply decode_slot_stale in E as ->. }
  right. apply decode_slot_iff in E as (Hi & Ha & He); [|done..]. exists i.
  rewrite wf_valid_slot_object by done. cbn [negb].
  destruct (close_valid_slot_result i f c None t) as (r' & ->).
  destruct (close_slot_result i f c t) as [[st c'] t']. done.
Qed.

(** [t1] is [t] without handle [h] to object [j]. *)
Definition released t (h j : Z) t1 : Prop :=
  table_wf t1 /\
  (forall g, fits 64 g -> handle_object t1 g = if g =? h then None else handle_object t g) /\
  (forall k, 0 <= k -> k <> j -> object_at t1 k = object_at t k) /\
  active_handles t1 = active_handles t - 1.

Lemma retire_released t i :
  table_wf t -> 0 <= i < limit t -> slot_active (slot_at t i) = true ->
  released t (slot_handle t i) (object_index (slot_at t i)) (retire_slot i t).
Proof.
  intros Hwf Hi Ha. destruct (retire_slots t i Hwf Hi Ha) as (_ & Ho & Hah & _).
  split; [by apply retire_wf|]. split; [by apply retire_handles|]. split; [|done].
  intros k Hk Hne. by rewrite Ho, decide_False by (lia || done).
Qed.

(** Closing a handle that is not live is refused as stale and does nothing.
    Closing one of several references drops that reference only, without
    running the callback.  Closing the last reference runs the callback once on
    the resource: if it consumed the resource the handle and the object are
    gone (a consumed resource with an error still reports failure), otherwise
    the table is exactly as before and the call reports failure. *)
Theorem native_handle_close_correct t h f c :
  table_wf t -> fits 64 h ->
  let '(st, c', t') := native_handle_close (Some t) h f c in
  match handle_object t h with
  | None => st = NATIVE_HANDLE_STALE /\ c' = c /\ t' = Some t
  | Some j =>
      let o := object_at t j in
      let '(z, c1) := close_answer f o c in
      if 1 <? references o then
        st = NATIVE_HANDLE_OK /\ c' = c /\ exists t1, t' = Some t1 /\ released t h j t1 /\
        object_at t1 j =
          Object (resource o) (references o - 1) (object_type o) (object_active o)
      else c' = c1 /\
        if consumes z then
          (st = NATIVE_HANDLE_OK <-> z = NATIVE_RESOURCE_CLOSED) /\
          (st <> NATIVE_HANDLE_OK -> st = NATIVE_HANDLE_CLOSE_FAILED) /\
          exists t1, t' = Some t1 /\ released t h j t1 /\ object_at t1 j = zero_object
        else st = NATIVE_HANDLE_CLOSE_FAILED /\ t' = Some t
  end.
Proof.
  intros Hwf Hh. destruct (close_cases t h f c Hwf Hh) as [[Hn ->] | (i & Hi & Ha & He & Hj & ->)].
  { by rewrite Hn. }
  rewrite Hj. unfold close_slot_result. set (j := object_index (slot_at t i)).
  pose proof (retire_released t i Hwf Hi Ha) as Hrel. rewrite <- He in Hrel. fold j in Hrel.
  destruct (retire_slots t i Hwf Hi Ha) as (_ & Ho & _). fold j in Ho.
  destruct (tw_slot t Hwf i Hi Ha) as (Hjr & Hact & _). fold j in Hjr, Hact.
  destruct (tw_references t Hwf j Hjr Hact) as [_ H0].
  cbv zeta. destruct (close_answer f (object_at t j) c) as [z c1].
  destruct (Z.ltb_spec 1 (references (object_at t j))) as [H1|H1].
  - cbn. split; [done|]. split; [done|]. exists (retire_slot i t). split; [done|].
    split; [done|]. rewrite Ho, decide_True by lia.
    destruct (Z.eqb_spec (references (object_at t j)) 1); [lia|done].
  - destruct (consumes z) eqn:Hc; cbn; [|done]. split; [done|].
    split; [by destruct (Z.eqb_spec z NATIVE_RESOURCE_CLOSED)|].
    split; [by destruct (z =? NATIVE_RESOURCE_CLOSED)|].
    exists (retire_slot i t). split; [done|]. split; [done|].
    rewrite Ho, decide_True by lia.
    destruct (Z.eqb_spec (references (object_at t j)) 1); [done|lia].
Qed.

(** *** Stale handles stay stale *)

(** The generation of the slot [h] names has moved past [h]'s. *)
Definition outdated t (h : Z) : Prop :=
  0 <= encoded_index h - 1 < limit t /\
  encoded_generation h < generation (slot_at t (encoded_index h - 1)).

Lemma outdated_stale t h : table_wf t -> fits 64 h -> outdated t h -> handle_object t h = None.
Proof.
  intros Hwf Hh [Hi Hg]. apply eq_None_not_Some.
  intros [j (i & Hi' & Ha & -> & _)%handle_object_iff]; [|done..].
  destruct (wf_slot_handle t Hwf i Hi' Ha) as (_ & Hidx & _ & _ & Hgen).
  rewrite Hidx, Hgen in Hg. replace (i + 1 - 1) with i in Hg by lia. lia.
Qed.

(** Generations only move forward. *)
Definition advances t t' : Prop :=
  table_wf t' /\ limit t' = limit t /\
  forall i, 0 <= i < limit t -> generation (slot_at t i) <= generation (slot_at t' i).

Lemma advances_outdated t t' h : advances t t' -> outdated t h -> outdated t' h.
Proof.
  intros (_ & Hl & Hg) [Hi Hlt]. split; [lia|]. specialize (Hg _ Hi). lia.
Qed.

Lemma advances_refl t : table_wf t -> advances t t.
Proof. split; [done|]. split; [done|]. intros i _. lia. Qed.

Lemma activate_advances t k j o d :
  table_wf t -> activation t k j o d -> advances t (activate k j o d t).
Proof.
  intros Hwf Hac. split; [by apply activate_wf|]. split; [done|]. intros i Hi.
  rewrite (proj1 (activate_slots t k j o d Hwf Hac)) by lia.
  case_decide as E; [rewrite <- E|]; done.
Qed.

Lemma retire_advances t i :
  table_wf t -> 0 <= i < limit t -> slot_active (slot_at t i) = true ->
  generation (slot_at t i) + 1 < 2 ^ 32 -> advances t (retire_slot i t).
Proof.
  intros Hwf Hi Ha Hg. destruct (retire_generation t i Hwf Hi Ha) as (_ & _ & Hnext).
  split; [by apply retire_wf|]. split; [apply (retire_lists t i Hwf Hi Ha)|].
  intros k Hk. destruct (decide (i = k)) as [<-|Hne]; [rewrite Hnext by done; lia|].
  by rewrite (proj1 (retire_slots t i Hwf Hi Ha)), decide_False by (lia || done).
Qed.

(** No slot is at its last generation. *)
Definition generations_left t : Prop :=
  forall i, 0 <= i < limit t -> generation (slot_at t i) + 1 < 2 ^ 32.

(** One call on a handle table. *)
Inductive handle_step : native_handle_table -> native_handle_table -> Prop :=
  | step_install t type res old st out t' :
      native_handle_install (Some t) type (Some res) (Some old) = (st, out, Some t') ->
      handle_step t t'
  | step_duplicate t h old st out t' :
      fits 64 h -> native_handle_duplicate (Some t) h (Some old) = (st, out, Some t') ->
      handle_step t t'
  | step_close t h f c st c' t' :
      fits 64 h -> generations_left t ->
      native_handle_close (Some t) h f c = (st, c', Some t') -> handle_step t t'.

Lemma close_advances t h f c st c' t' :
  table_wf t -> fits 64 h -> generations_left t ->
  native_handle_close (Some t) h f c = (st, c', Some t') -> advances t t'.
Proof.
  intros Hwf Hh Hg Hc. destruct (close_cases t h f c Hwf Hh) as [[_ He] | (i & Hi & Ha & _ & _ & He)];
    rewrite He in Hc; [injection Hc as _ _ <-; by apply advances_refl|injection Hc as _ <-].
  unfold close_slot_result. destruct (1 <? _); [by apply retire_advances; auto|].
  destruct (close_answer f _ c) as [z c1].
  destruct (consumes z); [by apply retire_advances; auto|by apply advances_refl].
Qed.

Lemma step_advances t t' : table_wf t -> handle_step t t' -> advances t t'.
Proof.
  intros Hwf Hs. destruct Hs as [t type res old st out t' E|t h old st out t' Hh E|t h f c st c' t' Hh Hg E].
  - destruct (install_cases t type res old Hwf) as [(k & j & Hac & _ & He) | (s & He & _)];
      rewrite He in E; injection E as <- <- <-; [by apply activate_advances|by apply advances_refl].
  - destruct (duplicate_cases t h old Hwf Hh) as [(k & j & _ & Hac & He) | (s & He & _)];
      rewrite He in E; injection E as <- <- <-; [by apply activate_advances|by apply advances_refl].
  - by eapply close_advances.
Qed.

Lemma steps_advance t t' : rtc handle_step t t' -> table_wf t -> advances t t'.
Proof.
  induction 1 as [t|x y z Hxy _ IH]; intros Hwf; [by apply advances_refl|].
  destruct (step_advances x y Hwf Hxy) as (Hy & Hl & Hg). destruct (IH Hy) as (Hz & Hl' & Hg').
  split; [done|]. split; [congruence|]. intros i Hi.
  etransitivity; [by apply Hg|]. apply Hg'. lia.
Qed.

(** C4: a handle that was live and is no longer after a close is never live
    again, whatever handles are installed, duplicated and closed afterwards, as
    long as no slot runs through all its 2^32 - 1 generations: a reused slot
    never honours an old handle. *)
Theorem closed_handle_stays_stale t h j f c st c' t1 t2 :
  table_wf t -> fits 64 h -> generations_left t ->
  handle_object t h = Some j ->
  native_handle_close (Some t) h f c = (st, c', Some t1) -> handle_object t1 h = None ->
  rtc handle_step t1 t2 -> handle_object t2 h = None.
Proof.
  intros Hwf Hh Hg Hj Hc Hn Hs.
  destruct (close_cases t h f c Hwf Hh) as [[Hnone _] | (i & Hi & Ha & He & _ & E)]; [congruence|].
  rewrite E in Hc. injection Hc as _ <-.
  assert (Hr : (close_slot_result i f c t).2 = retire_slot i t).
  { unfold close_slot_result in *. destruct (1 <? _); [done|].
    destruct (close_answer f _ c) as [z c1]. destruct (consumes z); [done|].
    cbn [snd] in Hn. congruence. }
  rewrite Hr in *. pose proof (retire_wf t i Hwf Hi Ha) as Hwf1.
  destruct (steps_advance _ _ Hs Hwf1) as (Hwf2 & Hadv).
  apply outdated_stale; [done|done|].
  apply (advances_outdated (retire_slot i t)); [by split|].
  destruct (wf_slot_handle t Hwf i Hi Ha) as (_ & Hidx & _ & _ & Hgen). rewrite <- He in Hidx, Hgen.
  destruct (retire_generation t i Hwf Hi Ha) as (_ & _ & Hnext).
  destruct (retire_lists t i Hwf Hi Ha) as (_ & _ & Hlim & _).
  unfold outdated. rewrite Hidx, Hgen, Hlim. replace (i + 1 - 1) with i by lia.
  split; [done|]. rewrite Hnext by auto. lia.
Qed.

(** *** Closing everything *)

(** The counters of a run that has met [n] active slots, of which [ret] were
    retired, with [again] closes refused and [errs] closes with an error. *)
Record tally (cb : bool) (n : Z) (r : native_handle_close_report) : Prop := Tally {
  ta_bound : 0 <= n <= 128;
  ta_nonneg : 0 <= closed_resources (totals r) /\ 0 <= consumed_error_resources (totals r) /\
    0 <= duplicate_references (totals r) /\ 0 <= retained_resources (totals r);
  ta_attempted : attempted_handles (totals r) = n;
  ta_retired : retired_handles (totals r) =
    closed_resources (totals r) + consumed_error_resources (totals r) +
    duplicate_references (totals r);
  ta_split : retired_handles (totals r) + retained_resources (totals r) = n;
  ta_clean : stale_entries (totals r) = 0 /\ invalid_entries (totals r) = 0;
  ta_callback : callback_attempts (totals r) =
    if cb then closed_resources (totals r) + consumed_error_resources (totals r) +
               retained_resources (totals r) else 0;
  ta_omitted : omitted_entries r = Z.max 0 (n - 32);
  ta_truncated : truncated r = (32 <? n)
}.

Definition has_callback f : bool := if f is Some _ then true else false.

(** Whether the slot closed was the last reference, kept its handle, and
    whether the close counts as failed. *)
Definition outcome_last (o : native_handle_close_outcome) : bool :=
  if o is CLOSE_OUTCOME_DUPLICATE then false else true.
Definition outcome_kept (o : native_handle_close_outcome) : bool :=
  if o is CLOSE_OUTCOME_RETAINED then true else false.
Definition outcome_failed (o : native_handle_close_outcome) : bool :=
  match o with CLOSE_OUTCOME_RETAINED | CLOSE_OUTCOME_CONSUMED_ERROR => true | _ => false end.

(** Recording one more slot, closed with [outcome]. *)
Lemma tally_record cb n r h ty j refs outcome :
  tally cb n r -> n < 128 ->
  outcome <> CLOSE_OUTCOME_STALE -> outcome <> CLOSE_OUTCOME_INVALID ->
  let r' := report_record h ty j refs outcome (negb (outcome_kept outcome))
    (if cb && outcome_last outcome then bump bump_callback ty r else r) in
  tally cb (n + 1) r' /\
  retired_handles (totals r') = retired_handles (totals r) + (if outcome_kept outcome then 0 else 1) /\
  consumed_error_resources (totals r') + retained_resources (totals r') =
    consumed_error_resources (totals r) + retained_resources (totals r) +
    (if outcome_failed outcome then 1 else 0) /\
  active_handles_before r' = active_handles_before r /\
  active_objects_before r' = active_objects_before r.
Proof.
  intros [B N A R S K CB O T] Hn Hs Hi. unfold report_record.
  destruct r as [ent [att cal clo con ret dup sta inv rtd] ia om hb ha ob oa ty0 st re pr tr].
  cbn [totals omitted_entries truncated attempted_handles callback_attempts closed_resources
    consumed_error_resources retained_resources duplicate_references stale_entries
    invalid_entries retired_handles] in *.
  change (Z.of_nat NATIVE_HANDLE_CLOSE_REPORT_CAPACITY) with 32.
  destruct outcome; try done; destruct cb; cbn;
    (destruct (Z.ltb_spec att 32); cbn; rewrite ?wrap_small by (unfold fits; lia);
     (split; [|lia]); constructor; cbn; rewrite ?wrap_small by (unfold fits; lia); try lia;
     rewrite ?T; destruct (Z.ltb_spec 32 n), (Z.ltb_spec 32 (n + 1)); done || lia).
Qed.

(** How the close of slot [i] is recorded. *)
Definition slot_outcome (i : Z) f c t : native_handle_close_outcome :=
  let o := object_at t (object_index (slot_at t i)) in
  if 1 <? references o then CLOSE_OUTCOME_DUPLICATE
  else
    let z := (close_answer f o c).1 in
    if z =? NATIVE_RESOURCE_CLOSED then CLOSE_OUTCOME_CLOSED
    else if z =? NATIVE_RESOURCE_CLOSED_WITH_ERROR then CLOSE_OUTCOME_CONSUMED_ERROR
    else CLOSE_OUTCOME_RETAINED.

Lemma close_valid_slot_outcome i f c r t :
  let j := object_index (slot_at t i) in
  let oc := slot_outcome i f c t in
  exists c', close_valid_slot i f c r t =
    (if outcome_failed oc then NATIVE_HANDLE_CLOSE_FAILED else NATIVE_HANDLE_OK, c',
     (fun r => report_record (slot_handle t i) (object_type (object_at t j)) j
        (references (object_at t j)) oc (negb (outcome_kept oc))
        (if has_callback f && outcome_last oc
         then bump bump_callback (object_type (object_at t j)) r else r)) <$> r,
     if outcome_kept oc then t else retire_slot i t).
Proof.
  intros j oc. subst oc. unfold close_valid_slot, slot_outcome, close_answer. fold j.
  destruct (1 <? _).
  { eexists. destruct r; simpl; by rewrite ?andb_false_r. }
  destruct f as [f|].
  - destruct (f _ _ c) as [z c']. cbn [fst]. exists c'.
    destruct (Z.eqb_spec z NATIVE_RESOURCE_RETAINED) as [->|Hz]; [by destruct r|].
    destruct (Z.eqb_spec z NATIVE_RESOURCE_CLOSED) as [->|Hc]; [by destruct r|].
    destruct (Z.eqb_spec z NATIVE_RESOURCE_CLOSED_WITH_ERROR) as [->|He]; by destruct r.
  - exists c. by destruct r.
Qed.

(** The active slots of [t] below [k]. *)
Definition active_below t (k : Z) : Z := countb slot_active (take (Z.to_nat k) (live_slots t)).

Lemma active_below_S t k :
  table_wf t -> 0 <= k < limit t ->
  active_below t (k + 1) = active_below t k + (if slot_active (slot_at t k) then 1 else 0).
Proof.
  intros Hwf Hk. destruct (wf_lengths t Hwf) as [L1 _]. unfold active_below.
  replace (Z.to_nat (k + 1)) with (S (Z.to_nat k)) by lia.
  rewrite (take_S_r _ _ _ (live_slot t k Hk L1)), countb_app. simpl. lia.
Qed.

Lemma active_below_le t k : table_wf t -> 0 <= active_below t k <= 128.
Proof.
  intros Hwf. unfold active_below.
  pose proof (countb_bounds slot_active (take (Z.to_nat k) (live_slots t))) as H.
  rewrite length_take, (proj1 (wf_live_length t Hwf)) in H. pose proof (tw_limit t Hwf). lia.
Qed.

Lemma active_below_all t : table_wf t -> active_below t (limit t) = active_handles t.
Proof.
  intros Hwf. unfold active_below. rewrite take_ge, (tw_handles t Hwf); [done|].
  by rewrite (proj1 (wf_live_length t Hwf)).
Qed.

(** A callback that never leaves a resource unconsumed. *)
Definition consuming f : Prop :=
  if f is Some g then forall ty res c, consumes (g ty res c).1 = true else True.

Lemma consuming_outcome i f c t : consuming f -> outcome_kept (slot_outcome i f c t) = false.
Proof.
  intros Hf. unfold slot_outcome, close_answer. destruct (1 <? _); [done|].
  destruct f as [g|]; [|done]. simpl in Hf.
  specialize (Hf (object_type (object_at t (object_index (slot_at t i))))
    (resource (object_at t (object_index (slot_at t i)))) c).
  unfold consumes in Hf. destruct (_ =? NATIVE_RESOURCE_CLOSED); [done|].
  by destruct (_ =? NATIVE_RESOURCE_CLOSED_WITH_ERROR).
Qed.

(** After the slots below [k] of [t0] have been visited. *)
Record run_inv f t0 (k : Z)
    (acc : bool * C * option native_handle_close_report * native_handle_table) : Prop := RunInv {
  ri_wf : table_wf acc.2;
  ri_limit : limit acc.2 = limit t0;
  ri_rest : forall i, k <= i < limit t0 -> slot_at acc.2 i = slot_at t0 i;
  ri_gone : consuming f -> forall i, 0 <= i < k -> slot_active (slot_at acc.2 i) = false;
  ri_report : forall r, acc.1.2 = Some r ->
    tally (has_callback f) (active_below t0 k) r /\
    retired_handles (totals r) = active_handles t0 - active_handles acc.2 /\
    acc.1.1.1 = negb (consumed_error_resources (totals r) + retained_resources (totals r) =? 0) /\
    active_handles_before r = active_handles t0 /\ active_objects_before r = active_objects t0
}.

Lemma close_all_slot_inv f t0 k acc :
  table_wf t0 -> 0 <= k < limit t0 -> run_inv f t0 k acc ->
  run_inv f t0 (k + 1) (close_all_slot k f acc).
Proof.
  intros Hwf0 Hk [Hwf Hlim Hrest Hgone Hrep]. destruct acc as [[[failed c] r] t].
  cbn [fst snd] in *. unfold close_all_slot.
  assert (Hsk : slot_at t k = slot_at t0 k) by (apply Hrest; lia).
  destruct (slot_active (slot_at t k)) eqn:Ha; cbn [negb].
  2: { constructor; cbn [fst snd]; try done.
       - intros i Hi. apply Hrest. lia.
       - intros Hf i Hi. destruct (decide (i = k)) as [->|]; [done|]. apply Hgone; [done|lia].
       - rewrite active_below_S, <- Hsk, Ha, Z.add_0_r by done. done. }
  assert (Hkt : 0 <= k < limit t) by lia.
  destruct (tw_slot t Hwf k Hkt Ha) as (_ & _ & _ & Hv). rewrite Hv.
  pose proof (tw_generation t Hwf k Hkt) as Hg.
  destruct (Z.eqb_spec (generation (slot_at t k)) 0); [lia|]. cbn [orb negb].
  rewrite wf_valid_slot_object by done. cbn [negb].
  destruct (close_valid_slot_outcome k f c r t) as (c' & Hcl). rewrite Hcl. clear Hcl.
  set (oc := slot_outcome k f c t).
  destruct (retire_slots t k Hwf Hkt Ha) as (Hs & _ & Hah & _).
  destruct (retire_lists t k Hwf Hkt Ha) as (_ & _ & Hl & _).
  constructor; cbn [fst snd].
  - destruct (outcome_kept oc); [done|by apply retire_wf].
  - destruct (outcome_kept oc); [done|congruence].
  - intros i Hi. rewrite <- Hrest by lia.
    destruct (outcome_kept oc); [done|by rewrite Hs, decide_False by lia].
  - intros Hf i Hi. subst oc. rewrite consuming_outcome by done.
    destruct (decide (i = k)) as [->|]; [by apply retire_generation|].
    rewrite Hs, decide_False by lia. apply Hgone; [done|lia].
  - intros r' Hr'. destruct r as [r|]; [|done]. cbn in Hr'. injection Hr' as <-.
    destruct (Hrep r eq_refl) as (Ht & Hret & Hfail & Hb1 & Hb2).
    assert (Hn : active_below t0 k < 128).
    { pose proof (active_below_le t0 (k + 1) Hwf0) as H. rewrite active_below_S in H by done.
      rewrite <- Hsk, Ha in H. lia. }
    destruct (tally_record _ _ r (slot_handle t k)
      (object_type (object_at t (object_index (slot_at t k)))) (object_index (slot_at t k))
      (references (object_at t (object_index (slot_at t k)))) oc Ht Hn) as (Ht' & Hr1 & Hr2 & Hb1' & Hb2').
    { subst oc. unfold slot_outcome. repeat case_match; done. }
    { subst oc. unfold slot_outcome. repeat case_match; done. }
    split; [rewrite active_below_S, <- Hsk, Ha by done; done|].
    split; [rewrite Hr1, Hret; destruct (outcome_kept oc); lia|].
    split; [|by rewrite Hb1', Hb2'].
    rewrite Hr2, Hfail. destruct (ta_nonneg _ _ _ Ht) as (_ & Hce & _ & Hre).
    destruct (outcome_failed oc); rewrite ?Z.add_0_r.
    + rewrite bool_decide_true, orb_true_r by done. symmetry. apply negb_true_iff, Z.eqb_neq. lia.
    + by rewrite bool_decide_false, orb_false_r by tauto.
Qed.

Lemma close_all_run_inv f t0 n k acc :
  table_wf t0 -> 0 <= k -> k + Z.of_nat n <= limit t0 -> run_inv f t0 k acc ->
  run_inv f t0 (k + Z.of_nat n) (close_all_run n k f acc).
Proof.
  revert k acc. induction n as [|n IH]; intros k acc Hwf Hk Hn Hinv.
  { by rewrite Z.add_0_r. }
  cbn [close_all_run]. replace (k + Z.of_nat (S n)) with (k + 1 + Z.of_nat n) by lia.
  apply IH; [done|lia|lia|]. apply close_all_slot_inv; [done|lia|done].
Qed.

(** A report that was asked for is kept to the end. *)
Lemma close_all_slot_report f k acc :
  is_Some (close_all_slot k f acc).1.2 <-> is_Some acc.1.2.
Proof.
  destruct acc as [[[failed c] r] t]. unfold close_all_slot.
  destruct (negb (slot_active _)); [done|].
  destruct (_ || _); [by destruct r|]. destruct (negb (valid_slot_object _ _)); [by destruct r|].
  destruct (close_valid_slot_outcome k f c r t) as (c' & ->). by destruct r.
Qed.

Lemma close_all_run_report f n k acc :
  is_Some (close_all_run n k f acc).1.2 <-> is_Some acc.1.2.
Proof.
  revert k acc. induction n as [|n IH]; intros k acc; [done|].
  cbn [close_all_run]. by rewrite IH, close_all_slot_report.
Qed.

Lemma close_all_start f t c (r : option native_handle_close_report) :
  table_wf t ->
  run_inv f t 0 (false, c, report_before t <$> ((fun _ => native_handle_close_report_reset) <$> r), t).
Proof.
  intros Hwf. constructor; cbn [fst snd]; try done.
  - intros _ i Hi. lia.
  - intros r' Hr'. destruct r; [|done]. injection Hr' as <-.
    split; [|cbn; split_and!; try done; lia].
    constructor; cbn; try done. by destruct f.
Qed.

(** What [close_all_impl] returns, from the state its loop ends in. *)
Lemma close_all_impl_inv f t c r :
  table_wf t ->
  exists failed c' r1 t1, run_inv f t (limit t) (failed, c', r1, t1) /\
    let st := if failed : bool then NATIVE_HANDLE_CLOSE_FAILED else NATIVE_HANDLE_OK in
    close_all_impl (Some t) f c r =
      (st, c',
       (fun r => report_after t1 st (negb (retained_resources (totals r) =? 0))
          (negb (retired_handles (totals r) =? 0)) r) <$> r1, Some t1) /\
    (is_Some r <-> is_Some r1).
Proof.
  intros Hwf. pose proof (tw_limit t Hwf). unfold close_all_impl. rewrite wf_limits by done.
  pose proof (close_all_run_inv f t (Z.to_nat (limit t)) 0 _ Hwf ltac:(lia) ltac:(lia)
    (close_all_start f t c r Hwf)) as Hinv.
  rewrite Z.add_0_l, Z2Nat.id in Hinv by lia.
  pose proof (close_all_run_report f (Z.to_nat (limit t)) 0
    (false, c, report_before t <$> ((fun _ => native_handle_close_report_reset) <$> r), t)) as Hsome.
  destruct (close_all_run _ _ _ _) as [[[failed c'] r1] t1].
  exists failed, c', r1, t1. split; [done|]. split; [done|].
  cbn [fst snd] in Hsome. rewrite Hsome. by destruct r.
Qed.

(** Closing everything with a callback that always consumes the resource
    (or with none) leaves a well-formed table without a single live handle or
    object. *)
Theorem native_handle_close_all_correct t f c :
  table_wf t -> consuming f ->
  let '(st, c', t') := native_handle_close_all (Some t) f c in
  (st = NATIVE_HANDLE_OK \/ st = NATIVE_HANDLE_CLOSE_FAILED) /\
  exists t1, t' = Some t1 /\ table_wf t1 /\ active_handles t1 = 0 /\ active_objects t1 = 0 /\
    forall h, fits 64 h -> handle_object t1 h = None.
Proof.
  intros Hwf Hf. unfold native_handle_close_all.
  destruct (close_all_impl_inv f t c None Hwf) as (failed & c' & r1 & t1 & [Hw Hl _ Hg _] & -> & _).
  cbn [fst snd] in *. split; [destruct failed; auto|]. exists t1. split; [done|]. split; [done|].
  assert (Hz : active_handles t1 = 0).
  { rewrite (tw_handles t1 Hw). apply countb_zero. intros i s Hi.
    apply live_slot_inv in Hi as [Hi <-]. apply Hg; [done|lia]. }
  pose proof (objects_le_handles t1 Hw). pose proof (wf_counts t1 Hw).
  split; [done|]. split; [lia|]. intros h Hh. apply eq_None_not_Some.
  intros [j (i & Hi & Ha & _)%handle_object_iff]; [|done..].
  rewrite Hg in Ha; [done|done|lia].
Qed.

(** The diagnostic report of a close-all is exact, whatever the callback
    answers: it attempts every live handle once; every attempt is either a
    retirement (closed, consumed with an error, or a dropped duplicate) or a
    retained resource, and the retained ones are the handles still live; the
    callback count is one per last reference; nothing is reported stale or
    invalid; the entry list is truncated exactly beyond its 32 entries with the
    rest counted as omitted; the status, retry and progress flags follow from
    the counters. *)
Theorem native_handle_close_all_diagnostics_exact t f c r0 :
  table_wf t ->
  let '(st, _, r, t') := native_handle_close_all_diagnostics (Some t) f c (Some r0) in
  exists r1 t1, r = Some r1 /\ t' = Some t1 /\ table_wf t1 /\
    let n := totals r1 in
    attempted_handles n = active_handles t /\
    retired_handles n = closed_resources n + consumed_error_resources n + duplicate_references n /\
    retired_handles n = active_handles t - active_handles t1 /\
    retained_resources n = active_handles t1 /\
    callback_attempts n = (if has_callback f
      then closed_resources n + consumed_error_resources n + retained_resources n else 0) /\
    stale_entries n = 0 /\ invalid_entries n = 0 /\
    truncated r1 = (32 <? active_handles t) /\
    omitted_entries r1 = Z.max 0 (active_handles t - 32) /\
    (st = NATIVE_HANDLE_OK <-> consumed_error_resources n = 0 /\ retained_resources n = 0) /\
    report_status r1 = st /\ retryable r1 = negb (active_handles t1 =? 0) /\
    progress r1 = negb (retired_handles n =? 0) /\
    active_handles_before r1 = active_handles t /\ active_handles_after r1 = active_handles t1 /\
    active_objects_before r1 = active_objects t /\ active_objects_after r1 = active_objects t1.
Proof.
  intros Hwf. unfold native_handle_close_all_diagnostics.
  destruct (close_all_impl_inv f t c (Some r0) Hwf)
    as (failed & c' & r1 & t1 & [Hw _ _ _ Hr] & -> & Hsome).
  destruct (proj1 Hsome (mk_is_Some _ _ eq_refl)) as [r ->]. cbn [fst snd] in Hr.
  destruct (Hr r eq_refl) as ([_ (N1 & N2 & N3 & N4) A R S [K1 K2] CB O T] & Hret & Hfail & Hb1 & Hb2).
  rewrite active_below_all in A, S, O, T by done.
  eexists _, t1. split; [reflexivity|]. split; [done|]. split; [done|]. cbn.
  assert (Hkeep : retained_resources (totals r) = active_handles t1) by lia.
  split_and!; try done.
  - rewrite Hfail. destruct (Z.eqb_spec (consumed_error_resources (totals r) +
      retained_resources (totals r)) 0); simpl; split; try done; lia.
  - by rewrite Hkeep.
Qed.
End CloseProofs.

(** ** Concrete tables *)

(** A table of two slots with one file handle, and the same handle duplicated. *)
Definition sample_resource : native_resource := [0x5341504F5445; 0; 0; 0].
Definition sample_empty : native_handle_table := fresh_table 2.
Definition sample_one : native_handle_table :=
  default sample_empty
    (native_handle_install (Some sample_empty) 1 (Some sample_resource) (Some 0)).2.
Definition sample_handle : Z := 0x100010001.

(** A callback that counts its calls and consumes the resource. *)
Definition counting_close : close_fn Z := fun _ _ n => (NATIVE_RESOURCE_CLOSED, n + 1).

Lemma sample_empty_wf : table_wf sample_empty.
Proof. apply fresh_table_wf. lia. Qed.

Lemma sample_install :
  native_handle_install (Some sample_empty) 1 (Some sample_resource) (Some 0) =
    (NATIVE_HANDLE_OK, Some sample_handle, Some sample_one).
Proof. reflexivity. Qed.

Lemma sample_one_wf : table_wf sample_one.
Proof.
  apply (step_advances (C := Z) sample_empty sample_one sample_empty_wf).
  exact (step_install _ _ _ _ _ _ _ sample_install).
Qed.

Lemma sample_generations : generations_left sample_one.
Proof.
  intros i Hi. change (limit sample_one) with 2 in Hi.
  assert (i = 0 \/ i = 1) as [-> | ->] by lia; vm_compute; reflexivity.
Qed.

(** ** Witnesses *)

Lemma native_handle_table_initialize_correct_witness :
  (native_handle_table_initialize (Some sample_empty) 2).1 = NATIVE_HANDLE_OK.
Proof.
  pose proof (native_handle_table_initialize_correct sample_empty 2 ltac:(done)) as H.
  destruct (native_handle_table_initialize _ _) as [st out]. apply (proj1 H). lia.
Defined.

Lemma native_handle_install_correct_witness :
  exists j, handle_object sample_one sample_handle = Some j.
Proof.
  pose proof (native_handle_install_correct sample_empty 1 sample_resource 0 sample_empty_wf) as H.
  rewrite sample_install in H. destruct H as (t1 & h & j & Ht & Hh & _ & _ & _ & _ & Hg & _).
  injection Ht as <-. injection Hh as <-. exists j. rewrite Hg by done. by rewrite Z.eqb_refl.
Defined.

Lemma native_handle_resolve_correct_witness :
  native_handle_resolve (Some sample_one) sample_handle 1 (Some None) =
    (NATIVE_HANDLE_OK, Some (Some 0)).
Proof.
  rewrite (native_handle_resolve_correct sample_one sample_handle 1 None sample_one_wf ltac:(done)).
  reflexivity.
Defined.

Lemma native_handle_duplicate_correct_witness :
  exists t1, (native_handle_duplicate (Some sample_one) sample_handle (Some 0)).2 = Some t1 /\
    references (object_at t1 0) = 2.
Proof.
  pose proof (native_handle_duplicate_correct sample_one sample_handle 0 sample_one_wf ltac:(done)) as H.
  destruct (native_handle_duplicate (Some sample_one) sample_handle (Some 0)) as [[st out] t'] eqn:E.
  assert (Hst : st = NATIVE_HANDLE_OK) by (vm_compute in E; congruence). subst st.
  destruct H as (t1 & h1 & j & -> & _ & _ & _ & Hj & _ & _ & Hr & _).
  change (handle_object sample_one sample_handle) with (Some 0) in Hj. injection Hj as <-.
  exists t1. split; [reflexivity|exact Hr].
Defined.

Lemma native_handle_close_correct_witness :
  (native_handle_close (Some sample_one) sample_handle (Some counting_close) 7).1 =
    (NATIVE_HANDLE_OK, 8).
Proof.
  pose proof (native_handle_close_correct sample_one sample_handle (Some counting_close) 7
    sample_one_wf ltac:(done)) as H.
  destruct (native_handle_close _ _ _ _) as [[st c'] t'].
  change (handle_object sample_one sample_handle) with (Some 0) in H. cbn in H.
  destruct H as (-> & Hst & _). cbn. f_equal. by apply Hst.
Defined.

Lemma closed_handle_stays_stale_witness :
  handle_object
    (default sample_empty
       (native_handle_close (Some sample_one) sample_handle (Some counting_close) 7).2)
    sample_handle = None.
Proof.
  apply (closed_handle_stays_stale sample_one sample_handle 0 (Some counting_close) 7
    NATIVE_HANDLE_OK 8
    (default sample_empty
       (native_handle_close (Some sample_one) sample_handle (Some counting_close) 7).2)).
  - exact sample_one_wf.
  - done.
  - exact sample_generations.
  - reflexivity.
  - vm_compute. reflexivity.
  - vm_compute. reflexivity.
  - apply rtc_refl.
Defined.

Lemma native_handle_close_all_correct_witness :
  exists t1, (native_handle_close_all (Some sample_one) (Some counting_close) 0).2 = Some t1 /\
    active_handles t1 = 0.
Proof.
  pose proof (native_handle_close_all_correct sample_one (Some counting_close) 0 sample_one_wf
    ltac:(intros ty res c; reflexivity)) as H.
  destruct (native_handle_close_all _ _ _) as [[st c'] t'].
  destruct H as (_ & t1 & -> & _ & Hz & _). exists t1. by split.
Defined.

Lemma native_handle_close_all_diagnostics_exact_witness :
  exists r1, (native_handle_close_all_diagnostics (Some sample_one) (Some counting_close) 0
    (Some native_handle_close_report_reset)).1.2 = Some r1 /\ attempted_handles (totals r1) = 1.
Proof.
  pose proof (native_handle_close_all_diagnostics_exact sample_one (Some counting_close) 0
    native_handle_close_report_reset sample_one_wf) as H.
  destruct (native_handle_close_all_diagnostics _ _ _ _) as [[[st c'] r] t'].
  destruct H as (r1 & t1 & -> & _ & _ & Ha & _). exists r1. split; [reflexivity|exact Ha].
Defined.

Lemma handle_encoding_roundtrip_witness :
  encoded_index (encode_handle 4 1 9) = 5 /\ encoded_generation (encode_handle 4 1 9) = 9.
Proof.
  destruct (proj1 handle_encoding_roundtrip 4 1 9) as (_ & Hi & _ & _ & Hg).
  - split; [lia|]. by split.
  - by split.
Defined.
