(* ===== verification/BootLedger.v ===== *)
(** * Boot ledger ([src/kernel/boot_ledger.c], [include/rsd/boot_ledger.h])

    The plan of boot stages, its validation into a canonical order, its
    execution with receipts, and the audit of the receipts.  An array with its
    count is the list of its first [count] entries: a count above the array's
    capacity is a list longer than the capacity, which is what the code tests.
    Stage and capability identifiers, phases and result codes are the enums'
    integers. *)

From stdpp Require Import base list numbers gmap strings sorting.
From S2P Require Import Prelude.

Definition BOOT_LEDGER_STAGE_CAPACITY : nat := 59.
Definition BOOT_LEDGER_RECEIPT_CAPACITY : nat := 59.
Definition BOOT_STAGE_CAPABILITY_CAPACITY : nat := 23.
Definition BOOT_STAGE_PROOF_COUNTER_CAPACITY : nat := 2.
Definition BOOT_STAGE_INVALID : Z := 0.
Definition BOOT_STAGE_COUNT : Z := 60.
Definition BOOT_CAPABILITY_INVALID : Z := 0.
Definition BOOT_CAPABILITY_COUNT : Z := 84.
Definition BOOT_PHASE_COUNT : Z := 8.
Definition BOOT_FINGERPRINT_OFFSET : Z := 14695981039346656037.
Definition BOOT_FINGERPRINT_PRIME : Z := 1099511628211.
Definition BOOT_FINGERPRINT_VERSION : Z := 1.

Definition BOOT_CAPABILITY_PHYSICAL_FRAME_ALLOCATOR_AVAILABLE : Z := 4.
Definition BOOT_CAPABILITY_CLOCKS_DISCOVERED : Z := 7.
Definition BOOT_CAPABILITY_DEVICE_WINDOW_REGISTRY_VALIDATED : Z := 8.
Definition BOOT_CAPABILITY_HEAP_AVAILABLE : Z := 12.
Definition BOOT_CAPABILITY_IDT_INSTALLED : Z := 13.
Definition BOOT_CAPABILITY_INTERRUPT_CONTROLLERS_CONFIGURED : Z := 14.
Definition BOOT_CAPABILITY_INTERRUPTS_ENABLED : Z := 15.
Definition BOOT_CAPABILITY_TIMER_CALIBRATION_COMPLETE : Z := 17.
Definition BOOT_CAPABILITY_FRAMEBUFFER_WC_INDEPENDENTLY_PROVED : Z := 20.
Definition BOOT_CAPABILITY_THREADING_AVAILABLE : Z := 23.

Definition BOOT_IRREVERSIBLE_NONE : Z := 0.
Definition BOOT_IRREVERSIBLE_PAT_CR3 : Z := 1.
Definition BOOT_IRREVERSIBLE_INTERRUPT_ENABLE : Z := 2.
Definition BOOT_IRREVERSIBLE_FRAMEBUFFER_OUTPUT : Z := 3.
Definition BOOT_IRREVERSIBLE_APIC_TIMER : Z := 4.
Definition BOOT_IRREVERSIBLE_SCHEDULER : Z := 5.
Definition BOOT_IRREVERSIBLE_COUNT : Z := 6.

Definition BOOT_RECEIPT_RAN : Z := 0.
Definition BOOT_RECEIPT_SKIPPED : Z := 1.
Definition BOOT_RECEIPT_FAILED : Z := 2.
Definition BOOT_RECEIPT_RESULT_COUNT : Z := 3.

Inductive boot_ledger_status :=
  | STATUS_OK
  | STATUS_NULL_ARGUMENT
  | STATUS_EMPTY_PLAN
  | STATUS_NOT_VALIDATED
  | STATUS_ALREADY_EXECUTED
  | STATUS_UNKNOWN_STAGE_IDENTIFIER
  | STATUS_UNKNOWN_CAPABILITY
  | STATUS_TOO_MANY_STAGES
  | STATUS_TOO_MANY_RECEIPTS
  | STATUS_TOO_MANY_STAGE_CAPABILITIES
  | STATUS_INVALID_NEUTRAL_SKIP
  | STATUS_DUPLICATE_STAGE
  | STATUS_DUPLICATE_CAPABILITY_REQUIREMENT
  | STATUS_DUPLICATE_CAPABILITY_PROVIDER
  | STATUS_MISSING_CAPABILITY_PROVIDER
  | STATUS_CAPABILITY_DEPENDENCY_CYCLE
  | STATUS_INVALID_PHASE_TRANSITION
  | STATUS_IRREVERSIBLE_STAGE_ORDERED_TOO_EARLY
  | STATUS_REQUIRED_STAGE_SKIPPED
  | STATUS_UNDECLARED_CAPABILITY_PROVIDED
  | STATUS_STAGE_EXECUTED_BEFORE_REQUIREMENTS
  | STATUS_REQUIRED_STAGE_FAILED
  | STATUS_OPTIONAL_STAGE_FAILED
  | STATUS_OPTIONAL_STAGE_SKIPPED
  | STATUS_RECEIPT_MISMATCH
  | STATUS_PLAN_FINGERPRINT_MISMATCH
  | STATUS_INSTALLED_PLAN_DIFFERS_VALIDATED_PLAN.

#[global] Instance boot_ledger_status_eq_dec : EqDecision boot_ledger_status.
Proof. solve_decision. Defined.

(** The enum's value. *)
Definition status_code (st : boot_ledger_status) : Z :=
  match st with
  | STATUS_OK => 0
  | STATUS_NULL_ARGUMENT => 1
  | STATUS_EMPTY_PLAN => 2
  | STATUS_NOT_VALIDATED => 3
  | STATUS_ALREADY_EXECUTED => 4
  | STATUS_UNKNOWN_STAGE_IDENTIFIER => 5
  | STATUS_UNKNOWN_CAPABILITY => 6
  | STATUS_TOO_MANY_STAGES => 7
  | STATUS_TOO_MANY_RECEIPTS => 8
  | STATUS_TOO_MANY_STAGE_CAPABILITIES => 9
  | STATUS_INVALID_NEUTRAL_SKIP => 10
  | STATUS_DUPLICATE_STAGE => 11
  | STATUS_DUPLICATE_CAPABILITY_REQUIREMENT => 12
  | STATUS_DUPLICATE_CAPABILITY_PROVIDER => 13
  | STATUS_MISSING_CAPABILITY_PROVIDER => 14
  | STATUS_CAPABILITY_DEPENDENCY_CYCLE => 15
  | STATUS_INVALID_PHASE_TRANSITION => 16
  | STATUS_IRREVERSIBLE_STAGE_ORDERED_TOO_EARLY => 17
  | STATUS_REQUIRED_STAGE_SKIPPED => 18
  | STATUS_UNDECLARED_CAPABILITY_PROVIDED => 19
  | STATUS_STAGE_EXECUTED_BEFORE_REQUIREMENTS => 20
  | STATUS_REQUIRED_STAGE_FAILED => 21
  | STATUS_OPTIONAL_STAGE_FAILED => 22
  | STATUS_OPTIONAL_STAGE_SKIPPED => 23
  | STATUS_RECEIPT_MISMATCH => 24
  | STATUS_PLAN_FINGERPRINT_MISMATCH => 25
  | STATUS_INSTALLED_PLAN_DIFFERS_VALIDATED_PLAN => 26
  end.

(** ** Data *)

Record boot_stage_result := StageResult {
  res_result : Z;
  res_provided : list Z;
  res_proof_counters : list Z
}.

(** [Ctx] is [struct boot_context]; a stage's [execute] receives the context and
    the result prepared for it. *)
Record boot_stage_descriptor (Ctx : Type) := Descriptor {
  stage_id : Z;
  stage_label : option string;
  required_capabilities : list Z;
  provided_capabilities : list Z;
  skipped_capabilities : list Z;
  required : bool;
  skip_preserves_health : bool;
  phase : Z;
  irreversible_class : Z;
  execute : option (Ctx -> boot_stage_result -> Ctx * boot_stage_result)
}.
Arguments Descriptor {Ctx}.
Arguments stage_id {Ctx}. Arguments stage_label {Ctx}. Arguments required_capabilities {Ctx}.
Arguments provided_capabilities {Ctx}. Arguments skipped_capabilities {Ctx}.
Arguments required {Ctx}. Arguments skip_preserves_health {Ctx}. Arguments phase {Ctx}.
Arguments irreversible_class {Ctx}. Arguments execute {Ctx}.

Record boot_stage_receipt := Receipt {
  rc_stage_id : Z;
  rc_sequence : Z;
  rc_provided : list Z;
  rc_status : boot_ledger_status;
  rc_result : Z;
  rc_proof_counters : list Z
}.

Record boot_ledger (Ctx : Type) := Ledger {
  descriptors : list (boot_stage_descriptor Ctx);
  canonical_order : list nat;
  validated_stage_ids : list Z;
  receipts : list boot_stage_receipt;
  established_capabilities : list Z;
  ledger_status : boot_ledger_status;
  refusal_stage : Z;
  refusal_capability : Z;
  validated_plan_fingerprint : Z;
  fingerprint : Z;
  executed_count : Z;
  optional_skip_count : Z;
  validated : bool;
  executed : bool;
  degraded : bool
}.
Arguments Ledger {Ctx}.
Arguments descriptors {Ctx}. Arguments canonical_order {Ctx}. Arguments validated_stage_ids {Ctx}.
Arguments receipts {Ctx}. Arguments established_capabilities {Ctx}. Arguments ledger_status {Ctx}.
Arguments refusal_stage {Ctx}. Arguments refusal_capability {Ctx}.
Arguments validated_plan_fingerprint {Ctx}. Arguments fingerprint {Ctx}.
Arguments executed_count {Ctx}. Arguments optional_skip_count {Ctx}. Arguments validated {Ctx}.
Arguments executed {Ctx}. Arguments degraded {Ctx}.

(** Status, stage and capability of a refusal. *)
Definition refusal : Type := boot_ledger_status * Z * Z.

Definition stage_is_known (stage : Z) : bool :=
  (BOOT_STAGE_INVALID <? stage) && (stage <? BOOT_STAGE_COUNT).

Definition capability_is_known (capability : Z) : bool :=
  (BOOT_CAPABILITY_INVALID <? capability) && (capability <? BOOT_CAPABILITY_COUNT).

Definition descriptor_has_capability (capabilities : list Z) (capability : Z) : bool :=
  existsb (fun c => c =? capability) capabilities.

Definition optional_outcome_valid (stage_planned complete absent : bool) : bool :=
  negb stage_planned || negb (Bool.eqb complete absent).

(** ** Fingerprints *)

Fixpoint fingerprint_bytes (n : nat) (fp value : Z) : Z :=
  match n with
  | O => fp
  | S n =>
      fingerprint_bytes n (u64 (Z.lxor fp (value .& 0xFF) * BOOT_FINGERPRINT_PRIME)) (value .>> 8)
  end.

Definition fingerprint_u64 (fp value : Z) : Z := fingerprint_bytes 8 fp value.

Definition fingerprint_capability_set (fp : Z) (capabilities : list Z) (tag : Z) : Z :=
  let fp := fingerprint_u64 fp tag in
  let fp := fingerprint_u64 fp (Z.of_nat (length capabilities)) in
  foldl (fun fp capability =>
           if descriptor_has_capability capabilities capability then fingerprint_u64 fp capability
           else fp)
    fp (seqZ (BOOT_CAPABILITY_INVALID + 1) (BOOT_CAPABILITY_COUNT - 1)).

Definition bool_code (b : bool) : Z := if b then 1 else 0.

(** [size_t providers[BOOT_CAPABILITY_COUNT]]; an absent key is
    [BOOT_NO_PROVIDER]. *)
Abbreviation provider_map := (gmap Z nat).

Section Ledger.
Context {Ctx : Type}.
Implicit Types (d : boot_stage_descriptor Ctx) (l : boot_ledger Ctx).

#[global] Instance descriptor_inhabited : Inhabited (boot_stage_descriptor Ctx) :=
  populate (Descriptor 0 None [] [] [] false false 0 0 None).

Definition fingerprint_stage (fp : Z) d : Z :=
  let fp := fingerprint_u64 fp (stage_id d) in
  let fp := fingerprint_u64 fp (bool_code (required d)) in
  let fp := fingerprint_u64 fp (bool_code (skip_preserves_health d)) in
  let fp := fingerprint_u64 fp (phase d) in
  let fp := fingerprint_u64 fp (irreversible_class d) in
  let fp := fingerprint_capability_set fp (required_capabilities d) 0xA1 in
  let fp := fingerprint_capability_set fp (provided_capabilities d) 0xA2 in
  fingerprint_capability_set fp (skipped_capabilities d) 0xA3.

Definition fingerprint_plan l : Z :=
  let fp := fingerprint_u64 BOOT_FINGERPRINT_OFFSET BOOT_FINGERPRINT_VERSION in
  let fp := fingerprint_u64 fp (Z.of_nat (length (canonical_order l))) in
  foldl (fun fp i => fingerprint_stage fp (descriptors l !!! i)) fp (canonical_order l).

Definition fingerprint_receipt (fp : Z) (r : boot_stage_receipt) : Z :=
  let fp := fingerprint_u64 fp (rc_stage_id r) in
  let fp := fingerprint_u64 fp (rc_sequence r) in
  let fp := fingerprint_u64 fp (rc_result r) in
  let fp := fingerprint_u64 fp (status_code (rc_status r)) in
  fingerprint_capability_set fp (rc_provided r) 0xB1.

Definition fingerprint_receipts l : Z :=
  let fp := fingerprint_u64 (validated_plan_fingerprint l) 0xB001ED6E in
  let fp := fingerprint_u64 fp (Z.of_nat (length (receipts l))) in
  foldl fingerprint_receipt fp (receipts l).

(** ** Plan construction *)

Definition descriptor_requires d (capability : Z) : bool :=
  descriptor_has_capability (required_capabilities d) capability.

Definition descriptor_for_stage l (stage : Z) : option (boot_stage_descriptor Ctx) :=
  (fun i => descriptors l !!! i) <$> first_index (fun d => stage_id d =? stage) (descriptors l).

Definition set_refusal (r : refusal) l : boot_ledger Ctx :=
  let '(st, stage, capability) := r in
  Ledger (descriptors l) (canonical_order l) (validated_stage_ids l) (receipts l)
    (established_capabilities l) st stage capability (validated_plan_fingerprint l)
    (fingerprint l) (executed_count l) (optional_skip_count l) (validated l) (executed l)
    (degraded l).

Definition boot_ledger_reset : boot_ledger Ctx :=
  Ledger [] [] [] [] [] STATUS_NOT_VALIDATED BOOT_STAGE_INVALID BOOT_CAPABILITY_INVALID
    0 0 0 0 false false false.

Definition boot_ledger_add_stage l d : boot_ledger_status * boot_ledger Ctx :=
  if (BOOT_LEDGER_STAGE_CAPACITY <=? length (descriptors l))%nat then
    (STATUS_TOO_MANY_STAGES,
     set_refusal (STATUS_TOO_MANY_STAGES, stage_id d, BOOT_CAPABILITY_INVALID) l)
  else
    (STATUS_OK,
     Ledger (descriptors l ++ [d]) (canonical_order l) (validated_stage_ids l) (receipts l)
       (established_capabilities l) STATUS_NOT_VALIDATED (refusal_stage l)
       (refusal_capability l) (validated_plan_fingerprint l) (fingerprint l)
       (executed_count l) (optional_skip_count l) false false (degraded l)).

(** ** Validation *)

Definition irreversible_requirements (class : Z) : list Z :=
  if class =? BOOT_IRREVERSIBLE_PAT_CR3 then
    [BOOT_CAPABILITY_DEVICE_WINDOW_REGISTRY_VALIDATED;
     BOOT_CAPABILITY_PHYSICAL_FRAME_ALLOCATOR_AVAILABLE]
  else if class =? BOOT_IRREVERSIBLE_INTERRUPT_ENABLE then
    [BOOT_CAPABILITY_IDT_INSTALLED; BOOT_CAPABILITY_INTERRUPT_CONTROLLERS_CONFIGURED]
  else if class =? BOOT_IRREVERSIBLE_FRAMEBUFFER_OUTPUT then
    [BOOT_CAPABILITY_FRAMEBUFFER_WC_INDEPENDENTLY_PROVED]
  else if class =? BOOT_IRREVERSIBLE_APIC_TIMER then
    [BOOT_CAPABILITY_IDT_INSTALLED; BOOT_CAPABILITY_INTERRUPT_CONTROLLERS_CONFIGURED;
     BOOT_CAPABILITY_INTERRUPTS_ENABLED; BOOT_CAPABILITY_CLOCKS_DISCOVERED]
  else if class =? BOOT_IRREVERSIBLE_SCHEDULER then
    [BOOT_CAPABILITY_HEAP_AVAILABLE; BOOT_CAPABILITY_THREADING_AVAILABLE;
     BOOT_CAPABILITY_TIMER_CALIBRATION_COMPLETE; BOOT_CAPABILITY_INTERRUPTS_ENABLED]
  else [].

Definition irreversible_requirement_at (class : Z) (index : nat) : option Z :=
  irreversible_requirements class !! index.

Fixpoint check_requirements (id : Z) (earlier rest : list Z) : option refusal :=
  match rest with
  | [] => None
  | capability :: rest =>
      if negb (capability_is_known capability) then
        Some (STATUS_UNKNOWN_CAPABILITY, id, capability)
      else if descriptor_has_capability earlier capability then
        Some (STATUS_DUPLICATE_CAPABILITY_REQUIREMENT, id, capability)
      else check_requirements id (earlier ++ [capability]) rest
  end.

(** The loop over provided then skipped capabilities of stage [index]: [n]
    iterations left from [capability_index]. *)
Fixpoint claim_capabilities d (index n capability_index : nat) (providers : provider_map) :
    refusal + provider_map :=
  match n with
  | O => inr providers
  | S n =>
      let np := length (provided_capabilities d) in
      let skipped := (np <=? capability_index)%nat in
      let source_index := if skipped then (capability_index - np)%nat else capability_index in
      let capability :=
        if skipped then skipped_capabilities d !!! source_index
        else provided_capabilities d !!! source_index in
      if negb (capability_is_known capability) then
        inl (STATUS_UNKNOWN_CAPABILITY, stage_id d, capability)
      else
        let common_outcome :=
          skipped && bool_decide (providers !! capability = Some index) &&
          descriptor_has_capability (provided_capabilities d) capability &&
          negb (descriptor_has_capability (take source_index (skipped_capabilities d))
                  capability) in
        match providers !! capability with
        | Some _ =>
            if negb common_outcome then
              inl (STATUS_DUPLICATE_CAPABILITY_PROVIDER, stage_id d, capability)
            else claim_capabilities d index n (S capability_index) providers
        | None =>
            claim_capabilities d index n (S capability_index) (<[capability := index]> providers)
        end
  end.

Definition check_descriptor (ds : list (boot_stage_descriptor Ctx)) (index : nat)
    (providers : provider_map) : refusal + provider_map :=
  let d := ds !!! index in
  let refuse st := inl (st, stage_id d, BOOT_CAPABILITY_INVALID) in
  if negb (stage_is_known (stage_id d)) then refuse STATUS_UNKNOWN_STAGE_IDENTIFIER
  else if (BOOT_PHASE_COUNT <=? phase d) ||
          (BOOT_IRREVERSIBLE_COUNT <=? irreversible_class d) ||
          bool_decide (stage_label d = None) ||
          (if execute d is None then true else false) then
    refuse STATUS_INVALID_PHASE_TRANSITION
  else if (BOOT_STAGE_CAPABILITY_CAPACITY <? length (required_capabilities d))%nat ||
          (BOOT_STAGE_CAPABILITY_CAPACITY <? length (provided_capabilities d))%nat ||
          (BOOT_STAGE_CAPABILITY_CAPACITY <? length (skipped_capabilities d))%nat then
    refuse STATUS_TOO_MANY_STAGE_CAPABILITIES
  else if skip_preserves_health d &&
          (required d || (length (skipped_capabilities d) =? 0)%nat) then
    refuse STATUS_INVALID_NEUTRAL_SKIP
  else if existsb (fun e => stage_id e =? stage_id d) (take index ds) then
    refuse STATUS_DUPLICATE_STAGE
  else
    match check_requirements (stage_id d) [] (required_capabilities d) with
    | Some r => inl r
    | None =>
        claim_capabilities d index
          (length (provided_capabilities d) + length (skipped_capabilities d)) 0 providers
    end.

(** The first pass: [n] descriptors left from [index]. *)
Fixpoint check_descriptors (ds : list (boot_stage_descriptor Ctx)) (n index : nat)
    (providers : provider_map) : refusal + provider_map :=
  match n with
  | O => inr providers
  | S n =>
      match check_descriptor ds index providers with
      | inl r => inl r
      | inr providers => check_descriptors ds n (S index) providers
      end
  end.

(** The first entry of a list [f] refuses. *)
Fixpoint first_refusal {A} (f : A -> option refusal) (xs : list A) : option refusal :=
  match xs with
  | [] => None
  | x :: xs => match f x with Some r => Some r | None => first_refusal f xs end
  end.

Definition missing_provider (providers : provider_map) d : option refusal :=
  first_refusal
    (fun capability =>
       if bool_decide (providers !! capability = None)
       then Some (STATUS_MISSING_CAPABILITY_PROVIDER, stage_id d, capability) else None)
    (required_capabilities d).

(** [n] bounds the requirements of a class, of which there are at most four. *)
Fixpoint irreversible_run (ds : list (boot_stage_descriptor Ctx)) (providers : provider_map)
    d (n requirement : nat) : option refusal :=
  match n with
  | O => None
  | S n =>
      match irreversible_requirement_at (irreversible_class d) requirement with
      | None => None
      | Some capability =>
          if negb (descriptor_requires d capability) ||
             match providers !! capability with
             | None => true
             | Some provider => phase d <? phase (ds !!! provider)
             end
          then Some (STATUS_IRREVERSIBLE_STAGE_ORDERED_TOO_EARLY, stage_id d, capability)
          else irreversible_run ds providers d n (S requirement)
      end
  end.

Definition planned (order : list nat) (index : nat) : bool := bool_decide (index ∈ order).

Definition stage_ready (providers : provider_map) (order : list nat) d : bool :=
  forallb
    (fun capability =>
       match providers !! capability with
       | None => false
       | Some provider => planned order provider
       end)
    (required_capabilities d).

(** [a] comes before the stage selected so far. *)
Definition precedes (a b : boot_stage_descriptor Ctx) : bool :=
  (phase a <? phase b) || (phase a =? phase b) && (stage_id a <? stage_id b).

Definition select_step (ds : list (boot_stage_descriptor Ctx)) (providers : provider_map)
    (order : list nat) (selected : option nat) (index : nat) : option nat :=
  let d := ds !!! index in
  if planned order index then selected
  else if negb (stage_ready providers order d) then selected
  else
    match selected with
    | None => Some index
    | Some s => if precedes d (ds !!! s) then Some index else selected
    end.

Definition select_stage ds providers order : option nat :=
  foldl (select_step ds providers order) None (seq 0 (length ds)).

(** The smallest identifier among the stages left unplanned. *)
Definition cycle_stage (ds : list (boot_stage_descriptor Ctx)) (order : list nat) : Z :=
  foldl
    (fun stage index =>
       let d := ds !!! index in
       if negb (planned order index) &&
          ((stage =? BOOT_STAGE_INVALID) || (stage_id d <? stage)) then stage_id d
       else stage)
    BOOT_STAGE_INVALID (seq 0 (length ds)).

(** The planning loop: [n] stages left to plan. *)
Fixpoint plan_run ds providers (n : nat) (order : list nat) : list nat * option refusal :=
  match n with
  | O => (order, None)
  | S n =>
      match select_stage ds providers order with
      | None =>
          (order,
           Some (STATUS_CAPABILITY_DEPENDENCY_CYCLE, cycle_stage ds order,
                 BOOT_CAPABILITY_INVALID))
      | Some selected => plan_run ds providers n (order ++ [selected])
      end
  end.

Definition phase_refusal (ds : list (boot_stage_descriptor Ctx)) (providers : provider_map) d :
    option refusal :=
  first_refusal
    (fun capability =>
       match providers !! capability with
       | Some provider =>
           if phase d <? phase (ds !!! provider)
           then Some (STATUS_INVALID_PHASE_TRANSITION, stage_id d, capability) else None
       | None => None
       end)
    (required_capabilities d).

Definition set_plan (order : list nat) l : boot_ledger Ctx :=
  Ledger (descriptors l) order ((fun i => stage_id (descriptors l !!! i)) <$> order)
    (receipts l) (established_capabilities l) (ledger_status l) (refusal_stage l)
    (refusal_capability l) (validated_plan_fingerprint l) (fingerprint l) (executed_count l)
    (optional_skip_count l) (validated l) (executed l) (degraded l).

Definition refuse (r : refusal) l : boot_ledger_status * boot_ledger Ctx :=
  (r.1.1, set_refusal r l).

Definition boot_ledger_validate l : boot_ledger_status * boot_ledger Ctx :=
  let l := Ledger (descriptors l) [] [] [] (established_capabilities l) (ledger_status l)
    BOOT_STAGE_INVALID BOOT_CAPABILITY_INVALID (validated_plan_fingerprint l) (fingerprint l)
    (executed_count l) (optional_skip_count l) false false (degraded l) in
  let ds := descriptors l in
  if (length ds =? 0)%nat then
    refuse (STATUS_EMPTY_PLAN, BOOT_STAGE_INVALID, BOOT_CAPABILITY_INVALID) l
  else if (BOOT_LEDGER_STAGE_CAPACITY <? length ds)%nat then
    refuse (STATUS_TOO_MANY_STAGES, BOOT_STAGE_INVALID, BOOT_CAPABILITY_INVALID) l
  else
    match check_descriptors ds (length ds) 0 ∅ with
    | inl r => refuse r l
    | inr providers =>
        match first_refusal (missing_provider providers) ds with
        | Some r => refuse r l
        | None =>
            match first_refusal (fun d => irreversible_run ds providers d 5 0) ds with
            | Some r => refuse r l
            | None =>
                let '(order, cycle) := plan_run ds providers (length ds) [] in
                let l := set_plan order l in
                match cycle with
                | Some r => refuse r l
                | None =>
                    match first_refusal (phase_refusal ds providers) ds with
                    | Some r => refuse r l
                    | None =>
                        (STATUS_OK,
                         Ledger (descriptors l) (canonical_order l) (validated_stage_ids l)
                           (receipts l) (established_capabilities l) STATUS_OK
                           (refusal_stage l) (refusal_capability l) (fingerprint_plan l) 0
                           (executed_count l) (optional_skip_count l) true (executed l)
                           (degraded l))
                    end
                end
            end
        end
    end.
End Ledger.

(** ** Stage results *)

Definition boot_stage_result_fail : boot_stage_result := StageResult BOOT_RECEIPT_FAILED [] [].

Definition boot_stage_result_succeed {Ctx} (d : boot_stage_descriptor Ctx) : boot_stage_result :=
  StageResult BOOT_RECEIPT_RAN (provided_capabilities d) [].

Definition boot_stage_result_skip {Ctx} (d : boot_stage_descriptor Ctx) : boot_stage_result :=
  StageResult BOOT_RECEIPT_SKIPPED (skipped_capabilities d) [].

Definition boot_stage_result_provide (r : boot_stage_result) (capability : Z) :
    bool * boot_stage_result :=
  if (BOOT_STAGE_CAPABILITY_CAPACITY <=? length (res_provided r))%nat then (false, r)
  else (true, StageResult (res_result r) (res_provided r ++ [capability]) (res_proof_counters r)).

Section Execution.
Context {Ctx : Type}.
(** [context->stage_failure_detail = NULL]. *)
Context (clear_detail : Ctx -> Ctx).
Implicit Types (d : boot_stage_descriptor Ctx) (l : boot_ledger Ctx) (r : boot_stage_result).

Definition boot_ledger_has_capability l (capability : Z) : bool :=
  if negb (capability_is_known capability) then false
  else descriptor_has_capability (established_capabilities l) capability.

Definition boot_ledger_fingerprint_valid l : bool :=
  validated l && executed l && (fingerprint_plan l =? validated_plan_fingerprint l) &&
  (fingerprint_receipts l =? fingerprint l).

(** The first requirement that is not established. *)
Definition requirements_established l d : option Z :=
  (fun i => required_capabilities d !!! i) <$>
    first_index (fun capability => negb (boot_ledger_has_capability l capability))
      (required_capabilities d).

(** The capabilities the descriptor declares for a result code, [None] for a
    code that is not one. *)
Definition declared_capabilities d (result : Z) : option (list Z) :=
  if result =? BOOT_RECEIPT_RAN then Some (provided_capabilities d)
  else if result =? BOOT_RECEIPT_SKIPPED then Some (skipped_capabilities d)
  else if negb (result =? BOOT_RECEIPT_FAILED) then None
  else Some [].

Definition validate_result d r : boot_ledger_status * Z :=
  match declared_capabilities d (res_result r) with
  | None => (STATUS_RECEIPT_MISMATCH, BOOT_CAPABILITY_INVALID)
  | Some declared =>
      if (BOOT_STAGE_CAPABILITY_CAPACITY <? length (res_provided r))%nat ||
         (BOOT_STAGE_PROOF_COUNTER_CAPACITY <? length (res_proof_counters r))%nat then
        (STATUS_RECEIPT_MISMATCH, BOOT_CAPABILITY_INVALID)
      else
        match first_index (fun c => negb (descriptor_has_capability declared c))
                (res_provided r) with
        | Some i => (STATUS_UNDECLARED_CAPABILITY_PROVIDED, res_provided r !!! i)
        | None =>
            if negb (length (res_provided r) =? length declared)%nat then
              (STATUS_RECEIPT_MISMATCH, BOOT_CAPABILITY_INVALID)
            else
              match first_index (fun c => negb (descriptor_has_capability (res_provided r) c))
                      declared with
              | Some i => (STATUS_RECEIPT_MISMATCH, declared !!! i)
              | None => (STATUS_OK, BOOT_CAPABILITY_INVALID)
              end
        end
  end.

Definition set_established (established : list Z) l : boot_ledger Ctx :=
  Ledger (descriptors l) (canonical_order l) (validated_stage_ids l) (receipts l) established
    (ledger_status l) (refusal_stage l) (refusal_capability l) (validated_plan_fingerprint l)
    (fingerprint l) (executed_count l) (optional_skip_count l) (validated l) (executed l)
    (degraded l).

(** The loop of [append_receipt] over the capabilities a result provides. *)
Fixpoint establish (id : Z) (capabilities : list Z) l : option refusal * boot_ledger Ctx :=
  match capabilities with
  | [] => (None, l)
  | capability :: rest =>
      if negb (boot_ledger_has_capability l capability) then
        if BOOT_CAPABILITY_COUNT <=? Z.of_nat (length (established_capabilities l)) then
          (Some (STATUS_RECEIPT_MISMATCH, id, capability), l)
        else establish id rest (set_established (established_capabilities l ++ [capability]) l)
      else establish id rest l
  end.

Definition append_receipt d r (receipt_status : boot_ledger_status) l :
    boot_ledger_status * boot_ledger Ctx :=
  if (BOOT_LEDGER_RECEIPT_CAPACITY <=? length (receipts l))%nat then
    refuse (STATUS_TOO_MANY_RECEIPTS, stage_id d, BOOT_CAPABILITY_INVALID) l
  else
    match establish (stage_id d) (res_provided r) l with
    | (Some refusal, l) => refuse refusal l
    | (None, l) =>
        let receipt :=
          Receipt (stage_id d) (u32 (Z.of_nat (length (receipts l)) + 1)) (res_provided r)
            receipt_status (res_result r) (res_proof_counters r) in
        let ran := res_result r =? BOOT_RECEIPT_RAN in
        let skipped := res_result r =? BOOT_RECEIPT_SKIPPED in
        (STATUS_OK,
         Ledger (descriptors l) (canonical_order l) (validated_stage_ids l)
           (receipts l ++ [receipt]) (established_capabilities l) (ledger_status l)
           (refusal_stage l) (refusal_capability l) (validated_plan_fingerprint l)
           (fingerprint l)
           (if negb skipped then u64 (executed_count l + 1) else executed_count l)
           (if negb ran && skipped then u64 (optional_skip_count l + 1)
            else optional_skip_count l)
           (validated l) (executed l)
           (if negb ran && (negb skipped || negb (skip_preserves_health d)) then true
            else degraded l))
    end.

Definition set_degraded (b : bool) l : boot_ledger Ctx :=
  Ledger (descriptors l) (canonical_order l) (validated_stage_ids l) (receipts l)
    (established_capabilities l) (ledger_status l) (refusal_stage l) (refusal_capability l)
    (validated_plan_fingerprint l) (fingerprint l) (executed_count l) (optional_skip_count l)
    (validated l) (executed l) b.

(** A descriptor without [execute] leaves the prepared result; validation
    refuses such descriptors. *)
Definition run_stage d (context : Ctx) : Ctx * boot_stage_result :=
  match execute d with
  | Some f => f context boot_stage_result_fail
  | None => (context, boot_stage_result_fail)
  end.

Definition execute_stage d (context : Ctx) l : boot_ledger_status * Ctx * boot_ledger Ctx :=
  let context := clear_detail context in
  match requirements_established l d with
  | Some missing =>
      if required d then
        let '(st, l) := refuse (STATUS_STAGE_EXECUTED_BEFORE_REQUIREMENTS, stage_id d, missing) l in
        (st, context, l)
      else
        let '(st, l) := append_receipt d (boot_stage_result_skip d)
          STATUS_OPTIONAL_STAGE_SKIPPED l in
        (st, context, l)
  | None =>
      let '(context, result) := run_stage d context in
      match validate_result d result with
      | (STATUS_OK, _) =>
          if (res_result result =? BOOT_RECEIPT_SKIPPED) && required d then
            let l := (append_receipt d result STATUS_REQUIRED_STAGE_SKIPPED l).2 in
            let '(st, l) := refuse (STATUS_REQUIRED_STAGE_SKIPPED, stage_id d,
              BOOT_CAPABILITY_INVALID) l in
            (st, context, l)
          else if res_result result =? BOOT_RECEIPT_FAILED then
            let status := if required d then STATUS_REQUIRED_STAGE_FAILED
                          else STATUS_OPTIONAL_STAGE_FAILED in
            let l := (append_receipt d result status l).2 in
            if required d then
              let '(st, l) := refuse (status, stage_id d, BOOT_CAPABILITY_INVALID) l in
              (st, context, l)
            else (STATUS_OK, context, set_degraded true l)
          else
            let status := if res_result result =? BOOT_RECEIPT_SKIPPED
                          then STATUS_OPTIONAL_STAGE_SKIPPED else STATUS_OK in
            let '(st, l) := append_receipt d result status l in
            (st, context, l)
      | (status, bad_capability) =>
          let '(st, l) := refuse (status, stage_id d, bad_capability) l in
          (st, context, l)
      end
  end.

(** The loop over the plan: [ids] are the validated identifiers of the stages
    still to run. *)
Fixpoint execute_run (order : list nat) (ids : list Z) (context : Ctx) l :
    boot_ledger_status * Ctx * boot_ledger Ctx :=
  match order with
  | [] => (STATUS_OK, context, l)
  | index :: order =>
      let d := descriptors l !!! index in
      if negb (stage_id d =? default 0 (head ids)) then
        let '(st, l) := refuse (STATUS_INSTALLED_PLAN_DIFFERS_VALIDATED_PLAN, stage_id d,
          BOOT_CAPABILITY_INVALID) l in
        (st, context, l)
      else
        match execute_stage d context l with
        | (STATUS_OK, context, l) => execute_run order (tail ids) context l
        | failed => failed
        end
  end.

Definition boot_ledger_execute l (context : Ctx) : boot_ledger_status * Ctx * boot_ledger Ctx :=
  let refuse_plan st :=
    let '(st, l) := refuse (st, BOOT_STAGE_INVALID, BOOT_CAPABILITY_INVALID) l in
    (st, context, l) in
  if negb (validated l) then refuse_plan STATUS_NOT_VALIDATED
  else if executed l then refuse_plan STATUS_ALREADY_EXECUTED
  else if negb (fingerprint_plan l =? validated_plan_fingerprint l) then
    refuse_plan STATUS_PLAN_FINGERPRINT_MISMATCH
  else
    let l := Ledger (descriptors l) (canonical_order l) (validated_stage_ids l) [] []
      (ledger_status l) (refusal_stage l) (refusal_capability l)
      (validated_plan_fingerprint l) (fingerprint l) 0 0 (validated l) (executed l) false in
    match execute_run (canonical_order l) (validated_stage_ids l) context l with
    | (STATUS_OK, context, l) =>
        (STATUS_OK, context,
         Ledger (descriptors l) (canonical_order l) (validated_stage_ids l) (receipts l)
           (established_capabilities l) STATUS_OK (refusal_stage l) (refusal_capability l)
           (validated_plan_fingerprint l) (fingerprint_receipts l) (executed_count l)
           (optional_skip_count l) (validated l) true (degraded l))
    | failed => failed
    end.

(** ** Audit of the receipts *)

Definition boot_ledger_planned_stage_at l (index : nat) : option (boot_stage_descriptor Ctx) :=
  match canonical_order l !! index with
  | None => None
  | Some i => if (length (descriptors l) <=? i)%nat then None else descriptors l !! i
  end.

Definition boot_ledger_receipt_at l (index : nat) : option boot_stage_receipt :=
  receipts l !! index.

Definition boot_ledger_receipt_for l (stage : Z) : option boot_stage_receipt :=
  if negb (stage_is_known stage) then None
  else
    match first_index (fun rc => rc_stage_id rc =? stage) (receipts l) with
    | Some i => receipts l !! i
    | None => None
    end.

(** The loop over the capabilities a receipt claims; [capabilities] are those
    of the receipts before, [earlier] those of this receipt already passed. *)
Fixpoint verify_provided (id : Z) (declared capabilities earlier rest : list Z) :
    refusal + list Z :=
  match rest with
  | [] => inr capabilities
  | capability :: rest =>
      if negb (capability_is_known capability) then
        inl (STATUS_UNKNOWN_CAPABILITY, id, capability)
      else if negb (descriptor_has_capability declared capability) then
        inl (STATUS_UNDECLARED_CAPABILITY_PROVIDED, id, capability)
      else if descriptor_has_capability earlier capability then
        inl (STATUS_RECEIPT_MISMATCH, id, capability)
      else if descriptor_has_capability capabilities capability then
        inl (STATUS_DUPLICATE_CAPABILITY_PROVIDER, id, capability)
      else if BOOT_CAPABILITY_COUNT <=? Z.of_nat (length capabilities) then
        inl (STATUS_RECEIPT_MISMATCH, id, capability)
      else
        verify_provided id declared (capabilities ++ [capability]) (earlier ++ [capability]) rest
  end.

Definition receipt_malformed (receipt : boot_stage_receipt) : bool :=
  (BOOT_STAGE_CAPABILITY_CAPACITY <? length (rc_provided receipt))%nat ||
  (BOOT_STAGE_PROOF_COUNTER_CAPACITY <? length (rc_proof_counters receipt))%nat ||
  (rc_result receipt =? BOOT_RECEIPT_RAN) && bool_decide (rc_status receipt <> STATUS_OK) ||
  (rc_result receipt =? BOOT_RECEIPT_SKIPPED) &&
    bool_decide (rc_status receipt <> STATUS_OPTIONAL_STAGE_SKIPPED) ||
  (rc_result receipt =? BOOT_RECEIPT_FAILED) &&
    bool_decide (rc_status receipt <> STATUS_OPTIONAL_STAGE_FAILED) ||
  (BOOT_RECEIPT_RESULT_COUNT <=? rc_result receipt).

(** One receipt, at position [index], after the stages [seen] with the
    capabilities [capabilities]. *)
Definition verify_receipt l (index : nat) (receipt : boot_stage_receipt)
    (seen capabilities : list Z) : refusal + list Z :=
  let id := rc_stage_id receipt in
  if negb (stage_is_known id) then
    inl (STATUS_UNKNOWN_STAGE_IDENTIFIER, id, BOOT_CAPABILITY_INVALID)
  else
    match boot_ledger_planned_stage_at l index with
    | None => inl (STATUS_INSTALLED_PLAN_DIFFERS_VALIDATED_PLAN, id, BOOT_CAPABILITY_INVALID)
    | Some d =>
        if negb (id =? stage_id d) || negb (rc_sequence receipt =? Z.of_nat index + 1) ||
           bool_decide (id ∈ seen) then
          inl (STATUS_INSTALLED_PLAN_DIFFERS_VALIDATED_PLAN, id, BOOT_CAPABILITY_INVALID)
        else if receipt_malformed receipt then
          inl (STATUS_RECEIPT_MISMATCH, stage_id d, BOOT_CAPABILITY_INVALID)
        else if required d &&
                (negb (rc_result receipt =? BOOT_RECEIPT_RAN) ||
                 bool_decide (rc_status receipt <> STATUS_OK)) then
          inl (STATUS_RECEIPT_MISMATCH, stage_id d, BOOT_CAPABILITY_INVALID)
        else
          let missing :=
            if negb (rc_result receipt =? BOOT_RECEIPT_SKIPPED) then
              first_refusal
                (fun c => if negb (descriptor_has_capability capabilities c)
                          then Some (STATUS_STAGE_EXECUTED_BEFORE_REQUIREMENTS, stage_id d, c)
                          else None)
                (required_capabilities d)
            else None in
          match missing with
          | Some r => inl r
          | None =>
              let declared :=
                if rc_result receipt =? BOOT_RECEIPT_RAN then provided_capabilities d
                else if rc_result receipt =? BOOT_RECEIPT_SKIPPED then skipped_capabilities d
                else [] in
              if negb (length (rc_provided receipt) =? length declared)%nat then
                inl (STATUS_RECEIPT_MISMATCH, stage_id d, BOOT_CAPABILITY_INVALID)
              else
                match verify_provided (stage_id d) declared capabilities [] (rc_provided receipt) with
                | inl r => inl r
                | inr capabilities =>
                    match first_refusal
                      (fun c => if negb (descriptor_has_capability (rc_provided receipt) c)
                                then Some (STATUS_RECEIPT_MISMATCH, stage_id d, c) else None)
                      declared with
                    | Some r => inl r
                    | None => inr capabilities
                    end
                end
          end
    end.

Fixpoint verify_receipts l (index : nat) (rest : list boot_stage_receipt)
    (seen capabilities : list Z) : refusal + list Z :=
  match rest with
  | [] => inr capabilities
  | receipt :: rest =>
      match verify_receipt l index receipt seen capabilities with
      | inl r => inl r
      | inr capabilities =>
          verify_receipts l (S index) rest (seen ++ [rc_stage_id receipt]) capabilities
      end
  end.

Definition verify_receipt_set l : boot_ledger_status * boot_ledger Ctx :=
  let mismatch := (STATUS_RECEIPT_MISMATCH, BOOT_STAGE_INVALID, BOOT_CAPABILITY_INVALID) in
  if negb (length (receipts l) =? length (canonical_order l))%nat then refuse mismatch l
  else
    match verify_receipts l 0 (receipts l) [] [] with
    | inl r => refuse r l
    | inr capabilities =>
        if negb (length capabilities =? length (established_capabilities l))%nat then
          refuse mismatch l
        else
          match first_refusal
            (fun c => if negb (boot_ledger_has_capability l c)
                      then Some (STATUS_RECEIPT_MISMATCH, BOOT_STAGE_INVALID, c) else None)
            capabilities with
          | Some r => refuse r l
          | None => (STATUS_OK, l)
          end
    end.
End Execution.

(** ** Capability lists *)

Lemma has_capability_iff cs c : descriptor_has_capability cs c = true <-> c ∈ cs.
Proof.
  unfold descriptor_has_capability. rewrite existsb_exists. split.
  - intros (x & Hx%list_elem_of_In & ->%Z.eqb_eq). done.
  - intros H%list_elem_of_In. exists c. split; [done|apply Z.eqb_refl].
Qed.

Lemma has_capability_false cs c : descriptor_has_capability cs c = false <-> c ∉ cs.
Proof. rewrite <- has_capability_iff. by destruct (descriptor_has_capability cs c). Qed.

Lemma first_refusal_None {A} (f : A -> option refusal) xs :
  first_refusal f xs = None <-> forall x, x ∈ xs -> f x = None.
Proof.
  induction xs as [|x xs IH]; simpl.
  - split; [intros _ y Hy; by apply not_elem_of_nil in Hy|done].
  - destruct (f x) eqn:E.
    + split; [done|]. intros H. rewrite H in E by apply list_elem_of_here. done.
    + rewrite IH. split; intros H y Hy.
      * apply elem_of_cons in Hy as [->|Hy]; [done|by apply H].
      * apply H. by apply list_elem_of_further.
Qed.

Lemma first_refusal_Some {A} (f : A -> option refusal) xs r :
  first_refusal f xs = Some r -> exists x, x ∈ xs /\ f x = Some r.
Proof.
  induction xs as [|x xs IH]; simpl; [done|]. destruct (f x) eqn:E.
  - intros [= <-]. exists x. split; [apply list_elem_of_here|done].
  - intros (y & Hy & ?)%IH. exists y. split; [by apply list_elem_of_further|done].
Qed.

Lemma known_capability c : capability_is_known c = true <-> 0 < c < 84.
Proof. unfold capability_is_known. rewrite andb_true_iff. unfold BOOT_CAPABILITY_INVALID, BOOT_CAPABILITY_COUNT. lia. Qed.

(** Distinct known capabilities are fewer than the capacity of the arrays that
    collect them. *)
Lemma known_bound (cs : list Z) :
  NoDup cs -> (forall c, c ∈ cs -> capability_is_known c = true) ->
  Z.of_nat (length cs) < BOOT_CAPABILITY_COUNT.
Proof.
  intros Hnd Hk. assert (Hsub : cs ⊆+ seqZ 1 83).
  { apply NoDup_submseteq; [done|]. intros c Hc. apply elem_of_seqZ.
    apply Hk, known_capability in Hc. lia. }
  apply submseteq_length in Hsub. rewrite length_seqZ in Hsub. unfold BOOT_CAPABILITY_COUNT. lia.
Qed.

Section PlanProofs.
Context {Ctx : Type}.
Implicit Types (d : boot_stage_descriptor Ctx) (l : boot_ledger Ctx)
  (ds : list (boot_stage_descriptor Ctx)).

(** Stage [d] may establish [c]. *)
Definition provides d (c : Z) : Prop := c ∈ provided_capabilities d \/ c ∈ skipped_capabilities d.

Lemma check_requirements_ok id earlier rest :
  NoDup earlier -> check_requirements id earlier rest = None ->
  NoDup (earlier ++ rest) /\ forall c, c ∈ rest -> capability_is_known c = true.
Proof.
  revert earlier. induction rest as [|c rest IH]; intros earlier Hnd; simpl.
  { intros _. rewrite app_nil_r. split; [done|]. intros c Hc. by apply not_elem_of_nil in Hc. }
  destruct (capability_is_known c) eqn:Hk; [|done]. cbn [negb].
  destruct (descriptor_has_capability earlier c) eqn:Hd; [done|].
  apply has_capability_false in Hd. intros H. apply IH in H as [H1 H2].
  - rewrite <- app_assoc in H1. split; [done|].
    intros x [->|Hx]%elem_of_cons; [done|by apply H2].
  - apply NoDup_app. split_and!; [done| |by apply NoDup_singleton].
    intros x Hx ->%list_elem_of_singleton. done.
Qed.

(** The entries of [provided ++ skipped] claimed so far, over the map [p0] of
    the stages before. *)
Record claims d (index ci : nat) (p0 p : provider_map) : Prop := Claims {
  cl_map : forall c, p !! c =
    if decide (c ∈ take ci (provided_capabilities d ++ skipped_capabilities d))
    then Some index else p0 !! c;
  cl_fresh : forall c, c ∈ take ci (provided_capabilities d ++ skipped_capabilities d) ->
    p0 !! c = None /\ capability_is_known c = true;
  cl_provided : NoDup (take ci (provided_capabilities d));
  cl_skipped : NoDup (take (ci - length (provided_capabilities d)) (skipped_capabilities d))
}.

Lemma NoDup_take_S {A} (xs : list A) n x :
  xs !! n = Some x -> NoDup (take n xs) -> x ∉ take n xs -> NoDup (take (S n) xs).
Proof.
  intros Hx Hnd Hn. rewrite (take_S_r _ _ _ Hx). apply NoDup_app.
  split_and!; [done| |apply NoDup_singleton]. by intros y Hy ->%list_elem_of_singleton.
Qed.

Lemma claim_one d index ci p0 p x :
  let all := provided_capabilities d ++ skipped_capabilities d in
  claims d index ci p0 p -> (forall c i, p0 !! c = Some i -> (i < index)%nat) ->
  all !! ci = Some x -> capability_is_known x = true ->
  let np := length (provided_capabilities d) in
  let skipped := (np <=? ci)%nat in
  let src := if skipped then (ci - np)%nat else ci in
  (p !! x = None -> claims d index (S ci) p0 (<[x := index]> p)) /\
  (p !! x <> None ->
   skipped && bool_decide (p !! x = Some index) &&
     descriptor_has_capability (provided_capabilities d) x &&
     negb (descriptor_has_capability (take src (skipped_capabilities d)) x) = true ->
   claims d index (S ci) p0 p).
Proof.
  intros all [Hmap Hfresh Hp Hs] Hlt Hx Hk np skipped src.
  assert (Hmem : forall c, c ∈ take (S ci) all <-> c ∈ take ci all \/ c = x).
  { intros c. rewrite (take_S_r _ _ _ Hx), elem_of_app, list_elem_of_singleton. done. }
  assert (Hprov : (ci < np)%nat -> take (S ci) (provided_capabilities d) =
    take ci (provided_capabilities d) ++ [x]).
  { intros Hc. apply take_S_r. unfold all in Hx. by rewrite lookup_app_l in Hx by done. }
  assert (Hskip : (np <= ci)%nat -> skipped_capabilities d !! (ci - np)%nat = Some x).
  { intros Hc. unfold all in Hx. by rewrite lookup_app_r in Hx by done. }
  assert (Hinp : forall c, c ∈ take ci (provided_capabilities d) -> c ∈ take ci all).
  { intros c Hc. unfold all. rewrite take_app. apply elem_of_app. by left. }
  assert (Hins : forall c, c ∈ take (ci - np) (skipped_capabilities d) -> c ∈ take ci all).
  { intros c Hc. unfold all. rewrite take_app. apply elem_of_app. by right. }
  assert (HS : (np <= ci)%nat -> x ∉ take (ci - np) (skipped_capabilities d) ->
    NoDup (take (S ci) (provided_capabilities d)) /\
    NoDup (take (S ci - np) (skipped_capabilities d))).
  { intros Hc Hn. split.
    - rewrite take_ge in Hp |- * by lia. done.
    - rewrite Nat.sub_succ_l by done. eapply NoDup_take_S; eauto. }
  split.
  - intros Hnone. rewrite Hmap in Hnone. case_decide as Hin; [done|].
    constructor.
    + intros c. destruct (decide (c = x)) as [->|Hne].
      * rewrite lookup_insert_eq, decide_True; [done|]. apply Hmem. by right.
      * rewrite lookup_insert_ne, Hmap by done.
        fold all. destruct (decide (c ∈ take ci all)) as [Hc|Hc],
          (decide (c ∈ take (S ci) all)) as [Hc'|Hc']; try done; exfalso;
          rewrite Hmem in Hc'; tauto.
    + intros c [Hc| ->]%Hmem; [by apply Hfresh|done].
    + destruct (decide (ci < np)%nat) as [Hc|Hc].
      * rewrite Hprov by done. apply NoDup_app. split_and!; [done| |apply NoDup_singleton].
        intros y Hy ->%list_elem_of_singleton. by apply Hin, Hinp.
      * apply HS; [lia|]. intros Hy. by apply Hin, Hins.
    + destruct (decide (ci < np)%nat) as [Hc|Hc].
      * fold np. replace (S ci - np)%nat with O by lia. apply NoDup_nil_2.
      * apply HS; [lia|]. intros Hy. by apply Hin, Hins.
  - intros Hsome Hcom. rewrite !andb_true_iff in Hcom.
    destruct Hcom as [[[Hsk Hpi] Hpx] Hnx]. apply bool_decide_eq_true in Hpi.
    apply Nat.leb_le in Hsk. apply negb_true_iff, has_capability_false in Hnx.
    assert (Hsrc : src = (ci - np)%nat).
    { unfold src, skipped. destruct (Nat.leb_spec np ci); [done|lia]. }
    rewrite Hsrc in Hnx. destruct (HS Hsk Hnx) as [Hp' Hs'].
    assert (Hin : x ∈ take ci all).
    { rewrite Hmap in Hpi. case_decide; [done|]. apply Hlt in Hpi. lia. }
    constructor; try done.
    + intros c. rewrite Hmap. fold all.
      destruct (decide (c ∈ take ci all)) as [Hc|Hc],
        (decide (c ∈ take (S ci) all)) as [Hc'|Hc']; try done; exfalso;
        rewrite Hmem in Hc'; [tauto|]. destruct Hc' as [?| ->]; done.
    + intros c [Hc| ->]%Hmem; by apply Hfresh.
Qed.

Lemma claim_capabilities_ok d index p0 n ci p p' :
  claims d index ci p0 p -> (forall c i, p0 !! c = Some i -> (i < index)%nat) ->
  (ci + n = length (provided_capabilities d) + length (skipped_capabilities d))%nat ->
  claim_capabilities d index n ci p = inr p' ->
  claims d index (length (provided_capabilities d) + length (skipped_capabilities d)) p0 p'.
Proof.
  revert ci p. induction n as [|n IH]; intros ci p Hc Hlt Hn; cbn [claim_capabilities].
  { intros [= <-]. by replace (_ + length _)%nat with ci by lia. }
  set (np := length (provided_capabilities d)) in *.
  set (x := if (np <=? ci)%nat then _ else _).
  assert (Hx : (provided_capabilities d ++ skipped_capabilities d) !! ci = Some x).
  { unfold x. destruct (Nat.leb_spec np ci) as [Hle|Hgt].
    - rewrite lookup_app_r by done. apply list_lookup_lookup_total_lt. unfold np in *. lia.
    - rewrite lookup_app_l by done. by apply list_lookup_lookup_total_lt. }
  clearbody x. destruct (capability_is_known x) eqn:Hk; [|done]. cbn [negb].
  destruct (claim_one d index ci p0 p x Hc Hlt Hx Hk) as [Hnew Hcommon].
  fold np in Hcommon. destruct (p !! x) as [j|] eqn:Hp.
  - destruct (_ && negb _) eqn:Hcom; [|done]. cbn [negb].
    apply IH; [by apply Hcommon|done|lia].
  - apply IH; [by apply Hnew|done|lia].
Qed.

(** What the first pass establishes of a stage. *)
Record stage_ok d : Prop := StageOk {
  so_known : stage_is_known (stage_id d) = true;
  so_phase : phase d < BOOT_PHASE_COUNT;
  so_execute : execute d <> None;
  so_provided_length : (length (provided_capabilities d) <= BOOT_STAGE_CAPABILITY_CAPACITY)%nat;
  so_skipped_length : (length (skipped_capabilities d) <= BOOT_STAGE_CAPABILITY_CAPACITY)%nat;
  so_neutral : skip_preserves_health d = true -> required d = false /\ skipped_capabilities d <> [];
  so_required : NoDup (required_capabilities d);
  so_provided : NoDup (provided_capabilities d);
  so_skipped : NoDup (skipped_capabilities d);
  so_required_known : forall c, c ∈ required_capabilities d -> capability_is_known c = true;
  so_provides_known : forall c, provides d c -> capability_is_known c = true
}.

(** The first [n] stages are sound and [p] names the one provider of every
    capability. *)
Record stages_ok ds (n : nat) (p : provider_map) : Prop := StagesOk {
  sk_stage : forall i, (i < n)%nat -> stage_ok (ds !!! i);
  sk_ids : forall i j, (i < n)%nat -> (j < n)%nat ->
    stage_id (ds !!! i) = stage_id (ds !!! j) -> i = j;
  sk_providers : forall c i, p !! c = Some i <-> (i < n)%nat /\ provides (ds !!! i) c
}.

Lemma check_descriptor_ok ds index p p' :
  (index < length ds)%nat -> stages_ok ds index p ->
  check_descriptor ds index p = inr p' -> stages_ok ds (S index) p'.
Proof.
  intros Hi Hok. unfold check_descriptor. set (d := ds !!! index).
  destruct (stage_is_known (stage_id d)) eqn:Hkn; [|done]. cbn [negb].
  destruct (Z.leb_spec BOOT_PHASE_COUNT (phase d)) as [|Hph]; [done|].
  destruct (BOOT_IRREVERSIBLE_COUNT <=? _); [done|]. cbn [orb].
  destruct (bool_decide _); [done|]. cbn [orb].
  destruct (execute d) as [ex|] eqn:Hex; [|done].
  destruct (Nat.ltb_spec BOOT_STAGE_CAPABILITY_CAPACITY (length (required_capabilities d)))
    as [|Hl1]; [done|].
  destruct (Nat.ltb_spec BOOT_STAGE_CAPABILITY_CAPACITY (length (provided_capabilities d)))
    as [|Hl2]; [done|].
  destruct (Nat.ltb_spec BOOT_STAGE_CAPABILITY_CAPACITY (length (skipped_capabilities d)))
    as [|Hl3]; [done|]. cbn [orb].
  destruct (skip_preserves_health d && _) eqn:Hneu; [done|].
  destruct (existsb _ _) eqn:Hdup; [done|].
  destruct (check_requirements _ _ _) eqn:Hreq; [done|]. intros Hcl.
  apply check_requirements_ok in Hreq as [Hrn Hrk]; [|apply NoDup_nil_2].
  destruct Hok as [Hst Hids Hprov].
  assert (Hstart : claims d index 0 p p).
  { constructor; rewrite ?take_0; try apply NoDup_nil_2.
    - intros c. rewrite decide_False; [done|]. apply not_elem_of_nil.
    - intros c Hc. by apply not_elem_of_nil in Hc. }
  assert (Hlt : forall c i, p !! c = Some i -> (i < index)%nat).
  { intros c i Hc. by apply Hprov in Hc as [? _]. }
  apply (claim_capabilities_ok d index p) in Hcl as [Cm Cf Cp Cs]; [|done..].
  rewrite take_ge in Cp by lia.
  replace (_ + _ - _)%nat with (length (skipped_capabilities d)) in Cs by lia.
  rewrite firstn_all in Cs.
  rewrite take_ge in Cm, Cf by (rewrite length_app; lia).
  assert (Hpr : forall c, c ∈ provided_capabilities d ++ skipped_capabilities d <-> provides d c).
  { intros c. apply elem_of_app. }
  assert (Hstage : stage_ok d).
  { constructor; try done; rewrite ?Hex; try done.
    - intros Hsp. rewrite Hsp in Hneu. apply orb_false_iff in Hneu as [-> Hz]. split; [done|].
      intros Hnil. by rewrite Hnil in Hz.
    - intros c Hc. by apply Cf, Hpr. }
  constructor.
  - intros i Hlti. destruct (decide (i = index)) as [->|]; [done|]. apply Hst. lia.
  - assert (Hnew : forall i, (i < index)%nat -> stage_id (ds !!! i) <> stage_id d).
    { intros i Hlti Heq. apply not_true_iff_false in Hdup. apply Hdup, existsb_exists.
      exists (ds !!! i). split; [|by apply Z.eqb_eq]. apply list_elem_of_In.
      apply (list_elem_of_lookup_2 _ i). rewrite lookup_take_lt by done.
      apply list_lookup_lookup_total_lt. lia. }
    intros i j Hlti Hltj Heq.
    destruct (decide (i = index)) as [->|Hi'], (decide (j = index)) as [->|Hj']; try done.
    + symmetry in Heq. destruct (Hnew j); [lia|done].
    + destruct (Hnew i); [lia|done].
    + apply Hids; [lia|lia|done].
  - intros c i. rewrite Cm. destruct (decide _) as [Hin|Hout].
    + apply Hpr in Hin as Hin'. split.
      * intros [= <-]. split; [lia|done].
      * intros [Hlti Hp]. destruct (decide (i = index)) as [->|]; [done|]. exfalso.
        destruct (Cf c Hin) as [Hnone _].
        rewrite (proj2 (Hprov c i)) in Hnone; [done|]. split; [lia|done].
    + rewrite Hprov. split; intros [Hlti Hp]; (split; [|done]); [lia|].
      destruct (decide (i = index)) as [->|]; [|lia]. by destruct Hout; apply Hpr.
Qed.

Lemma check_descriptors_ok ds n index p p' :
  (index + n = length ds)%nat -> stages_ok ds index p ->
  check_descriptors ds n index p = inr p' -> stages_ok ds (length ds) p'.
Proof.
  revert index p. induction n as [|n IH]; intros index p Hn Hok; cbn [check_descriptors].
  { intros [= <-]. by replace (length ds) with index by lia. }
  destruct (check_descriptor ds index p) as [|q] eqn:E; [done|].
  apply check_descriptor_ok in E; [|lia|done]. apply IH; [lia|done].
Qed.

Lemma stages_ok_empty ds : stages_ok ds 0 ∅.
Proof.
  constructor; [lia|lia|]. intros c i. rewrite lookup_empty. split; [done|]. intros []. lia.
Qed.

(** *** Selection *)

(** [a] is no later than [b] in the order of phases, then identifiers. *)
Definition no_later (a b : boot_stage_descriptor Ctx) : Prop :=
  phase a < phase b \/ phase a = phase b /\ stage_id a <= stage_id b.

Lemma precedes_false a b : precedes a b = false <-> no_later b a.
Proof.
  unfold precedes, no_later. destruct (Z.ltb_spec (phase a) (phase b)),
    (Z.eqb_spec (phase a) (phase b)), (Z.ltb_spec (stage_id a) (stage_id b)); simpl;
    split; (done || lia).
Qed.

Lemma precedes_true a b : precedes a b = true -> no_later a b.
Proof.
  unfold precedes, no_later. destruct (Z.ltb_spec (phase a) (phase b)),
    (Z.eqb_spec (phase a) (phase b)), (Z.ltb_spec (stage_id a) (stage_id b)); simpl;
    (done || lia).
Qed.

Lemma no_later_trans a b c : no_later a b -> no_later b c -> no_later a c.
Proof. unfold no_later. lia. Qed.

Lemma no_later_refl a : no_later a a.
Proof. unfold no_later. lia. Qed.

(** Stage [i] is not planned and all its providers are. *)
Definition candidate ds (p : provider_map) (order : list nat) (i : nat) : Prop :=
  (i ∉ order) /\ stage_ready p order (ds !!! i) = true.

Lemma select_fold ds p order xs sel :
  (forall s, sel = Some s -> candidate ds p order s) ->
  match foldl (select_step ds p order) sel xs with
  | Some s => candidate ds p order s /\ (s ∈ xs \/ sel = Some s) /\
      (forall j, j ∈ xs -> candidate ds p order j -> no_later (ds !!! s) (ds !!! j)) /\
      (forall j, sel = Some j -> no_later (ds !!! s) (ds !!! j))
  | None => sel = None /\ forall j, j ∈ xs -> ~ candidate ds p order j
  end.
Proof.
  revert sel. induction xs as [|i xs IH]; intros sel Hsel; cbn [foldl].
  { destruct sel as [s|].
    - split; [by apply Hsel|]. split; [by right|]. split.
      + intros j Hj. by apply not_elem_of_nil in Hj.
      + intros j [= ->]. apply no_later_refl.
    - split; [done|]. intros j Hj. by apply not_elem_of_nil in Hj. }
  set (sel' := select_step ds p order sel i).
  assert (Hstep : (sel' = sel /\ ~ candidate ds p order i) \/
    (candidate ds p order i /\
     (sel' = Some i /\ (forall s, sel = Some s -> no_later (ds !!! i) (ds !!! s)) \/
      sel' = sel /\ exists s, sel = Some s /\ no_later (ds !!! s) (ds !!! i)))).
  { unfold sel', select_step, planned. unfold candidate.
    destruct (decide (i ∈ order)) as [Hin|Hin].
    { rewrite bool_decide_true by done. left. split; [done|tauto]. }
    rewrite bool_decide_false by done.
    destruct (stage_ready p order (ds !!! i)) eqn:Hr; cbn [negb].
    2: { left. split; [done|]. by intros [_ ?]. }
    right. split; [done|]. destruct sel as [s|]; [|by left].
    destruct (precedes (ds !!! i) (ds !!! s)) eqn:Hp.
    - left. split; [done|]. intros s' [= <-]. by apply precedes_true.
    - right. split; [done|]. exists s. split; [done|]. by apply precedes_false. }
  assert (Hsel' : forall s, sel' = Some s -> candidate ds p order s).
  { destruct Hstep as [[-> _] | [Hc [[-> _] | [-> _]]]]; [done| |done]. by intros s [= <-]. }
  specialize (IH sel' Hsel').
  destruct (foldl (select_step ds p order) sel' xs) as [s|].
  - destruct IH as (Hc & Hfrom & Hall & Hle). split; [done|]. split; [|split].
    + destruct Hfrom as [Hs|Hs]; [left; by apply list_elem_of_further|].
      destruct Hstep as [[He _] | [_ [[He _] | [He _]]]]; rewrite He in Hs; [by right| |by right].
      injection Hs as ->. left. apply list_elem_of_here.
    + intros j [->|Hj]%elem_of_cons Hcj; [|by apply Hall].
      destruct Hstep as [[_ Hn] | [_ [[He _] | [He (s' & Hs' & Hle')]]]]; [done| |].
      * by apply Hle.
      * eapply no_later_trans; [|exact Hle']. apply Hle. congruence.
    + intros j Hj. destruct Hstep as [[He _] | [_ [[He Hi] | [He _]]]].
      * apply Hle. congruence.
      * eapply no_later_trans; [by apply Hle|by apply Hi].
      * apply Hle. congruence.
  - destruct IH as [Hn Hall]. destruct Hstep as [[He Hni] | [_ [[He _] | [He (s & Hs & _)]]]].
    + split; [congruence|]. intros j [->|Hj]%elem_of_cons; [done|by apply Hall].
    + congruence.
    + congruence.
Qed.

Lemma select_stage_spec ds p order :
  match select_stage ds p order with
  | Some s => (s < length ds)%nat /\ candidate ds p order s /\
      forall j, (j < length ds)%nat -> candidate ds p order j -> no_later (ds !!! s) (ds !!! j)
  | None => forall j, (j < length ds)%nat -> ~ candidate ds p order j
  end.
Proof.
  unfold select_stage.
  pose proof (select_fold ds p order (seq 0 (length ds)) None ltac:(done)) as H.
  destruct (foldl _ _ _) as [s|].
  - destruct H as (Hc & [Hs|Hs] & Hall & _); [|done]. apply elem_of_seq in Hs.
    split; [lia|]. split; [done|]. intros j Hj. apply Hall. apply elem_of_seq. lia.
  - intros j Hj. apply H. apply elem_of_seq. lia.
Qed.

Lemma stage_ready_iff p order d :
  stage_ready p order d = true <->
  forall c, c ∈ required_capabilities d -> exists j, p !! c = Some j /\ j ∈ order.
Proof.
  unfold stage_ready. rewrite forallb_forall. split.
  - intros H c Hc%list_elem_of_In. specialize (H c Hc). destruct (p !! c) as [j|]; [|done].
    exists j. split; [done|]. by apply bool_decide_eq_true in H.
  - intros H c Hc%list_elem_of_In. destruct (H c Hc) as (j & -> & Hj).
    by apply bool_decide_eq_true.
Qed.

(** *** Planning *)

(** A partial plan in which every stage was a first choice when it was taken. *)
Record plan_ok ds (p : provider_map) (order : list nat) : Prop := PlanOk {
  po_nodup : NoDup order;
  po_range : forall i, i ∈ order -> (i < length ds)%nat;
  po_chosen : forall k i, order !! k = Some i ->
    stage_ready p (take k order) (ds !!! i) = true /\
    forall j, (j < length ds)%nat -> candidate ds p (take k order) j ->
      no_later (ds !!! i) (ds !!! j)
}.

Lemma plan_ok_snoc ds p order s :
  plan_ok ds p order -> (s < length ds)%nat -> candidate ds p order s ->
  (forall j, (j < length ds)%nat -> candidate ds p order j -> no_later (ds !!! s) (ds !!! j)) ->
  plan_ok ds p (order ++ [s]).
Proof.
  intros [Hnd Hr Hch] Hs [Hin Hready] Hmin. constructor.
  - apply NoDup_app. split_and!; [done| |apply NoDup_singleton].
    by intros i Hi ->%list_elem_of_singleton.
  - intros i [Hi| ->%list_elem_of_singleton]%elem_of_app; [by apply Hr|done].
  - intros k i Hk. destruct (decide (k < length order)%nat) as [Hlt|Hge].
    + rewrite lookup_app_l in Hk by done. rewrite take_app_le by lia. by apply Hch.
    + rewrite lookup_app_r in Hk by lia. apply list_lookup_singleton_Some in Hk as [Hk <-].
      rewrite take_app_length' by lia. done.
Qed.

Lemma plan_run_ok ds p n order order' r :
  plan_ok ds p order -> (length order + n = length ds)%nat ->
  plan_run ds p n order = (order', r) ->
  plan_ok ds p order' /\
  match r with
  | None => length order' = length ds
  | Some r => r.1.1 = STATUS_CAPABILITY_DEPENDENCY_CYCLE /\ (length order' < length ds)%nat /\
      forall j, (j < length ds)%nat -> ~ candidate ds p order' j
  end.
Proof.
  revert order. induction n as [|n IH]; intros order Hok Hn; cbn [plan_run].
  { intros [= <- <-]. split; [done|lia]. }
  pose proof (select_stage_spec ds p order) as Hsel.
  destruct (select_stage ds p order) as [s|].
  - destruct Hsel as (Hs & Hc & Hmin). apply IH; [by apply plan_ok_snoc|].
    rewrite length_app. simpl. lia.
  - intros [= <- <-]. split; [done|]. split; [done|]. split; [lia|done].
Qed.

Lemma plan_complete ds p order :
  plan_ok ds p order -> length order = length ds -> order ≡ₚ seq 0 (length ds).
Proof.
  intros [Hnd Hr _] Hlen. apply submseteq_length_Permutation.
  - apply NoDup_submseteq; [done|]. intros i Hi. apply elem_of_seq. specialize (Hr i Hi). lia.
  - rewrite length_seq. lia.
Qed.

(** Requirements are planned before the stage that needs them. *)
Lemma plan_requirements ds p order k i c :
  plan_ok ds p order -> order !! k = Some i -> c ∈ required_capabilities (ds !!! i) ->
  exists m j, (m < k)%nat /\ order !! m = Some j /\ p !! c = Some j.
Proof.
  intros Hok Hk Hc. destruct (po_chosen _ _ _ Hok k i Hk) as [Hr _].
  destruct (proj1 (stage_ready_iff _ _ _) Hr c Hc) as (j & Hj & Hin).
  apply list_elem_of_lookup in Hin as [m Hm]. apply lookup_take_Some in Hm as [Hm Hlt].
  by exists m, j.
Qed.

(** Phases never go back along the plan. *)
Lemma plan_phases ds p order :
  plan_ok ds p order ->
  (forall i c j, (i < length ds)%nat -> c ∈ required_capabilities (ds !!! i) ->
     p !! c = Some j -> phase (ds !!! j) <= phase (ds !!! i)) ->
  forall k m i j, (k <= m)%nat -> order !! k = Some i -> order !! m = Some j ->
    phase (ds !!! i) <= phase (ds !!! j).
Proof.
  intros Hok Hph.
  assert (Hstep : forall k i j, order !! k = Some i -> order !! S k = Some j ->
    phase (ds !!! i) <= phase (ds !!! j)).
  { intros k i j Hi Hj. destruct (po_chosen _ _ _ Hok k i Hi) as [_ Hmin].
    destruct (po_chosen _ _ _ Hok (S k) j Hj) as [Hr _].
    assert (Hjlt : (j < length ds)%nat) by (apply (po_range _ _ _ Hok); by eapply list_elem_of_lookup_2).
    destruct (decide (stage_ready p (take k order) (ds !!! j) = true)) as [Hk|Hk].
    - destruct (Hmin j Hjlt) as [|[? _]]; [|lia|lia]. split; [|done].
      intros (m & Hm)%list_elem_of_lookup. apply lookup_take_Some in Hm as [Hm Hlt].
      pose proof (NoDup_lookup _ _ _ _ (po_nodup _ _ _ Hok) Hm Hj). lia.
    - rewrite (take_S_r _ _ _ Hi) in Hr.
      destruct (decide (Exists (fun c => p !! c = Some i) (required_capabilities (ds !!! j))))
        as [Hex|Hno].
      + apply Exists_exists in Hex as (c & Hc & Hci). by eapply Hph.
      + exfalso. apply Hk. apply stage_ready_iff. intros c Hc.
        destruct (proj1 (stage_ready_iff _ _ _) Hr c Hc) as (m & Hm & Hin).
        exists m. split; [done|]. apply elem_of_app in Hin as [|Hin]; [done|].
        apply list_elem_of_singleton in Hin as ->. destruct Hno. apply Exists_exists. eauto. }
  intros k m i j Hkm. revert j. induction Hkm as [|m Hkm IH]; intros j Hi Hj.
  { assert (i = j) as -> by congruence. done. }
  destruct (order !! m) as [j'|] eqn:Hm.
  - etransitivity; [by apply IH|by eapply Hstep].
  - apply lookup_ge_None in Hm. apply lookup_lt_Some in Hj. lia.
Qed.

Lemma irreversible_run_ok ds p d n k :
  (length (irreversible_requirements (irreversible_class d)) <= k + n)%nat ->
  irreversible_run ds p d n k = None ->
  forall m c, (k <= m)%nat -> irreversible_requirements (irreversible_class d) !! m = Some c ->
    c ∈ required_capabilities d.
Proof.
  revert k. induction n as [|n IH]; intros k Hlen; cbn [irreversible_run].
  { intros _ m c Hm Hc. apply lookup_lt_Some in Hc. lia. }
  unfold irreversible_requirement_at.
  destruct (irreversible_requirements (irreversible_class d) !! k) as [x|] eqn:Hx.
  - unfold descriptor_requires.
    destruct (descriptor_has_capability (required_capabilities d) x) eqn:Hr; [|done].
    destruct (p !! x) as [j|]; [|done]. cbn [negb orb]. destruct (phase d <? _); [done|].
    intros Hn m c Hm Hc. destruct (decide (m = k)) as [->|].
    + apply has_capability_iff. congruence.
    + exact (IH (S k) ltac:(lia) Hn m c ltac:(lia) Hc).
  - intros _ m c Hm Hc. apply lookup_ge_None in Hx. apply lookup_lt_Some in Hc. lia.
Qed.

Lemma irreversible_length class : (length (irreversible_requirements class) <= 4)%nat.
Proof. unfold irreversible_requirements. repeat case_match; simpl; lia. Qed.

(** *** Valid plans *)

Record valid_plan ds (order : list nat) : Prop := ValidPlan {
  vp_size : (0 < length ds <= BOOT_LEDGER_STAGE_CAPACITY)%nat;
  vp_complete : order ≡ₚ seq 0 (length ds);
  vp_stages : forall i, (i < length ds)%nat -> stage_ok (ds !!! i);
  vp_ids : forall i j, (i < length ds)%nat -> (j < length ds)%nat ->
    stage_id (ds !!! i) = stage_id (ds !!! j) -> i = j;
  vp_provider : forall c i j, (i < length ds)%nat -> (j < length ds)%nat ->
    provides (ds !!! i) c -> provides (ds !!! j) c -> i = j;
  vp_requirements : forall k i c, order !! k = Some i -> c ∈ required_capabilities (ds !!! i) ->
    exists m j, (m < k)%nat /\ order !! m = Some j /\ provides (ds !!! j) c;
  vp_phases : forall k m i j, (k <= m)%nat -> order !! k = Some i -> order !! m = Some j ->
    phase (ds !!! i) <= phase (ds !!! j);
  vp_irreversible : forall i c, (i < length ds)%nat ->
    c ∈ irreversible_requirements (irreversible_class (ds !!! i)) ->
    c ∈ required_capabilities (ds !!! i)
}.

(** A set of stages that wait for each other: each requires a capability only
    another member of the set provides. *)
Definition deadlocked ds (S : nat -> Prop) : Prop :=
  (exists i, S i) /\
  forall i, S i -> (i < length ds)%nat /\ exists c j,
    c ∈ required_capabilities (ds !!! i) /\ provides (ds !!! j) c /\ S j.

Lemma ready_or_waiting ds p order i :
  stages_ok ds (length ds) p ->
  (forall d, d ∈ ds -> missing_provider p d = None) ->
  (i < length ds)%nat -> ~ candidate ds p order i -> (i ∉ order) ->
  exists c j, c ∈ required_capabilities (ds !!! i) /\ provides (ds !!! j) c /\
    (j < length ds)%nat /\ (j ∉ order).
Proof.
  intros Hok Hmiss Hi Hnc Hni.
  destruct (first_index (fun c => match p !! c with
      | Some j => negb (planned order j) | None => true end)
    (required_capabilities (ds !!! i))) as [k|] eqn:E.
  - apply first_index_Some in E as [(c & Hc%list_elem_of_lookup_2 & Hj) _].
    destruct (p !! c) as [j|] eqn:Hp.
    + apply (sk_providers _ _ _ Hok) in Hp as [Hlt Hpr]. exists c, j.
      apply negb_true_iff, bool_decide_eq_false in Hj. done.
    + exfalso. assert (Hd : ds !!! i ∈ ds).
      { eapply list_elem_of_lookup_2. by apply list_lookup_lookup_total_lt. }
      specialize (Hmiss _ Hd). unfold missing_provider in Hmiss.
      rewrite first_refusal_None in Hmiss. specialize (Hmiss c Hc). simpl in Hmiss.
      by rewrite bool_decide_true in Hmiss.
  - exfalso. apply Hnc. split; [done|]. apply stage_ready_iff. intros c [k Hk]%list_elem_of_lookup.
    rewrite first_index_None in E. specialize (E k c Hk). simpl in E.
    destruct (p !! c) as [j|]; [|done]. exists j. split; [done|].
    by apply negb_false_iff, bool_decide_eq_true in E.
Qed.

Lemma check_requirements_status id earlier rest r :
  check_requirements id earlier rest = Some r ->
  r.1.1 <> STATUS_OK /\ r.1.1 <> STATUS_CAPABILITY_DEPENDENCY_CYCLE.
Proof.
  revert earlier. induction rest as [|c rest IH]; intros earlier; cbn [check_requirements]; [done|].
  destruct (negb _); [by intros [= <-]|]. destruct (descriptor_has_capability _ _); [by intros [= <-]|].
  apply IH.
Qed.

Lemma claim_capabilities_status d index n ci p r :
  claim_capabilities d index n ci p = inl r ->
  r.1.1 <> STATUS_OK /\ r.1.1 <> STATUS_CAPABILITY_DEPENDENCY_CYCLE.
Proof.
  revert ci p. induction n as [|n IH]; intros ci p; cbn [claim_capabilities]; [done|].
  destruct (negb (capability_is_known _)); [by intros [= <-]|].
  destruct (p !! _); [|apply IH]. destruct (negb (_ && _)); [by intros [= <-]|apply IH].
Qed.

Lemma check_descriptors_status ds n index p r :
  check_descriptors ds n index p = inl r ->
  r.1.1 <> STATUS_OK /\ r.1.1 <> STATUS_CAPABILITY_DEPENDENCY_CYCLE.
Proof.
  revert index p. induction n as [|n IH]; intros index p; cbn [check_descriptors]; [done|].
  destruct (check_descriptor ds index p) as [r'|q] eqn:E; [|apply IH].
  intros [= <-]. unfold check_descriptor in E.
  do 5 (case_match; [injection E as <-; done|]).
  destruct (check_requirements _ _ _) eqn:Hr.
  - injection E as <-. by eapply check_requirements_status.
  - by eapply claim_capabilities_status.
Qed.

Lemma irreversible_status ds p d n k r :
  irreversible_run ds p d n k = Some r ->
  r.1.1 = STATUS_IRREVERSIBLE_STAGE_ORDERED_TOO_EARLY.
Proof.
  revert k. induction n as [|n IH]; intros k; cbn [irreversible_run]; [done|].
  destruct (irreversible_requirement_at _ _); [|done].
  destruct (_ || _); [by intros [= <-]|apply IH].
Qed.

Lemma not_all_planned (order : list nat) n :
  (forall i, i ∈ order -> (i < n)%nat) -> (length order < n)%nat ->
  exists i, (i < n)%nat /\ (i ∉ order).
Proof.
  intros Hr Hlen. destruct (decide (Forall (fun i => i ∈ order) (seq 0 n))) as [Hall|Hno].
  - exfalso. assert (Hs : seq 0 n ⊆+ order).
    { apply NoDup_submseteq; [apply NoDup_seq|]. by apply Forall_forall. }
    apply submseteq_length in Hs. rewrite length_seq in Hs. lia.
  - apply not_Forall_Exists in Hno; [|apply _]. apply Exists_exists in Hno as (i & Hi & Hn).
    apply elem_of_seq in Hi. exists i. split; [lia|done].
Qed.

(** The stages left over when no stage is ready wait for each other. *)
Lemma cycle_deadlocked ds p order :
  stages_ok ds (length ds) p -> (forall d, d ∈ ds -> missing_provider p d = None) ->
  plan_ok ds p order -> (length order < length ds)%nat ->
  (forall j, (j < length ds)%nat -> ~ candidate ds p order j) ->
  deadlocked ds (fun i => (i < length ds)%nat /\ (i ∉ order)).
Proof.
  intros Hck Hmiss Hpo Hlen Hnone. split.
  - apply not_all_planned; [apply (po_range _ _ _ Hpo)|done].
  - intros i [Hi Hni]. split; [done|].
    destruct (ready_or_waiting ds p order i Hck Hmiss Hi (Hnone i Hi) Hni) as (c & j & ? & ? & ? & ?).
    by exists c, j.
Qed.

(** The passes of the validation together make a complete plan valid. *)
Lemma passes_valid ds p order :
  (0 < length ds <= BOOT_LEDGER_STAGE_CAPACITY)%nat -> stages_ok ds (length ds) p ->
  (forall d, d ∈ ds -> irreversible_run ds p d 5 0 = None) ->
  plan_ok ds p order -> length order = length ds ->
  (forall d, d ∈ ds -> phase_refusal ds p d = None) -> valid_plan ds order.
Proof.
  intros Hsize Hck Hirr Hpo Hcyc Hph.
  assert (Hin : forall i, (i < length ds)%nat -> ds !!! i ∈ ds).
  { intros i Hi. eapply list_elem_of_lookup_2. by apply list_lookup_lookup_total_lt. }
  assert (Hphase : forall i c j, (i < length ds)%nat -> c ∈ required_capabilities (ds !!! i) ->
    p !! c = Some j -> phase (ds !!! j) <= phase (ds !!! i)).
  { intros i c j Hi Hc Hj. specialize (Hph _ (Hin i Hi)). unfold phase_refusal in Hph.
    rewrite first_refusal_None in Hph. specialize (Hph c Hc). simpl in Hph. rewrite Hj in Hph.
    by destruct (Z.ltb_spec (phase (ds !!! i)) (phase (ds !!! j))). }
  constructor.
  - done.
  - by eapply plan_complete.
  - apply Hck.
  - apply (sk_ids _ _ _ Hck).
  - intros c i j Hi Hj Hpi Hpj.
    assert (p !! c = Some i) by by apply (sk_providers _ _ _ Hck).
    assert (p !! c = Some j) by by apply (sk_providers _ _ _ Hck). congruence.
  - intros k i c Hk Hc. destruct (plan_requirements _ _ _ _ _ _ Hpo Hk Hc) as (m & j & Hm & Hj & Hp).
    exists m, j. split; [done|]. split; [done|]. by apply (sk_providers _ _ _ Hck) in Hp as [_ ?].
  - by eapply plan_phases.
  - intros i c Hi [m Hm]%list_elem_of_lookup.
    eapply (irreversible_run_ok ds p (ds !!! i) 5 0); [|by apply Hirr, Hin|lia|exact Hm].
    pose proof (irreversible_length (irreversible_class (ds !!! i))). lia.
Qed.

(** What a run of [boot_ledger_validate] leaves, by status. *)
Lemma validate_cases l st l' :
  boot_ledger_validate l = (st, l') ->
  descriptors l' = descriptors l /\ validated l' = bool_decide (st = STATUS_OK) /\
  executed l' = false /\ receipts l' = [] /\
  (st = STATUS_OK -> valid_plan (descriptors l) (canonical_order l') /\
     validated_stage_ids l' =
       (fun i => stage_id (descriptors l !!! i)) <$> canonical_order l' /\
     validated_plan_fingerprint l' = fingerprint_plan l') /\
  (st = STATUS_CAPABILITY_DEPENDENCY_CYCLE ->
     exists S, deadlocked (descriptors l) S).
Proof.
  unfold boot_ledger_validate. set (l0 := Ledger _ _ _ _ _ _ _ _ _ _ _ _ _ _ _).
  change (descriptors l0) with (descriptors l). set (ds := descriptors l).
  assert (Hrefuse : forall r l1, descriptors l1 = ds -> validated l1 = false ->
    executed l1 = false -> receipts l1 = [] -> r.1.1 <> STATUS_OK ->
    (r.1.1 = STATUS_CAPABILITY_DEPENDENCY_CYCLE -> exists S, deadlocked ds S) ->
    refuse r l1 = (st, l') ->
    descriptors l' = ds /\ validated l' = bool_decide (st = STATUS_OK) /\
    executed l' = false /\ receipts l' = [] /\
    (st = STATUS_OK -> valid_plan ds (canonical_order l') /\
       validated_stage_ids l' = (fun i => stage_id (ds !!! i)) <$> canonical_order l' /\
       validated_plan_fingerprint l' = fingerprint_plan l') /\
    (st = STATUS_CAPABILITY_DEPENDENCY_CYCLE -> exists S, deadlocked ds S)).
  { intros [[s a] b] l1 Hd Hv He Hr Hs Hc [= <- <-]. simpl in *.
    rewrite bool_decide_false by done. by split_and!. }
  destruct (Nat.eqb_spec (length ds) 0) as [|H0]; [by apply Hrefuse|].
  destruct (Nat.ltb_spec BOOT_LEDGER_STAGE_CAPACITY (length ds)) as [|H1]; [by apply Hrefuse|].
  destruct (check_descriptors ds (length ds) 0 ∅) as [r|p] eqn:Hck.
  { destruct (check_descriptors_status _ _ _ _ _ Hck). by apply Hrefuse. }
  apply check_descriptors_ok in Hck; [|done|apply stages_ok_empty].
  destruct (first_refusal (missing_provider p) ds) as [r|] eqn:Hmiss.
  { apply first_refusal_Some in Hmiss as (d & _ & Hm). unfold missing_provider in Hm.
    apply first_refusal_Some in Hm as (c & _ & Hc). case_bool_decide; [|done].
    injection Hc as <-. by apply Hrefuse. }
  rewrite first_refusal_None in Hmiss.
  destruct (first_refusal (fun d => irreversible_run ds p d 5 0) ds) as [r|] eqn:Hirr.
  { apply first_refusal_Some in Hirr as (d & _ & Hm). apply irreversible_status in Hm.
    apply Hrefuse; rewrite ?Hm; done. }
  rewrite first_refusal_None in Hirr.
  destruct (plan_run ds p (length ds) []) as [order cycle] eqn:Hplan.
  apply plan_run_ok in Hplan as [Hpo Hcyc]; [|by constructor; [apply NoDup_nil_2|intros i Hi; by apply not_elem_of_nil in Hi|]|done].
  destruct cycle as [r|].
  { destruct Hcyc as (Hr & Hlen & Hnone). apply Hrefuse; rewrite ?Hr; try done. intros _.
    eexists. by apply (cycle_deadlocked ds p order). }
  destruct (first_refusal (phase_refusal ds p) ds) as [r|] eqn:Hph.
  { apply first_refusal_Some in Hph as (d & _ & Hm). unfold phase_refusal in Hm.
    apply first_refusal_Some in Hm as (c & _ & Hc). destruct (p !! c); [|done].
    destruct (_ <? _); [|done]. injection Hc as <-. by apply Hrefuse. }
  rewrite first_refusal_None in Hph.
  intros [= <- <-]. cbn [descriptors validated executed receipts canonical_order
    validated_stage_ids validated_plan_fingerprint set_plan l0]. fold ds.
  split_and!; try done. intros _. split; [|done].
  apply (passes_valid ds p); try done. lia.
Qed.

Lemma valid_plan_position ds order i :
  valid_plan ds order -> (i < length ds)%nat -> exists k, order !! k = Some i.
Proof.
  intros Hv Hi. apply list_elem_of_lookup. rewrite (vp_complete _ _ Hv).
  apply elem_of_seq. lia.
Qed.

Lemma valid_plan_range ds order k i :
  valid_plan ds order -> order !! k = Some i -> (i < length ds)%nat.
Proof.
  intros Hv Hk%list_elem_of_lookup_2. rewrite (vp_complete _ _ Hv) in Hk.
  apply elem_of_seq in Hk. lia.
Qed.

Lemma valid_plan_nodup ds order : valid_plan ds order -> NoDup order.
Proof. intros Hv. rewrite (vp_complete _ _ Hv). apply NoDup_seq. Qed.

(** A plan in dependency order leaves no stages waiting for each other. *)
Lemma valid_plan_no_deadlock ds order S : valid_plan ds order -> ~ deadlocked ds S.
Proof.
  intros Hv [(i0 & Hi0) Hdead].
  assert (Hno : forall k i, order !! k = Some i -> ~ S i).
  { intros k. induction (lt_wf k) as [k _ IH]. intros i Hk HS.
    destruct (Hdead i HS) as (_ & c & j & Hc & Hpj & HSj).
    destruct (vp_requirements _ _ Hv k i c Hk Hc) as (m & j' & Hm & Hj' & Hpj').
    assert (j' = j) as ->.
    { apply (vp_provider _ _ Hv c); [by eapply valid_plan_range|by apply Hdead|done|done]. }
    by apply (IH m Hm j). }
  destruct (Hdead i0 Hi0) as (Hlt & _).
  destruct (valid_plan_position ds order i0 Hv Hlt) as [k Hk]. by apply (Hno k i0).
Qed.

(** C3: a plan that [boot_ledger_validate] accepts runs every declared stage
    exactly once, in an order in which every required capability has one
    provider and that provider comes earlier, phases never go back, and every
    stage of an irreversible class declares the prerequisites of its class;
    stage identifiers are known and distinct.  A refused plan is not marked
    validated, and the declared stages are never changed. *)
Theorem boot_ledger_validate_sound l :
  let '(st, l') := boot_ledger_validate l in
  descriptors l' = descriptors l /\ executed l' = false /\
  (validated l' = true <-> st = STATUS_OK) /\
  (st = STATUS_OK -> valid_plan (descriptors l) (canonical_order l') /\
     validated_stage_ids l' = (fun i => stage_id (descriptors l !!! i)) <$> canonical_order l' /\
     validated_plan_fingerprint l' = fingerprint_plan l').
Proof.
  destruct (boot_ledger_validate l) as [st l'] eqn:E.
  destruct (validate_cases l st l' E) as (Hd & Hv & He & _ & Hok & _).
  split; [done|]. split; [done|]. split; [|done]. rewrite Hv. apply bool_decide_eq_true.
Qed.

(** [boot_ledger_validate] reports a dependency cycle only when there is a
    non-empty set of stages each of which requires a capability that only
    another stage of the set provides, and it never accepts a plan that has
    such a set. *)
Theorem boot_ledger_validate_cycle l :
  let '(st, l') := boot_ledger_validate l in
  (st = STATUS_CAPABILITY_DEPENDENCY_CYCLE -> exists S, deadlocked (descriptors l) S) /\
  (st = STATUS_OK -> forall S, ~ deadlocked (descriptors l) S).
Proof.
  destruct (boot_ledger_validate l) as [st l'] eqn:E.
  destruct (validate_cases l st l' E) as (_ & _ & _ & _ & Hok & Hc).
  split; [done|]. intros Hst S. destruct (Hok Hst) as [Hv _]. by eapply valid_plan_no_deadlock.
Qed.
End PlanProofs.

(** ** Execution *)

Section ExecutionProofs.
Context {Ctx : Type} (clear_detail : Ctx -> Ctx).
Implicit Types (d : boot_stage_descriptor Ctx) (l : boot_ledger Ctx) (r : boot_stage_result).

(** The receipt of stage [d] at position [k] of the plan. *)
Record receipt_of d (k : nat) (rc : boot_stage_receipt) : Prop := ReceiptOf {
  ro_stage : rc_stage_id rc = stage_id d;
  ro_sequence : rc_sequence rc = Z.of_nat k + 1;
  ro_provided : exists declared, declared_capabilities d (rc_result rc) = Some declared /\
    rc_provided rc ≡ₚ declared;
  ro_counters : (length (rc_proof_counters rc) <= BOOT_STAGE_PROOF_COUNTER_CAPACITY)%nat;
  ro_result :
    (rc_result rc = BOOT_RECEIPT_RAN /\ rc_status rc = STATUS_OK) \/
    (rc_result rc = BOOT_RECEIPT_SKIPPED /\ rc_status rc = STATUS_OPTIONAL_STAGE_SKIPPED /\
       required d = false) \/
    (rc_result rc = BOOT_RECEIPT_FAILED /\ rc_status rc = STATUS_OPTIONAL_STAGE_FAILED /\
       required d = false)
}.

Definition gathered (rs : list boot_stage_receipt) : list Z := concat (rc_provided <$> rs).

(** After the first [k] stages of a valid plan. *)
Record exec_inv l (k : nat) : Prop := ExecInv {
  ei_plan : valid_plan (descriptors l) (canonical_order l);
  ei_ids : validated_stage_ids l =
    (fun i => stage_id (descriptors l !!! i)) <$> canonical_order l;
  ei_length : length (receipts l) = k;
  ei_receipt : forall m rc, receipts l !! m = Some rc -> exists i,
    canonical_order l !! m = Some i /\ receipt_of (descriptors l !!! i) m rc /\
    (rc_result rc <> BOOT_RECEIPT_SKIPPED ->
     forall c, c ∈ required_capabilities (descriptors l !!! i) ->
       c ∈ gathered (take m (receipts l)));
  ei_established : established_capabilities l = gathered (receipts l);
  ei_nodup : NoDup (established_capabilities l);
  ei_from : forall c, c ∈ established_capabilities l -> exists m i, (m < k)%nat /\
    canonical_order l !! m = Some i /\ provides (descriptors l !!! i) c
}.

(** The plan and its validation are the same. *)
Definition same_plan l l' : Prop :=
  descriptors l' = descriptors l /\ canonical_order l' = canonical_order l /\
  validated_stage_ids l' = validated_stage_ids l /\ validated l' = validated l /\
  executed l' = executed l /\ validated_plan_fingerprint l' = validated_plan_fingerprint l.

Lemma declared_provides d z declared :
  declared_capabilities d z = Some declared -> forall c, c ∈ declared -> provides d c.
Proof.
  unfold declared_capabilities, provides.
  destruct (z =? BOOT_RECEIPT_RAN); [intros [= <-]; auto|].
  destruct (z =? BOOT_RECEIPT_SKIPPED); [intros [= <-]; auto|].
  destruct (negb _); [done|]. intros [= <-] c Hc. by apply not_elem_of_nil in Hc.
Qed.

Lemma declared_ok d z declared :
  stage_ok d -> declared_capabilities d z = Some declared ->
  NoDup declared /\ (length declared <= BOOT_STAGE_CAPABILITY_CAPACITY)%nat.
Proof.
  intros Hs. unfold declared_capabilities.
  destruct (z =? BOOT_RECEIPT_RAN); [intros [= <-]; split; apply Hs|].
  destruct (z =? BOOT_RECEIPT_SKIPPED); [intros [= <-]; split; apply Hs|].
  destruct (negb _); [done|]. intros [= <-]. split; [apply NoDup_nil_2|simpl; lia].
Qed.

(** An accepted result provides exactly what was declared for its outcome. *)
Lemma validate_result_ok d r bad :
  stage_ok d -> validate_result d r = (STATUS_OK, bad) ->
  exists declared, declared_capabilities d (res_result r) = Some declared /\
    res_provided r ≡ₚ declared /\
    (length (res_proof_counters r) <= BOOT_STAGE_PROOF_COUNTER_CAPACITY)%nat.
Proof.
  intros Hs. unfold validate_result.
  destruct (declared_capabilities d (res_result r)) as [declared|] eqn:Hd; [|done].
  destruct (Nat.ltb_spec BOOT_STAGE_CAPABILITY_CAPACITY (length (res_provided r))); [done|].
  destruct (Nat.ltb_spec BOOT_STAGE_PROOF_COUNTER_CAPACITY (length (res_proof_counters r)));
    [done|]. cbn [orb].
  destruct (first_index _ (res_provided r)); [done|].
  destruct (Nat.eqb_spec (length (res_provided r)) (length declared)) as [Hlen|]; [|done]. cbn [negb].
  destruct (first_index _ declared) eqn:Hall; [done|]. intros _. exists declared.
  split; [done|]. split; [|done]. symmetry. apply submseteq_length_Permutation; [|lia].
  apply NoDup_submseteq; [by eapply declared_ok|].
  intros c [m Hm]%list_elem_of_lookup. rewrite first_index_None in Hall.
  specialize (Hall m c Hm). simpl in Hall. by apply negb_false_iff, has_capability_iff in Hall.
Qed.

(** Fresh known capabilities are all established, in order. *)
Lemma establish_fresh id cs l :
  NoDup (established_capabilities l ++ cs) ->
  (forall c, c ∈ established_capabilities l ++ cs -> capability_is_known c = true) ->
  establish id cs l = (None, set_established (established_capabilities l ++ cs) l).
Proof.
  revert l. induction cs as [|c cs IH]; intros l Hnd Hk; cbn [establish].
  { rewrite app_nil_r. by destruct l. }
  assert (Hc : boot_ledger_has_capability l c = false).
  { unfold boot_ledger_has_capability. destruct (negb _); [done|]. apply has_capability_false.
    intros Hin. apply NoDup_app in Hnd as (_ & Hno & _). apply (Hno c Hin), list_elem_of_here. }
  rewrite Hc. cbn [negb].
  pose proof (known_bound (established_capabilities l ++ c :: cs) Hnd Hk) as Hb.
  rewrite length_app in Hb.
  destruct (Z.leb_spec BOOT_CAPABILITY_COUNT (Z.of_nat (length (established_capabilities l)))); [simpl in Hb; lia|].
  rewrite IH; cbn [established_capabilities set_established]; rewrite <- ?app_assoc; done.
Qed.

Lemma exec_inv_known l k c :
  exec_inv l k -> c ∈ established_capabilities l -> capability_is_known c = true.
Proof.
  intros Hi Hc. destruct (ei_from l k Hi c Hc) as (m & i & _ & Hm & Hp).
  eapply so_provides_known; [|exact Hp]. eapply vp_stages; [apply Hi|].
  by eapply valid_plan_range; [apply Hi|].
Qed.

(** What stage [i], next in the plan, provides is new. *)
Lemma provided_fresh l k i cs :
  exec_inv l k -> canonical_order l !! k = Some i -> NoDup cs ->
  (forall c, c ∈ cs -> provides (descriptors l !!! i) c) ->
  NoDup (established_capabilities l ++ cs) /\
  forall c, c ∈ established_capabilities l ++ cs -> capability_is_known c = true.
Proof.
  intros Hi Hk Hnd Hp. pose proof (ei_plan l k Hi) as Hv.
  assert (Hlt : (i < length (descriptors l))%nat) by (by eapply valid_plan_range).
  split.
  - apply NoDup_app. split_and!; [apply Hi| |done]. intros c Hc Hcs.
    destruct (ei_from l k Hi c Hc) as (m & j & Hm & Hj & Hpj).
    assert (j = i) as ->.
    { apply (vp_provider _ _ Hv c); [by eapply valid_plan_range|done|done|by apply Hp]. }
    pose proof (NoDup_lookup _ _ _ _ (valid_plan_nodup _ _ Hv) Hj Hk). lia.
  - intros c [Hc|Hc]%elem_of_app; [by eapply exec_inv_known|].
    eapply so_provides_known; [by apply (vp_stages _ _ Hv)|by apply Hp].
Qed.

Lemma gathered_snoc rs rc : gathered (rs ++ [rc]) = gathered rs ++ rc_provided rc.
Proof. unfold gathered. rewrite fmap_app, concat_app. simpl. by rewrite app_nil_r. Qed.

(** Recording the next stage of the plan. *)
Lemma append_receipt_ok l k i r st :
  let d := descriptors l !!! i in
  exec_inv l k -> canonical_order l !! k = Some i ->
  (exists declared, declared_capabilities d (res_result r) = Some declared /\
     res_provided r ≡ₚ declared) ->
  (length (res_proof_counters r) <= BOOT_STAGE_PROOF_COUNTER_CAPACITY)%nat ->
  ((res_result r = BOOT_RECEIPT_RAN /\ st = STATUS_OK) \/
   (res_result r = BOOT_RECEIPT_SKIPPED /\ st = STATUS_OPTIONAL_STAGE_SKIPPED /\ required d = false) \/
   (res_result r = BOOT_RECEIPT_FAILED /\ st = STATUS_OPTIONAL_STAGE_FAILED /\ required d = false)) ->
  (res_result r <> BOOT_RECEIPT_SKIPPED ->
   forall c, c ∈ required_capabilities d -> c ∈ established_capabilities l) ->
  exists l', append_receipt d r st l = (STATUS_OK, l') /\ exec_inv l' (S k) /\ same_plan l l'.
Proof.
  intros d Hi Hk (declared & Hdec & Hperm) Hcnt Hres Hneed.
  pose proof (ei_plan l k Hi) as Hv.
  assert (Hlt : (i < length (descriptors l))%nat) by (by eapply valid_plan_range).
  pose proof (vp_stages _ _ Hv i Hlt) as Hs. fold d in Hs.
  destruct (declared_ok d _ _ Hs Hdec) as [Hdn _].
  assert (Hpr : forall c, c ∈ res_provided r -> provides d c).
  { intros c Hc. rewrite Hperm in Hc. by eapply declared_provides. }
  destruct (provided_fresh l k i (res_provided r) Hi Hk) as [Hfn Hfk]; [by rewrite Hperm|done|].
  pose proof (ei_length l k Hi) as Hlen. pose proof (vp_size _ _ Hv) as Hsize.
  assert (Hkl : (k < length (descriptors l))%nat).
  { apply lookup_lt_Some in Hk. rewrite (vp_complete _ _ Hv), length_seq in Hk. done. }
  unfold append_receipt.
  destruct (Nat.leb_spec BOOT_LEDGER_RECEIPT_CAPACITY (length (receipts l))) as [Hfull|_].
  { unfold BOOT_LEDGER_RECEIPT_CAPACITY, BOOT_LEDGER_STAGE_CAPACITY in *. lia. }
  rewrite establish_fresh by done. cbn [receipts established_capabilities set_established].
  eexists. split; [done|]. split; [|done].
  assert (Hseq : u32 (Z.of_nat (length (receipts l)) + 1) = Z.of_nat k + 1).
  { rewrite Hlen. apply wrap_small. unfold fits, BOOT_LEDGER_STAGE_CAPACITY in *. lia. }
  rewrite Hseq. constructor; cbn [descriptors canonical_order validated_stage_ids receipts
    established_capabilities set_established].
  - done.
  - apply Hi.
  - rewrite length_app. simpl. lia.
  - intros m rc Hm. destruct (decide (m < k)%nat) as [Hmk|Hmk].
    + rewrite lookup_app_l in Hm by lia. rewrite take_app_le by lia. by apply Hi.
    + rewrite lookup_app_r in Hm by lia. apply list_lookup_singleton_Some in Hm as [Hm0 <-].
      assert (m = k) as -> by lia. exists i. split; [done|]. split.
      * constructor; try done. by exists declared.
      * intros Hr c Hc. rewrite take_app_length' by lia.
        rewrite <- (ei_established l k Hi). by apply Hneed.
  - by rewrite gathered_snoc, (ei_established l k Hi).
  - done.
  - intros c [Hc|Hc]%elem_of_app.
    + destruct (ei_from l k Hi c Hc) as (m & j & ? & ? & ?). exists m, j. split_and!; [lia|done..].
    + exists k, i. split_and!; [lia|done|by apply Hpr].
Qed.

Lemma requirements_None l d :
  requirements_established l d = None ->
  forall c, c ∈ required_capabilities d -> c ∈ established_capabilities l.
Proof.
  unfold requirements_established. rewrite fmap_None, first_index_None.
  intros H c [m Hm]%list_elem_of_lookup. specialize (H m c Hm). simpl in H.
  apply negb_false_iff in H. unfold boot_ledger_has_capability in H.
  destruct (negb _); [done|]. by apply has_capability_iff.
Qed.

Lemma same_plan_refuse rf l : same_plan l (set_refusal rf l).
Proof. by destruct rf as [[? ?] ?]. Qed.

Lemma same_plan_trans l1 l2 l3 : same_plan l1 l2 -> same_plan l2 l3 -> same_plan l1 l3.
Proof. unfold same_plan. intuition congruence. Qed.

Lemma same_plan_degraded b l l' : same_plan l l' -> same_plan l (set_degraded b l').
Proof. done. Qed.

Lemma exec_inv_degraded b l k : exec_inv l k -> exec_inv (set_degraded b l) k.
Proof. intros []. by constructor. Qed.

(** What the execution of the next stage may report. *)
Definition stage_refusal (st : boot_ledger_status) : Prop :=
  st = STATUS_STAGE_EXECUTED_BEFORE_REQUIREMENTS \/ st = STATUS_REQUIRED_STAGE_SKIPPED \/
  st = STATUS_REQUIRED_STAGE_FAILED \/ st = STATUS_UNDECLARED_CAPABILITY_PROVIDED \/
  st = STATUS_RECEIPT_MISMATCH.

Lemma establish_same_plan id cs l : same_plan l (establish id cs l).2.
Proof.
  revert l. induction cs as [|c cs IH]; intros l; cbn [establish]; [done|].
  destruct (negb _); [|apply IH]. destruct (_ <=? _); [done|].
  eapply same_plan_trans; [|apply IH]. done.
Qed.

Lemma append_same_plan d r st l : same_plan l (append_receipt d r st l).2.
Proof.
  unfold append_receipt. destruct (_ <=? _)%nat; [apply same_plan_refuse|].
  pose proof (establish_same_plan (stage_id d) (res_provided r) l) as H.
  destruct (establish _ _ l) as [[rf|] l1]; cbn [snd] in H.
  - eapply same_plan_trans; [exact H|]. apply same_plan_refuse.
  - exact H.
Qed.

Lemma validate_result_status d r :
  (validate_result d r).1 = STATUS_OK \/
  (validate_result d r).1 = STATUS_UNDECLARED_CAPABILITY_PROVIDED \/
  (validate_result d r).1 = STATUS_RECEIPT_MISMATCH.
Proof.
  unfold validate_result. destruct (declared_capabilities _ _); [|auto].
  destruct (_ || _); [auto|]. destruct (first_index _ _); [auto|].
  destruct (negb _); [auto|]. destruct (first_index _ _); auto.
Qed.

Lemma execute_stage_ok l k i context st context' l' :
  exec_inv l k -> canonical_order l !! k = Some i ->
  execute_stage clear_detail (descriptors l !!! i) context l = (st, context', l') ->
  same_plan l l' /\ (st = STATUS_OK /\ exec_inv l' (S k) \/ stage_refusal st).
Proof.
  intros Hi Hk. set (d := descriptors l !!! i). unfold execute_stage.
  assert (Hs : stage_ok d).
  { eapply vp_stages; [apply Hi|]. by eapply valid_plan_range; [apply Hi|]. }
  destruct (requirements_established l d) as [missing|] eqn:Hreq.
  { destruct (required d) eqn:Hrd.
    - intros [= <- <- <-]. split; [done|]. right. by left.
    - destruct (append_receipt_ok l k i (boot_stage_result_skip d) STATUS_OPTIONAL_STAGE_SKIPPED)
        as (l1 & Ha & Hi1 & Hsp); [done|done|by eexists|simpl; lia|by right; left|done|].
      fold d in Ha. rewrite Ha. intros [= <- <- <-]. split; [done|]. by left. }
  pose proof (requirements_None l d Hreq) as Hneed.
  destruct (run_stage d (clear_detail context)) as [c1 r].
  destruct (validate_result d r) as [vs bad] eqn:Hvr.
  destruct (decide (vs = STATUS_OK)) as [->|Hne].
  2: { pose proof (validate_result_status d r) as Hst. rewrite Hvr in Hst. cbn [fst] in Hst.
       destruct Hst as [->|[->| ->]]; [done| |]; intros [= <- <- <-];
         (split; [done|right; unfold stage_refusal; tauto]). }
  apply validate_result_ok in Hvr as (declared & Hdec & Hperm & Hcnt); [|done].
  destruct ((res_result r =? BOOT_RECEIPT_SKIPPED) && required d) eqn:Hsk.
  { intros [= <- <- <-]. split; [|right; unfold stage_refusal; tauto].
    eapply same_plan_trans; [apply append_same_plan|done]. }
  destruct (Z.eqb_spec (res_result r) BOOT_RECEIPT_FAILED) as [Hf|Hf].
  { destruct (required d) eqn:Hrd.
    - intros [= <- <- <-]. split; [|right; unfold stage_refusal; tauto].
      eapply same_plan_trans; [apply append_same_plan|done].
    - destruct (append_receipt_ok l k i r STATUS_OPTIONAL_STAGE_FAILED)
        as (l1 & Ha & Hi1 & Hsp); [done|done|by exists declared|done|by right; right|done|].
      fold d in Ha. rewrite Ha. intros [= <- <- <-]. split; [done|]. left. split; [done|].
      by apply exec_inv_degraded. }
  assert (Hcase : res_result r = BOOT_RECEIPT_RAN \/ res_result r = BOOT_RECEIPT_SKIPPED).
  { unfold declared_capabilities in Hdec. destruct (Z.eqb_spec (res_result r) BOOT_RECEIPT_RAN); [by left|].
    destruct (Z.eqb_spec (res_result r) BOOT_RECEIPT_SKIPPED); [by right|].
    by destruct (Z.eqb_spec (res_result r) BOOT_RECEIPT_FAILED). }
  destruct (append_receipt_ok l k i r
    (if res_result r =? BOOT_RECEIPT_SKIPPED then STATUS_OPTIONAL_STAGE_SKIPPED else STATUS_OK))
    as (l1 & Ha & Hi1 & Hsp); [done|done|by exists declared|done| |done|].
  { destruct Hcase as [-> | Hz]; [by left|]. right; left. rewrite Hz in Hsk |- *.
    rewrite Z.eqb_refl in Hsk |- *. done. }
  fold d in Ha. rewrite Ha. intros [= <- <- <-]. split; [done|]. by left.
Qed.

Lemma tail_of_drop {A} (xs : list A) k : tail (drop k xs) = drop (S k) xs.
Proof. revert xs. induction k as [|k IH]; intros [|x xs]; try done. apply IH. Qed.

Lemma exec_inv_le l k : exec_inv l k -> (k <= length (canonical_order l))%nat.
Proof.
  intros Hi. destruct k as [|k]; [lia|].
  destruct (lookup_lt_is_Some_2 (receipts l) k) as [rc Hrc]; [rewrite (ei_length _ _ Hi); lia|].
  destruct (ei_receipt _ _ Hi k rc Hrc) as (i & Hk & _). apply lookup_lt_Some in Hk. lia.
Qed.

Lemma execute_run_ok order ids context l k st context' l' :
  exec_inv l k -> order = drop k (canonical_order l) -> ids = drop k (validated_stage_ids l) ->
  execute_run clear_detail order ids context l = (st, context', l') ->
  same_plan l l' /\
  (st = STATUS_OK /\ exec_inv l' (length (canonical_order l)) \/ stage_refusal st).
Proof.
  revert ids context l k. induction order as [|i order IH]; intros ids context l k Hi Ho Hids;
    cbn [execute_run].
  { intros [= <- <- <-]. split; [done|]. left. split; [done|].
    replace (length (canonical_order l)) with k; [done|].
    assert (Hlen : length (drop k (canonical_order l)) = O) by by rewrite <- Ho.
    rewrite length_drop in Hlen. pose proof (exec_inv_le l k Hi). lia. }
  assert (Hk : canonical_order l !! k = Some i).
  { rewrite <- (Nat.add_0_r k), <- lookup_drop, <- Ho. done. }
  assert (Hid : head ids = Some (stage_id (descriptors l !!! i))).
  { rewrite Hids, (ei_ids l k Hi), <- fmap_drop, <- Ho. done. }
  rewrite Hid. cbn [default from_option id]. rewrite Z.eqb_refl. cbn [negb].
  destruct (execute_stage clear_detail (descriptors l !!! i) context l) as [[st1 c1] l1] eqn:Es.
  apply (execute_stage_ok l k) in Es as [Hsp Hcase]; [|done..].
  destruct Hcase as [[-> Hi1] | Href].
  - intros Hrun. pose proof Hsp as (Hd & Hord & Hv & _).
    apply (IH _ _ _ (S k)) in Hrun as [Hsp' Hres]; [|done| |].
    + split; [by eapply same_plan_trans|]. by rewrite Hord in Hres.
    + rewrite Hord. rewrite (drop_S _ _ _ Hk) in Ho. by injection Ho.
    + rewrite Hids, Hv. apply tail_of_drop.
  - intros Hrun. assert (Hne : st1 <> STATUS_OK) by (by destruct Href as [->|[->|[->|[->| ->]]]]).
    assert ((st1, c1, l1) = (st, context', l')) as [= <- <- <-] by (by destruct st1).
    split; [done|]. by right.
Qed.

(** *** The audit accepts what execution produced *)

Lemma verify_provided_ok id declared capabilities earlier rest :
  NoDup (capabilities ++ rest) ->
  (forall c, c ∈ capabilities ++ rest -> capability_is_known c = true) ->
  (forall c, c ∈ rest -> c ∈ declared) -> (forall c, c ∈ earlier -> c ∈ capabilities) ->
  verify_provided id declared capabilities earlier rest = inr (capabilities ++ rest).
Proof.
  revert capabilities earlier. induction rest as [|c rest IH]; intros capabilities earlier Hnd Hk Hd He;
    cbn [verify_provided].
  { by rewrite app_nil_r. }
  assert (Hc : c ∉ capabilities).
  { intros Hin. apply NoDup_app in Hnd as (_ & Hno & _). by apply (Hno c Hin), list_elem_of_here. }
  rewrite Hk by (apply elem_of_app; right; apply list_elem_of_here).
  rewrite (proj2 (has_capability_iff declared c)) by (apply Hd, list_elem_of_here).
  rewrite (proj2 (has_capability_false earlier c)) by (by intros ?%He).
  rewrite (proj2 (has_capability_false capabilities c)) by done. cbn [negb].
  pose proof (known_bound _ Hnd Hk) as Hb. rewrite length_app in Hb.
  destruct (Z.leb_spec BOOT_CAPABILITY_COUNT (Z.of_nat (length capabilities))); [simpl in Hb; lia|].
  rewrite IH; rewrite <- ?app_assoc; try done.
  - intros x Hx. apply Hd. by apply list_elem_of_further.
  - intros x [Hx|Hx]%elem_of_app; apply elem_of_app; [left; by apply He|by right].
Qed.

Lemma receipt_of_formed d k rc :
  stage_ok d -> receipt_of d k rc -> receipt_malformed rc = false /\
  required d && (negb (rc_result rc =? BOOT_RECEIPT_RAN) || bool_decide (rc_status rc <> STATUS_OK)) =
    false.
Proof.
  intros Hs [_ _ (declared & Hdec & Hperm) Hcnt Hres]. unfold receipt_malformed.
  destruct (declared_ok d _ _ Hs Hdec) as [_ Hlen]. rewrite <- Hperm in Hlen.
  destruct (Nat.ltb_spec BOOT_STAGE_CAPABILITY_CAPACITY (length (rc_provided rc))); [lia|].
  destruct (Nat.ltb_spec BOOT_STAGE_PROOF_COUNTER_CAPACITY (length (rc_proof_counters rc))); [lia|].
  destruct Hres as [[-> ->] | [(-> & -> & ->) | (-> & -> & ->)]]; [|done|done].
  split; [done|]. by rewrite andb_false_r.
Qed.

Lemma exec_inv_order l k m i j :
  exec_inv l k -> canonical_order l !! m = Some i -> canonical_order l !! j = Some i -> m = j.
Proof.
  intros Hi Hm Hj. eapply NoDup_lookup; [|done|done].
  by eapply valid_plan_nodup; apply Hi.
Qed.

(** The declared set the audit compares a receipt with. *)
Lemma declared_audit d z declared :
  declared_capabilities d z = Some declared ->
  (if z =? BOOT_RECEIPT_RAN then provided_capabilities d
   else if z =? BOOT_RECEIPT_SKIPPED then skipped_capabilities d else []) = declared.
Proof.
  unfold declared_capabilities. destruct (z =? BOOT_RECEIPT_RAN); [congruence|].
  destruct (z =? BOOT_RECEIPT_SKIPPED); [congruence|]. destruct (negb _); congruence.
Qed.

Lemma gathered_prefix l k m :
  exec_inv l k -> (m <= k)%nat ->
  exists rest, established_capabilities l = gathered (take m (receipts l)) ++ rest.
Proof.
  intros Hi Hm. exists (gathered (drop m (receipts l))).
  rewrite (ei_established l k Hi). unfold gathered.
  by rewrite <- concat_app, <- fmap_app, take_drop.
Qed.

Lemma verify_receipt_ok l k m rc seen :
  exec_inv l k -> receipts l !! m = Some rc ->
  (forall z, z ∈ seen -> exists j i, (j < m)%nat /\ canonical_order l !! j = Some i /\
     z = stage_id (descriptors l !!! i)) ->
  verify_receipt l m rc seen (gathered (take m (receipts l))) =
    inr (gathered (take (S m) (receipts l))).
Proof.
  intros Hi Hm Hseen. destruct (ei_receipt l k Hi m rc Hm) as (i & Ho & Hrc & Hneed).
  pose proof (ei_plan l k Hi) as Hv.
  assert (Hlt : (i < length (descriptors l))%nat) by (by eapply valid_plan_range).
  pose proof (vp_stages _ _ Hv i Hlt) as Hs. set (d := descriptors l !!! i) in *.
  destruct (receipt_of_formed d m rc Hs Hrc) as [Hform Hreq].
  destruct Hrc as [Hid Hseq (declared & Hdec & Hperm) Hcnt _].
  unfold verify_receipt, boot_ledger_planned_stage_at.
  rewrite Hid, (so_known d Hs), Ho. cbn [negb].
  destruct (Nat.leb_spec (length (descriptors l)) i); [lia|].
  rewrite (list_lookup_lookup_total_lt _ _ Hlt). fold d.
  rewrite Z.eqb_refl, Hseq, Z.eqb_refl. cbn [negb orb].
  rewrite bool_decide_false.
  2: { intros (j & i' & Hj & Ho' & Hz)%Hseen. apply (vp_ids _ _ Hv) in Hz; [|done|by eapply valid_plan_range].
       subst i'. pose proof (exec_inv_order l k m i j Hi Ho Ho'). lia. }
  rewrite Hform, Hreq.
  assert (Hmiss : (if negb (rc_result rc =? BOOT_RECEIPT_SKIPPED) then
    first_refusal (fun c => if negb (descriptor_has_capability (gathered (take m (receipts l))) c)
      then Some (STATUS_STAGE_EXECUTED_BEFORE_REQUIREMENTS, stage_id d, c) else None)
      (required_capabilities d) else None) = None).
  { destruct (Z.eqb_spec (rc_result rc) BOOT_RECEIPT_SKIPPED); [done|]. cbn [negb].
    apply first_refusal_None. intros c Hc.
    by rewrite (proj2 (has_capability_iff _ _)) by (by apply Hneed). }
  rewrite Hmiss, (declared_audit d _ _ Hdec), Hperm, Nat.eqb_refl. cbn [negb].
  assert (Hmk : (S m <= k)%nat).
  { apply lookup_lt_Some in Hm. rewrite (ei_length l k Hi) in Hm. lia. }
  assert (Hsnoc : gathered (take (S m) (receipts l)) = gathered (take m (receipts l)) ++ rc_provided rc).
  { by rewrite (take_S_r _ _ _ Hm), gathered_snoc. }
  destruct (gathered_prefix l k (S m) Hi Hmk) as [rest Hrest]. rewrite Hsnoc in Hrest.
  rewrite verify_provided_ok.
  - rewrite Hsnoc. rewrite (proj2 (first_refusal_None _ _)); [done|]. intros c Hc.
    rewrite (proj2 (has_capability_iff _ _)); [done|]. by rewrite Hperm.
  - pose proof (ei_nodup l k Hi) as Hnd. rewrite Hrest in Hnd. by apply NoDup_app in Hnd as [? _].
  - intros c Hc. eapply exec_inv_known; [exact Hi|]. rewrite Hrest. apply elem_of_app. by left.
  - intros c Hc. by rewrite Hperm in Hc.
  - intros c Hc. by apply not_elem_of_nil in Hc.
Qed.

Lemma verify_receipts_ok l k m rest seen :
  exec_inv l k -> rest = drop m (receipts l) -> (m <= k)%nat ->
  (forall z, z ∈ seen -> exists j i, (j < m)%nat /\ canonical_order l !! j = Some i /\
     z = stage_id (descriptors l !!! i)) ->
  verify_receipts l m rest seen (gathered (take m (receipts l))) = inr (gathered (receipts l)).
Proof.
  intros Hi. revert m seen. induction rest as [|rc rest IH]; intros m seen Hr Hm Hseen;
    cbn [verify_receipts].
  { rewrite take_ge; [done|]. assert (Hlen : length (drop m (receipts l)) = O) by by rewrite <- Hr.
    rewrite length_drop in Hlen. lia. }
  assert (Hmr : receipts l !! m = Some rc).
  { rewrite <- (Nat.add_0_r m), <- lookup_drop, <- Hr. done. }
  rewrite (verify_receipt_ok l k) by done.
  destruct (ei_receipt l k Hi m rc Hmr) as (i & Ho & Hrc & _).
  apply IH.
  - rewrite (drop_S _ _ _ Hmr) in Hr. by injection Hr.
  - apply lookup_lt_Some in Hmr. rewrite (ei_length l k Hi) in Hmr. lia.
  - intros z [Hz|Hz]%elem_of_app.
    + destruct (Hseen z Hz) as (j & i' & Hj & ? & ?). exists j, i'. split; [lia|done].
    + apply list_elem_of_singleton in Hz as ->. exists m, i. split; [lia|]. split; [done|].
      apply (ro_stage _ _ _ Hrc).
Qed.

Lemma exec_inv_verified l :
  exec_inv l (length (canonical_order l)) -> verify_receipt_set l = (STATUS_OK, l).
Proof.
  intros Hi. unfold verify_receipt_set. rewrite (ei_length l _ Hi), Nat.eqb_refl. cbn [negb].
  pose proof (verify_receipts_ok l _ 0 (receipts l) [] Hi eq_refl ltac:(lia)) as Hv.
  change (gathered (take 0 (receipts l))) with (@nil Z) in Hv. rewrite Hv.
  2: { intros z Hz. by apply not_elem_of_nil in Hz. }
  rewrite <- (ei_established l _ Hi), Nat.eqb_refl. cbn [negb].
  rewrite (proj2 (first_refusal_None _ _)); [done|]. intros c Hc.
  unfold boot_ledger_has_capability. rewrite (exec_inv_known l _ c Hi Hc). cbn [negb].
  by rewrite (proj2 (has_capability_iff _ _)).
Qed.

(** *** Whole executions *)

Definition set_started l : boot_ledger Ctx :=
  Ledger (descriptors l) (canonical_order l) (validated_stage_ids l) [] []
    (ledger_status l) (refusal_stage l) (refusal_capability l)
    (validated_plan_fingerprint l) (fingerprint l) 0 0 (validated l) (executed l) false.

Lemma validated_start l l1 :
  boot_ledger_validate l = (STATUS_OK, l1) ->
  exec_inv (set_started l1) 0 /\ validated l1 = true /\ executed l1 = false /\
  fingerprint_plan l1 = validated_plan_fingerprint l1.
Proof.
  intros Hval. destruct (validate_cases l _ l1 Hval) as (Hd & Hv & He & _ & Hok & _).
  destruct (Hok eq_refl) as (Hvp & Hids & Hfp). rewrite <- Hd in Hvp, Hids. split_and!; [|done..].
  constructor; cbn; try done.
  - apply NoDup_nil_2.
  - intros c Hc. by apply not_elem_of_nil in Hc.
Qed.

Lemma execute_of_validated l l1 context :
  boot_ledger_validate l = (STATUS_OK, l1) ->
  boot_ledger_execute clear_detail l1 context =
    match execute_run clear_detail (canonical_order l1) (validated_stage_ids l1) context
            (set_started l1) with
    | (STATUS_OK, context, l) =>
        (STATUS_OK, context,
         Ledger (descriptors l) (canonical_order l) (validated_stage_ids l) (receipts l)
           (established_capabilities l) STATUS_OK (refusal_stage l) (refusal_capability l)
           (validated_plan_fingerprint l) (fingerprint_receipts l) (executed_count l)
           (optional_skip_count l) (validated l) true (degraded l))
    | failed => failed
    end.
Proof.
  intros Hval. destruct (validated_start l l1 Hval) as (_ & Hv & He & Hfp).
  unfold boot_ledger_execute. unfold set_started. by rewrite Hv, He, Hfp, Z.eqb_refl.
Qed.

Lemma execute_cases l l1 context st context' l2 :
  boot_ledger_validate l = (STATUS_OK, l1) ->
  boot_ledger_execute clear_detail l1 context = (st, context', l2) ->
  descriptors l2 = descriptors l /\ canonical_order l2 = canonical_order l1 /\
  (st = STATUS_OK /\ executed l2 = true /\ exec_inv l2 (length (canonical_order l2)) /\
     boot_ledger_fingerprint_valid l2 = true \/
   stage_refusal st /\ executed l2 = false).
Proof.
  intros Hval. destruct (validated_start l l1 Hval) as (Hi & Hv & He & Hfp).
  destruct (validate_cases l _ l1 Hval) as (Hd & _).
  rewrite (execute_of_validated l l1 context Hval).
  destruct (execute_run _ _ _ _ _) as [[st3 c3] l3] eqn:Erun.
  apply (execute_run_ok _ _ _ _ 0) in Erun as [Hsp Hcase]; [|done..].
  destruct Hsp as (Hd3 & Ho3 & _ & Hv3 & He3 & Hf3). cbn in Hd3, Ho3, Hv3, He3, Hf3.
  destruct Hcase as [[-> Hi3]|Href].
  - intros [= <- <- <-]. cbn [descriptors canonical_order executed]. split; [congruence|].
    split; [done|]. left. split_and!; [done|done| |].
    + replace (length (canonical_order l3)) with (length (canonical_order l1)) by congruence.
      destruct Hi3. by constructor.
    + unfold boot_ledger_fingerprint_valid.
      cbn [validated executed fingerprint validated_plan_fingerprint].
      unfold fingerprint_receipts, fingerprint_plan in *.
      cbn [validated_plan_fingerprint receipts canonical_order descriptors].
      by rewrite Hv3, Hv, Z.eqb_refl, Hd3, Ho3, Hf3, Hfp, Z.eqb_refl.
  - intros Heq. assert ((st3, c3, l3) = (st, context', l2)) as [= <- <- <-].
    { destruct Href as [->|[->|[->|[->| ->]]]]; exact Heq. }
    split; [congruence|]. split; [done|]. right. split; [done|]. congruence.
Qed.

(** C37: when a validated plan executes to completion, the receipts form a
    complete record of the plan: one receipt per stage in plan order,
    numbered from 1, each with exactly the capabilities its descriptor declares
    for its outcome, a stage that was not skipped only after all its
    requirements were established, and every required stage ran.  The
    independent audit [verify_receipt_set] and both fingerprints accept it. *)
Theorem boot_ledger_execute_verified l l1 context context' l2 :
  boot_ledger_validate l = (STATUS_OK, l1) ->
  boot_ledger_execute clear_detail l1 context = (STATUS_OK, context', l2) ->
  verify_receipt_set l2 = (STATUS_OK, l2) /\ boot_ledger_fingerprint_valid l2 = true /\
  exec_inv l2 (length (canonical_order l2)) /\ length (receipts l2) = length (descriptors l).
Proof.
  intros Hval Hrun. destruct (execute_cases _ _ _ _ _ _ Hval Hrun) as (Hd & Ho & Hcase).
  destruct Hcase as [(_ & _ & Hi & Hfp)|[Href _]]; [|by destruct Href as [?|[?|[?|[?|?]]]]].
  split; [by apply exec_inv_verified|]. split; [done|]. split; [done|].
  rewrite (ei_length _ _ Hi), <- Hd, (vp_complete _ _ (ei_plan _ _ Hi)). apply length_seq.
Qed.

(** Executing a validated plan only ends in success or in the refusal of a
    stage (requirements not established, a required stage skipped or failed, a
    result that does not match its declaration): the receipt table never
    overflows, the plan never differs from the validated one, and a refused
    execution is not marked executed.  A ledger executed once refuses to
    execute again and keeps its receipts. *)
Theorem boot_ledger_execute_refusals l l1 context st context' l2 :
  boot_ledger_validate l = (STATUS_OK, l1) ->
  boot_ledger_execute clear_detail l1 context = (st, context', l2) ->
  (st = STATUS_OK \/ stage_refusal st) /\ (executed l2 = true <-> st = STATUS_OK) /\
  descriptors l2 = descriptors l /\ canonical_order l2 = canonical_order l1 /\
  (st = STATUS_OK -> forall again, exists l3,
     boot_ledger_execute clear_detail l2 again = (STATUS_ALREADY_EXECUTED, again, l3) /\
     receipts l3 = receipts l2 /\ fingerprint l3 = fingerprint l2).
Proof.
  intros Hval Hrun. destruct (execute_cases _ _ _ _ _ _ Hval Hrun) as (Hd & Ho & Hcase).
  destruct Hcase as [(-> & He & Hi & Hfp)|[Href He]].
  - split; [by left|]. split; [by rewrite He|]. split; [done|]. split; [done|]. intros _ again.
    unfold boot_ledger_execute. unfold boot_ledger_fingerprint_valid in Hfp.
    destruct (validated l2); [|done]. rewrite He. by eexists.
  - split; [by right|]. rewrite He. split_and!; try done.
    + split; [done|]. by destruct Href as [->|[->|[->|[->| ->]]]].
    + by destruct Href as [->|[->|[->|[->| ->]]]].
Qed.

(** *** Executions in which every stage succeeds *)

Record all_ran l : Prop := AllRan {
  ar_results : forall m rc, receipts l !! m = Some rc -> rc_result rc = BOOT_RECEIPT_RAN;
  ar_healthy : degraded l = false;
  ar_skips : optional_skip_count l = 0
}.

Definition succeeds d : Prop := exists f, execute d = Some f /\
  forall context r, (f context r).2 = boot_stage_result_succeed d.

(** What a stage requires, its provider provides by running. *)
Definition supplied_by_running (ds : list (boot_stage_descriptor Ctx)) : Prop :=
  forall i j c, (i < length ds)%nat -> (j < length ds)%nat ->
    c ∈ required_capabilities (ds !!! i) -> provides (ds !!! j) c ->
    c ∈ provided_capabilities (ds !!! j).

Lemma establish_frame id cs l :
  receipts (establish id cs l).2 = receipts l /\ degraded (establish id cs l).2 = degraded l /\
  optional_skip_count (establish id cs l).2 = optional_skip_count l.
Proof.
  revert l. induction cs as [|c cs IH]; intros l; cbn [establish]; [done|].
  destruct (negb _); [|apply IH]. destruct (_ <=? _); [done|].
  destruct (IH (set_established (established_capabilities l ++ [c]) l)) as (-> & -> & ->). done.
Qed.

Lemma append_ran d r l l' :
  res_result r = BOOT_RECEIPT_RAN -> append_receipt d r STATUS_OK l = (STATUS_OK, l') ->
  all_ran l -> all_ran l'.
Proof.
  intros Hr. unfold append_receipt. destruct (_ <=? _)%nat; [done|].
  pose proof (establish_frame (stage_id d) (res_provided r) l) as (Hrc & Hdg & Hsk).
  destruct (establish _ _ _) as [[rf|] l1]; cbn [snd] in *.
  { destruct rf as [[? ?] ?]. unfold refuse. intros [= -> <-] []. by constructor; cbn; congruence || (rewrite Hrc). }
  rewrite Hr, Hrc. intros [= <-] []. constructor; cbn; [|congruence|congruence].
  intros m rc [?|[_ [_ <-]%list_lookup_singleton_Some]]%lookup_app_Some; [by eapply ar_results0|done].
Qed.

Lemma succeeded_result d : stage_ok d ->
  validate_result d (boot_stage_result_succeed d) = (STATUS_OK, BOOT_CAPABILITY_INVALID).
Proof.
  intros Hs. unfold validate_result, declared_capabilities. cbn [boot_stage_result_succeed res_result
    res_provided res_proof_counters].
  change (BOOT_RECEIPT_RAN =? BOOT_RECEIPT_RAN) with true. cbn [length].
  pose proof (declared_ok d BOOT_RECEIPT_RAN _ Hs eq_refl) as [_ Hlen].
  destruct (Nat.ltb_spec BOOT_STAGE_CAPABILITY_CAPACITY (length (provided_capabilities d))); [lia|].
  assert (Hall : first_index (fun c => negb (descriptor_has_capability (provided_capabilities d) c))
    (provided_capabilities d) = None).
  { apply first_index_None. intros m c Hm. apply negb_false_iff, has_capability_iff.
    by eapply list_elem_of_lookup_2. }
  cbn [orb]. rewrite Nat.eqb_refl. cbn. by rewrite Hall.
Qed.

Lemma required_established l k i :
  exec_inv l k -> all_ran l -> supplied_by_running (descriptors l) ->
  canonical_order l !! k = Some i -> requirements_established l (descriptors l !!! i) = None.
Proof.
  intros Hi Hran Hsup Hk. pose proof (ei_plan _ _ Hi) as Hv.
  unfold requirements_established. rewrite fmap_None, first_index_None.
  intros q c Hq%list_elem_of_lookup_2. apply negb_false_iff.
  destruct (vp_requirements _ _ Hv k i c Hk Hq) as (m & j & Hm & Hj & Hp).
  assert (c ∈ provided_capabilities (descriptors l !!! j)) as Hc.
  { apply (Hsup i j); [by eapply valid_plan_range|by eapply valid_plan_range|done|done]. }
  destruct (lookup_lt_is_Some_2 (receipts l) m) as [rc Hrc]; [rewrite (ei_length _ _ Hi); lia|].
  destruct (ei_receipt _ _ Hi m rc Hrc) as (j' & Hj' & Hro & _).
  assert (j' = j) as -> by congruence.
  destruct (ro_provided _ _ _ Hro) as (declared & Hdec & Hperm).
  rewrite (ar_results _ Hran _ _ Hrc) in Hdec. injection Hdec as <-.
  assert (Hin : c ∈ established_capabilities l).
  { rewrite (ei_established _ _ Hi). unfold gathered. apply list_elem_of_In, in_concat.
    exists (rc_provided rc). split; apply list_elem_of_In; [|by rewrite Hperm].
    apply list_elem_of_fmap. exists rc. split; [done|]. by eapply list_elem_of_lookup_2. }
  unfold boot_ledger_has_capability. rewrite (exec_inv_known l k c Hi Hin). cbn [negb].
  by apply has_capability_iff.
Qed.

Lemma execute_stage_ran l k i context :
  exec_inv l k -> all_ran l -> supplied_by_running (descriptors l) ->
  canonical_order l !! k = Some i -> succeeds (descriptors l !!! i) ->
  exists context' l', execute_stage clear_detail (descriptors l !!! i) context l =
    (STATUS_OK, context', l') /\ all_ran l'.
Proof.
  intros Hi Hran Hsup Hk (f & Hf & Hres). set (d := descriptors l !!! i) in *.
  pose proof (required_established l k i Hi Hran Hsup Hk) as Hreq. fold d in Hreq.
  assert (Hs : stage_ok (descriptors l !!! i)).
  { eapply vp_stages; [apply Hi|]. by eapply valid_plan_range; [apply Hi|]. }
  unfold execute_stage, run_stage. rewrite Hreq, Hf.
  specialize (Hres (clear_detail context) boot_stage_result_fail).
  destruct (f _ _) as [c1 r]. cbn [snd] in Hres. subst r.
  rewrite succeeded_result by done.
  destruct (append_receipt_ok l k i (boot_stage_result_succeed (descriptors l !!! i)) STATUS_OK)
    as (l' & Happ & _ & _); try done; [by eexists|simpl; lia|by left| |].
  { intros _. by apply requirements_None. }
  cbn [boot_stage_result_succeed res_result]. change (_ =? _) with false at 1. cbn.
  fold d in Happ. rewrite Happ. eexists _, l'. split; [done|]. by apply (append_ran d (boot_stage_result_succeed d) l).
Qed.

Lemma execute_run_ran order ids context l k :
  exec_inv l k -> all_ran l -> supplied_by_running (descriptors l) ->
  (forall i, (i < length (descriptors l))%nat -> succeeds (descriptors l !!! i)) ->
  order = drop k (canonical_order l) -> ids = drop k (validated_stage_ids l) ->
  exists context' l', execute_run clear_detail order ids context l = (STATUS_OK, context', l') /\
    all_ran l'.
Proof.
  revert ids context l k. induction order as [|i order IH];
    intros ids context l k Hi Hran Hsup Hsucc Ho Hids; cbn [execute_run].
  { by eexists _, l. }
  assert (Hk : canonical_order l !! k = Some i).
  { rewrite <- (Nat.add_0_r k), <- lookup_drop, <- Ho. done. }
  assert (Hid : head ids = Some (stage_id (descriptors l !!! i))).
  { rewrite Hids, (ei_ids l k Hi), <- fmap_drop, <- Ho. done. }
  rewrite Hid. cbn [default from_option id]. rewrite Z.eqb_refl. cbn [negb].
  assert (Hlt : (i < length (descriptors l))%nat) by (eapply valid_plan_range; [apply Hi|done]).
  destruct (execute_stage_ran l k i context) as (c1 & l1 & Es & Hran1); [done..|by apply Hsucc|].
  rewrite Es. apply (execute_stage_ok l k) in Es as [Hsp Hcase]; [|done..].
  destruct Hcase as [[_ Hi1] | Href]; [|by destruct Href as [?|[?|[?|[?|?]]]]].
  destruct Hsp as (Hd & Hord & Hv & _).
  apply (IH _ _ _ (S k)); rewrite ?Hd; try done.
  - rewrite Hord. rewrite (drop_S _ _ _ Hk) in Ho. by injection Ho.
  - rewrite Hids, Hv. apply tail_of_drop.
Qed.

(** A validated plan in which every stage reports success, and in which
    every required capability is one its provider provides by running, always
    executes to completion: no stage is skipped, the boot is not degraded, and
    every receipt says that its stage ran. *)
Theorem boot_ledger_execute_complete l l1 context :
  boot_ledger_validate l = (STATUS_OK, l1) ->
  (forall i, (i < length (descriptors l))%nat -> succeeds (descriptors l !!! i)) ->
  supplied_by_running (descriptors l) ->
  exists context' l2, boot_ledger_execute clear_detail l1 context = (STATUS_OK, context', l2) /\
    all_ran l2.
Proof.
  intros Hval Hsucc Hsup. destruct (validated_start l l1 Hval) as (Hi & _).
  destruct (validate_cases l _ l1 Hval) as (Hd & _). rewrite <- Hd in Hsucc, Hsup.
  rewrite (execute_of_validated l l1 context Hval).
  destruct (execute_run_ran (canonical_order l1) (validated_stage_ids l1) context (set_started l1) 0)
    as (c2 & l2 & -> & []); try done.
  eexists _, _. split; [done|]. by constructor.
Qed.
End ExecutionProofs.

(** ** Concrete plans *)

(** Three stages declared out of order: memory provides capability 1, clocks (2)
    needs it, and an optional display stage needs clocks; the context counts the
    stages that ran. *)
Definition sample_stage (id : Z) (needs gives : list Z) (needed : bool) (ph : Z)
    (outcome : boot_stage_result) : boot_stage_descriptor Z :=
  Descriptor id (Some "stage"%string) needs gives [] needed false ph BOOT_IRREVERSIBLE_NONE
    (Some (fun context _ => (context + 1, outcome))).

Definition sample_ledger (display : boot_stage_result) : boot_ledger Z :=
  let l := boot_ledger_reset in
  let l := (boot_ledger_add_stage l (sample_stage 9 [2] [3] false 2 display)).2 in
  let l := (boot_ledger_add_stage l
    (sample_stage 5 [1] [2] true 1 (StageResult BOOT_RECEIPT_RAN [2] []))).2 in
  (boot_ledger_add_stage l
    (sample_stage 7 [] [1] true 0 (StageResult BOOT_RECEIPT_RAN [1] []))).2.

Definition healthy : boot_ledger Z := sample_ledger (StageResult BOOT_RECEIPT_RAN [3] []).
Definition dark : boot_ledger Z := sample_ledger (StageResult BOOT_RECEIPT_FAILED [] []).
Definition lying : boot_ledger Z := sample_ledger (StageResult BOOT_RECEIPT_RAN [4] []).

Definition run_sample (l : boot_ledger Z) : boot_ledger_status * Z * boot_ledger Z :=
  boot_ledger_execute id (boot_ledger_validate l).2 0.

Example sample_order : canonical_order (boot_ledger_validate healthy).2 = [2; 1; 0]%nat.
Proof. vm_compute. reflexivity. Qed.

Example sample_dark_degraded : (run_sample dark).1 = (STATUS_OK, 3) /\ degraded (run_sample dark).2 = true.
Proof. vm_compute. done. Qed.

Lemma boot_ledger_execute_verified_witness :
  boot_ledger_validate dark = (STATUS_OK, (boot_ledger_validate dark).2) /\
  verify_receipt_set (run_sample dark).2 = (STATUS_OK, (run_sample dark).2).
Proof.
  split; [vm_compute; reflexivity|].
  refine (proj1 (boot_ledger_execute_verified id dark (boot_ledger_validate dark).2 0 3 (run_sample dark).2 _ _));
    vm_compute; reflexivity.
Defined.

Lemma boot_ledger_execute_refusals_witness :
  run_sample lying = (STATUS_UNDECLARED_CAPABILITY_PROVIDED, 3, (run_sample lying).2) /\
  executed (run_sample lying).2 <> true.
Proof.
  split; [vm_compute; reflexivity|].
  intros Hex.
  destruct (boot_ledger_execute_refusals id lying (boot_ledger_validate lying).2 0
    STATUS_UNDECLARED_CAPABILITY_PROVIDED 3 (run_sample lying).2) as (_ & [Hst _] & _).
  1-2: vm_compute; reflexivity.
  discriminate (Hst Hex).
Defined.

Lemma boot_ledger_execute_complete_witness :
  exists context' l2,
    boot_ledger_execute id (boot_ledger_validate healthy).2 0 = (STATUS_OK, context', l2) /\
    all_ran l2.
Proof.
  apply (boot_ledger_execute_complete id healthy).
  - vm_compute. reflexivity.
  - intros [|[|[|i]]] Hi; [eexists; by split..|]. exfalso. vm_compute in Hi. lia.
  - intros i [|[|[|j]]] c Hi Hj Hc Hp; [| | |exfalso; vm_compute in Hj; lia];
      (destruct Hp as [Hp|Hp]; [exact Hp|by apply not_elem_of_nil in Hp]).
Defined.
