(* ===== verification/InterruptVector.v ===== *)
(** * Dynamic interrupt vectors ([src/kernel/interrupt_vector.c],
    [include/rsd/interrupt_vector.h])

    The allocator of the interrupt vectors drivers may claim.  The two static
    arrays and the counters are one record; a caller's allocation structure is a
    value that each operation rewrites, [None] for a null pointer.  What the
    allocator asks of the CPU and of the APIC driver is the [platform] argument. *)

From stdpp Require Import base list numbers.
From S2P Require Import Prelude.

Definition INTERRUPT_DYNAMIC_BASE : Z := 0x90.
Definition INTERRUPT_DYNAMIC_LIMIT : Z := 0xF0.
Definition DYNAMIC_VECTOR_COUNT : nat := 96.

Inductive interrupt_vector_status :=
| VECTOR_OK
| VECTOR_NULL_ARGUMENT
| VECTOR_ALREADY_INITIALIZED
| VECTOR_NOT_INITIALIZED
| VECTOR_INTERRUPTS_ENABLED
| VECTOR_RESERVED
| VECTOR_ALREADY_ALLOCATED
| VECTOR_EXHAUSTED
| VECTOR_DOUBLE_RELEASE
| VECTOR_STALE_ALLOCATION.

Record interrupt_vector_allocation := VectorAllocation {
  va_vector : Z;
  va_generation : Z;
  va_active : bool
}.

Record interrupt_vector_state := VectorState {
  vs_capacity : Z;
  vs_allocated : Z;
  vs_free : Z;
  vs_active : bool
}.

Record vectors := Vectors {
  allocated : list bool;
  generations : list Z;
  state : interrupt_vector_state
}.

(** [interrupts_ready()], [apic_is_online()] and [cpu_interrupts_enabled()]. *)
Record platform := Platform {
  interrupts_ready : bool;
  apic_is_online : bool;
  cpu_interrupts_enabled : bool
}.

(** ** Operations *)

Definition vector_is_dynamic (vector : Z) : bool :=
  (INTERRUPT_DYNAMIC_BASE <=? vector) && (vector <? INTERRUPT_DYNAMIC_LIMIT).

Definition vector_index (vector : Z) : nat := Z.to_nat (vector - INTERRUPT_DYNAMIC_BASE).

Definition interrupt_vector_initialize (p : platform) (s : vectors) :
    interrupt_vector_status * vectors :=
  if vs_active (state s) then (VECTOR_ALREADY_INITIALIZED, s)
  else if negb (interrupts_ready p) || negb (apic_is_online p) then (VECTOR_NOT_INITIALIZED, s)
  else if cpu_interrupts_enabled p then (VECTOR_INTERRUPTS_ENABLED, s)
  else
    (VECTOR_OK,
     Vectors (replicate DYNAMIC_VECTOR_COUNT false) (replicate DYNAMIC_VECTOR_COUNT 0)
       (VectorState (Z.of_nat DYNAMIC_VECTOR_COUNT) 0 (Z.of_nat DYNAMIC_VECTOR_COUNT) true)).

Definition no_allocation : interrupt_vector_allocation := VectorAllocation 0 0 false.

(** [++generations[index]], which skips zero. *)
Definition next_generation (generation : Z) : Z :=
  let generation := u32 (generation + 1) in
  if generation =? 0 then u32 (generation + 1) else generation.

Definition set_count (n : Z) (st : interrupt_vector_state) : interrupt_vector_state :=
  VectorState (vs_capacity st) (u64 (vs_allocated st + n)) (u64 (vs_free st - n)) (vs_active st).

Definition interrupt_vector_allocate_specific (p : platform) (vector : Z)
    (allocation : option interrupt_vector_allocation) (s : vectors) :
    interrupt_vector_status * option interrupt_vector_allocation * vectors :=
  match allocation with
  | None => (VECTOR_NULL_ARGUMENT, None, s)
  | Some _ =>
      let refused st := (st, Some no_allocation, s) in
      if negb (vs_active (state s)) then refused VECTOR_NOT_INITIALIZED
      else if cpu_interrupts_enabled p then refused VECTOR_INTERRUPTS_ENABLED
      else if negb (vector_is_dynamic vector) then refused VECTOR_RESERVED
      else
        let index := vector_index vector in
        if (allocated s !!! index : bool) then refused VECTOR_ALREADY_ALLOCATED
        else
          let generation := next_generation (generations s !!! index) in
          (VECTOR_OK, Some (VectorAllocation vector generation true),
           Vectors (<[index := true]> (allocated s)) (<[index := generation]> (generations s))
             (set_count 1 (state s)))
  end.

(** The scan of [interrupt_vector_allocate], [n] vectors left from [vector]. *)
Fixpoint find_vector (s : vectors) (n : nat) (vector : Z) : option Z :=
  match n with
  | O => None
  | S n =>
      if negb (allocated s !!! vector_index (u8 vector)) then Some (u8 vector)
      else find_vector s n (u16 (vector + 1))
  end.

Definition deactivated (a : interrupt_vector_allocation) : interrupt_vector_allocation :=
  VectorAllocation (va_vector a) (va_generation a) false.

Definition interrupt_vector_allocate (p : platform)
    (allocation : option interrupt_vector_allocation) (s : vectors) :
    interrupt_vector_status * option interrupt_vector_allocation * vectors :=
  match allocation with
  | None => (VECTOR_NULL_ARGUMENT, None, s)
  | Some a =>
      if negb (vs_active (state s)) then (VECTOR_NOT_INITIALIZED, Some (deactivated a), s)
      else if cpu_interrupts_enabled p then (VECTOR_INTERRUPTS_ENABLED, Some (deactivated a), s)
      else
        match find_vector s DYNAMIC_VECTOR_COUNT INTERRUPT_DYNAMIC_BASE with
        | Some vector => interrupt_vector_allocate_specific p vector (Some a) s
        | None => (VECTOR_EXHAUSTED, Some no_allocation, s)
        end
  end.

Definition interrupt_vector_release (p : platform)
    (allocation : option interrupt_vector_allocation) (s : vectors) :
    interrupt_vector_status * option interrupt_vector_allocation * vectors :=
  match allocation with
  | None => (VECTOR_NULL_ARGUMENT, None, s)
  | Some a =>
      let refused st := (st, Some a, s) in
      if negb (vs_active (state s)) then refused VECTOR_NOT_INITIALIZED
      else if cpu_interrupts_enabled p then refused VECTOR_INTERRUPTS_ENABLED
      else if negb (vector_is_dynamic (va_vector a)) then refused VECTOR_RESERVED
      else
        let index := vector_index (va_vector a) in
        if negb (va_active a) || negb (allocated s !!! index) then refused VECTOR_DOUBLE_RELEASE
        else if negb (generations s !!! index =? va_generation a) then
          refused VECTOR_STALE_ALLOCATION
        else
          (VECTOR_OK, Some (deactivated a),
           Vectors (<[index := false]> (allocated s)) (generations s) (set_count (-1) (state s)))
  end.

Definition interrupt_vector_is_allocated (s : vectors) (vector : Z) : bool :=
  vs_active (state s) && vector_is_dynamic vector && (allocated s !!! vector_index vector).

(** ** Invariant *)

(** An initialized allocator: the counters are the census of the bitmap. *)
Record vectors_wf (s : vectors) : Prop := VectorsWf {
  vw_active : vs_active (state s) = true;
  vw_allocated : length (allocated s) = DYNAMIC_VECTOR_COUNT;
  vw_generations : length (generations s) = DYNAMIC_VECTOR_COUNT;
  vw_width : forall i, fits 32 (generations s !!! i);
  vw_capacity : vs_capacity (state s) = Z.of_nat DYNAMIC_VECTOR_COUNT;
  vw_count : vs_allocated (state s) = countb id (allocated s);
  vw_free : vs_free (state s) = Z.of_nat DYNAMIC_VECTOR_COUNT - countb id (allocated s)
}.

Definition dynamic (v : Z) : Prop := INTERRUPT_DYNAMIC_BASE <= v < INTERRUPT_DYNAMIC_LIMIT.

Lemma vector_is_dynamic_iff v : vector_is_dynamic v = true <-> dynamic v.
Proof. unfold vector_is_dynamic, dynamic. lia. Qed.

Lemma vector_index_lt v : dynamic v -> (vector_index v < DYNAMIC_VECTOR_COUNT)%nat.
Proof.
  unfold dynamic, vector_index, INTERRUPT_DYNAMIC_BASE, INTERRUPT_DYNAMIC_LIMIT, DYNAMIC_VECTOR_COUNT. lia.
Qed.

Lemma vector_index_inj v w : dynamic v -> dynamic w -> vector_index v = vector_index w -> v = w.
Proof. unfold dynamic, vector_index, INTERRUPT_DYNAMIC_BASE, INTERRUPT_DYNAMIC_LIMIT. lia. Qed.

Lemma is_allocated_dynamic s v :
  vectors_wf s -> dynamic v -> interrupt_vector_is_allocated s v = allocated s !!! vector_index v.
Proof.
  intros Hw Hv. unfold interrupt_vector_is_allocated.
  by rewrite (vw_active s Hw), (proj2 (vector_is_dynamic_iff v) Hv).
Qed.

Lemma next_generation_ok g :
  fits 32 g -> fits 32 (next_generation g) /\ next_generation g <> 0 /\ next_generation g <> g.
Proof.
  unfold fits, next_generation. intros Hg.
  destruct (decide (g = 2 ^ 32 - 1)) as [->|Hne]; [vm_compute; repeat split; intros ?; discriminate|].
  rewrite (wrap_small 32 (g + 1)) by (unfold fits; lia).
  destruct (Z.eqb_spec (g + 1) 0); lia.
Qed.

Lemma lookup_allocated s i : vectors_wf s -> (i < DYNAMIC_VECTOR_COUNT)%nat ->
  allocated s !! i = Some (allocated s !!! i).
Proof. intros Hw Hi. apply list_lookup_lookup_total_lt. by rewrite (vw_allocated s Hw). Qed.

Lemma census_bounds s : vectors_wf s -> 0 <= countb id (allocated s) <= 96.
Proof.
  intros Hw. pose proof (countb_bounds id (allocated s)) as Hb. rewrite (vw_allocated s Hw) in Hb.
  exact Hb.
Qed.

(** Setting the bit of one vector changes the allocation of that vector only. *)
Lemma is_allocated_update s s' v b w :
  vectors_wf s -> vectors_wf s' -> dynamic v ->
  allocated s' = <[vector_index v := b]> (allocated s) ->
  interrupt_vector_is_allocated s' w =
    if decide (w = v) then b else interrupt_vector_is_allocated s w.
Proof.
  intros Hw Hw' Hv Hs. unfold interrupt_vector_is_allocated.
  rewrite (vw_active s Hw), (vw_active s' Hw'), Hs. cbn [andb].
  destruct (vector_is_dynamic w) eqn:Hd.
  - apply vector_is_dynamic_iff in Hd. cbn [andb]. case_decide as Hwv.
    + subst w. apply list_lookup_total_insert_eq. rewrite (vw_allocated s Hw). by apply vector_index_lt.
    + apply list_lookup_total_insert_ne. intros Heq. apply Hwv. symmetry. by apply vector_index_inj.
  - case_decide as Hwv; [|done]. subst w. apply vector_is_dynamic_iff in Hv. congruence.
Qed.

(** Claiming the free dynamic vector [v]. *)
Definition claim (v : Z) (s : vectors) : vectors :=
  Vectors (<[vector_index v := true]> (allocated s))
    (<[vector_index v := next_generation (generations s !!! vector_index v)]> (generations s))
    (set_count 1 (state s)).

Definition disclaim (v : Z) (s : vectors) : vectors :=
  Vectors (<[vector_index v := false]> (allocated s)) (generations s) (set_count (-1) (state s)).

Lemma claim_wf v s :
  vectors_wf s -> dynamic v -> interrupt_vector_is_allocated s v = false -> vectors_wf (claim v s).
Proof.
  intros Hw Hv Hfree. rewrite is_allocated_dynamic in Hfree by done.
  pose proof (vector_index_lt v Hv) as Hi. pose proof (lookup_allocated s _ Hw Hi) as Hl.
  rewrite Hfree in Hl. pose proof (countb_insert id _ _ _ true Hl) as Hc. cbn [id] in Hc.
  pose proof (countb_bounds id (<[vector_index v := true]> (allocated s))) as Hb.
  rewrite length_insert, (vw_allocated s Hw) in Hb. pose proof (census_bounds s Hw).
  unfold DYNAMIC_VECTOR_COUNT in *.
  constructor; cbn [claim set_count state allocated generations vs_active vs_capacity vs_allocated vs_free];
    rewrite ?length_insert; try apply Hw.
  - intros j. destruct (decide (j = vector_index v)) as [->|Hj].
    + rewrite list_lookup_total_insert_eq by (by rewrite (vw_generations s Hw)).
      apply next_generation_ok, Hw.
    + rewrite list_lookup_total_insert_ne by done. apply Hw.
  - rewrite (vw_count s Hw), wrap_small by (unfold fits; lia). lia.
  - rewrite (vw_free s Hw), wrap_small by (unfold fits, DYNAMIC_VECTOR_COUNT; lia).
    unfold DYNAMIC_VECTOR_COUNT. lia.
Qed.

Lemma disclaim_wf v s :
  vectors_wf s -> dynamic v -> interrupt_vector_is_allocated s v = true -> vectors_wf (disclaim v s).
Proof.
  intros Hw Hv Hused. rewrite is_allocated_dynamic in Hused by done.
  pose proof (vector_index_lt v Hv) as Hi. pose proof (lookup_allocated s _ Hw Hi) as Hl.
  rewrite Hused in Hl. pose proof (countb_insert id _ _ _ false Hl) as Hc. cbn [id] in Hc.
  pose proof (countb_bounds id (<[vector_index v := false]> (allocated s))) as Hb.
  pose proof (census_bounds s Hw).
  constructor; cbn [disclaim set_count state allocated generations vs_active vs_capacity vs_allocated vs_free];
    rewrite ?length_insert; try apply Hw.
  - rewrite (vw_count s Hw), wrap_small by (unfold fits; lia). lia.
  - rewrite (vw_free s Hw), wrap_small by (unfold fits, DYNAMIC_VECTOR_COUNT; lia). lia.
Qed.

(** ** The scan finds the lowest free vector *)

Lemma find_vector_spec s n v :
  vectors_wf s -> v = INTERRUPT_DYNAMIC_LIMIT - Z.of_nat n -> INTERRUPT_DYNAMIC_BASE <= v ->
  match find_vector s n v with
  | Some w => dynamic w /\ interrupt_vector_is_allocated s w = false /\
      (forall u, v <= u < w -> interrupt_vector_is_allocated s u = true)
  | None => forall u, v <= u < INTERRUPT_DYNAMIC_LIMIT -> interrupt_vector_is_allocated s u = true
  end.
Proof.
  intros Hw. revert v. induction n as [|n IH]; intros v Hv Hb; cbn [find_vector]; [lia|].
  assert (Hd : dynamic v) by (unfold dynamic; lia).
  assert (Hr : 0x90 <= v < 0xF0) by exact Hd.
  rewrite (wrap_small 8 v), (wrap_small 16 (v + 1)) by (unfold fits; lia).
  pose proof (is_allocated_dynamic s v Hw Hd) as Hv'.
  destruct (allocated s !!! vector_index v) eqn:Ha; cbn [negb].
  - specialize (IH (v + 1) ltac:(lia) ltac:(lia)). destruct (find_vector s n (v + 1)) as [w|].
    + destruct IH as (? & ? & Hlow). split_and!; [done..|]. intros u Hu.
      destruct (decide (u = v)) as [->|]; [done|]. apply Hlow. lia.
    + intros u Hu. destruct (decide (u = v)) as [->|]; [done|]. apply IH. lia.
  - split_and!; [done..|]. lia.
Qed.

Lemma specific_cases p v a s :
  vectors_wf s ->
  let '(st, out, s') := interrupt_vector_allocate_specific p v (Some a) s in
  (st = VECTOR_OK /\ cpu_interrupts_enabled p = false /\ dynamic v /\
     interrupt_vector_is_allocated s v = false /\ s' = claim v s /\
     out = Some (VectorAllocation v (next_generation (generations s !!! vector_index v)) true)) \/
  (s' = s /\ out = Some no_allocation /\
    (st = VECTOR_INTERRUPTS_ENABLED /\ cpu_interrupts_enabled p = true \/
     st = VECTOR_RESERVED /\ cpu_interrupts_enabled p = false /\ ~ dynamic v \/
     st = VECTOR_ALREADY_ALLOCATED /\ cpu_interrupts_enabled p = false /\
       interrupt_vector_is_allocated s v = true)).
Proof.
  intros Hw. unfold interrupt_vector_allocate_specific. rewrite (vw_active s Hw). cbn [negb].
  destruct (cpu_interrupts_enabled p); [by right; split_and!; auto|].
  destruct (vector_is_dynamic v) eqn:Hd; cbn [negb].
  - apply vector_is_dynamic_iff in Hd. pose proof (is_allocated_dynamic s v Hw Hd) as Hv.
    destruct (allocated s !!! vector_index v).
    + right. split_and!; auto.
    + left. split_and!; auto.
  - right. split_and!; try done. right; left. split_and!; try done.
    intros Hdyn%vector_is_dynamic_iff. congruence.
Qed.

Lemma allocate_cases p a s :
  vectors_wf s ->
  let '(st, out, s') := interrupt_vector_allocate p (Some a) s in
  (st = VECTOR_INTERRUPTS_ENABLED /\ cpu_interrupts_enabled p = true /\ s' = s /\
     out = Some (deactivated a)) \/
  (st = VECTOR_EXHAUSTED /\ cpu_interrupts_enabled p = false /\ s' = s /\ out = Some no_allocation /\
     forall u, dynamic u -> interrupt_vector_is_allocated s u = true) \/
  (st = VECTOR_OK /\ cpu_interrupts_enabled p = false /\ exists v,
     dynamic v /\ interrupt_vector_is_allocated s v = false /\
     (forall u, dynamic u -> u < v -> interrupt_vector_is_allocated s u = true) /\ s' = claim v s /\
     out = Some (VectorAllocation v (next_generation (generations s !!! vector_index v)) true)).
Proof.
  intros Hw. unfold interrupt_vector_allocate. rewrite (vw_active s Hw). cbn [negb].
  destruct (cpu_interrupts_enabled p) eqn:Hif; [by left|].
  pose proof (find_vector_spec s DYNAMIC_VECTOR_COUNT INTERRUPT_DYNAMIC_BASE Hw eq_refl ltac:(done)) as Hf.
  destruct (find_vector _ _ _) as [v|]; [|by right; left]. destruct Hf as (Hd & Hfree & Hlow).
  pose proof (specific_cases p v a s Hw) as Hs.
  destruct (interrupt_vector_allocate_specific p v (Some a) s) as [[st out] s'].
  destruct Hs as [(-> & _ & _ & _ & -> & ->)|(_ & _ & Hs)].
  - right; right. split; [done|]. split; [done|]. exists v. split_and!; try done.
    intros u [Hu _] Huv. apply Hlow. lia.
  - destruct Hs as [[_ ?]|[(_ & _ & ?)|(_ & _ & ?)]]; congruence || done.
Qed.

Lemma release_cases p a s :
  vectors_wf s ->
  let '(st, out, s') := interrupt_vector_release p (Some a) s in
  let v := va_vector a in
  (st = VECTOR_OK /\ cpu_interrupts_enabled p = false /\ dynamic v /\ va_active a = true /\
     interrupt_vector_is_allocated s v = true /\
     generations s !!! vector_index v = va_generation a /\ s' = disclaim v s /\
     out = Some (deactivated a)) \/
  (s' = s /\ out = Some a /\
    (st = VECTOR_INTERRUPTS_ENABLED /\ cpu_interrupts_enabled p = true \/
     st = VECTOR_RESERVED /\ cpu_interrupts_enabled p = false /\ ~ dynamic v \/
     st = VECTOR_DOUBLE_RELEASE /\ cpu_interrupts_enabled p = false /\ dynamic v /\
       (va_active a = false \/ interrupt_vector_is_allocated s v = false) \/
     st = VECTOR_STALE_ALLOCATION /\ cpu_interrupts_enabled p = false /\ dynamic v /\
       interrupt_vector_is_allocated s v = true /\
       generations s !!! vector_index v <> va_generation a)).
Proof.
  intros Hw. unfold interrupt_vector_release. rewrite (vw_active s Hw). cbn [negb].
  destruct (cpu_interrupts_enabled p); [by right; split_and!; auto|].
  destruct (vector_is_dynamic (va_vector a)) eqn:Hd; cbn [negb].
  2: { right. split_and!; try done. right; left. split_and!; try done.
       intros Hdyn%vector_is_dynamic_iff. congruence. }
  apply vector_is_dynamic_iff in Hd. rewrite (is_allocated_dynamic s _ Hw Hd).
  destruct (va_active a), (allocated s !!! vector_index (va_vector a)); cbn [negb orb].
  2-4: right; split_and!; try done; right; right; left; by auto.
  destruct (Z.eqb_spec (generations s !!! vector_index (va_vector a)) (va_generation a)); cbn [negb].
  - left. by split_and!.
  - right. split_and!; try done. right; right; right. by split_and!.
Qed.

(** ** Correctness *)

(** Initialization succeeds exactly on an inactive allocator with the
    interrupt path ready and interrupts disabled; it then makes every dynamic
    vector free and the counters agree with the table, and a refusal changes
    nothing. *)
Theorem interrupt_vector_initialize_correct p s :
  let '(st, s') := interrupt_vector_initialize p s in
  (st = VECTOR_OK <-> vs_active (state s) = false /\ interrupts_ready p = true /\
     apic_is_online p = true /\ cpu_interrupts_enabled p = false) /\
  (st = VECTOR_OK -> vectors_wf s' /\ forall v, interrupt_vector_is_allocated s' v = false) /\
  (st <> VECTOR_OK -> s' = s).
Proof.
  unfold interrupt_vector_initialize.
  destruct (vs_active (state s)); [intuition congruence|].
  destruct (interrupts_ready p), (apic_is_online p), (cpu_interrupts_enabled p); cbn [negb orb];
    try intuition congruence.
  split; [done|]. split; [|done]. intros _. split.
  - constructor; try done. intros i. cbn [generations].
    destruct (decide (i < DYNAMIC_VECTOR_COUNT)%nat).
    + by rewrite lookup_total_replicate_2.
    + rewrite list_lookup_total_alt, lookup_ge_None_2; [done|]. rewrite length_replicate. lia.
  - intros v. unfold interrupt_vector_is_allocated. cbn [state vs_active andb allocated].
    destruct (vector_is_dynamic v) eqn:Hd; [|done].
    apply vector_is_dynamic_iff, vector_index_lt in Hd. by rewrite lookup_total_replicate_2.
Qed.

(** With interrupts disabled, allocation hands out the lowest free dynamic
    vector with a fresh non-zero generation and marks only that vector; it reports
    exhaustion exactly when every dynamic vector is taken.  The counters keep
    matching the table, and a refusal changes nothing. *)
Theorem interrupt_vector_allocate_correct p a s :
  vectors_wf s ->
  let '(st, out, s') := interrupt_vector_allocate p (Some a) s in
  vectors_wf s' /\
  (cpu_interrupts_enabled p = false ->
     (st = VECTOR_EXHAUSTED <-> forall u, dynamic u -> interrupt_vector_is_allocated s u = true)) /\
  (st <> VECTOR_OK -> s' = s) /\
  (st = VECTOR_OK -> exists v g,
     out = Some (VectorAllocation v g true) /\ dynamic v /\ g <> 0 /\
     g <> generations s !!! vector_index v /\
     (forall u, dynamic u -> u < v -> interrupt_vector_is_allocated s u = true) /\
     interrupt_vector_is_allocated s v = false /\
     forall w, interrupt_vector_is_allocated s' w =
       if decide (w = v) then true else interrupt_vector_is_allocated s w).
Proof.
  intros Hw. pose proof (allocate_cases p a s Hw) as Hc.
  destruct (interrupt_vector_allocate p (Some a) s) as [[st out] s'].
  destruct Hc as [(-> & ? & -> & ->)|[(-> & ? & -> & -> & Hall)|(-> & ? & v & Hd & Hf & Hlow & -> & ->)]].
  - split_and!; try done. congruence.
  - by split_and!.
  - assert (Hw' : vectors_wf (claim v s)) by by apply claim_wf.
    split; [done|]. split.
    { intros _. split; [done|]. intros Hall. rewrite Hall in Hf; done. }
    split; [done|]. intros _.
    destruct (next_generation_ok _ (vw_width s Hw (vector_index v))) as (_ & ? & ?).
    eexists v, _. split_and!; try done. intros w. by apply is_allocated_update.
Qed.

(** A specific vector is handed out exactly when it is dynamic and free and
    interrupts are disabled; otherwise the caller's structure is cleared, nothing
    changes and the status names the reason. *)
Theorem interrupt_vector_allocate_specific_correct p v a s :
  vectors_wf s ->
  let '(st, out, s') := interrupt_vector_allocate_specific p v (Some a) s in
  vectors_wf s' /\
  (st = VECTOR_OK <-> cpu_interrupts_enabled p = false /\ dynamic v /\
     interrupt_vector_is_allocated s v = false) /\
  (st = VECTOR_OK -> interrupt_vector_is_allocated s' v = true /\
     vs_free (state s') = vs_free (state s) - 1 /\
     exists g, out = Some (VectorAllocation v g true) /\ g <> 0) /\
  (st <> VECTOR_OK -> s' = s /\ out = Some no_allocation /\
     (st = VECTOR_RESERVED <-> cpu_interrupts_enabled p = false /\ ~ dynamic v)).
Proof.
  intros Hw. pose proof (specific_cases p v a s Hw) as Hc.
  destruct (interrupt_vector_allocate_specific p v (Some a) s) as [[st out] s'].
  destruct Hc as [(-> & Hif & Hd & Hf & -> & ->)|(-> & -> & Hc)].
  - assert (Hw' : vectors_wf (claim v s)) by by apply claim_wf.
    split; [done|]. split; [done|]. split; [|done]. intros _. split.
    + rewrite (is_allocated_update s (claim v s) v true) by done. by rewrite decide_True.
    + split.
      * rewrite (vw_free _ Hw'), (vw_free _ Hw). cbn [claim allocated].
        pose proof (lookup_allocated s _ Hw (vector_index_lt v Hd)) as Hl.
        rewrite is_allocated_dynamic in Hf by done. rewrite Hf in Hl.
        rewrite (countb_insert id _ _ _ true Hl). cbn [id]. lia.
      * eexists. split; [done|]. apply next_generation_ok, Hw.
  - split; [done|].
    destruct Hc as [[-> ?]|[(-> & ? & ?)|(-> & ? & Ha)]].
    1-2: split_and!; try done; intuition congruence.
    assert (dynamic v).
    { unfold interrupt_vector_is_allocated in Ha. apply vector_is_dynamic_iff.
      by destruct (vs_active (state s)), (vector_is_dynamic v). }
    split_and!; try done; intuition congruence.
Qed.

(** Release frees a vector exactly when the caller's structure is live, its
    vector is allocated and its generation is the current one; it then frees that
    vector only and deactivates the structure.  Any other call changes neither. *)
Theorem interrupt_vector_release_correct p a s :
  vectors_wf s ->
  let '(st, out, s') := interrupt_vector_release p (Some a) s in
  vectors_wf s' /\
  (st = VECTOR_OK <-> cpu_interrupts_enabled p = false /\ dynamic (va_vector a) /\
     va_active a = true /\ interrupt_vector_is_allocated s (va_vector a) = true /\
     generations s !!! vector_index (va_vector a) = va_generation a) /\
  (st = VECTOR_OK -> out = Some (deactivated a) /\
     forall w, interrupt_vector_is_allocated s' w =
       if decide (w = va_vector a) then false else interrupt_vector_is_allocated s w) /\
  (st <> VECTOR_OK -> s' = s /\ out = Some a).
Proof.
  intros Hw. pose proof (release_cases p a s Hw) as Hc.
  destruct (interrupt_vector_release p (Some a) s) as [[st out] s'].
  destruct Hc as [(-> & Hif & Hd & Hact & Ha & Hg & -> & ->)|(-> & -> & Hc)].
  - assert (Hw' : vectors_wf (disclaim (va_vector a) s)) by by apply disclaim_wf.
    split_and!; try done. intros _. split; [done|]. intros w. by apply is_allocated_update.
  - split; [done|].
    destruct Hc as [[-> ?]|[(-> & ? & ?)|[(-> & ? & ? & Hx)|(-> & ? & ? & ? & ?)]]];
      (split; [|by split_and!]); (split; [done|]); intros (? & ? & ? & ? & ?); [congruence|done| |done].
    destruct Hx; congruence.
Qed.

(** ** Copies of a released allocation *)

Inductive vector_op :=
| OpAllocate (a : interrupt_vector_allocation)
| OpSpecific (v : Z) (a : interrupt_vector_allocation)
| OpRelease (a : interrupt_vector_allocation).

Definition vector_step (po : platform * vector_op) (s : vectors) : vectors :=
  match po.2 with
  | OpAllocate a => (interrupt_vector_allocate po.1 (Some a) s).2
  | OpSpecific v a => (interrupt_vector_allocate_specific po.1 v (Some a) s).2
  | OpRelease a => (interrupt_vector_release po.1 (Some a) s).2
  end.

Definition vector_run (ops : list (platform * vector_op)) (s : vectors) : vectors :=
  foldl (fun s po => vector_step po s) s ops.

Definition GENERATIONS : Z := 2 ^ 32 - 1.

(** The generation [k] claims after [g]. *)
Definition advance (g k : Z) : Z := (g - 1 + k) mod GENERATIONS + 1.

Lemma advance_0 g : 0 < g < 2 ^ 32 -> advance g 0 = g.
Proof. intros Hg. unfold advance. rewrite Z.mod_small by (unfold GENERATIONS; lia). lia. Qed.

Lemma advance_fresh g k : 0 < g < 2 ^ 32 -> 0 < k < GENERATIONS -> advance g k <> g.
Proof.
  unfold advance, GENERATIONS. intros Hg Hk.
  pose proof (Z.div_mod (g - 1 + k) (2 ^ 32 - 1) ltac:(lia)).
  pose proof (Z.mod_pos_bound (g - 1 + k) (2 ^ 32 - 1) ltac:(lia)). nia.
Qed.

Lemma next_generation_advance g k : next_generation (advance g k) = advance g (k + 1).
Proof.
  unfold next_generation, advance. replace (g - 1 + (k + 1)) with ((g - 1 + k) + 1) by lia.
  set (x := g - 1 + k). pose proof (Z.mod_pos_bound x GENERATIONS ltac:(done)) as Hb.
  rewrite (Z.add_mod x 1 GENERATIONS) by done. change (1 mod GENERATIONS) with 1.
  set (m := x mod GENERATIONS) in *.
  destruct (decide (m = GENERATIONS - 1)) as [->|Hm]; [vm_compute; done|].
  rewrite (Z.mod_small (m + 1)) by lia. unfold GENERATIONS in *.
  rewrite (wrap_small 32 (m + 1 + 1)) by (unfold fits; lia).
  destruct (Z.eqb_spec (m + 1 + 1) 0); lia.
Qed.

(** Vector [v] was claimed [k] times since its generation was [g]. *)
Record retired (v g k : Z) (s : vectors) : Prop := Retired {
  rt_wf : vectors_wf s;
  rt_generation : generations s !!! vector_index v = advance g k;
  rt_free : interrupt_vector_is_allocated s v = true -> 0 < k
}.

Lemma claim_retired v g k w s :
  retired v g k s -> dynamic v -> 0 <= k -> dynamic w ->
  interrupt_vector_is_allocated s w = false ->
  exists k', k <= k' <= k + 1 /\ retired v g k' (claim w s).
Proof.
  intros [Hw Hg Hf] Hv Hk Hdw Hfw. assert (Hw' : vectors_wf (claim w s)) by by apply claim_wf.
  destruct (decide (w = v)) as [->|Hne].
  - exists (k + 1). split; [lia|]. constructor; [done| |lia]. cbn [claim generations].
    rewrite list_lookup_total_insert_eq by (rewrite (vw_generations s Hw); by apply vector_index_lt).
    rewrite Hg. apply next_generation_advance.
  - exists k. split; [lia|]. constructor; [done| |].
    + cbn [claim generations]. rewrite list_lookup_total_insert_ne; [done|].
      intros Heq. apply Hne. by apply vector_index_inj.
    + rewrite (is_allocated_update s (claim w s) w true) by done. by rewrite decide_False.
Qed.

Lemma disclaim_retired v g k w s :
  retired v g k s -> dynamic w -> interrupt_vector_is_allocated s w = true ->
  retired v g k (disclaim w s).
Proof.
  intros [Hw Hg Hf] Hdw Hfw. assert (Hw' : vectors_wf (disclaim w s)) by by apply disclaim_wf.
  constructor; [done|done|].
  rewrite (is_allocated_update s (disclaim w s) w false) by done. by case_decide.
Qed.

Lemma vector_step_retired po v g k s :
  retired v g k s -> dynamic v -> 0 <= k ->
  exists k', k <= k' <= k + 1 /\ retired v g k' (vector_step po s).
Proof.
  intros Hr Hv Hk. pose proof (rt_wf _ _ _ _ Hr) as Hw. destruct po as [p [a|w a|a]]; unfold vector_step; cbn [fst snd].
  - pose proof (allocate_cases p a s Hw) as Hc.
    destruct (interrupt_vector_allocate p (Some a) s) as [[st out] s']. cbn [snd].
    destruct Hc as [(_ & _ & -> & _)|[(_ & _ & -> & _)|(_ & _ & w & Hd & Hf & _ & -> & _)]].
    1-2: exists k; split; [lia|done]. by apply claim_retired.
  - pose proof (specific_cases p w a s Hw) as Hc.
    destruct (interrupt_vector_allocate_specific p w (Some a) s) as [[st out] s']. cbn [snd].
    destruct Hc as [(_ & _ & Hd & Hf & -> & _)|(-> & _)]; [by apply claim_retired|].
    exists k; split; [lia|done].
  - pose proof (release_cases p a s Hw) as Hc.
    destruct (interrupt_vector_release p (Some a) s) as [[st out] s']. cbn [snd].
    exists k. split; [lia|].
    destruct Hc as [(_ & _ & Hd & _ & Ha & _ & -> & _)|(-> & _)]; [by apply disclaim_retired|done].
Qed.

Lemma vector_run_retired ops v g k s :
  retired v g k s -> dynamic v -> 0 <= k ->
  exists k', k <= k' <= k + Z.of_nat (length ops) /\ retired v g k' (vector_run ops s).
Proof.
  revert k s. induction ops as [|po ops IH]; intros k s Hr Hv Hk; cbn [vector_run foldl length].
  { exists k. split; [lia|done]. }
  destruct (vector_step_retired po v g k s Hr Hv Hk) as (k1 & Hk1 & Hr1).
  destruct (IH k1 (vector_step po s) Hr1 Hv ltac:(lia)) as (k2 & Hk2 & Hr2).
  exists k2. split; [lia|done].
Qed.

(** C39: once an allocation has been released, a copy of the structure kept by the
    caller can never release the vector again, whatever sequence of fewer than
    2^32-1 allocations and releases by others happens in between, including ones
    that hand the same vector out again: the copy is refused and nothing changes. *)
Theorem released_copy_refused p q a s out s1 ops :
  vectors_wf s -> fits 32 (va_generation a) -> va_generation a <> 0 ->
  interrupt_vector_release p (Some a) s = (VECTOR_OK, out, s1) ->
  Z.of_nat (length ops) < GENERATIONS ->
  let s2 := vector_run ops s1 in
  vectors_wf s2 /\ exists st, st <> VECTOR_OK /\
    interrupt_vector_release q (Some a) s2 = (st, Some a, s2).
Proof.
  intros Hw Hg Hg0 Hrel Hlen s2. pose proof (release_cases p a s Hw) as Hc. rewrite Hrel in Hc.
  destruct Hc as [(_ & _ & Hd & _ & Ha & Hgen & -> & _)|(_ & _ & Hc)].
  2: { exfalso. by destruct Hc as [[? _]|[[? _]|[[? _]|[? _]]]]. }
  assert (Hr : retired (va_vector a) (va_generation a) 0 (disclaim (va_vector a) s)).
  { assert (vectors_wf (disclaim (va_vector a) s)) by by apply disclaim_wf.
    constructor; [done| |].
    - cbn [disclaim generations]. rewrite advance_0; [done|]. unfold fits in Hg. lia.
    - rewrite (is_allocated_update s (disclaim (va_vector a) s) (va_vector a) false) by done.
      by rewrite decide_True. }
  destruct (vector_run_retired ops _ _ _ _ Hr Hd ltac:(lia)) as (k & Hk & [Hw2 Hg2 Hf2]).
  fold s2 in Hw2, Hg2, Hf2. split; [done|]. pose proof (release_cases q a s2 Hw2) as Hc.
  destruct (interrupt_vector_release q (Some a) s2) as [[st o] s3].
  destruct Hc as [(_ & _ & _ & _ & Ha2 & Hgen2 & _)|(-> & -> & Hc)].
  - exfalso. apply (advance_fresh (va_generation a) k).
    + unfold fits in Hg. lia.
    + specialize (Hf2 Ha2). lia.
    + congruence.
  - exists st. split; [|done]. by destruct Hc as [[-> _]|[[-> _]|[[-> _]|[-> _]]]].
Qed.

(** ** Concrete runs *)

Definition quiet : platform := Platform true true false.
Definition no_vectors : vectors :=
  Vectors (replicate DYNAMIC_VECTOR_COUNT false) (replicate DYNAMIC_VECTOR_COUNT 0)
    (VectorState 0 0 0 false).
Definition sample_vectors : vectors := (interrupt_vector_initialize quiet no_vectors).2.
Definition sample_token : interrupt_vector_allocation := VectorAllocation 0x90 1 true.

Lemma sample_vectors_wf : vectors_wf sample_vectors.
Proof.
  constructor; try reflexivity. intros i. unfold sample_vectors. cbn.
  do 96 (destruct i as [|i]; [done|]). done.
Qed.

Lemma interrupt_vector_allocate_correct_witness :
  interrupt_vector_allocate quiet (Some no_allocation) sample_vectors =
    (VECTOR_OK, Some sample_token, claim 0x90 sample_vectors) /\
  vectors_wf (claim 0x90 sample_vectors).
Proof.
  assert (E : interrupt_vector_allocate quiet (Some no_allocation) sample_vectors =
    (VECTOR_OK, Some sample_token, claim 0x90 sample_vectors)) by (vm_compute; reflexivity).
  split; [exact E|].
  pose proof (interrupt_vector_allocate_correct quiet no_allocation sample_vectors sample_vectors_wf) as H.
  rewrite E in H. exact (proj1 H).
Defined.

Lemma interrupt_vector_allocate_specific_correct_witness :
  (interrupt_vector_allocate_specific quiet 0xF0 (Some sample_token) sample_vectors).1.1 =
    VECTOR_RESERVED /\
  vectors_wf (interrupt_vector_allocate_specific quiet 0xA0 (Some sample_token) sample_vectors).2.
Proof.
  split; [vm_compute; reflexivity|].
  pose proof (interrupt_vector_allocate_specific_correct quiet 0xA0 sample_token sample_vectors
    sample_vectors_wf) as H.
  destruct (interrupt_vector_allocate_specific _ _ _ _) as [[st out] s']. exact (proj1 H).
Defined.

Lemma sample_claim_wf : vectors_wf (claim 0x90 sample_vectors).
Proof. apply claim_wf; [apply sample_vectors_wf|done|vm_compute; reflexivity]. Qed.

Lemma interrupt_vector_release_correct_witness :
  (interrupt_vector_release quiet (Some sample_token) (claim 0x90 sample_vectors)).1.1 = VECTOR_OK /\
  vectors_wf (interrupt_vector_release quiet (Some sample_token) (claim 0x90 sample_vectors)).2.
Proof.
  split; [vm_compute; reflexivity|].
  pose proof (interrupt_vector_release_correct quiet sample_token _ sample_claim_wf) as H.
  destruct (interrupt_vector_release _ _ _) as [[st out] s']. exact (proj1 H).
Defined.

(** The same vector is handed out again, and the old token is refused. *)
Lemma released_copy_refused_witness :
  let s2 := vector_run [(quiet, OpAllocate no_allocation)]
    (disclaim 0x90 (claim 0x90 sample_vectors)) in
  interrupt_vector_is_allocated s2 0x90 = true /\
  exists st, st <> VECTOR_OK /\ interrupt_vector_release quiet (Some sample_token) s2 = (st, Some sample_token, s2).
Proof.
  split; [vm_compute; reflexivity|].
  refine (proj2 (released_copy_refused quiet quiet sample_token (claim 0x90 sample_vectors)
    (Some (deactivated sample_token)) (disclaim 0x90 (claim 0x90 sample_vectors))
    [(quiet, OpAllocate no_allocation)] sample_claim_wf _ _ _ _)); vm_compute; split_and?; congruence || done.
Defined.
