(* ===== verification/TeardownHistory.v ===== *)
(** * Teardown history ([src/kernel/native_process_teardown.c],
    [include/rsd/native_process.h])

    The fixed ring of the last teardown attempts of a process.  Entries are only
    stored and copied, so the model is generic in the attempt structure: [zero]
    is the structure of zero bytes.  A null pointer is [None]. *)

From stdpp Require Import base list numbers.
From S2P Require Import Prelude.

Definition NATIVE_PROCESS_TEARDOWN_HISTORY_CAPACITY : nat := 8.

Record native_process_teardown_history (A : Type) := History {
  entries : list A;
  valid_entries : nat;
  insertion_cursor : nat;
  total_attempts : Z;
  dropped_attempts : Z;
  truncated : bool
}.
Arguments History {A}. Arguments entries {A}. Arguments valid_entries {A}.
Arguments insertion_cursor {A}. Arguments total_attempts {A}. Arguments dropped_attempts {A}.
Arguments truncated {A}.

Section Operations.
Context {A : Type} (zero : A).

Definition history_shape_valid (history : option (native_process_teardown_history A)) : bool :=
  match history with
  | None => false
  | Some h =>
      (valid_entries h <=? NATIVE_PROCESS_TEARDOWN_HISTORY_CAPACITY)%nat &&
      (insertion_cursor h <? NATIVE_PROCESS_TEARDOWN_HISTORY_CAPACITY)%nat
  end.

Definition native_process_teardown_history_reset
    (history : option (native_process_teardown_history A)) :
    option (native_process_teardown_history A) :=
  match history with
  | None => None
  | Some _ =>
      Some (History (replicate NATIVE_PROCESS_TEARDOWN_HISTORY_CAPACITY zero) 0 0 0 0 false)
  end.

Definition bump (n : Z) : Z := if negb (n =? UINT64_MAX) then n + 1 else n.

(** The store of [native_process_teardown_history_append], after the checks. *)
Definition store_attempt (h : native_process_teardown_history A) (attempt : A) :
    native_process_teardown_history A :=
  let index := insertion_cursor h in
  let full := negb (valid_entries h <? NATIVE_PROCESS_TEARDOWN_HISTORY_CAPACITY)%nat in
  History (<[index := attempt]> (entries h))
    (if full then valid_entries h else S (valid_entries h))
    ((index + 1) mod NATIVE_PROCESS_TEARDOWN_HISTORY_CAPACITY)
    (bump (total_attempts h))
    (if full then bump (dropped_attempts h) else dropped_attempts h)
    (if full then true else truncated h).

Definition native_process_teardown_history_append
    (history : option (native_process_teardown_history A)) (attempt : option A) :
    option (native_process_teardown_history A) :=
  match history, attempt with
  | Some h, Some attempt =>
      let checked := if negb (history_shape_valid history)
                     then native_process_teardown_history_reset history else history in
      (fun h => store_attempt h attempt) <$> checked
  | _, _ => history
  end.

(** [n] entries left to copy, from ring position [from + offset] to
    [output[offset]]. *)
Fixpoint copy_entries (h : native_process_teardown_history A) (from n offset : nat)
    (output : list A) : list A :=
  match n with
  | O => output
  | S n =>
      let index := ((from + offset) mod NATIVE_PROCESS_TEARDOWN_HISTORY_CAPACITY)%nat in
      copy_entries h from n (S offset)
        (<[offset := default zero (entries h !! index)]> output)
  end.

Definition native_process_teardown_history_copy
    (history : option (native_process_teardown_history A)) (output : option (list A))
    (output_capacity : nat) : nat * option (list A) :=
  match history, output with
  | Some h, Some out =>
      if (output_capacity =? 0)%nat || negb (history_shape_valid history) then (O, output)
      else
        let count := Nat.min (valid_entries h) output_capacity in
        let oldest :=
          if (valid_entries h =? NATIVE_PROCESS_TEARDOWN_HISTORY_CAPACITY)%nat
          then insertion_cursor h else O in
        let start := (valid_entries h - count)%nat in
        (count, Some (copy_entries h (oldest + start) count 0 out))
  | _, _ => (O, output)
  end.

(** ** The ring represents the log of all attempts *)

(** The ring [h] after the attempts [log] since the last reset: the attempt
    number [k] of the last eight is at position [k] modulo eight. *)
Record represents (h : native_process_teardown_history A) (log : list A) : Prop := Represents {
  rp_length : length (entries h) = 8%nat;
  rp_valid : valid_entries h = Nat.min 8 (length log);
  rp_cursor : insertion_cursor h = (length log mod 8)%nat;
  rp_total : total_attempts h = Z.min UINT64_MAX (Z.of_nat (length log));
  rp_dropped : dropped_attempts h = Z.min UINT64_MAX (Z.of_nat (length log - 8));
  rp_truncated : truncated h = bool_decide (8 < length log)%nat;
  rp_entries : forall k, (length log - 8 <= k < length log)%nat ->
    entries h !! (k mod 8)%nat = log !! k
}.

Definition empty_history : native_process_teardown_history A :=
  History (replicate 8 zero) 0 0 0 0 false.

Lemma empty_represents : represents empty_history [].
Proof. constructor; try done. intros k Hk. cbn [length] in Hk. lia. Qed.

Lemma represents_shape h log : represents h log -> history_shape_valid (Some h) = true.
Proof.
  intros Hr. unfold history_shape_valid. rewrite (rp_valid h log Hr), (rp_cursor h log Hr).
  pose proof (Nat.mod_upper_bound (length log) 8 ltac:(done)).
  unfold NATIVE_PROCESS_TEARDOWN_HISTORY_CAPACITY. apply andb_true_intro. split.
  - apply Nat.leb_le. lia.
  - by apply Nat.ltb_lt.
Qed.

Lemma bump_min n : 0 <= n -> bump (Z.min UINT64_MAX n) = Z.min UINT64_MAX (n + 1).
Proof. intros Hn. unfold bump. destruct (Z.eqb_spec (Z.min UINT64_MAX n) UINT64_MAX); cbn [negb]; lia. Qed.

(** Two positions of the last eight that share a residue are equal. *)
Lemma mod8_inj (n k : nat) : (n - 7 <= k <= n)%nat -> (k mod 8 = n mod 8)%nat -> k = n.
Proof.
  intros Hk Hm. pose proof (Nat.div_mod_eq k 8). pose proof (Nat.div_mod_eq n 8). lia.
Qed.

Lemma store_represents h log x : represents h log -> represents (store_attempt h x) (log ++ [x]).
Proof.
  intros Hr. pose proof (rp_valid h log Hr) as Hv. pose proof (rp_cursor h log Hr) as Hc.
  pose proof (Nat.mod_upper_bound (length log) 8 ltac:(done)) as Hm.
  unfold store_attempt, NATIVE_PROCESS_TEARDOWN_HISTORY_CAPACITY.
  constructor; cbn [entries valid_entries insertion_cursor total_attempts dropped_attempts truncated];
    rewrite ?length_app, ?length_insert; cbn [length].
  - apply Hr.
  - destruct (Nat.ltb_spec (valid_entries h) 8); cbn [negb]; lia.
  - rewrite Hc. apply Nat.Div0.add_mod_idemp_l.
  - rewrite (rp_total h log Hr), bump_min by lia. lia.
  - rewrite (rp_dropped h log Hr).
    destruct (Nat.ltb_spec (valid_entries h) 8); cbn [negb]; [|rewrite bump_min by lia]; lia.
  - rewrite (rp_truncated h log Hr).
    destruct (Nat.ltb_spec (valid_entries h) 8); cbn [negb].
    + apply bool_decide_ext. lia.
    + symmetry. apply bool_decide_eq_true. lia.
  - intros k Hk. rewrite Hc. destruct (decide (k = length log)) as [->|Hne].
    + rewrite list_lookup_insert_eq by (by rewrite (rp_length h log Hr)).
      by rewrite lookup_app_r, Nat.sub_diag.
    + rewrite list_lookup_insert_ne.
      * rewrite lookup_app_l by lia. apply (rp_entries h log Hr). lia.
      * intros Heq. apply Hne, mod8_inj; [lia|done].
Qed.

Lemma copy_entries_spec h from n offset output i :
  (offset + n <= length output)%nat ->
  copy_entries h from n offset output !! i =
    if decide (offset <= i < offset + n)%nat
    then Some (default zero (entries h !! ((from + i) mod 8)%nat)) else output !! i.
Proof.
  revert offset output. induction n as [|n IH]; intros offset output Hlen; cbn [copy_entries].
  { rewrite decide_False by lia. done. }
  rewrite IH by (rewrite length_insert; lia).
  destruct (decide (i = offset)) as [->|Hne].
  - rewrite decide_False, decide_True by lia. rewrite list_lookup_insert_eq by lia. done.
  - repeat case_decide; try lia; [done|]. by rewrite list_lookup_insert_ne.
Qed.

(** Where the oldest copied attempt is in the ring. *)
Lemma oldest_index h log n i :
  represents h log -> n = Nat.min (valid_entries h) n -> (i < n)%nat ->
  (((if (valid_entries h =? 8)%nat then insertion_cursor h else O) + (valid_entries h - n) + i)
    mod 8 = (length log - n + i) mod 8)%nat.
Proof.
  intros Hr Hn Hi. pose proof (rp_valid h log Hr) as Hv. rewrite (rp_cursor h log Hr).
  destruct (Nat.eqb_spec (valid_entries h) 8) as [H8|H8].
  - rewrite H8, <- Nat.add_assoc, Nat.Div0.add_mod_idemp_l.
    replace (length log + (8 - n + i))%nat with ((length log - n + i) + 1 * 8)%nat by lia.
    apply Nat.Div0.mod_add.
  - f_equal. lia.
Qed.

Lemma copy_spec h log out cap :
  represents h log -> cap <> O -> length out = cap ->
  let n := Nat.min cap (Nat.min 8 (length log)) in
  native_process_teardown_history_copy (Some h) (Some out) cap =
    (n, Some (drop (length log - n) log ++ drop n out)).
Proof.
  intros Hr Hcap Hlen n. unfold native_process_teardown_history_copy.
  rewrite (represents_shape h log Hr). destruct (Nat.eqb_spec cap 0); [done|]. cbn [negb orb].
  pose proof (rp_valid h log Hr) as Hv.
  assert (Hn : Nat.min (valid_entries h) cap = n) by lia. rewrite Hn. f_equal. f_equal.
  apply list_eq. intros i. unfold NATIVE_PROCESS_TEARDOWN_HISTORY_CAPACITY.
  rewrite copy_entries_spec by lia. cbn [Nat.add].
  assert (Hdl : length (drop (length log - n) log) = n) by (rewrite length_drop; lia).
  destruct (decide (0 <= i < n)%nat) as [[_ Hi]|Hi].
  - rewrite lookup_app_l, lookup_drop by lia. rewrite (oldest_index h log n i Hr ltac:(lia) Hi).
    rewrite (rp_entries h log Hr) by lia.
    destruct (lookup_lt_is_Some_2 log (length log - n + i)) as [y Hy]; [lia|]. by rewrite Hy.
  - rewrite lookup_app_r, Hdl, lookup_drop by lia. f_equal. lia.
Qed.

(** C40: the ring refines the unbounded log of attempts: appending an attempt to
    a ring that represents a log gives a ring that represents the log with the
    attempt added, with saturating counters of all and of dropped attempts, and
    a ring whose shape is damaged starts again from this attempt alone. *)
Theorem history_append_refines h log x :
  (represents h log -> exists h',
     native_process_teardown_history_append (Some h) (Some x) = Some h' /\
     represents h' (log ++ [x])) /\
  (history_shape_valid (Some h) = false -> exists h',
     native_process_teardown_history_append (Some h) (Some x) = Some h' /\ represents h' [x]).
Proof.
  unfold native_process_teardown_history_append. split.
  - intros Hr. rewrite (represents_shape h log Hr). cbn [negb fmap option_fmap option_map].
    eexists. split; [done|]. by apply store_represents.
  - intros ->. cbn. eexists. split; [done|]. apply (store_represents empty_history []), empty_represents.
Qed.

Definition append_all (xs : list A) (h : native_process_teardown_history A) :
    option (native_process_teardown_history A) :=
  foldl (fun h x => native_process_teardown_history_append h (Some x)) (Some h) xs.

Lemma append_all_represents xs h log :
  represents h log -> exists h', append_all xs h = Some h' /\ represents h' (log ++ xs).
Proof.
  revert h log. induction xs as [|x xs IH]; intros h log Hr; unfold append_all; cbn [foldl].
  { exists h. by rewrite app_nil_r. }
  unfold native_process_teardown_history_append at 2. rewrite (represents_shape h log Hr). cbn.
  destruct (IH (store_attempt h x) (log ++ [x])) as (h' & Hh & Hr'); [by apply store_represents|].
  exists h'. rewrite <- app_assoc in Hr'. done.
Qed.

(** After any sequence of attempts from a reset history, a copy into a
    buffer of [cap] entries returns the most recent [min cap 8] attempts, oldest
    first, in their order, and leaves the rest of the buffer as it was. *)
Theorem history_copy_latest xs out cap h :
  cap <> O -> length out = cap -> append_all xs empty_history = Some h ->
  let n := Nat.min cap (Nat.min 8 (length xs)) in
  native_process_teardown_history_copy (Some h) (Some out) cap =
    (n, Some (drop (length xs - n) xs ++ drop n out)).
Proof.
  intros Hcap Hlen Happ.
  destruct (append_all_represents xs empty_history [] empty_represents) as (h' & Hh & Hr).
  rewrite Happ in Hh. injection Hh as <-. by apply copy_spec.
Qed.
End Operations.

Lemma history_append_refines_witness :
  exists h', native_process_teardown_history_append 0 (Some (empty_history 0)) (Some 7) = Some h' /\
    represents h' [7].
Proof.
  exact (proj1 (history_append_refines 0 (empty_history 0) [] 7) (empty_represents 0)).
Defined.

Lemma history_copy_latest_witness :
  exists h, append_all 0 [1; 2; 3; 4; 5; 6; 7; 8; 9; 10] (empty_history 0) = Some h /\
    native_process_teardown_history_copy 0 (Some h) (Some [0; 0; 0]) 3 = (3%nat, Some [8; 9; 10]).
Proof.
  eexists. split; [vm_compute; reflexivity|].
  refine (history_copy_latest 0 [1; 2; 3; 4; 5; 6; 7; 8; 9; 10] [0; 0; 0] 3 _ _ _ _);
    vm_compute; (reflexivity || discriminate).
Defined.
