(* ===== verification/Dma.v ===== *)
(** * DMA allocations ([src/kernel/dma.c], [include/rsd/dma.h])

    Ownership-tracked DMA memory over the contiguous frame allocator.  A caller's
    [struct dma_allocation] lives at an address the kernel also keeps in its own
    record, and the checks compare that address: the structures are a store
    [handles] from address to contents (zero where nothing was written), and a
    pointer is [Some address], or [None] for a null pointer.  The page tables are
    the interface [address_space]. *)

From stdpp Require Import base list numbers gmap.
From S2P Require Import Prelude Frames.

Definition DMA_OWNER_NONE : Z := 0.
Definition DMA_OWNER_CPU : Z := 1.
Definition DMA_OWNER_DEVICE : Z := 2.
Definition DMA_OWNER_COUNT : Z := 3.

Inductive dma_status :=
| DMA_STATUS_OK
| DMA_STATUS_NULL_ARGUMENT
| DMA_STATUS_ALREADY_INITIALIZED
| DMA_STATUS_NOT_INITIALIZED
| DMA_STATUS_FRAME_ALLOCATION_FAILURE
| DMA_STATUS_NOT_IDENTITY_MAPPED
| DMA_STATUS_NOT_PREPARED
| DMA_STATUS_WRONG_OWNER
| DMA_STATUS_DOUBLE_FREE
| DMA_STATUS_BAD_ALLOCATION.

Record dma_request := DmaRequest {
  dr_page_count : Z;
  dr_alignment : Z;
  dr_maximum_physical_address : Z
}.

Record dma_allocation := DmaAllocation {
  da_frames : frame_contiguous_allocation;
  da_cpu_address : Z;
  da_byte_length : Z;
  da_owner : Z;
  da_initialized : bool;
  da_active : bool
}.

Record dma_state := DmaState {
  active_allocations : Z;
  cpu_owned_allocations : Z;
  device_owned_allocations : Z;
  dma_active : bool
}.

Record dma_record := DmaRecord {
  rec_handle : option Z;
  rec_frames : frame_contiguous_allocation;
  rec_owner : Z;
  rec_initialized : bool;
  rec_active : bool
}.

Definition empty_dma_allocation : dma_allocation :=
  DmaAllocation empty_allocation 0 0 DMA_OWNER_NONE false false.
Definition empty_dma_record : dma_record :=
  DmaRecord None empty_allocation DMA_OWNER_NONE false false.

#[global] Instance dma_allocation_inhabited : Inhabited dma_allocation :=
  populate empty_dma_allocation.
#[global] Instance dma_record_inhabited : Inhabited dma_record := populate empty_dma_record.

(** The file's static storage, the callers' structures, and the frames. *)
Record dma := Dma {
  state : dma_state;
  records : list dma_record;
  handles : gmap Z dma_allocation;
  physical : frames
}.

(** ** The page tables *)

Definition PAGING_MEMORY_WRITE_BACK : Z := 0.
Definition PAGING_WRITE : Z := 1.

Record paging_translation := Translation {
  physical_address : Z;
  permissions : Z;
  memory_type : Z
}.

(** [paging_translate], [None] for a status other than [PAGING_STATUS_OK]. *)
Class address_space := paging_translate : Z -> option paging_translation.

(** ** Operations *)

Definition set_state (st : dma_state) (s : dma) : dma := Dma st (records s) (handles s) (physical s).
Definition set_handle (p : Z) (a : dma_allocation) (s : dma) : dma :=
  Dma (state s) (records s) (<[p := a]> (handles s)) (physical s).
Definition set_record (i : nat) (r : dma_record) (s : dma) : dma :=
  Dma (state s) (<[i := r]> (records s)) (handles s) (physical s).
Definition set_physical (f : frames) (s : dma) : dma := Dma (state s) (records s) (handles s) f.

Definition set_frames (f : frame_contiguous_allocation) (a : dma_allocation) : dma_allocation :=
  DmaAllocation f (da_cpu_address a) (da_byte_length a) (da_owner a) (da_initialized a) (da_active a).

Definition record_key (identifier : Z) (r : dma_record) : bool :=
  rec_active r && (ca_identifier (rec_frames r) =? identifier).

Definition record_for (s : dma) (allocation : option Z) : option nat :=
  match allocation with
  | None => None
  | Some p => first_index (record_key (ca_identifier (da_frames (handles s !!! p)))) (records s)
  end.

(** The comparison of a caller's structure at address [p] with its record. *)
Definition record_agrees (p : Z) (a : dma_allocation) (r : dma_record) : bool :=
  bool_decide (rec_handle r = Some p) &&
  (ca_physical_base (rec_frames r) =? ca_physical_base (da_frames a)) &&
  (ca_page_count (rec_frames r) =? ca_page_count (da_frames a)) &&
  (ca_alignment (rec_frames r) =? ca_alignment (da_frames a)) &&
  (ca_maximum_physical_address (rec_frames r) =? ca_maximum_physical_address (da_frames a)) &&
  ca_active (rec_frames r) &&
  (da_cpu_address a =? ca_physical_base (rec_frames r)) &&
  (ca_page_count (rec_frames r) <=? UINT64_MAX / RSD_PAGE_SIZE) &&
  (da_byte_length a =? u64 (ca_page_count (rec_frames r) * RSD_PAGE_SIZE)) &&
  (rec_owner r =? da_owner a) && Bool.eqb (rec_initialized r) (da_initialized a).

Definition validate_allocation (s : dma) (allocation : option Z) : dma_status :=
  match allocation with
  | None => DMA_STATUS_NULL_ARGUMENT
  | Some p =>
      let a := handles s !!! p in
      if negb (da_active a) || negb (ca_active (da_frames a)) || (da_cpu_address a =? 0) ||
         (da_byte_length a =? 0) || (da_owner a <=? DMA_OWNER_NONE) ||
         (DMA_OWNER_COUNT <=? da_owner a) then DMA_STATUS_BAD_ALLOCATION
      else
        match record_for s allocation with
        | None => DMA_STATUS_BAD_ALLOCATION
        | Some i =>
            if negb (record_agrees p a (records s !!! i)) then DMA_STATUS_BAD_ALLOCATION
            else DMA_STATUS_OK
        end
  end.

Definition clear_record (r : dma_record) : dma_record :=
  DmaRecord None (rec_frames r) (rec_owner r) (rec_initialized r) false.

Definition dma_initialize (s : dma) : dma_status * dma :=
  if dma_active (state s) then (DMA_STATUS_ALREADY_INITIALIZED, s)
  else
    (DMA_STATUS_OK,
     Dma (DmaState 0 0 0 true) (clear_record <$> records s) (handles s) (physical s)).

(** The translations of the first and the last byte are identities onto writable
    write-back memory. *)
Definition identity_mapped `{address_space} (base byte_length : Z) : bool :=
  let last_address := u64 (base + byte_length - 1) in
  match paging_translate base, paging_translate last_address with
  | Some first, Some last =>
      (physical_address first =? base) && (physical_address last =? last_address) &&
      (memory_type first =? PAGING_MEMORY_WRITE_BACK) &&
      (memory_type last =? PAGING_MEMORY_WRITE_BACK) &&
      negb (permissions first .& PAGING_WRITE =? 0) &&
      negb (permissions last .& PAGING_WRITE =? 0)
  | _, _ => false
  end.

Definition count_owner (cpu device : Z) (st : dma_state) : dma_state :=
  DmaState (active_allocations st) (u64 (cpu_owned_allocations st + cpu))
    (u64 (device_owned_allocations st + device)) (dma_active st).

Definition count_active (n : Z) (st : dma_state) : dma_state :=
  DmaState (u64 (active_allocations st + n)) (cpu_owned_allocations st)
    (device_owned_allocations st) (dma_active st).

Definition dma_allocate `{address_space} (request : option dma_request) (allocation : option Z)
    (s : dma) : dma_status * dma :=
  match request, allocation with
  | Some request, Some p =>
      let s := set_handle p empty_dma_allocation s in
      if negb (dma_active (state s)) then (DMA_STATUS_NOT_INITIALIZED, s)
      else
        match first_index (fun r => negb (rec_active r)) (records s) with
        | None => (DMA_STATUS_FRAME_ALLOCATION_FAILURE, s)
        | Some index =>
            let frame_request := ContiguousRequest (dr_page_count request) (dr_alignment request)
              (dr_maximum_physical_address request) in
            let '(frame_status, out, f) :=
              frame_allocate_contiguous (Some frame_request) (Some empty_allocation) (physical s) in
            let frames := default empty_allocation out in
            let s := set_physical f (set_handle p (set_frames frames empty_dma_allocation) s) in
            match frame_status with
            | FRAME_STATUS_OK =>
                let base := ca_physical_base frames in
                let byte_length := u64 (ca_page_count frames * RSD_PAGE_SIZE) in
                if negb (identity_mapped base byte_length) then
                  let '(_, out, f) := frame_release_contiguous (Some frames) (physical s) in
                  let frames := default empty_allocation out in
                  (DMA_STATUS_NOT_IDENTITY_MAPPED,
                   set_physical f (set_handle p (set_frames frames empty_dma_allocation) s))
                else
                  let s := set_handle p
                    (DmaAllocation frames base byte_length DMA_OWNER_CPU false true) s in
                  let s := set_record index
                    (DmaRecord (Some p) frames DMA_OWNER_CPU false true) s in
                  (DMA_STATUS_OK, set_state (count_owner 1 0 (count_active 1 (state s))) s)
            | _ => (DMA_STATUS_FRAME_ALLOCATION_FAILURE, s)
            end
        end
  | _, _ => (DMA_STATUS_NULL_ARGUMENT, s)
  end.

(** [allocation->initialized = true; record->initialized = true;] *)
Definition set_prepared (p : Z) (i : nat) (s : dma) : dma :=
  let a := handles s !!! p in
  let r := records s !!! i in
  set_record i (DmaRecord (rec_handle r) (rec_frames r) (rec_owner r) true (rec_active r))
    (set_handle p (DmaAllocation (da_frames a) (da_cpu_address a) (da_byte_length a) (da_owner a)
      true (da_active a)) s).

(** [allocation->owner = owner; record->owner = owner;] *)
Definition set_owner (p : Z) (i : nat) (owner : Z) (s : dma) : dma :=
  let a := handles s !!! p in
  let r := records s !!! i in
  set_record i (DmaRecord (rec_handle r) (rec_frames r) owner (rec_initialized r) (rec_active r))
    (set_handle p (DmaAllocation (da_frames a) (da_cpu_address a) (da_byte_length a) owner
      (da_initialized a) (da_active a)) s).

Definition dma_mark_initialized (allocation : option Z) (s : dma) : dma_status * dma :=
  match validate_allocation s allocation, allocation with
  | DMA_STATUS_OK, Some p =>
      let a := handles s !!! p in
      if negb (da_owner a =? DMA_OWNER_CPU) then (DMA_STATUS_WRONG_OWNER, s)
      else
        match record_for s allocation with
        | None => (DMA_STATUS_BAD_ALLOCATION, s)
        | Some i => (DMA_STATUS_OK, set_prepared p i s)
        end
  | status, _ => (status, s)
  end.

Definition dma_transfer_to_device (allocation : option Z) (s : dma) : dma_status * dma :=
  match validate_allocation s allocation, allocation with
  | DMA_STATUS_OK, Some p =>
      let a := handles s !!! p in
      if negb (da_owner a =? DMA_OWNER_CPU) then (DMA_STATUS_WRONG_OWNER, s)
      else if negb (da_initialized a) then (DMA_STATUS_NOT_PREPARED, s)
      else
        match record_for s allocation with
        | None => (DMA_STATUS_BAD_ALLOCATION, s)
        | Some i =>
            let s := set_owner p i DMA_OWNER_DEVICE s in
            (DMA_STATUS_OK, set_state (count_owner (-1) 1 (state s)) s)
        end
  | status, _ => (status, s)
  end.

Definition dma_transfer_to_cpu (allocation : option Z) (s : dma) : dma_status * dma :=
  match validate_allocation s allocation, allocation with
  | DMA_STATUS_OK, Some p =>
      let a := handles s !!! p in
      if negb (da_owner a =? DMA_OWNER_DEVICE) then (DMA_STATUS_WRONG_OWNER, s)
      else
        match record_for s allocation with
        | None => (DMA_STATUS_BAD_ALLOCATION, s)
        | Some i =>
            let s := set_owner p i DMA_OWNER_CPU s in
            (DMA_STATUS_OK, set_state (count_owner 1 (-1) (state s)) s)
        end
  | status, _ => (status, s)
  end.

Definition dma_release (allocation : option Z) (s : dma) : dma_status * dma :=
  match allocation with
  | None => (DMA_STATUS_NULL_ARGUMENT, s)
  | Some p =>
      let a := handles s !!! p in
      if negb (dma_active (state s)) then (DMA_STATUS_NOT_INITIALIZED, s)
      else if negb (da_active a) then (DMA_STATUS_DOUBLE_FREE, s)
      else
        match validate_allocation s allocation with
        | DMA_STATUS_OK =>
            if negb (da_owner a =? DMA_OWNER_CPU) then (DMA_STATUS_WRONG_OWNER, s)
            else
              match record_for s allocation with
              | None => (DMA_STATUS_BAD_ALLOCATION, s)
              | Some i =>
                  let '(frame_status, out, f) :=
                    frame_release_contiguous (Some (da_frames a)) (physical s) in
                  let frames := default (da_frames a) out in
                  let s := set_physical f (set_handle p (set_frames frames a) s) in
                  match frame_status with
                  | FRAME_STATUS_OK =>
                      let s := set_handle p (DmaAllocation frames 0 0 DMA_OWNER_NONE false false) s in
                      let s := set_record i
                        (DmaRecord None (deactivate_allocation (rec_frames (records s !!! i)))
                           DMA_OWNER_NONE false false) s in
                      (DMA_STATUS_OK, set_state (count_owner (-1) 0 (count_active (-1) (state s))) s)
                  | _ => (DMA_STATUS_BAD_ALLOCATION, s)
                  end
              end
        | status => (status, s)
        end
  end.

Definition dma_is_device_owned (s : dma) (allocation : option Z) : bool :=
  match validate_allocation s allocation with
  | DMA_STATUS_OK =>
      match record_for s allocation with
      | None => false
      | Some i =>
          rec_initialized (records s !!! i) && (rec_owner (records s !!! i) =? DMA_OWNER_DEVICE)
      end
  | _ => false
  end.

(** The loop of [dma_verify]: the census of the active records so far, or the
    refusal. *)
Fixpoint verify_records (s : dma) (rest : list dma_record) (active cpu device : Z) :
    dma_status * Z * Z * Z :=
  match rest with
  | [] => (DMA_STATUS_OK, active, cpu, device)
  | r :: rest =>
      if negb (rec_active r) then verify_records s rest active cpu device
      else
        match rec_handle r, validate_allocation s (rec_handle r) with
        | Some _, DMA_STATUS_OK =>
            if rec_owner r =? DMA_OWNER_CPU then
              verify_records s rest (u64 (active + 1)) (u64 (cpu + 1)) device
            else if rec_owner r =? DMA_OWNER_DEVICE then
              verify_records s rest (u64 (active + 1)) cpu (u64 (device + 1))
            else (DMA_STATUS_BAD_ALLOCATION, active, cpu, device)
        | _, _ => (DMA_STATUS_BAD_ALLOCATION, active, cpu, device)
        end
  end.

Definition dma_verify (s : dma) : dma_status :=
  if negb (dma_active (state s)) then DMA_STATUS_NOT_INITIALIZED
  else
    match verify_records s (records s) 0 0 0 with
    | (DMA_STATUS_OK, active, cpu, device) =>
        if negb (active =? active_allocations (state s)) ||
           negb (cpu =? cpu_owned_allocations (state s)) ||
           negb (device =? device_owned_allocations (state s)) ||
           negb (u64 (cpu + device) =? active) then DMA_STATUS_BAD_ALLOCATION
        else DMA_STATUS_OK
    | (status, _, _, _) => status
    end.

(** ** Invariant *)

(** Record [i] is active and belongs to the structure at address [p]. *)
Definition live (s : dma) (p : Z) (i : nat) (r : dma_record) : Prop :=
  records s !! i = Some r /\ rec_active r = true /\ rec_handle r = Some p.

Definition bytes (f : frame_contiguous_allocation) : Z := ca_page_count f * RSD_PAGE_SIZE.

(** What an active record and its caller's structure say of each other and of
    the frames: a device only ever owns memory that was marked initialized. *)
Record record_ok (s : dma) (r : dma_record) : Prop := RecordOk {
  ro_handle : exists p, rec_handle r = Some p /\
    handles s !!! p = DmaAllocation (rec_frames r) (ca_physical_base (rec_frames r))
      (bytes (rec_frames r)) (rec_owner r) (rec_initialized r) true;
  ro_active : ca_active (rec_frames r) = true;
  ro_owner : rec_owner r = DMA_OWNER_CPU \/
    rec_owner r = DMA_OWNER_DEVICE /\ rec_initialized r = true;
  ro_frames : exists j q, owns_record (physical s) (rec_frames r) j q
}.

Definition owned_by (owner : Z) (r : dma_record) : bool := rec_active r && (rec_owner r =? owner).

Record dma_wf (s : dma) : Prop := DmaWf {
  dw_active : dma_active (state s) = true;
  dw_records : length (records s) = FRAME_CONTIGUOUS_ALLOCATION_CAPACITY;
  dw_physical : frames_wf (physical s);
  dw_ready : allocator_initialized (physical s) = true;
  dw_null : frame_eligible (physical s) 0 = false;
  dw_record : forall i r, records s !! i = Some r -> rec_active r = true -> record_ok s r;
  dw_distinct : forall i j r q, records s !! i = Some r -> records s !! j = Some q ->
    rec_active r = true -> rec_active q = true ->
    ca_identifier (rec_frames r) = ca_identifier (rec_frames q) -> i = j;
  dw_count : active_allocations (state s) = countb rec_active (records s);
  dw_cpu : cpu_owned_allocations (state s) = countb (owned_by DMA_OWNER_CPU) (records s);
  dw_device : device_owned_allocations (state s) = countb (owned_by DMA_OWNER_DEVICE) (records s)
}.

(** An owned run is a positive number of frames of the early map, never at
    address zero. *)
Lemma owned_run_bounds s f j q :
  frames_wf (physical s) -> frame_eligible (physical s) 0 = false ->
  owns_record (physical s) f j q ->
  0 < ca_physical_base f /\ 0 < ca_page_count f /\
  ca_physical_base f + bytes f <= RSD_EARLY_PHYSICAL_LIMIT.
Proof.
  intros Hwf H0 (Hj & Ha & _ & Hb & Hn). destruct (wf_runs _ Hwf _ _ Hj Ha) as [Hbase Hlow Hcount Hhigh Hused].
  assert (run_first q <> 0).
  { intros Hz. specialize (Hused 0). unfold in_run in Hused.
    assert (Hal : frame_allocated (physical s) 0 = true) by (apply Hused; lia).
    unfold frame_allocated in Hal. by rewrite H0 in Hal. }
  unfold bytes. rewrite <- Hb, <- Hn, Hbase. unfold FRAME_COUNT, RSD_EARLY_PHYSICAL_LIMIT, RSD_PAGE_SIZE in *.
  change (4294967296 / 4096) with 1048576 in Hhigh. lia.
Qed.

Lemma live_handle s p i r :
  dma_wf s -> live s p i r -> record_ok s r /\
  handles s !!! p = DmaAllocation (rec_frames r) (ca_physical_base (rec_frames r))
    (bytes (rec_frames r)) (rec_owner r) (rec_initialized r) true.
Proof.
  intros Hw (Hi & Ha & Hp). pose proof (dw_record s Hw i r Hi Ha) as Hok. split; [done|].
  destruct (ro_handle s r Hok) as (p' & Hp' & Hh). congruence.
Qed.

Lemma record_for_live s p i r : dma_wf s -> live s p i r -> record_for s (Some p) = Some i.
Proof.
  intros Hw Hl. destruct (live_handle s p i r Hw Hl) as [Hok Hh]. destruct Hl as (Hi & Ha & Hp).
  unfold record_for. rewrite Hh. cbn [da_frames]. apply first_index_Some. split.
  - exists r. split; [done|]. unfold record_key. by rewrite Ha, Z.eqb_refl.
  - intros j q Hj Hq. unfold record_key. destruct (rec_active q) eqn:Haq; [|done]. cbn [andb].
    apply Z.eqb_neq. intros Heq. pose proof (dw_distinct s Hw j i q r Hq Hi Haq Ha Heq). lia.
Qed.

Lemma live_unique s p i j r q : dma_wf s -> live s p i r -> live s p j q -> i = j /\ r = q.
Proof.
  intros Hw Hl Hl'. pose proof (record_for_live s p i r Hw Hl) as H1.
  pose proof (record_for_live s p j q Hw Hl') as H2. assert (i = j) as -> by congruence.
  split; [done|]. destruct Hl, Hl'. congruence.
Qed.

Lemma owner_known s r : record_ok s r ->
  (rec_owner r <=? DMA_OWNER_NONE) = false /\ (DMA_OWNER_COUNT <=? rec_owner r) = false.
Proof. intros Hok. by destruct (ro_owner s r Hok) as [-> |[-> _]]. Qed.

Lemma record_agrees_refl p s r :
  record_ok s r -> frames_wf (physical s) -> frame_eligible (physical s) 0 = false ->
  rec_handle r = Some p ->
  record_agrees p (DmaAllocation (rec_frames r) (ca_physical_base (rec_frames r))
    (bytes (rec_frames r)) (rec_owner r) (rec_initialized r) true) r = true.
Proof.
  intros Hok Hwf H0 Hp. destruct (ro_frames s r Hok) as (j & q & Ho).
  destruct (owned_run_bounds s _ j q Hwf H0 Ho) as (Hb & Hn & Hl).
  unfold record_agrees. cbn [da_frames da_cpu_address da_byte_length da_owner da_initialized].
  rewrite bool_decide_true, !Z.eqb_refl, (ro_active s r Hok), eqb_reflx by done.
  unfold bytes, RSD_EARLY_PHYSICAL_LIMIT in *. rewrite (wrap_small 64) by (unfold fits, RSD_PAGE_SIZE in *; lia).
  rewrite Z.eqb_refl. cbn [andb]. rewrite !andb_true_r. apply Z.leb_le.
  unfold UINT64_MAX, RSD_PAGE_SIZE in *. change ((2 ^ 64 - 1) / 4096) with 4503599627370495. lia.
Qed.

(** A structure passes the check exactly when an active record points back at
    its address. *)
Lemma validate_live s p i r : dma_wf s -> live s p i r -> validate_allocation s (Some p) = DMA_STATUS_OK.
Proof.
  intros Hw Hl. destruct (live_handle s p i r Hw Hl) as [Hok Hh].
  unfold validate_allocation. rewrite (record_for_live s p i r Hw Hl), Hh.
  cbn [da_active da_frames da_cpu_address da_byte_length da_owner].
  destruct (ro_frames s r Hok) as (j & q & Ho).
  destruct (owned_run_bounds s _ j q (dw_physical s Hw) (dw_null s Hw) Ho) as (Hb & Hn & _).
  destruct (owner_known s r Hok) as [-> ->]. rewrite (ro_active s r Hok). cbn [negb orb].
  destruct (Z.eqb_spec (ca_physical_base (rec_frames r)) 0); [lia|].
  destruct (Z.eqb_spec (bytes (rec_frames r)) 0); [unfold bytes, RSD_PAGE_SIZE in *; lia|]. cbn [orb].
  destruct Hl as (Hi & _ & Hp). rewrite (list_lookup_total_correct _ _ _ Hi).
  by rewrite (record_agrees_refl p s r Hok (dw_physical s Hw) (dw_null s Hw) Hp).
Qed.

Lemma validate_inv s p :
  validate_allocation s (Some p) = DMA_STATUS_OK -> exists i r, live s p i r.
Proof.
  unfold validate_allocation. destruct (_ || _); [done|].
  destruct (record_for s (Some p)) as [i|] eqn:Hf; [|done].
  unfold record_for in Hf. apply first_index_Some in Hf as [(r & Hr & Hk) _].
  rewrite (list_lookup_total_correct _ _ _ Hr). unfold record_agrees.
  case_bool_decide as Hh; [|done]. intros _. exists i, r. split_and!; [done| |done].
  unfold record_key in Hk. by destruct (rec_active r).
Qed.

Lemma validate_refused s p :
  (forall i r, ~ live s p i r) -> validate_allocation s (Some p) = DMA_STATUS_BAD_ALLOCATION.
Proof.
  intros Hno. destruct (validate_allocation s (Some p)) eqn:Hv; try done.
  { apply validate_inv in Hv as (i & r & Hl). by destruct (Hno i r). }
  all: exfalso; unfold validate_allocation in Hv; destruct (_ || _); [done|];
    destruct (record_for _ _); [destruct (negb _)|]; done.
Qed.

(** An address is live or it is not. *)
Lemma live_dec s p : (exists i r, live s p i r) \/ (forall i r, ~ live s p i r).
Proof.
  destruct (first_index (fun r => rec_active r && bool_decide (rec_handle r = Some p)) (records s))
    as [i|] eqn:Hf.
  - apply first_index_Some in Hf as [(r & Hr & Hk) _]. left. exists i, r.
    apply andb_true_iff in Hk as [? ?%bool_decide_eq_true]. done.
  - right. intros i r (Hi & Ha & Hp). rewrite first_index_None in Hf. specialize (Hf i r Hi).
    simpl in Hf. by rewrite Ha, bool_decide_true in Hf.
Qed.

(** ** Preservation *)

Definition b2z (b : bool) : Z := if b then 1 else 0.

(** Replacing record [i] and the structure at [p], which no other record uses. *)
Section Update.
Variables (s s' : dma) (p : Z) (i : nat) (r r' : dma_record).
Hypothesis Hw : dma_wf s.
Hypothesis Hi : records s !! i = Some r.
Hypothesis Hrecords : records s' = <[i := r']> (records s).
Hypothesis Hhandles : forall q, q <> p -> handles s' !!! q = handles s !!! q.
Hypothesis Hother : forall j q, j <> i -> records s !! j = Some q -> rec_active q = true ->
  rec_handle q <> Some p.
Hypothesis Hphysical : frames_wf (physical s').
Hypothesis Hready : allocator_initialized (physical s') = true.
Hypothesis Hnull : frame_eligible (physical s') 0 = false.
Hypothesis Howned : forall j q, j <> i -> records s !! j = Some q -> rec_active q = true ->
  exists k c, owns_record (physical s') (rec_frames q) k c.
Hypothesis Hnew : rec_active r' = true -> record_ok s' r' /\
  forall j q, j <> i -> records s !! j = Some q -> rec_active q = true ->
    ca_identifier (rec_frames q) <> ca_identifier (rec_frames r').
Hypothesis Hactive : dma_active (state s') = true.
Hypothesis Hcount : active_allocations (state s') =
  active_allocations (state s) - b2z (rec_active r) + b2z (rec_active r').
Hypothesis Hcpu : cpu_owned_allocations (state s') = cpu_owned_allocations (state s) -
  b2z (owned_by DMA_OWNER_CPU r) + b2z (owned_by DMA_OWNER_CPU r').
Hypothesis Hdevice : device_owned_allocations (state s') = device_owned_allocations (state s) -
  b2z (owned_by DMA_OWNER_DEVICE r) + b2z (owned_by DMA_OWNER_DEVICE r').

Lemma update_record_ok j q :
  j <> i -> records s !! j = Some q -> rec_active q = true -> record_ok s' q.
Proof.
  intros Hj Hq Ha. destruct (dw_record s Hw j q Hq Ha) as [(p' & Hp' & Hh) Hac Ho _].
  constructor; [|done|done|by eapply Howned].
  exists p'. split; [done|]. rewrite Hhandles; [done|]. intros ->. by apply (Hother j q).
Qed.

Lemma update_lookup j q : records s' !! j = Some q ->
  (j = i /\ q = r') \/ (j <> i /\ records s !! j = Some q).
Proof.
  rewrite Hrecords. destruct (decide (j = i)) as [->|Hj].
  - rewrite list_lookup_insert_eq by (by eapply lookup_lt_Some). intros [= ->]. by left.
  - rewrite list_lookup_insert_ne by done. by right.
Qed.

Lemma update_wf : dma_wf s'.
Proof.
  constructor; try done.
  - rewrite Hrecords, length_insert. apply Hw.
  - intros j q [[-> ->]|[Hj Hq]]%update_lookup Ha; [by apply Hnew|by eapply update_record_ok].
  - intros j k q c [[-> ->]|[Hj Hq]]%update_lookup [[-> ->]|[Hk Hc]]%update_lookup Haq Hac Hid;
      [done| | |by eapply (dw_distinct s Hw)].
    + exfalso. by apply (proj2 (Hnew Haq) k c).
    + exfalso. by apply (proj2 (Hnew Hac) j q).
  - rewrite Hcount, Hrecords, (countb_insert _ _ _ _ r' Hi), (dw_count s Hw). done.
  - rewrite Hcpu, Hrecords, (countb_insert _ _ _ _ r' Hi), (dw_cpu s Hw). done.
  - rewrite Hdevice, Hrecords, (countb_insert _ _ _ _ r' Hi), (dw_device s Hw). done.
Qed.
End Update.

Lemma counts_bounds s : dma_wf s ->
  0 <= active_allocations (state s) <= 32 /\ 0 <= cpu_owned_allocations (state s) <= 32 /\
  0 <= device_owned_allocations (state s) <= 32.
Proof.
  intros Hw. rewrite (dw_count s Hw), (dw_cpu s Hw), (dw_device s Hw).
  pose proof (countb_bounds rec_active (records s)) as H1.
  pose proof (countb_bounds (owned_by DMA_OWNER_CPU) (records s)) as H2.
  pose proof (countb_bounds (owned_by DMA_OWNER_DEVICE) (records s)) as H3.
  rewrite (dw_records s Hw) in H1, H2, H3. change (Z.of_nat FRAME_CONTIGUOUS_ALLOCATION_CAPACITY) with 32 in *.
  lia.
Qed.

Lemma owned_positive s i r owner :
  records s !! i = Some r -> rec_active r = true -> rec_owner r = owner ->
  0 < countb (owned_by owner) (records s).
Proof.
  intros Hi Ha Ho. eapply countb_pos; [exact Hi|]. unfold owned_by. by rewrite Ha, Ho, Z.eqb_refl.
Qed.

Lemma live_other s p i r j q : dma_wf s -> live s p i r ->
  j <> i -> records s !! j = Some q -> rec_active q = true -> rec_handle q <> Some p.
Proof. intros Hw Hl Hj Hq Ha Hp. apply Hj. by eapply (live_unique s p j i q r). Qed.

Lemma live_identifier s i r j q : dma_wf s -> records s !! i = Some r -> rec_active r = true ->
  j <> i -> records s !! j = Some q -> rec_active q = true ->
  ca_identifier (rec_frames q) <> ca_identifier (rec_frames r).
Proof. intros Hw Hi Ha Hj Hq Haq Heq. apply Hj. by eapply (dw_distinct s Hw). Qed.

(** A record relabelled with a new owner or flag, its structure with it. *)
Definition relabelled (r : dma_record) (owner : Z) (initialized : bool) : dma_record :=
  DmaRecord (rec_handle r) (rec_frames r) owner initialized (rec_active r).

Lemma relabel_wf s s' p i r owner initialized :
  dma_wf s -> live s p i r ->
  records s' = <[i := relabelled r owner initialized]> (records s) ->
  handles s' = <[p := DmaAllocation (rec_frames r) (ca_physical_base (rec_frames r))
    (bytes (rec_frames r)) owner initialized true]> (handles s) ->
  physical s' = physical s -> dma_active (state s') = true ->
  active_allocations (state s') = active_allocations (state s) ->
  cpu_owned_allocations (state s') = cpu_owned_allocations (state s) -
    b2z (rec_owner r =? DMA_OWNER_CPU) + b2z (owner =? DMA_OWNER_CPU) ->
  device_owned_allocations (state s') = device_owned_allocations (state s) -
    b2z (rec_owner r =? DMA_OWNER_DEVICE) + b2z (owner =? DMA_OWNER_DEVICE) ->
  (owner = DMA_OWNER_CPU \/ owner = DMA_OWNER_DEVICE /\ initialized = true) -> dma_wf s'.
Proof.
  intros Hw Hl Hr Hh Hp Hact Hc1 Hc2 Hc3 Ho. destruct (live_handle s p i r Hw Hl) as [Hok _].
  pose proof Hl as (Hi & Ha & Hpr).
  apply (update_wf s s' p i r (relabelled r owner initialized)); rewrite ?Hp; try done; try apply Hw.
  - intros q Hq. by rewrite Hh, lookup_total_insert_ne.
  - intros j q. by apply (live_other s p i r).
  - intros j q _ Hq Haq. by destruct (dw_record s Hw j q Hq Haq).
  - intros _. split; [|by intros j q; apply (live_identifier s i r)].
    constructor; cbn [relabelled rec_handle rec_frames rec_owner rec_initialized]; [|apply Hok|done|].
    + exists p. split; [done|]. by rewrite Hh, lookup_total_insert_eq.
    + rewrite Hp. apply Hok.
  - rewrite Hc1. cbn [relabelled rec_active]. lia.
  - rewrite Hc2. unfold owned_by. cbn [relabelled rec_active rec_owner]. by rewrite Ha.
  - rewrite Hc3. unfold owned_by. cbn [relabelled rec_active rec_owner]. by rewrite Ha.
Qed.

Lemma relabel_live s s' p i r owner initialized :
  live s p i r -> records s' = <[i := relabelled r owner initialized]> (records s) ->
  live s' p i (relabelled r owner initialized).
Proof.
  intros (Hi & Ha & Hp) Hr. split; [|done]. rewrite Hr. apply list_lookup_insert_eq.
  by eapply lookup_lt_Some.
Qed.

Lemma set_owner_eq s p i r owner :
  dma_wf s -> live s p i r ->
  records (set_owner p i owner s) = <[i := relabelled r owner (rec_initialized r)]> (records s) /\
  handles (set_owner p i owner s) = <[p := DmaAllocation (rec_frames r)
    (ca_physical_base (rec_frames r)) (bytes (rec_frames r)) owner (rec_initialized r) true]> (handles s).
Proof.
  intros Hw Hl. destruct (live_handle s p i r Hw Hl) as [_ Hh]. destruct Hl as (Hi & _ & _).
  unfold set_owner. cbn. by rewrite Hh, (list_lookup_total_correct _ _ _ Hi).
Qed.

Lemma set_prepared_eq s p i r :
  dma_wf s -> live s p i r ->
  records (set_prepared p i s) = <[i := relabelled r (rec_owner r) true]> (records s) /\
  handles (set_prepared p i s) = <[p := DmaAllocation (rec_frames r)
    (ca_physical_base (rec_frames r)) (bytes (rec_frames r)) (rec_owner r) true true]> (handles s).
Proof.
  intros Hw Hl. destruct (live_handle s p i r Hw Hl) as [_ Hh]. destruct Hl as (Hi & _ & _).
  unfold set_prepared. cbn. by rewrite Hh, (list_lookup_total_correct _ _ _ Hi).
Qed.

(** ** The operations on a live structure *)

Section LiveOperations.
Variables (s : dma) (p : Z) (i : nat) (r : dma_record).
Hypothesis Hw : dma_wf s.
Hypothesis Hl : live s p i r.

Lemma mark_initialized_live :
  dma_mark_initialized (Some p) s =
    if rec_owner r =? DMA_OWNER_CPU then (DMA_STATUS_OK, set_prepared p i s)
    else (DMA_STATUS_WRONG_OWNER, s).
Proof.
  unfold dma_mark_initialized. rewrite (validate_live s p i r Hw Hl), (record_for_live s p i r Hw Hl).
  rewrite (proj2 (live_handle s p i r Hw Hl)). cbn [da_owner]. by destruct (_ =? _).
Qed.

Lemma to_device_live :
  dma_transfer_to_device (Some p) s =
    if rec_owner r =? DMA_OWNER_CPU then
      if rec_initialized r then
        let s' := set_owner p i DMA_OWNER_DEVICE s in
        (DMA_STATUS_OK, set_state (count_owner (-1) 1 (state s')) s')
      else (DMA_STATUS_NOT_PREPARED, s)
    else (DMA_STATUS_WRONG_OWNER, s).
Proof.
  unfold dma_transfer_to_device. rewrite (validate_live s p i r Hw Hl), (record_for_live s p i r Hw Hl).
  rewrite (proj2 (live_handle s p i r Hw Hl)). cbn [da_owner da_initialized].
  destruct (_ =? _); [|done]. by destruct (rec_initialized r).
Qed.

Lemma to_cpu_live :
  dma_transfer_to_cpu (Some p) s =
    if rec_owner r =? DMA_OWNER_DEVICE then
      let s' := set_owner p i DMA_OWNER_CPU s in
      (DMA_STATUS_OK, set_state (count_owner 1 (-1) (state s')) s')
    else (DMA_STATUS_WRONG_OWNER, s).
Proof.
  unfold dma_transfer_to_cpu. rewrite (validate_live s p i r Hw Hl), (record_for_live s p i r Hw Hl).
  rewrite (proj2 (live_handle s p i r Hw Hl)). cbn [da_owner]. by destruct (_ =? _).
Qed.

Lemma set_prepared_wf : rec_owner r = DMA_OWNER_CPU -> dma_wf (set_prepared p i s).
Proof.
  intros Ho. destruct (set_prepared_eq s p i r Hw Hl) as [Hr Hh].
  apply (relabel_wf s _ p i r (rec_owner r) true); try done; cbn; try lia; auto. apply Hw.
Qed.

Lemma to_device_wf : rec_owner r = DMA_OWNER_CPU -> rec_initialized r = true ->
  dma_wf (set_state (count_owner (-1) 1 (state s)) (set_owner p i DMA_OWNER_DEVICE s)).
Proof.
  intros Ho Hp. destruct (set_owner_eq s p i r DMA_OWNER_DEVICE Hw Hl) as [Hr Hh].
  destruct (counts_bounds s Hw) as (_ & Hc & Hd).
  pose proof (owned_positive s i r DMA_OWNER_CPU (proj1 Hl) (proj1 (proj2 Hl)) Ho) as Hpos.
  rewrite <- (dw_cpu s Hw) in Hpos.
  apply (relabel_wf s _ p i r DMA_OWNER_DEVICE (rec_initialized r)); try done; cbn;
    rewrite ?Ho; try (rewrite wrap_small by (unfold fits; lia)); try apply Hw; cbn; try lia.
  by right.
Qed.

Lemma to_cpu_wf : rec_owner r = DMA_OWNER_DEVICE ->
  dma_wf (set_state (count_owner 1 (-1) (state s)) (set_owner p i DMA_OWNER_CPU s)).
Proof.
  intros Ho. destruct (set_owner_eq s p i r DMA_OWNER_CPU Hw Hl) as [Hr Hh].
  destruct (counts_bounds s Hw) as (_ & Hc & Hd).
  pose proof (owned_positive s i r DMA_OWNER_DEVICE (proj1 Hl) (proj1 (proj2 Hl)) Ho) as Hpos.
  rewrite <- (dw_device s Hw) in Hpos.
  apply (relabel_wf s _ p i r DMA_OWNER_CPU (rec_initialized r)); try done; cbn;
    rewrite ?Ho; try (rewrite wrap_small by (unfold fits; lia)); try apply Hw; cbn; try lia; auto.
Qed.

(** The state after a successful release, with the frame run [j] dropped. *)
Definition released (j : nat) (q : contiguous_record) : dma :=
  Dma (count_owner (-1) 0 (count_active (-1) (state s)))
    (<[i := DmaRecord None (deactivate_allocation (rec_frames r)) DMA_OWNER_NONE false false]>
       (records s))
    (<[p := DmaAllocation (deactivate_allocation (rec_frames r)) 0 0 DMA_OWNER_NONE false false]>
       (handles s))
    (drop_run j q (physical s)).

Lemma release_live :
  if rec_owner r =? DMA_OWNER_CPU then
    exists j q, owns_record (physical s) (rec_frames r) j q /\
      dma_release (Some p) s = (DMA_STATUS_OK, released j q)
  else dma_release (Some p) s = (DMA_STATUS_WRONG_OWNER, s).
Proof.
  destruct (live_handle s p i r Hw Hl) as [Hok Hh]. unfold dma_release.
  rewrite (dw_active s Hw), (validate_live s p i r Hw Hl), (record_for_live s p i r Hw Hl), Hh.
  cbn [negb da_active da_owner da_frames].
  destruct (rec_owner r =? DMA_OWNER_CPU); cbn [negb]; [|done].
  destruct (release_contiguous_cases (physical s) (rec_frames r) (dw_physical s Hw) (dw_ready s Hw))
    as [(_ & j & q & Ho & Hrel)|[Hno _]].
  2: { destruct Hno. split; [apply Hok|apply (ro_frames s r Hok)]. }
  exists j, q. split; [done|]. rewrite Hrel. cbn [default from_option id].
  unfold released, set_physical, set_handle, set_record, set_state.
  cbn [state records handles physical]. rewrite (list_lookup_total_correct _ _ _ (proj1 Hl)).
  by rewrite insert_insert_eq.
Qed.

Lemma released_wf j q : rec_owner r = DMA_OWNER_CPU ->
  owns_record (physical s) (rec_frames r) j q -> dma_wf (released j q).
Proof.
  intros Ho Hown. pose proof Hl as (Hi & Ha & Hp). pose proof Hown as (Hj & Hqa & Hqid & _).
  destruct (counts_bounds s Hw) as (Hc & Hcp & _).
  pose proof (owned_positive s i r DMA_OWNER_CPU Hi Ha Ho) as Hpos. rewrite <- (dw_cpu s Hw) in Hpos.
  pose proof (countb_pos rec_active (records s) i r Hi Ha) as Hpos'. rewrite <- (dw_count s Hw) in Hpos'.
  apply (update_wf s _ p i r (DmaRecord None (deactivate_allocation (rec_frames r)) DMA_OWNER_NONE false false));
    cbn [released records handles physical state]; try done.
  - intros x Hx. by rewrite lookup_total_insert_ne.
  - intros k c. by apply (live_other s p i r).
  - by apply drop_run_wf; [apply Hw|..].
  - rewrite drop_run_initialized. apply Hw.
  - destruct (drop_run_window (physical s) j q (dw_physical s Hw) Hj Hqa) as [-> _]. apply Hw.
  - intros k c Hk Hc0 Hac. destruct (ro_frames s c (dw_record s Hw k c Hc0 Hac)) as (m & d & Hm).
    exists m, d. apply owns_after_drop; [done|]. intros ->.
    pose proof Hm as (Hm1 & _ & Hm3 & _). assert (d = q) as -> by congruence.
    apply (live_identifier s i r k c Hw Hi Ha Hk Hc0 Hac). congruence.
  - apply Hw.
  - cbn. rewrite Ha. cbn. rewrite wrap_small by (unfold fits; lia). lia.
  - unfold owned_by. rewrite Ha, Ho. cbn. rewrite wrap_small by (unfold fits; lia). lia.
  - unfold owned_by. rewrite Ha, Ho. cbn. rewrite wrap_small.
    + lia.
    + destruct (counts_bounds s Hw) as (_ & _ & ?). unfold fits. lia.
Qed.

Lemma released_free j q g : owns_record (physical s) (rec_frames r) j q ->
  frame_is_free (physical (released j q)) g =
    let first := ca_physical_base (rec_frames r) / RSD_PAGE_SIZE in
    if decide (first <= g < first + ca_page_count (rec_frames r)) then true
    else frame_is_free (physical s) g.
Proof.
  intros (Hj & Hqa & _ & Hqb & Hqn).
  pose proof (drop_run_window (physical s) j q (dw_physical s Hw) Hj Hqa) as Hwin.
  cbn [released physical]. rewrite (free_window _ _ _ _ _ g Hwin), <- Hqb, <- Hqn.
  fold (run_first q). cbv zeta. case_decide as Hg; [|done].
  pose proof (run_used _ _ (wf_runs _ (dw_physical s Hw) j q Hj Hqa) g Hg) as Hal.
  apply allocated_iff in Hal as [He _]. by rewrite He.
Qed.
End LiveOperations.

(** ** The ownership protocol *)

(** What the kernel's records say of the structure at an address: its owner and
    whether it was marked initialized, [None] when it is not a live allocation. *)
Definition ownership (s : dma) (p : Z) : option (Z * bool) :=
  match first_index (fun r => rec_active r && bool_decide (rec_handle r = Some p)) (records s) with
  | Some i => Some (rec_owner (records s !!! i), rec_initialized (records s !!! i))
  | None => None
  end.

Inductive owner_event := EvMark | EvToDevice | EvToCpu | EvRelease.

Definition dma_event (ev : owner_event) (p : Z) (s : dma) : dma_status * dma :=
  match ev with
  | EvMark => dma_mark_initialized (Some p) s
  | EvToDevice => dma_transfer_to_device (Some p) s
  | EvToCpu => dma_transfer_to_cpu (Some p) s
  | EvRelease => dma_release (Some p) s
  end.

(** The protocol each live structure follows. *)
Definition owner_spec (ev : owner_event) (o : option (Z * bool)) : dma_status * option (Z * bool) :=
  match o with
  | None => (DMA_STATUS_BAD_ALLOCATION, None)
  | Some (owner, prepared) =>
      let cpu := owner =? DMA_OWNER_CPU in
      match ev with
      | EvMark => if cpu then (DMA_STATUS_OK, Some (owner, true)) else (DMA_STATUS_WRONG_OWNER, o)
      | EvToDevice =>
          if cpu then
            if prepared then (DMA_STATUS_OK, Some (DMA_OWNER_DEVICE, true))
            else (DMA_STATUS_NOT_PREPARED, o)
          else (DMA_STATUS_WRONG_OWNER, o)
      | EvToCpu =>
          if cpu then (DMA_STATUS_WRONG_OWNER, o) else (DMA_STATUS_OK, Some (DMA_OWNER_CPU, prepared))
      | EvRelease => if cpu then (DMA_STATUS_OK, None) else (DMA_STATUS_WRONG_OWNER, o)
      end
  end.

Lemma ownership_live s p i r :
  dma_wf s -> live s p i r -> ownership s p = Some (rec_owner r, rec_initialized r).
Proof.
  intros Hw Hl. unfold ownership. destruct (first_index _ _) as [j|] eqn:Hf.
  - apply first_index_Some in Hf as [(q & Hq & Hk) _].
    apply andb_true_iff in Hk as [Ha Hp%bool_decide_eq_true].
    destruct (live_unique s p j i q r Hw) as [_ ->]; [done..|].
    by rewrite (list_lookup_total_correct _ _ _ Hq).
  - destruct Hl as (Hi & Ha & Hp). rewrite first_index_None in Hf. specialize (Hf i r Hi).
    simpl in Hf. by rewrite Ha, bool_decide_true in Hf.
Qed.

Lemma ownership_none s p : (forall i r, ~ live s p i r) -> ownership s p = None.
Proof.
  intros Hno. unfold ownership. destruct (first_index _ _) as [i|] eqn:Hf; [|done].
  apply first_index_Some in Hf as [(r & Hr & Hk) _].
  apply andb_true_iff in Hk as [Ha Hp%bool_decide_eq_true]. by destruct (Hno i r).
Qed.

Lemma ownership_ext s s' q :
  dma_wf s -> dma_wf s' -> (forall i r, live s' q i r <-> live s q i r) ->
  ownership s' q = ownership s q.
Proof.
  intros Hw Hw' Hext. destruct (live_dec s q) as [(i & r & Hl)|Hno].
  - rewrite (ownership_live s q i r Hw Hl). apply (ownership_live s' q i r Hw'). by apply Hext.
  - rewrite !ownership_none; [done|done|]. intros i r Hl%Hext. by apply (Hno i r).
Qed.

(** Rewriting the record of [p] leaves every other address alone. *)
Lemma live_update s s' p i r' q j c :
  (i < length (records s))%nat -> records s' = <[i := r']> (records s) ->
  (rec_active r' = true -> rec_handle r' = Some p) ->
  (forall r, records s !! i = Some r -> rec_active r = true -> rec_handle r = Some p) ->
  q <> p -> live s' q j c <-> live s q j c.
Proof.
  intros Hi Hr Hp' Hp Hq. unfold live. rewrite Hr. destruct (decide (j = i)) as [->|Hj].
  - rewrite list_lookup_insert_eq by done. split; intros (Hlk & Ha & Hh).
    + injection Hlk as ->. exfalso. apply Hq. specialize (Hp' Ha). congruence.
    + exfalso. apply Hq. specialize (Hp c Hlk Ha). congruence.
  - by rewrite list_lookup_insert_ne.
Qed.

Lemma ownership_update s s' p i r r' q :
  dma_wf s -> dma_wf s' -> live s p i r -> records s' = <[i := r']> (records s) ->
  (rec_active r' = true -> rec_handle r' = Some p) -> q <> p -> ownership s' q = ownership s q.
Proof.
  intros Hw Hw' Hl Hr Hp Hq. apply ownership_ext; [done|done|]. intros j c.
  destruct Hl as (Hi & _ & Hh). apply (live_update s s' p i r'); try done.
  - by eapply lookup_lt_Some.
  - intros x Hx _. congruence.
Qed.

(** The same address after its record was rewritten. *)
Lemma ownership_relabelled s s' p i r owner b :
  dma_wf s' -> live s p i r -> records s' = <[i := relabelled r owner b]> (records s) ->
  ownership s' p = Some (owner, b).
Proof.
  intros Hw' (Hi & Ha & Hp) Hr. apply (ownership_live s' p i (relabelled r owner b) Hw').
  split; [|done]. rewrite Hr. apply list_lookup_insert_eq. by eapply lookup_lt_Some.
Qed.

Definition at_address (p : Z) (o : option (Z * bool)) (s s' : dma) : Prop :=
  forall q, ownership s' q = if decide (q = p) then o else ownership s q.

Lemma relabel_ownership s s' p i r owner b :
  dma_wf s -> dma_wf s' -> live s p i r ->
  records s' = <[i := relabelled r owner b]> (records s) ->
  at_address p (Some (owner, b)) s s'.
Proof.
  intros Hw Hw' Hl Hr q. case_decide as Hq.
  - subst q. by eapply ownership_relabelled.
  - eapply (ownership_update s s' p i r); try done. intros _. apply Hl.
Qed.

Lemma at_address_same p s : at_address p (ownership s p) s s.
Proof. intros q. by case_decide as Hq; [subst q|]. Qed.

(** One call on a live structure follows the protocol. *)
Lemma dma_event_live ev s p i r :
  dma_wf s -> live s p i r ->
  let '(st, s') := dma_event ev p s in
  dma_wf s' /\ st = (owner_spec ev (ownership s p)).1 /\
  at_address p (owner_spec ev (ownership s p)).2 s s'.
Proof.
  intros Hw Hl. pose proof (ownership_live s p i r Hw Hl) as Ho. pose proof (at_address_same p s) as Hsame.
  destruct (live_handle s p i r Hw Hl) as [Hok _]. rewrite Ho in Hsame |- *. cbn [owner_spec].
  destruct (Z.eqb_spec (rec_owner r) DMA_OWNER_CPU) as [Hc|Hc].
  - destruct ev; cbn [dma_event].
    + rewrite (mark_initialized_live s p i r Hw Hl), Hc. cbn. assert (dma_wf (set_prepared p i s)) as Hw'.
      { by eapply set_prepared_wf. }
      split_and!; [done..|]. rewrite <- Hc. eapply relabel_ownership; try done. by apply set_prepared_eq.
    + rewrite (to_device_live s p i r Hw Hl), Hc. cbn. destruct (rec_initialized r) eqn:Hp.
      * assert (dma_wf (set_state (count_owner (-1) 1 (state s)) (set_owner p i DMA_OWNER_DEVICE s))) as Hw'
          by by eapply to_device_wf.
        split_and!; [done..|]. rewrite <- Hp. eapply relabel_ownership; try done. by apply set_owner_eq.
      * rewrite Hc in Hsame. by split_and!.
    + rewrite (to_cpu_live s p i r Hw Hl), Hc. rewrite Hc in Hsame. by split_and!.
    + pose proof (release_live s p i r Hw Hl) as Hrel. rewrite Hc in Hrel.
      destruct Hrel as (j & q & Hown & ->).
      assert (dma_wf (released s p i r j q)) as Hw' by by eapply released_wf.
      split_and!; [done..|]. intros x. case_decide as Hx.
      * subst x. apply ownership_none. intros k c (Hk & Hac & Hhc). cbn [released records] in Hk.
        destruct (decide (k = i)) as [->|Hne].
        { rewrite list_lookup_insert_eq in Hk by (eapply lookup_lt_Some; apply Hl). by injection Hk as <-. }
        rewrite list_lookup_insert_ne in Hk by done. by apply (live_other s p i r k c Hw Hl).
      * eapply (ownership_update s _ p i r); [done|done|done|done|done|done].
  - assert (Hd : rec_owner r = DMA_OWNER_DEVICE /\ rec_initialized r = true).
    { by destruct (ro_owner s r Hok). }
    destruct Hd as [Hd Hp]. rewrite Hd in Hsame. destruct ev; cbn [dma_event].
    + rewrite (mark_initialized_live s p i r Hw Hl), Hd. by split_and!.
    + rewrite (to_device_live s p i r Hw Hl), Hd. by split_and!.
    + rewrite (to_cpu_live s p i r Hw Hl), Hd. cbn.
      assert (dma_wf (set_state (count_owner 1 (-1) (state s)) (set_owner p i DMA_OWNER_CPU s))) as Hw'
        by by eapply to_cpu_wf.
      split_and!; [done..|]. eapply relabel_ownership; try done. by apply set_owner_eq.
    + pose proof (release_live s p i r Hw Hl) as Hrel. rewrite Hd in Hrel |- *.
      change (DMA_OWNER_DEVICE =? DMA_OWNER_CPU) with false in Hrel. rewrite Hrel.
      by split_and!.
Qed.

Lemma dma_event_dead ev s p :
  dma_wf s -> (forall i r, ~ live s p i r) ->
  exists st, dma_event ev p s = (st, s) /\
    (st = DMA_STATUS_BAD_ALLOCATION \/ ev = EvRelease /\ st = DMA_STATUS_DOUBLE_FREE).
Proof.
  intros Hw Hno. pose proof (validate_refused s p Hno) as Hv.
  destruct ev; cbn [dma_event]; unfold dma_mark_initialized, dma_transfer_to_device,
    dma_transfer_to_cpu, dma_release; rewrite ?Hv; [by eexists; auto..|].
  rewrite (dw_active s Hw). cbn [negb]. destruct (negb (da_active _)); by eexists; auto.
Qed.

(** C6: every call of the ownership interface follows the protocol of a live
    allocation: only the CPU may mark it initialized, hand it to a device (once
    initialized) or release it, only a device's memory is taken back, and each
    other call is refused with the status that says why.  A structure the kernel
    has no record of at that address, such as a copy, is refused and nothing
    changes; no call affects another allocation. *)
Theorem dma_event_refines ev s p :
  dma_wf s ->
  let '(st, s') := dma_event ev p s in
  dma_wf s' /\
  (st = (owner_spec ev (ownership s p)).1 \/
   ownership s p = None /\ ev = EvRelease /\ st = DMA_STATUS_DOUBLE_FREE) /\
  at_address p (owner_spec ev (ownership s p)).2 s s' /\
  (ownership s p = None -> s' = s).
Proof.
  intros Hw. destruct (live_dec s p) as [(i & r & Hl)|Hno].
  - pose proof (dma_event_live ev s p i r Hw Hl) as Hc. pose proof (ownership_live s p i r Hw Hl) as Ho.
    destruct (dma_event ev p s) as [st s']. destruct Hc as (? & ? & ?).
    split_and!; [done|by left|done|]. by rewrite Ho.
  - destruct (dma_event_dead ev s p Hw Hno) as (st & -> & Hst).
    pose proof (ownership_none s p Hno) as Ho. pose proof (at_address_same p s) as Hsame.
    rewrite Ho in *. split_and!; [done| |done|done].
    destruct Hst as [->|[-> ->]]; [by left|by right].
Qed.

(** ** Allocation *)

(** Changing only the structure at an address no record uses, and the frames. *)
Lemma fresh_wf s s' p :
  dma_wf s -> (forall i r, ~ live s p i r) ->
  state s' = state s -> records s' = records s ->
  (forall q, q <> p -> handles s' !!! q = handles s !!! q) ->
  frames_wf (physical s') -> allocator_initialized (physical s') = true ->
  frame_eligible (physical s') 0 = false ->
  (forall i r, records s !! i = Some r -> rec_active r = true ->
     exists k c, owns_record (physical s') (rec_frames r) k c) -> dma_wf s'.
Proof.
  intros Hw Hno Hst Hrec Hh Hf Hr He Ho. destruct Hw as [Ha Hl _ _ _ Hok Hd Hc Hcp Hdv].
  constructor; rewrite ?Hst, ?Hrec; try done.
  intros i r Hi Hact. destruct (Hok i r Hi Hact) as [(q & Hq & Hv) Hac Hown _].
  constructor; [|done|done|by eapply Ho]. exists q. split; [done|]. rewrite Hh; [done|].
  intros ->. by apply (Hno i r).
Qed.

Lemma fresh_ownership s s' : records s' = records s -> forall q, ownership s' q = ownership s q.
Proof. intros Hr q. unfold ownership. by rewrite Hr. Qed.

Lemma record_identifier s i r :
  dma_wf s -> records s !! i = Some r -> rec_active r = true ->
  ca_identifier (rec_frames r) < next_contiguous_identifier (physical s).
Proof.
  intros Hw Hi Ha. destruct (ro_frames s r (dw_record s Hw i r Hi Ha)) as (k & c & Hk & Hc & Hid & _).
  rewrite <- Hid. by eapply (wf_identifiers _ (dw_physical s Hw)).
Qed.

Definition frame_request (request : dma_request) : frame_contiguous_request :=
  ContiguousRequest (dr_page_count request) (dr_alignment request) (dr_maximum_physical_address request).

Section Allocate.
Context `{address_space}.
Variables (s : dma) (p : Z) (request : dma_request).
Hypothesis Hw : dma_wf s.
Hypothesis Hfresh : forall i r, ~ live s p i r.
Hypothesis Hfits : request_fits (frame_request request).
Hypothesis Hnext : next_contiguous_identifier (physical s) + 1 < 2 ^ 64.

(** The record table has room and the frames [a] were taken. *)
Variables (index : nat) (free : dma_record) (a : frame_contiguous_allocation) (f : frames).
Hypothesis Hindex : records s !! index = Some free.
Hypothesis Hfree : rec_active free = false.
Hypothesis Htaken : frame_allocate_contiguous (Some (frame_request request)) (Some empty_allocation)
  (physical s) = (FRAME_STATUS_OK, Some a, f).

Lemma taken_identifier : ca_identifier a = next_contiguous_identifier (physical s).
Proof. by destruct (contiguous_ok_inv _ _ _ _ _ Htaken) as (? & ? & ? & _ & _ & [= ->] & _). Qed.

Lemma taken_others i r : records s !! i = Some r -> rec_active r = true ->
  exists k c, owns_record f (rec_frames r) k c /\ cr_identifier c < next_contiguous_identifier (physical s).
Proof.
  intros Hi Ha. destruct (ro_frames s r (dw_record s Hw i r Hi Ha)) as (k & c & Hk).
  exists k, c. split; [by eapply owns_after_allocate|]. pose proof Hk as (_ & _ & -> & _).
  by eapply record_identifier.
Qed.

(** The state of a successful call. *)
Definition allocated_state : dma :=
  Dma (count_owner 1 0 (count_active 1 (state s)))
    (<[index := DmaRecord (Some p) a DMA_OWNER_CPU false true]> (records s))
    (<[p := DmaAllocation a (ca_physical_base a) (u64 (bytes a)) DMA_OWNER_CPU false true]> (handles s))
    f.

Lemma allocated_wf : dma_wf allocated_state.
Proof.
  destruct (contiguous_release_undoes _ _ _ _ _ (dw_physical s Hw) Hfits Hnext Htaken) as
    (k & c & Hown & Hcid & Hact & Hinit & Hwf & _ & _ & _ & Hel & _).
  destruct (counts_bounds s Hw) as (Hc1 & Hc2 & Hc3).
  assert (He0 : frame_eligible f 0 = false) by (rewrite Hel; apply Hw).
  destruct (owned_run_bounds allocated_state a k c Hwf He0 Hown) as (Hb & Hn & Hlim).
  apply (update_wf s _ p index free (DmaRecord (Some p) a DMA_OWNER_CPU false true));
    cbn [allocated_state records handles physical state]; try done.
  - intros q Hq. by rewrite lookup_total_insert_ne.
  - intros j q _ Hq Ha Hp. by apply (Hfresh j q).
  - intros j q _ Hq Ha. destruct (taken_others j q Hq Ha) as (k' & c' & ? & _). by exists k', c'.
  - intros _. split.
    + constructor; cbn [rec_handle rec_frames rec_owner rec_initialized]; [|done|by left|by exists k, c].
      exists p. split; [done|]. cbn [allocated_state handles]. rewrite lookup_total_insert_eq.
      rewrite wrap_small; [done|]. unfold fits, RSD_EARLY_PHYSICAL_LIMIT, bytes, RSD_PAGE_SIZE in *. lia.
    + intros j q _ Hq Ha. cbn [rec_frames]. rewrite taken_identifier.
      pose proof (record_identifier s j q Hw Hq Ha). lia.
  - apply Hw.
  - rewrite Hfree. cbn. rewrite wrap_small by (unfold fits; lia). lia.
  - unfold owned_by. rewrite Hfree. cbn. rewrite wrap_small by (unfold fits; lia). lia.
  - unfold owned_by. rewrite Hfree. cbn. rewrite wrap_small by (unfold fits; lia). lia.
Qed.

Lemma allocated_ownership : at_address p (Some (DMA_OWNER_CPU, false)) s allocated_state.
Proof.
  pose proof allocated_wf as Hw'. assert (Hlt := lookup_lt_Some _ _ _ Hindex). intros q. case_decide as Hq.
  - subst q. apply (ownership_live _ p index (DmaRecord (Some p) a DMA_OWNER_CPU false true) Hw').
    split; [|done]. cbn. by apply list_lookup_insert_eq.
  - apply ownership_ext; [done|done|]. intros j c.
    apply (live_update s allocated_state p index (DmaRecord (Some p) a DMA_OWNER_CPU false true));
      try done. intros x Hx Ha. congruence.
Qed.
End Allocate.

(** What a refused allocation leaves: the same allocations and the same free
    frames, and an inactive structure. *)
Definition refused_allocation (s s' : dma) (p : Z) : Prop :=
  (forall q, ownership s' q = ownership s q) /\
  (forall g, frame_is_free (physical s') g = frame_is_free (physical s) g) /\
  da_active (handles s' !!! p) = false.

Lemma cleared_handle_refused s a p :
  dma_wf s -> (forall i r, ~ live s p i r) -> da_active a = false ->
  dma_wf (set_handle p a s) /\ refused_allocation s (set_handle p a s) p.
Proof.
  intros Hw Hno Ha. split.
  - apply (fresh_wf s _ p); try done; try apply Hw.
    intros q Hq. cbn. by rewrite lookup_total_insert_ne.
  - split; [by apply fresh_ownership|]. split; [done|]. cbn. by rewrite lookup_total_insert_eq.
Qed.

Lemma unmapped_refused s p request a f index r h :
  dma_wf s -> (forall i q, ~ live s p i q) -> request_fits (frame_request request) ->
  next_contiguous_identifier (physical s) + 1 < 2 ^ 64 ->
  frame_allocate_contiguous (Some (frame_request request)) (Some empty_allocation) (physical s) =
    (FRAME_STATUS_OK, Some a, f) ->
  owns_record f a index r -> cr_identifier r = next_contiguous_identifier (physical s) ->
  allocator_initialized f = true -> frames_wf (drop_run index r f) ->
  (forall g, frame_is_free (drop_run index r f) g = frame_is_free (physical s) g) ->
  (forall g, frame_eligible (drop_run index r f) g = frame_eligible (physical s) g) ->
  da_active h = false ->
  let s' := Dma (state s) (records s) (<[p := h]> (handles s)) (drop_run index r f) in
  dma_wf s' /\ refused_allocation s s' p.
Proof.
  intros Hw Hno Hfits Hnext Ht Hown Hid Hinit Hwf Hfr Hel Hh s'. split.
  - apply (fresh_wf s _ p); try done.
    + intros q Hq. cbn. by rewrite lookup_total_insert_ne.
    + cbn [s' physical]. by rewrite drop_run_initialized.
    + cbn [s' physical]. rewrite Hel. apply Hw.
    + intros i q Hi Ha. destruct (taken_others s request Hw a f Ht i q Hi Ha) as (k & c & Hk & Hlt).
      exists k, c. apply owns_after_drop; [done|]. intros ->. destruct Hk as (Hk & _), Hown as (Ho & _).
      assert (c = r) as -> by congruence. lia.
  - split; [by apply fresh_ownership|]. split; [done|]. cbn. by rewrite lookup_total_insert_eq.
Qed.

(** How [dma_allocate] ends. *)
Lemma dma_allocate_cases `{address_space} s p request :
  dma_wf s -> (forall i r, ~ live s p i r) -> request_fits (frame_request request) ->
  next_contiguous_identifier (physical s) + 1 < 2 ^ 64 ->
  let '(st, s') := dma_allocate (Some request) (Some p) s in
  (st = DMA_STATUS_OK /\ exists index free a f, records s !! index = Some free /\ rec_active free = false /\
     frame_allocate_contiguous (Some (frame_request request)) (Some empty_allocation) (physical s) =
       (FRAME_STATUS_OK, Some a, f) /\
     identity_mapped (ca_physical_base a) (u64 (bytes a)) = true /\
     s' = allocated_state s p index a f) \/
  ((st = DMA_STATUS_FRAME_ALLOCATION_FAILURE \/ st = DMA_STATUS_NOT_IDENTITY_MAPPED) /\
   dma_wf s' /\ refused_allocation s s' p).
Proof.
  intros Hw Hno Hfits Hnext. unfold dma_allocate. cbn [state set_handle]. rewrite (dw_active s Hw).
  cbn [negb records set_handle]. destruct (first_index _ (records s)) as [index|] eqn:Hidx.
  2: { right. split; [by left|]. by apply cleared_handle_refused. }
  apply first_index_Some in Hidx as [(free & Hi & Hfr%negb_true_iff) _].
  fold (frame_request request).
  change (physical (set_handle p empty_dma_allocation s)) with (physical s).
  destruct (allocate_contiguous_cases (physical s) (frame_request request) empty_allocation
    (dw_physical s Hw) Hfits Hnext) as [(k & x & a & f & _ & Ht & _)|(st & Hst & Ht & _)].
  2: { rewrite Ht. unfold set_physical, set_handle. cbn [handles state records physical].
       rewrite insert_insert_eq.
       destruct (cleared_handle_refused s (set_frames empty_allocation empty_dma_allocation) p Hw Hno eq_refl)
         as [Hw' Hr]. destruct st; try done; (right; split; [by left|by split]). }
  rewrite Ht. cbn [default from_option id physical set_physical].
  destruct (identity_mapped (ca_physical_base a) (u64 (ca_page_count a * RSD_PAGE_SIZE))) eqn:Hm; cbn [negb].
  - left. split; [done|]. exists index, free, a, f. split_and!; try done.
    unfold allocated_state, set_state, set_record, set_physical, set_handle. cbn [handles state records physical].
    by rewrite !insert_insert_eq.
  - destruct (contiguous_release_undoes _ _ _ _ _ (dw_physical s Hw) Hfits Hnext Ht) as
      (j & r & Hown & Hcid & Hact & Hinit & Hwf & Hrel & Hwf' & Hfree & Hel & Hel').
    rewrite Hrel. right. split; [by right|]. unfold set_physical, set_handle.
    cbn [handles state records physical]. rewrite !insert_insert_eq.
    eapply (unmapped_refused s p request a f j r); try done.
Qed.

(** The run a successful request took. *)
Lemma allocated_run s request a f :
  dma_wf s -> request_fits (frame_request request) ->
  next_contiguous_identifier (physical s) + 1 < 2 ^ 64 ->
  frame_allocate_contiguous (Some (frame_request request)) (Some empty_allocation) (physical s) =
    (FRAME_STATUS_OK, Some a, f) ->
  let n := dr_page_count request in
  exists first, ca_physical_base a = first * RSD_PAGE_SIZE /\ ca_page_count a = n /\
    u64 (bytes a) = n * RSD_PAGE_SIZE /\
    0 < first /\ 0 < n /\ first + n <= FRAME_COUNT /\
    (first + n) * RSD_PAGE_SIZE - 1 <= dr_maximum_physical_address request /\
    free_run (physical s) (dr_alignment request) n first /\ used_window (physical s) f first n true.
Proof.
  intros Hw Hfits Hnext Ht n.
  destruct (allocate_contiguous_cases (physical s) (frame_request request) empty_allocation
    (dw_physical s Hw) Hfits Hnext)
    as [(k & first & a' & f' & Htr & Ht' & _ & _ & Hn & Hf0 & Hcount & Hrun & Hmax & _ & Hwin)|(st & Hst & Ht' & _)];
    rewrite Ht in Ht'; [|congruence]. injection Ht' as <- <-. injection Htr as Ha _. symmetry in Ha. subst a.
  assert (Hb : u64 (n * RSD_PAGE_SIZE) = n * RSD_PAGE_SIZE).
  { apply wrap_small. cbn in Hn, Hcount. change FRAME_COUNT with 1048576 in Hcount.
    unfold fits, RSD_PAGE_SIZE. fold n in Hn, Hcount. lia. }
  exists first. unfold bytes in *. cbn [ca_page_count ca_physical_base frame_request req_page_count] in *.
  fold n in Hn, Hcount, Hmax |- *. split_and!; try done.
  destruct (decide (first = 0)) as [->|]; [|lia]. exfalso. destruct Hrun as [_ Hrun].
  specialize (Hrun 0 ltac:(cbn; lia)). apply frame_is_free_iff in Hrun as [He _].
  by rewrite (dw_null s Hw) in He.
Qed.

(** [dma_allocate] either hands out fresh memory owned by the CPU and not yet
    initialized (aligned as asked, inside the address bound, never at address
    zero, identity mapped as writable write-back memory, taken from frames that
    were free), or refuses with every allocation and every free frame as before;
    in particular a run that turns out not to be identity mapped is given back. *)
Theorem dma_allocate_correct `{address_space} s p request :
  dma_wf s -> (forall i r, ~ live s p i r) -> request_fits (frame_request request) ->
  next_contiguous_identifier (physical s) + 1 < 2 ^ 64 ->
  let n := dr_page_count request in
  let '(st, s') := dma_allocate (Some request) (Some p) s in
  dma_wf s' /\
  (st <> DMA_STATUS_OK -> refused_allocation s s' p) /\
  (st = DMA_STATUS_OK -> exists first,
     at_address p (Some (DMA_OWNER_CPU, false)) s s' /\
     da_cpu_address (handles s' !!! p) = first * RSD_PAGE_SIZE /\
     da_byte_length (handles s' !!! p) = n * RSD_PAGE_SIZE /\
     0 < first /\ (first + n) * RSD_PAGE_SIZE - 1 <= dr_maximum_physical_address request /\
     free_run (physical s) (dr_alignment request) n first /\
     used_window (physical s) (physical s') first n true /\
     identity_mapped (first * RSD_PAGE_SIZE) (n * RSD_PAGE_SIZE) = true).
Proof.
  intros Hw Hno Hfits Hnext n. pose proof (dma_allocate_cases s p request Hw Hno Hfits Hnext) as Hc.
  destruct (dma_allocate (Some request) (Some p) s) as [st s'].
  destruct Hc as [(-> & index & free & a & f & Hi & Hfr & Ht & Hm & ->)|(Hst & Hw' & Href)].
  2: { split; [done|]. split; [done|]. by destruct Hst as [->| ->]. }
  assert (Hw' : dma_wf (allocated_state s p index a f)) by by eapply allocated_wf.
  split; [done|]. split; [done|]. intros _.
  destruct (allocated_run s request a f Hw Hfits Hnext Ht)
    as (first & Hfirst & Hcount & Hb & Hf0 & Hn & _ & Hmax & Hrun & Hwin).
  exists first. split; [by eapply allocated_ownership|].
  cbn [allocated_state handles physical]. rewrite lookup_total_insert_eq.
  cbn [da_cpu_address da_byte_length]. by rewrite Hfirst, Hb in *.
Qed.

(** ** The audit *)

(** What the loop asks of a record. *)
Definition record_accepted (s : dma) (r : dma_record) : bool :=
  negb (rec_active r) ||
  match rec_handle r, validate_allocation s (rec_handle r) with
  | Some _, DMA_STATUS_OK => (rec_owner r =? DMA_OWNER_CPU) || (rec_owner r =? DMA_OWNER_DEVICE)
  | _, _ => false
  end.

Lemma verify_records_accepted s rest a c d :
  0 <= a -> 0 <= c -> 0 <= d ->
  a + Z.of_nat (length rest) < 2 ^ 64 -> c + Z.of_nat (length rest) < 2 ^ 64 ->
  d + Z.of_nat (length rest) < 2 ^ 64 -> forallb (record_accepted s) rest = true ->
  verify_records s rest a c d =
    (DMA_STATUS_OK, a + countb rec_active rest, c + countb (owned_by DMA_OWNER_CPU) rest,
     d + countb (owned_by DMA_OWNER_DEVICE) rest).
Proof.
  revert a c d. induction rest as [|r rest IH]; intros a c d Ha Hc Hd Hla Hlc Hld Hok;
    cbn [verify_records countb]; [by rewrite !Z.add_0_r|].
  cbn [length forallb] in *. apply andb_true_iff in Hok as [Hr Hrest]. unfold record_accepted in Hr.
  unfold owned_by at 1 3. destruct (rec_active r); cbn [negb orb andb] in *; [|by rewrite IH by (done || lia)].
  destruct (rec_handle r); [|done]. destruct (validate_allocation _ _); try done.
  destruct (Z.eqb_spec (rec_owner r) DMA_OWNER_CPU) as [->|_].
  - rewrite !wrap_small by (unfold fits; lia). rewrite IH by (done || lia). cbn. by rewrite <- !Z.add_assoc.
  - cbn [orb] in Hr. rewrite Hr. rewrite !wrap_small by (unfold fits; lia). rewrite IH by (done || lia).
    cbn. by rewrite <- !Z.add_assoc.
Qed.

Lemma verify_records_refused s rest a c d :
  forallb (record_accepted s) rest = false ->
  (verify_records s rest a c d).1.1.1 = DMA_STATUS_BAD_ALLOCATION.
Proof.
  revert a c d. induction rest as [|r rest IH]; intros a c d Hno; cbn [verify_records forallb] in *; [done|].
  unfold record_accepted in Hno. destruct (rec_active r); cbn [negb orb andb] in *; [|by apply IH].
  destruct (rec_handle r); [|done]. destruct (validate_allocation _ _); try done.
  destruct (rec_owner r =? DMA_OWNER_CPU); [by apply IH|].
  destruct (rec_owner r =? DMA_OWNER_DEVICE); [by apply IH|done].
Qed.

Lemma accepted_split s rest : forallb (record_accepted s) rest = true ->
  countb rec_active rest =
    countb (owned_by DMA_OWNER_CPU) rest + countb (owned_by DMA_OWNER_DEVICE) rest.
Proof.
  induction rest as [|r rest IH]; cbn [countb forallb]; [done|]. intros [Hr Hrest]%andb_true_iff.
  rewrite IH by done. unfold owned_by at 3 5. unfold record_accepted in Hr.
  destruct (rec_active r); cbn [negb orb andb] in *; [|lia].
  destruct (rec_handle r); [|done]. destruct (validate_allocation _ _); try done.
  destruct (Z.eqb_spec (rec_owner r) DMA_OWNER_CPU) as [->|_]; [cbn; lia|].
  cbn [orb] in Hr. rewrite Hr. lia.
Qed.

(** [dma_verify] accepts exactly an active foundation in which every active
    record points at a structure that agrees with it and has a known owner, and
    the three counters are the census of the records. *)
Theorem dma_verify_exact s :
  length (records s) = FRAME_CONTIGUOUS_ALLOCATION_CAPACITY ->
  dma_verify s = DMA_STATUS_OK <->
  dma_active (state s) = true /\ forallb (record_accepted s) (records s) = true /\
  active_allocations (state s) = countb rec_active (records s) /\
  cpu_owned_allocations (state s) = countb (owned_by DMA_OWNER_CPU) (records s) /\
  device_owned_allocations (state s) = countb (owned_by DMA_OWNER_DEVICE) (records s).
Proof.
  intros Hlen. unfold dma_verify. destruct (dma_active (state s)); cbn [negb]; [|by split; [|intros []]].
  destruct (forallb (record_accepted s) (records s)) eqn:Hacc.
  - rewrite verify_records_accepted by (rewrite ?Hlen; done). rewrite !Z.add_0_l.
    pose proof (accepted_split s _ Hacc) as Hsum.
    pose proof (countb_bounds rec_active (records s)) as Hb. rewrite Hlen in Hb.
    rewrite wrap_small, <- Hsum, Z.eqb_refl by (rewrite <- Hsum; unfold fits, FRAME_CONTIGUOUS_ALLOCATION_CAPACITY in *; lia).
    cbn [negb]. rewrite orb_false_r.
    destruct (Z.eqb_spec (countb rec_active (records s)) (active_allocations (state s))); cbn [negb orb]; [|intuition congruence].
    destruct (Z.eqb_spec (countb (owned_by DMA_OWNER_CPU) (records s)) (cpu_owned_allocations (state s)));
      cbn [negb orb]; [|intuition congruence].
    destruct (Z.eqb_spec (countb (owned_by DMA_OWNER_DEVICE) (records s)) (device_owned_allocations (state s)));
      cbn [negb orb]; intuition congruence.
  - pose proof (verify_records_refused s (records s) 0 0 0 Hacc) as Hno.
    destruct (verify_records s (records s) 0 0 0) as [[[st a] c] d]. cbn in Hno. subst st.
    split; [done|]. by intros (_ & ? & _).
Qed.

Lemma dma_wf_verified s : dma_wf s -> forallb (record_accepted s) (records s) = true.
Proof.
  intros Hw. apply forallb_forall. intros r [i Hi]%list_elem_of_In%list_elem_of_lookup.
  unfold record_accepted. destruct (rec_active r) eqn:Ha; [|done]. cbn [negb orb].
  pose proof (dw_record s Hw i r Hi Ha) as Hok. destruct (ro_handle s r Hok) as (p & Hp & _).
  rewrite Hp, (validate_live s p i r Hw) by done. by destruct (ro_owner s r Hok) as [-> |[-> _]].
Qed.

(** The foundation starts once: initialization of an inactive foundation over
    a working frame allocator drops every record and gives a state with no
    allocation; a second call is refused without a change. *)
Theorem dma_initialize_correct s :
  length (records s) = FRAME_CONTIGUOUS_ALLOCATION_CAPACITY -> frames_wf (physical s) ->
  allocator_initialized (physical s) = true -> frame_eligible (physical s) 0 = false ->
  let '(st, s') := dma_initialize s in
  (st = DMA_STATUS_OK <-> dma_active (state s) = false) /\
  (st = DMA_STATUS_OK -> dma_wf s' /\ (forall p, ownership s' p = None) /\
     dma_initialize s' = (DMA_STATUS_ALREADY_INITIALIZED, s')) /\
  (st <> DMA_STATUS_OK -> s' = s).
Proof.
  intros Hlen Hf Hi He. unfold dma_initialize. destruct (dma_active (state s)) eqn:Hact; [by split_and!|].
  split; [done|]. split; [|done]. intros _.
  assert (Hno : forall i r, (clear_record <$> records s) !! i = Some r -> rec_active r = false).
  { intros i r (q & -> & _)%list_lookup_fmap_Some. done. }
  assert (Hz : forall p, (forall r, rec_active r = false -> p r = false) ->
    countb p (clear_record <$> records s) = 0).
  { intros p Hp. apply countb_zero. intros i r Hr. by apply Hp, (Hno i). }
  split; [|split; [|done]].
  - constructor; cbn [state records physical]; try done.
    + by rewrite length_fmap.
    + intros i r Hr Ha. rewrite (Hno i r Hr) in Ha. done.
    + intros i j r q Hr _ Ha. rewrite (Hno i r Hr) in Ha. done.
    + by rewrite Hz.
    + rewrite Hz; [done|]. intros r Hr. unfold owned_by. by rewrite Hr.
    + rewrite Hz; [done|]. intros r Hr. unfold owned_by. by rewrite Hr.
  - intros p. apply ownership_none. intros i r (Hr & Ha & _). cbn in Hr. rewrite (Hno i r Hr) in Ha. done.
Qed.

(** Releasing a live allocation of the CPU returns exactly its frames to the
    allocator and clears its structure; a second release of the same structure is
    reported as a double free and changes nothing. *)
Theorem dma_release_frees s p i r :
  dma_wf s -> live s p i r -> rec_owner r = DMA_OWNER_CPU ->
  exists s', dma_release (Some p) s = (DMA_STATUS_OK, s') /\ dma_wf s' /\
    (let first := ca_physical_base (rec_frames r) / RSD_PAGE_SIZE in
     let n := ca_page_count (rec_frames r) in
     forall g, frame_is_free (physical s') g =
       if decide (first <= g < first + n) then true else frame_is_free (physical s) g) /\
    dma_release (Some p) s' = (DMA_STATUS_DOUBLE_FREE, s').
Proof.
  intros Hw Hl Ho. pose proof (release_live s p i r Hw Hl) as Hrel. rewrite Ho in Hrel.
  destruct Hrel as (j & q & Hown & ->).
  exists (released s p i r j q). assert (Hw' : dma_wf (released s p i r j q)) by by eapply released_wf.
  split_and!; try done.
  - intros first n g. by rewrite (released_free s p i r Hw j q g Hown).
  - unfold dma_release. rewrite (dw_active _ Hw'). cbn [released handles].
    by rewrite lookup_total_insert_eq.
Qed.

(** ** Reachable states *)

(** A step: an allocation into a structure that is not live, any ownership call
    at any address, or single-frame traffic of the frame allocator's other
    users. *)
Inductive dma_step `{address_space} (s : dma) : dma -> Prop :=
| step_allocate p request :
    (forall i r, ~ live s p i r) -> request_fits (frame_request request) ->
    next_contiguous_identifier (physical s) + 1 < 2 ^ 64 ->
    dma_step s (dma_allocate (Some request) (Some p) s).2
| step_event ev p : dma_step s (dma_event ev p s).2
| step_frames f :
    frames_wf f -> allocator_initialized f = true -> frame_eligible f 0 = false ->
    contiguous_records f = contiguous_records (physical s) ->
    dma_step s (set_physical f s).

Lemma dma_step_wf `{address_space} s s' : dma_wf s -> dma_step s s' -> dma_wf s'.
Proof.
  intros Hw [p request Hno Hfits Hnext|ev p|f Hf Hi He Hr].
  - pose proof (dma_allocate_cases s p request Hw Hno Hfits Hnext) as Hc.
    destruct (dma_allocate _ _ s) as [st s1]. cbn [snd].
    destruct Hc as [(_ & index & free & a & f & Hi & Hfr & Ht & _ & ->)|(_ & ? & _)]; [|done].
    by eapply allocated_wf.
  - destruct (live_dec s p) as [(i & r & Hl)|Hno].
    + pose proof (dma_event_live ev s p i r Hw Hl) as Hc. destruct (dma_event ev p s). by destruct Hc.
    + by destruct (dma_event_dead ev s p Hw Hno) as (st & -> & _).
  - destruct Hw as [Ha Hl _ _ _ Hok Hd Hc Hcp Hdv]. constructor; try done.
    intros i r Hri Hact. destruct (Hok i r Hri Hact) as [Hh Hac Hown (k & c & Ho)]. constructor; try done.
    exists k, c. cbn. unfold owns_record in *. by rewrite Hr.
Qed.

(** The bytes of an allocation. *)
Definition covers (f : frame_contiguous_allocation) (x : Z) : Prop :=
  ca_physical_base f <= x < ca_physical_base f + bytes f.

Lemma live_disjoint s p q i j r c x :
  dma_wf s -> live s p i r -> live s q j c -> p <> q ->
  covers (rec_frames r) x -> covers (rec_frames c) x -> False.
Proof.
  intros Hw Hl Hl' Hpq Hx Hx'. pose proof (dw_physical s Hw) as Hf.
  destruct (ro_frames s r (proj1 (live_handle s p i r Hw Hl))) as (k & d & Hk & Hd & Hdi & Hdb & Hdn).
  destruct (ro_frames s c (proj1 (live_handle s q j c Hw Hl'))) as (m & e & Hm & He & Hei & Heb & Hen).
  assert (Hin : forall g y, run_ok (physical s) g -> cr_physical_base g <= y < cr_physical_base g + cr_page_count g * RSD_PAGE_SIZE ->
    in_run g (y / RSD_PAGE_SIZE)).
  { intros g y [Hb _ _ _ _] Hy. unfold in_run. rewrite Hb in Hy.
    pose proof (Z.div_mod y RSD_PAGE_SIZE ltac:(done)). pose proof (Z.mod_pos_bound y RSD_PAGE_SIZE ltac:(done)).
    unfold RSD_PAGE_SIZE in *. lia. }
  unfold covers, bytes in *.
  assert (k = m) as ->.
  { apply (wf_disjoint _ Hf k m d e (x / RSD_PAGE_SIZE) Hk Hm Hd He); apply Hin;
      (by eapply (wf_runs _ Hf)) || (rewrite ?Hdb, ?Hdn, ?Heb, ?Hen; done). }
  assert (d = e) as -> by congruence. assert (i = j) as ->.
  { destruct Hl as (Hi & Ha & _), Hl' as (Hj & Hc & _). eapply (dw_distinct s Hw i j r c); congruence. }
  destruct Hl as (Hi & _ & Hp), Hl' as (Hj & _ & Hq). congruence.
Qed.


(** ** A concrete run *)

Module Samples.
(** Four free frames at 1 MiB under an identity mapping. *)
#[local] Instance identity_space : address_space :=
  fun x => Some (Translation x PAGING_WRITE PAGING_MEMORY_WRITE_BACK).

Definition cold : dma :=
  Dma (DmaState 0 0 0 false) (replicate FRAME_CONTIGUOUS_ALLOCATION_CAPACITY empty_dma_record) ∅
    (sample_frames 256).
Definition started : dma := (dma_initialize cold).2.
Definition request : dma_request := DmaRequest 2 0x2000 0x1FFFFF.
Definition claimed : dma := (dma_allocate (Some request) (Some 0x8000) started).2.

Lemma frames_ok : frames_wf (sample_frames 256).
Proof. apply sample_wf; [lia|]. change FRAME_COUNT with 1048576. lia. Qed.

Lemma started_wf : dma_wf started.
Proof.
  constructor; try reflexivity; [apply frames_ok| |].
  - intros i r (q & -> & [-> _]%lookup_replicate)%list_lookup_fmap_Some. done.
  - intros i j r q (x & -> & [-> _]%lookup_replicate)%list_lookup_fmap_Some. done.
Qed.

Lemma request_ok : request_fits (frame_request request).
Proof. repeat split; cbn; lia. Qed.

Lemma started_dead p i r : ~ live started p i r.
Proof. intros [(q & -> & [-> _]%lookup_replicate)%list_lookup_fmap_Some [? _]]. done. Qed.

Lemma claimed_ok : dma_allocate (Some request) (Some 0x8000) started = (DMA_STATUS_OK, claimed).
Proof. vm_compute. reflexivity. Qed.

Lemma claimed_wf : dma_wf claimed.
Proof.
  apply (dma_step_wf started); [apply started_wf|]. apply step_allocate.
  - apply started_dead.
  - apply request_ok.
  - reflexivity.
Qed.

Definition held : dma_record :=
  DmaRecord (Some 0x8000) (ContiguousAllocation 0x100000 2 0x2000 0x1FFFFF 1 true) DMA_OWNER_CPU false true.

Lemma claimed_live : live claimed 0x8000 0 held.
Proof. split_and!; vm_compute; reflexivity. Qed.

Lemma dma_initialize_correct_witness :
  frames_wf (physical cold) /\ dma_initialize started = (DMA_STATUS_ALREADY_INITIALIZED, started).
Proof.
  split; [exact frames_ok|].
  exact (proj2 (proj2 (proj1 (proj2 (dma_initialize_correct cold eq_refl frames_ok eq_refl eq_refl)) eq_refl))).
Defined.

Lemma dma_allocate_correct_witness :
  dma_allocate (Some request) (Some 0x8000) started = (DMA_STATUS_OK, claimed) /\ dma_wf claimed.
Proof.
  split; [exact claimed_ok|].
  pose proof (dma_allocate_correct started 0x8000 request started_wf (started_dead 0x8000) request_ok
    eq_refl) as H. rewrite claimed_ok in H. exact (proj1 H).
Defined.

(** Device transfer before initialization is refused; so is a copy elsewhere. *)
Lemma dma_event_refines_witness :
  dma_event EvToDevice 0x8000 claimed = (DMA_STATUS_NOT_PREPARED, claimed) /\
  dma_wf (dma_event EvMark 0x8000 claimed).2.
Proof.
  split; [vm_compute; reflexivity|].
  pose proof (dma_event_refines EvMark claimed 0x8000 claimed_wf) as H.
  destruct (dma_event EvMark 0x8000 claimed) as [st s']. exact (proj1 H).
Defined.

Lemma dma_release_frees_witness :
  exists s', dma_release (Some 0x8000) claimed = (DMA_STATUS_OK, s') /\ dma_wf s'.
Proof.
  destruct (dma_release_frees claimed 0x8000 0 held claimed_wf claimed_live eq_refl) as (s' & H1 & H2 & _).
  exists s'. exact (conj H1 H2).
Defined.

Lemma dma_verify_exact_witness : dma_verify claimed = DMA_STATUS_OK.
Proof.
  apply (dma_verify_exact claimed); [vm_compute; reflexivity|].
  split_and!; vm_compute; reflexivity.
Defined.

End Samples.
