(* ===== verification/DmaArena.v ===== *)
(** * DMA arenas ([src/kernel/dma_arena.c], [include/rsd/dma_arena.h])

    A first-fit sub-allocator over one DMA allocation: the block table of
    [BlockTable], blocks carved at any power-of-two alignment and zeroed.  The
    arena's embedded [struct dma_allocation] is the structure at an address of
    [Dma]'s store; the bytes of memory are a map from address to byte; a null
    pointer argument is [None], a null [base] is 0. *)

From stdpp Require Import base option list numbers gmap.
From S2P Require Import Prelude BlockTable Frames Dma.

Definition DMA_ARENA_MAX_BLOCKS : nat := 1024.
Definition DMA_ARENA_MINIMUM_ALIGNMENT : Z := 16.

Inductive dma_arena_status :=
| DMA_ARENA_STATUS_OK
| DMA_ARENA_STATUS_NULL_ARGUMENT
| DMA_ARENA_STATUS_ALREADY_ACTIVE
| DMA_ARENA_STATUS_NOT_ACTIVE
| DMA_ARENA_STATUS_BAD_SIZE
| DMA_ARENA_STATUS_BAD_ALIGNMENT
| DMA_ARENA_STATUS_DMA_FAILURE
| DMA_ARENA_STATUS_EXHAUSTED
| DMA_ARENA_STATUS_OUT_OF_BLOCKS
| DMA_ARENA_STATUS_BAD_POINTER
| DMA_ARENA_STATUS_DOUBLE_FREE
| DMA_ARENA_STATUS_BUSY
| DMA_ARENA_STATUS_CORRUPT.

#[global] Instance dma_arena_status_eq_dec : EqDecision dma_arena_status.
Proof. solve_decision. Defined.

(** [allocation] is the address of the embedded structure. *)
Record dma_arena := Arena {
  ar_allocation : Z;
  ar_base : Z;
  ar_size : Z;
  ar_allocated_bytes : Z;
  ar_peak_bytes : Z;
  ar_failed_allocations : Z;
  ar_live_allocations : Z;
  ar_block_count : nat;
  ar_blocks : list block;
  ar_active : bool
}.

Record dma_arena_state := ArenaState {
  st_physical_base : Z;
  st_size : Z;
  st_allocated_bytes : Z;
  st_peak_bytes : Z;
  st_live_allocations : Z;
  st_block_count : nat;
  st_failed_allocations : Z;
  st_active : bool
}.

Abbreviation memory := (gmap Z Z).

(** ** Helpers *)

Fixpoint zero_bytes (pointer : Z) (length : nat) (m : memory) : memory :=
  match length with
  | O => m
  | S length => zero_bytes (pointer + 1) length (<[pointer := 0]> m)
  end.

Definition power_of_two (value : Z) : bool :=
  negb (value =? 0) && (value .& u64 (value - 1) =? 0).

Definition round_up (value alignment : Z) : option Z :=
  let mask := u64 (alignment - 1) in
  if u64 (UINT64_MAX - mask) <? value then None
  else Some (u64 (value + mask) .& not64 mask).

Definition set_table (blocks : list block) (count : nat) (a : dma_arena) : dma_arena :=
  Arena (ar_allocation a) (ar_base a) (ar_size a) (ar_allocated_bytes a) (ar_peak_bytes a)
    (ar_failed_allocations a) (ar_live_allocations a) count blocks (ar_active a).

Definition set_region (base size : Z) (a : dma_arena) : dma_arena :=
  Arena (ar_allocation a) base size (ar_allocated_bytes a) (ar_peak_bytes a)
    (ar_failed_allocations a) (ar_live_allocations a) (ar_block_count a) (ar_blocks a) (ar_active a).

Definition set_active (active : bool) (a : dma_arena) : dma_arena :=
  Arena (ar_allocation a) (ar_base a) (ar_size a) (ar_allocated_bytes a) (ar_peak_bytes a)
    (ar_failed_allocations a) (ar_live_allocations a) (ar_block_count a) (ar_blocks a) active.

Definition count_failed (a : dma_arena) : dma_arena :=
  Arena (ar_allocation a) (ar_base a) (ar_size a) (ar_allocated_bytes a) (ar_peak_bytes a)
    (u64 (ar_failed_allocations a + 1)) (ar_live_allocations a) (ar_block_count a) (ar_blocks a)
    (ar_active a).

(** [allocated_bytes += bytes], the peak raised to it, [live_allocations += n]. *)
Definition count_bytes (bytes n : Z) (a : dma_arena) : dma_arena :=
  let allocated := u64 (ar_allocated_bytes a + bytes) in
  Arena (ar_allocation a) (ar_base a) (ar_size a) allocated
    (if ar_peak_bytes a <? allocated then allocated else ar_peak_bytes a)
    (ar_failed_allocations a) (u64 (ar_live_allocations a + n)) (ar_block_count a) (ar_blocks a)
    (ar_active a).

Definition view_reset (a : dma_arena) : dma_arena :=
  Arena (ar_allocation a) (ar_base a) (ar_size a) 0 0 0 0 1
    (<[0%nat := Block 0 (ar_size a) false]> (ar_blocks a)) (ar_active a).

Definition insert_block (index : nat) (b : block) (a : dma_arena) : option dma_arena :=
  if (DMA_ARENA_MAX_BLOCKS <=? ar_block_count a)%nat || (ar_block_count a <? index)%nat then None
  else
    let table := shift_up (ar_block_count a - index) (ar_block_count a) (ar_blocks a) in
    Some (set_table (<[index := b]> table) (S (ar_block_count a)) a).

(** ** Allocation *)

(** The pad and the tail the block would leave around an aligned span of
    [rounded] bytes, [None] when the loop passes over it. *)
Definition block_fit (a : dma_arena) (rounded alignment : Z) (b : block) : option (Z * Z) :=
  let start := u64 (ar_base a + offset b) in
  if used b then None
  else
    match round_up start alignment with
    | None => None
    | Some aligned =>
        let pad := u64 (aligned - start) in
        if (size b <? pad) || (u64 (size b - pad) <? rounded) then None
        else Some (pad, u64 (size b - pad - rounded))
    end.

(** Shrink the found block to the leading pad, or reuse it: the position of the
    used block, [None] when the table has no room for it. *)
Definition place_block (index : nat) (pad used_offset rounded : Z) (a : dma_arena) :
    dma_arena * option nat :=
  let b := ar_blocks a !!! index in
  if negb (pad =? 0) then
    let a := set_table (<[index := set_size pad b]> (ar_blocks a)) (ar_block_count a) a in
    match insert_block (S index) (Block used_offset rounded true) a with
    | None => (a, None)
    | Some a => (a, Some (S index))
    end
  else
    (set_table (<[index := set_used true (set_size rounded b)]> (ar_blocks a)) (ar_block_count a) a,
     Some index).

(** The body of the loop from the fitting block at [index] on. *)
Definition commit_block (index : nat) (pad tail rounded : Z) (a : dma_arena) :
    option Z * dma_arena :=
  let b := ar_blocks a !!! index in
  let needed := ((if (pad =? 0)%Z then 0 else 1) + (if (tail =? 0)%Z then 0 else 1))%nat in
  if (DMA_ARENA_MAX_BLOCKS <? ar_block_count a + needed)%nat then (None, count_failed a)
  else
    let used_offset := u64 (offset b + pad) in
    let tail_offset := u64 (used_offset + rounded) in
    match place_block index pad used_offset rounded a with
    | (a, None) => (None, a)
    | (a, Some index) =>
        let tailed :=
          if tail =? 0 then Some a else insert_block (S index) (Block tail_offset tail false) a in
        match tailed with
        | None => (None, a)
        | Some a => (Some used_offset, count_bytes rounded 1 a)
        end
    end.

Definition dma_arena_allocate (arena : option dma_arena) (size alignment : Z) (m : memory) :
    option Z * option dma_arena * memory :=
  match arena with
  | None => (None, None, m)
  | Some a =>
      if negb (ar_active a) || (size =? 0) || (ar_size a <? size) then (None, Some a, m)
      else
        let alignment :=
          if alignment <? DMA_ARENA_MINIMUM_ALIGNMENT then DMA_ARENA_MINIMUM_ALIGNMENT
          else alignment in
        match power_of_two alignment, round_up size DMA_ARENA_MINIMUM_ALIGNMENT with
        | true, Some rounded =>
            let fit := block_fit a rounded alignment in
            match first_index (fun b => bool_decide (is_Some (fit b)))
                    (take (ar_block_count a) (ar_blocks a)) with
            | None => (None, Some (count_failed a), m)
            | Some index =>
                let '(pad, tail) := default (0, 0) (fit (ar_blocks a !!! index)) in
                match commit_block index pad tail rounded a with
                | (None, a) => (None, Some a, m)
                | (Some used_offset, a) =>
                    let pointer := u64 (ar_base a + used_offset) in
                    (Some pointer, Some a, zero_bytes pointer (Z.to_nat rounded) m)
                end
            end
        | _, _ => (None, Some (count_failed a), m)
        end
  end.

(** ** Lookup by pointer *)

(** The scan for the block at an offset, which stops past it. *)
Fixpoint find_offset (off : Z) (l : list block) : option nat :=
  match l with
  | [] => None
  | b :: l =>
      if offset b =? off then Some 0%nat
      else if off <? offset b then None
      else S <$> find_offset off l
  end.

Definition in_arena (a : dma_arena) (pointer : Z) : bool :=
  (ar_base a <=? pointer) && (pointer <? u64 (ar_base a + ar_size a)).

Definition dma_arena_free (arena : option dma_arena) (pointer : option Z) :
    dma_arena_status * option dma_arena :=
  match arena, pointer with
  | Some a, Some p =>
      if negb (ar_active a) then (DMA_ARENA_STATUS_NOT_ACTIVE, arena)
      else if negb (in_arena a p) then (DMA_ARENA_STATUS_BAD_POINTER, arena)
      else
        match find_offset (p - ar_base a) (take (ar_block_count a) (ar_blocks a)) with
        | None => (DMA_ARENA_STATUS_BAD_POINTER, arena)
        | Some index =>
            let b := ar_blocks a !!! index in
            if negb (used b) then (DMA_ARENA_STATUS_DOUBLE_FREE, arena)
            else
              let '(table, count) :=
                merge_free_neighbours (<[index := set_used false b]> (ar_blocks a))
                  (ar_block_count a) index in
              (DMA_ARENA_STATUS_OK,
               Some (Arena (ar_allocation a) (ar_base a) (ar_size a)
                 (u64 (ar_allocated_bytes a - size b)) (ar_peak_bytes a)
                 (ar_failed_allocations a) (u64 (ar_live_allocations a - 1)) count table
                 (ar_active a)))
        end
  | _, _ => (DMA_ARENA_STATUS_NULL_ARGUMENT, arena)
  end.

Definition dma_arena_allocation_size (arena : option dma_arena) (pointer : option Z) : Z :=
  match arena, pointer with
  | Some a, Some p =>
      if negb (ar_active a) || negb (in_arena a p) then 0
      else
        match find_offset (p - ar_base a) (take (ar_block_count a) (ar_blocks a)) with
        | None => 0
        | Some index =>
            let b := ar_blocks a !!! index in if used b then size b else 0
        end
  | _, _ => 0
  end.

Definition dma_arena_contains (arena : option dma_arena) (pointer : option Z) (length : Z) : bool :=
  match arena, pointer with
  | Some a, Some p =>
      if negb (ar_active a) || negb (in_arena a p) then false
      else length <=? u64 (ar_base a + ar_size a - p)
  | _, _ => false
  end.

Definition dma_arena_bus_address (arena : option dma_arena) (pointer : Z) : Z := pointer.

(** ** The audit *)

(** The loop over the table: the offset expected next, whether a block came
    before and was used, and the totals so far; [None] on the first mismatch. *)
Fixpoint verify_blocks (total : Z) (rest : list block) (prev : option bool)
    (expected bytes count : Z) : option (Z * Z * Z) :=
  match rest with
  | [] => Some (expected, bytes, count)
  | b :: rest =>
      if negb (offset b =? expected) || (size b =? 0) || (u64 (total - offset b) <? size b) then None
      else if negb (used b) && negb (default true prev) then None
      else
        verify_blocks total rest (Some (used b)) (u64 (expected + size b))
          (if used b then u64 (bytes + size b) else bytes)
          (if used b then u64 (count + 1) else count)
  end.

Definition dma_arena_verify (arena : option dma_arena) : dma_arena_status :=
  match arena with
  | None => DMA_ARENA_STATUS_NULL_ARGUMENT
  | Some a =>
      if negb (ar_active a) then DMA_ARENA_STATUS_NOT_ACTIVE
      else if (ar_block_count a =? 0)%nat || (DMA_ARENA_MAX_BLOCKS <? ar_block_count a)%nat then
        DMA_ARENA_STATUS_CORRUPT
      else
        match verify_blocks (ar_size a) (take (ar_block_count a) (ar_blocks a)) None 0 0 0 with
        | None => DMA_ARENA_STATUS_CORRUPT
        | Some (expected, bytes, count) =>
            if negb (expected =? ar_size a) || negb (bytes =? ar_allocated_bytes a) ||
               negb (count =? ar_live_allocations a) then DMA_ARENA_STATUS_CORRUPT
            else DMA_ARENA_STATUS_OK
        end
  end.

Definition dma_arena_get_state (arena : option dma_arena) : dma_arena_state :=
  match arena with
  | Some a =>
      if negb (ar_active a) then ArenaState 0 0 0 0 0 0 0 false
      else
        ArenaState (ar_base a) (ar_size a) (ar_allocated_bytes a) (ar_peak_bytes a)
          (ar_live_allocations a) (ar_block_count a) (ar_failed_allocations a) true
  | None => ArenaState 0 0 0 0 0 0 0 false
  end.

(** ** Creation and destruction over the DMA foundation *)

Definition dma_arena_create `{address_space} (arena : option dma_arena)
    (page_count maximum_physical_address : Z) (s : dma) (m : memory) :
    dma_arena_status * option dma_arena * dma * memory :=
  match arena with
  | None => (DMA_ARENA_STATUS_NULL_ARGUMENT, None, s, m)
  | Some a =>
      if ar_active a then (DMA_ARENA_STATUS_ALREADY_ACTIVE, arena, s, m)
      else if (page_count =? 0) || (UINT64_MAX / RSD_PAGE_SIZE <? page_count) then
        (DMA_ARENA_STATUS_BAD_SIZE, arena, s, m)
      else
        let request := DmaRequest page_count RSD_PAGE_SIZE maximum_physical_address in
        let allocation := Some (ar_allocation a) in
        match dma_allocate (Some request) allocation s with
        | (DMA_STATUS_OK, s) =>
            let backing := handles s !!! ar_allocation a in
            let a := set_region (da_cpu_address backing) (da_byte_length backing) a in
            let m := zero_bytes (ar_base a) (Z.to_nat (ar_size a)) m in
            let '(marked, s) := dma_mark_initialized allocation s in
            let '(moved, s) :=
              match marked with
              | DMA_STATUS_OK => dma_transfer_to_device allocation s
              | _ => (marked, s)
              end in
            match moved with
            | DMA_STATUS_OK =>
                (DMA_ARENA_STATUS_OK, Some (set_active true (view_reset a)), s, m)
            | _ =>
                let '(_, s) := dma_release allocation s in
                (DMA_ARENA_STATUS_DMA_FAILURE, Some (set_region 0 0 a), s, m)
            end
        | (_, s) => (DMA_ARENA_STATUS_DMA_FAILURE, arena, s, m)
        end
  end.

Definition dma_arena_destroy (arena : option dma_arena) (s : dma) :
    dma_arena_status * option dma_arena * dma :=
  match arena with
  | None => (DMA_ARENA_STATUS_NULL_ARGUMENT, None, s)
  | Some a =>
      if negb (ar_active a) then (DMA_ARENA_STATUS_NOT_ACTIVE, arena, s)
      else if negb (ar_live_allocations a =? 0) then (DMA_ARENA_STATUS_BUSY, arena, s)
      else
        let allocation := Some (ar_allocation a) in
        match dma_transfer_to_cpu allocation s with
        | (DMA_STATUS_OK, s) =>
            match dma_release allocation s with
            | (DMA_STATUS_OK, s) =>
                (DMA_ARENA_STATUS_OK,
                 Some (set_table (ar_blocks a) 0 (set_region 0 0 (set_active false a))), s)
            | (_, s) => (DMA_ARENA_STATUS_DMA_FAILURE, arena, s)
            end
        | (_, s) => (DMA_ARENA_STATUS_DMA_FAILURE, arena, s)
        end
  end.

(** ** Zeroing *)

Lemma zero_bytes_lookup p n m y :
  zero_bytes p n m !! y = if decide (p <= y < p + Z.of_nat n) then Some 0 else m !! y.
Proof.
  revert p m. induction n as [|n IH]; intros p m; cbn [zero_bytes].
  - by rewrite decide_False by lia.
  - rewrite IH. destruct (decide (y = p)) as [->|Hy].
    + rewrite decide_False, decide_True by lia. by rewrite lookup_insert_eq.
    + rewrite lookup_insert_ne by done. repeat case_decide; done || lia.
Qed.

(** ** Rounding *)

Lemma power_of_two_inv v : fits 64 v -> power_of_two v = true -> exists k, 0 <= k < 64 /\ v = 2 ^ k.
Proof.
  unfold power_of_two. intros Hv [Hz%negb_true_iff%Z.eqb_neq Hl%Z.eqb_eq]%andb_true_iff.
  rewrite wrap_small in Hl by (unfold fits in *; lia).
  destruct (land_pred_pow2 v) as (k & Hk & ->); [unfold fits in *; lia|done|].
  exists k. split; [|done]. split; [done|]. apply (Z.pow_lt_mono_r_iff 2); [lia..|]. apply Hv.
Qed.

(** The least multiple of [al] from [v] on. *)
Definition align_to (v al : Z) : Z := v + (- v) mod al.

Lemma align_to_spec v al : 0 < al -> v <= align_to v al < v + al /\ align_to v al mod al = 0.
Proof.
  intros Hal. unfold align_to. pose proof (Z.mod_pos_bound (- v) al Hal). split; [lia|].
  rewrite Zplus_mod_idemp_r. by rewrite Z.add_opp_diag_r.
Qed.

Lemma multiple_gap al x y : 0 < al -> x mod al = 0 -> y mod al = 0 -> x < y -> x + al <= y.
Proof.
  intros Hal Hx Hy Hlt. apply Z.mod_divide in Hx, Hy; [|lia..].
  destruct Hx as [i ->], Hy as [j ->]. apply Z.mul_lt_mono_pos_r in Hlt; [|done]. nia.
Qed.

Lemma align_to_least v al x : 0 < al -> v <= x -> x mod al = 0 -> align_to v al <= x.
Proof.
  intros Hal Hx Hm. destruct (align_to_spec v al Hal) as [? Ha].
  destruct (Z.le_gt_cases (align_to v al) x) as [|Hlt]; [done|].
  pose proof (multiple_gap al x _ Hal Hm Ha Hlt). lia.
Qed.

(** [round_up] is exact, and fails only when it has no 64-bit result. *)
Lemma round_up_align v k : fits 64 v -> 0 <= k < 64 ->
  round_up v (2 ^ k) = if decide (v + (2 ^ k - 1) < 2 ^ 64) then Some (align_to v (2 ^ k)) else None.
Proof.
  intros Hv Hk. assert (0 < 2 ^ k < 2 ^ 64) by (split; [lia|apply Z.pow_lt_mono_r; lia]).
  unfold round_up. unfold fits in Hv.
  rewrite (wrap_small 64 (2 ^ k - 1)) by (unfold fits; lia).
  rewrite (wrap_small 64 (UINT64_MAX - _)) by (unfold fits, UINT64_MAX; lia). unfold UINT64_MAX.
  case_decide as Hd; destruct (Z.ltb_spec (2 ^ 64 - 1 - (2 ^ k - 1)) v); try lia; [|done].
  rewrite wrap_small by (unfold fits; lia). f_equal.
  destruct (round_up_spec v k) as [Hb Hm]; [done|lia|unfold fits; lia|]. simpl in Hb, Hm.
  destruct (align_to_spec v (2 ^ k)) as [Hb' Hm']; [lia|].
  pose proof (align_to_least v (2 ^ k) _ ltac:(lia) (proj1 Hb) Hm) as Hle.
  destruct (Z.eq_dec (align_to v (2 ^ k)) ((v + (2 ^ k - 1)) .& not64 (2 ^ k - 1))) as [|Hne]; [done|].
  pose proof (multiple_gap (2 ^ k) _ _ ltac:(lia) Hm' Hm ltac:(lia)). lia.
Qed.

(** ** Invariant

    [arena_wf a l]: the table of the active arena [a] lists the blocks [l], which
    tile it, and its counters are those of [l]. *)
Record arena_wf (a : dma_arena) (l : list block) : Prop := ArenaWf {
  aw_active : ar_active a = true;
  aw_table : represents DMA_ARENA_MAX_BLOCKS (ar_blocks a) (ar_block_count a) l;
  aw_layout : layout DMA_ARENA_MINIMUM_ALIGNMENT 0 true l (ar_size a);
  aw_base : 0 < ar_base a /\ ar_base a mod DMA_ARENA_MINIMUM_ALIGNMENT = 0;
  aw_size : 0 < ar_size a /\ ar_base a + ar_size a < 2 ^ 64;
  aw_bytes : ar_allocated_bytes a = sumz size (used_blocks l);
  aw_live : ar_live_allocations a = Z.of_nat (length (used_blocks l));
  aw_peak : ar_allocated_bytes a <= ar_peak_bytes a <= ar_size a
}.

Lemma layout_member grain off prev l e b :
  layout grain off prev l e -> b ∈ l -> 0 < size b /\ off <= offset b /\ offset b + size b <= e.
Proof.
  intros H (l1 & l2 & ->)%list_elem_of_split. pose proof (layout_block _ _ _ _ _ _ H). lia.
Qed.

Lemma layout_offsets grain off prev l e b :
  layout grain off prev l e -> b ∈ l -> off mod grain = 0 -> offset b mod grain = 0.
Proof.
  revert off prev. induction l as [|c l IH]; intros off prev H Hb Ho; [by apply elem_of_nil in Hb|].
  destruct H as (Hc & _ & Hs & _ & H). apply elem_of_cons in Hb as [->|Hb]; [by rewrite Hc|].
  eapply IH; [done..|]. by apply aligned_sum.
Qed.

(** ** Fit *)

(** [x] is an aligned address from which a free block of [l] has [n] bytes. *)
Definition room (base : Z) (l : list block) (al n x : Z) : Prop :=
  x mod al = 0 /\ exists b, b ∈ l /\ used b = false /\
    base + offset b <= x /\ x + n <= base + offset b + size b.

Lemma block_fit_spec a b n k :
  let al := 2 ^ k in let start := ar_base a + offset b in let x := align_to start al in
  0 <= k < 64 -> 0 < n -> 0 <= start -> 0 < size b -> start + size b < 2 ^ 64 ->
  block_fit a n al b =
    if used b then None
    else if decide (x + n <= start + size b) then Some (x - start, start + size b - x - n)
    else None.
Proof.
  intros al start x Hk Hn H0 Hs Hend. unfold block_fit. destruct (used b); [done|].
  fold start. rewrite (wrap_small 64 start) by (unfold fits; lia).
  assert (Hal : 0 < al) by (unfold al; lia).
  destruct (align_to_spec start al Hal) as [Hx Hm]. fold x in Hx, Hm.
  subst al. rewrite round_up_align by (unfold fits; lia). fold x. case_decide as Hr.
  - rewrite (wrap_small 64 (x - start)) by (unfold fits; lia).
    destruct (Z.ltb_spec (size b) (x - start)); cbn [orb]; [by rewrite decide_False by lia|].
    rewrite (wrap_small 64) by (unfold fits; lia).
    destruct (Z.ltb_spec (size b - (x - start)) n); [by rewrite decide_False by lia|].
    rewrite decide_True, wrap_small by (unfold fits in *; lia). f_equal. f_equal. lia.
  - rewrite decide_False; [done|].
    assert (Hp : (2 ^ 64 - 2 ^ k) mod 2 ^ k = 0).
    { replace (2 ^ 64) with (2 ^ (64 - k) * 2 ^ k) by (rewrite <- Z.pow_add_r; f_equal; lia).
      rewrite Zminus_mod, Z.mod_mul, Z.mod_same by lia. done. }
    pose proof (multiple_gap (2 ^ k) _ x Hal Hp Hm ltac:(lia)). lia.
Qed.

(** The blocks an aligned allocation leaves in place of [b]. *)
Definition carve_at (b : block) (pad n : Z) : list block :=
  (if pad =? 0 then [] else [Block (offset b) pad false]) ++
  carve (Block (offset b + pad) (size b - pad) false) n.

Lemma carve_at_layout grain off prev l1 b l2 pad n e :
  layout grain off prev (l1 ++ b :: l2) e -> used b = false ->
  0 <= pad -> 0 < n -> pad + n <= size b -> pad mod grain = 0 -> n mod grain = 0 ->
  layout grain off prev (l1 ++ carve_at b pad n ++ l2) e.
Proof.
  intros H Hu Hp Hn Hsz Hpm Hnm. unfold carve_at. destruct (Z.eqb_spec pad 0) as [->|Hnz].
  - rewrite Z.add_0_r, Z.sub_0_r. cbn [app]. apply carve_layout; cbn; try done.
    destruct b as [o s u]. by cbn in *; subst u.
  - apply layout_app in H as (H1 & Ho & Hs & Ha & Hpr & H2). rewrite Hu in Hpr, H2.
    destruct (aligned_sum _ Ha _ Hpm) as [_ Hr].
    apply layout_app. split; [done|]. cbn [app layout offset size used]. split_and!; try done; [lia|].
    unfold carve. cbn [offset size]. rewrite Ho.
    destruct (Z.eqb_spec (size b - pad) n) as [<-|Hne]; cbn [app layout offset size used]; split_and!; try done; try lia.
    + apply layout_prev with false. by replace (off + sumz size l1 + pad + (size b - pad))
        with (off + sumz size l1 + size b) by lia.
    + by apply aligned_sum.
    + by replace (off + sumz size l1 + pad + n + (size b - pad - n))
        with (off + sumz size l1 + size b) by lia.
Qed.

Lemma carve_at_used b pad n :
  used_blocks (carve_at b pad n) = [Block (offset b + pad) n true].
Proof.
  unfold carve_at, carve. rewrite used_blocks_app. cbn [offset size].
  destruct (pad =? 0), (size b - pad =? n); by rewrite ?used_blocks_cons.
Qed.

(** ** Commit *)

Lemma insert_block_spec a k x y l2 i :
  represents DMA_ARENA_MAX_BLOCKS (ar_blocks a) (ar_block_count a) (k ++ x :: l2) ->
  (ar_block_count a < DMA_ARENA_MAX_BLOCKS)%nat -> i = length k ->
  exists t, insert_block (S i) y a = Some (set_table t (S (ar_block_count a)) a) /\
    represents DMA_ARENA_MAX_BLOCKS t (S (ar_block_count a)) (k ++ x :: y :: l2).
Proof.
  intros Hr Hc ->. pose proof (represents_length _ _ _ Hr) as Hlen. rewrite length_app in Hlen.
  cbn [length] in Hlen. unfold insert_block.
  destruct (Nat.leb_spec DMA_ARENA_MAX_BLOCKS (ar_block_count a)); [lia|].
  destruct (Nat.ltb_spec (ar_block_count a) (S (length k))); [lia|]. cbn [orb].
  eexists. split; [done|]. by apply represents_open.
Qed.

Lemma place_block_spec a l1 b l2 pad n :
  represents DMA_ARENA_MAX_BLOCKS (ar_blocks a) (ar_block_count a) (l1 ++ b :: l2) ->
  used b = false ->
  (ar_block_count a + (if (pad =? 0)%Z then 0 else 1) <= DMA_ARENA_MAX_BLOCKS)%nat ->
  let k := l1 ++ (if pad =? 0 then [] else [Block (offset b) pad false]) in
  exists t, let c := (ar_block_count a + (if (pad =? 0)%Z then 0 else 1))%nat in
    place_block (length l1) pad (offset b + pad) n a = (set_table t c a, Some (length k)) /\
    represents DMA_ARENA_MAX_BLOCKS t c (k ++ Block (offset b + pad) n true :: l2).
Proof.
  intros Hr Hu Hroom k. subst k. unfold place_block. rewrite (represents_mid _ _ _ _ _ Hr).
  destruct (Z.eqb_spec pad 0) as [->|Hpd]; cbn [negb].
  - rewrite Z.add_0_r, Nat.add_0_r, app_nil_r.
    pose proof (represents_insert _ _ _ _ (Block (offset b) n true) _ Hr) as Hi. eexists. by split.
  - pose proof (represents_insert _ _ _ _ (set_size pad b) _ Hr) as Hi.
    destruct (insert_block_spec (set_table (<[length l1:=set_size pad b]> (ar_blocks a)) (ar_block_count a) a)
      l1 (set_size pad b) (Block (offset b + pad) n true) l2 (length l1) Hi) as (t & -> & Ht);
      [cbn; lia|done|]. cbn [set_table ar_block_count] in Ht. unfold set_size in Ht. rewrite Hu in Ht.
    exists t. rewrite Nat.add_1_r, length_app, Nat.add_1_r, <- app_assoc. done.
Qed.

Lemma commit_block_spec a l1 b l2 pad n :
  represents DMA_ARENA_MAX_BLOCKS (ar_blocks a) (ar_block_count a) (l1 ++ b :: l2) ->
  used b = false -> 0 <= offset b -> 0 <= pad -> 0 < n -> pad + n <= size b ->
  offset b + size b < 2 ^ 64 ->
  let r := commit_block (length l1) pad (size b - pad - n) n a in
  (r = (None, count_failed a) /\
   (DMA_ARENA_MAX_BLOCKS < ar_block_count a + pred (length (carve_at b pad n)))%nat) \/
  exists t c, r = (Some (offset b + pad), count_bytes n 1 (set_table t c a)) /\
    represents DMA_ARENA_MAX_BLOCKS t c (l1 ++ carve_at b pad n ++ l2).
Proof.
  intros Hr Hu Ho Hp Hn Hsz He r. subst r. unfold commit_block, carve_at, carve.
  rewrite (represents_mid _ _ _ _ _ Hr). cbn [offset size].
  rewrite (wrap_small 64 (offset b + pad)), (wrap_small 64 (offset b + pad + n)) by (unfold fits; lia).
  pose proof (place_block_spec a l1 b l2 pad n Hr Hu) as Hpl. cbv zeta in Hpl.
  set (head := if pad =? 0 then [] else [Block (offset b) pad false]) in *.
  assert (Hh : length head = if (pad =? 0)%Z then 0%nat else 1%nat) by (by unfold head; destruct (pad =? 0)).
  rewrite <- Hh in *. rewrite length_app. cbn [length].
  destruct (Nat.ltb_spec DMA_ARENA_MAX_BLOCKS
    (ar_block_count a + (length head + (if (size b - pad - n =? 0)%Z then 0 else 1)))%nat) as [Hfull|Hroom].
  { left. split; [done|]. revert Hfull. destruct (Z.eqb_spec (size b - pad) n) as [Ht|Ht];
      [rewrite (proj2 (Z.eqb_eq (size b - pad - n) 0)) by lia|destruct (size b - pad - n =? 0)];
      cbn [length]; lia. }
  right. destruct Hpl as (t & -> & Ht); [lia|].
  destruct (Z.eqb_spec (size b - pad) n) as [Htl|Htl].
  - rewrite (proj2 (Z.eqb_eq (size b - pad - n) 0)) by lia.
    eexists _, _. split; [done|]. by rewrite <- !app_assoc in *.
  - rewrite (proj2 (Z.eqb_neq (size b - pad - n) 0)) in * by lia.
    destruct (insert_block_spec (set_table t (ar_block_count a + length head) a) (l1 ++ head) _
      (Block (offset b + pad + n) (size b - pad - n) false) _ (length (l1 ++ head)) Ht) as (t' & -> & Ht'); [cbn; lia|done|].
    eexists _, _. split; [done|]. by rewrite <- !app_assoc in *.
Qed.

(** ** Allocation *)

Lemma used_bytes_bounds grain l e :
  layout grain 0 true l e -> 0 <= sumz size (used_blocks l) <= e.
Proof.
  intros H. rewrite (layout_end _ _ _ _ H), Z.add_0_l. apply layout_sizes in H.
  induction H as [|b l Hb H IH]; [done|]. rewrite used_blocks_cons. cbn [sumz].
  destruct (used b); cbn [sumz]; lia.
Qed.

Lemma used_blocks_length l : (length (used_blocks l) <= length l)%nat.
Proof. apply length_filter. Qed.

Lemma arena_wf_block a l1 b l2 :
  arena_wf a (l1 ++ b :: l2) ->
  0 < size b /\ 0 <= offset b /\ offset b + size b <= ar_size a /\ 0 <= ar_base a + offset b /\
  ar_base a + offset b + size b < 2 ^ 64 /\
  (ar_base a + offset b) mod DMA_ARENA_MINIMUM_ALIGNMENT = 0.
Proof.
  intros H. pose proof (aw_layout _ _ H) as Hl. pose proof (layout_block _ _ _ _ _ _ Hl).
  destruct (aw_base _ _ H) as [? Hm], (aw_size _ _ H). split_and!; try lia.
  apply aligned_sum; [done|]. eapply layout_offsets; [done| |done].
  apply elem_of_app. right. apply list_elem_of_here.
Qed.

(** An arena whose table and counters take in the carved block. *)
Lemma carved_wf a l1 b l2 pad n t c :
  arena_wf a (l1 ++ b :: l2) -> used b = false -> 0 <= pad -> 0 < n -> pad + n <= size b ->
  pad mod DMA_ARENA_MINIMUM_ALIGNMENT = 0 -> n mod DMA_ARENA_MINIMUM_ALIGNMENT = 0 ->
  represents DMA_ARENA_MAX_BLOCKS t c (l1 ++ carve_at b pad n ++ l2) ->
  arena_wf (count_bytes n 1 (set_table t c a)) (l1 ++ carve_at b pad n ++ l2).
Proof.
  intros H Hu Hp Hn Hsz Hpm Hnm Ht.
  pose proof (carve_at_layout _ _ _ _ _ _ pad n _ (aw_layout _ _ H) Hu Hp Hn Hsz Hpm Hnm) as Hlay.
  pose proof (used_bytes_bounds _ _ _ Hlay) as Hb. pose proof (used_blocks_length (l1 ++ carve_at b pad n ++ l2)) as Hc.
  pose proof (represents_length _ _ _ Ht) as Hlen. destruct Ht as (Ht1 & Ht2 & Ht3).
  assert (Hsum : sumz size (used_blocks (l1 ++ carve_at b pad n ++ l2)) = ar_allocated_bytes a + n /\
    Z.of_nat (length (used_blocks (l1 ++ carve_at b pad n ++ l2))) = ar_live_allocations a + 1).
  { rewrite (aw_bytes _ _ H), (aw_live _ _ H), !used_blocks_app, carve_at_used, used_blocks_cons, Hu.
    rewrite !sumz_app, !length_app. cbn [sumz length size]. lia. }
  destruct (aw_size _ _ H), (aw_peak _ _ H), (aw_base _ _ H).
  pose proof (used_bytes_bounds _ _ _ (aw_layout _ _ H)) as Hb0. rewrite <- (aw_bytes _ _ H) in Hb0.
  pose proof (aw_live _ _ H) as Hlv. unfold DMA_ARENA_MAX_BLOCKS in Ht2.
  constructor; unfold count_bytes; cbn [set_table ar_active ar_blocks ar_block_count ar_size ar_base
    ar_allocated_bytes ar_live_allocations ar_peak_bytes]; try done; try apply H;
    rewrite wrap_small by (unfold fits; lia); try lia.
  destruct (Z.ltb_spec (ar_peak_bytes a) (ar_allocated_bytes a + n)); lia.
Qed.

Definition arena_alignment (alignment : Z) : Z := Z.max alignment DMA_ARENA_MINIMUM_ALIGNMENT.
Definition arena_bytes (sz : Z) : Z := align_to sz DMA_ARENA_MINIMUM_ALIGNMENT.

(** Why a request on a well-formed arena is refused. *)
Definition unservable (a : dma_arena) (l : list block) (sz alignment : Z) : Prop :=
  sz = 0 \/ ar_size a < sz \/ power_of_two (arena_alignment alignment) = false \/
  (forall x, ~ room (ar_base a) l (arena_alignment alignment) (arena_bytes sz) x) \/
  (DMA_ARENA_MAX_BLOCKS - 2 < length l)%nat.

(** The successful branch: [b] is the first block with room, and the result is
    the lowest address the request could have. *)
Record carved (a : dma_arena) (l : list block) (sz alignment : Z) (l1 : list block) (b : block)
    (l2 : list block) (pad : Z) : Prop := Carved {
  cv_split : l = l1 ++ b :: l2;
  cv_free : used b = false;
  cv_size : 0 < sz;
  cv_pad : 0 <= pad /\ pad mod DMA_ARENA_MINIMUM_ALIGNMENT = 0;
  cv_fits : pad + arena_bytes sz <= size b;
  cv_aligned : (ar_base a + offset b + pad) mod arena_alignment alignment = 0;
  cv_least : forall x, room (ar_base a) l (arena_alignment alignment) (arena_bytes sz) x ->
    ar_base a + offset b + pad <= x
}.

Lemma arena_bytes_spec sz : 0 <= sz ->
  sz <= arena_bytes sz < sz + 16 /\ arena_bytes sz mod DMA_ARENA_MINIMUM_ALIGNMENT = 0.
Proof. intros Hs. by apply (align_to_spec sz DMA_ARENA_MINIMUM_ALIGNMENT). Qed.

Lemma pow2_multiple k x : 4 <= k -> x mod 2 ^ k = 0 -> x mod DMA_ARENA_MINIMUM_ALIGNMENT = 0.
Proof.
  intros Hk Hx. apply Z.mod_divide in Hx; [|lia]. apply Z.mod_divide; [done|].
  etrans; [|exact Hx]. exists (2 ^ (k - 4)). change DMA_ARENA_MINIMUM_ALIGNMENT with (2 ^ 4).
  rewrite <- Z.pow_add_r by lia. f_equal. lia.
Qed.

Lemma alignment_pow2 al : fits 64 al -> power_of_two (arena_alignment al) = true ->
  exists k, 4 <= k < 64 /\ arena_alignment al = 2 ^ k.
Proof.
  intros Hal Hp. destruct (power_of_two_inv (arena_alignment al)) as (k & Hk & He);
    [unfold arena_alignment, DMA_ARENA_MINIMUM_ALIGNMENT, fits in *; lia|done|].
  exists k. split; [|done]. split; [|lia]. apply (Z.pow_le_mono_r_iff 2); [lia..|].
  rewrite <- He. unfold arena_alignment, DMA_ARENA_MINIMUM_ALIGNMENT. lia.
Qed.

Lemma wf_block_fit a l b n k : arena_wf a l -> b ∈ l -> 4 <= k < 64 -> 0 < n ->
  let start := ar_base a + offset b in let x := align_to start (2 ^ k) in
  block_fit a n (2 ^ k) b =
    if used b then None
    else if decide (x + n <= start + size b) then Some (x - start, start + size b - x - n)
    else None.
Proof.
  intros H (l1 & l2 & ->)%list_elem_of_split Hk Hn.
  destruct (arena_wf_block _ _ _ _ H) as (? & ? & ? & ? & ? & _). apply block_fit_spec; lia.
Qed.

(** A block the loop passes over has no room. *)
Lemma wf_no_fit a l b n k x : arena_wf a l -> b ∈ l -> 4 <= k < 64 -> 0 < n ->
  block_fit a n (2 ^ k) b = None -> used b = false -> x mod 2 ^ k = 0 ->
  ar_base a + offset b <= x -> x + n <= ar_base a + offset b + size b -> False.
Proof.
  intros H Hb Hk Hn Hf Hu Hx Hlo Hhi. rewrite (wf_block_fit a l b n k H Hb Hk Hn), Hu in Hf.
  case_decide as Hd; [done|]. apply Hd.
  pose proof (align_to_least (ar_base a + offset b) (2 ^ k) x ltac:(lia) Hlo Hx). lia.
Qed.

Lemma first_fit a l n k : arena_wf a l -> 4 <= k < 64 -> 0 < n ->
  match first_index (fun b => bool_decide (is_Some (block_fit a n (2 ^ k) b))) l with
  | None => forall x, ~ room (ar_base a) l (2 ^ k) n x
  | Some i => exists l1 b l2, l = l1 ++ b :: l2 /\ i = length l1 /\ used b = false /\
      let pad := align_to (ar_base a + offset b) (2 ^ k) - (ar_base a + offset b) in
      block_fit a n (2 ^ k) b = Some (pad, size b - pad - n) /\ pad + n <= size b /\
      forall x, room (ar_base a) l (2 ^ k) n x -> ar_base a + offset b + pad <= x
  end.
Proof.
  intros H Hk Hn. destruct (first_index _ l) as [i|] eqn:Hf.
  - apply first_index_Some in Hf as [(b & Hb & Hfit%bool_decide_eq_true) Hprev].
    assert (Hin : b ∈ l) by by eapply list_elem_of_lookup_2.
    pose proof (wf_block_fit a l b n k H Hin Hk Hn) as Heq. cbv zeta in Heq.
    destruct (used b) eqn:Hu; [rewrite Heq in Hfit; by destruct Hfit|].
    case_decide as Hd; [|rewrite Heq in Hfit; by destruct Hfit].
    exists (take i l), b, (drop (S i) l).
    assert (Hi : (i < length l)%nat) by by eapply lookup_lt_Some.
    rewrite <- (take_drop_middle l i b Hb) at 1. rewrite length_take, Nat.min_l by lia.
    split; [done|]. split; [done|]. split; [done|]. split; [rewrite Heq; do 2 f_equal; lia|]. split; [lia|].
    intros x (Hx & c & Hc & Huc & Hlo & Hhi). apply list_elem_of_lookup in Hc as [j Hj].
    destruct (lt_eq_lt_dec j i) as [[Hlt| ->]|Hgt].
    + exfalso. eapply (wf_no_fit a l c n k x); try done; [by eapply list_elem_of_lookup_2|].
      specialize (Hprev j c Hlt Hj). apply bool_decide_eq_false in Hprev. by apply eq_None_not_Some.
    + assert (c = b) as -> by congruence.
      pose proof (align_to_least _ (2 ^ k) x ltac:(lia) Hlo Hx). lia.
    + pose proof (aw_layout _ _ H) as Hlay. rewrite <- (take_drop_middle l i b Hb) in Hlay.
      apply layout_app in Hlay as (_ & Ho & _ & _ & _ & Hl2).
      assert (Hcd : c ∈ drop (S i) l).
      { apply (list_elem_of_lookup_2 _ (j - S i)). rewrite lookup_drop. by replace (S i + (j - S i))%nat with j by lia. }
      destruct (layout_member _ _ _ _ _ _ Hl2 Hcd) as (_ & ? & _). lia.
  - rewrite first_index_None in Hf. intros x (Hx & c & Hc & Huc & Hlo & Hhi).
    eapply (wf_no_fit a l c n k x); try done. apply list_elem_of_lookup in Hc as [j Hj].
    specialize (Hf j c Hj). apply bool_decide_eq_false in Hf. by apply eq_None_not_Some.
Qed.

Ltac unserved := left; eexists; split; [reflexivity|]; split; [by auto|tauto].

(** Every way [dma_arena_allocate] ends on a well-formed arena. *)
Lemma arena_allocate_cases a l m sz al : arena_wf a l -> fits 64 sz -> fits 64 al ->
  (exists x, dma_arena_allocate (Some a) sz al m = (None, Some x, m) /\
     (x = a \/ x = count_failed a) /\ unservable a l sz al) \/
  exists l1 b l2 pad t c, carved a l sz al l1 b l2 pad /\
    represents DMA_ARENA_MAX_BLOCKS t c (l1 ++ carve_at b pad (arena_bytes sz) ++ l2) /\
    let p := ar_base a + offset b + pad in
    dma_arena_allocate (Some a) sz al m =
      (Some p, Some (count_bytes (arena_bytes sz) 1 (set_table t c a)),
       zero_bytes p (Z.to_nat (arena_bytes sz)) m).
Proof.
  intros H Hsz Hal. unfold dma_arena_allocate, unservable. rewrite (aw_active _ _ H). cbn [negb orb].
  destruct (Z.eqb_spec sz 0) as [->|Hs0]; cbn [orb]; [unserved|].
  destruct (Z.ltb_spec (ar_size a) sz); [unserved|].
  replace (if al <? DMA_ARENA_MINIMUM_ALIGNMENT then DMA_ARENA_MINIMUM_ALIGNMENT else al)
    with (arena_alignment al)
    by (unfold arena_alignment; destruct (Z.ltb_spec al DMA_ARENA_MINIMUM_ALIGNMENT); lia).
  destruct (power_of_two (arena_alignment al)) eqn:Hp; [|unserved].
  destruct (alignment_pow2 al Hal Hp) as (k & Hk & Hak). rewrite Hak.
  destruct (aw_size _ _ H) as [Hs1 Hs2], (aw_base _ _ H) as [Hb1 Hb2].
  assert (16 <= ar_base a).
  { pose proof (Z.div_mod (ar_base a) DMA_ARENA_MINIMUM_ALIGNMENT ltac:(done)).
    unfold DMA_ARENA_MINIMUM_ALIGNMENT in *. lia. }
  assert (Hru : round_up sz DMA_ARENA_MINIMUM_ALIGNMENT = Some (arena_bytes sz)).
  { change DMA_ARENA_MINIMUM_ALIGNMENT with (2 ^ 4). rewrite round_up_align by done.
    rewrite decide_True by (change (2 ^ 4) with 16; lia). done. }
  rewrite Hru. destruct (arena_bytes_spec sz) as [Hn Hnm]; [unfold fits in *; lia|].
  set (n := arena_bytes sz) in *. assert (0 < n) by (unfold fits in *; lia).
  pose proof (first_fit a l n k H Hk ltac:(done)) as Hff. destruct (aw_table _ _ H) as (Ht1 & Ht2 & Ht3).
  rewrite Ht3. destruct (first_index _ l) as [i|]; [|unserved].
  destruct Hff as (l1 & b & l2 & -> & -> & Hu & Hfit & Hfits & Hleast). cbv zeta in *.
  destruct (align_to_spec (ar_base a + offset b) (2 ^ k) ltac:(lia)) as [Hx Hxm].
  set (pad := align_to (ar_base a + offset b) (2 ^ k) - (ar_base a + offset b)) in *.
  rewrite (represents_mid _ _ _ _ _ (aw_table _ _ H)), Hfit. cbn [default from_option id].
  destruct (arena_wf_block _ _ _ _ H) as (Hb0 & Ho & Hos & _ & Hend & Hbm).
  destruct (commit_block_spec a l1 b l2 pad n (aw_table _ _ H) Hu Ho ltac:(lia) ltac:(lia) Hfits ltac:(lia))
    as [[-> Hfull]|(t & c & -> & Ht)].
  - left. eexists. split; [done|]. split; [by right|]. do 4 right.
    rewrite (represents_length _ _ _ (aw_table _ _ H)). revert Hfull. unfold carve_at, carve. rewrite length_app.
    pose proof (represents_length _ _ _ (aw_table _ _ H)) as Hl. rewrite length_app in Hl. cbn [length] in Hl.
    destruct (pad =? 0), (size (Block (offset b + pad) (size b - pad) false) =? n); cbn [length];
      unfold DMA_ARENA_MAX_BLOCKS; lia.
  - right. exists l1, b, l2, pad, t, c. split; [|split; [done|]].
    + constructor; rewrite ?Hak; [done|done|unfold fits in *; lia| |done| |done].
      * split; [lia|]. unfold pad. apply aligned_sum; [|done]. apply (pow2_multiple k); [lia|done].
      * by replace (ar_base a + offset b + pad) with (align_to (ar_base a + offset b) (2 ^ k)) by lia.
    + cbn [count_bytes set_table ar_base]. rewrite wrap_small by (unfold fits; lia).
      by rewrite Z.add_assoc.
Qed.

(** [dma_arena_allocate] on a well-formed arena either carves the request,
    rounded up to 16 bytes, at the lowest suitably aligned address where a free
    block has room for it: the live blocks gain exactly this one, its bytes are
    zero and no other byte of memory changes; or it refuses with the blocks and
    memory unchanged, and only for an empty or oversize request, an alignment that
    is not a power of two, when no free block has room, or when the block table is
    within two entries of its capacity. *)
Theorem dma_arena_allocate_correct a l m sz al :
  arena_wf a l -> fits 64 sz -> fits 64 al ->
  match dma_arena_allocate (Some a) sz al m with
  | (Some p, Some a', m') =>
      let n := arena_bytes sz in
      sz <= n < sz + 16 /\ p mod arena_alignment al = 0 /\
      room (ar_base a) l (arena_alignment al) n p /\
      (forall x, room (ar_base a) l (arena_alignment al) n x -> p <= x) /\
      (forall y, m' !! y = if decide (p <= y < p + n) then Some 0 else m !! y) /\
      ar_base a' = ar_base a /\ ar_size a' = ar_size a /\
      exists l' k1 k2, arena_wf a' l' /\ used_blocks l = k1 ++ k2 /\
        used_blocks l' = k1 ++ Block (p - ar_base a) n true :: k2
  | (None, Some a', m') => m' = m /\ arena_wf a' l /\ unservable a l sz al
  | _ => False
  end.
Proof.
  intros H Hsz Hal. destruct (arena_allocate_cases a l m sz al H Hsz Hal)
    as [(x & -> & Hx & Hun)|(l1 & b & l2 & pad & t & c & Hc & Ht & ->)].
  - split; [done|]. split; [|done]. destruct Hx as [->| ->]; [done|]. by destruct H; constructor.
  - destruct Hc as [-> Hu Hs [Hp0 Hpm] Hfit Hal0 Hleast]. cbv zeta.
    destruct (arena_bytes_spec sz) as [Hn Hnm]; [unfold fits in *; lia|].
    assert (Hw : arena_wf (count_bytes (arena_bytes sz) 1 (set_table t c a))
      (l1 ++ carve_at b pad (arena_bytes sz) ++ l2)) by (apply carved_wf; done || lia).
    split; [done|]. split; [done|]. split; [|split; [done|]].
    { split; [done|]. exists b. split_and!; [|done|lia|lia]. apply elem_of_app. right. apply list_elem_of_here. }
    split; [intros y; rewrite zero_bytes_lookup, Z2Nat.id by lia; done|]. split; [done|]. split; [done|].
    exists (l1 ++ carve_at b pad (arena_bytes sz) ++ l2), (used_blocks l1), (used_blocks l2).
    split; [done|]. rewrite !used_blocks_app, used_blocks_cons, Hu, carve_at_used.
    by replace (ar_base a + offset b + pad - ar_base a) with (offset b + pad) by lia.
Qed.

(** ** Release *)

Lemma find_offset_Some off l i :
  find_offset off l = Some i ->
  exists l1 b l2, l = l1 ++ b :: l2 /\ i = length l1 /\ offset b = off.
Proof.
  revert i. induction l as [|b l IH]; intros i; cbn [find_offset]; [done|].
  destruct (Z.eqb_spec (offset b) off) as [Ho|_]; [intros [= <-]; by exists [], b, l|].
  destruct (off <? offset b); [done|]. intros (j & Hj & ->)%fmap_Some.
  destruct (IH j Hj) as (l1 & c & l2 & -> & -> & Hc). by exists (b :: l1), c, l2.
Qed.

Lemma find_offset_None grain start prev off l e b :
  layout grain start prev l e -> find_offset off l = None -> b ∈ l -> offset b <> off.
Proof.
  revert start prev. induction l as [|c l IH]; intros start prev H; cbn [find_offset];
    [by intros _ ?%elem_of_nil|]. pose proof H as H'. destruct H as (Hc & Hs & _ & _ & H).
  destruct (Z.eqb_spec (offset c) off) as [|Hne]; [done|]. destruct (Z.ltb_spec off (offset c)) as [Hlt|Hge].
  - intros _ Hb. pose proof (layout_member _ _ _ _ _ _ H' Hb). lia.
  - intros Hf%fmap_None [->|Hb]%elem_of_cons; [done|]. by eapply IH.
Qed.

Lemma find_offset_at grain start prev l1 b l2 e :
  layout grain start prev (l1 ++ b :: l2) e ->
  find_offset (offset b) (l1 ++ b :: l2) = Some (length l1).
Proof.
  revert start prev. induction l1 as [|c l1 IH]; intros start prev H; cbn [app find_offset length];
    [by rewrite Z.eqb_refl|]. destruct H as (Hc & Hs & _ & _ & H).
  pose proof (layout_block _ _ _ _ _ _ H).
  destruct (Z.eqb_spec (offset c) (offset b)); [lia|]. destruct (Z.ltb_spec (offset b) (offset c)); [lia|].
  by rewrite (IH _ _ H).
Qed.

Lemma in_arena_iff a l p : arena_wf a l ->
  in_arena a p = true <-> ar_base a <= p < ar_base a + ar_size a.
Proof.
  intros H. destruct (aw_size _ _ H), (aw_base _ _ H). unfold in_arena.
  rewrite wrap_small by (unfold fits; lia). rewrite andb_true_iff, Z.leb_le, Z.ltb_lt. done.
Qed.

(** Freeing the used block [b]: the table is that of the merged blocks. *)
Lemma free_used a l1 b l2 :
  arena_wf a (l1 ++ b :: l2) -> used b = true ->
  exists a', dma_arena_free (Some a) (Some (ar_base a + offset b)) = (DMA_ARENA_STATUS_OK, Some a') /\
    arena_wf a' (coalesce l1 (set_used false b) l2).
Proof.
  intros H Hu. unfold dma_arena_free. rewrite (aw_active _ _ H). cbn [negb].
  destruct (arena_wf_block _ _ _ _ H) as (Hs & Ho & He & _ & _ & _). destruct (aw_size _ _ H) as [Hsz Hend].
  rewrite (proj2 (in_arena_iff a _ _ H)) by lia. cbn [negb].
  replace (ar_base a + offset b - ar_base a) with (offset b) by lia.
  destruct (aw_table _ _ H) as (_ & _ & Ht). rewrite Ht.
  rewrite (find_offset_at _ _ _ _ _ _ _ (aw_layout _ _ H)).
  rewrite (represents_mid _ _ _ _ _ (aw_table _ _ H)), Hu. cbn [negb].
  pose proof (represents_insert _ _ _ _ (set_used false b) _ (aw_table _ _ H)) as Hr.
  pose proof (layout_end _ _ _ _ (aw_layout _ _ H)) as Hsum. rewrite Z.add_0_l in Hsum.
  pose proof (layout_sizes _ _ _ _ (aw_layout _ _ H)) as Hpos.
  pose proof (merge_free_neighbours_spec _ _ l1 (set_used false b) l2 (ar_size a) Hr) as Hm.
  cbv zeta in Hm. destruct (merge_free_neighbours _ _ _) as [t c]. cbn [fst snd] in Hm.
  destruct (coalesce_layout _ _ _ _ (aw_layout _ _ H) Hu) as [Hl' Hu'].
  pose proof (used_bytes_bounds _ _ _ (aw_layout _ _ H)) as Hb. destruct (aw_base _ _ H).
  pose proof (used_bytes_bounds _ _ _ Hl') as Hb'.
  eexists. split; [done|]. pose proof (aw_bytes _ _ H) as Hby. pose proof (aw_live _ _ H) as Hlv.
  pose proof (aw_peak _ _ H). pose proof (used_blocks_length (l1 ++ b :: l2)) as Hlen.
  rewrite (represents_length _ _ _ (aw_table _ _ H)) in Hlen. destruct (aw_table _ _ H) as (_ & Hcap & _).
  unfold DMA_ARENA_MAX_BLOCKS in Hcap.
  rewrite used_blocks_app, used_blocks_cons, Hu in Hby, Hlv, Hb, Hlen.
  rewrite sumz_app in Hby, Hb. rewrite length_app in Hlv, Hlen. rewrite Hu', sumz_app in Hb'.
  cbn [sumz length] in *.
  constructor; cbn [ar_active ar_blocks ar_block_count ar_size ar_base ar_allocated_bytes
    ar_live_allocations ar_peak_bytes]; rewrite ?Hu', ?sumz_app, ?length_app;
    try (rewrite wrap_small by (unfold fits; lia)); try done; try lia.
  apply Hm; [lia| |].
  - rewrite Hsum, !sumz_app. done.
  - rewrite Forall_app, Forall_cons in *. done.
Qed.

(** [dma_arena_free] succeeds exactly on the address of a live block and then
    removes exactly that block from the live ones, the table staying merged and
    the counters exact; the start of a free block is a double free and any other
    address a bad pointer, both without a change. *)
Theorem dma_arena_free_correct a l p :
  arena_wf a l ->
  match dma_arena_free (Some a) (Some p) with
  | (DMA_ARENA_STATUS_OK, Some a') => exists l' k1 b k2, arena_wf a' l' /\
      p = ar_base a + offset b /\ used_blocks l = k1 ++ b :: k2 /\ used_blocks l' = k1 ++ k2 /\
      ar_base a' = ar_base a /\ ar_size a' = ar_size a /\
      ar_allocated_bytes a' = ar_allocated_bytes a - size b
  | (DMA_ARENA_STATUS_DOUBLE_FREE, a') => a' = Some a /\
      exists b, b ∈ l /\ used b = false /\ p = ar_base a + offset b
  | (DMA_ARENA_STATUS_BAD_POINTER, a') => a' = Some a /\ forall b, b ∈ l -> p <> ar_base a + offset b
  | _ => False
  end.
Proof.
  intros H. destruct (in_arena a p) eqn:Hin.
  2: { unfold dma_arena_free. rewrite (aw_active _ _ H), Hin. cbn [negb]. split; [done|].
       intros b (l1 & l2 & ->)%list_elem_of_split ->. destruct (arena_wf_block _ _ _ _ H) as (? & ? & ? & _).
       apply not_true_iff_false in Hin. apply Hin. apply (in_arena_iff a _ _ H). lia. }
  destruct (find_offset (p - ar_base a) l) as [i|] eqn:Hf.
  - apply find_offset_Some in Hf as (l1 & b & l2 & -> & _ & Ho).
    assert (p = ar_base a + offset b) as -> by lia. destruct (used b) eqn:Hu.
    + destruct (free_used a l1 b l2 H Hu) as (a' & Hfree & Hw). rewrite Hfree.
      destruct (coalesce_layout _ _ _ _ (aw_layout _ _ H) Hu) as [_ Hu'].
      exists (coalesce l1 (set_used false b) l2), (used_blocks l1), b, (used_blocks l2).
      rewrite used_blocks_app, used_blocks_cons, Hu, (aw_bytes _ _ Hw), (aw_bytes _ _ H), Hu'.
      rewrite used_blocks_app, used_blocks_cons, Hu, !sumz_app.
      split_and!; try done; [| |cbn [sumz]; lia]; revert Hfree; unfold dma_arena_free;
        repeat case_match; by intros [= <-].
    + unfold dma_arena_free. rewrite (aw_active _ _ H), Hin. cbn [negb].
      destruct (aw_table _ _ H) as (_ & _ & ->). replace (ar_base a + offset b - ar_base a) with (offset b) by lia.
      rewrite (find_offset_at _ _ _ _ _ _ _ (aw_layout _ _ H)).
      rewrite (represents_mid _ _ _ _ _ (aw_table _ _ H)), Hu. cbn [negb]. split; [done|].
      exists b. split; [|done]. apply elem_of_app. right. apply list_elem_of_here.
  - unfold dma_arena_free. rewrite (aw_active _ _ H), Hin. cbn [negb].
    destruct (aw_table _ _ H) as (_ & _ & ->). rewrite Hf. split; [done|].
    intros b Hb ->. apply (find_offset_None _ _ _ _ _ _ b (aw_layout _ _ H) Hf Hb). lia.
Qed.

(** ** Round trip *)

(** Merging undoes carving: first the tail, when nothing free follows. *)
Lemma absorb_next_carve b n l2 :
  match l2 with [] => True | x :: _ => used x = true end -> used b = false -> 0 < n <= size b ->
  exists r, carve b n ++ l2 = Block (offset b) n true :: r /\
    absorb_next (Block (offset b) n false) r = (b, l2).
Proof.
  intros Hl Hu Hn. unfold carve. destruct b as [o s u]. cbn in *. subst u.
  destruct (Z.eqb_spec s n) as [->|Hne]; eexists; (split; [reflexivity|]); cbn.
  - destruct l2 as [|x l2]; [done|]. cbn. by rewrite Hl.
  - unfold join, set_size. cbn. by replace (n + (s - n)) with s by lia.
Qed.

Lemma coalesce_carve_at grain l1 b l2 pad n e :
  layout grain 0 true (l1 ++ b :: l2) e -> used b = false ->
  0 <= pad -> 0 < n -> pad + n <= size b ->
  exists k r, l1 ++ carve_at b pad n ++ l2 = k ++ Block (offset b + pad) n true :: r /\
    coalesce k (Block (offset b + pad) n false) r = l1 ++ b :: l2.
Proof.
  intros H Hu Hp Hn Hsz. pose proof H as (_ & _ & _ & _ & _ & H2)%layout_app. unfold carve_at.
  assert (Hl2 : match l2 with [] => True | x :: _ => used x = true end).
  { rewrite Hu in H2. destruct l2; [done|]. by destruct H2 as (_ & _ & _ & ? & _). }
  destruct (Z.eqb_spec pad 0) as [->|Hnz]; cbn [app].
  - rewrite Z.add_0_r, Z.sub_0_r. destruct (coalesce_carve l1 b l2 n e H Hu ltac:(lia)) as (r & Hc & Hr).
    exists l1, r. destruct b as [o s u]. cbn in *. subst u. split; [by rewrite Hc|done].
  - destruct (absorb_next_carve (Block (offset b + pad) (size b - pad) false) n l2 Hl2 eq_refl) as (r & Hc & Hr);
      [cbn; lia|]. cbn [offset] in Hc, Hr.
    exists (l1 ++ [Block (offset b) pad false]), r. rewrite Hc, <- app_assoc. split; [done|].
    unfold coalesce. rewrite Hr. cbn [fst snd]. unfold absorb_prev. rewrite last_snoc. cbn [used].
    rewrite removelast_last, <- app_assoc. unfold join, set_size. cbn [app offset size used].
    destruct b as [o s u]. cbn in *. subst u. by replace (pad + (s - pad)) with s by lia.
Qed.

(** Freeing what was just allocated gives the arena its blocks and counters
    back exactly, whatever alignment padding the allocation had to carve. *)
Theorem dma_arena_allocate_free_roundtrip a l m sz al p a1 m1 :
  arena_wf a l -> fits 64 sz -> fits 64 al ->
  dma_arena_allocate (Some a) sz al m = (Some p, Some a1, m1) ->
  exists a2, dma_arena_free (Some a1) (Some p) = (DMA_ARENA_STATUS_OK, Some a2) /\ arena_wf a2 l /\
    ar_block_count a2 = ar_block_count a /\ ar_allocated_bytes a2 = ar_allocated_bytes a /\
    ar_live_allocations a2 = ar_live_allocations a.
Proof.
  intros H Hsz Hal Ha. destruct (arena_allocate_cases a l m sz al H Hsz Hal)
    as [(x & Hx & _)|(l1 & b & l2 & pad & t & c & Hc & Ht & Hr)]; [congruence|].
  cbv zeta in Hr. rewrite Hr in Ha. injection Ha as <- <- _.
  destruct Hc as [-> Hu Hs [Hp0 Hpm] Hfit _ _]. destruct (arena_bytes_spec sz) as [Hn Hnm]; [lia|].
  assert (Hw : arena_wf (count_bytes (arena_bytes sz) 1 (set_table t c a))
    (l1 ++ carve_at b pad (arena_bytes sz) ++ l2)) by (apply carved_wf; done || lia).
  destruct (coalesce_carve_at _ l1 b l2 pad (arena_bytes sz) _ (aw_layout _ _ H) Hu) as (k & r & Hk & Hco);
    [lia..|]. rewrite Hk in Hw. destruct (free_used _ _ _ _ Hw eq_refl) as (a2 & Hf & Hw2).
  cbn [offset count_bytes set_table ar_base] in Hf. rewrite Z.add_assoc in Hf.
  change (set_used false (Block (offset b + pad) (arena_bytes sz) true))
    with (Block (offset b + pad) (arena_bytes sz) false) in Hw2. rewrite Hco in Hw2.
  exists a2. split; [done|]. split; [done|].
  rewrite <- (represents_length _ _ _ (aw_table _ _ Hw2)), <- (represents_length _ _ _ (aw_table _ _ H)).
  by rewrite (aw_bytes _ _ Hw2), (aw_bytes _ _ H), (aw_live _ _ Hw2), (aw_live _ _ H).
Qed.

(** ** The audit *)

(** Offsets and sizes are 64-bit words. *)
Definition block_fits (b : block) : Prop := fits 64 (offset b) /\ fits 64 (size b).

Lemma verify_blocks_iff total rest prev e by_ c r :
  0 <= by_ <= e -> e <= total < 2 ^ 64 -> 0 <= c -> c + Z.of_nat (length rest) < 2 ^ 64 ->
  Forall block_fits rest ->
  verify_blocks total rest prev e by_ c = Some r <->
  (layout 1 e (default true prev) rest (e + sumz size rest) /\ e + sumz size rest <= total) /\
  r = (e + sumz size rest, by_ + sumz size (used_blocks rest),
       c + Z.of_nat (length (used_blocks rest))).
Proof.
  revert prev e by_ c. induction rest as [|b rest IH]; intros prev e by_ c Hby He Hc Hlen Hf.
  { cbn [verify_blocks layout sumz used_blocks]. unfold used_blocks. cbn. rewrite !Z.add_0_r.
    split; [intros [= <-]; split; [split; [done|lia]|done]|by intros [_ ->]]. }
  apply Forall_cons in Hf as [[Hfo Hfs] Hf]. unfold fits in Hfo, Hfs.
  cbn [verify_blocks layout sumz length] in *. rewrite used_blocks_cons.
  destruct (Z.eqb_spec (offset b) e) as [Ho|Ho]; cbn [negb orb]; [|intuition congruence].
  destruct (Z.eqb_spec (size b) 0) as [Hs|Hs]; cbn [orb]; [intuition (congruence || lia)|].
  rewrite (wrap_small 64 (total - offset b)) by (unfold fits; lia).
  destruct (Z.ltb_spec (total - offset b) (size b)) as [Ht|Ht].
  { split; [done|]. intros [[(_ & _ & _ & _ & Hl) Hle] _]. apply layout_grows in Hl. lia. }
  replace (negb (used b) && negb (default true prev)) with (negb (default true prev || used b))
    by (by destruct (default true prev), (used b)).
  destruct (default true prev || used b) eqn:Hp; cbn [negb]; [|by intuition congruence].
  rewrite (wrap_small 64 (e + size b)) by (unfold fits; lia).
  rewrite (wrap_small 64 (by_ + size b)), (wrap_small 64 (c + 1)) by (unfold fits; lia).
  rewrite IH by (destruct (used b); done || lia). cbn [default from_option id].
  rewrite Z.mod_1_r. destruct (used b); cbn [sumz length]; rewrite ?Z.add_assoc.
  - rewrite Nat2Z.inj_succ. replace (c + Z.succ (Z.of_nat (length (used_blocks rest))))
      with (c + 1 + Z.of_nat (length (used_blocks rest))) by lia. intuition lia.
  - intuition lia.
Qed.

(** [dma_arena_verify] accepts exactly an active arena whose live table is not
    empty, tiles the region from its first to its last byte with no gap, overlap,
    empty block or two free neighbours, and whose byte and allocation counters are
    those of the used blocks. *)
Theorem dma_arena_verify_exact a :
  length (ar_blocks a) = DMA_ARENA_MAX_BLOCKS -> Forall block_fits (ar_blocks a) ->
  fits 64 (ar_size a) ->
  let l := take (ar_block_count a) (ar_blocks a) in
  dma_arena_verify (Some a) = DMA_ARENA_STATUS_OK <->
  ar_active a = true /\ (0 < ar_block_count a <= DMA_ARENA_MAX_BLOCKS)%nat /\
  layout 1 0 true l (ar_size a) /\ ar_allocated_bytes a = sumz size (used_blocks l) /\
  ar_live_allocations a = Z.of_nat (length (used_blocks l)).
Proof.
  intros Hlen Hf Hs l. unfold dma_arena_verify. destruct (ar_active a); cbn [negb]; [|intuition congruence].
  destruct (Nat.eqb_spec (ar_block_count a) 0) as [Hz|Hz]; cbn [orb]; [intuition (done || lia)|].
  destruct (Nat.ltb_spec DMA_ARENA_MAX_BLOCKS (ar_block_count a)) as [Hm|Hm]; [intuition (done || lia)|].
  fold l. assert (Hv : forall r, verify_blocks (ar_size a) l None 0 0 0 = Some r <->
    (layout 1 0 true l (0 + sumz size l) /\ 0 + sumz size l <= ar_size a) /\
    r = (0 + sumz size l, 0 + sumz size (used_blocks l), 0 + Z.of_nat (length (used_blocks l)))).
  { intros r. apply (verify_blocks_iff (ar_size a) l None 0 0 0 r); unfold fits in *; try lia.
    - unfold l. rewrite length_take. unfold DMA_ARENA_MAX_BLOCKS in *. lia.
    - by apply Forall_take. }
  rewrite !Z.add_0_l in Hv. destruct (verify_blocks _ _ _ _ _ _) as [[[e b] c]|].
  - destruct (proj1 (Hv _) eq_refl) as [[Hl Hle] [= -> -> ->]].
    destruct (Z.eqb_spec (sumz size l) (ar_size a)) as [He|He]; cbn [negb orb].
    2: { split; [done|]. intros (_ & _ & Hl' & _). apply layout_end in Hl'. lia. }
    rewrite He in Hl.
    destruct (Z.eqb_spec (sumz size (used_blocks l)) (ar_allocated_bytes a)); cbn [negb orb]; [|intuition congruence].
    destruct (Z.eqb_spec (Z.of_nat (length (used_blocks l))) (ar_live_allocations a)); cbn [negb];
      intuition (congruence || lia).
  - split; [done|]. intros (_ & _ & Hl & _). pose proof (layout_end _ _ _ _ Hl) as He. rewrite Z.add_0_l in He.
    exfalso. assert (None = Some (sumz size l, sumz size (used_blocks l), Z.of_nat (length (used_blocks l)))); [|done].
    apply Hv. rewrite <- He. done.
Qed.

(** ** Queries *)

(** The query of a pointer's size answers the size of the live block that
    starts there and 0 for every other pointer, and the containment check accepts
    exactly the non-null ranges that start inside the arena and end at or before
    its end. *)
Theorem dma_arena_queries_exact a l p n :
  arena_wf a l -> fits 64 n ->
  (forall b, b ∈ used_blocks l -> p = ar_base a + offset b ->
     dma_arena_allocation_size (Some a) (Some p) = size b) /\
  ((forall b, b ∈ used_blocks l -> p <> ar_base a + offset b) ->
     dma_arena_allocation_size (Some a) (Some p) = 0) /\
  (dma_arena_contains (Some a) (Some p) n = true <->
     ar_base a <= p < ar_base a + ar_size a /\ p + n <= ar_base a + ar_size a).
Proof.
  intros H Hn. pose proof (in_arena_iff a l p H) as Hin.
  unfold dma_arena_allocation_size, dma_arena_contains. rewrite (aw_active _ _ H). cbn [negb orb].
  destruct (aw_table _ _ H) as (_ & _ & ->). split_and!.
  - intros b [Hu (l1 & l2 & ->)%list_elem_of_split]%used_blocks_In ->.
    destruct (arena_wf_block _ _ _ _ H) as (? & ? & ? & _). rewrite (proj2 Hin) by lia. cbn [negb].
    replace (ar_base a + offset b - ar_base a) with (offset b) by lia.
    rewrite (find_offset_at _ _ _ _ _ _ _ (aw_layout _ _ H)).
    by rewrite (represents_mid _ _ _ _ _ (aw_table _ _ H)), Hu.
  - intros Hno. destruct (negb (in_arena a p)); [done|].
    destruct (find_offset _ l) as [i|] eqn:Hf; [|done].
    apply find_offset_Some in Hf as (l1 & b & l2 & -> & -> & Ho).
    rewrite (represents_mid _ _ _ _ _ (aw_table _ _ H)). destruct (used b) eqn:Hu; [|done].
    exfalso. apply (Hno b); [|lia]. apply used_blocks_In. split; [done|].
    apply elem_of_app. right. apply list_elem_of_here.
  - destruct (in_arena a p); cbn [negb]; [|intuition congruence].
    destruct (proj1 Hin eq_refl) as [Hlo Hhi]. destruct (aw_size _ _ H), (aw_base _ _ H).
    rewrite wrap_small by (unfold fits; lia). rewrite Z.leb_le. intuition lia.
Qed.

(** ** Reachable arenas *)

Lemma allocate_wf a l m sz al p a' m' :
  arena_wf a l -> fits 64 sz -> fits 64 al ->
  dma_arena_allocate (Some a) sz al m = (p, Some a', m') -> exists l', arena_wf a' l'.
Proof.
  intros H Hsz Hal Ha. destruct (arena_allocate_cases a l m sz al H Hsz Hal)
    as [(x & Hx & Hor & _)|(l1 & b & l2 & pad & t & c & Hc & Ht & Hr)].
  - rewrite Hx in Ha. injection Ha as <- <- _. exists l. destruct Hor as [->| ->]; [done|].
    by destruct H; constructor.
  - cbv zeta in Hr. rewrite Hr in Ha. injection Ha as <- <- _.
    destruct Hc as [-> Hu Hs [Hp0 Hpm] Hfit _ _]. destruct (arena_bytes_spec sz) as [Hn Hnm]; [lia|].
    eexists. apply carved_wf; done || lia.
Qed.

Lemma free_wf a l p st a' :
  arena_wf a l -> dma_arena_free (Some a) p = (st, Some a') -> exists l', arena_wf a' l'.
Proof.
  intros H Hf. destruct p as [p|]; [|injection Hf as _ <-; by exists l].
  destruct (find_offset (p - ar_base a) l) as [i|] eqn:Ho.
  - apply find_offset_Some in Ho as (l1 & b & l2 & -> & _ & Ho).
    assert (p = ar_base a + offset b) as -> by lia. destruct (used b) eqn:Hu.
    + destruct (free_used a l1 b l2 H Hu) as (a2 & Hf2 & Hw). rewrite Hf2 in Hf. injection Hf as _ <-.
      by eexists.
    + exists (l1 ++ b :: l2). revert Hf. unfold dma_arena_free.
      replace (ar_base a + offset b - ar_base a) with (offset b) by lia.
      destruct (aw_table _ _ H) as (_ & _ & ->).
      rewrite (find_offset_at _ _ _ _ _ _ _ (aw_layout _ _ H)), (represents_mid _ _ _ _ _ (aw_table _ _ H)), Hu.
      cbn [negb]. repeat case_match; by intros [= _ <-].
  - exists l. revert Hf. unfold dma_arena_free. destruct (aw_table _ _ H) as (_ & _ & ->). rewrite Ho.
    repeat case_match; by intros [= _ <-].
Qed.

(** A step: any allocation or free, refused ones included, or a byte written by a
    holder of the memory. *)
Inductive arena_step : dma_arena * memory -> dma_arena * memory -> Prop :=
| step_arena_allocate a m sz al p a' m' :
    fits 64 sz -> fits 64 al -> dma_arena_allocate (Some a) sz al m = (p, Some a', m') ->
    arena_step (a, m) (a', m')
| step_arena_free a m p st a' :
    dma_arena_free (Some a) p = (st, Some a') -> arena_step (a, m) (a', m)
| step_arena_write a m x v : arena_step (a, m) (a, <[x := v]> m).

Lemma layout_coarsen grain off prev l e : layout grain off prev l e -> layout 1 off prev l e.
Proof.
  revert off prev. induction l as [|b l IH]; intros off prev; cbn [layout]; [done|].
  intros (? & ? & _ & ? & H). rewrite Z.mod_1_r. eauto 10.
Qed.

Lemma layout_ordered grain off prev l e i j b c :
  layout grain off prev l e -> (i < j)%nat -> l !! i = Some b -> l !! j = Some c ->
  offset b + size b <= offset c.
Proof.
  revert off prev i j. induction l as [|d l IH]; intros off prev i j H Hij Hb Hc; [done|].
  destruct H as (Hd & Hs & _ & _ & H), j as [|j]; [lia|]. destruct i as [|i]; cbn in Hb, Hc.
  - injection Hb as ->. apply list_elem_of_lookup_2 in Hc. pose proof (layout_member _ _ _ _ _ _ H Hc). lia.
  - by eapply (IH _ _ i j); [done|lia|..].
Qed.

Lemma arena_wf_verified a l : arena_wf a l -> dma_arena_verify (Some a) = DMA_ARENA_STATUS_OK.
Proof.
  intros H. pose proof (aw_layout _ _ H) as Hlay. destruct (aw_size _ _ H), (aw_base _ _ H).
  pose proof (layout_end _ _ _ _ Hlay) as He. rewrite Z.add_0_l in He.
  assert (Hv : verify_blocks (ar_size a) l None 0 0 0 =
    Some (0 + sumz size l, 0 + sumz size (used_blocks l), 0 + Z.of_nat (length (used_blocks l)))).
  { pose proof (represents_length _ _ _ (aw_table _ _ H)). destruct (aw_table _ _ H) as (_ & Hc & _).
    unfold DMA_ARENA_MAX_BLOCKS in Hc. apply verify_blocks_iff; try lia.
    - apply Forall_forall. intros b Hb.
      pose proof (layout_member _ _ _ _ _ _ Hlay Hb). unfold block_fits, fits. lia.
    - rewrite !Z.add_0_l, <- He. split; [|done]. split; [by eapply layout_coarsen|lia]. }
  unfold dma_arena_verify. rewrite (aw_active _ _ H). cbn [negb].
  pose proof (represents_length _ _ _ (aw_table _ _ H)) as Hlen. destruct (aw_table _ _ H) as (_ & Hc & ->).
  rewrite Hv, !Z.add_0_l, <- He, (aw_bytes _ _ H), (aw_live _ _ H), !Z.eqb_refl. cbn [negb orb].
  destruct (Nat.eqb_spec (ar_block_count a) 0) as [Hz|]; cbn [orb].
  - rewrite Hz in Hlen. apply nil_length_inv in Hlen as ->. cbn in He. lia.
  - destruct (Nat.ltb_spec DMA_ARENA_MAX_BLOCKS (ar_block_count a)); [lia|done].
Qed.

(** After any sequence of allocations and frees, refused ones included, and
    writes by the holders of the memory, the audit accepts the arena, every live
    block lies inside the arena, and no two live blocks overlap. *)
Theorem dma_arena_reachable_safe a l m a' m' :
  arena_wf a l -> rtc arena_step (a, m) (a', m') ->
  dma_arena_verify (Some a') = DMA_ARENA_STATUS_OK /\
  exists l', represents DMA_ARENA_MAX_BLOCKS (ar_blocks a') (ar_block_count a') l' /\
    (forall b, b ∈ used_blocks l' -> 0 <= offset b /\ 0 < size b /\ offset b + size b <= ar_size a') /\
    (forall i j b c x, i <> j -> l' !! i = Some b -> l' !! j = Some c ->
       offset b <= x < offset b + size b -> offset c <= x < offset c + size c -> False).
Proof.
  intros H Hrtc. assert (exists l', arena_wf a' l') as [l' Hw].
  { remember (a, m) as s eqn:Es. remember (a', m') as s' eqn:Es'. revert a l m H Es.
    induction Hrtc as [|x y z Hxy _ IH]; intros a l m H ->; [injection Es' as <- _; by exists l|].
    inversion Hxy as [? ? sz al p a2 m2 Hsz Hal Ha|? ? p st a2 Hf|? ? q v]; subst.
    - destruct (allocate_wf a l m sz al p a2 m2 H Hsz Hal Ha) as [l2 Hl2]. by eapply IH.
    - destruct (free_wf a l p st a2 H Hf) as [l2 Hl2]. by eapply IH.
    - by eapply IH. }
  split; [by eapply arena_wf_verified|]. exists l'. split; [apply Hw|]. pose proof (aw_layout _ _ Hw) as Hlay. split.
  - intros b [_ Hb]%used_blocks_In. pose proof (layout_member _ _ _ _ _ _ Hlay Hb). lia.
  - intros i j b c x Hij Hb Hc Hx Hy. destruct (Nat.lt_gt_cases i j) as [[Hlt|Hgt] _]; [done|..].
    + pose proof (layout_ordered _ _ _ _ _ i j b c Hlay Hlt Hb Hc). lia.
    + pose proof (layout_ordered _ _ _ _ _ j i c b Hlay Hgt Hc Hb). lia.
Qed.

(** ** The backing allocation *)

(** The arena's region is the live allocation at its embedded structure, owned by
    the device. *)
Definition backed (a : dma_arena) (s : dma) (i : nat) (r : dma_record) : Prop :=
  live s (ar_allocation a) i r /\ rec_owner r = DMA_OWNER_DEVICE /\
  ca_physical_base (rec_frames r) = ar_base a /\ bytes (rec_frames r) = ar_size a.

(** Marking and transferring a live allocation of the CPU cannot fail. *)
Lemma prepare_live s p i r :
  dma_wf s -> live s p i r -> rec_owner r = DMA_OWNER_CPU ->
  exists s1 s2, dma_mark_initialized (Some p) s = (DMA_STATUS_OK, s1) /\
    dma_transfer_to_device (Some p) s1 = (DMA_STATUS_OK, s2) /\
    dma_wf s2 /\ live s2 p i (relabelled r DMA_OWNER_DEVICE true) /\
    at_address p (Some (DMA_OWNER_DEVICE, true)) s s2 /\ physical s2 = physical s.
Proof.
  intros Hw Hl Ho. pose proof (set_prepared_wf s p i r Hw Hl Ho) as Hw1.
  pose proof (relabel_live s _ p i r _ _ Hl (proj1 (set_prepared_eq s p i r Hw Hl))) as Hl1.
  set (r1 := relabelled r (rec_owner r) true) in *. set (s1 := set_prepared p i s) in *.
  pose proof (to_device_wf s1 p i r1 Hw1 Hl1 Ho eq_refl) as Hw2.
  pose proof (proj1 (set_owner_eq s1 p i r1 DMA_OWNER_DEVICE Hw1 Hl1)) as Hr2.
  exists s1, (set_state (count_owner (-1) 1 (state s1)) (set_owner p i DMA_OWNER_DEVICE s1)).
  rewrite (mark_initialized_live s p i r Hw Hl), (to_device_live s1 p i r1 Hw1 Hl1), Ho.
  change (rec_owner r1) with (rec_owner r). rewrite Ho. split; [done|]. split; [done|]. split; [done|].
  split; [by apply (relabel_live s1 _ p i r1 DMA_OWNER_DEVICE true)|]. split; [|done].
  intros q. rewrite (relabel_ownership s1 _ p i r1 DMA_OWNER_DEVICE true Hw1 Hw2 Hl1 Hr2 q).
  case_decide as Hq; [done|].
  rewrite (relabel_ownership s s1 p i r _ _ Hw Hw1 Hl (proj1 (set_prepared_eq s p i r Hw Hl)) q).
  by rewrite decide_False.
Qed.

Lemma view_reset_wf a : length (ar_blocks a) = DMA_ARENA_MAX_BLOCKS ->
  0 < ar_base a -> ar_base a mod DMA_ARENA_MINIMUM_ALIGNMENT = 0 ->
  0 < ar_size a -> ar_size a mod DMA_ARENA_MINIMUM_ALIGNMENT = 0 -> ar_base a + ar_size a < 2 ^ 64 ->
  arena_wf (set_active true (view_reset a)) [Block 0 (ar_size a) false].
Proof.
  intros Hl Hb Hbm Hs Hsm He. constructor; cbn; try done; try lia.
  split; [by rewrite length_insert|]. split; [unfold DMA_ARENA_MAX_BLOCKS; lia|].
  by destruct (ar_blocks a).
Qed.

Lemma page_multiple n : (n * RSD_PAGE_SIZE) mod DMA_ARENA_MINIMUM_ALIGNMENT = 0.
Proof. apply Z.mod_divide; [done|]. exists (n * 256). unfold RSD_PAGE_SIZE, DMA_ARENA_MINIMUM_ALIGNMENT. lia. Qed.

(** Creating an inactive arena of 1 or more pages either yields one free block
    over fresh, zeroed, page-aligned memory inside the address bound, which the
    DMA foundation records as prepared and owned by the device (so that a bus
    master request may name it), with every other allocation untouched; or fails
    with every allocation, every free frame and all memory as before and the arena
    still inactive. *)
Theorem dma_arena_create_correct `{address_space} a n limit s m :
  dma_wf s -> (forall i r, ~ live s (ar_allocation a) i r) -> ar_active a = false ->
  length (ar_blocks a) = DMA_ARENA_MAX_BLOCKS -> fits 64 n -> fits 64 limit ->
  next_contiguous_identifier (physical s) + 1 < 2 ^ 64 ->
  match dma_arena_create (Some a) n limit s m with
  | (DMA_ARENA_STATUS_OK, Some a', s', m') =>
      dma_wf s' /\ arena_wf a' [Block 0 (n * RSD_PAGE_SIZE) false] /\
      ar_size a' = n * RSD_PAGE_SIZE /\ ar_base a' + ar_size a' - 1 <= limit /\
      (exists i r, backed a' s' i r) /\ ar_allocation a' = ar_allocation a /\
      at_address (ar_allocation a) (Some (DMA_OWNER_DEVICE, true)) s s' /\
      used_window (physical s) (physical s') (ar_base a' / RSD_PAGE_SIZE) n true /\
      (forall y, m' !! y = if decide (ar_base a' <= y < ar_base a' + ar_size a') then Some 0 else m !! y)
  | (st, a', s', m') =>
      (st = DMA_ARENA_STATUS_BAD_SIZE \/ st = DMA_ARENA_STATUS_DMA_FAILURE) /\ a' = Some a /\ m' = m /\
      dma_wf s' /\ (forall q, ownership s' q = ownership s q) /\
      (forall g, frame_is_free (physical s') g = frame_is_free (physical s) g)
  end.
Proof.
  intros Hw Hfresh Hin Hlen Hn Hlim Hnext. unfold dma_arena_create. rewrite Hin.
  destruct ((n =? 0) || (UINT64_MAX / RSD_PAGE_SIZE <? n)) eqn:Hbad; [by auto 10|].
  set (request := DmaRequest n RSD_PAGE_SIZE limit).
  assert (Hfits : request_fits (frame_request request)) by (by repeat split; first [apply Hn | apply Hlim | done]).
  pose proof (dma_allocate_cases s (ar_allocation a) request Hw Hfresh Hfits Hnext) as Hc.
  destruct (dma_allocate _ _ s) as [st s1].
  destruct Hc as [(-> & index & free & fa & f & Hi & Hfr & Ht & Hm & ->)|(Hst & Hw' & Ho & Hf & _)].
  2: { destruct Hst as [->| ->]; by auto 10. }
  destruct (allocated_run s request fa f Hw Hfits Hnext Ht)
    as (first & Hfirst & Hcount & Hb & Hf0 & Hn0 & Hfc & Hmax & Hrun & Hwin).
  pose proof (allocated_wf s (ar_allocation a) request Hw Hfresh Hfits Hnext index free fa f Hi Hfr Ht) as Hw1.
  pose proof (allocated_ownership s (ar_allocation a) request Hw Hfresh Hfits Hnext index free fa f Hi Hfr Ht) as Ho1.
  set (s1 := allocated_state s (ar_allocation a) index fa f) in *.
  set (r1 := DmaRecord (Some (ar_allocation a)) fa DMA_OWNER_CPU false true).
  assert (Hl1 : live s1 (ar_allocation a) index r1).
  { split; [|done]. apply list_lookup_insert_eq. by eapply lookup_lt_Some. }
  destruct (prepare_live s1 _ index r1 Hw1 Hl1 eq_refl) as (s2 & s3 & -> & -> & Hw3 & Hl3 & Ho3 & Hp3).
  cbn [dr_page_count request dr_maximum_physical_address] in *. change (4294967296 / 4096) with 1048576 in Hfc.
  assert (Hh : handles s1 !!! ar_allocation a =
    DmaAllocation fa (first * RSD_PAGE_SIZE) (n * RSD_PAGE_SIZE) DMA_OWNER_CPU false true).
  { cbn [s1 allocated_state handles]. by rewrite lookup_total_insert_eq, Hfirst, Hb. }
  rewrite Hh. cbn [da_cpu_address da_byte_length set_region ar_base ar_size].
  assert (Hrange : 0 < first * RSD_PAGE_SIZE /\ 0 < n * RSD_PAGE_SIZE /\
    first * RSD_PAGE_SIZE + n * RSD_PAGE_SIZE < 2 ^ 64).
  { change FRAME_COUNT with 1048576 in Hfc. unfold RSD_PAGE_SIZE. lia. }
  split; [done|]. split; [|split; [done|]].
  { apply (view_reset_wf (set_region (first * RSD_PAGE_SIZE) (n * RSD_PAGE_SIZE) a));
      cbn [set_region ar_blocks ar_base ar_size]; try done; try apply page_multiple; lia. }
  cbn [set_active view_reset set_region ar_base ar_size ar_allocation]. split; [lia|]. split.
  { exists index, (relabelled r1 DMA_OWNER_DEVICE true). split; [done|]. split; [done|].
    split; [done|]. cbn [relabelled rec_frames r1]. unfold bytes. by rewrite Hcount. }
  split; [done|]. split; [|split].
  - intros q. rewrite (Ho3 q). case_decide as Hq; [done|]. rewrite (Ho1 q). by rewrite decide_False.
  - rewrite Hp3. by rewrite Z.div_mul.
  - intros y. rewrite zero_bytes_lookup, Z2Nat.id by lia. done.
Qed.

(** Destroying an arena is refused while any block is live, with nothing
    changed; otherwise the backing allocation leaves the device's ownership, its
    frames are returned to the allocator, no other allocation is touched, and the
    arena is inactive. *)
Theorem dma_arena_destroy_correct a l s i r :
  arena_wf a l -> dma_wf s -> backed a s i r ->
  (used_blocks l <> [] -> dma_arena_destroy (Some a) s = (DMA_ARENA_STATUS_BUSY, Some a, s)) /\
  (used_blocks l = [] -> exists a' s', dma_arena_destroy (Some a) s = (DMA_ARENA_STATUS_OK, Some a', s') /\
     dma_wf s' /\ ar_active a' = false /\ at_address (ar_allocation a) None s s' /\
     forall g, frame_is_free (physical s') g =
       if decide (ar_base a <= g * RSD_PAGE_SIZE < ar_base a + ar_size a) then true
       else frame_is_free (physical s) g).
Proof.
  intros H Hw (Hl & Ho & Hbase & Hsize). unfold dma_arena_destroy. rewrite (aw_active _ _ H). cbn [negb].
  rewrite (aw_live _ _ H). split.
  { intros Hu. destruct (used_blocks l); [done|]. done. }
  intros ->. cbn [length Z.of_nat Z.eqb negb].
  pose proof (to_cpu_wf s _ i r Hw Hl Ho) as Hw1.
  pose proof (proj1 (set_owner_eq s _ i r DMA_OWNER_CPU Hw Hl)) as Hr1.
  rewrite (to_cpu_live s _ i r Hw Hl), Ho. cbn [DMA_OWNER_DEVICE Z.eqb Pos.eqb]. cbv zeta.
  change (state (set_owner (ar_allocation a) i DMA_OWNER_CPU s)) with (state s).
  set (s1 := set_state (count_owner 1 (-1) (state s)) (set_owner (ar_allocation a) i DMA_OWNER_CPU s)) in *.
  set (r1 := relabelled r DMA_OWNER_CPU (rec_initialized r)) in *.
  assert (Hl1 : live s1 (ar_allocation a) i r1) by by apply (relabel_live s s1).
  pose proof (release_live s1 _ i r1 Hw1 Hl1) as Hrel. cbn [r1 relabelled rec_owner] in Hrel.
  rewrite Z.eqb_refl in Hrel. destruct Hrel as (j & q & Hown & Hrel). rewrite Hrel.
  eexists _, _. split; [reflexivity|]. split; [by eapply released_wf|]. split; [done|]. split.
  - intros x. pose proof (dma_event_live EvRelease s1 _ i r1 Hw1 Hl1) as Hev. cbn [dma_event] in Hev.
    rewrite Hrel, (ownership_live s1 _ i r1 Hw1 Hl1) in Hev. destruct Hev as (_ & _ & Hat). rewrite (Hat x).
    case_decide as Hx; [done|].
    rewrite (relabel_ownership s s1 _ i r _ _ Hw Hw1 Hl Hr1 x). by rewrite decide_False.
  - intros g. rewrite (released_free s1 _ i r1 Hw1 j q g Hown). cbn [r1 relabelled rec_frames physical s1 set_state set_owner].
    destruct (ro_frames s r (proj1 (live_handle s _ i r Hw Hl))) as (k & c & Hk & Hc & _ & Hcb & Hcn).
    destruct (wf_runs _ (dw_physical s Hw) k c Hk Hc) as [Hrun _ _ _ _].
    rewrite <- Hbase, <- Hsize, <- Hcb. unfold bytes. rewrite <- Hcn, Hrun. rewrite Z.div_mul by done.
    unfold RSD_PAGE_SIZE. repeat case_decide; done || lia.
Qed.

(** ** A concrete arena *)

Module ArenaSamples.
(** Two pages at 1 MiB, and the structure before it is created. *)
Definition raw : dma_arena :=
  Arena 0x9000 0 0 0 0 0 0 0 (replicate DMA_ARENA_MAX_BLOCKS (Block 0 0 false)) false.
Definition empty : dma_arena := set_active true (view_reset (set_region 0x100000 8192 raw)).
Definition empty_blocks : list block := [Block 0 8192 false].

Lemma empty_wf : arena_wf empty empty_blocks.
Proof. by apply (view_reset_wf (set_region 0x100000 8192 raw)). Qed.

(** 100 bytes at the default alignment, then 64 at 1 KiB behind a pad. *)
Definition first : dma_arena := default empty (dma_arena_allocate (Some empty) 100 1 ∅).1.2.
Definition second : dma_arena := default empty (dma_arena_allocate (Some first) 64 1024 ∅).1.2.
Definition first_blocks : list block := [Block 0 112 true; Block 112 8080 false].
Definition second_blocks : list block :=
  [Block 0 112 true; Block 112 912 false; Block 1024 64 true; Block 1088 7104 false].

Lemma first_wf : arena_wf first first_blocks.
Proof.
  destruct (allocate_wf empty empty_blocks ∅ 100 1 (Some 0x100000) first
    (zero_bytes 0x100000 112 ∅)) as [l Hl]; [apply empty_wf|done|done|vm_compute; reflexivity|].
  assert (l = first_blocks) as -> by (destruct (aw_table _ _ Hl) as (_ & _ & <-); reflexivity). done.
Qed.

Lemma second_ok : dma_arena_allocate (Some first) 64 1024 ∅ =
  (Some 0x100400, Some second, zero_bytes 0x100400 64 ∅).
Proof. vm_compute. reflexivity. Qed.

Lemma second_wf : arena_wf second second_blocks.
Proof.
  destruct (allocate_wf first first_blocks ∅ 64 1024 _ second _ first_wf ltac:(done) ltac:(done) second_ok)
    as [l Hl].
  assert (l = second_blocks) as -> by (destruct (aw_table _ _ Hl) as (_ & _ & <-); reflexivity). done.
Qed.

Lemma dma_arena_allocate_correct_witness :
  dma_arena_allocate (Some first) 64 1024 ∅ = (Some 0x100400, Some second, zero_bytes 0x100400 64 ∅) /\
  0x100400 mod arena_alignment 1024 = 0.
Proof.
  split; [exact second_ok|].
  pose proof (dma_arena_allocate_correct first first_blocks ∅ 64 1024 first_wf ltac:(done) ltac:(done)) as H.
  rewrite second_ok in H. exact (proj1 (proj2 H)).
Defined.

Lemma dma_arena_free_correct_witness :
  (dma_arena_free (Some second) (Some 0x100000)).1 = DMA_ARENA_STATUS_OK /\
  dma_arena_free (Some second) (Some 0x100070) = (DMA_ARENA_STATUS_DOUBLE_FREE, Some second).
Proof.
  split; [vm_compute; reflexivity|].
  pose proof (dma_arena_free_correct second second_blocks 0x100070 second_wf) as H.
  assert (E : (dma_arena_free (Some second) (Some 0x100070)).1 = DMA_ARENA_STATUS_DOUBLE_FREE)
    by (vm_compute; reflexivity).
  destruct (dma_arena_free (Some second) (Some 0x100070)) as [st a']. cbn in E. subst st.
  f_equal. exact (proj1 H).
Defined.

Lemma dma_arena_allocate_free_roundtrip_witness :
  exists a2, dma_arena_free (Some second) (Some 0x100400) = (DMA_ARENA_STATUS_OK, Some a2) /\
    arena_wf a2 first_blocks.
Proof.
  destruct (dma_arena_allocate_free_roundtrip first first_blocks ∅ 64 1024 _ second _ first_wf
    ltac:(done) ltac:(done) second_ok) as (a2 & H1 & H2 & _). exists a2. exact (conj H1 H2).
Defined.

Lemma sample_fits : Forall block_fits (ar_blocks second).
Proof.
  apply (bool_decide_unpack _). vm_compute. exact I.
Qed.

Lemma dma_arena_verify_exact_witness : dma_arena_verify (Some second) = DMA_ARENA_STATUS_OK.
Proof.
  assert (Hs : fits 64 (ar_size second)) by (vm_compute; split; [discriminate|reflexivity]).
  apply (proj2 (dma_arena_verify_exact second eq_refl sample_fits Hs)).
  split; [reflexivity|]. split; [vm_compute; lia|].
  split; [exact (layout_coarsen _ _ _ _ _ (aw_layout _ _ second_wf))|]. split; vm_compute; reflexivity.
Defined.

Lemma dma_arena_queries_exact_witness :
  dma_arena_allocation_size (Some second) (Some 0x100400) = 64.
Proof.
  apply (proj1 (dma_arena_queries_exact second second_blocks 0x100400 0 second_wf ltac:(done))
    (Block 1024 64 true)); [|reflexivity].
  apply used_blocks_In. split; [reflexivity|]. apply list_elem_of_In. cbn. auto.
Defined.

Lemma dma_arena_reachable_safe_witness : dma_arena_verify (Some second) = DMA_ARENA_STATUS_OK.
Proof.
  refine (proj1 (dma_arena_reachable_safe first first_blocks ∅ second (zero_bytes 0x100400 64 ∅) first_wf _)).
  apply rtc_once. exact (step_arena_allocate first ∅ 64 1024 _ second _ ltac:(done) ltac:(done) second_ok).
Defined.

(** The same two pages taken from the foundation of [Dma.Samples]. *)
#[local] Existing Instance Samples.identity_space.

Definition created := dma_arena_create (Some raw) 2 0x1FFFFF Samples.started ∅.
Definition created_arena : dma_arena := default raw created.1.1.2.
Definition created_dma : dma := created.1.2.

Lemma created_status : created.1.1.1 = DMA_ARENA_STATUS_OK.
Proof. vm_compute. reflexivity. Qed.

Lemma dma_arena_create_correct_witness :
  created.1.1.1 = DMA_ARENA_STATUS_OK /\
  dma_wf created_dma /\ arena_wf created_arena [Block 0 (2 * RSD_PAGE_SIZE) false] /\
  exists i r, backed created_arena created_dma i r.
Proof.
  split; [exact created_status|].
  pose proof (dma_arena_create_correct raw 2 0x1FFFFF Samples.started ∅ Samples.started_wf
    (Samples.started_dead 0x9000) eq_refl eq_refl ltac:(done) ltac:(done) eq_refl) as H.
  change (dma_arena_create (Some raw) 2 2097151 Samples.started ∅) with created in H.
  pose proof created_status as E. unfold created_dma, created_arena.
  destruct created as [[[st [x|]] s] m]; cbn [fst snd] in E; subst st; [|by destruct H as [[?|?] _]].
  destruct H as (H1 & H2 & _ & _ & H3 & _). exact (conj H1 (conj H2 H3)).
Defined.

(** The allocation of [Dma.Samples] handed to the device, behind an arena whose
    embedded structure it is. *)
Definition handed : dma :=
  (dma_transfer_to_device (Some 0x8000) (dma_mark_initialized (Some 0x8000) Samples.claimed).2).2.
Definition standing : dma_arena :=
  set_active true (view_reset (set_region 0x100000 8192
    (Arena 0x8000 0 0 0 0 0 0 0 (replicate DMA_ARENA_MAX_BLOCKS (Block 0 0 false)) false))).

Lemma handed_backed : dma_wf handed /\
  backed standing handed 0 (relabelled Samples.held DMA_OWNER_DEVICE true).
Proof.
  destruct (prepare_live Samples.claimed 0x8000 0 Samples.held Samples.claimed_wf Samples.claimed_live
    eq_refl) as (s1 & s2 & H1 & H2 & Hw & Hl & _). unfold handed. rewrite H1. cbn [snd]. rewrite H2. cbn [snd].
  split; [exact Hw|]. split; [exact Hl|]. split; [reflexivity|]. split; reflexivity.
Qed.

Lemma dma_arena_destroy_correct_witness :
  exists a' s', dma_arena_destroy (Some standing) handed = (DMA_ARENA_STATUS_OK, Some a', s') /\
    dma_wf s' /\ ar_active a' = false.
Proof.
  assert (Hw : arena_wf standing empty_blocks).
  { apply (view_reset_wf (set_region 0x100000 8192
      (Arena 0x8000 0 0 0 0 0 0 0 (replicate DMA_ARENA_MAX_BLOCKS (Block 0 0 false)) false))); done. }
  destruct (proj2 (dma_arena_destroy_correct standing empty_blocks handed 0 _ Hw (proj1 handed_backed)
    (proj2 handed_backed)) eq_refl) as (a' & s' & H1 & H2 & H3 & _).
  exists a', s'. exact (conj H1 (conj H2 H3)).
Defined.
End ArenaSamples.
