(* ===== verification/Multiboot2.v ===== *)
(** * Boot information parser ([src/kernel/multiboot2.c], [include/rsd/boot.h])

    The parser of what the boot loader left in memory.  Memory is a partial
    function from address to byte: reading where it is undefined is a fault, and
    every operation that reads is in the option monad, so that a value [Some _]
    says that the code read only where it may.  Pointers into the information are
    addresses, a null pointer is [None].  The loop over the tags has as much fuel
    as 8-byte tags fit in the information, the smallest step it can take. *)

From stdpp Require Import base option list numbers gmap.
From S2P Require Import Prelude Frames.

Definition MULTIBOOT2_BOOT_MAGIC : Z := 0x36D76289.
Definition MULTIBOOT2_TAG_ALIGNMENT : Z := 8.
Definition MULTIBOOT2_MAX_INFORMATION_SIZE : Z := 16 * 1024 * 1024.
Definition ACPI_RSDP_V1_SIZE : Z := 20.
Definition ACPI_RSDP_V2_SIZE : Z := 36.

Definition MULTIBOOT2_TAG_END : Z := 0.
Definition MULTIBOOT2_TAG_COMMAND_LINE : Z := 1.
Definition MULTIBOOT2_TAG_BOOT_LOADER_NAME : Z := 2.
Definition MULTIBOOT2_TAG_MODULE : Z := 3.
Definition MULTIBOOT2_TAG_MEMORY_MAP : Z := 6.
Definition MULTIBOOT2_TAG_FRAMEBUFFER : Z := 8.
Definition MULTIBOOT2_TAG_ACPI_OLD : Z := 14.
Definition MULTIBOOT2_TAG_ACPI_NEW : Z := 15.

Definition MULTIBOOT2_FRAMEBUFFER_COMMON_SIZE : Z := 32.
Definition MULTIBOOT2_FRAMEBUFFER_RGB_SIZE : Z := 38.
Definition MULTIBOOT2_FRAMEBUFFER_TYPE_RGB : Z := 1.
Definition BOOT_FRAMEBUFFER_BITS_PER_PIXEL : Z := 32.
Definition BOOT_FRAMEBUFFER_BYTES_PER_PIXEL : Z := BOOT_FRAMEBUFFER_BITS_PER_PIXEL / 8.

(** Sizes of the packed structures. *)
Definition sizeof_header : Z := 8.
Definition sizeof_tag : Z := 8.
Definition sizeof_memory_map_tag : Z := 16.
Definition sizeof_memory_map_entry : Z := 24.

Inductive boot_status :=
| BOOT_STATUS_OK
| BOOT_STATUS_NULL_CONTEXT
| BOOT_STATUS_BAD_MAGIC
| BOOT_STATUS_NULL_INFORMATION
| BOOT_STATUS_MISALIGNED_INFORMATION
| BOOT_STATUS_INFORMATION_TOO_SMALL
| BOOT_STATUS_INFORMATION_TOO_LARGE
| BOOT_STATUS_INFORMATION_SIZE_MISALIGNED
| BOOT_STATUS_INFORMATION_OVERFLOW
| BOOT_STATUS_RESERVED_FIELD_NONZERO
| BOOT_STATUS_TRUNCATED_TAG
| BOOT_STATUS_TAG_TOO_SMALL
| BOOT_STATUS_TAG_OVERFLOW
| BOOT_STATUS_DUPLICATE_MEMORY_MAP
| BOOT_STATUS_MEMORY_MAP_TOO_SMALL
| BOOT_STATUS_MEMORY_ENTRY_TOO_SMALL
| BOOT_STATUS_MEMORY_ENTRY_VERSION
| BOOT_STATUS_MEMORY_MAP_REMAINDER
| BOOT_STATUS_MEMORY_REGION_OVERFLOW
| BOOT_STATUS_UNSUPPORTED_MODULE
| BOOT_STATUS_STRING_NOT_TERMINATED
| BOOT_STATUS_ACPI_TAG_TOO_SMALL
| BOOT_STATUS_DUPLICATE_ACPI_TAG
| BOOT_STATUS_BAD_END_TAG
| BOOT_STATUS_MISSING_END_TAG
| BOOT_STATUS_MISSING_MEMORY_MAP
| BOOT_STATUS_DUPLICATE_FRAMEBUFFER
| BOOT_STATUS_FRAMEBUFFER_TAG_TOO_SMALL
| BOOT_STATUS_FRAMEBUFFER_NOT_DIRECT_COLOUR
| BOOT_STATUS_BAD_FRAMEBUFFER_DEPTH
| BOOT_STATUS_BAD_FRAMEBUFFER_GEOMETRY
| BOOT_STATUS_BAD_FRAMEBUFFER_PITCH
| BOOT_STATUS_BAD_FRAMEBUFFER_ADDRESS
| BOOT_STATUS_BAD_FRAMEBUFFER_CHANNEL
| BOOT_STATUS_FRAMEBUFFER_OUTSIDE_EARLY_MAP.

#[global] Instance boot_status_eq_dec : EqDecision boot_status.
Proof. solve_decision. Defined.

Record boot_framebuffer := Framebuffer {
  fb_address : Z;
  fb_pitch : Z;
  fb_width : Z;
  fb_height : Z;
  fb_size : Z;
  fb_bits_per_pixel : Z;
  fb_red_position : Z;
  fb_green_position : Z;
  fb_blue_position : Z;
  fb_present : bool
}.

Record boot_information := Information {
  bi_start : Z;
  bi_end : Z;
  bi_memory_map : option Z;
  bi_acpi_old : option Z;
  bi_acpi_new : option Z;
  bi_boot_loader_name : option Z;
  bi_command_line : option Z;
  bi_boot_loader_name_length : Z;
  bi_command_line_length : Z;
  bi_memory_map_entry_count : Z;
  bi_reported_usable_bytes : Z;
  bi_highest_reported_address : Z;
  bi_framebuffer : boot_framebuffer
}.

(** ** Field updates *)

Definition set_span (start end_ : Z) (c : boot_information) : boot_information :=
  Information start end_ (bi_memory_map c) (bi_acpi_old c) (bi_acpi_new c) (bi_boot_loader_name c)
    (bi_command_line c) (bi_boot_loader_name_length c) (bi_command_line_length c)
    (bi_memory_map_entry_count c) (bi_reported_usable_bytes c) (bi_highest_reported_address c)
    (bi_framebuffer c).

Definition set_map (map : Z) (count : Z) (c : boot_information) : boot_information :=
  Information (bi_start c) (bi_end c) (Some map) (bi_acpi_old c) (bi_acpi_new c)
    (bi_boot_loader_name c) (bi_command_line c) (bi_boot_loader_name_length c)
    (bi_command_line_length c) count (bi_reported_usable_bytes c) (bi_highest_reported_address c)
    (bi_framebuffer c).

Definition set_totals (usable highest : Z) (c : boot_information) : boot_information :=
  Information (bi_start c) (bi_end c) (bi_memory_map c) (bi_acpi_old c) (bi_acpi_new c)
    (bi_boot_loader_name c) (bi_command_line c) (bi_boot_loader_name_length c)
    (bi_command_line_length c) (bi_memory_map_entry_count c) usable highest (bi_framebuffer c).

Definition set_acpi (new : bool) (tag : Z) (c : boot_information) : boot_information :=
  Information (bi_start c) (bi_end c) (bi_memory_map c)
    (if new then bi_acpi_old c else Some tag) (if new then Some tag else bi_acpi_new c)
    (bi_boot_loader_name c) (bi_command_line c) (bi_boot_loader_name_length c)
    (bi_command_line_length c) (bi_memory_map_entry_count c) (bi_reported_usable_bytes c)
    (bi_highest_reported_address c) (bi_framebuffer c).

Definition set_framebuffer (fb : boot_framebuffer) (c : boot_information) : boot_information :=
  Information (bi_start c) (bi_end c) (bi_memory_map c) (bi_acpi_old c) (bi_acpi_new c)
    (bi_boot_loader_name c) (bi_command_line c) (bi_boot_loader_name_length c)
    (bi_command_line_length c) (bi_memory_map_entry_count c) (bi_reported_usable_bytes c)
    (bi_highest_reported_address c) fb.

Definition set_loader_name (string length : Z) (c : boot_information) : boot_information :=
  Information (bi_start c) (bi_end c) (bi_memory_map c) (bi_acpi_old c) (bi_acpi_new c)
    (Some string) (bi_command_line c) length (bi_command_line_length c)
    (bi_memory_map_entry_count c) (bi_reported_usable_bytes c) (bi_highest_reported_address c)
    (bi_framebuffer c).

Definition set_command_line (string length : Z) (c : boot_information) : boot_information :=
  Information (bi_start c) (bi_end c) (bi_memory_map c) (bi_acpi_old c) (bi_acpi_new c)
    (bi_boot_loader_name c) (Some string) (bi_boot_loader_name_length c) length
    (bi_memory_map_entry_count c) (bi_reported_usable_bytes c) (bi_highest_reported_address c)
    (bi_framebuffer c).

(** ** Helpers *)

Definition range_fits (offset length total : Z) : bool :=
  (offset <=? total) && (length <=? u64 (total - offset)).

Definition align_tag_size (size : Z) : Z :=
  let mask := MULTIBOOT2_TAG_ALIGNMENT - 1 in u64 (size + mask) .& not64 mask.

Definition boot_information_reset (context : boot_information) : boot_information :=
  Information 0 0 None None None None None 0 0 0 0 0 (Framebuffer 0 0 0 0 0 0 0 0 0 false).

Section Parser.
(** The readable bytes. *)
Context (mem : Z -> option Z).

Definition read_u32 (bytes : Z) : option Z :=
  b0 ← mem bytes; b1 ← mem (bytes + 1); b2 ← mem (bytes + 2); b3 ← mem (bytes + 3);
  Some (b0 .| (b1 .<< 8) .| (b2 .<< 16) .| (b3 .<< 24)).

Definition read_u64 (bytes : Z) : option Z :=
  low ← read_u32 bytes; high ← read_u32 (bytes + 4); Some (low .| (high .<< 32)).

(** The scan for the terminating zero: [n] bytes left from [index]. *)
Fixpoint scan_string (tag : Z) (n : nat) (index : Z) : option (option Z) :=
  match n with
  | O => Some None
  | S n =>
      b ← mem (tag + index);
      if b =? 0 then Some (Some (index - sizeof_tag)) else scan_string tag n (index + 1)
  end.

Definition string_length_within (tag tag_size : Z) : option (option Z) :=
  if tag_size <=? sizeof_tag then Some None
  else scan_string tag (Z.to_nat (tag_size - sizeof_tag)) sizeof_tag.

(** ** The memory map *)

Definition boot_information_region_at (context : boot_information) (index : Z) :
    option (option boot_memory_region) :=
  match bi_memory_map context with
  | None => Some None
  | Some map =>
      if bi_memory_map_entry_count context <=? index then Some None
      else
        entry_size ← read_u32 (map + 8);
        let entry := map + sizeof_memory_map_tag + u64 (index * entry_size) in
        base ← read_u64 entry; length ← read_u64 (entry + 8); type ← read_u32 (entry + 16);
        Some (Some (Region base length type))
  end.

(** The loop over the regions: [n] left from [index]. *)
Fixpoint check_regions (n : nat) (index : Z) (c : boot_information) :
    option (boot_status * boot_information) :=
  match n with
  | O => Some (BOOT_STATUS_OK, c)
  | S n =>
      found ← boot_information_region_at c index;
      match found with
      | None => Some (BOOT_STATUS_TRUNCATED_TAG, c)
      | Some region =>
          if u64 (UINT64_MAX - base_address region) <? region_length region then
            Some (BOOT_STATUS_MEMORY_REGION_OVERFLOW, c)
          else
            let region_end := u64 (base_address region + region_length region) in
            let highest :=
              if bi_highest_reported_address c <? region_end then region_end
              else bi_highest_reported_address c in
            let usable :=
              if region_type region =? MULTIBOOT2_MEMORY_AVAILABLE then
                if u64 (UINT64_MAX - bi_reported_usable_bytes c) <? region_length region then UINT64_MAX
                else u64 (bi_reported_usable_bytes c + region_length region)
              else bi_reported_usable_bytes c in
            check_regions n (index + 1) (set_totals usable highest c)
      end
  end.

Definition validate_memory_map (map : Z) (c : boot_information) :
    option (boot_status * boot_information) :=
  tag_size ← read_u32 (map + 4);
  if tag_size <? sizeof_memory_map_tag then Some (BOOT_STATUS_MEMORY_MAP_TOO_SMALL, c)
  else
    entry_size ← read_u32 (map + 8);
    if entry_size <? sizeof_memory_map_entry then Some (BOOT_STATUS_MEMORY_ENTRY_TOO_SMALL, c)
    else
      entry_version ← read_u32 (map + 12);
      if negb (entry_version =? 0) then Some (BOOT_STATUS_MEMORY_ENTRY_VERSION, c)
      else
        let payload_size := tag_size - sizeof_memory_map_tag in
        if negb (payload_size mod entry_size =? 0) then Some (BOOT_STATUS_MEMORY_MAP_REMAINDER, c)
        else
          let entry_count := payload_size / entry_size in
          check_regions (Z.to_nat entry_count) 0 (set_map map entry_count c).

(** ** The framebuffer *)

Definition channel_ok (position mask_size : Z) : bool :=
  (mask_size =? 8) && (position mod 8 =? 0) && (position <? BOOT_FRAMEBUFFER_BITS_PER_PIXEL).

Definition decode_framebuffer (tag : Z) (fb : boot_framebuffer) :
    option (boot_status * boot_framebuffer) :=
  tag_size ← read_u32 (tag + 4);
  if tag_size <? MULTIBOOT2_FRAMEBUFFER_COMMON_SIZE then
    Some (BOOT_STATUS_FRAMEBUFFER_TAG_TOO_SMALL, fb)
  else
    address ← read_u64 (tag + 8); pitch ← read_u32 (tag + 16); width ← read_u32 (tag + 20);
    height ← read_u32 (tag + 24); depth ← mem (tag + 28); kind ← mem (tag + 29);
    if negb (kind =? MULTIBOOT2_FRAMEBUFFER_TYPE_RGB) then
      Some (BOOT_STATUS_FRAMEBUFFER_NOT_DIRECT_COLOUR, fb)
    else if tag_size <? MULTIBOOT2_FRAMEBUFFER_RGB_SIZE then
      Some (BOOT_STATUS_FRAMEBUFFER_TAG_TOO_SMALL, fb)
    else if negb (depth =? BOOT_FRAMEBUFFER_BITS_PER_PIXEL) then
      Some (BOOT_STATUS_BAD_FRAMEBUFFER_DEPTH, fb)
    else if (width =? 0) || (height =? 0) then Some (BOOT_STATUS_BAD_FRAMEBUFFER_GEOMETRY, fb)
    else if (pitch <? u64 (width * BOOT_FRAMEBUFFER_BYTES_PER_PIXEL)) ||
            negb (pitch mod BOOT_FRAMEBUFFER_BYTES_PER_PIXEL =? 0) then
      Some (BOOT_STATUS_BAD_FRAMEBUFFER_PITCH, fb)
    else if (address =? 0) || negb (address mod BOOT_FRAMEBUFFER_BYTES_PER_PIXEL =? 0) then
      Some (BOOT_STATUS_BAD_FRAMEBUFFER_ADDRESS, fb)
    else
      let size := u64 (pitch * height) in
      if (size =? 0) || (RSD_EARLY_PHYSICAL_LIMIT <? size) ||
         (u64 (RSD_EARLY_PHYSICAL_LIMIT - size) <? address) then
        Some (BOOT_STATUS_FRAMEBUFFER_OUTSIDE_EARLY_MAP, fb)
      else
        p0 ← mem (tag + 32); p1 ← mem (tag + 34); p2 ← mem (tag + 36);
        m0 ← mem (tag + 33); m1 ← mem (tag + 35); m2 ← mem (tag + 37);
        if negb (channel_ok p0 m0 && channel_ok p1 m1 && channel_ok p2 m2) then
          Some (BOOT_STATUS_BAD_FRAMEBUFFER_CHANNEL, fb)
        else if (p0 =? p1) || (p1 =? p2) || (p0 =? p2) then
          Some (BOOT_STATUS_BAD_FRAMEBUFFER_CHANNEL, fb)
        else
          Some (BOOT_STATUS_OK, Framebuffer address pitch width height size depth p0 p1 p2 true).

(** ** The tags *)

(** What one iteration of the loop does. *)
Inductive tag_step :=
| Refuse (status : boot_status) (context : boot_information)
| Finish (context : boot_information)
| Continue (offset : Z) (context : boot_information).

(** The tag at [tag] of a known type handled, before the step to the next one. *)
Definition dispatch_tag (tag type tag_size : Z) (c : boot_information) :
    option (boot_status * boot_information) :=
  if type =? MULTIBOOT2_TAG_MEMORY_MAP then
    match bi_memory_map c with
    | Some _ => Some (BOOT_STATUS_DUPLICATE_MEMORY_MAP, c)
    | None => validate_memory_map tag c
    end
  else if type =? MULTIBOOT2_TAG_MODULE then Some (BOOT_STATUS_UNSUPPORTED_MODULE, c)
  else if (type =? MULTIBOOT2_TAG_ACPI_OLD) || (type =? MULTIBOOT2_TAG_ACPI_NEW) then
    let new := type =? MULTIBOOT2_TAG_ACPI_NEW in
    let minimum_payload := if new then ACPI_RSDP_V2_SIZE else ACPI_RSDP_V1_SIZE in
    if tag_size <? sizeof_tag + minimum_payload then Some (BOOT_STATUS_ACPI_TAG_TOO_SMALL, c)
    else
      match if new then bi_acpi_new c else bi_acpi_old c with
      | Some _ => Some (BOOT_STATUS_DUPLICATE_ACPI_TAG, c)
      | None => Some (BOOT_STATUS_OK, set_acpi new tag c)
      end
  else if type =? MULTIBOOT2_TAG_FRAMEBUFFER then
    if fb_present (bi_framebuffer c) then Some (BOOT_STATUS_DUPLICATE_FRAMEBUFFER, c)
    else
      decoded ← decode_framebuffer tag (bi_framebuffer c);
      let '(status, fb) := decoded in Some (status, set_framebuffer fb c)
  else if (type =? MULTIBOOT2_TAG_BOOT_LOADER_NAME) || (type =? MULTIBOOT2_TAG_COMMAND_LINE) then
    scanned ← string_length_within tag tag_size;
    match scanned with
    | None => Some (BOOT_STATUS_STRING_NOT_TERMINATED, c)
    | Some length =>
        if type =? MULTIBOOT2_TAG_BOOT_LOADER_NAME then
          Some (BOOT_STATUS_OK, set_loader_name (tag + sizeof_tag) length c)
        else Some (BOOT_STATUS_OK, set_command_line (tag + sizeof_tag) length c)
    end
  else Some (BOOT_STATUS_OK, c).

Definition parse_tag (bytes total_size offset : Z) (c : boot_information) : option tag_step :=
  if negb (range_fits offset sizeof_tag total_size) then Some (Refuse BOOT_STATUS_TRUNCATED_TAG c)
  else
    let tag := bytes + offset in
    tag_size ← read_u32 (tag + 4);
    if tag_size <? sizeof_tag then Some (Refuse BOOT_STATUS_TAG_TOO_SMALL c)
    else if negb (range_fits offset tag_size total_size) then Some (Refuse BOOT_STATUS_TAG_OVERFLOW c)
    else
      type ← read_u32 tag;
      if type =? MULTIBOOT2_TAG_END then
        if negb (tag_size =? sizeof_tag) || negb (u64 (offset + tag_size) =? total_size) then
          Some (Refuse BOOT_STATUS_BAD_END_TAG c)
        else Some (Finish c)
      else
        handled ← dispatch_tag tag type tag_size c;
        match handled with
        | (BOOT_STATUS_OK, c) =>
            let aligned_size := align_tag_size tag_size in
            if (aligned_size <? tag_size) || negb (range_fits offset aligned_size total_size) then
              Some (Refuse BOOT_STATUS_TAG_OVERFLOW c)
            else Some (Continue (u64 (offset + aligned_size)) c)
        | (status, c) => Some (Refuse status c)
        end.

(** The loop over the tags, and what follows it. *)
Fixpoint parse_tags (fuel : nat) (bytes total_size offset : Z) (c : boot_information) :
    option (boot_status * boot_information) :=
  if total_size <=? offset then Some (BOOT_STATUS_MISSING_END_TAG, c)
  else
    match fuel with
    | O => None
    | S fuel =>
        step ← parse_tag bytes total_size offset c;
        match step with
        | Refuse status c => Some (status, c)
        | Continue offset c => parse_tags fuel bytes total_size offset c
        | Finish c =>
            match bi_memory_map c with
            | None => Some (BOOT_STATUS_MISSING_MEMORY_MAP, c)
            | Some _ => Some (BOOT_STATUS_OK, c)
            end
        end
    end.

Definition boot_information_parse (magic information_address : Z)
    (context : option boot_information) : option (boot_status * option boot_information) :=
  match context with
  | None => Some (BOOT_STATUS_NULL_CONTEXT, None)
  | Some c =>
      let c := boot_information_reset c in
      if negb (magic =? MULTIBOOT2_BOOT_MAGIC) then Some (BOOT_STATUS_BAD_MAGIC, Some c)
      else if information_address =? 0 then Some (BOOT_STATUS_NULL_INFORMATION, Some c)
      else if negb (information_address .& (MULTIBOOT2_TAG_ALIGNMENT - 1) =? 0) then
        Some (BOOT_STATUS_MISALIGNED_INFORMATION, Some c)
      else if RSD_EARLY_PHYSICAL_LIMIT - sizeof_header <? information_address then
        Some (BOOT_STATUS_INFORMATION_TOO_LARGE, Some c)
      else
        total_size ← read_u32 information_address;
        if total_size <? sizeof_header + sizeof_tag then
          Some (BOOT_STATUS_INFORMATION_TOO_SMALL, Some c)
        else if MULTIBOOT2_MAX_INFORMATION_SIZE <? total_size then
          Some (BOOT_STATUS_INFORMATION_TOO_LARGE, Some c)
        else if negb (total_size .& (MULTIBOOT2_TAG_ALIGNMENT - 1) =? 0) then
          Some (BOOT_STATUS_INFORMATION_SIZE_MISALIGNED, Some c)
        else if u64 (UINT64_MAX - total_size) <? information_address then
          Some (BOOT_STATUS_INFORMATION_OVERFLOW, Some c)
        else if RSD_EARLY_PHYSICAL_LIMIT <? u64 (information_address + total_size) then
          Some (BOOT_STATUS_INFORMATION_TOO_LARGE, Some c)
        else
          reserved ← read_u32 (information_address + 4);
          if negb (reserved =? 0) then Some (BOOT_STATUS_RESERVED_FIELD_NONZERO, Some c)
          else
            let c := set_span information_address (u64 (information_address + total_size)) c in
            parsed ← parse_tags (Z.to_nat (total_size / sizeof_tag)) information_address total_size
              sizeof_header c;
            let '(status, c) := parsed in Some (status, Some c)
  end.
End Parser.

(** ** Reads *)

Lemma lor_fits w a b : 0 <= w -> fits w a -> fits w b -> fits w (a .| b).
Proof.
  unfold fits. intros Hw Ha Hb. split; [apply Z.lor_nonneg; lia|].
  destruct (Z.eq_dec (a .| b) 0) as [->|Hz]; [lia|].
  assert (0 <= a .| b) by (apply Z.lor_nonneg; lia). apply Z.log2_lt_pow2; [lia|].
  rewrite Z.log2_lor by lia. apply Z.max_lub_lt.
  - destruct (Z.eq_dec a 0) as [->|]; [|by apply Z.log2_lt_pow2; lia].
    destruct (Z.eq_dec w 0) as [->|]; [|cbn; lia]. exfalso. apply Hz.
    assert (b = 0) as -> by lia. done.
  - destruct (Z.eq_dec b 0) as [->|]; [|by apply Z.log2_lt_pow2; lia].
    destruct (Z.eq_dec w 0) as [->|]; [|cbn; lia]. exfalso. apply Hz.
    assert (a = 0) as -> by lia. done.
Qed.

Lemma shiftl_fits w n a : 0 <= n <= w -> fits (w - n) a -> fits w (a .<< n).
Proof.
  unfold fits. intros Hn Ha. rewrite Z.shiftl_mul_pow2 by lia.
  replace w with (w - n + n) by lia. rewrite Z.pow_add_r by lia. nia.
Qed.

Lemma fits_weaken v w x : 0 <= v <= w -> fits v x -> fits w x.
Proof.
  unfold fits. intros Hv Hx. assert (2 ^ v <= 2 ^ w) by (apply Z.pow_le_mono_r; lia). lia.
Qed.

(** Every address of [lo, hi) holds a byte. *)
Definition readable (mem : Z -> option Z) (lo hi : Z) : Prop :=
  forall a, lo <= a < hi -> exists b, mem a = Some b /\ fits 8 b.

Section Reads.
Context (mem : Z -> option Z) (lo hi : Z) (Hmem : readable mem lo hi).

Lemma read_u32_ok a : lo <= a -> a + 4 <= hi -> exists v, read_u32 mem a = Some v /\ fits 32 v.
Proof.
  intros Hlo Hhi. unfold read_u32.
  destruct (Hmem a) as (b0 & -> & H0); [lia|]. destruct (Hmem (a + 1)) as (b1 & -> & H1); [lia|].
  destruct (Hmem (a + 2)) as (b2 & -> & H2); [lia|]. destruct (Hmem (a + 3)) as (b3 & -> & H3); [lia|].
  eexists. split; [done|].
  repeat apply lor_fits; try lia; [by apply (fits_weaken 8); [lia|]|..];
    apply shiftl_fits; try lia; by apply (fits_weaken 8); [lia|].
Qed.

Lemma read_u64_ok a : lo <= a -> a + 8 <= hi -> exists v, read_u64 mem a = Some v /\ fits 64 v.
Proof.
  intros Hlo Hhi. unfold read_u64. destruct (read_u32_ok a) as (v & -> & Hv); [lia..|].
  destruct (read_u32_ok (a + 4)) as (u & -> & Hu); [lia..|]. eexists. split; [done|].
  apply lor_fits; [lia|by apply (fits_weaken 32); [lia|]|]. apply shiftl_fits; [lia|]. done.
Qed.

(** A scan inside readable bytes returns the first zero, if any. *)
Lemma scan_string_ok tag n index :
  lo <= tag + index -> tag + index + Z.of_nat n <= hi ->
  exists r, scan_string mem tag n index = Some r /\
    match r with
    | Some len => index <= len + sizeof_tag < index + Z.of_nat n /\
        mem (tag + sizeof_tag + len) = Some 0 /\
        forall x, index <= x < len + sizeof_tag -> mem (tag + x) <> Some 0
    | None => forall x, index <= x < index + Z.of_nat n -> mem (tag + x) <> Some 0
    end.
Proof.
  revert index. induction n as [|n IH]; intros index Hlo Hhi; cbn [scan_string].
  { exists None. split; [done|]. lia. }
  destruct (Hmem (tag + index)) as (b & Hb & _); [lia|]. rewrite Hb. cbn.
  destruct (Z.eqb_spec b 0) as [->|Hz].
  - exists (Some (index - sizeof_tag)). split; [done|]. split; [lia|]. split; [|lia].
    by replace (tag + sizeof_tag + (index - sizeof_tag)) with (tag + index) by lia.
  - destruct (IH (index + 1)) as (r & -> & Hr); [lia..|]. exists r. split; [done|].
    assert (Hx : forall x, index <= x -> (index + 1 <= x -> mem (tag + x) <> Some 0) -> mem (tag + x) <> Some 0).
    { intros x Hx H. destruct (Z.eq_dec x index) as [->|]; [congruence|]. apply H. lia. }
    destruct r as [len|].
    + destruct Hr as (? & ? & Hr). split; [lia|]. split; [done|]. intros x ?. apply Hx; [lia|]. intros. apply Hr. lia.
    + intros x ?. apply Hx; [lia|]. intros. apply Hr. lia.
Qed.
End Reads.

(** ** What a parse establishes *)

(** The string a context points at: inside the information, of the recorded
    length, with its terminating zero. *)
Definition string_ok (mem : Z -> option Z) (lo hi : Z) (s : option Z) (len : Z) : Prop :=
  match s with
  | None => len = 0
  | Some p => lo <= p /\ 0 <= len /\ p + len < hi /\ mem (p + len) = Some 0 /\
      forall x, 0 <= x < len -> mem (p + x) <> Some 0
  end.

Definition acpi_ok (lo hi minimum : Z) (tag : option Z) : Prop :=
  match tag with None => True | Some t => lo <= t /\ t + sizeof_tag + minimum <= hi end.

(** A framebuffer whose every pixel address is inside the early map, with rows
    that do not overlap and three distinct byte channels. *)
Definition framebuffer_ok (fb : boot_framebuffer) : Prop :=
  fb_present fb = true ->
  0 < fb_width fb /\ 0 < fb_height fb /\ 4 * fb_width fb <= fb_pitch fb /\
  fb_size fb = fb_pitch fb * fb_height fb /\
  0 < fb_address fb /\ fb_address fb mod 4 = 0 /\ fb_pitch fb mod 4 = 0 /\
  fb_address fb + fb_size fb <= RSD_EARLY_PHYSICAL_LIMIT /\
  fb_bits_per_pixel fb = 32 /\
  Forall (fun p => p = 0 \/ p = 8 \/ p = 16 \/ p = 24)
    [fb_red_position fb; fb_green_position fb; fb_blue_position fb] /\
  NoDup [fb_red_position fb; fb_green_position fb; fb_blue_position fb].

(** Totals over the regions: the available bytes, saturating, and the highest
    end. *)
Definition available_bytes (rs : list boot_memory_region) : Z :=
  Z.min UINT64_MAX
    (sumz (fun r => if region_type r =? MULTIBOOT2_MEMORY_AVAILABLE then region_length r else 0) rs).
Definition highest_end (rs : list boot_memory_region) : Z :=
  foldl (fun m r => Z.max m (base_address r + region_length r)) 0 rs.

Definition region_ok (r : boot_memory_region) : Prop :=
  fits 64 (base_address r) /\ fits 64 (region_length r) /\ base_address r + region_length r <= UINT64_MAX.

(** The regions [rs] are the first ones of the map at [map] inside the
    information, and the totals are theirs. *)
Record map_ok (mem : Z -> option Z) (lo hi : Z) (c : boot_information) (map : Z)
    (rs : list boot_memory_region) : Prop := MapOk {
  mo_inside : exists entry_size, read_u32 mem (map + 8) = Some entry_size /\
    sizeof_memory_map_entry <= entry_size < 2 ^ 32 /\ lo <= map /\
    map + sizeof_memory_map_tag + bi_memory_map_entry_count c * entry_size <= hi;
  mo_read : forall i r, rs !! i = Some r ->
    boot_information_region_at mem c (Z.of_nat i) = Some (Some r);
  mo_regions : Forall region_ok rs;
  mo_usable : bi_reported_usable_bytes c = available_bytes rs;
  mo_highest : bi_highest_reported_address c = highest_end rs
}.

(** No map was seen, or all its regions were. *)
Definition map_state (mem : Z -> option Z) (lo hi : Z) (c : boot_information) : Prop :=
  match bi_memory_map c with
  | None => bi_memory_map_entry_count c = 0 /\ bi_reported_usable_bytes c = 0 /\
      bi_highest_reported_address c = 0
  | Some map => exists rs, Z.of_nat (length rs) = bi_memory_map_entry_count c /\
      map_ok mem lo hi c map rs
  end.

Lemma map_state_ext mem lo hi c c' :
  bi_memory_map c' = bi_memory_map c ->
  bi_memory_map_entry_count c' = bi_memory_map_entry_count c ->
  bi_reported_usable_bytes c' = bi_reported_usable_bytes c ->
  bi_highest_reported_address c' = bi_highest_reported_address c ->
  map_state mem lo hi c -> map_state mem lo hi c'.
Proof.
  unfold map_state. intros Hm Hn Hu Hh. rewrite Hm. destruct (bi_memory_map c) as [map|] eqn:Em.
  - intros (rs & Hl & [Hi Hr Ho Hus Hhi]). exists rs. split; [congruence|].
    constructor; rewrite ?Hn, ?Hu, ?Hh; try done. intros i r Hir. rewrite <- (Hr i r Hir).
    unfold boot_information_region_at. by rewrite Hm, Em, Hn.
  - by rewrite Hn, Hu, Hh.
Qed.

Record context_ok (mem : Z -> option Z) (lo hi : Z) (c : boot_information) : Prop := ContextOk {
  co_start : bi_start c = lo;
  co_end : bi_end c = hi;
  co_map : map_state mem lo hi c;
  co_framebuffer : framebuffer_ok (bi_framebuffer c);
  co_name : string_ok mem lo hi (bi_boot_loader_name c) (bi_boot_loader_name_length c);
  co_command : string_ok mem lo hi (bi_command_line c) (bi_command_line_length c);
  co_acpi_old : acpi_ok lo hi ACPI_RSDP_V1_SIZE (bi_acpi_old c);
  co_acpi_new : acpi_ok lo hi ACPI_RSDP_V2_SIZE (bi_acpi_new c)
}.

Section Establish.
Context (mem : Z -> option Z) (lo hi : Z) (Hmem : readable mem lo hi).
Hypothesis Hlo : 0 <= lo.
Hypothesis Hhi : hi <= RSD_EARLY_PHYSICAL_LIMIT.

Lemma region_at_ok c map i entry_size :
  bi_memory_map c = Some map -> read_u32 mem (map + 8) = Some entry_size ->
  sizeof_memory_map_entry <= entry_size -> lo <= map -> 0 <= i < bi_memory_map_entry_count c ->
  map + sizeof_memory_map_tag + bi_memory_map_entry_count c * entry_size <= hi ->
  exists r, boot_information_region_at mem c i = Some (Some r) /\
    fits 64 (base_address r) /\ fits 64 (region_length r).
Proof.
  intros Hm He Hs Hl Hi Hend. unfold boot_information_region_at. rewrite Hm.
  destruct (Z.leb_spec (bi_memory_map_entry_count c) i); [lia|]. rewrite He. cbn.
  unfold RSD_EARLY_PHYSICAL_LIMIT, sizeof_memory_map_entry, sizeof_memory_map_tag in *.
  assert (0 <= i * entry_size /\ i * entry_size + entry_size <= bi_memory_map_entry_count c * entry_size) by nia.
  rewrite wrap_small by (unfold fits; lia).
  destruct (read_u64_ok mem lo hi Hmem (map + 16 + i * entry_size)) as (base & -> & Hb); [lia..|].
  destruct (read_u64_ok mem lo hi Hmem (map + 16 + i * entry_size + 8)) as (len & -> & Hlen); [lia..|].
  destruct (read_u32_ok mem lo hi Hmem (map + 16 + i * entry_size + 16)) as (type & -> & _); [lia..|].
  cbn. eexists. done.
Qed.

Lemma available_bytes_snoc rs r : Forall region_ok rs -> region_ok r ->
  available_bytes (rs ++ [r]) =
    if region_type r =? MULTIBOOT2_MEMORY_AVAILABLE then
      if u64 (UINT64_MAX - available_bytes rs) <? region_length r then UINT64_MAX
      else u64 (available_bytes rs + region_length r)
    else available_bytes rs.
Proof.
  intros Hrs Hr. unfold available_bytes. rewrite sumz_app. cbn [sumz].
  set (f := fun r => if region_type r =? MULTIBOOT2_MEMORY_AVAILABLE then region_length r else 0).
  assert (0 <= sumz f rs).
  { apply sumz_nonneg. eapply Forall_impl; [exact Hrs|]. intros x (_ & Hx & _). unfold f, fits in *.
    destruct (_ =? _); lia. }
  fold (f r). destruct Hr as (_ & Hl & _). unfold fits in Hl. unfold f at 2.
  destruct (region_type r =? MULTIBOOT2_MEMORY_AVAILABLE); [|by rewrite !Z.add_0_r].
  rewrite (wrap_small 64) by (unfold fits, UINT64_MAX in *; lia).
  destruct (Z.ltb_spec (UINT64_MAX - Z.min UINT64_MAX (sumz f rs)) (region_length r)); [lia|].
  rewrite wrap_small by (unfold fits, UINT64_MAX in *; lia). lia.
Qed.

Lemma highest_end_snoc rs r :
  highest_end (rs ++ [r]) =
    if highest_end rs <? base_address r + region_length r then base_address r + region_length r
    else highest_end rs.
Proof.
  unfold highest_end. rewrite foldl_snoc. destruct (Z.ltb_spec
    (foldl (fun m r => Z.max m (base_address r + region_length r)) 0 rs) (base_address r + region_length r)); lia.
Qed.

Lemma check_regions_ok n rs c map :
  bi_memory_map c = Some map -> map_ok mem lo hi c map rs ->
  bi_memory_map_entry_count c = Z.of_nat (length rs) + Z.of_nat n ->
  exists st u h, check_regions mem n (Z.of_nat (length rs)) c = Some (st, set_totals u h c) /\
    (st = BOOT_STATUS_OK -> exists k, length k = n /\ map_ok mem lo hi (set_totals u h c) map (rs ++ k)).
Proof.
  revert rs c. induction n as [|n IH]; intros rs c Hm Hok Hc; cbn [check_regions].
  { exists BOOT_STATUS_OK, (bi_reported_usable_bytes c), (bi_highest_reported_address c).
    replace (set_totals _ _ c) with c by by destruct c. split; [done|].
    intros _. exists []. by rewrite app_nil_r. }
  destruct (mo_inside _ _ _ _ _ _ Hok) as (es & He & Hes & Hl & Hend).
  destruct (region_at_ok c map (Z.of_nat (length rs)) es Hm He ltac:(lia) Hl ltac:(lia) Hend) as (r & Hr & Hb & Hlen).
  rewrite Hr. cbn [mbind option_bind]. unfold fits in Hb, Hlen.
  rewrite (wrap_small 64 (UINT64_MAX - _)) by (unfold fits, UINT64_MAX; lia).
  destruct (Z.ltb_spec (UINT64_MAX - base_address r) (region_length r)) as [Hov|Hov].
  { exists BOOT_STATUS_MEMORY_REGION_OVERFLOW, (bi_reported_usable_bytes c), (bi_highest_reported_address c).
    replace (set_totals _ _ c) with c by by destruct c. by split. }
  rewrite (wrap_small 64 (base_address r + region_length r)) by (unfold fits, UINT64_MAX in *; lia).
  set (usable := if region_type r =? _ then _ else _). set (highest := if _ <? _ then _ else _).
  assert (Hro : region_ok r) by (unfold region_ok, fits, UINT64_MAX in *; lia).
  destruct (IH (rs ++ [r]) (set_totals usable highest c)) as (st & u & h & Hst & Hdone).
  - done.
  - constructor.
    + exists es. done.
    + intros i x [Hx|[Hi Hx]]%lookup_app_Some; [by apply (mo_read _ _ _ _ _ _ Hok)|].
      apply list_lookup_singleton_Some in Hx as [Hz <-].
      replace (Z.of_nat i) with (Z.of_nat (length rs)) by lia. done.
    + apply Forall_app. split; [apply Hok|by constructor].
    + rewrite available_bytes_snoc by (done || apply Hok). rewrite <- (mo_usable _ _ _ _ _ _ Hok). done.
    + rewrite highest_end_snoc, <- (mo_highest _ _ _ _ _ _ Hok). done.
  - cbn. rewrite length_app. cbn. lia.
  - rewrite length_app in Hst. cbn [length] in Hst.
    replace (Z.of_nat (length rs + 1)) with (Z.of_nat (length rs) + 1) in Hst by lia.
    exists st, u, h. split; [exact Hst|]. intros Hs. destruct (Hdone Hs) as (k & Hk & Hmk).
    exists (r :: k). split; [cbn; lia|]. by rewrite <- app_assoc in Hmk.
Qed.

Lemma validate_memory_map_ok map tag_size c :
  context_ok mem lo hi c -> bi_memory_map c = None ->
  read_u32 mem (map + 4) = Some tag_size -> lo <= map -> sizeof_tag <= tag_size -> map + tag_size <= hi ->
  exists st c', validate_memory_map mem map c = Some (st, c') /\
    (st = BOOT_STATUS_OK -> context_ok mem lo hi c').
Proof.
  intros Hc Hm Ht Hl Hs Hend. unfold validate_memory_map. rewrite Ht. cbn [mbind option_bind].
  unfold sizeof_memory_map_tag. destruct (Z.ltb_spec tag_size 16); [by eexists _, _|].
  destruct (read_u32_ok mem lo hi Hmem (map + 8)) as (es & He & Hes); [lia..|]. rewrite He. cbn [mbind option_bind].
  destruct (Z.ltb_spec es sizeof_memory_map_entry); [by eexists _, _|].
  destruct (read_u32_ok mem lo hi Hmem (map + 12)) as (v & -> & _); [lia..|]. cbn [mbind option_bind].
  destruct (negb (v =? 0)); [by eexists _, _|].
  destruct (Z.eqb_spec ((tag_size - 16) mod es) 0) as [Hr|Hr]; cbn [negb]; [|by eexists _, _].
  unfold sizeof_memory_map_entry in *. set (n := (tag_size - 16) / es).
  assert (Hn : 0 <= n /\ n * es = tag_size - 16).
  { split; [apply Z.div_pos; lia|]. unfold n. rewrite Z.mul_comm. pose proof (Z.div_mod (tag_size - 16) es). lia. }
  pose proof (co_map _ _ _ _ Hc) as Hcm. unfold map_state in Hcm. rewrite Hm in Hcm. destruct Hcm as (_ & Hu0 & Hh0).
  destruct (check_regions_ok (Z.to_nat n) [] (set_map map n c) map) as (st & u & h & Hst & Hok).
  - done.
  - constructor; cbn; try done; try by constructor.
    exists es. unfold fits, sizeof_memory_map_tag, sizeof_memory_map_entry in *. split_and!; done || lia.
  - cbn. lia.
  - cbn [length Z.of_nat] in Hst. eexists _, _. split; [exact Hst|]. intros Hs'.
    destruct (Hok Hs') as (k & Hk & Hmk). destruct Hc. constructor; try done.
    unfold map_state. cbn [set_totals set_map bi_memory_map bi_memory_map_entry_count].
    exists k. cbn [app] in Hmk. split; [lia|done].
Qed.

Lemma channel_ok_inv p m : fits 8 p -> channel_ok p m = true -> p = 0 \/ p = 8 \/ p = 16 \/ p = 24.
Proof.
  unfold channel_ok, BOOT_FRAMEBUFFER_BITS_PER_PIXEL, fits. intros Hp.
  rewrite !andb_true_iff, Z.eqb_eq, Z.eqb_eq, Z.ltb_lt. intros [[_ Hm] Hlt].
  apply Z.mod_divide in Hm as [k ->]; [|done]. lia.
Qed.

Lemma decode_framebuffer_ok tag tag_size fb :
  read_u32 mem (tag + 4) = Some tag_size -> lo <= tag -> tag + tag_size <= hi ->
  exists st fb', decode_framebuffer mem tag fb = Some (st, fb') /\
    (st = BOOT_STATUS_OK -> framebuffer_ok fb').
Proof.
  intros Ht Hl Hend. unfold decode_framebuffer. rewrite Ht. cbn [mbind option_bind].
  unfold MULTIBOOT2_FRAMEBUFFER_COMMON_SIZE, MULTIBOOT2_FRAMEBUFFER_RGB_SIZE, BOOT_FRAMEBUFFER_BYTES_PER_PIXEL,
    BOOT_FRAMEBUFFER_BITS_PER_PIXEL. change (32 / 8) with 4.
  destruct (Z.ltb_spec tag_size 32); [by eexists _, _|].
  destruct (read_u64_ok mem lo hi Hmem (tag + 8)) as (address & -> & Ha); [lia..|].
  destruct (read_u32_ok mem lo hi Hmem (tag + 16)) as (pitch & -> & Hp); [lia..|].
  destruct (read_u32_ok mem lo hi Hmem (tag + 20)) as (width & -> & Hw); [lia..|].
  destruct (read_u32_ok mem lo hi Hmem (tag + 24)) as (height & -> & Hh); [lia..|].
  destruct (Hmem (tag + 28)) as (depth & -> & _); [lia|]. destruct (Hmem (tag + 29)) as (kind & -> & _); [lia|].
  cbn [mbind option_bind]. destruct (negb (kind =? _)); [by eexists _, _|].
  destruct (Z.ltb_spec tag_size 38); [by eexists _, _|].
  destruct (Z.eqb_spec depth 32) as [->|]; cbn [negb]; [|by eexists _, _].
  destruct (Z.eqb_spec width 0); cbn [orb]; [by eexists _, _|].
  destruct (Z.eqb_spec height 0); cbn [orb]; [by eexists _, _|]. unfold fits in *.
  rewrite (wrap_small 64 (width * 4)) by (unfold fits; lia).
  destruct (Z.ltb_spec pitch (width * 4)); cbn [orb]; [by eexists _, _|].
  destruct (Z.eqb_spec (pitch mod 4) 0); cbn [negb]; [|by eexists _, _].
  destruct (Z.eqb_spec address 0); cbn [orb]; [by eexists _, _|].
  destruct (Z.eqb_spec (address mod 4) 0); cbn [negb]; [|by eexists _, _].
  assert (0 <= pitch * height < 2 ^ 64) by nia. rewrite (wrap_small 64 (pitch * height)) by done.
  destruct (Z.eqb_spec (pitch * height) 0); cbn [orb]; [by eexists _, _|].
  destruct (Z.ltb_spec RSD_EARLY_PHYSICAL_LIMIT (pitch * height)); cbn [orb]; [by eexists _, _|].
  rewrite (wrap_small 64) by (unfold fits, RSD_EARLY_PHYSICAL_LIMIT in *; lia).
  destruct (Z.ltb_spec (RSD_EARLY_PHYSICAL_LIMIT - pitch * height) address); [by eexists _, _|].
  destruct (Hmem (tag + 32)) as (p0 & -> & Hp0); [lia|]. destruct (Hmem (tag + 34)) as (p1 & -> & Hp1); [lia|].
  destruct (Hmem (tag + 36)) as (p2 & -> & Hp2); [lia|]. destruct (Hmem (tag + 33)) as (m0 & -> & _); [lia|].
  destruct (Hmem (tag + 35)) as (m1 & -> & _); [lia|]. destruct (Hmem (tag + 37)) as (m2 & -> & _); [lia|].
  cbn [mbind option_bind].
  destruct (channel_ok p0 m0) eqn:Hc0; cbn [andb negb]; [|by eexists _, _].
  destruct (channel_ok p1 m1) eqn:Hc1; cbn [andb negb]; [|by eexists _, _].
  destruct (channel_ok p2 m2) eqn:Hc2; cbn [andb negb]; [|by eexists _, _].
  destruct (Z.eqb_spec p0 p1); cbn [orb]; [by eexists _, _|]. destruct (Z.eqb_spec p1 p2); cbn [orb]; [by eexists _, _|].
  destruct (Z.eqb_spec p0 p2); [by eexists _, _|]. eexists _, _. split; [done|]. intros _ _.
  apply channel_ok_inv in Hc0, Hc1, Hc2; try done.
  cbn [fb_width fb_height fb_pitch fb_size fb_address fb_bits_per_pixel fb_red_position fb_green_position
    fb_blue_position]. split_and!; try done; try lia.
  - constructor; [done|]. constructor; [done|]. constructor; [done|constructor].
  - rewrite !NoDup_cons, !not_elem_of_cons. split_and!; try done; try apply not_elem_of_nil. by constructor.
Qed.

Lemma dispatch_tag_ok tag type tag_size c :
  context_ok mem lo hi c -> read_u32 mem (tag + 4) = Some tag_size ->
  lo <= tag -> sizeof_tag <= tag_size -> tag + tag_size <= hi ->
  exists st c', dispatch_tag mem tag type tag_size c = Some (st, c') /\
    (st = BOOT_STATUS_OK -> context_ok mem lo hi c').
Proof.
  intros Hc Ht Hl Hs Hend. unfold dispatch_tag.
  destruct (type =? MULTIBOOT2_TAG_MEMORY_MAP).
  { destruct (bi_memory_map c) eqn:Hm; [by eexists _, _|]. by eapply validate_memory_map_ok. }
  destruct (type =? MULTIBOOT2_TAG_MODULE); [by eexists _, _|].
  destruct (_ || _).
  { destruct (type =? MULTIBOOT2_TAG_ACPI_NEW);
      [destruct (Z.ltb_spec tag_size (sizeof_tag + ACPI_RSDP_V2_SIZE)); [by eexists _, _|]; destruct (bi_acpi_new c)
      |destruct (Z.ltb_spec tag_size (sizeof_tag + ACPI_RSDP_V1_SIZE)); [by eexists _, _|]; destruct (bi_acpi_old c)];
      try by eexists _, _.
    all: eexists _, _; split; [done|]; intros _; destruct Hc; constructor;
      try done; try (by apply (map_state_ext mem lo hi c)); cbn [set_acpi bi_acpi_old bi_acpi_new acpi_ok]; lia. }
  destruct (type =? MULTIBOOT2_TAG_FRAMEBUFFER).
  { destruct (fb_present (bi_framebuffer c)); [by eexists _, _|].
    destruct (decode_framebuffer_ok tag tag_size (bi_framebuffer c) Ht Hl Hend) as (st & fb & -> & Hfb).
    eexists _, _. split; [done|]. intros Hst. destruct Hc.
    constructor; try done; [by apply (map_state_ext mem lo hi c)|by apply Hfb]. }
  destruct (_ || _); [|by eexists _, _]. unfold string_length_within.
  destruct (Z.leb_spec tag_size sizeof_tag); [by eexists _, _|]. cbn [mbind option_bind].
  destruct (scan_string_ok mem lo hi Hmem tag (Z.to_nat (tag_size - sizeof_tag)) sizeof_tag) as (r & -> & Hr);
    [unfold sizeof_tag in *; lia..|].
  destruct r as [len|]; cbn [mbind option_bind]; [|by eexists _, _].
  destruct Hr as (Hlen & Hz & Hnz).
  assert (Hstr : string_ok mem lo hi (Some (tag + sizeof_tag)) len).
  { cbn. unfold sizeof_tag in *. split_and!; try done; try lia. intros x Hx.
    replace (tag + 8 + x) with (tag + (8 + x)) by lia. apply Hnz. lia. }
  destruct (type =? MULTIBOOT2_TAG_BOOT_LOADER_NAME); eexists _, _; (split; [done|]);
    intros _; destruct Hc; constructor; try done; by apply (map_state_ext mem lo hi c).
Qed.

Lemma range_fits_iff offset length total :
  0 <= offset -> 0 <= length -> 0 <= total < 2 ^ 64 ->
  range_fits offset length total = true <-> offset + length <= total.
Proof.
  intros Ho Hl Ht. unfold range_fits. rewrite andb_true_iff, !Z.leb_le.
  destruct (Z.le_gt_cases offset total); [rewrite wrap_small by (unfold fits; lia); lia|lia].
Qed.

(** One iteration over a readable tag reads only that tag, and continues past it
    by at least the size of a tag. *)
Lemma parse_tag_ok offset c :
  hi - lo < 2 ^ 32 -> context_ok mem lo hi c -> 0 <= offset ->
  exists step, parse_tag mem lo (hi - lo) offset c = Some step /\
    match step with
    | Refuse st _ => st <> BOOT_STATUS_OK
    | Finish c' => context_ok mem lo hi c'
    | Continue offset' c' => context_ok mem lo hi c' /\ offset + sizeof_tag <= offset'
    end.
Proof.
  intros Hsz Hc Ho. unfold parse_tag.
  destruct (range_fits offset sizeof_tag (hi - lo)) eqn:Hr; cbn [negb]; [|by eexists].
  assert (Hfit : forall n, 0 <= n -> range_fits offset n (hi - lo) = true -> offset + n <= hi - lo).
  { intros n Hn Hf. destruct (Z.le_gt_cases lo hi); [by apply range_fits_iff in Hf; lia|].
    unfold range_fits in Hf. apply andb_true_iff in Hf as [Hle%Z.leb_le _]. lia. }
  apply Hfit in Hr; [|done]. unfold sizeof_tag in *.
  destruct (read_u32_ok mem lo hi Hmem (lo + offset + 4)) as (ts & Hts & Hfs); [lia..|].
  rewrite Hts. cbn [mbind option_bind]. unfold fits in Hfs.
  destruct (Z.ltb_spec ts 8); [by eexists|].
  destruct (range_fits offset ts (hi - lo)) eqn:Hr2; cbn [negb]; [|by eexists].
  apply Hfit in Hr2; [|lia].
  destruct (read_u32_ok mem lo hi Hmem (lo + offset)) as (type & -> & _); [lia..|]. cbn [mbind option_bind].
  destruct (type =? MULTIBOOT2_TAG_END); [destruct (_ || _); by eexists|].
  destruct (dispatch_tag_ok (lo + offset) type ts c Hc Hts) as (st & c' & -> & Hst);
    [unfold sizeof_tag; lia..|]. cbn [mbind option_bind].
  destruct (decide (st = BOOT_STATUS_OK)) as [->|Hne].
  2: { exists (Refuse st c'). by destruct st. }
  destruct (Z.ltb_spec (align_tag_size ts) ts); cbn [orb]; [by eexists|].
  destruct (range_fits offset (align_tag_size ts) (hi - lo)) eqn:Hr3; cbn [negb]; [|by eexists].
  apply Hfit in Hr3; [|lia]. unfold RSD_EARLY_PHYSICAL_LIMIT in *.
  eexists. split; [done|]. split; [by apply Hst|]. rewrite wrap_small by (unfold fits; lia). lia.
Qed.

Lemma parse_tags_ok fuel offset c :
  hi - lo < 2 ^ 32 -> context_ok mem lo hi c -> 0 <= offset ->
  hi - lo - offset <= sizeof_tag * Z.of_nat fuel ->
  exists st c', parse_tags mem fuel lo (hi - lo) offset c = Some (st, c') /\
    (st = BOOT_STATUS_OK -> context_ok mem lo hi c' /\ is_Some (bi_memory_map c')).
Proof.
  revert offset c. induction fuel as [|fuel IH]; intros offset c Hsz Hc Ho Hf; cbn [parse_tags];
    (destruct (Z.leb_spec (hi - lo) offset); [by eexists _, _|]); [lia|].
  destruct (parse_tag_ok offset c Hsz Hc Ho) as (step & -> & Hs). cbn [mbind option_bind].
  destruct step as [st c'|c'|offset' c'].
  - eexists _, _. split; [done|]. intros ->. done.
  - destruct (bi_memory_map c') eqn:Em; eexists _, _; (split; [done|]); [|done]. intros _. by split; [|eexists].
  - destruct Hs as [Hc' Hlt]. unfold sizeof_tag in *. apply IH; done || lia.
Qed.
End Establish.

(** ** The parser *)

(** What the boot protocol promises: at the given address there is an information
    structure, all the bytes of whose declared size can be read. *)
Definition information_present (mem : Z -> option Z) (address : Z) : Prop :=
  readable mem address (address + sizeof_header) /\
  forall total_size, read_u32 mem address = Some total_size ->
    readable mem address (address + total_size).

Lemma land_7 x : 0 <= x -> x .& (MULTIBOOT2_TAG_ALIGNMENT - 1) = x mod 8.
Proof. intros Hx. by apply (land_mask x 3). Qed.

(** A well-placed information and what its context says. *)
Definition parsed (mem : Z -> option Z) (magic address : Z) (c : boot_information) : Prop :=
  magic = MULTIBOOT2_BOOT_MAGIC /\ 0 < address /\ address mod 8 = 0 /\
  exists total, read_u32 mem address = Some total /\
    16 <= total <= MULTIBOOT2_MAX_INFORMATION_SIZE /\ total mod 8 = 0 /\
    address + total <= RSD_EARLY_PHYSICAL_LIMIT /\
    context_ok mem address (address + total) c /\ is_Some (bi_memory_map c).

Lemma parse_outcome mem magic address c :
  fits 64 address -> information_present mem address ->
  exists st c', boot_information_parse mem magic address (Some c) = Some (st, Some c') /\
    (st = BOOT_STATUS_OK -> parsed mem magic address c').
Proof.
  intros Ha [Hhdr Hall]. unfold boot_information_parse, boot_information_reset, fits in *.
  destruct (Z.eqb_spec magic MULTIBOOT2_BOOT_MAGIC); cbn [negb]; [|by eexists _, _].
  destruct (Z.eqb_spec address 0); [by eexists _, _|]. rewrite land_7 by lia.
  destruct (Z.eqb_spec (address mod 8) 0); cbn [negb]; [|by eexists _, _].
  destruct (Z.ltb_spec (RSD_EARLY_PHYSICAL_LIMIT - sizeof_header) address); [by eexists _, _|].
  unfold sizeof_header, sizeof_tag, RSD_EARLY_PHYSICAL_LIMIT in *.
  destruct (read_u32_ok mem _ _ Hhdr address) as (total & Ht & Hft); [lia..|]. rewrite Ht.
  cbn [mbind option_bind]. specialize (Hall total Ht). unfold fits in Hft.
  destruct (Z.ltb_spec total (8 + 8)); [by eexists _, _|].
  destruct (Z.ltb_spec MULTIBOOT2_MAX_INFORMATION_SIZE total); [by eexists _, _|]. rewrite land_7 by lia.
  destruct (Z.eqb_spec (total mod 8) 0); cbn [negb]; [|by eexists _, _].
  rewrite (wrap_small 64 (UINT64_MAX - total)) by (unfold fits, UINT64_MAX; lia).
  destruct (Z.ltb_spec (UINT64_MAX - total) address); [by eexists _, _|].
  rewrite (wrap_small 64 (address + total)) by (unfold fits, UINT64_MAX in *; lia).
  destruct (Z.ltb_spec 0x100000000 (address + total)); [by eexists _, _|].
  destruct (read_u32_ok mem _ _ Hhdr (address + 4)) as (reserved & -> & _); [lia..|]. cbn [mbind option_bind].
  destruct (negb (reserved =? 0)); [by eexists _, _|].
  set (c0 := set_span _ _ _).
  assert (Hc0 : context_ok mem address (address + total) c0) by by constructor.
  destruct (parse_tags_ok mem address (address + total) Hall ltac:(lia)
    ltac:(unfold RSD_EARLY_PHYSICAL_LIMIT; lia) (Z.to_nat (total / 8)) 8 c0)
    as (st & c' & Hp & Hok); [lia|done|lia| |].
  { unfold sizeof_tag. rewrite Z2Nat.id by (apply Z.div_pos; lia). pose proof (Z.div_mod total 8). lia. }
  replace (address + total - address) with total in Hp by lia. rewrite Hp. cbn [mbind option_bind].
  exists st, c'. split; [done|]. intros Hst. destruct (Hok Hst) as [Hc' Hm].
  split; [done|]. split; [lia|]. split; [done|]. exists total. split_and!; done || lia.
Qed.

(** C32: for every magic value, address and content of memory, the parser returns
    a status without reading a byte outside the information the loader declared,
    and the outcome does not depend on what the context held before; when it
    returns success the information was well placed, a memory map was found, and
    the context is right: every region of the map can be read and ends below
    2^64, the reported totals are theirs, both strings are terminated inside the
    information, the ACPI tags hold a full descriptor, and a reported framebuffer
    has in-range pixel addresses, rows that do not overlap and three distinct byte
    channels. *)
Theorem boot_information_parse_safe mem magic address c :
  fits 64 address -> information_present mem address ->
  exists st c', boot_information_parse mem magic address (Some c) = Some (st, Some c') /\
    (forall c2, boot_information_parse mem magic address (Some c2) = Some (st, Some c')) /\
    (st = BOOT_STATUS_OK -> parsed mem magic address c').
Proof.
  intros Ha Hp. destruct (parse_outcome mem magic address c Ha Hp) as (st & c' & Hst & Hok).
  exists st, c'. split; [done|]. split; [|done]. intros c2. rewrite <- Hst. reflexivity.
Qed.

(** ** An information structure in memory *)

Fixpoint le_bytes (n : nat) (v : Z) : list Z :=
  match n with
  | O => []
  | S n => v mod 256 :: le_bytes n (v / 256)
  end.

Definition u64_bytes (v : Z) : list Z := le_bytes 4 (v mod 2 ^ 32) ++ le_bytes 4 (v / 2 ^ 32).

Definition encode_region (r : boot_memory_region) : list Z :=
  u64_bytes (base_address r) ++ u64_bytes (region_length r) ++ le_bytes 4 (region_type r) ++
  le_bytes 4 0.

(** The information with one memory map: header, map tag, end tag. *)
Definition information_size (rs : list boot_memory_region) : Z := 32 + 24 * Z.of_nat (length rs).
Definition encode_head (rs : list boot_memory_region) : list Z :=
  le_bytes 4 (information_size rs) ++ le_bytes 4 0 ++
  le_bytes 4 MULTIBOOT2_TAG_MEMORY_MAP ++ le_bytes 4 (information_size rs - 16) ++
  le_bytes 4 sizeof_memory_map_entry ++ le_bytes 4 0.
Definition encode_information (rs : list boot_memory_region) : list Z :=
  encode_head rs ++ mjoin (encode_region <$> rs) ++ le_bytes 4 MULTIBOOT2_TAG_END ++ le_bytes 4 8.

(** Memory that holds exactly [bytes] from [base] on. *)
Definition image (base : Z) (bytes : list Z) (a : Z) : option Z :=
  if a <? base then None else bytes !! Z.to_nat (a - base).

Lemma length_le_bytes n v : length (le_bytes n v) = n.
Proof. revert v. induction n; intros v; cbn; [done|]. by rewrite IHn. Qed.

Lemma le_bytes_fits n v : Forall (fits 8) (le_bytes n v).
Proof.
  revert v. induction n as [|n IH]; intros v; cbn [le_bytes]; constructor; [|done].
  apply (wrap_fits 8). lia.
Qed.

(** The bytes [ks] sit at offset [i] of [bytes]. *)
Definition sits (bytes : list Z) (i : nat) (ks : list Z) : Prop := take (length ks) (drop i bytes) = ks.

Lemma sits_drop bytes i j ks : sits (drop i bytes) j ks -> sits bytes (i + j) ks.
Proof. unfold sits. by rewrite drop_drop. Qed.

Lemma image_sits base bytes i ks k a :
  sits bytes i ks -> (k < length ks)%nat -> a = base + Z.of_nat i + Z.of_nat k ->
  image base bytes a = ks !! k.
Proof.
  intros Hs Hk ->. unfold image. destruct (Z.ltb_spec (base + Z.of_nat i + Z.of_nat k) base); [lia|].
  replace (Z.to_nat (base + Z.of_nat i + Z.of_nat k - base)) with (i + k)%nat by lia.
  rewrite <- Hs, lookup_take_lt by done. by rewrite lookup_drop.
Qed.

Lemma image_readable base bytes : Forall (fits 8) bytes ->
  readable (image base bytes) base (base + Z.of_nat (length bytes)).
Proof.
  intros Hf a Ha. unfold image. destruct (Z.ltb_spec a base); [lia|].
  destruct (lookup_lt_is_Some_2 bytes (Z.to_nat (a - base))) as [b Hb]; [lia|].
  exists b. split; [done|]. eapply Forall_lookup_1; [exact Hf|exact Hb].
Qed.

(** Little-endian reads. *)
Lemma lor_bytes lo n h : 0 <= n -> fits n lo -> lo .| (h .<< n) = lo + h * 2 ^ n.
Proof. intros Hn Hl. rewrite Z.lor_comm, lor_shift_add by done. lia. Qed.

Lemma read_u32_sits base bytes i v a :
  fits 32 v -> sits bytes i (le_bytes 4 v) -> a = base + Z.of_nat i ->
  read_u32 (image base bytes) a = Some v.
Proof.
  intros Hv Hs ->. unfold read_u32.
  rewrite (image_sits base bytes i _ 0 (base + Z.of_nat i) Hs),
    (image_sits base bytes i _ 1 (base + Z.of_nat i + 1) Hs),
    (image_sits base bytes i _ 2 (base + Z.of_nat i + 2) Hs),
    (image_sits base bytes i _ 3 (base + Z.of_nat i + 3) Hs) by (rewrite ?length_le_bytes; lia).
  cbn [le_bytes lookup list_lookup mbind option_bind]. f_equal. unfold fits in Hv.
  pose proof (Z.div_mod v 256 ltac:(lia)). pose proof (Z.mod_pos_bound v 256 ltac:(lia)).
  set (v1 := v / 256) in *. pose proof (Z.div_mod v1 256 ltac:(lia)). pose proof (Z.mod_pos_bound v1 256 ltac:(lia)).
  set (v2 := v1 / 256) in *. pose proof (Z.div_mod v2 256 ltac:(lia)). pose proof (Z.mod_pos_bound v2 256 ltac:(lia)).
  set (v3 := v2 / 256) in *. rewrite (Z.mod_small v3) by lia.
  rewrite (lor_bytes _ 8) by (unfold fits; lia). rewrite (lor_bytes _ 16) by (unfold fits; lia).
  rewrite (lor_bytes _ 24) by (unfold fits; lia). lia.
Qed.

Lemma read_u64_sits base bytes i v a :
  fits 64 v -> sits bytes i (u64_bytes v) -> a = base + Z.of_nat i ->
  read_u64 (image base bytes) a = Some v.
Proof.
  intros Hv Hs ->. unfold read_u64, sits, u64_bytes, fits in *.
  pose proof (Z.div_mod v (2 ^ 32) ltac:(lia)). pose proof (Z.mod_pos_bound v (2 ^ 32) ltac:(lia)).
  rewrite length_app, !length_le_bytes in Hs. change (4 + 4)%nat with 8%nat in Hs.
  assert (H1 : sits bytes i (le_bytes 4 (v mod 2 ^ 32))).
  { unfold sits. rewrite length_le_bytes. replace 4%nat with (4 `min` 8)%nat at 1 by done.
    by rewrite <- take_take, Hs. }
  assert (H2 : sits bytes (i + 4) (le_bytes 4 (v / 2 ^ 32))).
  { unfold sits. rewrite length_le_bytes, <- drop_drop, take_drop_commute. change (4 + 4)%nat with 8%nat.
    by rewrite Hs. }
  rewrite (read_u32_sits base bytes i (v mod 2 ^ 32) (base + Z.of_nat i)); [|unfold fits; lia|done|done]. cbn [mbind option_bind].
  rewrite (read_u32_sits base bytes (i + 4) (v / 2 ^ 32) (base + Z.of_nat i + 4)); [|unfold fits; lia|done|lia].
  cbn [mbind option_bind]. f_equal. rewrite lor_bytes by (unfold fits; lia). lia.
Qed.

Lemma length_encode_region r : length (encode_region r) = 24%nat.
Proof. unfold encode_region, u64_bytes. by rewrite !length_app, !length_le_bytes. Qed.

Lemma encode_regions_cons r rs :
  mjoin (encode_region <$> r :: rs) = encode_region r ++ mjoin (encode_region <$> rs).
Proof. reflexivity. Qed.

Lemma length_encode_regions rs : length (mjoin (encode_region <$> rs)) = (24 * length rs)%nat.
Proof.
  induction rs as [|r rs IH]; [done|]. rewrite encode_regions_cons.
  rewrite length_app, length_encode_region, IH. cbn [length]. lia.
Qed.

Lemma length_encode_head rs : length (encode_head rs) = 24%nat.
Proof. unfold encode_head. by rewrite !length_app, !length_le_bytes. Qed.

Lemma length_encode_information rs : Z.of_nat (length (encode_information rs)) = information_size rs.
Proof.
  unfold encode_information, information_size.
  rewrite !length_app, length_encode_head, length_encode_regions, !length_le_bytes. lia.
Qed.

Lemma encode_information_fits rs : Forall (fits 8) (encode_information rs).
Proof.
  unfold encode_information, encode_head. rewrite !Forall_app. split_and!; try apply le_bytes_fits.
  induction rs as [|r rs IH]; [constructor|]. rewrite encode_regions_cons. apply Forall_app.
  split; [|exact IH]. unfold encode_region, u64_bytes. rewrite !Forall_app. split_and!; apply le_bytes_fits.
Qed.

(** What can be encoded: a region the parser accepts, with a 32-bit type. *)
Definition encodable (r : boot_memory_region) : Prop := region_ok r /\ fits 32 (region_type r).

Lemma encoded_region_sits rs i r : rs !! i = Some r ->
  sits (encode_information rs) (24 + 24 * i) (u64_bytes (base_address r)) /\
  sits (encode_information rs) (24 + 24 * i + 8) (u64_bytes (region_length r)) /\
  sits (encode_information rs) (24 + 24 * i + 16) (le_bytes 4 (region_type r)).
Proof.
  intros Hi. assert (Hd : exists post, drop (24 + 24 * i) (encode_information rs) = encode_region r ++ post).
  { unfold encode_information. rewrite drop_app_ge by (rewrite length_encode_head; lia).
    rewrite length_encode_head. replace (24 + 24 * i - 24)%nat with (24 * i)%nat by lia.
    assert (Hrs : mjoin (encode_region <$> rs) =
      mjoin (encode_region <$> take i rs) ++ encode_region r ++ mjoin (encode_region <$> drop (S i) rs)).
    { rewrite <- encode_regions_cons, <- join_app, <- fmap_app. by rewrite take_drop_middle. }
    assert (Hl : length (mjoin (encode_region <$> take i rs)) = (24 * i)%nat).
    { rewrite length_encode_regions, length_take, Nat.min_l; [done|]. apply lookup_lt_Some in Hi. lia. }
    eexists. rewrite Hrs, <- app_assoc, drop_app_ge by lia. rewrite Hl, Nat.sub_diag. cbn [drop].
    by rewrite <- app_assoc. }
  destruct Hd as [post Hd].
  split; [rewrite <- (Nat.add_0_r (24 + 24 * i))|split]; apply sits_drop; rewrite Hd; reflexivity.
Qed.

Lemma encoded_region_at address rs c i r :
  bi_memory_map c = Some (address + 8) -> bi_memory_map_entry_count c = Z.of_nat (length rs) ->
  Z.of_nat (length rs) < 2 ^ 32 -> rs !! i = Some r -> encodable r ->
  boot_information_region_at (image address (encode_information rs)) c (Z.of_nat i) = Some (Some r).
Proof.
  intros Hm Hn Hlen Hi [(Hb & Hl & _) Ht]. unfold boot_information_region_at. rewrite Hm, Hn.
  assert (Hil := lookup_lt_Some _ _ _ Hi). destruct (Z.leb_spec (Z.of_nat (length rs)) (Z.of_nat i)); [lia|].
  rewrite (read_u32_sits address _ 16 sizeof_memory_map_entry (address + 8 + 8)) by (done || lia). cbn [mbind option_bind].
  destruct (encoded_region_sits rs i r Hi) as (H1 & H2 & H3).
  unfold sizeof_memory_map_entry, sizeof_memory_map_tag. rewrite wrap_small by (unfold fits; lia).
  set (entry := address + 8 + 16 + Z.of_nat i * 24).
  rewrite (read_u64_sits address _ _ _ entry Hb H1) by lia. cbn [mbind option_bind].
  rewrite (read_u64_sits address _ _ _ (entry + 8) Hl H2) by lia. cbn [mbind option_bind].
  rewrite (read_u32_sits address _ _ _ (entry + 16) Ht H3) by lia. by destruct r.
Qed.

Lemma check_regions_total mem n index c :
  (forall i, index <= i < index + Z.of_nat n ->
     exists r, boot_information_region_at mem c i = Some (Some r) /\ region_ok r) ->
  exists u h, check_regions mem n index c = Some (BOOT_STATUS_OK, set_totals u h c).
Proof.
  revert index c. induction n as [|n IH]; intros index c Hr; cbn [check_regions].
  { exists (bi_reported_usable_bytes c), (bi_highest_reported_address c). by destruct c. }
  destruct (Hr index) as (r & -> & Hb & Hl & Hend); [lia|]. cbn [mbind option_bind]. unfold fits in *.
  rewrite (wrap_small 64 (UINT64_MAX - _)) by (unfold fits, UINT64_MAX; lia).
  destruct (Z.ltb_spec (UINT64_MAX - base_address r) (region_length r)); [lia|].
  set (usable := if region_type r =? _ then _ else _). set (highest := if _ <? _ then _ else _).
  destruct (IH (index + 1) (set_totals usable highest c)) as (u & h & Hc).
  { intros i Hi. apply Hr. lia. }
  exists u, h. exact Hc.
Qed.

(** The side conditions of a read at a known place. *)
Ltac encoded_side := first [reflexivity | done | unfold fits; lia | lia].

Section Encoded.
Variables (address : Z) (rs : list boot_memory_region).
Hypothesis Hrs : Forall encodable rs.
Hypothesis Hsize : information_size rs <= MULTIBOOT2_MAX_INFORMATION_SIZE.

Let mem := image address (encode_information rs).
Let total := information_size rs.

Lemma encoded_word i v a :
  fits 32 v -> sits (encode_information rs) i (le_bytes 4 v) -> a = address + Z.of_nat i ->
  read_u32 mem a = Some v.
Proof. apply read_u32_sits. Qed.

Lemma encoded_tail : drop (24 + 24 * length rs) (encode_information rs) =
  le_bytes 4 MULTIBOOT2_TAG_END ++ le_bytes 4 8.
Proof.
  unfold encode_information. rewrite drop_app_ge by (rewrite length_encode_head; lia).
  rewrite length_encode_head. replace (24 + 24 * length rs - 24)%nat with (24 * length rs)%nat by lia.
  rewrite drop_app_ge by (rewrite length_encode_regions; lia). by rewrite length_encode_regions, Nat.sub_diag.
Qed.

Lemma encoded_map c : bi_memory_map c = None ->
  exists u h, dispatch_tag mem (address + 8) MULTIBOOT2_TAG_MEMORY_MAP (total - 16) c =
    Some (BOOT_STATUS_OK, set_totals u h (set_map (address + 8) (Z.of_nat (length rs)) c)).
Proof.
  intros Hm. unfold dispatch_tag. rewrite Z.eqb_refl, Hm. unfold validate_memory_map.
  unfold total, information_size, MULTIBOOT2_MAX_INFORMATION_SIZE in *.
  rewrite (encoded_word 12 (32 + 24 * Z.of_nat (length rs) - 16) (address + 8 + 4)) by encoded_side.
  cbn [mbind option_bind]. unfold sizeof_memory_map_tag.
  destruct (Z.ltb_spec (32 + 24 * Z.of_nat (length rs) - 16) 16); [lia|].
  rewrite (encoded_word 16 sizeof_memory_map_entry (address + 8 + 8)) by encoded_side. cbn [mbind option_bind].
  rewrite Z.ltb_irrefl. rewrite (encoded_word 20 0 (address + 8 + 12)) by encoded_side. cbn [mbind option_bind Z.eqb negb].
  unfold sizeof_memory_map_entry. replace (32 + 24 * Z.of_nat (length rs) - 16 - 16)
    with (Z.of_nat (length rs) * 24) by lia.
  rewrite Z.mod_mul, Z.div_mul by done. cbn [Z.eqb negb]. rewrite Nat2Z.id. apply check_regions_total.
  intros i Hi. destruct (lookup_lt_is_Some_2 rs (Z.to_nat i)) as [r Hr]; [lia|].
  exists r. assert (He : encodable r) by (eapply Forall_lookup_1; [exact Hrs|exact Hr]). split; [|apply He].
  rewrite <- (Z2Nat.id i) by lia. apply encoded_region_at; try done. lia.
Qed.

Lemma align_tag_size_multiple n : 0 <= n < 2 ^ 32 -> n mod 8 = 0 -> align_tag_size n = n.
Proof.
  intros Hn Hm. unfold align_tag_size, MULTIBOOT2_TAG_ALIGNMENT. rewrite wrap_small by (unfold fits; lia).
  destruct (round_up_spec n 3) as [Hb Hr]; [unfold fits; lia|lia|unfold fits; lia|].
  change (2 ^ 3 - 1) with (8 - 1) in Hb, Hr. change (2 ^ 3) with 8 in Hb, Hr.
  set (x := (n + (8 - 1)) .& not64 (8 - 1)) in *. apply Z.mod_divide in Hm, Hr; [|done..].
  destruct Hm as [i Hi], Hr as [j Hj]. lia.
Qed.

Lemma encoded_tags c : bi_memory_map c = None ->
  exists u h, parse_tags mem (Z.to_nat (total / sizeof_tag)) address total sizeof_header c =
    Some (BOOT_STATUS_OK, set_totals u h (set_map (address + 8) (Z.of_nat (length rs)) c)).
Proof.
  intros Hm. destruct (encoded_map c Hm) as (u & h & Hd). exists u, h.
  unfold total, information_size, MULTIBOOT2_MAX_INFORMATION_SIZE, sizeof_tag, sizeof_header in *.
  set (n := Z.of_nat (length rs)) in *. assert (0 <= n) by lia.
  replace ((32 + 24 * n) / 8) with (4 + 3 * n) by (rewrite <- (Z.div_mul (4 + 3 * n) 8) by done; f_equal; lia).
  replace (Z.to_nat (4 + 3 * n)) with (S (S (Z.to_nat (2 + 3 * n)))) by lia.
  cbn [parse_tags]. destruct (Z.leb_spec (32 + 24 * n) 8); [lia|]. unfold parse_tag, sizeof_tag.
  assert (Hfit : forall o k, 0 <= o -> 0 <= k -> o + k <= 32 + 24 * n -> range_fits o k (32 + 24 * n) = true).
  { intros o k Ho Hk Hle. by apply range_fits_iff; lia. }
  rewrite !Hfit by lia. cbn [negb].
  rewrite (encoded_word 12 (32 + 24 * n - 16) (address + 8 + 4)) by encoded_side. cbn [mbind option_bind].
  destruct (Z.ltb_spec (32 + 24 * n - 16) 8); [lia|]. rewrite Hfit by lia. cbn [negb].
  rewrite (encoded_word 8 MULTIBOOT2_TAG_MEMORY_MAP (address + 8)) by encoded_side. cbn [mbind option_bind].
  change (MULTIBOOT2_TAG_MEMORY_MAP =? MULTIBOOT2_TAG_END) with false. rewrite Hd. cbn [mbind option_bind].
  rewrite align_tag_size_multiple by (lia || (replace (32 + 24 * n - 16) with ((2 + 3 * n) * 8) by lia; by apply Z.mod_mul)).
  rewrite Z.ltb_irrefl, Hfit by lia. cbn [orb negb]. rewrite wrap_small by (unfold fits; lia).
  replace (8 + (32 + 24 * n - 16)) with (24 + 24 * n) by lia. cbn [mbind option_bind].
  destruct (Z.leb_spec (32 + 24 * n) (24 + 24 * n)); [lia|]. rewrite Hfit by lia. cbn [negb].
  assert (Hs1 : sits (encode_information rs) (24 + 24 * length rs) (le_bytes 4 MULTIBOOT2_TAG_END)).
  { unfold sits. by rewrite encoded_tail. }
  assert (Hs2 : sits (encode_information rs) (24 + 24 * length rs + 4) (le_bytes 4 8)).
  { apply sits_drop. by rewrite encoded_tail. }
  rewrite (encoded_word _ 8 (address + (24 + 24 * n) + 4) ltac:(done) Hs2) by lia. cbn [mbind option_bind Z.ltb Z.compare Pos.compare Pos.compare_cont].
  rewrite Hfit by lia. cbn [negb]. rewrite (encoded_word _ MULTIBOOT2_TAG_END (address + (24 + 24 * n)) ltac:(done) Hs1) by lia. cbn [mbind option_bind].
  rewrite Z.eqb_refl. cbn [negb Z.eqb Pos.eqb orb]. rewrite wrap_small by (unfold fits; lia).
  replace (24 + 24 * n + 8) with (32 + 24 * n) by lia. by rewrite Z.eqb_refl.
Qed.
End Encoded.

Lemma encoded_present address rs : Z.of_nat (length rs) < 2 ^ 24 ->
  information_present (image address (encode_information rs)) address.
Proof.
  intros Hlen. pose proof (image_readable address _ (encode_information_fits rs)) as Hr.
  rewrite length_encode_information in Hr. split.
  - intros a Ha. apply Hr. unfold information_size, sizeof_header in *. lia.
  - intros total Ht. rewrite (read_u32_sits address _ 0 (information_size rs)) in Ht
      by (unfold information_size; encoded_side). by injection Ht as <-.
Qed.

(** C33: a memory map written as the boot protocol lays it out is read back: the
    parser accepts an information structure that holds the regions [rs], and the
    context then reports exactly those regions in order, their number, their
    available bytes and their highest end. *)
Theorem boot_information_roundtrip address rs c :
  0 < address -> address mod 8 = 0 -> address + information_size rs <= RSD_EARLY_PHYSICAL_LIMIT ->
  information_size rs <= MULTIBOOT2_MAX_INFORMATION_SIZE -> Forall encodable rs ->
  let mem := image address (encode_information rs) in
  exists c', boot_information_parse mem MULTIBOOT2_BOOT_MAGIC address (Some c) =
      Some (BOOT_STATUS_OK, Some c') /\
    bi_memory_map_entry_count c' = Z.of_nat (length rs) /\
    (forall i r, rs !! i = Some r -> boot_information_region_at mem c' (Z.of_nat i) = Some (Some r)) /\
    bi_reported_usable_bytes c' = available_bytes rs /\
    bi_highest_reported_address c' = highest_end rs.
Proof.
  intros Ha Hal Hend Hsz Hrs mem.
  assert (Hn : Z.of_nat (length rs) < 2 ^ 24)
    by (unfold information_size, MULTIBOOT2_MAX_INFORMATION_SIZE in Hsz; lia).
  set (c0 := set_span address (address + information_size rs) (boot_information_reset c)).
  destruct (encoded_tags address rs Hrs Hsz c0 eq_refl) as (u & h & Hp).
  set (c' := set_totals u h _) in Hp.
  assert (Hparse : boot_information_parse mem MULTIBOOT2_BOOT_MAGIC address (Some c) =
    Some (BOOT_STATUS_OK, Some c')).
  { unfold mem, boot_information_parse. rewrite Z.eqb_refl. cbn [negb].
    destruct (Z.eqb_spec address 0); [lia|]. rewrite land_7, Hal by lia. cbn [Z.eqb negb].
    unfold information_size, RSD_EARLY_PHYSICAL_LIMIT, sizeof_header, sizeof_tag in *.
    destruct (Z.ltb_spec (4294967296 - 8) address); [lia|].
    rewrite (encoded_word address rs 0 (information_size rs) address) by (unfold information_size; encoded_side).
    cbn [mbind option_bind]. unfold information_size, MULTIBOOT2_MAX_INFORMATION_SIZE in *.
    set (total := 32 + 24 * Z.of_nat (length rs)) in *. assert (32 <= total) by lia.
    destruct (Z.ltb_spec total (8 + 8)); [lia|]. destruct (Z.ltb_spec (16 * 1024 * 1024) total); [lia|].
    assert (Ht8 : total mod 8 = 0).
    { replace total with ((4 + 3 * Z.of_nat (length rs)) * 8) by lia. by apply Z.mod_mul. }
    rewrite land_7, Ht8 by lia. cbn [Z.eqb negb].
    rewrite (wrap_small 64 (UINT64_MAX - total)) by (unfold fits, UINT64_MAX; lia).
    destruct (Z.ltb_spec (UINT64_MAX - total) address); [unfold UINT64_MAX in *; lia|].
    rewrite (wrap_small 64 (address + total)) by (unfold fits; lia).
    destruct (Z.ltb_spec 4294967296 (address + total)); [lia|].
    rewrite (encoded_word address rs 4 0 (address + 4)) by encoded_side. cbn [mbind option_bind Z.eqb negb].
    fold c0. rewrite Hp. done. }
  destruct (parse_outcome mem MULTIBOOT2_BOOT_MAGIC address c) as (st & c2 & Hc2 & Hok);
    [unfold fits, RSD_EARLY_PHYSICAL_LIMIT, information_size in *; lia|by apply encoded_present|].
  rewrite Hparse in Hc2. injection Hc2 as <- <-. destruct (Hok eq_refl) as (_ & _ & _ & total & _ & _ & _ & _ & Hctx & _).
  exists c'. split; [done|]. split; [done|].
  assert (Hat : forall i r, rs !! i = Some r -> boot_information_region_at mem c' (Z.of_nat i) = Some (Some r)).
  { intros i r Hi. apply encoded_region_at; [done|done|lia|done|].
    eapply Forall_lookup_1; [exact Hrs|exact Hi]. }
  split; [done|]. pose proof (co_map _ _ _ _ Hctx) as (ks & Hks & Hmap).
  assert (ks = rs) as ->.
  { apply (list_eq_same_length _ _ (length rs)); [done|cbn in Hks; lia|].
    intros i x y Hi Hx Hy. pose proof (mo_read _ _ _ _ _ _ Hmap i x Hx) as H1.
    rewrite (Hat i y Hy) in H1. by injection H1. }
  split; apply Hmap.
Qed.

(** ** From the boot information to the frame allocator *)

(** What [physical_memory.c] sees of a context through
    [boot_information_region_at]. *)
Definition frames_view (mem : Z -> option Z) (c : boot_information) : Frames.boot_information :=
  BootInformation
    (_ ← bi_memory_map c;
     Some (omap (fun i => mjoin (boot_information_region_at mem c i))
             (seqZ 0 (bi_memory_map_entry_count c))))
    (bi_memory_map_entry_count c) (bi_start c) (bi_end c).

Lemma omap_seqZ {A} (f : Z -> option A) (l : list A) lo :
  (forall i x, l !! i = Some x -> f (lo + Z.of_nat i) = Some x) ->
  omap f (seqZ lo (Z.of_nat (length l))) = l.
Proof.
  revert lo. induction l as [|x l IH]; intros lo Hf; [done|]. cbn [length].
  rewrite seqZ_cons by lia. cbn [omap list_omap].
  assert (Hx : f lo = Some x) by (rewrite <- (Hf 0%nat x eq_refl); f_equal; lia). rewrite Hx.
  replace (Z.pred (Z.of_nat (S (length l)))) with (Z.of_nat (length l)) by lia. f_equal.
  apply IH. intros i y Hy. rewrite <- (Hf (S i) y Hy). f_equal. lia.
Qed.

(** The view lists the regions of the map. *)
Lemma frames_view_regions mem lo hi c : context_ok mem lo hi c -> is_Some (bi_memory_map c) ->
  exists rs, frames_view mem c = BootInformation (Some rs) (Z.of_nat (length rs)) lo hi /\
    Forall region_ok rs /\
    forall i r, rs !! i = Some r -> boot_information_region_at mem c (Z.of_nat i) = Some (Some r).
Proof.
  intros Hc [map Hm]. pose proof (co_map _ _ _ _ Hc) as Hs. unfold map_state in Hs. rewrite Hm in Hs.
  destruct Hs as (rs & Hn & Hmap). exists rs. unfold frames_view.
  rewrite (co_start _ _ _ _ Hc), (co_end _ _ _ _ Hc), Hm, <- Hn. cbn [mbind option_bind].
  rewrite omap_seqZ; [split; [done|split; apply Hmap]|].
  intros i r Hi. by rewrite Z.add_0_l, (mo_read _ _ _ _ _ _ Hmap i r Hi).
Qed.

(** Booting composes: when the parser accepts the loader's information and the
    frame allocator then initializes from it, the allocator is well-formed and
    every frame it can ever hand out lies wholly inside a region that the map in
    memory declares available, and outside the information itself, the kernel
    image and low memory. *)
Theorem boot_frames_safe mem magic address c c' ks ke s s' :
  fits 64 address -> information_present mem address -> fits 64 ks -> fits 64 ke ->
  boot_information_parse mem magic address (Some c) = Some (BOOT_STATUS_OK, Some c') ->
  frame_allocator_initialize ks ke (Some (frames_view mem c')) s = (FRAME_STATUS_OK, s') ->
  frames_wf s' /\ allocator_initialized s' = true /\
  forall f, frame_eligible s' f = true ->
    (exists i r, boot_information_region_at mem c' i = Some (Some r) /\
       region_type r = MULTIBOOT2_MEMORY_AVAILABLE /\
       base_address r <= f * RSD_PAGE_SIZE /\ (f + 1) * RSD_PAGE_SIZE <= base_address r + region_length r) /\
    ~ touches 0 RSD_LOW_MEMORY_RESERVATION f /\ ~ touches ks (ke - ks) f /\
    ~ touches address (bi_end c' - address) f.
Proof.
  intros Ha Hp Hks Hke Hparse Hinit.
  destruct (parse_outcome mem magic address c Ha Hp) as (st & c2 & Hc2 & Hok).
  rewrite Hparse in Hc2. injection Hc2 as <- <-.
  destruct (Hok eq_refl) as (_ & Hpos & _ & total & _ & Ht & _ & Hend & Hctx & Hm).
  destruct (frames_view_regions mem _ _ c' Hctx Hm) as (rs & Hview & Hrs & Hat). rewrite Hview in Hinit.
  assert (Hregion : forall i r, Frames.boot_information_region_at
    (BootInformation (Some rs) (Z.of_nat (length rs)) address (address + total)) i = Some r ->
    rs !! Z.to_nat i = Some r).
  { intros i r. unfold Frames.boot_information_region_at. cbn [memory_map memory_map_entry_count].
    by destruct (_ <=? _). }
  apply initialize_ok in Hinit as (Hwf & Hi & _ & Hap & Hno); try done.
  2: { intros i r Hr%Hregion. eapply Forall_lookup_1 in Hrs as (? & ? & _); [|exact Hr]. done. }
  split; [done|]. split; [done|]. intros f Hf. specialize (Hno f Hf).
  destruct (ap_frames _ _ Hap f Hf) as (_ & _ & i & r & Hr & Hty & Hlo & Hhi). split.
  - exists (Z.of_nat (Z.to_nat i)), r. split; [|done]. by apply Hat, Hregion.
  - unfold boot_reserved in Hno. cbn [information_start information_end] in Hno.
    rewrite (wrap_small 64) in Hno
      by (unfold fits, RSD_EARLY_PHYSICAL_LIMIT, MULTIBOOT2_MAX_INFORMATION_SIZE in *; lia).
    rewrite (co_end _ _ _ _ Hctx). tauto.
Qed.

(** ** A concrete boot *)

Module BootSamples.
(** 1 MiB of available memory at 1 MiB and a reserved page above, described at
    0x9000. *)
Definition regions : list boot_memory_region :=
  [Region 0x100000 0x100000 1; Region 0x200000 0x1000 2].
Definition memory_image : Z -> option Z := image 0x9000 (encode_information regions).
Definition zero_context : boot_information :=
  Information 0 0 None None None None None 0 0 0 0 0 (Framebuffer 0 0 0 0 0 0 0 0 0 false).

Lemma present : information_present memory_image 0x9000.
Proof. by apply encoded_present. Qed.

Lemma regions_encodable : Forall encodable regions.
Proof.
  constructor; [|constructor; [|constructor]]; unfold encodable, region_ok, fits, UINT64_MAX; cbn; lia.
Qed.

Lemma boot_information_parse_safe_witness :
  exists c', boot_information_parse memory_image MULTIBOOT2_BOOT_MAGIC 0x9000 (Some zero_context) =
      Some (BOOT_STATUS_OK, Some c') /\ bi_reported_usable_bytes c' = 0x100000.
Proof.
  destruct (boot_information_parse_safe memory_image MULTIBOOT2_BOOT_MAGIC 0x9000 zero_context
    ltac:(done) present) as (st & c' & H & _ & _). exists c'. split.
  - rewrite H. f_equal. f_equal. vm_compute in H. by injection H.
  - vm_compute in H. injection H as <- <-. reflexivity.
Defined.

Lemma boot_information_roundtrip_witness :
  exists c', boot_information_parse memory_image MULTIBOOT2_BOOT_MAGIC 0x9000 (Some zero_context) =
      Some (BOOT_STATUS_OK, Some c') /\ bi_highest_reported_address c' = 0x201000.
Proof.
  destruct (boot_information_roundtrip 0x9000 regions zero_context ltac:(done) ltac:(done)
    ltac:(vm_compute; discriminate) ltac:(vm_compute; discriminate) regions_encodable)
    as (c' & H & _ & _ & _ & Hh). exists c'. split; [exact H|exact Hh].
Defined.

Definition booted : boot_information :=
  match boot_information_parse memory_image MULTIBOOT2_BOOT_MAGIC 0x9000 (Some zero_context) with
  | Some (_, Some c) => c
  | _ => zero_context
  end.

Lemma booted_ok : boot_information_parse memory_image MULTIBOOT2_BOOT_MAGIC 0x9000 (Some zero_context) =
  Some (BOOT_STATUS_OK, Some booted).
Proof. vm_compute. reflexivity. Qed.

Lemma boot_frames_safe_witness :
  exists s', frame_allocator_initialize 0x100000 0x180000 (Some (frames_view memory_image booted))
    (sample_frames 256) = (FRAME_STATUS_OK, s') /\ frames_wf s'.
Proof.
  pose proof (fun s' => boot_frames_safe memory_image MULTIBOOT2_BOOT_MAGIC 0x9000 zero_context booted
    0x100000 0x180000 (sample_frames 256) s' ltac:(done) present ltac:(done) ltac:(done) booted_ok) as H.
  destruct (initialize_succeeds 0x100000 0x180000 (frames_view memory_image booted) (sample_frames 256)
    (initialize_map 0x100000 0x180000 (frames_view memory_image booted) (sample_frames 256)).2 0x1FF) as (s' & Hs);
    [discriminate|discriminate|vm_compute; reflexivity|split; [discriminate|reflexivity]|vm_compute; reflexivity|].
  exists s'. exact (conj Hs (proj1 (H s' Hs))).
Defined.
End BootSamples.
