(* ===== verification/Clock.v ===== *)
(** * Time sources ([src/kernel/pm_timer.c], [tsc.c], [clock.c] and their headers)

    The ACPI power management timer is the reference of known rate, the
    time-stamp counter is calibrated against it, and the monotonic clock reads
    the calibrated counter.  What the processor and the timer port answer is the
    class [time_hardware]; every read returns the hardware's next state, so
    nothing is assumed of the values unless a theorem says so. *)

From stdpp Require Import base list numbers gmap sorting.
From S2P Require Import Prelude.

Definition NANOSECONDS_PER_SECOND : Z := 1000000000.

Record cpuid_result := CpuidResult { eax : Z; ebx : Z; ecx : Z; edx : Z }.

Class time_hardware (H : Type) := {
  cpu_in32 : Z -> H -> Z * H;
  cpu_read_tsc : H -> Z * H;
  cpu_cpuid : Z -> Z -> H -> cpuid_result;
  cpu_interrupts_enabled : H -> bool
}.

(** ** The ACPI power management timer ([pm_timer.c]) *)

Definition ACPI_PM_TIMER_BASE_BITS : Z := 24.
Definition ACPI_PM_TIMER_EXTENDED_BITS : Z := 32.
Definition ACPI_PM_TIMER_BLOCK_LENGTH : Z := 4.
Definition PM_TIMER_FREQUENCY_HZ : Z := 3579545.
Definition PM_TIMER_MAX_WAIT_TICKS : Z := 1 .<< (ACPI_PM_TIMER_BASE_BITS - 2).
Definition PM_TIMER_POLLS_PER_TICK : Z := 64.

Inductive pm_timer_status :=
| PM_TIMER_STATUS_OK
| PM_TIMER_STATUS_NULL_ARGUMENT
| PM_TIMER_STATUS_ABSENT
| PM_TIMER_STATUS_ALREADY_INITIALIZED
| PM_TIMER_STATUS_BAD_PORT
| PM_TIMER_STATUS_BAD_COUNTER_WIDTH
| PM_TIMER_STATUS_BAD_INTERVAL
| PM_TIMER_STATUS_NOT_COUNTING
| PM_TIMER_STATUS_STALLED.

#[global] Instance pm_timer_status_eq_dec : EqDecision pm_timer_status.
Proof. solve_decision. Defined.

Record pm_timer_state := PmTimerState {
  port : Z;
  counter_bits : Z;
  extended_address : bool;
  pm_present : bool
}.

(** The fields of the fixed ACPI description this driver reads. *)
Record acpi_fadt := AcpiFadt {
  pm_timer_port : Z;
  pm_timer_counter_bits : Z;
  pm_timer_extended_address : bool
}.

Record pm_timer_waiting := PmTimerWait {
  target : Z;
  elapsed : Z;
  polls : Z;
  poll_limit : Z;
  previous : Z;
  wait_bits : Z
}.

Definition counter_width_is_supported (bits : Z) : bool :=
  (bits =? ACPI_PM_TIMER_BASE_BITS) || (bits =? ACPI_PM_TIMER_EXTENDED_BITS).

Definition mask_for_width (bits : Z) : Z :=
  if bits =? ACPI_PM_TIMER_EXTENDED_BITS then 2 ^ 32 - 1
  else (1 .<< ACPI_PM_TIMER_BASE_BITS) - 1.

Definition pm_timer_reset : pm_timer_state := PmTimerState 0 0 false false.

Definition span_from_samples (start end_ bits : Z) : pm_timer_status * Z :=
  if negb (counter_width_is_supported bits) then (PM_TIMER_STATUS_BAD_COUNTER_WIDTH, 0)
  else
    let mask := mask_for_width bits in
    let ticks := u32 ((end_ .& mask) - (start .& mask)) .& mask in
    if ticks =? 0 then (PM_TIMER_STATUS_NOT_COUNTING, ticks) else (PM_TIMER_STATUS_OK, ticks).

Definition wait_begin (ticks bits first_sample : Z) : pm_timer_status * option pm_timer_waiting :=
  if negb (counter_width_is_supported bits) then (PM_TIMER_STATUS_BAD_COUNTER_WIDTH, None)
  else if (ticks =? 0) || (PM_TIMER_MAX_WAIT_TICKS <? ticks) then
    (PM_TIMER_STATUS_BAD_INTERVAL, None)
  else
    (PM_TIMER_STATUS_OK,
     Some (PmTimerWait ticks 0 0 (u64 (ticks * PM_TIMER_POLLS_PER_TICK))
             (first_sample .& mask_for_width bits) bits)).

Definition wait_step (w : pm_timer_waiting) (sample : Z) :
    pm_timer_status * bool * pm_timer_waiting :=
  let mask := mask_for_width (wait_bits w) in
  let masked := sample .& mask in
  if poll_limit w <=? polls w then (PM_TIMER_STATUS_STALLED, false, w)
  else
    let e := u64 (elapsed w + (u32 (masked - previous w) .& mask)) in
    (PM_TIMER_STATUS_OK, target w <=? e,
     PmTimerWait (target w) e (u64 (polls w + 1)) (poll_limit w) masked (wait_bits w)).

Definition pm_timer_initialize (fadt : option acpi_fadt) (s : pm_timer_state) :
    pm_timer_status * pm_timer_state :=
  match fadt with
  | None => (PM_TIMER_STATUS_NULL_ARGUMENT, s)
  | Some f =>
      if pm_present s then (PM_TIMER_STATUS_ALREADY_INITIALIZED, s)
      else if (pm_timer_port f =? 0) ||
              (UINT16_MAX - (ACPI_PM_TIMER_BLOCK_LENGTH - 1) <? pm_timer_port f) then
        (PM_TIMER_STATUS_BAD_PORT, pm_timer_reset)
      else if negb (counter_width_is_supported (pm_timer_counter_bits f)) then
        (PM_TIMER_STATUS_BAD_COUNTER_WIDTH, pm_timer_reset)
      else
        (PM_TIMER_STATUS_OK,
         PmTimerState (pm_timer_port f) (pm_timer_counter_bits f)
           (pm_timer_extended_address f) true)
  end.

Definition pm_timer_ticks_to_nanoseconds (ticks : Z) : Z :=
  u64 (u64 (ticks / PM_TIMER_FREQUENCY_HZ * NANOSECONDS_PER_SECOND) +
       u64 (ticks mod PM_TIMER_FREQUENCY_HZ * NANOSECONDS_PER_SECOND) / PM_TIMER_FREQUENCY_HZ).

Definition pm_timer_nanoseconds_to_ticks (nanoseconds : Z) : Z :=
  u64 (u64 (nanoseconds / NANOSECONDS_PER_SECOND * PM_TIMER_FREQUENCY_HZ) +
       u64 (nanoseconds mod NANOSECONDS_PER_SECOND * PM_TIMER_FREQUENCY_HZ) /
         NANOSECONDS_PER_SECOND).

Definition pm_timer_durations_agree (measured reference tolerance_divisor : Z) : bool :=
  let difference := if reference <? measured then measured - reference else reference - measured in
  negb (reference =? 0) && negb (tolerance_divisor =? 0) &&
    (difference <=? reference / tolerance_divisor).

Section PmTimer.
Context {H : Type} `{!time_hardware H}.

Definition pm_timer_read (s : pm_timer_state) (h : H) : Z * H :=
  if negb (pm_present s) then (0, h)
  else
    let '(v, h) := cpu_in32 (port s) h in
    (v .& mask_for_width (counter_bits s), h).

Definition pm_timer_span (start end_ : Z) (ticks : bool) (s : pm_timer_state) :
    pm_timer_status * Z :=
  if negb ticks then (PM_TIMER_STATUS_NULL_ARGUMENT, 0)
  else if negb (pm_present s) then (PM_TIMER_STATUS_ABSENT, 0)
  else span_from_samples start end_ (counter_bits s).

(** One iteration of the polling loop. *)
Definition wait_iteration (s : pm_timer_state) (st : pm_timer_waiting * H) :
    pm_timer_waiting * H + pm_timer_status * pm_timer_waiting * H :=
  let '(w, h) := st in
  let '(sample, h) := pm_timer_read s h in
  match wait_step w sample with
  | (PM_TIMER_STATUS_OK, true, w) => inr (PM_TIMER_STATUS_OK, w, h)
  | (PM_TIMER_STATUS_OK, false, w) => inl (w, h)
  | (st, _, w) => inr (st, w, h)
  end.

(** The result is the status, [*elapsed] and the hardware.  A wait polls at most
    [2^28] times, so [2^29] iterations always return ([wait_loop_returns]). *)
Definition pm_timer_wait (ticks : Z) (elapsed_out : bool) (s : pm_timer_state) (h : H) :
    pm_timer_status * Z * H :=
  if negb elapsed_out then (PM_TIMER_STATUS_NULL_ARGUMENT, 0, h)
  else if negb (pm_present s) then (PM_TIMER_STATUS_ABSENT, 0, h)
  else
    let '(first, h) := pm_timer_read s h in
    match wait_begin ticks (counter_bits s) first with
    | (PM_TIMER_STATUS_OK, Some w) =>
        match loop_pow (wait_iteration s) 29 (w, h) with
        | inr (PM_TIMER_STATUS_OK, w, h) => (PM_TIMER_STATUS_OK, elapsed w, h)
        | inr (st, w, h) => (st, 0, h)
        | inl (w, h) => (PM_TIMER_STATUS_STALLED, 0, h)
        end
    | (st, _) => (st, 0, h)
    end.
End PmTimer.

(** ** The time-stamp counter ([tsc.c]) *)

Definition CPUID_FEATURE_LEAF : Z := 1.
Definition CPUID_FEATURE_TSC : Z := 0x10.
Definition CPUID_EXTENDED_ROOT : Z := 0x80000000.
Definition CPUID_EXTENDED_POWER : Z := 0x80000007.
Definition CPUID_INVARIANT_TSC : Z := 0x100.
Definition REFERENCE_PM_TICKS : Z := PM_TIMER_FREQUENCY_HZ / 10.
Definition TSC_MAX_FREQUENCY : Z := 18000000000.

Inductive tsc_status :=
| TSC_STATUS_OK
| TSC_STATUS_UNSUPPORTED
| TSC_STATUS_INTERRUPTS_ENABLED
| TSC_STATUS_ALREADY_CALIBRATED
| TSC_STATUS_NOT_CALIBRATED
| TSC_STATUS_REFERENCE_FAILURE
| TSC_STATUS_NOT_COUNTING
| TSC_STATUS_WENT_BACKWARDS
| TSC_STATUS_RATE_OUT_OF_RANGE.

#[global] Instance tsc_status_eq_dec : EqDecision tsc_status.
Proof. solve_decision. Defined.

Record tsc_state := TscState {
  frequency_hz : Z;
  tsc_present : bool;
  invariant : bool;
  calibrated : bool
}.

(** The status and [*rate], which the caller starts at zero. *)
Definition rate_from_span (start end_ reference_frequency reference_ticks : Z) : tsc_status * Z :=
  if (reference_frequency =? 0) || (reference_ticks =? 0) then (TSC_STATUS_NOT_COUNTING, 0)
  else if end_ <? start then (TSC_STATUS_WENT_BACKWARDS, 0)
  else if end_ =? start then (TSC_STATUS_NOT_COUNTING, 0)
  else
    let elapsed := end_ - start in
    if UINT64_MAX / reference_frequency <? elapsed then (TSC_STATUS_RATE_OUT_OF_RANGE, 0)
    else
      let rate := u64 (elapsed * reference_frequency) / reference_ticks in
      if rate =? 0 then (TSC_STATUS_NOT_COUNTING, rate)
      else if TSC_MAX_FREQUENCY <? rate then (TSC_STATUS_RATE_OUT_OF_RANGE, rate)
      else (TSC_STATUS_OK, rate).

Definition span_to_nanoseconds (elapsed rate : Z) : Z :=
  let whole_seconds := elapsed / rate in
  let remainder := elapsed mod rate in
  u64 (u64 (whole_seconds * NANOSECONDS_PER_SECOND) +
       u64 (remainder * NANOSECONDS_PER_SECOND) / rate).

Definition tsc_span_nanoseconds (start end_ : Z) (s : tsc_state) : Z :=
  if negb (calibrated s) || (end_ <? start) then 0
  else span_to_nanoseconds (end_ - start) (frequency_hz s).

(** ** The monotonic clock ([clock.c]) *)

Inductive clock_source := CLOCK_SOURCE_NONE | CLOCK_SOURCE_TSC.

Inductive clock_status :=
| CLOCK_STATUS_OK
| CLOCK_STATUS_NOT_STARTED
| CLOCK_STATUS_ALREADY_STARTED
| CLOCK_STATUS_NO_SOURCE.

Record clock_state := ClockState {
  source : clock_source;
  origin : Z;
  last_reported_ns : Z;
  backward_steps : Z;
  clock_started : bool
}.

(** The reported value and [*backward_steps]. *)
Definition monotonic_step (candidate last backward : Z) : Z * Z :=
  if candidate <? last then (last, u64 (backward + 1)) else (candidate, backward).

Section Counter.
Context {H : Type} `{!time_hardware H}.

Definition detect_features (h : H) (s : tsc_state) : tsc_state :=
  let features := cpu_cpuid CPUID_FEATURE_LEAF 0 h in
  let present := negb (edx features .& CPUID_FEATURE_TSC =? 0) in
  if negb present then TscState (frequency_hz s) present false (calibrated s)
  else if eax (cpu_cpuid CPUID_EXTENDED_ROOT 0 h) <? CPUID_EXTENDED_POWER then
    TscState (frequency_hz s) present false (calibrated s)
  else
    TscState (frequency_hz s) present
      (negb (edx (cpu_cpuid CPUID_EXTENDED_POWER 0 h) .& CPUID_INVARIANT_TSC =? 0))
      (calibrated s).

Definition tsc_read : H -> Z * H := cpu_read_tsc.

Definition tsc_calibrate (pm : pm_timer_state) (s : tsc_state) (h : H) :
    tsc_status * tsc_state * H :=
  let s := detect_features h s in
  if negb (tsc_present s) then (TSC_STATUS_UNSUPPORTED, s, h)
  else if cpu_interrupts_enabled h then (TSC_STATUS_INTERRUPTS_ENABLED, s, h)
  else if calibrated s then (TSC_STATUS_ALREADY_CALIBRATED, s, h)
  else if negb (pm_present pm) then (TSC_STATUS_REFERENCE_FAILURE, s, h)
  else
    let '(start, h) := cpu_read_tsc h in
    let '(pm_status, reference_ticks, h) := pm_timer_wait REFERENCE_PM_TICKS true pm h in
    let '(end_, h) := cpu_read_tsc h in
    match pm_status with
    | PM_TIMER_STATUS_OK =>
        match rate_from_span start end_ PM_TIMER_FREQUENCY_HZ reference_ticks with
        | (TSC_STATUS_OK, rate) =>
            (TSC_STATUS_OK, TscState rate (tsc_present s) (invariant s) true, h)
        | (st, _) => (st, s, h)
        end
    | _ => (TSC_STATUS_REFERENCE_FAILURE, s, h)
    end.

Definition clock_start (tsc : tsc_state) (s : clock_state) (h : H) :
    clock_status * clock_state * H :=
  if clock_started s then (CLOCK_STATUS_ALREADY_STARTED, s, h)
  else if negb (calibrated tsc) then (CLOCK_STATUS_NO_SOURCE, s, h)
  else
    let '(origin, h) := tsc_read h in
    (CLOCK_STATUS_OK, ClockState CLOCK_SOURCE_TSC origin 0 0 true, h).

Definition clock_monotonic_ns (tsc : tsc_state) (s : clock_state) (h : H) : Z * clock_state * H :=
  if negb (clock_started s) then (0, s, h)
  else
    let '(now, h) := tsc_read h in
    let candidate := tsc_span_nanoseconds (origin s) now tsc in
    let '(reported, backward) := monotonic_step candidate (last_reported_ns s) (backward_steps s) in
    (reported, ClockState (source s) (origin s) reported backward (clock_started s), h).

Definition clock_is_started (s : clock_state) : bool := clock_started s.
Definition clock_get_state (s : clock_state) : clock_state := s.

(** [n] successive readings of the clock. *)
Fixpoint clock_readings (n : nat) (tsc : tsc_state) (s : clock_state) (h : H) :
    list Z * clock_state * H :=
  match n with
  | O => ([], s, h)
  | S n =>
      let '(v, s, h) := clock_monotonic_ns tsc s h in
      let '(vs, s, h) := clock_readings n tsc s h in
      (v :: vs, s, h)
  end.
End Counter.

(** ** Properties of the power management timer *)

Lemma mask_for_width_supported bits :
  counter_width_is_supported bits = true ->
  (bits = 24 \/ bits = 32) /\ mask_for_width bits = 2 ^ bits - 1.
Proof.
  unfold counter_width_is_supported, mask_for_width,
    ACPI_PM_TIMER_BASE_BITS, ACPI_PM_TIMER_EXTENDED_BITS.
  intros [->%Z.eqb_eq | ->%Z.eqb_eq]%orb_true_iff; auto.
Qed.

(** The masked difference of two samples is the distance the counter moved, as
    long as that is less than one period. *)
Lemma masked_difference bits a b c0 c1 :
  counter_width_is_supported bits = true ->
  a mod 2 ^ bits = c0 mod 2 ^ bits -> b mod 2 ^ bits = c1 mod 2 ^ bits ->
  c0 <= c1 < c0 + 2 ^ bits ->
  u32 ((b .& mask_for_width bits) - (a .& mask_for_width bits)) .& mask_for_width bits = c1 - c0.
Proof.
  intros [Hb ->]%mask_for_width_supported Ha Hc Hr.
  rewrite !land_mask by lia. rewrite Ha, Hc. unfold wrap.
  assert ((2 ^ bits | 2 ^ 32)) as Hdiv
    by (destruct Hb as [-> | ->]; [exists (2 ^ 8) | exists 1]; done).
  rewrite Z.mod_mod_divide by done.
  rewrite <- Zminus_mod. apply Z.mod_small. lia.
Qed.

Lemma mod_masked bits x :
  counter_width_is_supported bits = true ->
  (x .& mask_for_width bits) mod 2 ^ bits = x mod 2 ^ bits.
Proof.
  intros [Hb ->]%mask_for_width_supported. rewrite land_mask by lia. by rewrite Zmod_mod.
Qed.

Lemma land_masked bits x :
  counter_width_is_supported bits = true ->
  (x .& mask_for_width bits) .& mask_for_width bits = x .& mask_for_width bits.
Proof.
  intros [Hb ->]%mask_for_width_supported. rewrite !land_mask by lia. by rewrite Zmod_mod.
Qed.

(** The span of two samples, taken [c0] and [c1] ticks into the life of the
    counter, is exact across at most one wrap; a zero span is refused. *)
Lemma span_from_samples_exact bits a b c0 c1 :
  counter_width_is_supported bits = true ->
  a mod 2 ^ bits = c0 mod 2 ^ bits -> b mod 2 ^ bits = c1 mod 2 ^ bits ->
  c0 <= c1 < c0 + 2 ^ bits ->
  span_from_samples a b bits =
    (if decide (c0 = c1) then PM_TIMER_STATUS_NOT_COUNTING else PM_TIMER_STATUS_OK, c1 - c0).
Proof.
  intros Hb Ha Hc Hr. unfold span_from_samples. rewrite Hb. cbn [negb].
  rewrite (masked_difference bits a b c0 c1) by done.
  case_decide; destruct (c1 - c0 =? 0) eqn:E; try done; lia.
Qed.

Section PmTimerFacts.
Context {H : Type} `{!time_hardware H}.
Variable s : pm_timer_state.

(** The state after [n] reads of the timer's port. *)
Fixpoint pm_reads (n : nat) (h : H) : H :=
  match n with
  | O => h
  | S n => (cpu_in32 (port s) (pm_reads n h)).2
  end.

(** The port reads a counter that has made [pm_count] ticks, shows its low bits,
    and moves by less than one period of the narrowest counter per read. *)
Definition pm_counts (pm_count : H -> Z) : Prop :=
  forall h, let '(v, h') := cpu_in32 (port s) h in
    v mod 2 ^ counter_bits s = pm_count h mod 2 ^ counter_bits s /\
    pm_count h <= pm_count h' < pm_count h + 2 ^ 24.

Variable pm_count : H -> Z.
Hypothesis Hpresent : pm_present s = true.
Hypothesis Hbits : counter_width_is_supported (counter_bits s) = true.
Hypothesis Hcounts : pm_counts pm_count.

Lemma pm_timer_read_eq h :
  pm_timer_read s h =
    ((cpu_in32 (port s) h).1 .& mask_for_width (counter_bits s), pm_reads 1 h).
Proof. unfold pm_timer_read. rewrite Hpresent. cbn. by destruct (cpu_in32 _ h). Qed.

Lemma pm_sample h :
  (cpu_in32 (port s) h).1 mod 2 ^ counter_bits s = pm_count h mod 2 ^ counter_bits s /\
  pm_count h <= pm_count (pm_reads 1 h) < pm_count h + 2 ^ 24.
Proof. specialize (Hcounts h). cbn. by destruct (cpu_in32 _ h). Qed.

(** The wait [w] has polled the reads after the first one of [h0] up to [n], and
    none of them completed it. *)
Definition waiting (h0 : H) (ticks : Z) (n : nat) (w : pm_timer_waiting) : Prop :=
  target w = ticks /\ poll_limit w = 64 * ticks /\ wait_bits w = counter_bits s /\
  polls w = Z.of_nat n /\ Z.of_nat n <= 64 * ticks /\
  elapsed w = pm_count (pm_reads n h0) - pm_count h0 /\
  previous w = (cpu_in32 (port s) (pm_reads n h0)).1 .& mask_for_width (counter_bits s) /\
  forall m, (m <= n)%nat -> pm_count (pm_reads m h0) - pm_count h0 < ticks.

Lemma pm_reads_mono n h : pm_count h <= pm_count (pm_reads n h).
Proof.
  induction n as [|n IH]; [done|]. pose proof (pm_sample (pm_reads n h)) as [_ Hs].
  change (pm_reads (S n) h) with (pm_reads 1 (pm_reads n h)). lia.
Qed.

(** One poll: the wait gives up at its bound, completes, or goes on. *)
Lemma wait_iteration_step h0 ticks n w :
  0 < ticks <= 2 ^ 22 -> waiting h0 ticks n w ->
  match wait_iteration s (w, pm_reads (S n) h0) with
  | inl (w', h') => waiting h0 ticks (S n) w' /\ h' = pm_reads (S (S n)) h0 /\ Z.of_nat n < 64 * ticks
  | inr (st, w', h') =>
      h' = pm_reads (S (S n)) h0 /\
      ((st = PM_TIMER_STATUS_OK /\ Z.of_nat n < 64 * ticks /\
        elapsed w' = pm_count (pm_reads (S n) h0) - pm_count h0 /\ ticks <= elapsed w') \/
       (st = PM_TIMER_STATUS_STALLED /\ Z.of_nat n = 64 * ticks))
  end.
Proof.
  intros Ht (Et & El & Ew & Ep & Hn & Ee & Ev & Hm).
  unfold wait_iteration. rewrite pm_timer_read_eq. unfold wait_step.
  rewrite El, Ep, Ew, Ee, Ev, Et.
  destruct (64 * ticks <=? Z.of_nat n) eqn:E1; [split; [done|right; split; [done|lia]]|].
  pose proof (pm_sample (pm_reads n h0)) as [Hs0 Hr].
  change (pm_reads 1 (pm_reads n h0)) with (pm_reads (S n) h0) in Hr.
  pose proof (pm_sample (pm_reads (S n) h0)) as [Hs1 _].
  pose proof (pm_reads_mono n h0) as Hmono. specialize (Hm n ltac:(lia)) as Hlt.
  destruct (mask_for_width_supported _ Hbits) as [Hb _].
  rewrite land_masked by done.
  rewrite (masked_difference _ _ _ _ _ Hbits Hs0 Hs1) by (destruct Hb as [-> | ->]; lia).
  rewrite (wrap_small 64) by (unfold fits; lia).
  replace (pm_count (pm_reads n h0) - pm_count h0 +
    (pm_count (pm_reads (S n) h0) - pm_count (pm_reads n h0)))
    with (pm_count (pm_reads (S n) h0) - pm_count h0) by lia.
  destruct (ticks <=? pm_count (pm_reads (S n) h0) - pm_count h0) eqn:E2; cbn [elapsed].
  - split; [done|]. left. repeat split; lia.
  - unfold waiting. cbn [target poll_limit wait_bits polls elapsed previous].
    rewrite (wrap_small 64) by (unfold fits; lia).
    split; [|split; [done|lia]]. repeat split; try done; try lia.
    intros m Hle. destruct (decide (m = S n)) as [->|]; [lia|]. apply Hm. lia.
Qed.

Lemma wait_loop_returns h0 ticks n w :
  0 < ticks <= 2 ^ 22 -> waiting h0 ticks n w ->
  exists st w' h', loop_pow (wait_iteration s) 29 (w, pm_reads (S n) h0) = inr (st, w', h') /\
    exists n', h' = pm_reads (S (S n')) h0 /\
      (forall m, (m <= n')%nat -> pm_count (pm_reads m h0) - pm_count h0 < ticks) /\
      ((st = PM_TIMER_STATUS_OK /\ Z.of_nat n' < 64 * ticks /\
        elapsed w' = pm_count (pm_reads (S n') h0) - pm_count h0 /\ ticks <= elapsed w') \/
       (st = PM_TIMER_STATUS_STALLED /\ Z.of_nat n' = 64 * ticks)).
Proof.
  intros Ht Hw.
  destruct (loop_pow_returns (wait_iteration s)
    (fun x => exists n, waiting h0 ticks n x.1 /\ x.2 = pm_reads (S n) h0)
    (fun r => exists n', r.2 = pm_reads (S (S n')) h0 /\
      (forall m, (m <= n')%nat -> pm_count (pm_reads m h0) - pm_count h0 < ticks) /\
      ((r.1.1 = PM_TIMER_STATUS_OK /\ Z.of_nat n' < 64 * ticks /\
        elapsed r.1.2 = pm_count (pm_reads (S n') h0) - pm_count h0 /\ ticks <= elapsed r.1.2) \/
       (r.1.1 = PM_TIMER_STATUS_STALLED /\ Z.of_nat n' = 64 * ticks)))
    (fun x => 64 * ticks - polls x.1))
    with (k := 29%nat) (s := (w, pm_reads (S n) h0)) as ([[st w'] h'] & Hl & Hq).
  - intros x (k & (_ & _ & _ & -> & Hk & _) & _). lia.
  - intros [w1 h1] (k & Hk & Eh). cbn [fst snd] in *. subst h1.
    pose proof (wait_iteration_step _ _ _ _ Ht Hk) as Hs.
    destruct (wait_iteration s _) as [[w2 h2]|[[st w2] h2]].
    + destruct Hs as (Hs & -> & Hlt). split; [eauto|]. cbn [fst].
      destruct Hk as (_ & _ & _ & -> & _). destruct Hs as (_ & _ & _ & -> & _). cbn. lia.
    + exists k. destruct Hs as [-> Hs]. split; [done|]. split; [apply Hk|done].
  - eauto.
  - cbn [fst]. destruct Hw as (_ & _ & _ & -> & _). lia.
  - eauto 10.
Qed.

Lemma wait_begin_waiting ticks h :
  0 < ticks <= 2 ^ 22 ->
  exists w, wait_begin ticks (counter_bits s) ((cpu_in32 (port s) h).1 .& mask_for_width (counter_bits s))
      = (PM_TIMER_STATUS_OK, Some w) /\ waiting h ticks 0 w.
Proof.
  intros Ht. unfold wait_begin. rewrite Hbits. cbn [negb].
  change PM_TIMER_MAX_WAIT_TICKS with (2 ^ 22).
  replace (ticks =? 0) with false by lia. replace (2 ^ 22 <? ticks) with false by lia.
  eexists. split; [reflexivity|]. unfold waiting, PM_TIMER_POLLS_PER_TICK.
  cbn [target poll_limit wait_bits polls elapsed previous pm_reads].
  unwrap. repeat split; try lia; [by rewrite land_masked|].
  intros m Hm. replace m with 0%nat by lia. cbn. lia.
Qed.

(** The outcome of a wait within the bounds. *)
Lemma pm_timer_wait_cases ticks h :
  0 < ticks <= 2 ^ 22 ->
  exists n, (forall m, (m <= n)%nat -> pm_count (pm_reads m h) - pm_count h < ticks) /\
    ((Z.of_nat n < 64 * ticks /\ ticks <= pm_count (pm_reads (S n) h) - pm_count h /\
      pm_timer_wait ticks true s h =
        (PM_TIMER_STATUS_OK, pm_count (pm_reads (S n) h) - pm_count h, pm_reads (S (S n)) h)) \/
     (Z.of_nat n = 64 * ticks /\
      pm_timer_wait ticks true s h = (PM_TIMER_STATUS_STALLED, 0, pm_reads (S (S n)) h))).
Proof.
  intros Ht. unfold pm_timer_wait. rewrite Hpresent. cbn [negb]. rewrite pm_timer_read_eq.
  destruct (wait_begin_waiting ticks h Ht) as (w & -> & Hw).
  destruct (wait_loop_returns h ticks 0 w Ht Hw) as (st & w' & h' & -> & n & -> & Hm & Hr).
  exists n. split; [done|].
  destruct Hr as [(-> & Hn & He & Hge) | (-> & Hn)]; [left|by right].
  by rewrite He in *.
Qed.

(** A wait on the power management timer returns for every interval and
    every behaviour of a counter that moves by less than a period per read.  A
    zero interval or one above the bound is refused after one read.  Otherwise
    the wait succeeds at the first poll that finds the counter [ticks] further
    than at the start and reports exactly how far the counter moved, wraps
    included; it reports a stall only after [64 * ticks] polls, none of which
    had seen the counter move that far. *)
Theorem pm_timer_wait_correct ticks h :
  0 <= ticks ->
  match pm_timer_wait ticks true s h with
  | (PM_TIMER_STATUS_OK, e, h') =>
      exists n, (n < Z.to_nat (64 * ticks))%nat /\ h' = pm_reads (S (S n)) h /\
        e = pm_count (pm_reads (S n) h) - pm_count h /\ ticks <= e /\
        (forall m, (m <= n)%nat -> pm_count (pm_reads m h) - pm_count h < ticks)
  | (PM_TIMER_STATUS_STALLED, e, h') =>
      e = 0 /\ h' = pm_reads (S (S (Z.to_nat (64 * ticks)))) h /\
      pm_count (pm_reads (Z.to_nat (64 * ticks)) h) - pm_count h < ticks
  | (PM_TIMER_STATUS_BAD_INTERVAL, e, h') =>
      e = 0 /\ h' = pm_reads 1 h /\ (ticks = 0 \/ PM_TIMER_MAX_WAIT_TICKS < ticks)
  | _ => False
  end.
Proof.
  intros H0. destruct (decide (0 < ticks <= 2 ^ 22)) as [Ht|Ht].
  - destruct (pm_timer_wait_cases ticks h Ht) as (n & Hm & [(Hn & He & ->) | (Hn & ->)]).
    + exists n. repeat split; try done. lia.
    + replace (Z.to_nat (64 * ticks)) with n by lia. auto.
  - unfold pm_timer_wait, wait_begin. rewrite Hpresent. cbn [negb].
    rewrite pm_timer_read_eq, Hbits. cbn [negb].
    change PM_TIMER_MAX_WAIT_TICKS with (2 ^ 22).
    replace ((ticks =? 0) || (2 ^ 22 <? ticks)) with true by lia. repeat split; lia.
Qed.

(** A counter that has moved by [ticks] after [64 * ticks] reads is never
    reported as stalled. *)
Lemma pm_timer_wait_live ticks h :
  0 < ticks <= 2 ^ 22 ->
  ticks <= pm_count (pm_reads (Z.to_nat (64 * ticks)) h) - pm_count h ->
  exists e h', pm_timer_wait ticks true s h = (PM_TIMER_STATUS_OK, e, h') /\ ticks <= e.
Proof.
  intros Ht Hlive. destruct (pm_timer_wait_cases ticks h Ht) as (n & Hm & [(Hn & He & ->) | (Hn & _)]).
  - eauto.
  - replace (Z.to_nat (64 * ticks)) with n in Hlive by lia. specialize (Hm n ltac:(lia)). lia.
Qed.
End PmTimerFacts.

(** Whatever the hardware does, a wait reports an unsigned number. *)
Lemma pm_timer_wait_nonneg {H} `{!time_hardware H} ticks out s (h : H) st e h' :
  pm_timer_wait ticks out s h = (st, e, h') -> 0 <= e.
Proof.
  unfold pm_timer_wait. destruct (negb out); [by intros [= _ <- _]|].
  destruct (negb (pm_present s)); [by intros [= _ <- _]|].
  destruct (pm_timer_read s h) as [first h1].
  unfold wait_begin. destruct (negb _); [by intros [= _ <- _]|].
  destruct (_ || _); [by intros [= _ <- _]|].
  match goal with |- context [loop_pow ?f 29 ?x] =>
    assert (match loop_pow f 29 x with inl y => 0 <= elapsed y.1 | inr r => 0 <= elapsed r.1.2 end)
      as Hl; [apply loop_pow_preserves; [|done]|destruct (loop_pow f 29 x) as [[w2 h2]|[[st2 w2] h2]]]
  end.
  - intros [w1 h2] Hw. unfold wait_iteration, wait_step.
    destruct (pm_timer_read s h2) as [sample h3].
    destruct (_ <=? _); [done|]. destruct (_ <=? _); cbn [fst snd elapsed];
      apply wrap_fits; lia.
  - by intros [= _ <- _].
  - destruct st2; by intros [= _ <- _].
Qed.

(** ** Properties of the time-stamp counter *)

(** The conversions scale whole units and the remainder separately. *)
Lemma div_split e r n : 0 < r -> e / r * n + e mod r * n / r = e * n / r.
Proof.
  intros Hr. rewrite (Z.div_mod e r) at 3 by lia.
  replace ((r * (e / r) + e mod r) * n) with (e mod r * n + (e / r * n) * r) by lia.
  rewrite Z.div_add by lia. lia.
Qed.

(** A calibrated rate, as [rate_from_span] accepts it. *)
Definition rate_ok (rate : Z) : Prop := 0 < rate <= TSC_MAX_FREQUENCY.

Definition nanoseconds_of (rate span : Z) : Z := span * NANOSECONDS_PER_SECOND / rate.

Lemma nanoseconds_of_mono rate a b :
  0 < rate -> a <= b -> nanoseconds_of rate a <= nanoseconds_of rate b.
Proof. intros. apply Z.div_le_mono; unfold NANOSECONDS_PER_SECOND; lia. Qed.

(** Neither half of the conversion overflows, so it is the exact floor of the
    duration whenever that duration is representable. *)
Lemma span_to_nanoseconds_exact span rate :
  rate_ok rate -> fits 64 span -> nanoseconds_of rate span < 2 ^ 64 ->
  span_to_nanoseconds span rate = nanoseconds_of rate span.
Proof.
  unfold rate_ok, TSC_MAX_FREQUENCY, fits, nanoseconds_of. intros Hr Hs Hn.
  pose proof (div_split span rate NANOSECONDS_PER_SECOND ltac:(lia)) as Hd.
  rewrite <- Hd in *. unfold span_to_nanoseconds, NANOSECONDS_PER_SECOND in *.
  pose proof (Z.mod_pos_bound span rate ltac:(lia)).
  assert (0 <= span / rate) by (apply Z.div_pos; lia).
  assert (0 <= span mod rate * 1000000000 / rate) by (apply Z.div_pos; lia).
  rewrite (wrap_small 64 (span / rate * _)), (wrap_small 64 (span mod rate * _))
    by (unfold fits; lia).
  by unwrap.
Qed.

(** [rate_from_span] on every branch. *)
Lemma rate_from_span_correct start end_ f t :
  fits 64 start -> fits 64 end_ -> 0 <= f < 2 ^ 32 -> 0 <= t ->
  match rate_from_span start end_ f t with
  | (TSC_STATUS_OK, rate) =>
      start < end_ /\ 0 < t /\ rate_ok rate /\ rate = (end_ - start) * f / t
  | (TSC_STATUS_NOT_COUNTING, _) => f = 0 \/ t = 0 \/ start = end_ \/ (end_ - start) * f / t = 0
  | (TSC_STATUS_WENT_BACKWARDS, _) => end_ < start
  | (TSC_STATUS_RATE_OUT_OF_RANGE, _) =>
      2 ^ 64 <= (end_ - start) * f \/ TSC_MAX_FREQUENCY < (end_ - start) * f / t
  | _ => False
  end.
Proof.
  unfold fits, rate_ok. intros Hs He Hf Ht. unfold rate_from_span.
  destruct (f =? 0) eqn:E1; [cbn; lia|]. destruct (t =? 0) eqn:E2; [cbn; lia|]. cbn [orb].
  destruct (end_ <? start) eqn:E3; [lia|]. destruct (end_ =? start) eqn:E4; [lia|].
  destruct (UINT64_MAX / f <? end_ - start) eqn:E5.
  - left. unfold UINT64_MAX in E5. apply Z.ltb_lt in E5.
    assert (2 ^ 64 - 1 < f * (end_ - start)); [|lia].
    pose proof (Z.mul_succ_div_gt (2 ^ 64 - 1) f ltac:(lia)). nia.
  - apply Z.ltb_ge in E5. unfold UINT64_MAX in E5.
    pose proof (Z.mul_div_le (2 ^ 64 - 1) f ltac:(lia)).
    assert (0 <= (end_ - start) * f < 2 ^ 64) by nia.
    rewrite wrap_small by (unfold fits; lia).
    assert (0 <= (end_ - start) * f / t) by (apply Z.div_pos; lia).
    destruct (_ / t =? 0) eqn:E6; [lia|].
    destruct (TSC_MAX_FREQUENCY <? _) eqn:E7; [right; lia|]. repeat split; lia.
Qed.

Section CounterFacts.
Context {H : Type} `{!time_hardware H}.

(** The time-stamp counter is a 64-bit register. *)
Definition tsc_width : Prop := forall h : H, fits 64 (cpu_read_tsc h).1.

Lemma detect_features_keeps h s :
  frequency_hz (detect_features h s) = frequency_hz s /\
  calibrated (detect_features h s) = calibrated s.
Proof. unfold detect_features. repeat case_match; done. Qed.

(** A calibration that succeeds leaves a nonzero rate of at most
    [TSC_MAX_FREQUENCY], equal to the counter's own advance scaled by the ticks
    the power management timer really made, at least a tenth of a second of
    them; a calibration that fails changes nothing but the detected features. *)
Theorem tsc_calibrate_correct pm pm_count s (h : H) :
  counter_width_is_supported (counter_bits pm) = true -> pm_counts pm pm_count -> tsc_width ->
  match tsc_calibrate pm s h with
  | (TSC_STATUS_OK, s', h') =>
      let start := cpu_read_tsc h in
      exists n, let stop := cpu_read_tsc (pm_reads pm (S (S n)) start.2) in
        let ticks := pm_count (pm_reads pm (S n) start.2) - pm_count start.2 in
        h' = stop.2 /\ REFERENCE_PM_TICKS <= ticks /\ calibrated s = false /\
        calibrated s' = true /\ rate_ok (frequency_hz s') /\
        frequency_hz s' = (stop.1 - start.1) * PM_TIMER_FREQUENCY_HZ / ticks
  | (_, s', _) => s' = detect_features h s
  end.
Proof.
  intros Hb Hc Hw. unfold tsc_calibrate. destruct (detect_features_keeps h s) as [_ Hcal].
  destruct (negb (tsc_present _)); [done|]. destruct (cpu_interrupts_enabled h); [done|].
  rewrite Hcal. destruct (calibrated s); [done|].
  destruct (pm_present pm) eqn:Hp; [|done]. cbn [negb].
  pose proof (Hw h) as Hw0. destruct (cpu_read_tsc h) as [start h1]. cbn [fst snd] in *.
  destruct (pm_timer_wait_cases pm pm_count Hp Hb Hc REFERENCE_PM_TICKS h1)
    as (n & _ & [(_ & Ht & ->) | (_ & ->)]); [done|..].
  2: { by destruct (cpu_read_tsc _). }
  pose proof (Hw (pm_reads pm (S (S n)) h1)) as Hw1.
  destruct (cpu_read_tsc (pm_reads pm (S (S n)) h1)) as [stop h2] eqn:Es. cbn [fst] in Hw1.
  pose proof (rate_from_span_correct start stop PM_TIMER_FREQUENCY_HZ
    (pm_count (pm_reads pm (S n) h1) - pm_count h1) Hw0 Hw1) as Hr.
  assert (0 <= REFERENCE_PM_TICKS) by done.
  destruct (rate_from_span _ _ _ _) as [[] rate]; try done.
  destruct Hr as (_ & _ & Hrate & ->); [done|lia|].
  exists n. rewrite Es. cbn [fst snd]. cbn [calibrated frequency_hz]. split_and!; done.
Qed.

(** ** Properties of the monotonic clock *)

(** A reading never falls below the last one and becomes the last one. *)
Lemma clock_monotonic_ns_step tsc s (h : H) v s' h' :
  clock_started s = true -> clock_monotonic_ns tsc s h = (v, s', h') ->
  last_reported_ns s <= v /\ last_reported_ns s' = v /\ clock_started s' = true /\
  origin s' = origin s /\ source s' = source s /\ h' = (cpu_read_tsc h).2 /\
  v = Z.max (last_reported_ns s) (tsc_span_nanoseconds (origin s) (cpu_read_tsc h).1 tsc).
Proof.
  unfold clock_monotonic_ns, tsc_read, monotonic_step. intros Hst. rewrite Hst. cbn [negb].
  destruct (cpu_read_tsc h) as [now h1]. destruct (_ <? _) eqn:E; intros [= <- <- <-]; cbn;
    repeat split; lia.
Qed.

Lemma last_cons_default {A} (x : A) l d d' : List.last (x :: l) d = List.last (x :: l) d'.
Proof. revert x. induction l as [|y l IH]; intros x; [done|]. apply IH. Qed.

(** Successive readings of the clock never decrease, whatever the
    time-stamp counter does: the counter's values are not constrained at all.
    The last value reported is what the next reading is held against. *)
Theorem clock_readings_monotone n tsc s (h : H) :
  clock_started s = true ->
  let '(vs, s', h') := clock_readings n tsc s h in
  length vs = n /\ StronglySorted Z.le (last_reported_ns s :: vs) /\ clock_started s' = true /\
  last_reported_ns s' = List.last vs (last_reported_ns s).
Proof.
  revert s h. induction n as [|n IH]; intros s h Hst; cbn [clock_readings].
  { repeat split; [|done]. by repeat constructor. }
  destruct (clock_monotonic_ns tsc s h) as [[v s1] h1] eqn:E.
  apply clock_monotonic_ns_step in E as (Hle & Hv & Hst1 & _); [|done].
  specialize (IH s1 h1 Hst1). destruct (clock_readings n tsc s1 h1) as [[vs s2] h2].
  destruct IH as (Hlen & Hsort & Hst2 & Hlast). rewrite Hv in Hsort, Hlast.
  repeat split; [cbn; lia| |done|].
  - constructor; [done|]. constructor; [done|].
    apply StronglySorted_inv in Hsort as [_ Hall].
    eapply Forall_impl; [exact Hall|]. cbn. lia.
  - rewrite Hlast. destruct vs as [|z vs]; [done|]. exact (last_cons_default z vs v _).
Qed.

(** The raw counter values [n] readings take. *)
Fixpoint tsc_values (n : nat) (h : H) : list Z :=
  match n with
  | O => []
  | S n => (cpu_read_tsc h).1 :: tsc_values n (cpu_read_tsc h).2
  end.

(** C24: While the time-stamp counter itself does not run backwards, every
    reading of a started clock is the exact number of whole nanoseconds since
    the origin at the calibrated rate, and no repair is counted. *)
Theorem clock_readings_exact n tsc s r (h : H) :
  clock_started s = true -> calibrated tsc = true -> rate_ok (frequency_hz tsc) ->
  fits 64 (origin s) -> origin s <= r ->
  last_reported_ns s = nanoseconds_of (frequency_hz tsc) (r - origin s) ->
  StronglySorted Z.le (r :: tsc_values n h) ->
  Forall (fun v => v < 2 ^ 64 /\ nanoseconds_of (frequency_hz tsc) (v - origin s) < 2 ^ 64)
    (tsc_values n h) ->
  let '(vs, s', h') := clock_readings n tsc s h in
  vs = map (fun v => nanoseconds_of (frequency_hz tsc) (v - origin s)) (tsc_values n h) /\
  backward_steps s' = backward_steps s.
Proof.
  intros Hst Hcal Hrate Ho. revert s r h Hst Ho.
  induction n as [|n IH]; intros s r h Hst Ho Hr Hlast Hsort Hall; [done|].
  cbn [tsc_values] in Hsort, Hall. apply StronglySorted_inv in Hsort as [Hsort Hle].
  apply Forall_cons in Hle as [Hle _]. apply Forall_cons in Hall as [[Hf Hns] Hall].
  cbn [clock_readings]. unfold clock_monotonic_ns, tsc_read, monotonic_step. rewrite Hst. cbn [negb].
  destruct (cpu_read_tsc h) as [now h1] eqn:E. cbn [fst snd] in *.
  unfold tsc_span_nanoseconds. rewrite Hcal. cbn [negb orb].
  replace (now <? origin s) with false by lia. unfold fits in Ho.
  rewrite span_to_nanoseconds_exact by (done || (unfold fits; lia)).
  assert (nanoseconds_of (frequency_hz tsc) (r - origin s) <=
    nanoseconds_of (frequency_hz tsc) (now - origin s)) as Hm
    by (apply nanoseconds_of_mono; [apply Hrate|lia]).
  rewrite Hlast. destruct (_ <? _) eqn:E2; [lia|]. cbv beta iota.
  specialize (IH (ClockState (source s) (origin s)
    (nanoseconds_of (frequency_hz tsc) (now - origin s)) (backward_steps s) true) now h1).
  cbn [clock_started origin last_reported_ns backward_steps source] in IH.
  destruct (clock_readings n tsc _ h1) as [[vs s2] h2].
  destruct IH as [-> ->]; try done; [lia|]. by cbn [tsc_values map]; rewrite E.
Qed.
End CounterFacts.

(** ** Samples

    Hardware whose state is the number of timer ticks and of processor cycles
    since power-on.  Reading the timer port takes 1000 ticks, an exaggerated
    bus transaction, in which a 2 GHz processor counts 558730 cycles. *)
Module TimeSamples.
Definition board : Type := Z * Z.

#[export] Instance board_hardware : time_hardware board := {
  cpu_in32 _ h := (h.1 mod 2 ^ 32, (h.1 + 1000, h.2 + 558730));
  cpu_read_tsc h := (h.2 mod 2 ^ 64, (h.1, h.2 + 20));
  cpu_cpuid leaf _ _ := CpuidResult CPUID_EXTENDED_POWER 0 0 0x110;
  cpu_interrupts_enabled _ := false
}.

Definition board_timer : pm_timer_state := PmTimerState 0x608 24 false true.

Lemma board_counts : pm_counts board_timer fst.
Proof.
  intros [p t]. cbn. split; [|lia].
  rewrite Z.mod_mod_divide; [done|]. by exists (2 ^ 8).
Qed.

Lemma board_tsc_width : tsc_width (H := board).
Proof. intros [p t]. apply Z.mod_pos_bound. lia. Qed.

Definition board_tsc : tsc_state :=
  (tsc_calibrate board_timer (TscState 0 false false false) (16777000, 5)).1.2.

(** The 24-bit counter wraps during the wait; the advance is still exact. *)
Lemma pm_timer_wait_correct_witness :
  pm_timer_wait 357954 true board_timer (16777000, 0) =
    (PM_TIMER_STATUS_OK, 358000, (16777000 + 359000, 359 * 558730)) /\
  match pm_timer_wait 357954 true board_timer (16777000, 0) with
  | (PM_TIMER_STATUS_OK, e, h') => 357954 <= e
  | _ => False
  end.
Proof.
  split; [vm_compute; reflexivity|].
  pose proof (pm_timer_wait_correct board_timer fst eq_refl eq_refl board_counts
    357954 (16777000, 0) ltac:(lia)) as Hw.
  destruct (pm_timer_wait 357954 true board_timer (16777000, 0)) as [[st e] h'] eqn:E.
  vm_compute in E. injection E as <- <- <-. lia.
Defined.

Lemma tsc_calibrate_correct_witness :
  frequency_hz board_tsc = 2005585967 /\ calibrated board_tsc = true /\
  rate_ok (frequency_hz board_tsc).
Proof.
  pose proof (tsc_calibrate_correct board_timer fst (TscState 0 false false false)
    (16777000, 5) eq_refl board_counts board_tsc_width) as Hc.
  unfold board_tsc.
  destruct (tsc_calibrate _ _ _) as [[st s'] h'] eqn:E. cbn [fst snd].
  vm_compute in E. injection E as <- <- <-.
  destruct Hc as (n & _ & _ & _ & Hcal & Hrate & _). by split_and!.
Defined.

Definition board_clock : clock_state := ClockState CLOCK_SOURCE_TSC 100 0 0 true.

Lemma clock_readings_monotone_witness :
  StronglySorted Z.le (0 :: (clock_readings 3 board_tsc board_clock (0, 1000)).1.1).
Proof.
  pose proof (clock_readings_monotone 3 board_tsc board_clock (0, 1000) eq_refl) as Hm.
  destruct (clock_readings 3 board_tsc board_clock (0, 1000)) as [[vs s'] h']. apply Hm.
Defined.

Lemma board_tsc_eq : board_tsc = TscState 2005585967 true true true.
Proof. vm_compute. reflexivity. Qed.

Lemma clock_readings_exact_witness :
  (clock_readings 3 board_tsc board_clock (0, 1000)).1.1 = [448; 458; 468].
Proof.
  rewrite board_tsc_eq.
  pose proof (clock_readings_exact 3 (TscState 2005585967 true true true) board_clock 100
    (0, 1000) eq_refl eq_refl ltac:(done) ltac:(done) ltac:(done) eq_refl) as Hx.
  destruct (clock_readings 3 _ board_clock (0, 1000)) as [[vs s'] h'].
  destruct Hx as [-> _]; [repeat constructor; done|repeat constructor; done|].
  vm_compute. reflexivity.
Defined.
End TimeSamples.
