(* ===== verification/ApicTimer.v ===== *)
(** * The local APIC timer ([src/kernel/apic_timer.c], [include/rsd/apic_timer.h])

    One count register and one interrupt vector serve a periodic tick and a
    one-shot deadline.  The driver's static variables, the interrupt handler
    table of [interrupts.c] and the hardware are one record, [apic_machine].  The
    device's registers are the class [apic_device]; its laws say that they are
    registers.  An installed expiry handler is a name: the interrupt handler
    returns the one to run, and [Timer] runs it. *)

From stdpp Require Import base option list numbers gmap.
From S2P Require Import Prelude Clock.

Definition APIC_REGISTER_LVT_TIMER : Z := 0x320.
Definition APIC_REGISTER_TIMER_INITIAL_COUNT : Z := 0x380.
Definition APIC_REGISTER_TIMER_CURRENT_COUNT : Z := 0x390.
Definition APIC_REGISTER_TIMER_DIVIDE : Z := 0x3E0.
Definition APIC_TIMER_MODE_PERIODIC : Z := 0x20000.
Definition APIC_TIMER_MODE_ONE_SHOT : Z := 0.
Definition APIC_TIMER_MASKED : Z := 0x10000.
Definition APIC_TIMER_LVT_WRITABLE_MASK : Z := 0x707FF.
Definition APIC_TIMER_DIVIDE_BY_SIXTEEN : Z := 3.
Definition APIC_TIMER_MAX_COUNT : Z := 0xFFFFFFFF.
Definition APIC_SPURIOUS_VECTOR : Z := 0xFF.
Definition APIC_TIMER_VECTOR : Z := 64.
Definition INTERRUPT_PROCESS_PROOF_VECTOR : Z := 0x81.

Inductive apic_timer_status :=
| APIC_TIMER_STATUS_OK
| APIC_TIMER_STATUS_APIC_OFFLINE
| APIC_TIMER_STATUS_INTERRUPTS_ENABLED
| APIC_TIMER_STATUS_ALREADY_CALIBRATED
| APIC_TIMER_STATUS_NOT_CALIBRATED
| APIC_TIMER_STATUS_ALREADY_RUNNING
| APIC_TIMER_STATUS_NOT_RUNNING
| APIC_TIMER_STATUS_REFERENCE_FAILURE
| APIC_TIMER_STATUS_NOT_COUNTING
| APIC_TIMER_STATUS_COUNTER_EXHAUSTED
| APIC_TIMER_STATUS_BAD_FREQUENCY
| APIC_TIMER_STATUS_INTERRUPT_FAILURE
| APIC_TIMER_STATUS_READBACK_MISMATCH
| APIC_TIMER_STATUS_ALREADY_ARMED
| APIC_TIMER_STATUS_NOT_ARMED
| APIC_TIMER_STATUS_BAD_INTERVAL.

#[global] Instance apic_timer_status_eq_dec : EqDecision apic_timer_status.
Proof. solve_decision. Defined.

Inductive interrupt_status :=
| INTERRUPT_STATUS_OK
| INTERRUPT_STATUS_NOT_INITIALIZED
| INTERRUPT_STATUS_INTERRUPTS_ENABLED
| INTERRUPT_STATUS_HANDLER_PRESENT
| INTERRUPT_STATUS_HANDLER_MISSING
| INTERRUPT_STATUS_RESERVED_VECTOR
| INTERRUPT_STATUS_NULL_HANDLER.

(** The functions the kernel installs as interrupt handlers, and as the expiry
    handler: only [timer.c] installs one. *)
Inductive interrupt_handler := apic_timer_interrupt | driver_interrupt (n : Z).
Inductive expiry_handler := timer_on_expiry.

Class apic_device (H : Type) := {
  apic_register_write : Z -> Z -> H -> H;
  apic_register_read : Z -> H -> Z * H;
  apic_is_online : H -> bool
}.

(** [sti] and [cli]. *)
Class cpu_flag (H : Type) := cpu_set_interrupts : bool -> H -> H.

(** [interrupts.c]: whether the table is up, and the handlers with their contexts. *)
Record interrupts := Interrupts {
  initialized : bool;
  handlers : gmap Z (interrupt_handler * Z)
}.

Record apic_timer := ApicTimer {
  tick_counter : Z;
  expiry_counter : Z;
  counts_per_second : Z;
  configured_frequency : Z;
  rate_known : bool;
  running : bool;
  armed : bool;
  expiry : option (expiry_handler * Z);
  oneshot_ready : bool
}.

(** The static variables before anything ran. *)
Definition apic_timer_zero : apic_timer := ApicTimer 0 0 0 0 false false false None false.

Record apic_machine (H : Type) := ApicMachine {
  timer : apic_timer;
  irq : interrupts;
  hw : H
}.
Arguments ApicMachine {H}. Arguments timer {H}. Arguments irq {H}. Arguments hw {H}.

Definition set_armed (b : bool) (t : apic_timer) : apic_timer :=
  ApicTimer (tick_counter t) (expiry_counter t) (counts_per_second t) (configured_frequency t)
    (rate_known t) (running t) b (expiry t) (oneshot_ready t).
Definition set_rate (rate : Z) (t : apic_timer) : apic_timer :=
  ApicTimer (tick_counter t) (expiry_counter t) rate (configured_frequency t)
    true (running t) (armed t) (expiry t) (oneshot_ready t).
Definition set_running (b : bool) (frequency : Z) (t : apic_timer) : apic_timer :=
  ApicTimer (tick_counter t) (expiry_counter t) (counts_per_second t) frequency
    (rate_known t) b (armed t) (expiry t) (oneshot_ready t).
Definition set_ticks (n : Z) (t : apic_timer) : apic_timer :=
  ApicTimer n (expiry_counter t) (counts_per_second t) (configured_frequency t)
    (rate_known t) (running t) (armed t) (expiry t) (oneshot_ready t).
Definition set_expiry (e : option (expiry_handler * Z)) (ready : bool) (t : apic_timer) : apic_timer :=
  ApicTimer (tick_counter t) (expiry_counter t) (counts_per_second t) (configured_frequency t)
    (rate_known t) (running t) (armed t) e ready.

(** ** Arithmetic *)

Definition count_for_nanoseconds (rate nanoseconds : Z) : apic_timer_status * Z :=
  if (rate =? 0) || (nanoseconds =? 0) then (APIC_TIMER_STATUS_BAD_INTERVAL, 0)
  else if APIC_TIMER_MAX_COUNT / rate <? nanoseconds / NANOSECONDS_PER_SECOND then
    (APIC_TIMER_STATUS_BAD_INTERVAL, 0)
  else
    let requested :=
      u64 (u64 (nanoseconds / NANOSECONDS_PER_SECOND * rate) +
           u64 (nanoseconds mod NANOSECONDS_PER_SECOND * rate) / NANOSECONDS_PER_SECOND) in
    if (requested =? 0) || (APIC_TIMER_MAX_COUNT <? requested) then
      (APIC_TIMER_STATUS_BAD_INTERVAL, 0)
    else (APIC_TIMER_STATUS_OK, u32 requested).

Definition rate_from_countdown (start end_ reference_frequency reference_ticks : Z) :
    apic_timer_status * Z :=
  if (reference_frequency =? 0) || (reference_ticks =? 0) then (APIC_TIMER_STATUS_BAD_FREQUENCY, 0)
  else if end_ =? 0 then (APIC_TIMER_STATUS_COUNTER_EXHAUSTED, 0)
  else if start <=? end_ then (APIC_TIMER_STATUS_NOT_COUNTING, 0)
  else
    let rate := u64 ((start - end_) * reference_frequency) / reference_ticks in
    if rate =? 0 then (APIC_TIMER_STATUS_NOT_COUNTING, rate) else (APIC_TIMER_STATUS_OK, rate).

Definition count_for_frequency (rate frequency_hz : Z) : apic_timer_status * Z :=
  if (frequency_hz =? 0) || (rate =? 0) then (APIC_TIMER_STATUS_BAD_FREQUENCY, 0)
  else
    let requested := rate / frequency_hz in
    if (requested =? 0) || (APIC_TIMER_MAX_COUNT <? requested) then
      (APIC_TIMER_STATUS_BAD_FREQUENCY, 0)
    else (APIC_TIMER_STATUS_OK, u32 requested).

(** ** Operations *)

Section Operations.
Context {H : Type} `{!time_hardware H} `{!apic_device H}.
Implicit Types m : apic_machine H.

Definition on_hw (f : H -> H) m : apic_machine H := ApicMachine (timer m) (irq m) (f (hw m)).
Definition on_timer (f : apic_timer -> apic_timer) m : apic_machine H :=
  ApicMachine (f (timer m)) (irq m) (hw m).

Definition reserved_vector (vector : Z) : bool :=
  (vector =? 2) || (vector =? 8) || (vector =? 18) || (vector =? INTERRUPT_PROCESS_PROOF_VECTOR).

Definition interrupt_register_handler (vector : Z) (handler : option interrupt_handler)
    (context : Z) m : interrupt_status * apic_machine H :=
  if negb (initialized (irq m)) then (INTERRUPT_STATUS_NOT_INITIALIZED, m)
  else match handler with
  | None => (INTERRUPT_STATUS_NULL_HANDLER, m)
  | Some f =>
      if cpu_interrupts_enabled (hw m) then (INTERRUPT_STATUS_INTERRUPTS_ENABLED, m)
      else if reserved_vector vector then (INTERRUPT_STATUS_RESERVED_VECTOR, m)
      else match handlers (irq m) !! vector with
      | Some _ => (INTERRUPT_STATUS_HANDLER_PRESENT, m)
      | None =>
          (INTERRUPT_STATUS_OK,
           ApicMachine (timer m)
             (Interrupts (initialized (irq m)) (<[vector := (f, context)]> (handlers (irq m))))
             (hw m))
      end
  end.

Definition interrupt_unregister_handler (vector : Z) m : interrupt_status * apic_machine H :=
  if negb (initialized (irq m)) then (INTERRUPT_STATUS_NOT_INITIALIZED, m)
  else if cpu_interrupts_enabled (hw m) then (INTERRUPT_STATUS_INTERRUPTS_ENABLED, m)
  else if reserved_vector vector then (INTERRUPT_STATUS_RESERVED_VECTOR, m)
  else match handlers (irq m) !! vector with
  | None => (INTERRUPT_STATUS_HANDLER_MISSING, m)
  | Some _ =>
      (INTERRUPT_STATUS_OK,
       ApicMachine (timer m)
         (Interrupts (initialized (irq m)) (delete vector (handlers (irq m)))) (hw m))
  end.

(** The interrupt handler returns the expiry handler it has to call last. *)
Definition apic_timer_handler m : option (expiry_handler * Z) * apic_machine H :=
  let t := timer m in
  if armed t then
    (expiry t,
     on_timer (fun _ => ApicTimer (u64 (tick_counter t + 1)) (u64 (expiry_counter t + 1))
       (counts_per_second t) (configured_frequency t) (rate_known t) (running t) false
       (expiry t) (oneshot_ready t)) m)
  else (None, on_timer (set_ticks (u64 (tick_counter t + 1))) m).

Definition stop_counting (h : H) : H :=
  apic_register_write APIC_REGISTER_LVT_TIMER (APIC_TIMER_MASKED .| APIC_SPURIOUS_VECTOR)
    (apic_register_write APIC_REGISTER_TIMER_INITIAL_COUNT 0 h).

Definition apic_timer_calibrate (pm : pm_timer_state) m : apic_timer_status * apic_machine H :=
  if negb (apic_is_online (hw m)) then (APIC_TIMER_STATUS_APIC_OFFLINE, m)
  else if cpu_interrupts_enabled (hw m) then (APIC_TIMER_STATUS_INTERRUPTS_ENABLED, m)
  else if rate_known (timer m) then (APIC_TIMER_STATUS_ALREADY_CALIBRATED, m)
  else if negb (pm_present pm) then (APIC_TIMER_STATUS_REFERENCE_FAILURE, m)
  else
    let h := apic_register_write APIC_REGISTER_TIMER_DIVIDE APIC_TIMER_DIVIDE_BY_SIXTEEN (hw m) in
    let h := apic_register_write APIC_REGISTER_LVT_TIMER
               (APIC_TIMER_MASKED .| APIC_SPURIOUS_VECTOR) h in
    let h := apic_register_write APIC_REGISTER_TIMER_INITIAL_COUNT APIC_TIMER_MAX_COUNT h in
    let '(start, h) := apic_register_read APIC_REGISTER_TIMER_CURRENT_COUNT h in
    let '(pm_status, reference_ticks, h) := pm_timer_wait REFERENCE_PM_TICKS true pm h in
    let '(end_, h) := apic_register_read APIC_REGISTER_TIMER_CURRENT_COUNT h in
    let m := on_hw (fun _ => stop_counting h) m in
    match pm_status with
    | PM_TIMER_STATUS_OK =>
        match rate_from_countdown start end_ PM_TIMER_FREQUENCY_HZ reference_ticks with
        | (APIC_TIMER_STATUS_OK, rate) => (APIC_TIMER_STATUS_OK, on_timer (set_rate rate) m)
        | (st, _) => (st, m)
        end
    | _ => (APIC_TIMER_STATUS_REFERENCE_FAILURE, m)
    end.

(** The divide and LVT writes both modes make, and the LVT read back. *)
Definition program_lvt (lvt : Z) (h : H) : bool * H :=
  let h := apic_register_write APIC_REGISTER_TIMER_DIVIDE APIC_TIMER_DIVIDE_BY_SIXTEEN h in
  let h := apic_register_write APIC_REGISTER_LVT_TIMER lvt h in
  let '(v, h) := apic_register_read APIC_REGISTER_LVT_TIMER h in
  (v .& APIC_TIMER_LVT_WRITABLE_MASK =? lvt, h).

Definition apic_timer_start (frequency_hz : Z) m : apic_timer_status * apic_machine H :=
  if negb (apic_is_online (hw m)) then (APIC_TIMER_STATUS_APIC_OFFLINE, m)
  else if cpu_interrupts_enabled (hw m) then (APIC_TIMER_STATUS_INTERRUPTS_ENABLED, m)
  else if negb (rate_known (timer m)) then (APIC_TIMER_STATUS_NOT_CALIBRATED, m)
  else if running (timer m) then (APIC_TIMER_STATUS_ALREADY_RUNNING, m)
  else if armed (timer m) || oneshot_ready (timer m) then (APIC_TIMER_STATUS_ALREADY_ARMED, m)
  else match count_for_frequency (counts_per_second (timer m)) frequency_hz with
  | (APIC_TIMER_STATUS_OK, count) =>
      match interrupt_register_handler APIC_TIMER_VECTOR (Some apic_timer_interrupt) 0 m with
      | (INTERRUPT_STATUS_OK, m) =>
          let m := on_timer (set_ticks 0) m in
          let '(matches, h) := program_lvt (APIC_TIMER_MODE_PERIODIC .| APIC_TIMER_VECTOR) (hw m) in
          let m := on_hw (fun _ => h) m in
          if negb matches then
            (APIC_TIMER_STATUS_READBACK_MISMATCH,
             (interrupt_unregister_handler APIC_TIMER_VECTOR (on_hw stop_counting m)).2)
          else
            (APIC_TIMER_STATUS_OK,
             on_timer (set_running true frequency_hz)
               (on_hw (apic_register_write APIC_REGISTER_TIMER_INITIAL_COUNT count) m))
      | (_, m) => (APIC_TIMER_STATUS_INTERRUPT_FAILURE, m)
      end
  | (st, _) => (st, m)
  end.

Definition apic_timer_stop m : apic_timer_status * apic_machine H :=
  if negb (running (timer m)) then (APIC_TIMER_STATUS_NOT_RUNNING, m)
  else if cpu_interrupts_enabled (hw m) then (APIC_TIMER_STATUS_INTERRUPTS_ENABLED, m)
  else
    match interrupt_unregister_handler APIC_TIMER_VECTOR (on_hw stop_counting m) with
    | (INTERRUPT_STATUS_OK, m) => (APIC_TIMER_STATUS_OK, on_timer (set_running false 0) m)
    | (_, m) => (APIC_TIMER_STATUS_INTERRUPT_FAILURE, m)
    end.

Definition apic_timer_set_expiry_handler (handler : option expiry_handler) (context : Z) m :
    apic_timer_status * apic_machine H :=
  if cpu_interrupts_enabled (hw m) then (APIC_TIMER_STATUS_INTERRUPTS_ENABLED, m)
  else if armed (timer m) then (APIC_TIMER_STATUS_ALREADY_ARMED, m)
  else match handler with
  | Some f =>
      if negb (oneshot_ready (timer m)) then
        match interrupt_register_handler APIC_TIMER_VECTOR (Some apic_timer_interrupt) 0 m with
        | (INTERRUPT_STATUS_OK, m) =>
            (APIC_TIMER_STATUS_OK, on_timer (set_expiry (Some (f, context)) true) m)
        | (_, m) => (APIC_TIMER_STATUS_INTERRUPT_FAILURE, m)
        end
      else
        (APIC_TIMER_STATUS_OK,
         on_timer (set_expiry (Some (f, context)) (oneshot_ready (timer m))) m)
  | None =>
      if oneshot_ready (timer m) then
        match interrupt_unregister_handler APIC_TIMER_VECTOR (on_hw stop_counting m) with
        | (INTERRUPT_STATUS_OK, m) => (APIC_TIMER_STATUS_OK, on_timer (set_expiry None false) m)
        | (_, m) => (APIC_TIMER_STATUS_INTERRUPT_FAILURE, m)
        end
      else (APIC_TIMER_STATUS_OK, on_timer (set_expiry None (oneshot_ready (timer m))) m)
  end.

Definition apic_timer_arm_oneshot (nanoseconds : Z) m : apic_timer_status * apic_machine H :=
  if negb (apic_is_online (hw m)) then (APIC_TIMER_STATUS_APIC_OFFLINE, m)
  else if cpu_interrupts_enabled (hw m) then (APIC_TIMER_STATUS_INTERRUPTS_ENABLED, m)
  else if negb (rate_known (timer m)) then (APIC_TIMER_STATUS_NOT_CALIBRATED, m)
  else if running (timer m) then (APIC_TIMER_STATUS_ALREADY_RUNNING, m)
  else if armed (timer m) then (APIC_TIMER_STATUS_ALREADY_ARMED, m)
  else if negb (oneshot_ready (timer m)) then (APIC_TIMER_STATUS_INTERRUPT_FAILURE, m)
  else match count_for_nanoseconds (counts_per_second (timer m)) nanoseconds with
  | (APIC_TIMER_STATUS_OK, count) =>
      let '(matches, h) := program_lvt (APIC_TIMER_MODE_ONE_SHOT .| APIC_TIMER_VECTOR) (hw m) in
      let m := on_hw (fun _ => h) m in
      if negb matches then (APIC_TIMER_STATUS_READBACK_MISMATCH, on_hw stop_counting m)
      else
        (APIC_TIMER_STATUS_OK,
         on_hw (apic_register_write APIC_REGISTER_TIMER_INITIAL_COUNT count)
           (on_timer (set_armed true) m))
  | (st, _) => (st, m)
  end.

Definition apic_timer_disarm m : apic_timer_status * apic_machine H :=
  if cpu_interrupts_enabled (hw m) then (APIC_TIMER_STATUS_INTERRUPTS_ENABLED, m)
  else if negb (armed (timer m)) then (APIC_TIMER_STATUS_NOT_ARMED, m)
  else (APIC_TIMER_STATUS_OK, on_hw stop_counting (on_timer (set_armed false) m)).

Definition apic_timer_is_armed m : bool := armed (timer m).

(** The wait loop.  Each halt is ended by an interrupt, whose whole effect is the
    next function of [wakes]; [None] is a processor that is never woken. *)
Fixpoint wait_ticks (target : Z) (wakes : list (apic_machine H -> apic_machine H)) m :
    option (apic_machine H) :=
  if tick_counter (timer m) <? target then
    match wakes with
    | [] => None
    | wake :: wakes => wait_ticks target wakes (wake m)
    end
  else Some m.

Definition apic_timer_wait_for_ticks `{!cpu_flag H} (tick_count : Z)
    (wakes : list (apic_machine H -> apic_machine H)) m :
    option (apic_timer_status * apic_machine H) :=
  if negb (running (timer m)) then Some (APIC_TIMER_STATUS_NOT_RUNNING, m)
  else if cpu_interrupts_enabled (hw m) then Some (APIC_TIMER_STATUS_INTERRUPTS_ENABLED, m)
  else if tick_count =? 0 then Some (APIC_TIMER_STATUS_OK, m)
  else
    let ticks := tick_counter (timer m) in
    let target := if UINT64_MAX - ticks <? tick_count then UINT64_MAX else u64 (ticks + tick_count) in
    m ← wait_ticks target wakes m;
    Some (APIC_TIMER_STATUS_OK, on_hw (cpu_set_interrupts false) m).
End Operations.

(** ** What the driver relies on

    The registers of the Intel SDM: a write changes one register, the LVT reads
    back its writable bits, and neither register accesses nor timer reads change
    the processor's interrupt flag or the other registers. *)
Class apic_device_laws (H : Type) `{!time_hardware H} `{!apic_device H} := {
  register : H -> Z -> Z;
  write_register o v (h : H) o' :
    apic_is_online h = true ->
    register (apic_register_write o v h) o' = if o' =? o then v else register h o';
  write_flags o v (h : H) :
    cpu_interrupts_enabled (apic_register_write o v h) = cpu_interrupts_enabled h /\
    apic_is_online (apic_register_write o v h) = apic_is_online h;
  read_register o (h : H) o' : register (apic_register_read o h).2 o' = register h o';
  read_lvt (h : H) :
    apic_is_online h = true ->
    (apic_register_read APIC_REGISTER_LVT_TIMER h).1 .& APIC_TIMER_LVT_WRITABLE_MASK =
      register h APIC_REGISTER_LVT_TIMER .& APIC_TIMER_LVT_WRITABLE_MASK;
  read_flags o (h : H) :
    cpu_interrupts_enabled (apic_register_read o h).2 = cpu_interrupts_enabled h /\
    apic_is_online (apic_register_read o h).2 = apic_is_online h;
  tsc_frame (h : H) :
    cpu_interrupts_enabled (cpu_read_tsc h).2 = cpu_interrupts_enabled h /\
    apic_is_online (cpu_read_tsc h).2 = apic_is_online h /\
    forall o, register (cpu_read_tsc h).2 o = register h o
}.

(** ** The interval arithmetic *)

(** Turning an interval into a count is exact: for a rate whose product with a
    second fits 64 bits, an accepted interval gives the whole counts it contains,
    between one and the register's maximum, and a refused one contains none or
    more than the register holds. *)
Lemma count_for_nanoseconds_value rate nanoseconds :
  0 <= rate -> rate * NANOSECONDS_PER_SECOND < 2 ^ 64 -> fits 64 nanoseconds ->
  let exact := nanoseconds * rate / NANOSECONDS_PER_SECOND in
  count_for_nanoseconds rate nanoseconds =
    if decide (0 < exact <= APIC_TIMER_MAX_COUNT) then (APIC_TIMER_STATUS_OK, exact)
    else (APIC_TIMER_STATUS_BAD_INTERVAL, 0).
Proof.
  intros Hr Hr2 Hn exact. unfold fits in Hn. unfold count_for_nanoseconds.
  pose proof (div_split nanoseconds NANOSECONDS_PER_SECOND rate ltac:(done)) as Hd.
  change (nanoseconds * rate / NANOSECONDS_PER_SECOND) with exact in Hd.
  pose proof (Z.mod_pos_bound nanoseconds NANOSECONDS_PER_SECOND ltac:(done)) as Hm.
  assert (0 <= nanoseconds / NANOSECONDS_PER_SECOND) as Hq by (apply Z.div_pos; lia || done).
  assert (rate = 0 \/ nanoseconds = 0 -> exact = 0) as H0
    by (intros [Hz|Hz]; unfold exact; rewrite Hz, ?Z.mul_0_r; done).
  clearbody exact.
  destruct (rate =? 0) eqn:E1; [rewrite H0 by lia; case_decide; [lia|done]|].
  destruct (nanoseconds =? 0) eqn:E2; [rewrite H0 by lia; case_decide; [lia|done]|].
  cbn [orb]. set (q := nanoseconds / NANOSECONDS_PER_SECOND) in *.
  set (r := nanoseconds mod NANOSECONDS_PER_SECOND) in *.
  assert (0 <= r * rate <= NANOSECONDS_PER_SECOND * rate) as Hrr by nia.
  assert (0 <= r * rate / NANOSECONDS_PER_SECOND <= rate) as Hrd.
  { split; [apply Z.div_pos; [lia|done]|]. apply Z.div_le_upper_bound; [done|lia]. }
  destruct (APIC_TIMER_MAX_COUNT / rate <? q) eqn:E3.
  - apply Z.ltb_lt in E3. case_decide as Hc; [|done].
    pose proof (Z.mul_succ_div_gt APIC_TIMER_MAX_COUNT rate ltac:(lia)). nia.
  - apply Z.ltb_ge in E3. pose proof (Z.mul_div_le APIC_TIMER_MAX_COUNT rate ltac:(lia)).
    assert (0 <= q * rate <= APIC_TIMER_MAX_COUNT) by nia.
    unfold APIC_TIMER_MAX_COUNT, NANOSECONDS_PER_SECOND in *.
    rewrite (wrap_small 64 (q * rate)), (wrap_small 64 (r * rate)) by (unfold fits; lia).
    rewrite (wrap_small 64) by (unfold fits; lia). rewrite Hd.
    case_decide as Hc.
    + replace (exact =? 0) with false by lia. replace (_ <? exact) with false by lia.
      cbn [orb]. by rewrite wrap_small by (unfold fits; lia).
    + by replace ((exact =? 0) || (4294967295 <? exact)) with true by lia.
Qed.

(** The rate a calibration accepts is not bounded by the count register: a
    counter that ran through its whole range in a tenth of a second gives a rate
    above [2^35], and with that rate half a second is accepted although it needs
    five times the register, because the product overflows 64 bits. *)
Theorem count_for_nanoseconds_overflow :
  exists rate count,
    rate_from_countdown APIC_TIMER_MAX_COUNT 1 PM_TIMER_FREQUENCY_HZ REFERENCE_PM_TICKS =
      (APIC_TIMER_STATUS_OK, rate) /\
    APIC_TIMER_MAX_COUNT < rate /\
    count_for_nanoseconds rate 500000000 = (APIC_TIMER_STATUS_OK, count) /\
    count < APIC_TIMER_MAX_COUNT < 500000000 * rate / NANOSECONDS_PER_SECOND.
Proof.
  eexists _, _. split; [vm_compute; reflexivity|]. split; [done|].
  split; [vm_compute; reflexivity|]. done.
Qed.

(** ** The driver's invariant *)

Section Invariant.
Context {H : Type} `{!time_hardware H} `{!apic_device H} `{!apic_device_laws H}.
Implicit Types m : apic_machine H.

Abbreviation lvt m := (register (hw m) APIC_REGISTER_LVT_TIMER).
Abbreviation timer_slot m := (handlers (irq m) !! APIC_TIMER_VECTOR).

(** An armed deadline and a periodic tick exclude each other, each has the LVT in
    its mode, both need a known rate, and the vector is registered exactly while
    one of the two modes owns it. *)
Record apic_ok m : Prop := ApicOk {
  ok_armed : armed (timer m) = true ->
    oneshot_ready (timer m) = true /\ rate_known (timer m) = true /\
    lvt m = APIC_TIMER_MODE_ONE_SHOT .| APIC_TIMER_VECTOR;
  ok_running : running (timer m) = true ->
    oneshot_ready (timer m) = false /\ rate_known (timer m) = true /\
    lvt m = APIC_TIMER_MODE_PERIODIC .| APIC_TIMER_VECTOR;
  ok_owned : running (timer m) || oneshot_ready (timer m) = true ->
    initialized (irq m) = true /\ timer_slot m = Some (apic_timer_interrupt, 0);
  ok_free : running (timer m) || oneshot_ready (timer m) = false -> timer_slot m = None;
  ok_expiry : is_Some (expiry (timer m)) <-> oneshot_ready (timer m) = true;
  ok_rate : rate_known (timer m) = true -> 0 < counts_per_second (timer m)
}.

Lemma stop_counting_flags (h : H) :
  cpu_interrupts_enabled (stop_counting h) = cpu_interrupts_enabled h /\
  apic_is_online (stop_counting h) = apic_is_online h.
Proof.
  unfold stop_counting.
  destruct (write_flags APIC_REGISTER_TIMER_INITIAL_COUNT 0 h) as [<- <-].
  apply write_flags.
Qed.

Lemma program_lvt_spec v (h : H) :
  apic_is_online h = true ->
  let '(ok, h') := program_lvt v h in
  register h' APIC_REGISTER_LVT_TIMER = v /\
  cpu_interrupts_enabled h' = cpu_interrupts_enabled h /\ apic_is_online h' = apic_is_online h /\
  (ok = true <-> v .& APIC_TIMER_LVT_WRITABLE_MASK = v).
Proof.
  intros Hon. unfold program_lvt.
  destruct (write_flags APIC_REGISTER_TIMER_DIVIDE APIC_TIMER_DIVIDE_BY_SIXTEEN h) as [E1 E2].
  set (h1 := apic_register_write APIC_REGISTER_TIMER_DIVIDE _ h) in *.
  destruct (write_flags APIC_REGISTER_LVT_TIMER v h1) as [E3 E4]. rewrite Hon in E2.
  pose proof (write_register APIC_REGISTER_LVT_TIMER v h1 APIC_REGISTER_LVT_TIMER E2) as Hw.
  rewrite Z.eqb_refl in Hw.
  set (h2 := apic_register_write APIC_REGISTER_LVT_TIMER v h1) in *.
  rewrite E2 in E4. pose proof (read_lvt h2 E4) as Hr.
  destruct (read_flags APIC_REGISTER_LVT_TIMER h2) as [E5 E6].
  pose proof (read_register APIC_REGISTER_LVT_TIMER h2 APIC_REGISTER_LVT_TIMER) as Hk.
  destruct (apic_register_read APIC_REGISTER_LVT_TIMER h2) as [x h3]. cbn [fst snd] in *.
  split_and!; try congruence. rewrite Hr, Hw. apply Z.eqb_eq.
Qed.

Lemma register_timer m :
  (timer_slot m = None /\ cpu_interrupts_enabled (hw m) = false /\
   interrupt_register_handler APIC_TIMER_VECTOR (Some apic_timer_interrupt) 0 m =
     (INTERRUPT_STATUS_OK,
      ApicMachine (timer m) (Interrupts true
        (<[APIC_TIMER_VECTOR := (apic_timer_interrupt, 0)]> (handlers (irq m)))) (hw m))) \/
  exists st, st <> INTERRUPT_STATUS_OK /\
    interrupt_register_handler APIC_TIMER_VECTOR (Some apic_timer_interrupt) 0 m = (st, m).
Proof.
  unfold interrupt_register_handler.
  destruct (initialized (irq m)); [|right; refused]. cbn [negb].
  destruct (cpu_interrupts_enabled (hw m)); [right; refused|].
  change (reserved_vector APIC_TIMER_VECTOR) with false. cbv iota.
  destruct (timer_slot m); [right; refused|by left].
Qed.

Lemma unregister_timer m :
  initialized (irq m) = true -> cpu_interrupts_enabled (hw m) = false ->
  is_Some (timer_slot m) ->
  interrupt_unregister_handler APIC_TIMER_VECTOR m =
    (INTERRUPT_STATUS_OK,
     ApicMachine (timer m) (Interrupts true (delete APIC_TIMER_VECTOR (handlers (irq m)))) (hw m)).
Proof.
  intros Hi He [x Hx]. unfold interrupt_unregister_handler. rewrite Hi, He, Hx.
  by change (reserved_vector APIC_TIMER_VECTOR) with false.
Qed.

(** Releasing the vector from either mode cannot fail. *)
Lemma release_vector m :
  apic_ok m -> running (timer m) || oneshot_ready (timer m) = true ->
  cpu_interrupts_enabled (hw m) = false ->
  interrupt_unregister_handler APIC_TIMER_VECTOR (on_hw stop_counting m) =
    (INTERRUPT_STATUS_OK,
     ApicMachine (timer m) (Interrupts true (delete APIC_TIMER_VECTOR (handlers (irq m))))
       (stop_counting (hw m))).
Proof.
  intros Hok Hown He. destruct (ok_owned m Hok Hown) as [Hi Hs].
  rewrite unregister_timer; [done|done| |by eexists].
  cbn [hw on_hw]. by rewrite (proj1 (stop_counting_flags (hw m))).
Qed.

Lemma rate_from_countdown_pos start end_ f t :
  0 <= t ->
  match rate_from_countdown start end_ f t with
  | (APIC_TIMER_STATUS_OK, rate) => 0 < rate
  | _ => True
  end.
Proof.
  intros Ht. unfold rate_from_countdown. destruct (f =? 0); [done|].
  destruct (t =? 0) eqn:E; [done|]. cbn [orb]. destruct (end_ =? 0); [done|].
  destruct (start <=? end_); [done|]. destruct (_ / t =? 0) eqn:E2; [done|].
  assert (0 <= u64 ((start - end_) * f) / t); [|lia].
  apply Z.div_pos; [|lia]. apply wrap_fits. lia.
Qed.

Lemma apic_timer_calibrate_ok pm m st m' :
  apic_ok m -> apic_timer_calibrate pm m = (st, m') -> apic_ok m'.
Proof.
  intros Hok. unfold apic_timer_calibrate.
  destruct (negb (apic_is_online _)); [by intros [= <- <-]|].
  destruct (cpu_interrupts_enabled _); [by intros [= <- <-]|].
  destruct (rate_known (timer m)) eqn:Hrate; [by intros [= <- <-]|].
  destruct (negb (pm_present pm)); [by intros [= <- <-]|].
  destruct (apic_register_read _ _) as [start h1].
  destruct (pm_timer_wait _ _ _ _) as [[pst ticks] h2] eqn:Ew.
  destruct (apic_register_read _ h2) as [end_ h3].
  assert (forall h t, armed t = armed (timer m) -> running t = running (timer m) ->
    oneshot_ready t = oneshot_ready (timer m) -> expiry t = expiry (timer m) ->
    (rate_known t = true -> 0 < counts_per_second t) -> apic_ok (ApicMachine t (irq m) h)) as Hm.
  { destruct Hok as [H1 H2 H3 H4 H5 _]. intros h t Ea Er Eo Ex Hpos.
    split; cbn [timer irq hw]; rewrite ?Ea, ?Er, ?Eo, ?Ex; try done.
    - intros Ha. destruct (H1 Ha) as (_ & ? & _). congruence.
    - intros Ha. destruct (H2 Ha) as (_ & ? & _). congruence. }
  assert (apic_ok (on_hw (fun _ => stop_counting h3) m)) as Hfail
    by (apply Hm; try done; congruence).
  destruct pst; try (intros [= <- <-]; exact Hfail).
  pose proof (rate_from_countdown_pos start end_ PM_TIMER_FREQUENCY_HZ ticks
    (pm_timer_wait_nonneg _ _ _ _ _ _ _ Ew)) as Hpos.
  destruct (rate_from_countdown _ _ _ _) as [[] rate]; try (intros [= <- <-]; exact Hfail).
  intros [= <- <-]. by apply Hm.
Qed.

(** The vector is taken while no mode owns it, so the deletion gives it back. *)
Lemma delete_registered m :
  timer_slot m = None ->
  delete APIC_TIMER_VECTOR
    (<[APIC_TIMER_VECTOR := (apic_timer_interrupt, 0)]> (handlers (irq m))) = handlers (irq m).
Proof. intros Hn. by rewrite delete_insert_id. Qed.

Lemma apic_timer_start_ok f m st m' :
  apic_ok m -> apic_timer_start f m = (st, m') -> apic_ok m'.
Proof.
  intros Hok. unfold apic_timer_start.
  destruct (apic_is_online (hw m)) eqn:Hon; [|by intros [= <- <-]]. cbn [negb].
  destruct (cpu_interrupts_enabled _) eqn:Hen; [by intros [= <- <-]|].
  destruct (rate_known (timer m)) eqn:Hrate; [|by intros [= <- <-]]. cbn [negb].
  destruct (running (timer m)) eqn:Hrun; [by intros [= <- <-]|].
  destruct (armed (timer m)) eqn:Harm; [by intros [= <- <-]|].
  destruct (oneshot_ready (timer m)) eqn:Hready; [by intros [= <- <-]|]. cbn [orb].
  destruct (count_for_frequency _ f) as [[] count]; try (by intros [= <- <-]).
  destruct (register_timer m) as [(Hslot & _ & ->) | (st1 & Hst & ->)].
  2: { destruct st1; (done || by intros [= <- <-]). }
  destruct Hok as [_ _ _ _ H5 H6]. rewrite Hready in H5. rewrite Hrate in H6.
  pose proof (program_lvt_spec (APIC_TIMER_MODE_PERIODIC .| APIC_TIMER_VECTOR) (hw m) Hon) as Hp.
  cbn [hw on_timer].
  destruct (program_lvt _ (hw m)) as [ok h1]. destruct Hp as (Hl & He & Ho & _).
  rewrite Hen in He. rewrite Hon in Ho.
  destruct ok; cbn [negb]; intros [= <- <-].
  - split; cbn; rewrite ?Harm, ?Hready, ?Hrate; try done.
    + intros _. split_and!; [done..|].
      rewrite write_register by done. cbn [Z.eqb]. exact Hl.
    + intros _. by rewrite lookup_insert_eq.
  - rewrite unregister_timer; cbn [irq hw on_hw on_timer handlers initialized timer]; [|done| |].
    + cbn [snd]. split; cbn; rewrite ?Hrun, ?Harm, ?Hready, ?Hrate; try done.
      by rewrite delete_registered.
    + by rewrite (proj1 (stop_counting_flags h1)).
    + by rewrite lookup_insert_eq.
Qed.

Lemma apic_timer_stop_ok m st m' : apic_ok m -> apic_timer_stop m = (st, m') -> apic_ok m'.
Proof.
  intros Hok. unfold apic_timer_stop.
  destruct (running (timer m)) eqn:Hrun; [|by intros [= <- <-]]. cbn [negb].
  destruct (cpu_interrupts_enabled _) eqn:Hen; [by intros [= <- <-]|].
  rewrite release_vector by (done || by rewrite Hrun). intros [= <- <-].
  destruct Hok as [H1 H2 H3 _ H5 H6]. destruct (H2 Hrun) as (Hready & _).
  split; cbn; rewrite ?Hready; try done.
  - intros Ha. destruct (H1 Ha). congruence.
  - intros _. by rewrite lookup_delete_eq.
  - by rewrite Hready in H5.
Qed.

Lemma apic_timer_set_expiry_handler_ok h c m st m' :
  apic_ok m -> apic_timer_set_expiry_handler h c m = (st, m') -> apic_ok m'.
Proof.
  intros Hok. unfold apic_timer_set_expiry_handler.
  destruct (cpu_interrupts_enabled _) eqn:Hen; [by intros [= <- <-]|].
  destruct (armed (timer m)) eqn:Harm; [by intros [= <- <-]|].
  destruct h as [f|]; destruct (oneshot_ready (timer m)) eqn:Hready; cbn [negb].
  - intros [= <- <-]. destruct Hok as [H1 H2 H3 H4 H5 H6].
    split; cbn; rewrite ?Harm, ?Hready in *; try done.
  - destruct (register_timer m) as [(Hslot & _ & ->) | (st1 & Hst & ->)].
    2: { destruct st1; (done || by intros [= <- <-]). }
    intros [= <- <-]. destruct Hok as [H1 H2 H3 H4 H5 H6].
    split; cbn; rewrite ?Harm, ?Hready in *; try done.
    + intros Hr. rewrite Hr in H3. destruct (H3 eq_refl). congruence.
    + intros _. by rewrite lookup_insert_eq.
    + by rewrite orb_true_r.
  - rewrite release_vector by (done || by rewrite Hready, orb_true_r). intros [= <- <-].
    destruct Hok as [H1 H2 H3 H4 H5 H6].
    split; cbn; rewrite ?Harm, ?Hready in *; try done.
    + intros Hr. by destruct (H2 Hr).
    + intros Hr. rewrite orb_false_r in Hr. by destruct (H2 Hr).
    + intros _. by rewrite lookup_delete_eq.
  - intros [= <- <-]. destruct Hok as [H1 H2 H3 H4 H5 H6].
    split; cbn; rewrite ?Harm, ?Hready in *; try done.
Qed.

Lemma apic_timer_disarm_ok m st m' : apic_ok m -> apic_timer_disarm m = (st, m') -> apic_ok m'.
Proof.
  intros Hok. unfold apic_timer_disarm.
  destruct (cpu_interrupts_enabled _) eqn:Hen; [by intros [= <- <-]|].
  destruct (armed (timer m)) eqn:Harm; [|by intros [= <- <-]]. cbn [negb]. intros [= <- <-].
  destruct Hok as [H1 H2 H3 H4 H5 H6]. destruct (H1 Harm) as (Hready & _).
  split; cbn; rewrite ?Hready in *; try done.
  intros Hr. by destruct (H2 Hr).
Qed.

Lemma apic_timer_handler_ok m f m' : apic_ok m -> apic_timer_handler m = (f, m') -> apic_ok m'.
Proof.
  intros [H1 H2 H3 H4 H5 H6]. unfold apic_timer_handler.
  destruct (armed (timer m)) eqn:Harm; intros [= <- <-]; split; cbn; rewrite ?Harm; done.
Qed.

(** What [apic_timer_arm_oneshot] asks of the machine, and of the interval. *)
Definition armable m : bool :=
  apic_is_online (hw m) && negb (cpu_interrupts_enabled (hw m)) && rate_known (timer m) &&
    negb (running (timer m)) && negb (armed (timer m)) && oneshot_ready (timer m).

Lemma armable_inv m :
  armable m = true ->
  apic_is_online (hw m) = true /\ cpu_interrupts_enabled (hw m) = false /\
  rate_known (timer m) = true /\ running (timer m) = false /\ armed (timer m) = false /\
  oneshot_ready (timer m) = true.
Proof. unfold armable. rewrite !andb_true_iff, !negb_true_iff. tauto. Qed.

Lemma arm_oneshot_success m ns count :
  armable m = true ->
  count_for_nanoseconds (counts_per_second (timer m)) ns = (APIC_TIMER_STATUS_OK, count) ->
  exists h', apic_timer_arm_oneshot ns m =
      (APIC_TIMER_STATUS_OK, ApicMachine (set_armed true (timer m)) (irq m) h') /\
    register h' APIC_REGISTER_LVT_TIMER = APIC_TIMER_MODE_ONE_SHOT .| APIC_TIMER_VECTOR /\
    register h' APIC_REGISTER_TIMER_INITIAL_COUNT = count /\
    cpu_interrupts_enabled h' = cpu_interrupts_enabled (hw m) /\
    apic_is_online h' = apic_is_online (hw m).
Proof.
  intros (Hon & Hen & Hrate & Hrun & Harm & Hready)%armable_inv Hc.
  unfold apic_timer_arm_oneshot. rewrite Hon, Hen, Hrate, Hrun, Harm, Hready, Hc. cbn [negb].
  pose proof (program_lvt_spec (APIC_TIMER_MODE_ONE_SHOT .| APIC_TIMER_VECTOR) (hw m) Hon) as Hp.
  destruct (program_lvt _ (hw m)) as [ok h1]. destruct Hp as (Hl & He & Ho & Hok).
  rewrite (proj2 Hok eq_refl). cbn [negb]. rewrite Hon in Ho.
  eexists. split; [reflexivity|]. cbn [hw on_hw on_timer].
  destruct (write_flags APIC_REGISTER_TIMER_INITIAL_COUNT count h1) as [-> ->].
  rewrite !write_register by done. split_and!; try done. congruence.
Qed.

Lemma arm_oneshot_failure m ns :
  ~ (armable m = true /\
     (count_for_nanoseconds (counts_per_second (timer m)) ns).1 = APIC_TIMER_STATUS_OK) ->
  exists st, st <> APIC_TIMER_STATUS_OK /\ apic_timer_arm_oneshot ns m = (st, m).
Proof.
  intros Hn. unfold apic_timer_arm_oneshot. unfold armable in Hn.
  destruct (apic_is_online (hw m)); [|refused].
  destruct (cpu_interrupts_enabled (hw m)); [refused|].
  destruct (rate_known (timer m)); [|refused]. destruct (running (timer m)); [refused|].
  destruct (armed (timer m)); [refused|]. destruct (oneshot_ready (timer m)); [|refused].
  cbn [negb andb] in *. destruct (count_for_nanoseconds _ ns) as [[] count]; try refused.
  naive_solver.
Qed.

(** Arming keeps the invariant. *)
Lemma apic_timer_arm_oneshot_ok ns m st m' :
  apic_ok m -> apic_timer_arm_oneshot ns m = (st, m') -> apic_ok m'.
Proof.
  intros Hok E.
  destruct (decide (armable m = true /\
     (count_for_nanoseconds (counts_per_second (timer m)) ns).1 = APIC_TIMER_STATUS_OK)) as [[Ha Hc]|Hn].
  - destruct (count_for_nanoseconds _ ns) as [? count] eqn:Ec. cbn [fst] in Hc. subst.
    destruct (arm_oneshot_success m ns count Ha Ec) as (h' & E' & Hl & _).
    rewrite E in E'. injection E' as -> ->.
    apply armable_inv in Ha as (_ & _ & Hrate & Hrun & _ & Hready).
    destruct Hok as [H1 H2 H3 H4 H5 H6].
    split; cbn; rewrite ?Hready, ?Hrate, ?Hrun in *; try done.
  - destruct (arm_oneshot_failure m ns Hn) as (st' & _ & E'). rewrite E in E'. by injection E' as -> ->.
Qed.

(** Arming a one-shot deadline succeeds exactly when the local APIC is
    online, interrupts are off, the rate is known, no periodic tick runs, nothing
    is armed, an expiry handler is installed and the interval is representable.
    It then records the deadline as armed and leaves the LVT in one-shot mode
    with the exact count of the interval in the count register; a refusal leaves
    the driver, the handler table and the hardware as they were. *)
Theorem apic_timer_arm_oneshot_correct ns m :
  0 <= counts_per_second (timer m) ->
  counts_per_second (timer m) * NANOSECONDS_PER_SECOND < 2 ^ 64 -> fits 64 ns ->
  let count := ns * counts_per_second (timer m) / NANOSECONDS_PER_SECOND in
  let '(st, m') := apic_timer_arm_oneshot ns m in
  (st = APIC_TIMER_STATUS_OK <-> armable m = true /\ 0 < count <= APIC_TIMER_MAX_COUNT) /\
  if decide (st = APIC_TIMER_STATUS_OK) then
    timer m' = set_armed true (timer m) /\ irq m' = irq m /\
    lvt m' = APIC_TIMER_MODE_ONE_SHOT .| APIC_TIMER_VECTOR /\
    register (hw m') APIC_REGISTER_TIMER_INITIAL_COUNT = count
  else m' = m.
Proof.
  intros Hr1 Hr2 Hns count.
  pose proof (count_for_nanoseconds_value _ ns Hr1 Hr2 Hns) as Hc. cbv zeta in Hc.
  fold count in Hc. clearbody count.
  destruct (decide (armable m = true /\ 0 < count <= APIC_TIMER_MAX_COUNT)) as [[Ha Hcount]|Hn].
  - rewrite decide_True in Hc by done.
    destruct (arm_oneshot_success m ns count Ha Hc) as (h' & -> & Hl & Hi & _).
    split; [tauto|]. by rewrite decide_True.
  - destruct (arm_oneshot_failure m ns) as (st & Hst & ->).
    { rewrite Hc. case_decide; cbn [fst]; [tauto|by intros [_ [=]]]. }
    rewrite decide_False by done. tauto.
Qed.

(** ** Reachable machines *)

(** A step of the system as the driver sees it: one of its operations, the
    timer's interrupt, or another part of the kernel, which may do anything to
    the hardware but program the timer's LVT and to the handlers of other
    vectors. *)
Inductive apic_step : apic_machine H -> apic_machine H -> Prop :=
| step_calibrate pm m : apic_step m (apic_timer_calibrate pm m).2
| step_start f m : apic_step m (apic_timer_start f m).2
| step_stop m : apic_step m (apic_timer_stop m).2
| step_set_handler f c m : apic_step m (apic_timer_set_expiry_handler f c m).2
| step_arm ns m : apic_step m (apic_timer_arm_oneshot ns m).2
| step_disarm m : apic_step m (apic_timer_disarm m).2
| step_interrupt m : apic_step m (apic_timer_handler m).2
| step_elsewhere m irq' h' :
    register h' APIC_REGISTER_LVT_TIMER = lvt m ->
    initialized irq' = initialized (irq m) ->
    handlers irq' !! APIC_TIMER_VECTOR = timer_slot m ->
    apic_step m (ApicMachine (timer m) irq' h').

Lemma apic_step_ok m m' : apic_step m m' -> apic_ok m -> apic_ok m'.
Proof.
  intros Hs Hok. destruct Hs as [pm m|f m|m|f c m|ns m|m|m|m irq' h' El Ei Es].
  - eapply apic_timer_calibrate_ok; [done|apply surjective_pairing].
  - eapply apic_timer_start_ok; [done|apply surjective_pairing].
  - eapply apic_timer_stop_ok; [done|apply surjective_pairing].
  - eapply apic_timer_set_expiry_handler_ok; [done|apply surjective_pairing].
  - eapply apic_timer_arm_oneshot_ok; [done|apply surjective_pairing].
  - eapply apic_timer_disarm_ok; [done|apply surjective_pairing].
  - eapply apic_timer_handler_ok; [done|apply surjective_pairing].
  - destruct Hok as [H1 H2 H3 H4 H5 H6]. split; cbn; rewrite ?El, ?Ei, ?Es; done.
Qed.

(** From a driver that never ran, whatever sequence of operations and timer
    interrupts follows and whatever the rest of the kernel does meanwhile, a
    one-shot deadline and the periodic tick are never active together, each
    active mode has the LVT programmed for it and a positive rate, and the
    interrupt vector is registered exactly while one mode owns it. *)
Theorem apic_timer_reachable_ok m0 m :
  timer m0 = apic_timer_zero -> timer_slot m0 = None -> rtc apic_step m0 m ->
  apic_ok m /\ (armed (timer m) = true -> running (timer m) = false).
Proof.
  intros Ht Hs Hm.
  assert (apic_ok m) as Hok.
  { assert (apic_ok m0) as H0.
    { split; rewrite Ht; try done. by split; [intros [? ?]|]. }
    clear Ht Hs. induction Hm as [|m1 m2 m3 Hstep _ IH]; [done|].
    eauto using apic_step_ok. }
  split; [done|]. intros Ha. destruct (running (timer m)) eqn:Hr; [|done].
  destruct (ok_armed m Hok Ha) as [E _]. destruct (ok_running m Hok Hr) as [E' _]. congruence.
Qed.
End Invariant.

(** ** Waiting for ticks *)

Section WaitTicks.
Context {H : Type} `{!time_hardware H} `{!apic_device H} `{!cpu_flag H}.
Implicit Types m : apic_machine H.

(** An interrupt of the periodic timer, as the wait sees it. *)
Definition ticks_once (wake : apic_machine H -> apic_machine H) : Prop :=
  forall m, tick_counter (timer (wake m)) = u64 (tick_counter (timer m) + 1).

Lemma wait_ticks_returns n wakes m target :
  fits 64 target -> 0 <= tick_counter (timer m) ->
  target <= tick_counter (timer m) + Z.of_nat n ->
  Forall ticks_once wakes -> (n <= length wakes)%nat ->
  exists m', wait_ticks target wakes m = Some m' /\
    tick_counter (timer m') = Z.max target (tick_counter (timer m)).
Proof.
  unfold fits. intros Ht. revert wakes m. induction n as [|n IH]; intros wakes m Hm Hle Hall Hlen.
  - exists m. destruct wakes; cbn [wait_ticks]; rewrite (proj2 (Z.ltb_ge _ _)) by lia; split; done || lia.
  - destruct (decide (tick_counter (timer m) < target)) as [Hlt|Hge].
    + destruct wakes as [|wake wakes]; [cbn in Hlen; lia|]. cbn [wait_ticks].
      rewrite (proj2 (Z.ltb_lt _ _)) by lia. apply Forall_cons in Hall as [Hw Hall].
      specialize (Hw m). rewrite wrap_small in Hw by (unfold fits; lia).
      destruct (IH wakes (wake m)) as (m' & E & Hm'); [lia|lia|done|cbn in Hlen; lia|].
      exists m'. split; [done|]. lia.
    + exists m. destruct wakes; cbn [wait_ticks]; rewrite (proj2 (Z.ltb_ge _ _)) by lia; split; done || lia.
Qed.

(** A wait for [n] ticks of a running timer ends after [n] timer interrupts, at
    the requested tick or at the top of the counter. *)
Lemma apic_timer_wait_for_ticks_returns n wakes m :
  running (timer m) = true -> cpu_interrupts_enabled (hw m) = false ->
  0 < n -> fits 64 (tick_counter (timer m)) -> fits 64 n ->
  Forall ticks_once wakes -> n <= Z.of_nat (length wakes) ->
  exists m', apic_timer_wait_for_ticks n wakes m =
      Some (APIC_TIMER_STATUS_OK, on_hw (cpu_set_interrupts false) m') /\
    tick_counter (timer m') = Z.min UINT64_MAX (tick_counter (timer m) + n).
Proof.
  unfold fits. intros Hr He Hn Ht Hn64 Hall Hlen. unfold apic_timer_wait_for_ticks.
  rewrite Hr, He. cbn [negb]. rewrite (proj2 (Z.eqb_neq n 0)) by lia.
  set (target := if _ <? n then _ else _).
  assert (target = Z.min UINT64_MAX (tick_counter (timer m) + n)) as Et.
  { unfold target. destruct (UINT64_MAX - tick_counter (timer m) <? n) eqn:E;
      unfold UINT64_MAX in *; [lia|].
    rewrite wrap_small by (unfold fits; lia). lia. }
  clearbody target. unfold UINT64_MAX in *.
  destruct (wait_ticks_returns (Z.to_nat n) wakes m target) as (m' & -> & Hm');
    [unfold fits; lia|lia|lia|done|lia|].
  exists m'. split; [done|]. lia.
Qed.
End WaitTicks.

(** ** Samples

    A machine with register memory: ticks of the power management timer, cycles
    of a 2 GHz processor, the APIC registers and the interrupt flag.  The timer's
    current count falls once every 32 cycles, 62.5 MHz. *)
Module ApicSamples.
Record pc := Pc { ticks : Z; cycles : Z; registers : gmap Z Z; enabled : bool }.

#[export] Instance pc_time : time_hardware pc := {
  cpu_in32 _ h :=
    (ticks h mod 2 ^ 32, Pc (ticks h + 1000) (cycles h + 558730) (registers h) (enabled h));
  cpu_read_tsc h := (cycles h mod 2 ^ 64, Pc (ticks h) (cycles h + 20) (registers h) (enabled h));
  cpu_cpuid _ _ _ := CpuidResult CPUID_EXTENDED_POWER 0 0 0x110;
  cpu_interrupts_enabled h := enabled h
}.

#[export] Instance pc_apic : apic_device pc := {
  apic_register_write o v h := Pc (ticks h) (cycles h) (<[o := v]> (registers h)) (enabled h);
  apic_register_read o h :=
    (if o =? APIC_REGISTER_TIMER_CURRENT_COUNT then APIC_TIMER_MAX_COUNT - cycles h / 32
     else default 0 (registers h !! o), h);
  apic_is_online _ := true
}.

#[export] Program Instance pc_laws : apic_device_laws pc := {
  register h o := default 0 (registers h !! o)
}.
Next Obligation.
  intros o v h o' _. cbn. destruct (o' =? o) eqn:E.
  - apply Z.eqb_eq in E as ->. by rewrite lookup_insert_eq.
  - apply Z.eqb_neq in E. by rewrite lookup_insert_ne.
Qed.
Next Obligation. done. Qed.
Next Obligation. done. Qed.
Next Obligation. done. Qed.
Next Obligation. done. Qed.
Next Obligation. done. Qed.

Definition power_on : apic_machine pc :=
  ApicMachine apic_timer_zero (Interrupts true ∅) (Pc 16777000 0 ∅ false).

(** Calibrated against the power management timer, with a handler installed. *)
Definition ready : apic_machine pc :=
  (apic_timer_set_expiry_handler (Some timer_on_expiry) 0
    (apic_timer_calibrate (PmTimerState 0x608 24 false true) power_on).2).2.

Lemma ready_rate : counts_per_second (timer ready) = 62674553 /\ armable ready = true.
Proof. vm_compute. done. Qed.

(** One millisecond is 62674 counts of the calibrated timer. *)
Lemma apic_timer_arm_oneshot_correct_witness :
  let '(st, m') := apic_timer_arm_oneshot 1000000 ready in
  st = APIC_TIMER_STATUS_OK /\ armed (timer m') = true /\
  register (hw m') APIC_REGISTER_TIMER_INITIAL_COUNT = 62674.
Proof.
  destruct ready_rate as [Er Har]. revert Er Har. generalize ready. intros m Er Har.
  pose proof (apic_timer_arm_oneshot_correct 1000000 m) as Ha.
  rewrite Er in Ha. specialize (Ha ltac:(lia) ltac:(done) ltac:(done)).
  cbv zeta in Ha. destruct (apic_timer_arm_oneshot 1000000 m) as [st m'].
  destruct Ha as [[_ Hok] Hm]. rewrite Hok in Hm by done. rewrite decide_True in Hm by done.
  destruct Hm as (-> & _ & _ & ->). split_and!; [by apply Hok|done|done].
Defined.

Lemma apic_timer_reachable_ok_witness :
  armed (timer (apic_timer_arm_oneshot 1000000 ready).2) = true /\
  running (timer (apic_timer_arm_oneshot 1000000 ready).2) = false.
Proof.
  assert (armed (timer (apic_timer_arm_oneshot 1000000 ready).2) = true) as Ha
    by (vm_compute; reflexivity).
  split; [exact Ha|].
  apply (apic_timer_reachable_ok power_on); [reflexivity|reflexivity| |exact Ha].
  eapply rtc_l; [apply (step_calibrate (PmTimerState 0x608 24 false true))|].
  eapply rtc_l; [apply (step_set_handler (Some timer_on_expiry) 0)|].
  apply rtc_once. apply step_arm.
Defined.
End ApicSamples.
