(* ===== verification/Timer.v ===== *)
(** * Deadline timers ([src/kernel/timer.c], [include/rsd/timer.h])

    A table of pending deadlines over the monotonic clock ([Clock]) and the
    one-shot local APIC timer ([ApicTimer]); the table itself is one heap block.
    The state is the record [world]: the driver's static variables, the clock,
    the APIC timer with the hardware, and the heap.

    A callback runs inside the timer interrupt and may read the clock and arm or
    cancel deadlines: its body is a [callback_program], and [client_code] gives
    the body of each client function.  The loop of [expire_reached] has fuel; it
    is proved to be enough. *)

From stdpp Require Import base option list numbers gmap relations sorting.
From S2P Require Import Prelude Clock ApicTimer.

Definition TIMER_MINIMUM_INTERVAL_NS : Z := 100000.
Definition TIMER_SLEEP_GRACE_NS : Z := 50000000.
Definition TIMER_MAX_PENDING : nat := 32.
(** [sizeof(struct timer_entry)]: two words, two pointers and a padded flag. *)
Definition timer_entry_size : Z := 40.

Inductive timer_status :=
| TIMER_STATUS_OK
| TIMER_STATUS_NULL_ARGUMENT
| TIMER_STATUS_NOT_STARTED
| TIMER_STATUS_ALREADY_STARTED
| TIMER_STATUS_NO_CLOCK
| TIMER_STATUS_NO_CAPACITY
| TIMER_STATUS_NO_MEMORY
| TIMER_STATUS_BAD_INTERVAL
| TIMER_STATUS_UNKNOWN_TIMER
| TIMER_STATUS_HARDWARE_FAILURE
| TIMER_STATUS_EXPIRED_LATE.

#[global] Instance timer_status_eq_dec : EqDecision timer_status.
Proof. solve_decision. Defined.

(** Callback functions: the sleep's own, and those of other modules. *)
Inductive timer_callback := sleep_callback | client_callback (n : Z).

Record timer_entry := TimerEntry {
  deadline_ns : Z;
  identifier : Z;
  callback : option timer_callback;
  context : Z;
  in_use : bool
}.

Definition empty_entry : timer_entry := TimerEntry 0 0 None 0 false.
#[global] Instance timer_entry_inhabited : Inhabited timer_entry := populate empty_entry.

(** [table] is the pointer [entries], [slots] what it points to, and [capacity]
    their number. *)
Record timers := Timers {
  table : option Z;
  slots : list timer_entry;
  next_identifier : Z;
  fired_counter : Z;
  started : bool;
  sleep_expired : bool
}.

Definition capacity (t : timers) : nat := length (slots t).

Definition set_slots (l : list timer_entry) (t : timers) : timers :=
  Timers (table t) l (next_identifier t) (fired_counter t) (started t) (sleep_expired t).

(** What a client's callback does with the timer interface. *)
Inductive callback_program :=
| cb_return
| cb_clock (k : Z -> callback_program)
| cb_arm (deadline : Z) (f : option timer_callback) (c : Z)
    (k : timer_status -> Z -> callback_program)
| cb_cancel (id : Z) (k : timer_status -> callback_program).

(** The body of client function [n], called with the deadline and its context. *)
Class client_code := client_body : Z -> Z -> Z -> callback_program.

(** The two heap calls ([heap.c]), [None] and [false] for any failure. *)
Class heap_service (M : Type) := {
  heap_allocate : Z -> M -> option Z * M;
  heap_free : Z -> M -> bool * M
}.

(** ** The table ([slot_of], [free_slot], [earliest_deadline], [pending_slots]) *)

Definition slot_of (id : Z) (l : list timer_entry) : nat :=
  if id =? 0 then length l
  else default (length l) (first_index (fun e => in_use e && (identifier e =? id)) l).

Definition free_slot (l : list timer_entry) : nat :=
  default (length l) (first_index (fun e => negb (in_use e)) l).

(** The scan with its best deadline so far. *)
Fixpoint earliest_scan (l : list timer_entry) (best : option Z) : option Z :=
  match l with
  | [] => best
  | e :: l =>
      if negb (in_use e) then earliest_scan l best
      else match best with
      | Some d => earliest_scan l (if deadline_ns e <? d then Some (deadline_ns e) else best)
      | None => earliest_scan l (Some (deadline_ns e))
      end
  end.

Definition earliest_deadline (l : list timer_entry) : option Z := earliest_scan l None.

Definition pending_slots (l : list timer_entry) : Z := countb in_use l.

(** The inner scan of [expire_reached]: the slot of the earliest entry the
    instant [now] has reached, and its deadline. *)
Fixpoint choose_due (now : Z) (index : nat) (l : list timer_entry) (chosen : option (nat * Z)) :
    option (nat * Z) :=
  match l with
  | [] => chosen
  | e :: l =>
      if negb (in_use e) || (now <? deadline_ns e) then choose_due now (S index) l chosen
      else match chosen with
      | Some (_, d) =>
          choose_due now (S index) l
            (if deadline_ns e <? d then Some (index, deadline_ns e) else chosen)
      | None => choose_due now (S index) l (Some (index, deadline_ns e))
      end
  end.

(** ** Operations *)

Section Operations.
Context {H M : Type} `{!time_hardware H} `{!apic_device H} `{!cpu_flag H}
  `{!heap_service M} `{!client_code}.

Record world := World {
  tm : timers;
  clk : clock_state;
  tsc : tsc_state;
  apic : apic_machine H;
  memory : M
}.
Implicit Types w : world.

Definition on_tm (f : timers -> timers) w : world :=
  World (f (tm w)) (clk w) (tsc w) (apic w) (memory w).
Definition with_apic (a : apic_machine H) w : world :=
  World (tm w) (clk w) (tsc w) a (memory w).
Definition with_memory (m : M) w : world := World (tm w) (clk w) (tsc w) (apic w) m.
Definition set_interrupts (b : bool) w : world :=
  with_apic (on_hw (cpu_set_interrupts b) (apic w)) w.
Definition interrupts_on w : bool := cpu_interrupts_enabled (hw (apic w)).

(** [clock_monotonic_ns()]. *)
Definition read_clock w : Z * world :=
  let '(now, c, h) := clock_monotonic_ns (tsc w) (clk w) (hw (apic w)) in
  (now, World (tm w) c (tsc w) (on_hw (fun _ => h) (apic w)) (memory w)).

Definition clear_slot (i : nat) (l : list timer_entry) : list timer_entry :=
  <[i := empty_entry]> l.

Definition reprogram w : timer_status * world :=
  let '(disarmed, w) :=
    if apic_timer_is_armed (apic w) then
      let '(st, a) := apic_timer_disarm (apic w) in
      (bool_decide (st = APIC_TIMER_STATUS_OK), with_apic a w)
    else (true, w) in
  if negb disarmed then (TIMER_STATUS_HARDWARE_FAILURE, w)
  else match earliest_deadline (slots (tm w)) with
  | None => (TIMER_STATUS_OK, w)
  | Some deadline =>
      let '(now, w) := read_clock w in
      let interval := if now <? deadline then deadline - now else 0 in
      let interval :=
        if interval <? TIMER_MINIMUM_INTERVAL_NS then TIMER_MINIMUM_INTERVAL_NS else interval in
      let '(st, a) := apic_timer_arm_oneshot interval (apic w) in
      (if decide (st = APIC_TIMER_STATUS_OK) then TIMER_STATUS_OK
       else TIMER_STATUS_HARDWARE_FAILURE, with_apic a w)
  end.

(** The status, [*identifier] and the world; [id_out] is [identifier != NULL].
    A null argument leaves [*identifier] alone. *)
Definition timer_arm (deadline : Z) (f : option timer_callback) (c : Z) (id_out : bool) w :
    timer_status * Z * world :=
  match f with
  | None => (TIMER_STATUS_NULL_ARGUMENT, 0, w)
  | Some _ =>
      if negb id_out then (TIMER_STATUS_NULL_ARGUMENT, 0, w)
      else if negb (started (tm w)) then (TIMER_STATUS_NOT_STARTED, 0, w)
      else
        let '(now, w) := read_clock w in
        if (deadline <? now) || (deadline - now <? TIMER_MINIMUM_INTERVAL_NS) then
          (TIMER_STATUS_BAD_INTERVAL, 0, w)
        else
          let slot := free_slot (slots (tm w)) in
          if (slot =? capacity (tm w))%nat then (TIMER_STATUS_NO_CAPACITY, 0, w)
          else
            let id := next_identifier (tm w) in
            let w := on_tm (fun t =>
              Timers (table t) (<[slot := TimerEntry deadline id f c true]> (slots t))
                (u64 (next_identifier t + 1)) (fired_counter t) (started t) (sleep_expired t)) w in
            let '(st, w) := reprogram w in
            if decide (st = TIMER_STATUS_OK) then
              (TIMER_STATUS_OK, identifier (slots (tm w) !!! slot), w)
            else
              (TIMER_STATUS_HARDWARE_FAILURE, 0,
               on_tm (fun t => set_slots (clear_slot slot (slots t)) t) w)
  end.

Definition timer_cancel (id : Z) w : timer_status * world :=
  let slot := slot_of id (slots (tm w)) in
  if negb (started (tm w)) then (TIMER_STATUS_NOT_STARTED, w)
  else if (slot =? capacity (tm w))%nat then (TIMER_STATUS_UNKNOWN_TIMER, w)
  else reprogram (on_tm (fun t => set_slots (clear_slot slot (slots t)) t) w).

Fixpoint run_program (p : callback_program) w : world :=
  match p with
  | cb_return => w
  | cb_clock k => let '(now, w) := read_clock w in run_program (k now) w
  | cb_arm d f c k => let '(st, id, w) := timer_arm d f c true w in run_program (k st id) w
  | cb_cancel id k => let '(st, w) := timer_cancel id w in run_program (k st) w
  end.

Definition run_callback (f : timer_callback) (deadline c : Z) w : world :=
  match f with
  | sleep_callback =>
      on_tm (fun t => Timers (table t) (slots t) (next_identifier t) (fired_counter t)
                        (started t) true) w
  | client_callback n => run_program (client_body n deadline c) w
  end.

(** The loop of [expire_reached]; the result lists the entries that fired. *)
Fixpoint expire_loop (fuel : nat) (now : Z) w : option (list timer_entry * world) :=
  match fuel with
  | O => None
  | S fuel =>
      match choose_due now 0 (slots (tm w)) None with
      | None => Some ([], w)
      | Some (i, _) =>
          let due := slots (tm w) !!! i in
          let w := on_tm (fun t => set_slots (clear_slot i (slots t)) t) w in
          let w := match callback due with
                   | Some f => run_callback f (deadline_ns due) (context due) w
                   | None => w
                   end in
          '(fired, w) ← expire_loop fuel now w; Some (due :: fired, w)
      end
  end.

Definition expire_reached (now : Z) w : option (list timer_entry * world) :=
  expire_loop (S (capacity (tm w))) now w.

Definition on_expiry w : option world :=
  let '(now, w) := read_clock w in
  '(fired, w) ← expire_reached now w;
  let w := on_tm (fun t => Timers (table t) (slots t) (next_identifier t)
             (u64 (fired_counter t + Z.of_nat (length fired))) (started t) (sleep_expired t)) w in
  Some (reprogram w).2.

(** The processor takes the timer interrupt: interrupts are off while the handler
    runs and the flag is restored on return. *)
Definition timer_interrupt w : option world :=
  let flag := interrupts_on w in
  let w := set_interrupts false w in
  let '(f, a) := apic_timer_handler (apic w) in
  let w := with_apic a w in
  w ← match f with Some (timer_on_expiry, _) => on_expiry w | None => Some w end;
  Some (set_interrupts flag w).

Definition timer_start w : timer_status * world :=
  if started (tm w) then (TIMER_STATUS_ALREADY_STARTED, w)
  else if bool_decide (table (tm w) <> None) || negb (capacity (tm w) =? 0)%nat then
    (TIMER_STATUS_ALREADY_STARTED, w)
  else if interrupts_on w then (TIMER_STATUS_HARDWARE_FAILURE, w)
  else if negb (clock_is_started (clk w)) then (TIMER_STATUS_NO_CLOCK, w)
  else
    let '(p, mem) := heap_allocate (timer_entry_size * Z.of_nat TIMER_MAX_PENDING) (memory w) in
    let w := with_memory mem w in
    match p with
    | None => (TIMER_STATUS_NO_MEMORY, w)
    | Some p =>
        let w := on_tm (fun t => Timers (Some p) (replicate TIMER_MAX_PENDING empty_entry)
          (next_identifier t) (fired_counter t) (started t) (sleep_expired t)) w in
        let '(st, a) := apic_timer_set_expiry_handler (Some timer_on_expiry) 0 (apic w) in
        let w := with_apic a w in
        if decide (st = APIC_TIMER_STATUS_OK) then
          (TIMER_STATUS_OK, on_tm (fun t => Timers (table t) (slots t) (next_identifier t)
             (fired_counter t) true (sleep_expired t)) w)
        else
          let w := with_memory (heap_free p (memory w)).2 w in
          (TIMER_STATUS_HARDWARE_FAILURE,
           on_tm (fun t => Timers None [] (next_identifier t) (fired_counter t) (started t)
             (sleep_expired t)) w)
    end.

Definition timer_stop w : timer_status * world :=
  if negb (started (tm w)) then (TIMER_STATUS_NOT_STARTED, w)
  else if interrupts_on w then (TIMER_STATUS_HARDWARE_FAILURE, w)
  else
    let '(disarmed, w) :=
      if apic_timer_is_armed (apic w) then
        let '(st, a) := apic_timer_disarm (apic w) in
        (bool_decide (st = APIC_TIMER_STATUS_OK), with_apic a w)
      else (true, w) in
    if negb disarmed then (TIMER_STATUS_HARDWARE_FAILURE, w)
    else
      let w := on_tm (fun t => set_slots (replicate (capacity t) empty_entry) t) w in
      let '(st, a) := apic_timer_set_expiry_handler None 0 (apic w) in
      let w := with_apic a w in
      if decide (st = APIC_TIMER_STATUS_OK) then
        let '(freed, mem) :=
          match table (tm w) with
          | Some p => heap_free p (memory w)
          | None => (false, memory w)
          end in
        let w := with_memory mem w in
        if freed then
          (TIMER_STATUS_OK, on_tm (fun t => Timers None [] (next_identifier t) (fired_counter t)
             false (sleep_expired t)) w)
        else (TIMER_STATUS_NO_MEMORY, w)
      else (TIMER_STATUS_HARDWARE_FAILURE, w).

Definition timer_pending_count w : Z := pending_slots (slots (tm w)).
End Operations.
Arguments world : clear implicits.

(** ** The table scans *)

Definition due (now : Z) (e : timer_entry) : bool := in_use e && (deadline_ns e <=? now).
Abbreviation due_entries now l := (filter (fun e => due now e = true) l).

(** [earliest_deadline] is the minimum over the pending entries. *)
Lemma earliest_scan_spec l best :
  match earliest_scan l best with
  | Some d =>
      (best = Some d \/ exists e, e ∈ l /\ in_use e = true /\ deadline_ns e = d) /\
      (forall b, best = Some b -> d <= b) /\
      (forall e, e ∈ l -> in_use e = true -> d <= deadline_ns e)
  | None => best = None /\ forall e, e ∈ l -> in_use e = false
  end.
Proof.
  revert best. induction l as [|x l IH]; intros best; cbn [earliest_scan].
  { destruct best; [|by split; [|intros e He; apply elem_of_nil in He]].
    split_and!; [by left|intros ? [= ->]; lia|intros e He; by apply elem_of_nil in He]. }
  destruct (in_use x) eqn:Ex; cbn [negb].
  - set (b := match best with Some d => if deadline_ns x <? d then deadline_ns x else d
              | None => deadline_ns x end).
    replace (match best with
      | Some d => earliest_scan l (if deadline_ns x <? d then Some (deadline_ns x) else best)
      | None => earliest_scan l (Some (deadline_ns x)) end) with (earliest_scan l (Some b))
      by (unfold b; destruct best; [destruct (_ <? _)|]; done).
    specialize (IH (Some b)).
    assert (b <= deadline_ns x /\ forall d, best = Some d -> b <= d) as [Hb1 Hb2].
    { unfold b. destruct best as [d|]; [|by split].
      destruct (deadline_ns x <? d) eqn:E; split; try lia; intros ? [= ->]; lia. }
    assert (best = Some b \/ b = deadline_ns x) as Hb3
      by (unfold b; destruct best; [destruct (_ <? _)|]; auto).
    clearbody b. destruct (earliest_scan l (Some b)) as [d|]; [|by destruct IH].
    destruct IH as (Hin & Hle & Hall). specialize (Hle b eq_refl). split_and!.
    + destruct Hin as [[= <-]|(e & He & Hu & <-)].
      * destruct Hb3 as [->| ->]; [by left|right; exists x]. split_and!; [left|done|done].
      * right. exists e. split_and!; [by right|done|done].
    + intros c Hc. specialize (Hb2 c Hc). lia.
    + intros e [->|He]%elem_of_cons Hu; [lia|]. by apply Hall.
  - specialize (IH best). destruct (earliest_scan l best) as [d|].
    + destruct IH as (Hin & Hle & Hall). split_and!; [|done|].
      * destruct Hin as [?|(e & He & ?)]; [by left|right; exists e; split; [by right|done]].
      * intros e [->|He]%elem_of_cons Hu; [congruence|]. by apply Hall.
    + destruct IH as [-> Hall]. split; [done|].
      intros e [->|He]%elem_of_cons; [done|]. by apply Hall.
Qed.

Lemma earliest_deadline_spec l :
  match earliest_deadline l with
  | Some d =>
      (exists e, e ∈ l /\ in_use e = true /\ deadline_ns e = d) /\
      (forall e, e ∈ l -> in_use e = true -> d <= deadline_ns e)
  | None => forall e, e ∈ l -> in_use e = false
  end.
Proof.
  pose proof (earliest_scan_spec l None) as Hs. unfold earliest_deadline.
  destruct (earliest_scan l None); [|by destruct Hs].
  destruct Hs as ([[=]|?] & _ & ?). by split.
Qed.

(** The slot [expire_reached] chooses holds a due entry, and no due entry of the
    table is earlier. *)
Lemma choose_due_spec now i l chosen :
  match choose_due now i l chosen with
  | Some (j, d) =>
      (chosen = Some (j, d) \/
       exists k e, j = (i + k)%nat /\ l !! k = Some e /\ due now e = true /\ deadline_ns e = d) /\
      (forall c b, chosen = Some (c, b) -> d <= b) /\
      (forall e, e ∈ l -> due now e = true -> d <= deadline_ns e)
  | None => chosen = None /\ forall e, e ∈ l -> due now e = false
  end.
Proof.
  revert i chosen. induction l as [|x l IH]; intros i chosen; cbn [choose_due].
  { destruct chosen as [[j d]|]; [|by split; [|intros e He; apply elem_of_nil in He]].
    split_and!; [by left|intros ? ? [= -> ->]; lia|intros e He; by apply elem_of_nil in He]. }
  assert (negb (in_use x) || (now <? deadline_ns x) = negb (due now x)) as ->
    by (unfold due; destruct (in_use x); cbn; [|done]; rewrite Z.ltb_antisym; done).
  destruct (due now x) eqn:Ex; cbn [negb].
  - set (b := match chosen with
              | Some (c, d) => if deadline_ns x <? d then (i, deadline_ns x) else (c, d)
              | None => (i, deadline_ns x) end).
    replace (match chosen with
      | Some (_, d) => choose_due now (S i) l
          (if deadline_ns x <? d then Some (i, deadline_ns x) else chosen)
      | None => choose_due now (S i) l (Some (i, deadline_ns x)) end)
      with (choose_due now (S i) l (Some b))
      by (unfold b; destruct chosen as [[c d]|]; [destruct (_ <? _)|]; done).
    specialize (IH (S i) (Some b)).
    assert (b.2 <= deadline_ns x /\ forall c d, chosen = Some (c, d) -> b.2 <= d) as [Hb1 Hb2].
    { unfold b. destruct chosen as [[c d]|]; [|by split].
      destruct (deadline_ns x <? d) eqn:E; cbn; split; try lia; intros ? ? [= -> ->]; lia. }
    assert (chosen = Some b \/ b = (i, deadline_ns x)) as Hb3
      by (unfold b; destruct chosen as [[c d]|]; [destruct (_ <? _)|]; auto).
    clearbody b. destruct (choose_due now (S i) l (Some b)) as [[j d]|]; [|by destruct IH].
    destruct IH as (Hin & Hle & Hall). destruct b as [bi bd].
    specialize (Hle bi bd eq_refl). cbn [snd] in *. split_and!.
    + destruct Hin as [[= -> ->]|(k & e & -> & He & Hu & <-)].
      * destruct Hb3 as [->|[= -> ->]]; [by left|right; exists 0%nat, x].
        split_and!; [lia|done|done|done].
      * right. exists (S k), e. split_and!; [lia|done|done|done].
    + intros c e Hc. specialize (Hb2 c e Hc). lia.
    + intros e [->|He]%elem_of_cons Hu; [lia|]. by apply Hall.
  - specialize (IH (S i) chosen). destruct (choose_due now (S i) l chosen) as [[j d]|].
    + destruct IH as (Hin & Hle & Hall). split_and!; [|done|].
      * destruct Hin as [?|(k & e & -> & He & Hu & <-)]; [by left|right].
        exists (S k), e. split_and!; [lia|done|done|done].
      * intros e [->|He]%elem_of_cons Hu; [congruence|]. by apply Hall.
    + destruct IH as [-> Hall]. split; [done|].
      intros e [->|He]%elem_of_cons; [done|]. by apply Hall.
Qed.

Section Facts.
Context {H M : Type} `{!time_hardware H} `{!apic_device H} `{!cpu_flag H}
  `{!heap_service M} `{!client_code}.
Implicit Types w : world H M.

(** ** Time only moves forward *)

(** The clock of [w'] is a later state of the clock of [w]. *)
Definition later w w' : Prop :=
  tsc w' = tsc w /\ clock_started (clk w') = clock_started (clk w) /\
  (clock_started (clk w) = true -> last_reported_ns (clk w) <= last_reported_ns (clk w')).

#[global] Instance later_preorder : PreOrder later.
Proof.
  split.
  - intros w. by split_and!.
  - intros w1 w2 w3 (E1 & E2 & E3) (F1 & F2 & F3). split_and!; [congruence..|].
    intros Hs. rewrite E2 in F3. specialize (E3 Hs). specialize (F3 Hs). lia.
Qed.

Lemma read_clock_spec w now w' :
  read_clock w = (now, w') ->
  tm w' = tm w /\ later w w' /\ timer (apic w') = timer (apic w) /\ irq (apic w') = irq (apic w) /\
  memory w' = memory w /\ (clock_started (clk w) = true -> now = last_reported_ns (clk w')).
Proof.
  unfold read_clock. destruct (clock_monotonic_ns _ _ _) as [[v c] h] eqn:E. intros [= <- <-].
  destruct (clock_started (clk w)) eqn:Hs.
  - apply clock_monotonic_ns_step in E as (Hle & Hv & Hst & _); [|done].
    split_and!; try done. unfold later; cbn. split_and!; [done|congruence|lia].
  - unfold clock_monotonic_ns in E. rewrite Hs in E. injection E as <- <- <-.
    split_and!; try done.
Qed.

Lemma reprogram_frame w st w' :
  reprogram w = (st, w') -> tm w' = tm w /\ later w w' /\ memory w' = memory w.
Proof.
  unfold reprogram.
  set (x := if apic_timer_is_armed (apic w) then _ else (true, w)).
  assert (tm x.2 = tm w /\ later w x.2 /\ memory x.2 = memory w) as (E1 & E2 & E3).
  { unfold x. destruct (apic_timer_is_armed _); [|by split_and!].
    destruct (apic_timer_disarm _) as [s a]. by split_and!. }
  destruct x as [disarmed w1]. cbn [snd] in *.
  destruct (negb disarmed); [by intros [= <- <-]|].
  destruct (earliest_deadline _) as [d|]; [|by intros [= <- <-]].
  destruct (read_clock w1) as [now w2] eqn:Er.
  apply read_clock_spec in Er as (F1 & F2 & _ & _ & F3 & _).
  destruct (apic_timer_arm_oneshot _ _) as [s a]. intros [= <- <-].
  split_and!; cbn; [congruence| |congruence]. etrans; [exact E2|]. etrans; [exact F2|done].
Qed.

(** ** What a callback can do to the table *)

(** The entries due at [now] in [w'] were already there in [w]: the table has the
    same slots, and whatever was armed since lies after [now]. *)
Definition settles (now : Z) w w' : Prop :=
  later w w' /\ capacity (tm w') = capacity (tm w) /\
  started (tm w') = started (tm w) /\ table (tm w') = table (tm w) /\
  fired_counter (tm w') = fired_counter (tm w) /\
  forall i e, slots (tm w') !! i = Some e -> due now e = true -> slots (tm w) !! i = Some e.

Lemma settles_refl now w : settles now w w.
Proof. by split_and!. Qed.

Lemma settles_trans now w1 w2 w3 : settles now w1 w2 -> settles now w2 w3 -> settles now w1 w3.
Proof.
  intros (E1 & E2 & E3 & E4 & E5 & E6) (F1 & F2 & F3 & F4 & F5 & F6).
  split_and!; [by etrans|congruence..|]. intros i e He Hd. by apply E6; [apply F6|].
Qed.

Lemma settles_same now w w' : later w w' -> tm w' = tm w -> settles now w w'.
Proof. intros Hl E. split_and!; [done|by rewrite E..|]. intros i e. by rewrite E. Qed.

(** Clearing a slot never makes anything due. *)
Lemma settles_clear now w i :
  settles now w (on_tm (fun t => set_slots (clear_slot i (slots t)) t) w).
Proof.
  split_and!; try done; [apply length_insert|].
  intros j e. cbn. unfold clear_slot. intros He Hd.
  apply list_lookup_insert_Some in He as [(<- & <- & _)|[_ He]]; [done|done].
Qed.

Lemma read_clock_settles now w v w' : read_clock w = (v, w') -> settles now w w'.
Proof. intros (E & Hl & _)%read_clock_spec. by apply settles_same. Qed.

Lemma timer_arm_settles now d f c out w st id w' :
  clock_started (clk w) = true -> now <= last_reported_ns (clk w) ->
  timer_arm d f c out w = (st, id, w') -> settles now w w'.
Proof.
  intros Hst Hnow. unfold timer_arm. destruct f as [f|]; [|intros [= <- <- <-]; apply settles_refl].
  destruct (negb out); [intros [= <- <- <-]; apply settles_refl|].
  destruct (negb (started _)); [intros [= <- <- <-]; apply settles_refl|].
  destruct (read_clock w) as [v w1] eqn:Er.
  pose proof (read_clock_settles now _ _ _ Er) as S1.
  apply read_clock_spec in Er as (Et & Hl & _ & _ & _ & Hv). specialize (Hv Hst).
  destruct ((d <? v) || _) eqn:Ei; [by intros [= <- <- <-]|].
  apply orb_false_iff in Ei as [Ei1 Ei2].
  destruct (_ =? _)%nat eqn:Ec; [by intros [= <- <- <-]|].
  set (w2 := on_tm _ w1). destruct Hl as (_ & _ & Hl). specialize (Hl Hst).
  assert (settles now w1 w2) as S2.
  { split_and!; try done; [apply length_insert|]. intros i e. cbn. intros He Hd.
    apply list_lookup_insert_Some in He as [(<- & <- & _)|[_ He]]; [|done].
    unfold due in Hd. cbn in Hd. unfold TIMER_MINIMUM_INTERVAL_NS in Ei2. lia. }
  destruct (reprogram w2) as [st2 w3] eqn:Ep.
  apply reprogram_frame in Ep as (E3 & Hl3 & _).
  pose proof (settles_same now w2 w3 Hl3 E3) as S3.
  case_decide; intros [= <- <- <-].
  - eauto using settles_trans.
  - eauto 10 using settles_trans, settles_clear.
Qed.

Lemma timer_cancel_settles now id w st w' :
  timer_cancel id w = (st, w') -> settles now w w'.
Proof.
  unfold timer_cancel. destruct (negb (started _)); [intros [= <- <-]; apply settles_refl|].
  destruct (_ =? _)%nat; [intros [= <- <-]; apply settles_refl|].
  intros (E & Hl & _)%reprogram_frame.
  eapply settles_trans; [apply settles_clear|]. by eapply settles_same.
Qed.

(** A callback, whatever it arms and cancels, settles the instant that fired it. *)
Lemma run_program_settles now p w :
  clock_started (clk w) = true -> now <= last_reported_ns (clk w) ->
  settles now w (run_program p w).
Proof.
  revert w. induction p as [|k IH|d f c k IH|id k IH]; intros w Hst Hnow; cbn [run_program].
  - apply settles_refl.
  - destruct (read_clock w) as [v w1] eqn:E. apply (read_clock_settles now) in E.
    destruct E as (L & E). pose proof L as (_ & L2 & L3). specialize (L3 Hst).
    eapply settles_trans; [split; [exact L|exact E]|]. apply IH; [congruence|lia].
  - destruct (timer_arm d f c true w) as [[st id] w1] eqn:E.
    apply (timer_arm_settles now) in E; [|done|done].
    destruct E as (L & E). pose proof L as (_ & L2 & L3). specialize (L3 Hst).
    eapply settles_trans; [split; [exact L|exact E]|]. apply IH; [congruence|lia].
  - destruct (timer_cancel id w) as [st w1] eqn:E. apply (timer_cancel_settles now) in E.
    destruct E as (L & E). pose proof L as (_ & L2 & L3). specialize (L3 Hst).
    eapply settles_trans; [split; [exact L|exact E]|]. apply IH; [congruence|lia].
Qed.

Lemma run_callback_settles now f d c w :
  clock_started (clk w) = true -> now <= last_reported_ns (clk w) ->
  settles now w (run_callback f d c w).
Proof.
  intros Hst Hnow. destruct f; cbn [run_callback]; [by split_and!|].
  by apply run_program_settles.
Qed.

(** ** Firing the deadlines an instant has reached *)

Lemma due_entries_shrink now w w' :
  settles now w w' -> due_entries now (slots (tm w')) `sublist_of` due_entries now (slots (tm w)).
Proof.
  intros (_ & Hlen & _ & _ & _ & Hpt). revert Hlen Hpt. unfold capacity.
  generalize (slots (tm w)) (slots (tm w')). intros l. induction l as [|x l IH]; intros l' Hlen Hpt.
  { by destruct l'. }
  destruct l' as [|y l']; [done|]. cbn in Hlen.
  assert (due_entries now l' `sublist_of` due_entries now l) as Hs.
  { apply IH; [lia|]. intros i e He. exact (Hpt (S i) e He). }
  destruct (decide (due now y = true)) as [Hy|Hy].
  - specialize (Hpt 0%nat y eq_refl Hy). injection Hpt as ->.
    rewrite !filter_cons_True by done. by apply sublist_skip.
  - rewrite (filter_cons_False _ y) by done. destruct (decide (due now x = true)).
    + rewrite filter_cons_True by done. by apply sublist_cons.
    + by rewrite filter_cons_False.
Qed.

Lemma due_entries_clear now l i e :
  l !! i = Some e -> due now e = true ->
  due_entries now l ≡ₚ e :: due_entries now (clear_slot i l).
Proof.
  intros Hi Hd. pose proof (lookup_lt_Some _ _ _ Hi) as Hlt. unfold clear_slot.
  rewrite <- (take_drop_middle l i e Hi) at 1. rewrite insert_take_drop by done.
  rewrite !filter_app, filter_cons_True by done.
  rewrite (filter_cons_False _ empty_entry) by done. by rewrite Permutation_middle.
Qed.

(** A firing that runs no client code touches nothing but the slot it empties. *)
Definition quiet (e : timer_entry) : Prop :=
  match callback e with Some (client_callback _) => False | _ => True end.

Lemma expire_loop_spec fuel now w :
  clock_started (clk w) = true -> now <= last_reported_ns (clk w) ->
  (length (due_entries now (slots (tm w))) < fuel)%nat ->
  exists fired w', expire_loop fuel now w = Some (fired, w') /\
    settles now w w' /\ due_entries now (slots (tm w')) = [] /\
    fired ⊆+ due_entries now (slots (tm w)) /\
    StronglySorted Z.le (map deadline_ns fired) /\
    (Forall quiet (due_entries now (slots (tm w))) ->
     fired ≡ₚ due_entries now (slots (tm w))).
Proof.
  revert w. induction fuel as [|fuel IH]; intros w Hst Hnow Hlen; [lia|]. cbn [expire_loop].
  pose proof (choose_due_spec now 0 (slots (tm w)) None) as Hc.
  destruct (choose_due _ _ _ _) as [[i d]|].
  2: { destruct Hc as [_ Hnone]. exists [], w.
    assert (due_entries now (slots (tm w)) = []) as E0.
    { destruct (due_entries now (slots (tm w))) as [|e l] eqn:E; [done|].
      assert (e ∈ due_entries now (slots (tm w))) as He by (rewrite E; left).
      apply list_elem_of_filter in He as [He1 He2]. specialize (Hnone e He2). congruence. }
    rewrite E0. split_and!; try done; constructor. }
  destruct Hc as ([[=]|(k & e & -> & He & Hd & <-)] & _ & Hmin). cbn [Nat.add] in *.
  rewrite (list_lookup_total_correct _ _ _ He).
  set (w1 := on_tm _ w). pose proof (due_entries_clear now _ _ _ He Hd) as Hp.
  change (clear_slot k (slots (tm w))) with (slots (tm w1)) in Hp.
  set (w2 := match callback e with Some f => _ | None => w1 end).
  assert (settles now w1 w2) as S2.
  { unfold w2. destruct (callback e); [by apply run_callback_settles|apply settles_refl]. }
  assert (settles now w w2) as S02 by (eapply settles_trans; [apply settles_clear|exact S2]).
  assert (quiet e -> slots (tm w2) = slots (tm w1)) as E2
    by (unfold w2, quiet; by destruct (callback e) as [[|n]|]).
  clearbody w2. pose proof (due_entries_shrink _ _ _ S2) as Hsub.
  pose proof S02 as ((_ & L2 & L3) & _). specialize (L3 Hst).
  destruct (IH w2) as (fired & w' & -> & S3 & Hnone & Hf & Hsort & Hq); [congruence|lia| |].
  { apply sublist_length in Hsub. rewrite Hp in Hlen. cbn [length] in Hlen. lia. }
  assert (fired ⊆+ due_entries now (slots (tm w1))) as Hf1
    by (etrans; [exact Hf|by apply sublist_submseteq]).
  exists (e :: fired), w'. cbn. split_and!; try done.
  - by eapply settles_trans.
  - rewrite Hp. by apply submseteq_skip.
  - constructor; [done|]. apply Forall_map, Forall_forall. intros x Hx. cbn.
    apply (elem_of_submseteq _ _ x) in Hf1; [|done].
    assert (x ∈ due_entries now (slots (tm w))) as [Hx1 Hx2]%list_elem_of_filter
      by (rewrite Hp; by right).
    by apply Hmin.
  - intros Hquiet. rewrite Hp in *. apply Forall_cons in Hquiet as [Hqe Hql].
    rewrite (E2 Hqe) in Hq. by rewrite Hq.
Qed.

(** C22: Handling an instant terminates, whatever the callbacks do: each callback
    may read the clock and arm and cancel any number of deadlines, and the loop
    still ends within one pass per slot.  Afterwards nothing pending has been
    reached by that instant; what fired had been reached, was pending in the
    table before, fired at most once and in the order of the deadlines; and if no
    client code ran in between, exactly the reached entries fired. *)
Theorem expire_reached_correct now w :
  clock_started (clk w) = true -> now <= last_reported_ns (clk w) ->
  exists fired w', expire_reached now w = Some (fired, w') /\
    settles now w w' /\ due_entries now (slots (tm w')) = [] /\
    fired ⊆+ due_entries now (slots (tm w)) /\
    StronglySorted Z.le (map deadline_ns fired) /\
    (Forall quiet (due_entries now (slots (tm w))) ->
     fired ≡ₚ due_entries now (slots (tm w))).
Proof.
  intros Hst Hnow. apply expire_loop_spec; [done|done|].
  unfold capacity. pose proof (length_filter (fun e => due now e = true) (slots (tm w))). lia.
Qed.
End Facts.

(** ** Programming the hardware *)

(** [sti] and [cli] change the interrupt flag and nothing else. *)
Class cpu_flag_laws (H : Type) `{!time_hardware H} `{!apic_device H} `{!apic_device_laws H}
    `{!cpu_flag H} := {
  set_flag b (h : H) : cpu_interrupts_enabled (cpu_set_interrupts b h) = b;
  set_flag_online b (h : H) : apic_is_online (cpu_set_interrupts b h) = apic_is_online h;
  set_flag_register b (h : H) o : register (cpu_set_interrupts b h) o = register h o
}.

Section Hardware.
Context {H M : Type} `{!time_hardware H} `{!apic_device H} `{!apic_device_laws H}
  `{!cpu_flag H} `{!cpu_flag_laws H} `{!heap_service M} `{!client_code}.
Implicit Types w : world H M.
Implicit Types a : apic_machine H.

(** The APIC timer can take a one-shot deadline, once nothing is armed. *)
Definition usable a : Prop :=
  apic_is_online (hw a) = true /\ cpu_interrupts_enabled (hw a) = false /\
  rate_known (timer a) = true /\ running (timer a) = false /\ oneshot_ready (timer a) = true.

(** What the hardware is left programmed to: the nearest deadline, clamped to the
    minimum interval, as a count of the timer. *)
Definition programmed_count w (d : Z) : apic_timer_status * Z :=
  count_for_nanoseconds (counts_per_second (timer (apic w)))
    (Z.max TIMER_MINIMUM_INTERVAL_NS (d - last_reported_ns (clk w))).

(** The hardware follows the table: it is armed for the nearest pending deadline,
    or off, with status [st], when nothing is pending or that deadline is too far
    away for the count register. *)
Definition follows w (st : timer_status) : Prop :=
  match earliest_deadline (slots (tm w)) with
  | None => st = TIMER_STATUS_OK /\ armed (timer (apic w)) = false
  | Some d =>
      match programmed_count w d with
      | (APIC_TIMER_STATUS_OK, count) =>
          st = TIMER_STATUS_OK /\ armed (timer (apic w)) = true /\
          register (hw (apic w)) APIC_REGISTER_LVT_TIMER =
            APIC_TIMER_MODE_ONE_SHOT .| APIC_TIMER_VECTOR /\
          register (hw (apic w)) APIC_REGISTER_TIMER_INITIAL_COUNT = count
      | _ => st = TIMER_STATUS_HARDWARE_FAILURE /\ armed (timer (apic w)) = false
      end
  end.

Lemma follows_pending w st d :
  follows w st -> earliest_deadline (slots (tm w)) = Some d ->
  (st = TIMER_STATUS_OK /\ armed (timer (apic w)) = true /\
   (programmed_count w d).1 = APIC_TIMER_STATUS_OK) \/
  (st = TIMER_STATUS_HARDWARE_FAILURE /\ armed (timer (apic w)) = false /\
   (programmed_count w d).1 <> APIC_TIMER_STATUS_OK).
Proof.
  unfold follows. intros Hf Hd. rewrite Hd in Hf. destruct (programmed_count w d) as [st' count].
  cbn [fst]. destruct (decide (st' = APIC_TIMER_STATUS_OK)) as [-> | Hn].
  - left. by destruct Hf as (? & ? & _).
  - right. destruct st'; done || by destruct Hf.
Qed.

Lemma disarm_usable a st a' :
  usable a -> armed (timer a) = true -> apic_timer_disarm a = (st, a') ->
  st = APIC_TIMER_STATUS_OK /\ usable a' /\ armed (timer a') = false /\
  counts_per_second (timer a') = counts_per_second (timer a).
Proof.
  intros (Hon & Hen & Hrate & Hrun & Hready) Harm. unfold apic_timer_disarm.
  rewrite Hen, Harm. cbn [negb]. intros [= <- <-].
  destruct (stop_counting_flags (hw a)) as [E1 E2].
  split_and!; try done. unfold usable. cbn. rewrite E1, E2. by split_and!.
Qed.

Lemma read_clock_usable w now w' :
  usable (apic w) -> read_clock w = (now, w') -> usable (apic w').
Proof.
  intros (Hon & Hen & Hrate & Hrun & Hready). unfold read_clock, clock_monotonic_ns, tsc_read.
  destruct (negb (clock_started _)).
  - intros [= <- <-]. by split_and!.
  - destruct (tsc_frame (hw (apic w))) as (F1 & F2 & _).
    destruct (cpu_read_tsc (hw (apic w))) as [v h]. destruct (monotonic_step _ _ _).
    intros [= <- <-]. cbn [fst snd] in *. unfold usable. cbn. by rewrite F1, F2.
Qed.

Lemma interval_clamp d now :
  (let interval := if now <? d then d - now else 0 in
   if interval <? TIMER_MINIMUM_INTERVAL_NS then TIMER_MINIMUM_INTERVAL_NS else interval) =
  Z.max TIMER_MINIMUM_INTERVAL_NS (d - now).
Proof.
  unfold TIMER_MINIMUM_INTERVAL_NS. cbv zeta.
  destruct (now <? d) eqn:E; destruct (_ <? 100000) eqn:E2; lia.
Qed.

(** [reprogram] on every branch. *)
Lemma reprogram_follows w st w' :
  usable (apic w) -> clock_started (clk w) = true -> reprogram w = (st, w') ->
  usable (apic w') /\ follows w' st /\
  counts_per_second (timer (apic w')) = counts_per_second (timer (apic w)).
Proof.
  intros Hus Hst E. pose proof (reprogram_frame _ _ _ E) as (Etm & _). revert E. unfold reprogram.
  set (x := if apic_timer_is_armed (apic w) then _ else (true, w)).
  assert (x.1 = true /\ usable (apic x.2) /\ armed (timer (apic x.2)) = false /\
    counts_per_second (timer (apic x.2)) = counts_per_second (timer (apic w)) /\
    tm x.2 = tm w /\ clk x.2 = clk w) as (E1 & E2 & E3 & E4 & E5 & E6).
  { unfold x, apic_timer_is_armed. destruct (armed (timer (apic w))) eqn:Ha; [|by split_and!].
    destruct (apic_timer_disarm (apic w)) as [s a] eqn:E.
    apply disarm_usable in E as (-> & F1 & F2 & F3); [|done|done]. by split_and!. }
  destruct x as [disarmed w1]. cbn [fst snd] in *. subst disarmed. cbn [negb].
  unfold follows. rewrite Etm, <- E5.
  destruct (earliest_deadline (slots (tm w1))) as [d|]; [|intros [= <- <-]; by rewrite E3].
  destruct (read_clock w1) as [now w2] eqn:Er.
  pose proof (read_clock_usable _ _ _ E2 Er) as Hus2.
  apply read_clock_spec in Er as (_ & _ & Ft & _ & _ & Fn). rewrite E6 in Fn. specialize (Fn Hst).
  rewrite interval_clamp. unfold programmed_count.
  destruct (apic_timer_arm_oneshot _ (apic w2)) as [s a] eqn:Ea. intros [= <- <-].
  cbn [with_apic apic clk tm].
  destruct (decide ((count_for_nanoseconds (counts_per_second (timer (apic w2)))
    (Z.max TIMER_MINIMUM_INTERVAL_NS (d - now))).1 = APIC_TIMER_STATUS_OK)) as [Hc|Hc].
  - destruct (count_for_nanoseconds _ _) as [? count] eqn:Ec. cbn [fst] in Hc. subst.
    destruct (arm_oneshot_success (apic w2) (Z.max TIMER_MINIMUM_INTERVAL_NS (d - last_reported_ns (clk w2)))
      count) as (h' & Eq & Hl & Hi & Hf & Ho); [|done|].
    { unfold armable. destruct Hus2 as (-> & -> & -> & -> & ->). by rewrite Ft, E3. }
    rewrite Ea in Eq. injection Eq as -> ->. cbn [timer set_armed counts_per_second hw armed].
    rewrite Ec. split_and!; try done; [|congruence].
    destruct Hus2 as (G1 & G2 & G3 & G4 & G5). unfold usable. cbn. rewrite Hf, Ho. by split_and!.
  - destruct (arm_oneshot_failure (apic w2) (Z.max TIMER_MINIMUM_INTERVAL_NS (d - now)))
      as (st & Hs & Eq); [tauto|].
    rewrite Ea in Eq. injection Eq as -> ->. rewrite <- Fn.
    split_and!; [done| |congruence]. rewrite decide_False by done. rewrite Ft, E3 in *.
    destruct (count_for_nanoseconds _ _) as [[] count]; done.
Qed.

(** ** Arming and cancelling *)

Lemma free_slot_spec l :
  (free_slot l = length l /\ forall e, e ∈ l -> in_use e = true) \/
  ((free_slot l < length l)%nat /\ exists e, l !! free_slot l = Some e /\ in_use e = false).
Proof.
  unfold free_slot. destruct (first_index _ l) as [i|] eqn:E; cbn [default].
  - right. split; [by eapply first_index_lt|].
    apply first_index_Some in E as [(e & He & Hf) _]. exists e. by destruct (in_use e).
  - left. split; [done|]. intros e He. rewrite first_index_None in E.
    apply list_elem_of_lookup in He as [i Hi]. specialize (E i e Hi). by destruct (in_use e).
Qed.

Lemma slot_of_spec id l :
  (slot_of id l = length l /\ (id = 0 \/ forall e, e ∈ l -> in_use e = true -> identifier e <> id)) \/
  ((slot_of id l < length l)%nat /\ id <> 0 /\
   exists e, l !! slot_of id l = Some e /\ in_use e = true /\ identifier e = id).
Proof.
  unfold slot_of. destruct (id =? 0) eqn:Ez; [left; split; [done|left; lia]|].
  destruct (first_index _ l) as [i|] eqn:E; cbn [default].
  - right. split; [by eapply first_index_lt|]. split; [lia|].
    apply first_index_Some in E as [(e & He & [Hu Hi]%andb_true_iff) _]. exists e. split_and!; [done|done|lia].
  - left. split; [done|]. right. intros e He Hu. rewrite first_index_None in E.
    apply list_elem_of_lookup in He as [i Hi]. specialize (E i e Hi). rewrite Hu in E. cbn in E. lia.
Qed.

(** The slots of a table after an accepted arming. *)
Definition armed_slots (i : nat) d f c w : list timer_entry :=
  <[i := TimerEntry d (next_identifier (tm w)) (Some f) c true]> (slots (tm w)).

(** The table with a deadline in slot [i] under the next identifier. *)
Definition committed (i : nat) d f c w : world H M :=
  on_tm (fun t => Timers (table t) (<[i := TimerEntry d (next_identifier (tm w)) (Some f) c true]> (slots t))
    (u64 (next_identifier t + 1)) (fired_counter t) (started t) (sleep_expired t)) w.

Lemma commit_follows i d f c w e st w' :
  usable (apic w) -> clock_started (clk w) = true ->
  slots (tm w) !! i = Some e -> in_use e = false ->
  reprogram (committed i d f c w) = (st, w') ->
  usable (apic w') /\ later w w' /\ tm w' = tm (committed i d f c w) /\ follows w' st /\
  exists n, earliest_deadline (armed_slots i d f c w) = Some n /\
    ((st = TIMER_STATUS_OK /\ armed (timer (apic w')) = true) \/
     (st = TIMER_STATUS_HARDWARE_FAILURE /\ armed (timer (apic w')) = false /\
      (programmed_count w' n).1 <> APIC_TIMER_STATUS_OK)).
Proof.
  intros Hus Hcl Hi Hfree Ep.
  pose proof (reprogram_frame _ _ _ Ep) as (E3 & Hl3 & _).
  apply reprogram_follows in Ep as (Hus3 & Hfol & Hrate); [|done|done].
  assert (exists n, earliest_deadline (armed_slots i d f c w) = Some n) as [n Hn].
  { pose proof (earliest_deadline_spec (armed_slots i d f c w)) as Hs.
    destruct (earliest_deadline _); [by eexists|].
    assert (TimerEntry d (next_identifier (tm w)) (Some f) c true ∈ armed_slots i d f c w) as Hin
      by (eapply list_elem_of_lookup_2, list_lookup_insert_eq, lookup_lt_Some, Hi).
    by specialize (Hs _ Hin). }
  split_and!; try done. exists n. split; [done|].
  assert (earliest_deadline (slots (tm w')) = Some n) as Hn' by (by rewrite E3).
  destruct (follows_pending _ _ _ Hfol Hn') as [(-> & Ha & _) | (-> & Ha & Hp)]; auto.
Qed.

Lemma slot_not_capacity i (t : timers) e : slots t !! i = Some e -> (i =? capacity t)%nat = false.
Proof. intros Hi%lookup_lt_Some. apply Nat.eqb_neq. unfold capacity. lia. Qed.

(** What an accepted arming did. *)
Lemma timer_arm_ok d f c w id w' :
  usable (apic w) -> clock_started (clk w) = true ->
  timer_arm d (Some f) c true w = (TIMER_STATUS_OK, id, w') ->
  usable (apic w') /\ later w w' /\ started (tm w') = true /\ id = next_identifier (tm w) /\
  exists i e, slots (tm w) !! i = Some e /\ in_use e = false /\ slots (tm w') = armed_slots i d f c w.
Proof.
  intros Hus Hcl. unfold timer_arm. destruct (started (tm w)) eqn:Hst; [|done]. cbn [negb].
  destruct (read_clock w) as [v w1] eqn:Er.
  pose proof (read_clock_usable _ _ _ Hus Er) as Hus1.
  apply read_clock_spec in Er as (Et & Hl & _). pose proof Hl as (_ & Hcl1 & _). rewrite Hcl in Hcl1.
  destruct (_ || _); [done|]. rewrite Et.
  destruct (free_slot_spec (slots (tm w))) as [[Ef Hfull]|[Hlt (e0 & He0 & Hfree)]].
  { unfold capacity. by rewrite Ef, Nat.eqb_refl. }
  rewrite (slot_not_capacity _ _ _ He0). rewrite <- Et in He0 |- *.
  cbv zeta. set (i := free_slot (slots (tm w1))) in *. change (on_tm _ w1) with (committed i d f c w1).
  destruct (reprogram (committed i d f c w1)) as [st w3] eqn:Ep.
  apply (commit_follows _ _ _ _ _ e0) in Ep as (Hus3 & Hl3 & E3 & _); [|done..].
  case_decide; intros [= <- <-]. rewrite E3. split_and!; try done.
  - by etrans.
  - cbn. by rewrite Et.
  - cbn. rewrite list_lookup_total_insert_eq by (by eapply lookup_lt_Some). cbn. by rewrite Et.
  - exists i, e0. split_and!; [done|done|]. cbn. unfold armed_slots. by rewrite Et.
Qed.

(** [timer_arm] on every branch, for a usable timer.  A deadline in the past
    or closer than the minimum interval is refused, as is any deadline when no
    slot is free, and neither touches the table.  Otherwise the deadline goes into
    a slot that was free under the next identifier, and the hardware is armed for
    the nearest deadline of the new table; if that one is beyond the range of the
    count register the slot is emptied again, the timer is left off and the
    caller gets a failure. *)
Theorem timer_arm_correct d f c w :
  usable (apic w) -> clock_started (clk w) = true -> started (tm w) = true ->
  let now := (read_clock w).1 in
  let '(st, id, w') := timer_arm d (Some f) c true w in
  usable (apic w') /\ later w w' /\
  match st with
  | TIMER_STATUS_BAD_INTERVAL => id = 0 /\ tm w' = tm w /\ d < now + TIMER_MINIMUM_INTERVAL_NS
  | TIMER_STATUS_NO_CAPACITY =>
      id = 0 /\ tm w' = tm w /\ forall e, e ∈ slots (tm w) -> in_use e = true
  | TIMER_STATUS_OK =>
      now + TIMER_MINIMUM_INTERVAL_NS <= d /\ id = next_identifier (tm w) /\
      (exists i e, slots (tm w) !! i = Some e /\ in_use e = false /\
         slots (tm w') = armed_slots i d f c w) /\
      next_identifier (tm w') = u64 (next_identifier (tm w) + 1) /\
      follows w' TIMER_STATUS_OK /\ armed (timer (apic w')) = true
  | TIMER_STATUS_HARDWARE_FAILURE =>
      id = 0 /\ armed (timer (apic w')) = false /\
      exists i e, slots (tm w) !! i = Some e /\ in_use e = false /\
        slots (tm w') = clear_slot i (slots (tm w)) /\
        exists n, earliest_deadline (armed_slots i d f c w) = Some n /\
          (programmed_count w' n).1 <> APIC_TIMER_STATUS_OK
  | _ => False
  end.
Proof.
  intros Hus Hcl Hst now. unfold timer_arm. rewrite Hst. cbn [negb]. unfold now.
  destruct (read_clock w) as [v w1] eqn:Er. cbn [fst].
  pose proof (read_clock_usable _ _ _ Hus Er) as Hus1.
  apply read_clock_spec in Er as (Et & Hl & _). pose proof Hl as (_ & Hcl1 & _). rewrite Hcl in Hcl1.
  unfold TIMER_MINIMUM_INTERVAL_NS.
  destruct ((d <? v) || (d - v <? 100000)) eqn:Ei; [split_and!; try done; lia|].
  rewrite Et. destruct (free_slot_spec (slots (tm w))) as [[Ef Hfull]|[Hlt (e0 & He0 & Hfree)]].
  { unfold capacity. rewrite Ef, Nat.eqb_refl. by split_and!. }
  rewrite (slot_not_capacity _ _ _ He0). cbv zeta. set (i := free_slot (slots (tm w))) in *.
  assert (slots (tm w1) !! i = Some e0) as He1 by (by rewrite Et).
  assert (armed_slots i d f c w1 = armed_slots i d f c w) as Ea by (unfold armed_slots; by rewrite Et).
  rewrite <- Et. change (on_tm _ w1) with (committed i d f c w1). rewrite Et.
  destruct (reprogram (committed i d f c w1)) as [st w3] eqn:Ep.
  apply (commit_follows _ _ _ _ _ e0) in Ep as (Hus3 & Hl3 & E3 & Hfol & n & Hn & Hcase); [|done..].
  rewrite Ea in Hn. assert (later w w3) by (by etrans).
  destruct Hcase as [(-> & Ha) | (-> & Ha & Hp)].
  - rewrite decide_True by done. rewrite E3. split_and!; try done.
    + lia.
    + cbn. by rewrite list_lookup_total_insert_eq, Et by (by eapply lookup_lt_Some).
    + by exists i, e0.
    + cbn. by rewrite Et.
  - rewrite decide_False by done. split_and!; try done.
    exists i, e0. split_and!; try done; [|by exists n].
    cbn. rewrite E3. cbn. rewrite Et. apply list_insert_insert_eq.
Qed.

(** [timer_cancel] on every branch, for a usable timer.  An identifier that
    names nothing pending, zero among them, changes nothing.  Otherwise one slot
    that held the identifier is emptied, every other slot is kept, and the
    hardware follows what is left; the status tells whether the nearest of the
    remaining deadlines could be programmed. *)
Theorem timer_cancel_correct id w :
  usable (apic w) -> clock_started (clk w) = true -> started (tm w) = true ->
  let '(st, w') := timer_cancel id w in
  usable (apic w') /\ later w w' /\
  ((st = TIMER_STATUS_UNKNOWN_TIMER /\ w' = w /\
    (id = 0 \/ forall e, e ∈ slots (tm w) -> in_use e = true -> identifier e <> id)) \/
   (exists i e, slots (tm w) !! i = Some e /\ in_use e = true /\ identifier e = id /\ id <> 0 /\
      slots (tm w') = clear_slot i (slots (tm w)) /\ follows w' st)).
Proof.
  intros Hus Hcl Hst. unfold timer_cancel. rewrite Hst. cbn [negb]. unfold capacity.
  destruct (slot_of_spec id (slots (tm w))) as [[E Hno]|(Hlt & Hid & e & He & Hu & Hi)].
  { rewrite E, Nat.eqb_refl. split_and!; try done. by left. }
  change (length (slots (tm w))) with (capacity (tm w)). rewrite (slot_not_capacity _ _ _ He).
  set (w1 := on_tm _ w). destruct (reprogram w1) as [st w2] eqn:Ep.
  pose proof (reprogram_frame _ _ _ Ep) as (E2 & Hl & _).
  apply reprogram_follows in Ep as (Hus2 & Hfol & _); [|done|done].
  split_and!; [done|done|]. right. exists (slot_of id (slots (tm w))), e.
  split_and!; try done. by rewrite E2.
Qed.

(** Identifiers of pending deadlines have been issued already and are not zero,
    which is what the absence of a wrap of the 64-bit counter gives. *)
Definition ids_issued w : Prop :=
  0 < next_identifier (tm w) /\
  forall e, e ∈ slots (tm w) -> in_use e = true -> 0 < identifier e < next_identifier (tm w).

(** The slot an accepted deadline went into is the one its identifier names. *)
Lemma slot_of_armed i d f c w e :
  ids_issued w -> slots (tm w) !! i = Some e -> in_use e = false ->
  slot_of (next_identifier (tm w)) (armed_slots i d f c w) = i.
Proof.
  intros [Hpos Hids] Hi Hfree. pose proof (lookup_lt_Some _ _ _ Hi) as Hlt.
  destruct (slot_of_spec (next_identifier (tm w)) (armed_slots i d f c w))
    as [[_ [Hz|Hno]]|(_ & _ & x & Hx & Hu & Hid)]; [lia| |].
  - exfalso. apply (Hno (TimerEntry d (next_identifier (tm w)) (Some f) c true)); [|done|done].
    by eapply list_elem_of_lookup_2, list_lookup_insert_eq.
  - apply list_lookup_insert_Some in Hx as [(? & _ & _)|[_ Hx]]; [done|].
    apply list_elem_of_lookup_2 in Hx. specialize (Hids x Hx Hu). lia.
Qed.

(** A deadline that was armed can be cancelled with the identifier that came
    back, and the table is then what it was before, with the slot used in between
    cleared; no other pending deadline is affected. *)
Theorem timer_arm_cancel_roundtrip d f c w id w1 :
  usable (apic w) -> clock_started (clk w) = true -> ids_issued w ->
  timer_arm d (Some f) c true w = (TIMER_STATUS_OK, id, w1) ->
  id <> 0 /\ exists i e, slots (tm w) !! i = Some e /\ in_use e = false /\
    let '(st, w2) := timer_cancel id w1 in
    slots (tm w2) = clear_slot i (slots (tm w)) /\ follows w2 st.
Proof.
  intros Hus Hcl Hids E.
  destruct (timer_arm_ok _ _ _ _ _ _ Hus Hcl E) as (Hus1 & Hl & Est & -> & i & e & Hi & Hfree & Es).
  pose proof Hids as [Hpos _]. split; [lia|]. exists i, e. split_and!; [done|done|].
  unfold timer_cancel. rewrite Est, Es. cbn [negb].
  rewrite (slot_of_armed i d f c w e) by done.
  erewrite slot_not_capacity
    by (rewrite Es; apply list_lookup_insert_eq; by eapply lookup_lt_Some).
  set (w2 := on_tm _ w1). destruct (reprogram w2) as [st w3] eqn:Ep.
  pose proof (reprogram_frame _ _ _ Ep) as (E3 & _).
  apply reprogram_follows in Ep as (_ & Hfol & _); [|done|].
  - split; [|done]. rewrite E3. cbn. rewrite Es. apply list_insert_insert_eq.
  - destruct Hl as (_ & Ec & _). cbn. congruence.
Qed.

(** ** The timer interrupt *)

(** A usable timer with a running clock: what every operation keeps. *)
Definition live w : Prop := usable (apic w) /\ clock_started (clk w) = true.

Lemma later_live w w' : later w w' -> clock_started (clk w) = true -> clock_started (clk w') = true.
Proof. intros (_ & -> & _). done. Qed.

Lemma read_clock_live w now w' : live w -> read_clock w = (now, w') -> live w'.
Proof.
  intros [Hu Hc] E. split; [by eapply read_clock_usable|].
  apply read_clock_spec in E as (_ & Hl & _). by eapply later_live.
Qed.

Lemma reprogram_live w st w' : live w -> reprogram w = (st, w') -> live w'.
Proof.
  intros [Hu Hc] E. split; [by eapply reprogram_follows|].
  apply reprogram_frame in E as (_ & Hl & _). by eapply later_live.
Qed.

Lemma timer_arm_live d f c out w st id w' :
  live w -> timer_arm d f c out w = (st, id, w') -> live w'.
Proof.
  intros Hw. unfold timer_arm. destruct f as [f|]; [|by intros [= <- <- <-]].
  destruct (negb out); [by intros [= <- <- <-]|].
  destruct (negb (started _)); [by intros [= <- <- <-]|].
  destruct (read_clock w) as [v w1] eqn:Er. apply read_clock_live in Er; [|done].
  destruct (_ || _); [by intros [= <- <- <-]|]. destruct (_ =? _)%nat; [by intros [= <- <- <-]|].
  destruct (reprogram _) as [st2 w2] eqn:Ep. apply reprogram_live in Ep; [|done].
  case_decide; by intros [= <- <- <-].
Qed.

Lemma timer_cancel_live id w st w' : live w -> timer_cancel id w = (st, w') -> live w'.
Proof.
  intros Hw. unfold timer_cancel. destruct (negb (started _)); [by intros [= <- <-]|].
  destruct (_ =? _)%nat; [by intros [= <- <-]|]. by apply reprogram_live.
Qed.

Lemma run_callback_live f d c w : live w -> live (run_callback f d c w).
Proof.
  intros Hw. destruct f as [|n]; [done|]. cbn [run_callback]. revert w Hw.
  induction (client_body n d c) as [|k IH|d' f c' k IH|id k IH]; intros w Hw; cbn [run_program].
  - done.
  - destruct (read_clock w) as [v w1] eqn:E. by eapply IH, read_clock_live.
  - destruct (timer_arm d' f c' true w) as [[st id] w1] eqn:E. by eapply IH, timer_arm_live.
  - destruct (timer_cancel id w) as [st w1] eqn:E. by eapply IH, timer_cancel_live.
Qed.

Lemma expire_loop_live fuel now w fired w' :
  live w -> expire_loop fuel now w = Some (fired, w') -> live w'.
Proof.
  revert w fired. induction fuel as [|fuel IH]; intros w fired Hw; [done|]. cbn [expire_loop].
  destruct (choose_due _ _ _ _) as [[i d]|]; [|by intros [= <- <-]].
  intros ([fired' w1] & E & [= <- <-])%bind_Some. eapply IH; [|exact E].
  destruct (callback _); [by apply run_callback_live|done].
Qed.

(** The world in which the handler of an armed timer interrupt runs. *)
Definition interrupt_entry w : world H M :=
  with_apic (apic_timer_handler (apic (set_interrupts false w))).2 (set_interrupts false w).

(** C23: The timer interrupt of an armed deadline always completes, whatever the
    callbacks do.  It reads the clock once; every deadline reached by that
    instant is gone from the table when it returns, the expiry count grew by the
    number that fired, and the hardware follows the table: it is armed again for
    the nearest remaining deadline unless none remains or that one is beyond the
    range of the count register. *)
Theorem timer_interrupt_correct w c :
  usable (apic (set_interrupts false w)) -> clock_started (clk w) = true ->
  armed (timer (apic w)) = true -> expiry (timer (apic w)) = Some (timer_on_expiry, c) ->
  let now := (read_clock (interrupt_entry w)).1 in
  exists fired st w', timer_interrupt w = Some w' /\
    now <= last_reported_ns (clk w') /\ due_entries now (slots (tm w')) = [] /\
    fired ⊆+ due_entries now (slots (tm w)) /\
    fired_counter (tm w') = u64 (fired_counter (tm w) + Z.of_nat (length fired)) /\
    interrupts_on w' = interrupts_on w /\ follows w' st.
Proof.
  intros Hus Hcl Harm Hexp now. unfold timer_interrupt, now, interrupt_entry. cbv zeta.
  destruct (apic_timer_handler (apic (set_interrupts false w))) as [f a] eqn:Eh.
  assert (f = Some (timer_on_expiry, c) /\ usable a) as [-> Ha].
  { unfold apic_timer_handler in Eh. cbn [set_interrupts with_apic apic on_hw timer] in Eh.
    rewrite Harm, Hexp in Eh. by injection Eh as <- <-. }
  cbn [snd]. set (w1 := with_apic a (set_interrupts false w)). unfold on_expiry.
  assert (live w1) as Hl1 by (by split).
  assert (tm w1 = tm w) as T1 by done.
  destruct (read_clock w1) as [v w2] eqn:Er. cbn [fst].
  pose proof (read_clock_live _ _ _ Hl1 Er) as Hl2.
  apply read_clock_spec in Er as (T2 & L2 & _ & _ & _ & Hv). specialize (Hv (proj2 Hl1)).
  destruct (expire_loop_spec (S (capacity (tm w2))) v w2) as (fired & w3 & E3 & S3 & Hnone & Hf & _);
    [apply Hl2|lia| |].
  { unfold capacity. pose proof (length_filter (fun e => due v e = true) (slots (tm w2))). lia. }
  unfold expire_reached. rewrite E3. cbn [mbind option_bind].
  pose proof (expire_loop_live _ _ _ _ _ Hl2 E3) as Hl3.
  set (w4 := on_tm _ w3). destruct (reprogram w4) as [st w5] eqn:Ep.
  pose proof (reprogram_frame _ _ _ Ep) as (T5 & L5 & _).
  apply reprogram_follows in Ep as (Hus5 & Hfol & _); [|apply Hl3|apply Hl3].
  exists fired, st. eexists. split; [reflexivity|].
  destruct S3 as (L3 & _ & _ & _ & Hfc & _).
  cbn [snd set_interrupts with_apic tm clk apic].
  rewrite T5. split_and!.
  - destruct L3 as (_ & C3 & L3). specialize (L3 (proj2 Hl2)).
    destruct L5 as (_ & _ & L5). specialize (L5 (proj2 Hl3)). cbn in L5. lia.
  - exact Hnone.
  - by rewrite T2 in Hf.
  - cbn. by rewrite Hfc, T2.
  - exact (set_flag (interrupts_on w) (hw (apic w5))).
  - unfold follows, programmed_count in *. cbn [set_interrupts with_apic tm clk apic on_hw hw timer] in *.
    by rewrite !set_flag_register.
Qed.
End Hardware.

(** ** Sleeping

    [timer_sleep_ns] arms a deadline for itself and waits in a loop.  The wait is
    a step relation, because interrupts are taken between its steps: the loop
    starts with interrupts off, but [cpu_enable_and_halt] is [sti; hlt], and from
    its return on the flag stays set.  [sti] takes effect after the instruction
    that follows it, so no interrupt comes between the two. *)

Inductive sleep_point :=
| at_test    (** [while (!sleep_expired)] *)
| at_clock   (** [clock_monotonic_ns() > abandon_ns] *)
| at_armed   (** [!apic_timer_is_armed()] *)
| at_halt    (** [cpu_enable_and_halt()] *)
| halted     (** the processor waits for an interrupt *)
| returned (st : timer_status).

#[global] Instance sleep_point_eq_dec : EqDecision sleep_point.
Proof. solve_decision. Defined.

(** A client program does not arm the sleep's callback, which is static. *)
Fixpoint private (p : callback_program) : Prop :=
  match p with
  | cb_return => True
  | cb_clock k => forall v, private (k v)
  | cb_arm _ f _ k => f <> Some sleep_callback /\ forall st id, private (k st id)
  | cb_cancel _ k => forall st, private (k st)
  end.

Section Sleep.
Context {H M : Type} `{!time_hardware H} `{!apic_device H} `{!cpu_flag H} `{!client_code}.
Implicit Types w : world H M.

Definition set_sleep_expired (b : bool) w : world H M :=
  on_tm (fun t => Timers (table t) (slots t) (next_identifier t) (fired_counter t) (started t) b) w.

(** Up to the loop: a status, or the identifier and the time to give up. *)
Definition sleep_begin (nanoseconds : Z) w : (timer_status + Z * Z) * world H M :=
  if negb (started (tm w)) then (inl TIMER_STATUS_NOT_STARTED, w)
  else if nanoseconds <? TIMER_MINIMUM_INTERVAL_NS then (inl TIMER_STATUS_BAD_INTERVAL, w)
  else
    let '(now, w) := read_clock w in
    let deadline := u64 (now + nanoseconds) in
    let abandon := u64 (u64 (deadline + nanoseconds) + TIMER_SLEEP_GRACE_NS) in
    let w := set_sleep_expired false w in
    let '(st, id, w) := timer_arm deadline (Some sleep_callback) 0 true w in
    match st with
    | TIMER_STATUS_OK => (inr (id, abandon), w)
    | _ => (inl st, w)
    end.

(** Time passes, or another device's interrupt is handled, whose handler may use
    the timers like any client. *)
Definition other_interrupt w w' : Prop :=
  exists p w1, private p /\
    tm w1 = tm w /\ clk w1 = clk w /\ tsc w1 = tsc w /\ timer (apic w1) = timer (apic w) /\
    w' = set_interrupts (interrupts_on w) (run_program p (set_interrupts false w1)).

Definition interrupted w w' : Prop := timer_interrupt w = Some w' \/ other_interrupt w w'.

Inductive sleep_step (id abandon : Z) : sleep_point * world H M -> sleep_point * world H M -> Prop :=
| sleep_done w :
    sleep_expired (tm w) = true ->
    sleep_step id abandon (at_test, w) (returned TIMER_STATUS_OK, set_interrupts false w)
| sleep_waits w :
    sleep_expired (tm w) = false -> sleep_step id abandon (at_test, w) (at_clock, w)
| sleep_late w now w' :
    read_clock w = (now, w') -> abandon < now ->
    sleep_step id abandon (at_clock, w) (returned TIMER_STATUS_EXPIRED_LATE, (timer_cancel id w').2)
| sleep_in_time w now w' :
    read_clock w = (now, w') -> now <= abandon -> sleep_step id abandon (at_clock, w) (at_armed, w')
| sleep_unarmed w :
    apic_timer_is_armed (apic w) = false ->
    sleep_step id abandon (at_armed, w)
      (returned TIMER_STATUS_HARDWARE_FAILURE, (timer_cancel id w).2)
| sleep_armed w :
    apic_timer_is_armed (apic w) = true -> sleep_step id abandon (at_armed, w) (at_halt, w)
| sleep_halts w : sleep_step id abandon (at_halt, w) (halted, set_interrupts true w)
| sleep_wakes w w' : interrupted w w' -> sleep_step id abandon (halted, w) (at_test, w')
| sleep_preempted p w w' :
    p ∈ [at_test; at_clock; at_armed; at_halt] -> interrupts_on w = true -> interrupted w w' ->
    sleep_step id abandon (p, w) (p, w').

(** What makes an early return impossible: a pending sleep callback has the
    sleep's deadline, and the flag means that the clock has passed it. *)
Record sleeping (d : Z) w : Prop := Sleeping {
  sleeping_clock : clock_started (clk w) = true;
  sleeping_entries : forall e, e ∈ slots (tm w) -> in_use e = true ->
    callback e = Some sleep_callback -> deadline_ns e = d;
  sleeping_flag : sleep_expired (tm w) = true -> d <= last_reported_ns (clk w)
}.

Lemma sleeping_later d w w' : later w w' -> tm w' = tm w -> sleeping d w -> sleeping d w'.
Proof.
  intros (_ & E & L) T [S1 S2 S3]. specialize (L S1). split; rewrite ?E, ?T; [done|done|].
  intros Hf. specialize (S3 Hf). lia.
Qed.

Lemma sleeping_slots d w l :
  sleeping d w ->
  (forall e, e ∈ l -> in_use e = true -> callback e = Some sleep_callback ->
     e ∈ slots (tm w) \/ deadline_ns e = d) ->
  sleeping d (on_tm (set_slots l) w).
Proof.
  intros [S1 S2 S3] Hl. split; [done| |done]. cbn. intros e He Hu Hc.
  destruct (Hl e He Hu Hc); [by apply S2|done].
Qed.

Lemma sleeping_clear d w i :
  sleeping d w -> sleeping d (on_tm (fun t => set_slots (clear_slot i (slots t)) t) w).
Proof.
  intros Hs. apply (sleeping_slots d w (clear_slot i (slots (tm w))) Hs). intros e He Hu _.
  unfold clear_slot in He. apply elem_of_insert_inv in He as [-> | He]; [done|by left].
Qed.

Lemma sleeping_read_clock d w now w' : read_clock w = (now, w') -> sleeping d w -> sleeping d w'.
Proof. intros (T & L & _)%read_clock_spec. by apply sleeping_later. Qed.

Lemma sleeping_reprogram d w st w' : reprogram w = (st, w') -> sleeping d w -> sleeping d w'.
Proof. intros (T & L & _)%reprogram_frame. by apply sleeping_later. Qed.

Lemma sleeping_cancel d id w : sleeping d w -> sleeping d (timer_cancel id w).2.
Proof.
  intros Hs. unfold timer_cancel. destruct (negb (started _)); [done|].
  destruct (_ =? _)%nat; [done|]. destruct (reprogram _) as [st w'] eqn:E.
  eapply sleeping_reprogram; [exact E|]. by apply sleeping_clear.
Qed.

(** Arming keeps it, also for the sleep's own deadline. *)
Lemma sleeping_arm d d' f c out w st id w' :
  (f = Some sleep_callback -> d' = d) ->
  timer_arm d' f c out w = (st, id, w') -> sleeping d w -> sleeping d w'.
Proof.
  intros Hf. unfold timer_arm. destruct f as [f|]; [|by intros [= <- <- <-]].
  destruct (negb out); [by intros [= <- <- <-]|].
  destruct (negb (started _)); [by intros [= <- <- <-]|].
  destruct (read_clock w) as [v w1] eqn:Er. intros E Hs.
  pose proof (sleeping_read_clock _ _ _ _ Er Hs) as Hs1. revert E.
  destruct (_ || _); [by intros [= <- <- <-]|]. destruct (_ =? _)%nat; [by intros [= <- <- <-]|].
  destruct (reprogram _) as [st2 w2] eqn:Ep. intros E.
  assert (sleeping d w2) as Hs2.
  { eapply sleeping_reprogram; [exact Ep|]. destruct Hs1 as [S1 S2 S3]. split; [done| |done].
    cbn. intros e He Hu Hc. apply elem_of_insert_inv in He as [-> | He]; [|by apply S2].
    cbn in *. by apply Hf. }
  case_decide; injection E as <- <- <-; [done|by apply sleeping_clear].
Qed.

Lemma sleeping_program d p w : private p -> sleeping d w -> sleeping d (run_program p w).
Proof.
  revert w. induction p as [|k IH|d' f c k IH|id k IH]; intros w Hp Hs; cbn [run_program].
  - done.
  - destruct (read_clock w) as [v w1] eqn:E. apply IH; [apply Hp|].
    by eapply sleeping_read_clock.
  - destruct Hp as [Hf Hp]. destruct (timer_arm d' f c true w) as [[st id] w1] eqn:E.
    apply IH; [apply Hp|]. eapply (sleeping_arm d); [|exact E|done]. by intros ->.
  - destruct (timer_cancel id w) as [st w1] eqn:E. apply IH; [apply Hp|].
    pose proof (sleeping_cancel d id w Hs) as Hc. by rewrite E in Hc.
Qed.

Lemma sleeping_interrupts d b w : sleeping d w -> sleeping d (set_interrupts b w).
Proof. by intros [S1 S2 S3]. Qed.

Hypothesis clients_private : forall n d c, private (client_body n d c).

Lemma sleeping_callback d f d' c w :
  (f = sleep_callback -> d' = d) -> d' <= last_reported_ns (clk w) ->
  sleeping d w -> sleeping d (run_callback f d' c w).
Proof.
  intros Hf Hle Hs. destruct f as [|n]; cbn [run_callback].
  - destruct Hs as [S1 S2 S3]. specialize (Hf eq_refl). split; [done|done|].
    intros _. cbn. lia.
  - by apply sleeping_program.
Qed.

Lemma sleeping_expire d fuel now w fired w' :
  now <= last_reported_ns (clk w) -> sleeping d w ->
  expire_loop fuel now w = Some (fired, w') -> sleeping d w'.
Proof.
  revert w fired. induction fuel as [|fuel IH]; intros w fired Hnow Hs; [done|]. cbn [expire_loop].
  pose proof (choose_due_spec now 0 (slots (tm w)) None) as Hc.
  destruct (choose_due _ _ _ _) as [[i dl]|]; [|by intros [= <- <-]].
  destruct Hc as ([[=]|(k & e & -> & He & Hd & _)] & _). cbn [Nat.add].
  rewrite (list_lookup_total_correct _ _ _ He).
  intros ([fired' w1] & E & [= <- <-])%bind_Some.
  set (w2 := on_tm _ w) in E. assert (sleeping d w2) as Hs2 by (by apply sleeping_clear).
  unfold due in Hd. apply andb_true_iff in Hd as [Hu Hd].
  assert (sleeping d (match callback e with
    | Some f => run_callback f (deadline_ns e) (context e) w2 | None => w2 end)) as Hs3.
  { destruct (callback e) as [f|] eqn:Ec; [|done]. apply sleeping_callback; [|cbn; lia|done].
    intros ->. eapply (sleeping_entries d w Hs); [by eapply list_elem_of_lookup_2|done|done]. }
  eapply IH; [|exact Hs3|exact E].
  assert (settles now w2 (match callback e with
    | Some f => run_callback f (deadline_ns e) (context e) w2 | None => w2 end)) as Hset.
  { destruct (callback e); [|apply settles_refl].
    apply run_callback_settles; [apply Hs2|done]. }
  destruct Hset as ((_ & _ & L) & _). specialize (L (sleeping_clock d w2 Hs2)). cbn in L. lia.
Qed.

Lemma sleeping_interrupted d w w' : interrupted w w' -> sleeping d w -> sleeping d w'.
Proof.
  intros [Hi|(p & w1 & Hp & T & C & _ & _ & ->)] Hs.
  - revert Hi. unfold timer_interrupt. destruct (apic_timer_handler _) as [f a].
    intros (w1 & Hf & [= <-])%bind_Some. apply sleeping_interrupts.
    assert (sleeping d (with_apic a (set_interrupts false w))) as Hs0 by (by destruct Hs).
    destruct f as [[[] c]|]; [|by injection Hf as <-].
    revert Hf. unfold on_expiry. destruct (read_clock _) as [now w2] eqn:Er.
    pose proof (read_clock_spec _ _ _ Er) as (_ & _ & _ & _ & _ & Hv).
    pose proof (sleeping_read_clock d _ _ _ Er Hs0) as Hs2. specialize (Hv (sleeping_clock d w Hs)).
    intros ([fired w3] & Ex & [= <-])%bind_Some. unfold expire_reached in Ex.
    apply (sleeping_expire d) in Ex; [|lia|done].
    destruct (reprogram _) as [st w4] eqn:Ep. eapply sleeping_reprogram; [exact Ep|].
    by destruct Ex.
  - apply sleeping_interrupts, sleeping_program; [done|]. apply sleeping_interrupts.
    destruct Hs as [S1 S2 S3]. split; rewrite ?T, ?C; done.
Qed.

Lemma sleeping_step d id abandon x y :
  sleep_step id abandon x y -> sleeping d x.2 -> sleeping d y.2.
Proof.
  intros Hstep Hs. destruct Hstep; cbn [snd] in *;
    eauto using sleeping_interrupts, sleeping_cancel, sleeping_read_clock, sleeping_interrupted.
Qed.

(** The loop leaves nothing running after it returned, and returns success only
    from its test. *)
Lemma returned_final id abandon st x y :
  x.1 = returned st -> rtc (sleep_step id abandon) x y -> y = x.
Proof.
  intros Ex Hr. destruct Hr as [|x y z Hxy _]; [done|].
  destruct Hxy as [| | | | | | | |p w w' Hp]; try done. cbn in Ex. subst p.
  repeat (apply elem_of_cons in Hp as [Hp|Hp]; [done|]). by apply elem_of_nil in Hp.
Qed.

Lemma returned_ok id abandon x y :
  sleep_step id abandon x y -> y.1 = returned TIMER_STATUS_OK ->
  x.1 <> returned TIMER_STATUS_OK -> sleep_expired (tm y.2) = true.
Proof. by intros []. Qed.

(** A reading of the clock fits 64 bits. *)
Lemma read_clock_fits w now w' :
  fits 64 (last_reported_ns (clk w)) -> read_clock w = (now, w') ->
  fits 64 now.
Proof.
  unfold read_clock, clock_monotonic_ns, tsc_read, monotonic_step. intros Hf.
  destruct (negb (clock_started _)); [by intros [= <- _]|].
  destruct (cpu_read_tsc _) as [v h]. destruct (_ <? _); intros [= <- _]; [done|].
  unfold tsc_span_nanoseconds. destruct (_ || _); [done|]. apply wrap_fits. lia.
Qed.

End Sleep.

(** ** Samples

    A started timer on the machine of [ApicSamples], with a 2 GHz time-stamp
    counter and a 62.5 MHz APIC timer.  Client function 1 arms function 2 a
    millisecond later; the others do nothing. *)
Module TimerSamples.
Import ApicSamples.

#[export] Instance pc_flag : cpu_flag pc :=
  fun b h => Pc (ticks h) (cycles h) (registers h) b.
#[export] Instance pc_flag_laws : cpu_flag_laws pc.
Proof. by split. Qed.
#[export] Instance pc_heap : heap_service unit := {
  heap_allocate _ m := (Some 0x1000, m);
  heap_free _ m := (true, m)
}.
#[export] Instance sample_clients : client_code := fun n _ _ =>
  if n =? 1 then
    cb_clock (fun now => cb_arm (now + 1000000) (Some (client_callback 2)) 0 (fun _ _ => cb_return))
  else cb_return.

Definition boot : world pc unit :=
  World (Timers None [] 1 0 false false) (ClockState CLOCK_SOURCE_TSC 0 0 0 true)
    (TscState 2000000000 true true true)
    (ApicMachine (ApicTimer 0 0 62500000 0 true false false None false) (Interrupts true ∅)
       (Pc 0 0 ∅ false)) tt.

Definition running : world pc unit := (timer_start boot).2.

(** [ns] nanoseconds pass. *)
Definition advance (ns : Z) (w : world pc unit) : world pc unit :=
  with_apic (on_hw (fun h => Pc (ticks h) (cycles h + 2 * ns) (registers h) (enabled h)) (apic w)) w.

Lemma running_usable : usable (apic running).
Proof. vm_compute. by split_and!. Qed.

Lemma running_started :
  started (tm running) = true /\ clock_started (clk running) = true /\ capacity (tm running) = 32%nat.
Proof. by vm_compute. Qed.

Lemma clients_are_private n d c : private (client_body n d c).
Proof. unfold client_body, sample_clients. by destruct (n =? 1). Qed.

(** One deadline in a millisecond, one in half a millisecond, and the clock three
    quarters of a millisecond later. *)
Definition two_armed : world pc unit :=
  advance 750000 (timer_arm 500000 (Some (client_callback 1)) 7 true
    (timer_arm 1000000 (Some (client_callback 2)) 8 true running).2).2.

Lemma timer_arm_correct_witness :
  (timer_arm 1000000 (Some (client_callback 2)) 8 true running).1 = (TIMER_STATUS_OK, 1) /\
  armed (timer (apic (timer_arm 1000000 (Some (client_callback 2)) 8 true running).2)) = true.
Proof.
  pose proof (timer_arm_correct 1000000 (client_callback 2) 8 running running_usable
    (proj1 (proj2 running_started)) (proj1 running_started)) as Ha.
  cbv zeta in Ha. revert Ha. generalize (read_clock running).1. intros now.
  assert ((timer_arm 1000000 (Some (client_callback 2)) 8 true running).1 = (TIMER_STATUS_OK, 1)) as E
    by (vm_compute; reflexivity).
  destruct (timer_arm 1000000 _ 8 true running) as [[st id] w']. cbn [fst snd] in *.
  injection E as -> ->. intros (_ & _ & _ & _ & _ & _ & _ & Ha). by split.
Defined.

(** The nearer deadline fires and its callback arms a third one. *)
Lemma expire_reached_correct_witness :
  exists fired w', expire_reached 750010 (read_clock two_armed).2 = Some (fired, w') /\
    map identifier fired = [2] /\ pending_slots (slots (tm w')) = 2 /\
    due_entries 750010 (slots (tm w')) = [].
Proof.
  destruct (expire_reached_correct 750010 (read_clock two_armed).2) as (fired & w' & E & _ & Hd & _);
    [vm_compute; reflexivity|vm_compute; congruence|].
  exists fired, w'. split_and!; [exact E| | |exact Hd]; revert E; vm_compute;
    intros [= <- <-]; reflexivity.
Defined.

Lemma timer_cancel_correct_witness :
  let '(st, w') := timer_cancel 2 two_armed in
  st = TIMER_STATUS_OK /\ pending_slots (slots (tm w')) = 1 /\ later two_armed w'.
Proof.
  assert ((timer_cancel 2 two_armed).1 = TIMER_STATUS_OK /\
    pending_slots (slots (tm (timer_cancel 2 two_armed).2)) = 1) as [E1 E2]
    by (vm_compute; by split).
  assert (usable (apic two_armed)) as Hu by (vm_compute; by split_and!).
  assert (clock_started (clk two_armed) = true) as Hs by (vm_compute; reflexivity).
  assert (started (tm two_armed) = true) as Ht by (vm_compute; reflexivity).
  revert E1 E2 Hu Hs Ht. generalize two_armed. intros w E1 E2 Hu Hs Ht.
  pose proof (timer_cancel_correct 2 w Hu Hs Ht) as Hc.
  destruct (timer_cancel 2 w) as [st w']. destruct Hc as (_ & Hl & _). by split_and!.
Defined.

Lemma timer_arm_cancel_roundtrip_witness :
  let '(st, id, w1) := timer_arm 1000000 (Some (client_callback 2)) 8 true running in
  st = TIMER_STATUS_OK /\ id <> 0 /\ slots (tm (timer_cancel id w1).2) = slots (tm running).
Proof.
  destruct (timer_arm 1000000 (Some (client_callback 2)) 8 true running) as [[st id] w1] eqn:E.
  assert (st = TIMER_STATUS_OK) as -> by (revert E; vm_compute; by intros [= <- _ _]).
  destruct (timer_arm_cancel_roundtrip 1000000 (client_callback 2) 8 running id w1)
    as (Hid & i & e & Hi & Hfree & Hc); [apply running_usable|apply running_started| |exact E|].
  - split; [vm_compute; reflexivity|]. intros x Hx Hu. exfalso.
    assert (slots (tm running) = replicate 32 empty_entry) as Es by (vm_compute; reflexivity).
    rewrite Es in Hx. apply elem_of_replicate in Hx as [-> _]. done.
  - split_and!; [done|exact Hid|]. destruct (timer_cancel id w1) as [st w2]. cbn [snd].
    destruct Hc as [-> _].
    assert (slots (tm running) = replicate 32 empty_entry) as Es by (vm_compute; reflexivity).
    rewrite Es in *. unfold clear_slot.
    apply lookup_replicate in Hi as [_ Hi]. by rewrite insert_replicate.
Defined.

Lemma timer_interrupt_correct_witness :
  exists w', timer_interrupt two_armed = Some w' /\ fired_counter (tm w') = 1 /\
    pending_slots (slots (tm w')) = 2 /\ armed (timer (apic w')) = true.
Proof.
  destruct (timer_interrupt_correct two_armed 0) as (fired & st & w' & E & _ & _ & _ & Hf & _);
    [vm_compute; by split_and!|vm_compute; reflexivity..|].
  exists w'. split_and!; [exact E|..]; clear Hf; revert E; vm_compute; intros [= <-]; reflexivity.
Defined.


(** Another device interrupts [ns] nanoseconds later and uses no timer. *)
Definition other_after (ns : Z) (w : world pc unit) : world pc unit :=
  set_interrupts (interrupts_on w) (set_interrupts false (advance ns w)).

Lemma other_after_step ns w : other_interrupt w (other_after ns w).
Proof. by exists cb_return, (advance ns w). Qed.

(** A sleep of one millisecond: armed, then halted with interrupts on. *)
Definition sleep_started : world pc unit := (sleep_begin 1000000 running).2.
Definition sleep_halted : world pc unit := set_interrupts true (read_clock sleep_started).2.

Lemma sleep_started_eq :
  sleep_begin 1000000 running = (inr (1, 52000000), sleep_started) /\
  sleep_expired (tm sleep_started) = false /\ (read_clock sleep_started).1 <= 52000000 /\
  armed (timer (apic (read_clock sleep_started).2)) = true.
Proof. vm_compute. by split_and!. Qed.

(** One turn of the loop that finds nothing and halts. *)
Lemma sleep_turn id abandon (w : world pc unit) :
  sleep_expired (tm w) = false -> (read_clock w).1 <= abandon ->
  armed (timer (apic (read_clock w).2)) = true ->
  rtc (sleep_step id abandon) (at_test, w) (at_halt, (read_clock w).2).
Proof.
  intros H1 H2 H3. eapply rtc_l; [by apply sleep_waits|].
  eapply rtc_l; [by eapply sleep_in_time; [apply surjective_pairing|]|].
  apply rtc_once. by apply sleep_armed.
Qed.

Lemma sleep_reaches_halt :
  rtc (sleep_step 1 52000000) (at_test, sleep_started) (halted, sleep_halted).
Proof.
  destruct sleep_started_eq as (_ & H1 & H2 & H3).
  eapply rtc_r; [by apply sleep_turn|]. apply sleep_halts.
Qed.


Lemma at_halt_preemptible : at_halt ∈ [at_test; at_clock; at_armed; at_halt].
Proof. set_solver. Qed.

(** C26: A sleep can halt with nothing left to wake it.  Once another interrupt
    has woken it the loop runs with interrupts on; if the sleep's own deadline
    fires after the loop has tested its flag and before it halts again, the
    processor halts although the sleep is over and no deadline is armed. *)
Theorem timer_sleep_lost_wakeup :
  exists w, rtc (sleep_step 1 52000000) (at_test, sleep_started) (halted, w) /\
    sleep_expired (tm w) = true /\ apic_timer_is_armed (apic w) = false /\
    pending_slots (slots (tm w)) = 0.
Proof.
  set (w1 := other_after 500000 sleep_halted). set (w2 := (read_clock w1).2).
  set (w3 := other_after 1000000 w2).
  destruct (timer_interrupt w3) as [w4|] eqn:E; [|exfalso; revert E; vm_compute; discriminate].
  exists (set_interrupts true w4). split.
  - etrans; [apply sleep_reaches_halt|].
    eapply rtc_l; [apply sleep_wakes; right; apply (other_after_step 500000)|]. fold w1.
    etrans; [apply sleep_turn; [vm_compute; reflexivity|vm_compute; congruence|vm_compute; reflexivity]|].
    fold w2.
    eapply rtc_l; [eapply (sleep_preempted _ _ at_halt _ w3);
      [apply at_halt_preemptible|vm_compute; reflexivity|right; apply other_after_step]|].
    eapply rtc_l; [eapply (sleep_preempted _ _ at_halt _ w4);
      [apply at_halt_preemptible|vm_compute; reflexivity|left; exact E]|].
    apply rtc_once, sleep_halts.
  - revert E. vm_compute. intros [= <-]. by split_and!.
Qed.

(** A sleep that gives up after having halted returns with interrupts on, and its
    cancelled deadline still armed, because the APIC driver refuses to disarm
    while interrupts are on. *)
Theorem timer_sleep_late_interrupts_on :
  exists w, rtc (sleep_step 1 52000000) (at_test, sleep_started)
      (returned TIMER_STATUS_EXPIRED_LATE, w) /\
    interrupts_on w = true /\ pending_slots (slots (tm w)) = 0 /\
    apic_timer_is_armed (apic w) = true.
Proof.
  set (w1 := other_after 60000000 sleep_halted).
  exists (timer_cancel 1 (read_clock w1).2).2. split; [|vm_compute; by split_and!].
  etrans; [apply sleep_reaches_halt|].
  eapply rtc_l; [apply sleep_wakes; right; apply (other_after_step 60000000)|]. fold w1.
  eapply rtc_l; [apply sleep_waits; vm_compute; reflexivity|].
  apply rtc_once. eapply sleep_late; [apply surjective_pairing|]. vm_compute. reflexivity.
Qed.
End TimerSamples.
