(* ===== verification/Thread.v ===== *)
(** * Kernel threads ([src/kernel/thread.c], [src/arch/x86_64/thread.S],
      [include/rsd/thread.h])

    The scheduler: a table of eight threads, a round-robin choice of the next
    ready one, the context switch on private stacks, and preemption by a deadline.
    The state is the record [sched].  The context switch is modelled down to the
    words it pushes and pops: [processor] holds the callee-saved registers, the
    flags and the return address, [words] the memory of the stacks.  Stacks are
    mapped through [page_backend], the thread table is a block of the [Heap], and
    the deadline layer is the class [timer_service], which [Timer] implements.

    [interrupted_local] is the local variable of the same name of a thread's own
    [switch_to_next], which lives on its stack while it is suspended. *)

From stdpp Require Import base option list numbers gmap relations.
From S2P Require Import Prelude Frames BlockTable Heap.

Definition THREAD_STACK_REGION : Z := 0x800000000.
Definition THREAD_STACK_PAGES : nat := 4.
Definition THREAD_STACK_SIZE : Z := Z.of_nat THREAD_STACK_PAGES * PAGING_PAGE_SIZE.
Definition THREAD_STACK_STRIDE : Z := THREAD_STACK_SIZE + PAGING_PAGE_SIZE.
Definition THREAD_MAX : nat := 8.
Definition THREAD_QUANTUM_NS : Z := 2000000.
Definition THREAD_ID_NONE : Z := 0.
Definition PREPARED_SLOTS : Z := 8.
Definition PREPARED_FRAME_SIZE : Z := PREPARED_SLOTS * 8.
Definition QUANTUM_ARM_ATTEMPTS : nat := 3.
Definition RFLAGS_RESERVED : Z := 0x2.
Definition RFLAGS_INTERRUPT_ENABLE : Z := 0x200.
Definition INITIAL_RFLAGS : Z := RFLAGS_RESERVED .| RFLAGS_INTERRUPT_ENABLE.
(** [sizeof(struct thread)]: seven words, an enum and a padded flag. *)
Definition thread_size : Z := 64.

Inductive thread_state :=
| THREAD_STATE_UNUSED
| THREAD_STATE_READY
| THREAD_STATE_RUNNING
| THREAD_STATE_EXITED.

#[global] Instance thread_state_eq_dec : EqDecision thread_state.
Proof. solve_decision. Defined.

Inductive thread_status :=
| THREAD_STATUS_OK
| THREAD_STATUS_NULL_ARGUMENT
| THREAD_STATUS_ALREADY_STARTED
| THREAD_STATUS_NOT_STARTED
| THREAD_STATUS_INTERRUPTS_ENABLED
| THREAD_STATUS_NO_HEAP
| THREAD_STATUS_NO_MEMORY
| THREAD_STATUS_NO_CAPACITY
| THREAD_STATUS_OUT_OF_FRAMES
| THREAD_STATUS_MAPPING_FAILURE
| THREAD_STATUS_BAD_IDENTIFIER
| THREAD_STATUS_NOT_THE_BOOT_THREAD
| THREAD_STATUS_THREADS_STILL_RUNNABLE
| THREAD_STATUS_NO_TIMER
| THREAD_STATUS_NO_QUANTUM
| THREAD_STATUS_ALREADY_PREEMPTIVE
| THREAD_STATUS_NOT_PREEMPTIVE
| THREAD_STATUS_VALIDATION_FAILURE.

#[global] Instance thread_status_eq_dec : EqDecision thread_status.
Proof. solve_decision. Defined.

Record thread := Thread {
  stack_pointer : Z;
  stack_base : Z;
  stack_top : Z;
  identifier : Z;
  switches : Z;
  entry : option Z;
  context : Z;
  th_state : thread_state;
  boot_thread : bool;
  interrupted_local : bool
}.

Definition unused_thread : thread :=
  Thread 0 0 0 THREAD_ID_NONE 0 None 0 THREAD_STATE_UNUSED false false.
#[global] Instance thread_inhabited : Inhabited thread := populate unused_thread.

Record thread_system_state := ThreadSystem {
  sys_active : bool;
  sys_capacity : nat;
  sys_live : Z;
  sys_ready : Z;
  sys_exited : Z;
  sys_current : Z;
  sys_switches : Z;
  stack_frames : Z;
  preemptions : Z;
  preemptive : bool
}.

Record thread_state_report := ThreadReport {
  rep_identifier : Z;
  rep_stack_base : Z;
  rep_stack_top : Z;
  rep_guard_page : Z;
  rep_switches : Z;
  rep_state : thread_state;
  rep_boot_thread : bool
}.

(** Callee-saved registers, stack pointer, flags, and the instruction to return to. *)
Record cpu := Cpu {
  r15 : Z; r14 : Z; r13 : Z; r12 : Z; rbx : Z; rbp : Z; rflags : Z; rip : Z; rsp : Z
}.

(** Code addresses: the trampoline, and the return points of the two calls of
    [thread_switch_context], in [switch_to_next] and in [thread_exit]. *)
Class code_layout := {
  thread_trampoline : Z;
  switch_return : Z;
  exit_return : Z
}.

(** What the deadline layer ([timer.c], [clock.c]) offers the scheduler: whether
    it is started, the clock, arming [quantum_expired] and cancelling. *)
Inductive arm_result := arm_ok (id : Z) | arm_bad_interval | arm_failed.

Class timer_service (T : Type) := {
  service_started : T -> bool;
  service_clock : T -> Z * T;
  service_arm : Z -> T -> arm_result * T;
  service_cancel : Z -> T -> T
}.

(** [console_panic]. *)
Inductive panic :=
| panic_not_started
| panic_boot_exit
| panic_last_exit
| panic_no_quantum.

Section Operations.
Context {M T : Type} `{!page_backend M} `{!timer_service T} `{!code_layout}.

Record sched := Sched {
  table : option Z;
  slots : list thread;
  sys : thread_system_state;
  current_slot : nat;
  next_identifier : Z;
  reschedule_pending : bool;
  quantum_identifier : Z;
  processor : cpu;
  words : gmap Z Z;
  kheap : heap;
  pages : M;
  timer : T
}.
Implicit Types s : sched.

Definition set_slots (l : list thread) s : sched :=
  Sched (table s) l (sys s) (current_slot s) (next_identifier s) (reschedule_pending s)
    (quantum_identifier s) (processor s) (words s) (kheap s) (pages s) (timer s).
Definition set_sys (x : thread_system_state) s : sched :=
  Sched (table s) (slots s) x (current_slot s) (next_identifier s) (reschedule_pending s)
    (quantum_identifier s) (processor s) (words s) (kheap s) (pages s) (timer s).
Definition set_processor (c : cpu) s : sched :=
  Sched (table s) (slots s) (sys s) (current_slot s) (next_identifier s) (reschedule_pending s)
    (quantum_identifier s) c (words s) (kheap s) (pages s) (timer s).
Definition set_words (x : gmap Z Z) s : sched :=
  Sched (table s) (slots s) (sys s) (current_slot s) (next_identifier s) (reschedule_pending s)
    (quantum_identifier s) (processor s) x (kheap s) (pages s) (timer s).
Definition set_pages (m : M) s : sched :=
  Sched (table s) (slots s) (sys s) (current_slot s) (next_identifier s) (reschedule_pending s)
    (quantum_identifier s) (processor s) (words s) (kheap s) m (timer s).
Definition set_quantum (pending : bool) (id : Z) (t : T) s : sched :=
  Sched (table s) (slots s) (sys s) (current_slot s) (next_identifier s) pending id
    (processor s) (words s) (kheap s) (pages s) t.
Definition set_current (slot : nat) s : sched :=
  Sched (table s) (slots s) (sys s) slot (next_identifier s) (reschedule_pending s)
    (quantum_identifier s) (processor s) (words s) (kheap s) (pages s) (timer s).

Definition on_thread (i : nat) (f : thread -> thread) s : sched :=
  set_slots (<[i := f (slots s !!! i)]> (slots s)) s.

Definition set_state (x : thread_state) (t : thread) : thread :=
  Thread (stack_pointer t) (stack_base t) (stack_top t) (identifier t) (switches t) (entry t)
    (context t) x (boot_thread t) (interrupted_local t).
Definition set_stack_pointer (sp : Z) (t : thread) : thread :=
  Thread sp (stack_base t) (stack_top t) (identifier t) (switches t) (entry t)
    (context t) (th_state t) (boot_thread t) (interrupted_local t).
Definition set_interrupted (b : bool) (t : thread) : thread :=
  Thread (stack_pointer t) (stack_base t) (stack_top t) (identifier t) (switches t) (entry t)
    (context t) (th_state t) (boot_thread t) b.
Definition count_switch (t : thread) : thread :=
  Thread (stack_pointer t) (stack_base t) (stack_top t) (identifier t) (u64 (switches t + 1))
    (entry t) (context t) (th_state t) (boot_thread t) (interrupted_local t).

(** [slot_guard_page], [slot_stack_base], [slot_stack_top]. *)
Definition slot_guard_page (slot : nat) : Z :=
  THREAD_STACK_REGION + Z.of_nat slot * THREAD_STACK_STRIDE.
Definition slot_stack_base (slot : nat) : Z := slot_guard_page slot + PAGING_PAGE_SIZE.
Definition slot_stack_top (slot : nat) : Z := slot_stack_base slot + THREAD_STACK_SIZE.

(** The slot [find] points to. *)
Definition find (id : Z) s : option nat :=
  if (id =? THREAD_ID_NONE) || bool_decide (table s = None) then None
  else first_index (fun t => bool_decide (th_state t <> THREAD_STATE_UNUSED) && (identifier t =? id))
         (take (sys_capacity (sys s)) (slots s)).

Fixpoint scan_ready (l : list thread) (cap from step n : nat) : nat :=
  match n with
  | O => from
  | S n =>
      let slot := ((from + step) mod cap)%nat in
      if decide (th_state (l !!! slot) = THREAD_STATE_READY) then slot
      else scan_ready l cap from (S step) n
  end.

Definition next_ready_slot s (from : nat) : nat :=
  scan_ready (slots s) (sys_capacity (sys s)) from 1 (sys_capacity (sys s)).

Definition is_state (x : thread_state) (t : thread) : bool := bool_decide (th_state t = x).

Definition recount s : sched :=
  let l := take (sys_capacity (sys s)) (slots s) in
  let x := sys s in
  set_sys (ThreadSystem (sys_active x) (sys_capacity x)
    (countb (is_state THREAD_STATE_READY) l + countb (is_state THREAD_STATE_RUNNING) l)
    (countb (is_state THREAD_STATE_READY) l) (countb (is_state THREAD_STATE_EXITED) l)
    (sys_current x) (sys_switches x) (stack_frames x) (preemptions x) (preemptive x)) s.

Definition account_switch (to : nat) s : sched :=
  let s := on_thread to count_switch s in
  let x := sys s in
  set_current to (set_sys (ThreadSystem (sys_active x) (sys_capacity x) (sys_live x) (sys_ready x)
    (sys_exited x) (identifier (slots s !!! to)) (u64 (sys_switches x + 1)) (stack_frames x)
    (preemptions x) (preemptive x)) s).

(** ** Stacks *)

Definition add_stack_frames (n : Z) s : sched :=
  let x := sys s in
  set_sys (ThreadSystem (sys_active x) (sys_capacity x) (sys_live x) (sys_ready x) (sys_exited x)
    (sys_current x) (sys_switches x) (u64 (stack_frames x + n)) (preemptions x) (preemptive x)) s.

(** The mapping loop from [address], [n] pages to go: the failure, the pages
    mapped and the page tables. *)
Fixpoint map_run (n : nat) (address : Z) (mapped : nat) (m : M) : thread_status * nat * M :=
  match n with
  | O => (THREAD_STATUS_OK, mapped, m)
  | S n =>
      match backend_frame_allocate m with
      | (FRAME_STATUS_OK, frame, m) =>
          match paging_map address frame PAGING_PAGE_SIZE PAGING_WRITE m with
          | (PAGING_STATUS_OK, m) => map_run n (address + PAGING_PAGE_SIZE) (S mapped) m
          | (_, m) => (THREAD_STATUS_MAPPING_FAILURE, mapped, (backend_frame_release frame m).2)
          end
      | (_, _, m) => (THREAD_STATUS_OUT_OF_FRAMES, mapped, m)
      end
  end.

(** The unwinding loop. *)
Fixpoint unwind_run (n : nat) (address : Z) (m : M) : M :=
  match n with
  | O => m
  | S n =>
      let m :=
        match paging_translate m address with
        | (PAGING_STATUS_OK, t) =>
            match paging_unmap address PAGING_PAGE_SIZE m with
            | (PAGING_STATUS_OK, m) => (backend_frame_release (physical_address t) m).2
            | (_, m) => m
            end
        | _ => m
        end in
      unwind_run n (address + PAGING_PAGE_SIZE) m
  end.

Definition map_stack (slot : nat) s : thread_status * sched :=
  let base := slot_stack_base slot in
  match map_run THREAD_STACK_PAGES base 0 (pages s) with
  | (failure, mapped, m) =>
      if negb (mapped =? THREAD_STACK_PAGES)%nat then
        (failure, set_pages (unwind_run mapped base m) s)
      else
        (THREAD_STATUS_OK, add_stack_frames (Z.of_nat THREAD_STACK_PAGES) (set_pages m s))
  end.

Fixpoint unmap_run (n : nat) (address : Z) s : thread_status * sched :=
  match n with
  | O => (THREAD_STATUS_OK, s)
  | S n =>
      match paging_translate (pages s) address with
      | (PAGING_STATUS_OK, t) =>
          match paging_unmap address PAGING_PAGE_SIZE (pages s) with
          | (PAGING_STATUS_OK, m) =>
              match backend_frame_release (physical_address t) m with
              | (FRAME_STATUS_OK, m) =>
                  unmap_run n (address + PAGING_PAGE_SIZE) (add_stack_frames (-1) (set_pages m s))
              | (_, m) => (THREAD_STATUS_VALIDATION_FAILURE, set_pages m s)
              end
          | (_, m) => (THREAD_STATUS_VALIDATION_FAILURE, set_pages m s)
          end
      | _ => (THREAD_STATUS_VALIDATION_FAILURE, s)
      end
  end.

Definition unmap_stack (slot : nat) s : thread_status * sched :=
  unmap_run THREAD_STACK_PAGES (slot_stack_base slot) s.

(** ** Contexts on stacks *)

(** The eight words of a frame from its lowest address, in the order the pops
    consume them. *)
Definition frame_words (c : cpu) : list Z :=
  [r15 c; r14 c; r13 c; r12 c; rbx c; rbp c; rflags c; rip c].

Fixpoint write_words (a : Z) (vs : list Z) (w : gmap Z Z) : gmap Z Z :=
  match vs with
  | [] => w
  | v :: vs => write_words (a + 8) vs (<[a := v]> w)
  end.

(** [push]: the stack pointer goes down a word. *)
Definition push (v : Z) (st : Z * gmap Z Z) : Z * gmap Z Z :=
  let sp := u64 (st.1 - 8) in (sp, <[sp := v]> st.2).

Definition word (w : gmap Z Z) (a : Z) : Z := default 0 (w !! a).

(** The pops and the [ret] of [thread_switch_context] from stack pointer [sp]. *)
Definition pop_frame (w : gmap Z Z) (sp : Z) : cpu :=
  Cpu (word w sp) (word w (sp + 8)) (word w (sp + 16)) (word w (sp + 24)) (word w (sp + 32))
    (word w (sp + 40)) (word w (sp + 48)) (word w (sp + 56)) (u64 (sp + 64)).

(** [thread_switch_context(&threads[previous].stack_pointer,
    threads[next].stack_pointer)], called so that it returns to [return_to]. *)
Definition thread_switch_context (previous next : nat) (return_to : Z) s : sched :=
  let load := stack_pointer (slots s !!! next) in
  let c := processor s in
  let '(sp, w) :=
    push (r15 c) (push (r14 c) (push (r13 c) (push (r12 c) (push (rbx c) (push (rbp c)
      (push (rflags c) (push return_to (rsp c, words s)))))))) in
  let s := set_words w (on_thread previous (set_stack_pointer sp) s) in
  set_processor (pop_frame w load) s.

Definition set_rflags (v : Z) (c : cpu) : cpu :=
  Cpu (r15 c) (r14 c) (r13 c) (r12 c) (rbx c) (rbp c) v (rip c) (rsp c).

Definition interrupts_on s : bool := Z.testbit (rflags (processor s)) 9.
Definition cpu_interrupt_disable s : sched :=
  set_processor (set_rflags (Z.clearbit (rflags (processor s)) 9) (processor s)) s.
Definition cpu_interrupt_enable s : sched :=
  set_processor (set_rflags (Z.setbit (rflags (processor s)) 9) (processor s)) s.

(** [prepare_frame]: the frame the first switch onto the stack consumes. *)
Definition prepare_frame (i : nat) s : sched :=
  let t := slots s !!! i in
  let sp := stack_top t - PREPARED_FRAME_SIZE in
  let frame := Cpu 0 0 (context t) (default 0 (entry t)) 0 0 INITIAL_RFLAGS thread_trampoline 0 in
  on_thread i (set_stack_pointer sp) (set_words (write_words sp (frame_words frame) (words s)) s).

(** [thread_trampoline] up to its call: the function called, its argument and the
    context of the call. *)
Definition trampoline_call (c : cpu) : Z * Z * cpu :=
  (r12 c, r13 c, Cpu (r15 c) (r14 c) (r13 c) (r12 c) (rbx c) 0 (rflags c) (rip c)
     (Z.land (rsp c) (2 ^ 64 - 16))).

(** ** Switching *)

(** What a resumed thread does after [thread_switch_context]: back in its own
    [switch_to_next] it restores its interrupt state; in the trampoline it starts
    with the flags of its prepared frame.  An exited thread is never resumed. *)
Definition resume s : sched :=
  if (rip (processor s) =? switch_return) && interrupted_local (slots s !!! current_slot s)
  then cpu_interrupt_enable s else s.

Definition switch_to_next s : sched :=
  let interrupted := interrupts_on s in
  let s := cpu_interrupt_disable s in
  let previous := current_slot s in
  let next := next_ready_slot s previous in
  if (next =? previous)%nat then (if interrupted then cpu_interrupt_enable s else s)
  else
    let s := on_thread previous (set_interrupted interrupted) s in
    let s :=
      if decide (th_state (slots s !!! previous) = THREAD_STATE_RUNNING)
      then on_thread previous (set_state THREAD_STATE_READY) s else s in
    let s := on_thread next (set_state THREAD_STATE_RUNNING) s in
    let s := recount (account_switch next s) in
    resume (thread_switch_context previous next switch_return s).

Definition thread_yield s : sched :=
  if negb (sys_active (sys s)) then s else switch_to_next s.

Definition thread_exit s : panic + sched :=
  if negb (sys_active (sys s)) then inl panic_not_started
  else
    let s := cpu_interrupt_disable s in
    let previous := current_slot s in
    if boot_thread (slots s !!! previous) then inl panic_boot_exit
    else
      let s := on_thread previous (set_state THREAD_STATE_EXITED) s in
      let next := next_ready_slot s previous in
      if (next =? previous)%nat then inl panic_last_exit
      else
        let s := on_thread next (set_state THREAD_STATE_RUNNING) s in
        let s := recount (account_switch next s) in
        inr (resume (thread_switch_context previous next exit_return s)).

(** The guards of [thread_join]: a status, or the slot to wait for.  The wait is
    [while (target->state != THREAD_STATE_EXITED) thread_yield();]. *)
Definition thread_join_begin (id : Z) s : thread_status + nat :=
  if negb (sys_active (sys s)) then inl THREAD_STATUS_NOT_STARTED
  else match find id s with
  | None => inl THREAD_STATUS_BAD_IDENTIFIER
  | Some target =>
      if identifier (slots s !!! target) =? identifier (slots s !!! current_slot s)
      then inl THREAD_STATUS_BAD_IDENTIFIER else inr target
  end.

Definition thread_join_waits (target : nat) s : bool :=
  bool_decide (th_state (slots s !!! target) <> THREAD_STATE_EXITED).

(** ** Preemption *)

Definition set_preemptive (b : bool) s : sched :=
  let x := sys s in
  set_sys (ThreadSystem (sys_active x) (sys_capacity x) (sys_live x) (sys_ready x) (sys_exited x)
    (sys_current x) (sys_switches x) (stack_frames x) (preemptions x) b) s.

(** The attempts of [arm_quantum], [n] of them left. *)
Fixpoint arm_attempts (n : nat) (t : T) : option Z * T :=
  match n with
  | O => (None, t)
  | S n =>
      let '(now, t) := service_clock t in
      match service_arm (u64 (now + THREAD_QUANTUM_NS)) t with
      | (arm_ok id, t) => (Some id, t)
      | (arm_bad_interval, t) => arm_attempts n t
      | (arm_failed, t) => (None, t)
      end
  end.

Definition arm_quantum s : thread_status * sched :=
  match arm_attempts QUANTUM_ARM_ATTEMPTS (timer s) with
  | (Some id, t) => (THREAD_STATUS_OK, set_quantum (reschedule_pending s) id t s)
  | (None, t) => (THREAD_STATUS_NO_QUANTUM, set_quantum (reschedule_pending s) THREAD_ID_NONE t s)
  end.

Definition quantum_expired s : panic + sched :=
  let s := set_quantum (reschedule_pending s) THREAD_ID_NONE (timer s) s in
  if negb (sys_active (sys s)) || negb (preemptive (sys s)) then inr s
  else match arm_quantum s with
  | (THREAD_STATUS_OK, s) =>
      if negb (next_ready_slot s (current_slot s) =? current_slot s)%nat then
        let x := sys s in
        inr (set_sys (ThreadSystem (sys_active x) (sys_capacity x) (sys_live x) (sys_ready x)
               (sys_exited x) (sys_current x) (sys_switches x) (stack_frames x)
               (u64 (preemptions x + 1)) (preemptive x))
             (set_quantum true (quantum_identifier s) (timer s) s))
      else inr s
  | _ => inl panic_no_quantum
  end.

Definition thread_on_interrupt_return s : sched :=
  if negb (reschedule_pending s) then s
  else
    let s := set_quantum false (quantum_identifier s) (timer s) s in
    if negb (sys_active (sys s)) then s else switch_to_next s.

Definition thread_enable_preemption s : thread_status * sched :=
  if negb (sys_active (sys s)) then (THREAD_STATUS_NOT_STARTED, s)
  else if preemptive (sys s) then (THREAD_STATUS_ALREADY_PREEMPTIVE, s)
  else if negb (service_started (timer s)) then (THREAD_STATUS_NO_TIMER, s)
  else
    let '(status, s) := arm_quantum (set_preemptive true s) in
    (status, if decide (status = THREAD_STATUS_OK) then s else set_preemptive false s).

Definition thread_disable_preemption s : thread_status * sched :=
  if negb (sys_active (sys s)) then (THREAD_STATUS_NOT_STARTED, s)
  else if negb (preemptive (sys s)) then (THREAD_STATUS_NOT_PREEMPTIVE, s)
  else
    let s := set_preemptive false s in
    let s :=
      if negb (quantum_identifier s =? THREAD_ID_NONE) then
        set_quantum (reschedule_pending s) THREAD_ID_NONE
          (service_cancel (quantum_identifier s) (timer s)) s
      else s in
    (THREAD_STATUS_OK, set_quantum false (quantum_identifier s) (timer s) s).

(** ** Starting, creating, stopping *)

Definition thread_start s : thread_status * sched :=
  if sys_active (sys s) then (THREAD_STATUS_ALREADY_STARTED, s)
  else if interrupts_on s then (THREAD_STATUS_INTERRUPTS_ENABLED, s)
  else if negb (active (state (kheap s))) || negb (paging_is_active (pages s)) then
    (THREAD_STATUS_NO_HEAP, s)
  else match heap_allocate (Z.of_nat THREAD_MAX * thread_size) (Some None) (kheap s) (pages s) with
  | (HEAP_STATUS_OK, Some (Some p), h, m) =>
      let boot := Thread 0 0 0 1 0 None 0 THREAD_STATE_RUNNING true false in
      (THREAD_STATUS_OK,
       recount (Sched (Some p) (boot :: replicate (THREAD_MAX - 1) unused_thread)
         (ThreadSystem true THREAD_MAX (sys_live (sys s)) (sys_ready (sys s)) (sys_exited (sys s))
            1 0 0 0 false)
         0 2 false THREAD_ID_NONE (processor s) (words s) h m (timer s)))
  | (_, _, h, m) =>
      (THREAD_STATUS_NO_MEMORY,
       Sched (table s) (slots s) (sys s) (current_slot s) (next_identifier s)
         (reschedule_pending s) (quantum_identifier s) (processor s) (words s) h m (timer s))
  end.

(** The first unused slot after the boot thread's. *)
Definition unused_slot s : option nat :=
  S <$> first_index (is_state THREAD_STATE_UNUSED) (drop 1 (take (sys_capacity (sys s)) (slots s))).

(** The status, [*identifier] and the state; [out] is [identifier != NULL]. *)
Definition thread_create (f : option Z) (c : Z) (out : bool) s : thread_status * Z * sched :=
  match f with
  | None => (THREAD_STATUS_NULL_ARGUMENT, THREAD_ID_NONE, s)
  | Some _ =>
      let refuse st s := (st, THREAD_ID_NONE, s) in
      if negb out then refuse THREAD_STATUS_NULL_ARGUMENT s
      else if negb (sys_active (sys s)) then refuse THREAD_STATUS_NOT_STARTED s
      else if interrupts_on s then refuse THREAD_STATUS_INTERRUPTS_ENABLED s
      else match unused_slot s with
      | None => refuse THREAD_STATUS_NO_CAPACITY s
      | Some chosen =>
          match map_stack chosen s with
          | (THREAD_STATUS_OK, s) =>
              let id := next_identifier s in
              let s := on_thread chosen (fun t =>
                Thread (stack_pointer t) (slot_stack_base chosen) (slot_stack_top chosen) id 0
                  f c (th_state t) false (interrupted_local t)) s in
              let s := Sched (table s) (slots s) (sys s) (current_slot s) (u64 (id + 1))
                (reschedule_pending s) (quantum_identifier s) (processor s) (words s) (kheap s)
                (pages s) (timer s) in
              let s := on_thread chosen (set_state THREAD_STATE_READY) (prepare_frame chosen s) in
              (THREAD_STATUS_OK, id, recount s)
          | (status, s) => refuse status s
          end
      end
  end.

(** The two loops of [thread_stop] over the slots after the boot thread's. *)
Definition any_runnable s : bool :=
  existsb (fun t => is_state THREAD_STATE_READY t || is_state THREAD_STATE_RUNNING t)
    (drop 1 (take (sys_capacity (sys s)) (slots s))).

Fixpoint release_stacks (n slot : nat) s : thread_status * sched :=
  match n with
  | O => (THREAD_STATUS_OK, s)
  | S n =>
      if is_state THREAD_STATE_EXITED (slots s !!! slot) then
        match unmap_stack slot s with
        | (THREAD_STATUS_OK, s) => release_stacks n (S slot) (on_thread slot (fun _ => unused_thread) s)
        | (status, s) => (status, s)
        end
      else release_stacks n (S slot) s
  end.

Definition thread_stop s : thread_status * sched :=
  if negb (sys_active (sys s)) then (THREAD_STATUS_NOT_STARTED, s)
  else if interrupts_on s then (THREAD_STATUS_INTERRUPTS_ENABLED, s)
  else if negb (boot_thread (slots s !!! current_slot s)) then
    (THREAD_STATUS_NOT_THE_BOOT_THREAD, s)
  else
    let s := if preemptive (sys s) then (thread_disable_preemption s).2 else s in
    if any_runnable s then (THREAD_STATUS_THREADS_STILL_RUNNABLE, s)
    else match release_stacks (sys_capacity (sys s) - 1) 1 s with
    | (THREAD_STATUS_OK, s) =>
        if negb (stack_frames (sys s) =? 0) then (THREAD_STATUS_VALIDATION_FAILURE, s)
        else match heap_free (table s) (kheap s) with
        | (HEAP_STATUS_OK, h) =>
            let x := sys s in
            (THREAD_STATUS_OK,
             Sched None [] (ThreadSystem false 0 0 0 0 THREAD_ID_NONE (sys_switches x)
                 (stack_frames x) (preemptions x) false)
               0 (next_identifier s) false THREAD_ID_NONE (processor s) (words s) h (pages s) (timer s))
        | (_, h) =>
            (THREAD_STATUS_VALIDATION_FAILURE,
             Sched (table s) (slots s) (sys s) (current_slot s) (next_identifier s)
               (reschedule_pending s) (quantum_identifier s) (processor s) (words s) h (pages s)
               (timer s))
        end
    | (status, s) => (status, s)
    end.

(** ** The audit *)

Definition stack_mapped (m : M) (base : Z) : bool :=
  forallb (fun page =>
    match paging_translate m (base + Z.of_nat page * PAGING_PAGE_SIZE) with
    | (PAGING_STATUS_OK, t) => (permissions t =? PAGING_WRITE) && (level t =? 1)
    | _ => false
    end) (seq 0 THREAD_STACK_PAGES).

(** The checks of [thread_verify] on one slot. *)
Definition verify_slot (m : M) (slot : nat) (t : thread) : bool :=
  if is_state THREAD_STATE_UNUSED t then true
  else if boot_thread t then (slot =? 0)%nat && (stack_top t =? 0)
  else
    (stack_base t =? slot_stack_base slot) && (stack_top t =? slot_stack_top slot) &&
    bool_decide ((paging_translate m (slot_guard_page slot)).1 = PAGING_STATUS_NOT_MAPPED) &&
    stack_mapped m (stack_base t) &&
    negb (negb (is_state THREAD_STATE_EXITED t) && negb (is_state THREAD_STATE_RUNNING t) &&
          ((stack_pointer t <? stack_base t) || (stack_top t <? stack_pointer t))).

Definition thread_verify s : thread_status :=
  if negb (sys_active (sys s)) then THREAD_STATUS_NOT_STARTED
  else if bool_decide (table s = None) then THREAD_STATUS_VALIDATION_FAILURE
  else
    let l := take (sys_capacity (sys s)) (slots s) in
    if negb (forallb (fun p => verify_slot (pages s) p.1 p.2) (zip (seq 0 (length l)) l)) then
      THREAD_STATUS_VALIDATION_FAILURE
    else if negb (countb (is_state THREAD_STATE_RUNNING) l =? 1) ||
            negb (countb (fun t => negb (is_state THREAD_STATE_UNUSED t)) l =?
                  sys_live (sys s) + sys_exited (sys s)) then
      THREAD_STATUS_VALIDATION_FAILURE
    else THREAD_STATUS_OK.

Definition thread_current s : Z :=
  if sys_active (sys s) then identifier (slots s !!! current_slot s) else THREAD_ID_NONE.

Definition thread_is_started s : bool := sys_active (sys s).
Definition thread_preemption_enabled s : bool := sys_active (sys s) && preemptive (sys s).

(** The status and [*report]; [out] is [report != NULL]. *)
Definition thread_report (id : Z) (out : bool) s : thread_status * option thread_state_report :=
  if negb out then (THREAD_STATUS_NULL_ARGUMENT, None)
  else if negb (sys_active (sys s)) then (THREAD_STATUS_NOT_STARTED, None)
  else match find id s with
  | None => (THREAD_STATUS_BAD_IDENTIFIER, None)
  | Some slot =>
      let t := slots s !!! slot in
      (THREAD_STATUS_OK,
       Some (ThreadReport (identifier t) (stack_base t) (stack_top t)
         (if boot_thread t then 0 else slot_guard_page slot) (switches t) (th_state t) (boot_thread t)))
  end.
End Operations.
Arguments sched : clear implicits.

(** ** The choice of the next thread *)

Lemma scan_ready_spec l cap from step n :
  (exists k, (step <= k < step + n)%nat /\ scan_ready l cap from step n = ((from + k) mod cap)%nat /\
     th_state (l !!! ((from + k) mod cap)%nat) = THREAD_STATE_READY /\
     forall j, (step <= j < k)%nat -> th_state (l !!! ((from + j) mod cap)%nat) <> THREAD_STATE_READY) \/
  (scan_ready l cap from step n = from /\
   forall j, (step <= j < step + n)%nat ->
     th_state (l !!! ((from + j) mod cap)%nat) <> THREAD_STATE_READY).
Proof.
  revert step. induction n as [|n IH]; intros step; cbn [scan_ready].
  { right. split; [done|lia]. }
  case_decide as Hr.
  - left. exists step. split_and!; [lia|lia|done|done|lia].
  - destruct (IH (S step)) as [(k & Hk & E & Hready & Hlt)|[E Hnone]].
    + left. exists k. split_and!; [lia|lia|done|done|]. intros j Hj.
      destruct (decide (j = step)) as [-> |]; [done|]. apply Hlt. lia.
    + right. split; [done|]. intros j Hj. destruct (decide (j = step)) as [-> |]; [done|].
      apply Hnone. lia.
Qed.

(** Slot [j] is [ahead cap from j] places after [from] in the rotation, between
    one and the capacity. *)
Definition ahead (cap from j : nat) : nat := S ((j + cap - from - 1) mod cap).

Lemma ahead_spec cap from j :
  (from < cap)%nat -> (j < cap)%nat ->
  (1 <= ahead cap from j <= cap)%nat /\ ((from + ahead cap from j) mod cap = j)%nat.
Proof.
  intros Hf Hj. unfold ahead.
  pose proof (Nat.mod_upper_bound (j + cap - from - 1) cap ltac:(lia)). split; [lia|].
  replace (from + S ((j + cap - from - 1) mod cap))%nat
    with (S from + (j + cap - from - 1) mod cap)%nat by lia.
  rewrite Nat.Div0.add_mod_idemp_r.
  replace (S from + (j + cap - from - 1))%nat with (j + 1 * cap)%nat by lia.
  rewrite Nat.Div0.mod_add. by apply Nat.mod_small.
Qed.

Lemma ahead_unique cap from j k :
  (from < cap)%nat -> (j < cap)%nat -> (1 <= k <= cap)%nat -> ((from + k) mod cap = j)%nat ->
  k = ahead cap from j.
Proof.
  intros Hf Hj Hk E. destruct (ahead_spec cap from j Hf Hj) as [Ha Ea].
  pose proof (Nat.Div0.div_mod (from + k) cap) as D1.
  pose proof (Nat.Div0.div_mod (from + ahead cap from j) cap) as D2.
  rewrite E in D1. rewrite Ea in D2.
  assert ((from + k) / cap <= 1)%nat by (apply Nat.lt_succ_r, Nat.Div0.div_lt_upper_bound; lia).
  assert ((from + ahead cap from j) / cap <= 1)%nat
    by (apply Nat.lt_succ_r, Nat.Div0.div_lt_upper_bound; lia).
  assert ((from + k) / cap = 0 \/ (from + k) / cap = 1)%nat as [Q1|Q1] by lia;
    assert ((from + ahead cap from j) / cap = 0 \/ (from + ahead cap from j) / cap = 1)%nat
      as [Q2|Q2] by lia; rewrite Q1 in D1; rewrite Q2 in D2; lia.
Qed.

(** A switch comes closer to every thread it does not choose: the heart of the
    rotation's fairness. *)
Lemma scan_ready_closer l cap from j :
  (from < cap)%nat -> (j < cap)%nat -> j <> from ->
  th_state (l !!! j) = THREAD_STATE_READY ->
  let next := scan_ready l cap from 1 cap in
  (next < cap)%nat /\ th_state (l !!! next) = THREAD_STATE_READY /\
  (next = j \/ (ahead cap next j < ahead cap from j)%nat).
Proof.
  intros Hf Hj Hne Hr next. unfold next.
  destruct (ahead_spec cap from j Hf Hj) as [Ha Ea].
  destruct (scan_ready_spec l cap from 1 cap) as [(k & Hk & E & Hready & Hlt)|[_ Hnone]].
  2: { exfalso. apply (Hnone (ahead cap from j)); [lia|]. by rewrite Ea. }
  rewrite E. pose proof (Nat.mod_upper_bound (from + k) cap ltac:(lia)) as Hb.
  split_and!; [done|done|].
  assert (k <= ahead cap from j)%nat as Hle.
  { destruct (decide (k <= ahead cap from j)%nat); [done|]. exfalso.
    apply (Hlt (ahead cap from j)); [lia|]. by rewrite Ea. }
  destruct (decide (k = ahead cap from j)) as [-> |Hk']; [by left|right].
  assert (ahead cap from j - k = ahead cap ((from + k) mod cap) j)%nat as <-; [|lia].
  apply ahead_unique; [done|done|lia|].
  rewrite Nat.Div0.add_mod_idemp_l.
  by replace (from + k + (ahead cap from j - k))%nat with (from + ahead cap from j)%nat by lia.
Qed.

(** ** Frames on stacks *)

(** A frame can be popped from anywhere the words did not change. *)
Lemma pop_frame_same w w' sp :
  (forall a, sp <= a < sp + 64 -> w' !! a = w !! a) -> pop_frame w' sp = pop_frame w sp.
Proof. intros Hw. unfold pop_frame, word. rewrite !Hw by lia. done. Qed.

Lemma write_words_frame a vs w b :
  b < a \/ a + 8 * Z.of_nat (length vs) <= b -> write_words a vs w !! b = w !! b.
Proof.
  revert a w. induction vs as [|v vs IH]; intros a w Hb; [done|]. cbn [write_words length] in *.
  rewrite IH by lia. rewrite lookup_insert_ne by lia. done.
Qed.

Definition set_rip (v : Z) (c : cpu) : cpu :=
  Cpu (r15 c) (r14 c) (r13 c) (r12 c) (rbx c) (rbp c) (rflags c) v (rsp c).

(** The words [prepare_frame] writes are popped as they were meant. *)
Lemma pop_written sp w c :
  0 <= sp -> sp + 64 < 2 ^ 64 ->
  pop_frame (write_words sp (frame_words c) w) sp =
    Cpu (r15 c) (r14 c) (r13 c) (r12 c) (rbx c) (rbp c) (rflags c) (rip c) (sp + 64).
Proof.
  intros H0 H1. unfold frame_words. cbn [write_words].
  unfold pop_frame, word. rewrite wrap_small by (unfold fits; lia).
  replace (sp + 8 + 8) with (sp + 16) by lia. replace (sp + 16 + 8) with (sp + 24) by lia.
  replace (sp + 24 + 8) with (sp + 32) by lia. replace (sp + 32 + 8) with (sp + 40) by lia.
  replace (sp + 40 + 8) with (sp + 48) by lia. replace (sp + 48 + 8) with (sp + 56) by lia.
  repeat (rewrite lookup_insert_eq || rewrite lookup_insert_ne by lia). done.
Qed.

(** The pushes of the context switch, from the call on. *)
Definition push_context (return_to : Z) (c : cpu) (w : gmap Z Z) : Z * gmap Z Z :=
  push (r15 c) (push (r14 c) (push (r13 c) (push (r12 c) (push (rbx c) (push (rbp c)
    (push (rflags c) (push return_to (rsp c, w)))))))).

(** Pushing a context and popping it gives it back, and touches only the 64 bytes
    below the stack pointer. *)
Lemma push_context_spec return_to c w :
  64 <= rsp c < 2 ^ 64 ->
  let '(sp, w') := push_context return_to c w in
  sp = rsp c - 64 /\ pop_frame w' sp = set_rip return_to c /\
  forall a, a < rsp c - 64 \/ rsp c <= a -> w' !! a = w !! a.
Proof.
  intros Hr. unfold push_context, push. cbn [fst snd].
  rewrite (wrap_small 64 (rsp c - 8)) by (unfold fits; lia).
  replace (rsp c - 8 - 8) with (rsp c - 16) by lia.
  rewrite (wrap_small 64 (rsp c - 16)) by (unfold fits; lia).
  replace (rsp c - 16 - 8) with (rsp c - 24) by lia.
  rewrite (wrap_small 64 (rsp c - 24)) by (unfold fits; lia).
  replace (rsp c - 24 - 8) with (rsp c - 32) by lia.
  rewrite (wrap_small 64 (rsp c - 32)) by (unfold fits; lia).
  replace (rsp c - 32 - 8) with (rsp c - 40) by lia.
  rewrite (wrap_small 64 (rsp c - 40)) by (unfold fits; lia).
  replace (rsp c - 40 - 8) with (rsp c - 48) by lia.
  rewrite (wrap_small 64 (rsp c - 48)) by (unfold fits; lia).
  replace (rsp c - 48 - 8) with (rsp c - 56) by lia.
  rewrite (wrap_small 64 (rsp c - 56)) by (unfold fits; lia).
  replace (rsp c - 56 - 8) with (rsp c - 64) by lia.
  rewrite (wrap_small 64 (rsp c - 64)) by (unfold fits; lia).
  split_and!; [done| |].
  - unfold pop_frame, word, set_rip.
    replace (rsp c - 64 + 8) with (rsp c - 56) by lia. replace (rsp c - 64 + 16) with (rsp c - 48) by lia.
    replace (rsp c - 64 + 24) with (rsp c - 40) by lia. replace (rsp c - 64 + 32) with (rsp c - 32) by lia.
    replace (rsp c - 64 + 40) with (rsp c - 24) by lia. replace (rsp c - 64 + 48) with (rsp c - 16) by lia.
    replace (rsp c - 64 + 56) with (rsp c - 8) by lia. replace (rsp c - 64 + 64) with (rsp c) by lia.
    rewrite wrap_small by (unfold fits; lia).
    repeat (rewrite lookup_insert_eq || rewrite lookup_insert_ne by lia). done.
  - intros a Ha. rewrite !lookup_insert_ne by lia. done.
Qed.
