(* ===== verification/ThreadSpec.v ===== *)
(** * What the scheduler promises ([src/kernel/thread.c])

    The abstract scheduler is [machine]: a phase per slot, a suspended thread being
    the processor context it will continue with, and the slot that runs.  A switch
    is [rr_switch], the first ready slot of the rotation.  [sched_ok] is the
    invariant of a started scheduler; every operation, and everything the running
    thread may do on its own stack, keeps it and is simulated by a step of the
    abstract scheduler.  On top of that: a ready thread runs within a bounded number
    of switches, exiting never finds the run queue empty, and the audit
    [thread_verify] accepts every reachable state. *)

From stdpp Require Import base option list numbers gmap relations.
From S2P Require Import Prelude Frames BlockTable Heap Thread.

(** ** The abstract scheduler *)

Inductive phase :=
| Unused
| Ready (c : cpu)
| Running (c : cpu)
| Exited.

Record machine := Machine { running_slot : nat; phases : list phase }.

Definition is_ready (p : option phase) : bool :=
  match p with Some (Ready _) => true | _ => false end.

(** The slots after [from], wrapping round. *)
Definition rotation (n from : nat) : list nat := seq (S from) (n - S from) ++ seq 0 from.

Definition first_ready (ready : nat -> bool) (l : list nat) : option nat :=
  head (filter (fun j => ready j = true) l).

Definition rr_next (m : machine) : option nat :=
  first_ready (fun j => is_ready (phases m !! j)) (rotation (length (phases m)) (running_slot m)).

(** The running thread is left in phase [p] and slot [j], which is ready, runs. *)
Definition hand_over (p : cpu -> phase) (m : machine) : machine :=
  match rr_next m, phases m !! running_slot m with
  | Some j, Some (Running c) =>
      match phases m !! j with
      | Some (Ready c') => Machine j (<[j := Running c']> (<[running_slot m := p c]> (phases m)))
      | _ => m
      end
  | _, _ => m
  end.

Section Abstract.
Context `{!code_layout}.

Definition rr_switch : machine -> machine := hand_over (fun c => Ready (set_rip switch_return c)).
Definition rr_exit : machine -> machine := hand_over (fun _ => Exited).

(** The context a new thread starts with. *)
Definition initial_context (f c : Z) (slot : nat) : cpu :=
  Cpu 0 0 c f 0 0 INITIAL_RFLAGS thread_trampoline (slot_stack_top slot).

Inductive machine_step : machine -> machine -> Prop :=
| machine_skip m : machine_step m m
| machine_switch m : machine_step m (rr_switch m)
| machine_exit m : running_slot m <> O -> is_Some (rr_next m) -> machine_step m (rr_exit m)
| machine_create m i f c :
    phases m !! i = Some Unused ->
    machine_step m (Machine (running_slot m) (<[i := Ready (initial_context f c i)]> (phases m)))
| machine_local m c c' :
    phases m !! running_slot m = Some (Running c) ->
    machine_step m (Machine (running_slot m) (<[running_slot m := Running c']> (phases m))).
(** What a new thread starts with is what its creator asked for: the trampoline
    calls the entry function with the context as argument, with interrupts on, the
    direction flag clear, the frame chain ended, and the stack pointer at the top of
    the slot's own stack, which the alignment leaves alone. *)
Theorem new_thread_starts f c i :
  (i < THREAD_MAX)%nat ->
  let '(fn, arg, k) := trampoline_call (initial_context f c i) in
  fn = f /\ arg = c /\ rsp k = slot_stack_top i /\ rsp k mod 16 = 0 /\ rbp k = 0 /\
  Z.testbit (rflags k) 9 = true /\ Z.testbit (rflags k) 10 = false.
Proof.
  intros Hi. unfold trampoline_call, initial_context. cbn [r12 r13 rsp rbp rflags].
  assert (i ∈ seq 0 THREAD_MAX) as Hin by (apply elem_of_seq; lia). revert Hin. clear Hi.
  cbn [seq THREAD_MAX]. rewrite !elem_of_cons.
  intros Hin. repeat (destruct Hin as [-> |Hin]; [split_and!; reflexivity|]). by apply elem_of_nil in Hin.
Qed.
End Abstract.

(** ** The rotation *)

Lemma first_ready_Some ready l j :
  first_ready ready l = Some j -> j ∈ l /\ ready j = true.
Proof.
  unfold first_ready. intros H.
  assert (j ∈ filter (fun j => ready j = true) l) as [??]%list_elem_of_filter; [|done].
  destruct (filter _ l); [done|]. injection H as ->. constructor.
Qed.

Lemma first_ready_cons ready j l :
  first_ready ready (j :: l) = if ready j then Some j else first_ready ready l.
Proof.
  unfold first_ready. rewrite filter_cons. destruct (ready j); [by rewrite decide_True|].
  by rewrite decide_False.
Qed.

Lemma first_ready_snoc ready l j :
  default j (first_ready ready (l ++ [j])) = default j (first_ready ready l).
Proof.
  induction l as [|i l IH]; [|cbn [app]; rewrite !first_ready_cons; by destruct (ready i)].
  cbn [app]. rewrite first_ready_cons. by destruct (ready j).
Qed.

Lemma first_ready_ext r r' l :
  (forall j, j ∈ l -> r j = r' j) -> first_ready r l = first_ready r' l.
Proof.
  induction l as [|i l IH]; intros H; [done|]. rewrite !first_ready_cons, H by constructor.
  rewrite IH; [done|]. intros j Hj. apply H. by constructor.
Qed.

Lemma scan_ready_rotation l cap from step n :
  scan_ready l cap from step n =
    default from (first_ready (fun j => is_state THREAD_STATE_READY (l !!! j))
      ((fun k => (from + k) mod cap)%nat <$> seq step n)).
Proof.
  revert step. induction n as [|n IH]; intros step; [done|].
  cbn [scan_ready seq fmap list_fmap]. rewrite first_ready_cons. unfold is_state at 1.
  case_decide as Hr; [by rewrite bool_decide_true|]. rewrite bool_decide_false by done. apply IH.
Qed.

Lemma rotation_steps cap from :
  (from < cap)%nat ->
  (fun k => (from + k) mod cap)%nat <$> seq 1 cap = rotation cap from ++ [from].
Proof.
  intros Hf. apply list_eq_same_length with cap; [|by rewrite length_fmap, length_seq|].
  { unfold rotation. rewrite !length_app, !length_seq. simpl. lia. }
  intros i x y Hi. rewrite list_lookup_fmap, lookup_seq_lt by lia. cbn [fmap option_fmap option_map].
  intros [= <-].
  unfold rotation. rewrite <- app_assoc.
  destruct (decide (i < cap - S from)%nat).
  { rewrite lookup_app_l by (rewrite length_seq; lia). rewrite lookup_seq_lt by lia.
    intros [= <-]. rewrite Nat.mod_small; lia. }
  rewrite lookup_app_r by (rewrite length_seq; lia). rewrite length_seq.
  replace (from + S i)%nat with ((from + 1 + i - cap) + 1 * cap)%nat by lia.
  rewrite Nat.Div0.mod_add, Nat.mod_small by lia.
  destruct (decide (i - (cap - S from) < from)%nat).
  - rewrite lookup_app_l by (rewrite length_seq; lia). rewrite lookup_seq_lt by lia.
    intros [= <-]. lia.
  - rewrite lookup_app_r by (rewrite length_seq; lia). rewrite length_seq.
    replace (i - (cap - S from) - from)%nat with O by lia. intros [= <-]. lia.
Qed.

Lemma elem_of_rotation cap from j :
  (from < cap)%nat -> j ∈ rotation cap from <-> (j < cap /\ j <> from)%nat.
Proof. intros Hf. unfold rotation. rewrite elem_of_app, !elem_of_seq. lia. Qed.

(** ** Stacks in the address space

    Page [p] of the stack of slot [i] is page [stack_index i p], page [-1] its
    guard. *)

Definition region_index : Z := (THREAD_STACK_REGION - HEAP_BASE) / PAGING_PAGE_SIZE.
Definition stack_index (i : nat) (p : Z) : Z :=
  region_index + Z.of_nat i * (Z.of_nat THREAD_STACK_PAGES + 1) + 1 + p.

Lemma stack_page_address i p : slot_stack_base i + p * PAGING_PAGE_SIZE = page (stack_index i p).
Proof.
  unfold slot_stack_base, slot_guard_page, page, stack_index, THREAD_STACK_STRIDE, THREAD_STACK_SIZE.
  change (Z.of_nat THREAD_STACK_PAGES) with 4.
  change region_index with 4194304. change THREAD_STACK_REGION with 34359738368.
  change HEAP_BASE with 17179869184. unfold PAGING_PAGE_SIZE. lia.
Qed.

Lemma guard_page_address i : slot_guard_page i = page (stack_index i (-1)).
Proof. rewrite <- stack_page_address. unfold slot_stack_base. lia. Qed.

Section Mapping.
Context {M : Type} `{!page_backend M, !page_backend_laws M}.
Implicit Types (m : M) (P : Z -> Prop).

Lemma page_next k : page k + PAGING_PAGE_SIZE = page (k + 1).
Proof. unfold page. lia. Qed.

(** What the mapping loop leaves when it stands at page [k] with [n] to go. *)
Definition map_result m P k n mapped (r : thread_status * nat * M) : Prop :=
  let '(st, mapped', m') := r in
  let done := Z.of_nat mapped' - Z.of_nat mapped in
  0 <= done <= Z.of_nat n /\ backend_ok m' /\
  backed m' (fun j => P j \/ k <= j < k + done) /\
  unmapped m' (fun j => k + done <= j < k + Z.of_nat n) /\
  same_elsewhere m m' (fun j => k <= j < k + Z.of_nat n) /\
  match st with
  | THREAD_STATUS_OK => done = Z.of_nat n
  | THREAD_STATUS_OUT_OF_FRAMES | THREAD_STATUS_MAPPING_FAILURE => done < Z.of_nat n
  | _ => False
  end.

(** A failure at page [k]: nothing more is mapped and the translations are back. *)
Lemma map_result_failed m m1 P k n mapped st :
  backend_ok m1 -> backed m1 P -> unmapped m (fun j => k <= j < k + Z.of_nat (S n)) ->
  (forall va, page_address va -> paging_translate m1 va = paging_translate m va) ->
  st = THREAD_STATUS_OUT_OF_FRAMES \/ st = THREAD_STATUS_MAPPING_FAILURE ->
  map_result m P k (S n) mapped (st, mapped, m1).
Proof.
  intros Hok Hb Hun Hs Hst. unfold map_result. rewrite Z.sub_diag, Z.add_0_r.
  split_and!; [lia..|done| | | |].
  - eapply backed_kept; [exact Hb|simpl; intros j; lia || (intros [?|?]; [done|lia])|done|done].
  - intros j Hj. rewrite Hs by apply page_is_address. by apply Hun.
  - intros va Hva _. by apply Hs.
  - destruct Hst as [-> | ->]; lia.
Qed.

Lemma map_run_spec n k mapped m P :
  backend_ok m -> backed m P -> (forall j, k <= j < k + Z.of_nat n -> ~ P j) ->
  unmapped m (fun j => k <= j < k + Z.of_nat n) ->
  map_result m P k n mapped (map_run n (page k) mapped m).
Proof.
  revert k mapped m P. induction n as [|n IH]; intros k mapped m P Hok Hb HP Hun.
  { cbn [map_run map_result]. rewrite Z.sub_diag. split_and!; [lia|lia|done| |intros j ?; lia|done|done].
    eapply backed_kept; [exact Hb| |done|done]. intros j [?|?]; [done|lia]. }
  cbn [map_run].
  destruct (backend_frame_allocate m) as [[fs f] m1] eqn:Hal.
  destruct (frame_allocate_law m fs f m1 Hok Hal) as (Hok1 & Hs1 & Hu1 & Hf1).
  assert (Hb1 : backed m1 P).
  { eapply backed_kept; [exact Hb|done|by intros; apply Hs1|]. intros j t _ _. apply Hu1. }
  destruct (decide (fs = FRAME_STATUS_OK)) as [-> |Hfs].
  2: { destruct fs; try done; (apply map_result_failed; [done|done|done|by intros|by left]). }
  destruct (Hf1 eq_refl) as [Hnew Huse].
  destruct (paging_map (page k) f PAGING_PAGE_SIZE PAGING_WRITE m1) as [ps m2] eqn:Hmap.
  destruct (paging_map_law m1 (page k) f PAGING_WRITE ps m2) as (Hok2 & Hs2 & Hu2 & Ht2);
    [done|apply page_is_address|done|done|].
  assert (Hfresh : forall j t, P j -> paging_translate m1 (page j) = (PAGING_STATUS_OK, t) ->
            physical_address t <> f).
  { intros j t Hj Ht <-. destruct (proj1 Hb j Hj) as (t' & Ht' & _ & _ & Hin).
    rewrite Hs1, Ht' in Ht. injection Ht as ->. by apply Hnew. }
  assert (Hother : forall j, P j -> paging_translate m2 (page j) = paging_translate m1 (page j)).
  { intros j Hj. apply Hs2; [apply page_is_address|]. intros ->%page_inj. by apply (HP k); [lia|]. }
  assert (Hb2 : backed m2 P).
  { eapply backed_kept; [exact Hb1|done|done|]. intros j t _ _. apply Hu2. }
  case_decide as Hps.
  - subst ps. rewrite page_next.
    specialize (IH (k + 1) (S mapped) m2 (fun j => P j \/ j = k) Hok2).
    destruct (map_run n (page (k + 1)) (S mapped) m2) as [[st mapped'] m']. unfold map_result in IH |- *.
    destruct IH as (Hd & Hok' & Hb' & Hun' & Hs' & Hst).
    { apply (backed_add m2 P k f Hb2); [|by apply Hu2|done].
      intros j t Hj. rewrite Hother by done. by apply Hfresh. }
    { intros j Hj [Hp| ->]; [|lia]. by apply (HP j); [lia|]. }
    { intros j Hj. rewrite Hs2, Hs1; [apply Hun; lia|apply page_is_address|]. intros ->%page_inj. lia. }
    split_and!; [lia|lia|done| | | |destruct st; try done; lia].
    + eapply backed_kept; [exact Hb'| |done|done]. intros j [?|?]; [by left; left|].
      destruct (decide (j = k)); [by left; right|right; lia].
    + intros j Hj. apply Hun'. lia.
    + intros va Hva Hne. rewrite Hs', Hs2, Hs1; [done|done|apply Hne; lia|done|].
      intros j Hj. apply Hne. lia.
  - destruct (backend_frame_release f m2) as [rs m3] eqn:Hrel.
    destruct (frame_release_law m2 f rs m3 Hok2 (Hu2 f Huse) Hrel) as (Hok3 & Hs3 & Hu3).
    assert (map_result m P k (S n) mapped (THREAD_STATUS_MAPPING_FAILURE, mapped, m3)) as Hgoal.
    { apply map_result_failed; [done| |done| |by right].
      - eapply backed_kept; [exact Hb2|done|by intros; apply Hs3|].
        intros j t Hj. rewrite Hother by done. intros Ht. apply Hu3. by apply (Hfresh j t Hj).
      - intros va Hva. rewrite Hs3, <- Hs1. destruct (decide (va = page k)) as [-> |]; [done|].
        by apply Hs2. }
    by destruct ps.
Qed.

(** The unwinding takes back exactly the pages it walks over. *)
Lemma unwind_run_spec n k m P :
  backend_ok m -> backed m P -> (forall j, k <= j < k + Z.of_nat n -> P j) ->
  let m' := unwind_run n (page k) m in
  backend_ok m' /\ unmapped m' (fun j => k <= j < k + Z.of_nat n) /\
  same_elsewhere m m' (fun j => k <= j < k + Z.of_nat n) /\
  backed m' (fun j => P j /\ ~ k <= j < k + Z.of_nat n).
Proof.
  revert k m P. induction n as [|n IH]; intros k m P Hok Hb HP.
  { cbn [unwind_run]. cbv zeta. split_and!; [done|intros j Hj; lia|done|].
    eapply backed_kept; [exact Hb|tauto|done|done]. }
  cbn [unwind_run]. destruct (proj1 Hb k) as (t & Ht & _); [apply HP; lia|]. rewrite Ht.
  destruct (paging_unmap (page k) PAGING_PAGE_SIZE m) as [st m1] eqn:Hu.
  destruct (backend_frame_release (physical_address t) m1) as [st' m2] eqn:Hr.
  destruct (release_one m P k t m1 m2 st st') as (-> & Hok2 & Hnm & Hs2 & Hb2);
    [done|done|apply HP; lia|done..|].
  cbv zeta. cbn [snd]. rewrite page_next.
  destruct (IH (k + 1) m2 _ Hok2 Hb2) as (Hok' & Hun' & Hs' & Hb').
  { intros j Hj. split; [apply HP; lia|lia]. }
  split_and!; [done| | |].
  - intros j Hj. destruct (decide (j = k)) as [-> |]; [|apply Hun'; lia].
    rewrite Hs'; [done|apply page_is_address|]. intros i Hi ->%page_inj. lia.
  - intros va Hva Hne. rewrite Hs', Hs2; [done|done|by intros i ->; apply Hne; lia|done|].
    intros i Hi. apply Hne. lia.
  - eapply backed_kept; [exact Hb'| |done|done]. simpl. intros j ?. split; [split|]; try tauto; lia.
Qed.
End Mapping.

(** ** The invariant *)

Section Scheduler.
Context {M T : Type} `{!page_backend M, !page_backend_laws M, !timer_service T, !code_layout}.
(** The stack the kernel booted on, below the stacks of the threads. *)
Context (boot_lo boot_hi : Z).
Hypothesis Hboot : 0 <= boot_lo /\ boot_hi <= THREAD_STACK_REGION.
Implicit Types (s : sched M T).

Definition stack_lo (i : nat) : Z := if (i =? 0)%nat then boot_lo else slot_stack_base i.
Definition stack_hi (i : nat) : Z := if (i =? 0)%nat then boot_hi else slot_stack_top i.

Definition state_of s (i : nat) : thread_state := th_state (slots s !!! i).

(** The context a suspended thread continues with, once its [switch_to_next] has
    restored its interrupt flag. *)
Definition resumed (t : thread) (c : cpu) : cpu :=
  if (rip c =? switch_return) && interrupted_local t
  then set_rflags (Z.setbit (rflags c) 9) c else c.

Definition suspended s (i : nat) : cpu :=
  resumed (slots s !!! i) (pop_frame (words s) (stack_pointer (slots s !!! i))).

Definition phase_at s (i : nat) : phase :=
  match state_of s i with
  | THREAD_STATE_UNUSED => Unused
  | THREAD_STATE_READY => Ready (suspended s i)
  | THREAD_STATE_RUNNING => Running (processor s)
  | THREAD_STATE_EXITED => Exited
  end.

Definition abstract s : machine := Machine (current_slot s) (phase_at s <$> seq 0 THREAD_MAX).

(** A page of the stack of a used slot. *)
Definition stack_page s (k : Z) : Prop :=
  exists i p, (0 < i < THREAD_MAX)%nat /\ state_of s i <> THREAD_STATE_UNUSED /\
    0 <= p < Z.of_nat THREAD_STACK_PAGES /\ k = stack_index i p.

Definition region_page (k : Z) : Prop :=
  stack_index 0 (-1) <= k < stack_index THREAD_MAX (-1).

Record sched_ok s : Prop := {
  ok_active : sys_active (sys s) = true;
  ok_table : is_Some (table s);
  ok_capacity : sys_capacity (sys s) = THREAD_MAX;
  ok_length : length (slots s) = THREAD_MAX;
  ok_current : (current_slot s < THREAD_MAX)%nat;
  ok_running i : (i < THREAD_MAX)%nat -> state_of s i = THREAD_STATE_RUNNING <-> i = current_slot s;
  ok_boot i : (i < THREAD_MAX)%nat -> boot_thread (slots s !!! i) = true <-> i = O;
  ok_boot_slot : stack_top (slots s !!! 0%nat) = 0 /\
    (state_of s 0 = THREAD_STATE_READY \/ state_of s 0 = THREAD_STATE_RUNNING);
  ok_layout i : (0 < i < THREAD_MAX)%nat -> state_of s i <> THREAD_STATE_UNUSED ->
    stack_base (slots s !!! i) = slot_stack_base i /\ stack_top (slots s !!! i) = slot_stack_top i;
  ok_suspended i : (i < THREAD_MAX)%nat -> state_of s i = THREAD_STATE_READY ->
    stack_lo i <= stack_pointer (slots s !!! i) /\ stack_pointer (slots s !!! i) + 64 <= stack_hi i;
  ok_processor : stack_lo (current_slot s) + 64 <= rsp (processor s) <= stack_hi (current_slot s);
  ok_counts : recount s = s;
  ok_frames : stack_frames (sys s) =
    Z.of_nat THREAD_STACK_PAGES * (sys_live (sys s) + sys_exited (sys s) - 1);
  ok_names : sys_current (sys s) = identifier (slots s !!! current_slot s) /\
    next_identifier s < 2 ^ 64 /\
    forall i, (i < THREAD_MAX)%nat -> state_of s i <> THREAD_STATE_UNUSED ->
      0 < identifier (slots s !!! i) < next_identifier s;
  ok_distinct i j : (i < THREAD_MAX)%nat -> (j < THREAD_MAX)%nat ->
    state_of s i <> THREAD_STATE_UNUSED -> state_of s j <> THREAD_STATE_UNUSED ->
    identifier (slots s !!! i) = identifier (slots s !!! j) -> i = j;
  ok_pending : reschedule_pending s = true -> preemptive (sys s) = true;
  ok_backend : backend_ok (pages s);
  ok_backed : backed (pages s) (stack_page s);
  ok_unmapped : unmapped (pages s) (fun k => region_page k /\ ~ stack_page s k)
}.

(** Distinct stacks do not meet. *)
Lemma stacks_apart i j a :
  (i < THREAD_MAX)%nat -> (j < THREAD_MAX)%nat -> i <> j ->
  stack_lo i <= a < stack_hi i -> ~ stack_lo j <= a < stack_hi j.
Proof.
  unfold stack_lo, stack_hi, slot_stack_top, slot_stack_base, slot_guard_page.
  change THREAD_STACK_STRIDE with 20480. change THREAD_STACK_SIZE with 16384.
  unfold THREAD_MAX, PAGING_PAGE_SIZE. intros Hi Hj Hne.
  destruct (Nat.eqb_spec i 0), (Nat.eqb_spec j 0); lia.
Qed.

Lemma stack_bounds i : (i < THREAD_MAX)%nat -> 0 <= stack_lo i /\ stack_hi i < 2 ^ 63.
Proof.
  unfold stack_lo, stack_hi, slot_stack_top, slot_stack_base, slot_guard_page.
  change THREAD_STACK_STRIDE with 20480. change THREAD_STACK_SIZE with 16384.
  change THREAD_STACK_REGION with 34359738368 in *. unfold THREAD_MAX, PAGING_PAGE_SIZE. intros Hi.
  destruct (Nat.eqb_spec i 0); lia.
Qed.

(** ** Counts *)

Lemma countb_state x (l : list thread) :
  countb (is_state x) l = countb (fun y => bool_decide (y = x)) (th_state <$> l).
Proof. by rewrite countb_fmap. Qed.

(** [recount] reads only the states. *)
Lemma recount_counts s :
  sys (recount s) = sys s <->
  sys_ready (sys s) = countb (is_state THREAD_STATE_READY) (take (sys_capacity (sys s)) (slots s)) /\
  sys_live (sys s) = sys_ready (sys s) +
    countb (is_state THREAD_STATE_RUNNING) (take (sys_capacity (sys s)) (slots s)) /\
  sys_exited (sys s) = countb (is_state THREAD_STATE_EXITED) (take (sys_capacity (sys s)) (slots s)).
Proof.
  unfold recount. cbn [sys set_sys]. destruct (sys s); cbn. split; [intros [=]; by subst|].
  intros (-> & -> & ->). done.
Qed.

Lemma recount_set s : recount s = s <-> sys (recount s) = sys s.
Proof. split; [by intros ->|]. unfold recount. destruct s; cbn. by intros ->. Qed.

(** ** Handing the processor over

    The common tail of [switch_to_next] and [thread_exit]. *)
Definition dispatch (prev next : nat) (ret : Z) s : sched M T :=
  resume (thread_switch_context prev next ret
    (recount (account_switch next (on_thread next (set_state THREAD_STATE_RUNNING) s)))).

Record handed s s' (prev next : nat) (ret : Z) : Prop := {
  h_slots : slots s' = <[prev := set_stack_pointer (rsp (processor s) - 64) (slots s !!! prev)]>
    (<[next := count_switch (set_state THREAD_STATE_RUNNING (slots s !!! next))]> (slots s));
  h_processor : processor s' =
    resumed (slots s !!! next) (pop_frame (words s') (stack_pointer (slots s !!! next)));
  h_saved : pop_frame (words s') (rsp (processor s) - 64) = set_rip ret (processor s);
  h_words a : a < rsp (processor s) - 64 \/ rsp (processor s) <= a -> words s' !! a = words s !! a;
  h_current : current_slot s' = next;
  h_counts : recount s' = s';
  h_sys : sys_active (sys s') = sys_active (sys s) /\ sys_capacity (sys s') = sys_capacity (sys s) /\
    stack_frames (sys s') = stack_frames (sys s) /\ preemptive (sys s') = preemptive (sys s) /\
    sys_current (sys s') = identifier (slots s !!! next);
  h_rest : table s' = table s /\ next_identifier s' = next_identifier s /\
    reschedule_pending s' = reschedule_pending s /\ pages s' = pages s /\
    kheap s' = kheap s /\ timer s' = timer s /\ quantum_identifier s' = quantum_identifier s
}.

Lemma resume_processor s :
  resume s = set_processor (resumed (slots s !!! current_slot s) (processor s)) s.
Proof. unfold resume, resumed. destruct (_ && _); [done|]. by destruct s. Qed.

Lemma switch_context_spec s prev next ret :
  64 <= rsp (processor s) < 2 ^ 64 ->
  let s' := thread_switch_context prev next ret s in
  exists w, s' = set_processor (pop_frame w (stack_pointer (slots s !!! next)))
      (set_words w (on_thread prev (set_stack_pointer (rsp (processor s) - 64)) s)) /\
    pop_frame w (rsp (processor s) - 64) = set_rip ret (processor s) /\
    forall a, a < rsp (processor s) - 64 \/ rsp (processor s) <= a -> w !! a = words s !! a.
Proof.
  intros Hr. pose proof (push_context_spec ret (processor s) (words s) Hr) as Hp.
  unfold thread_switch_context. fold (push_context ret (processor s) (words s)).
  destruct (push_context _ _ _) as [sp w]. destruct Hp as (-> & Hpop & Hw). by exists w.
Qed.

Lemma insert_stack_states (l : list thread) i sp :
  th_state <$> <[i := set_stack_pointer sp (l !!! i)]> l = th_state <$> l.
Proof.
  rewrite list_fmap_insert. destruct (decide (i < length l)%nat) as [Hi|Hi].
  - apply list_insert_id. rewrite list_lookup_fmap, (list_lookup_lookup_total_lt l i Hi). done.
  - apply list_insert_ge. rewrite length_fmap. lia.
Qed.

Lemma dispatch_handed s prev next ret :
  prev <> next -> (next < length (slots s))%nat -> 64 <= rsp (processor s) < 2 ^ 64 ->
  handed s (dispatch prev next ret s) prev next ret.
Proof.
  intros Hne Hn Hr. unfold dispatch.
  set (s1 := recount _).
  assert (Hsl : slots s1 = <[next := count_switch (set_state THREAD_STATE_RUNNING (slots s !!! next))]>
                  (slots s)).
  { unfold s1, recount, account_switch, on_thread. cbn [slots set_sys set_current set_slots].
    by rewrite list_lookup_total_insert_eq, list_insert_insert_eq. }
  destruct (switch_context_spec s1 prev next ret) as (w & -> & Hpop & Hw); [exact Hr|].
  assert (Hnext : slots s1 !!! next = count_switch (set_state THREAD_STATE_RUNNING (slots s !!! next)))
    by (by rewrite Hsl, list_lookup_total_insert_eq).
  assert (Hprev : slots s1 !!! prev = slots s !!! prev)
    by (by rewrite Hsl, list_lookup_total_insert_ne).
  assert (Hrec : recount s1 = s1) by done.
  assert (Hid : sys_current (sys s1) = identifier (slots s !!! next)).
  { unfold s1, recount, account_switch, on_thread. cbn [slots sys set_sys set_current set_slots sys_current].
    by rewrite !list_lookup_total_insert_eq by (rewrite ?length_insert; lia). }
  rewrite resume_processor. cbn [slots current_slot set_processor set_words on_thread set_slots processor].
  change (current_slot s1) with next. rewrite Hprev, Hnext.
  rewrite list_lookup_total_insert_ne, Hnext by done.
  split; cbn [slots current_slot set_processor set_words on_thread set_slots processor words sys
    table next_identifier reschedule_pending pages kheap timer quantum_identifier];
    [by rewrite Hprev, Hsl|done|done|done|done| |split_and!; [done..|exact Hid]|done].
  apply recount_set. apply recount_set in Hrec. apply recount_counts in Hrec. apply recount_counts.
  cbn [sys slots set_processor set_words on_thread set_slots]. rewrite !countb_state in Hrec |- *.
  rewrite !fmap_take in Hrec |- *.
  rewrite insert_stack_states. exact Hrec.
Qed.

(** The running thread put in state [st], with its interrupt state [b] on its stack. *)
Definition leave (st : thread_state) (b : bool) s : sched M T :=
  on_thread (current_slot s) (fun t => set_state st (set_interrupted b t)) (cpu_interrupt_disable s).

Lemma countb_pointwise {A} `{!Inhabited A} (f : A -> bool) (l l' : list A) :
  length l = length l' -> (forall i, (i < length l)%nat -> f (l !!! i) = f (l' !!! i)) ->
  countb f l = countb f l'.
Proof.
  revert l'. induction l as [|x l IH]; intros [|y l'] Hlen Hp; [done|done|done|]. cbn [countb].
  injection Hlen as Hlen. assert (f x = f y) as -> by (apply (Hp O); simpl; lia).
  rewrite (IH l'); [done|done|].
  intros i Hi. apply (Hp (S i)). simpl. lia.
Qed.

Lemma countb_used (l : list thread) :
  countb (is_state THREAD_STATE_READY) l + countb (is_state THREAD_STATE_RUNNING) l +
  countb (is_state THREAD_STATE_EXITED) l = countb (fun t => negb (is_state THREAD_STATE_UNUSED t)) l.
Proof. induction l as [|t l IH]; [done|]. cbn [countb]. unfold is_state in *. destruct (th_state t); simpl; lia. Qed.

(** The used slots are those the counters say. *)
Lemma recounted_used s :
  sys_capacity (sys s) = THREAD_MAX -> length (slots s) = THREAD_MAX -> recount s = s ->
  sys_live (sys s) + sys_exited (sys s) = countb (fun t => negb (is_state THREAD_STATE_UNUSED t)) (slots s).
Proof.
  intros Hc Hl Hr%recount_set. apply recount_counts in Hr. rewrite Hc, take_ge in Hr by lia.
  destruct Hr as (Hrd & Hlv & He). rewrite <- countb_used. lia.
Qed.

Lemma leave_fields st b s :
  (current_slot s < length (slots s))%nat ->
  let s1 := leave st b s in
  slots s1 !!! current_slot s = set_state st (set_interrupted b (slots s !!! current_slot s)) /\
  (forall i, i <> current_slot s -> slots s1 !!! i = slots s !!! i) /\
  length (slots s1) = length (slots s).
Proof.
  intros Hc. unfold leave, on_thread. cbn [slots set_slots cpu_interrupt_disable set_processor].
  split_and!; [by rewrite list_lookup_total_insert_eq| |by rewrite length_insert].
  intros i Hi. by rewrite list_lookup_total_insert_ne by done.
Qed.

(** Handing over from a good state, slot by slot. *)
Lemma handed_slots s s' st b next ret :
  (current_slot s < length (slots s))%nat -> (next < length (slots s))%nat -> next <> current_slot s ->
  handed (leave st b s) s' (current_slot s) next ret ->
  slots s' !!! next = count_switch (set_state THREAD_STATE_RUNNING (slots s !!! next)) /\
  slots s' !!! current_slot s =
    set_stack_pointer (rsp (processor s) - 64)
      (set_state st (set_interrupted b (slots s !!! current_slot s))) /\
  (forall i, i <> next -> i <> current_slot s -> slots s' !!! i = slots s !!! i) /\
  length (slots s') = length (slots s).
Proof.
  intros Hc Hn Hne Hh. destruct (leave_fields st b s Hc) as (L1 & L2 & L3).
  rewrite (h_slots _ _ _ _ _ Hh), L1, (L2 next) by done.
  split_and!.
  - rewrite list_lookup_total_insert_ne, list_lookup_total_insert_eq by (done || lia). done.
  - rewrite list_lookup_total_insert_eq by (rewrite length_insert; lia). done.
  - intros i Hi1 Hi2. rewrite !list_lookup_total_insert_ne by done. by apply L2.
  - by rewrite !length_insert.
Qed.

Lemma state_set_processor c s i : state_of (set_processor c s) i = state_of s i.
Proof. done. Qed.

Lemma restore_flags f : Z.testbit f 9 = true -> Z.setbit (Z.clearbit f 9) 9 = f.
Proof.
  intros Hf. apply Z.bits_inj'. intros n Hn. rewrite Z.setbit_eqb, Z.clearbit_eqb by lia.
  destruct (Z.eqb_spec 9 n) as [<-|]; [done|]. simpl. by rewrite andb_true_r.
Qed.

Lemma keep_flags f : Z.testbit f 9 = false -> Z.clearbit f 9 = f.
Proof.
  intros Hf. apply Z.bits_inj'. intros n Hn. rewrite Z.clearbit_eqb by lia.
  destruct (Z.eqb_spec 9 n) as [<-|]; [by rewrite Hf|]. simpl. by rewrite andb_true_r.
Qed.

Lemma set_rflags_id c : set_rflags (rflags c) c = c.
Proof. by destruct c. Qed.

Lemma set_processor_id s : set_processor (processor s) s = s.
Proof. by destruct s. Qed.

(** With nothing else ready a switch is no change at all. *)
Lemma switch_alone s :
  next_ready_slot s (current_slot s) = current_slot s -> switch_to_next s = s.
Proof.
  intros E. unfold switch_to_next.
  change (next_ready_slot (cpu_interrupt_disable s)) with (next_ready_slot s).
  change (current_slot (cpu_interrupt_disable s)) with (current_slot s). rewrite E, Nat.eqb_refl.
  unfold interrupts_on. destruct (Z.testbit (rflags (processor s)) 9) eqn:Hf.
  - unfold cpu_interrupt_enable, cpu_interrupt_disable. cbn [processor set_processor rflags set_rflags].
    rewrite restore_flags by done. destruct s as [??????? []]; done.
  - unfold cpu_interrupt_disable. rewrite keep_flags, set_rflags_id by done. apply set_processor_id.
Qed.

Lemma switch_leave s :
  (current_slot s < length (slots s))%nat -> state_of s (current_slot s) = THREAD_STATE_RUNNING ->
  next_ready_slot s (current_slot s) <> current_slot s ->
  switch_to_next s = dispatch (current_slot s) (next_ready_slot s (current_slot s)) switch_return
    (leave THREAD_STATE_READY (interrupts_on s) s).
Proof.
  intros Hc Hr Hne. unfold switch_to_next.
  change (next_ready_slot (cpu_interrupt_disable s)) with (next_ready_slot s).
  change (current_slot (cpu_interrupt_disable s)) with (current_slot s).
  rewrite (proj2 (Nat.eqb_neq _ _) Hne). cbv zeta.
  set (s1 := on_thread (current_slot s) (set_interrupted (interrupts_on s)) (cpu_interrupt_disable s)).
  assert (E : slots s1 !!! current_slot s = set_interrupted (interrupts_on s) (slots s !!! current_slot s))
    by (by apply list_lookup_total_insert_eq).
  rewrite decide_True by (by rewrite E). unfold dispatch. do 5 f_equal.
  unfold leave, on_thread, set_slots. cbn [slots]. rewrite E. f_equal.
  unfold s1, on_thread, set_slots. cbn [slots]. by rewrite list_insert_insert_eq.
Qed.

Lemma exit_leave s :
  (current_slot s < length (slots s))%nat -> sys_active (sys s) = true ->
  boot_thread (slots s !!! current_slot s) = false ->
  let b := interrupted_local (slots s !!! current_slot s) in
  let next := next_ready_slot (leave THREAD_STATE_EXITED b s) (current_slot s) in
  thread_exit s =
    if (next =? current_slot s)%nat then inl panic_last_exit
    else inr (dispatch (current_slot s) next exit_return (leave THREAD_STATE_EXITED b s)).
Proof.
  intros Hc Ha Hb b next. unfold thread_exit. rewrite Ha. cbn [negb].
  change (current_slot (cpu_interrupt_disable s)) with (current_slot s).
  change (slots (cpu_interrupt_disable s)) with (slots s). rewrite Hb.
  assert (E : on_thread (current_slot s) (set_state THREAD_STATE_EXITED) (cpu_interrupt_disable s) =
          leave THREAD_STATE_EXITED b s).
  { unfold leave, on_thread. by do 2 f_equal. }
  cbv zeta. rewrite E. unfold next, dispatch. reflexivity.
Qed.

(** ** The invariant survives a handover *)

Lemma abstract_phase s i :
  (i < THREAD_MAX)%nat -> phases (abstract s) !! i = Some (phase_at s i).
Proof. intros Hi. unfold abstract. cbn [phases]. by rewrite list_lookup_fmap, lookup_seq_lt. Qed.

Lemma abstract_length s : length (phases (abstract s)) = THREAD_MAX.
Proof. unfold abstract. cbn [phases]. by rewrite length_fmap, length_seq. Qed.

Lemma abstract_update s' l :
  length l = THREAD_MAX ->
  (forall i, (i < THREAD_MAX)%nat -> l !! i = Some (phase_at s' i)) ->
  phase_at s' <$> seq 0 THREAD_MAX = l.
Proof.
  intros Hl Hp. apply list_eq_same_length with THREAD_MAX; [done|by rewrite length_fmap, length_seq|].
  intros i x y Hi. rewrite list_lookup_fmap, lookup_seq_lt by done. rewrite Hp by done.
  by intros [= <-] [= <-].
Qed.

Lemma is_ready_phase s i :
  (i < THREAD_MAX)%nat ->
  is_ready (phases (abstract s) !! i) = is_state THREAD_STATE_READY (slots s !!! i).
Proof.
  intros Hi. rewrite abstract_phase by done. unfold phase_at, is_state, state_of.
  by destruct (th_state (slots s !!! i)).
Qed.

(** The slot the scan chooses is the abstract scheduler's, whatever became of the
    thread that leaves. *)
Lemma next_ready_abstract s s1 :
  sched_ok s -> sys_capacity (sys s1) = THREAD_MAX ->
  (forall i, i <> current_slot s -> slots s1 !!! i = slots s !!! i) ->
  next_ready_slot s1 (current_slot s) = default (current_slot s) (rr_next (abstract s)).
Proof.
  intros Hok Hcap Hsl. pose proof (ok_current _ Hok) as Hc. unfold next_ready_slot.
  rewrite Hcap, scan_ready_rotation, rotation_steps, first_ready_snoc by done.
  f_equal. unfold rr_next. rewrite abstract_length. change (running_slot (abstract s)) with (current_slot s).
  apply first_ready_ext. intros j [Hj Hne]%elem_of_rotation; [|done].
  rewrite Hsl by done. symmetry. by apply is_ready_phase.
Qed.

Lemma rr_next_Some s j :
  sched_ok s -> rr_next (abstract s) = Some j ->
  (j < THREAD_MAX)%nat /\ j <> current_slot s /\ state_of s j = THREAD_STATE_READY.
Proof.
  intros Hok [Hj Hr]%first_ready_Some. rewrite abstract_length in Hj.
  apply elem_of_rotation in Hj as [Hj Hne]; [|apply (ok_current _ Hok)]. split_and!; [done|done|].
  cbv beta in Hr. rewrite is_ready_phase in Hr by done. by apply bool_decide_eq_true in Hr.
Qed.

Lemma rr_next_None s :
  sched_ok s -> rr_next (abstract s) = None ->
  forall i, (i < THREAD_MAX)%nat -> state_of s i <> THREAD_STATE_READY.
Proof.
  intros Hok Hn i Hi Hr. pose proof (ok_current _ Hok) as Hc.
  destruct (decide (i = current_slot s)) as [-> |Hne].
  { apply (ok_running _ Hok) in Hc as [_ Hrun]. rewrite Hrun in Hr; done. }
  unfold rr_next, first_ready in Hn. rewrite abstract_length in Hn.
  assert (i ∈ filter (fun j => is_ready (phases (abstract s) !! j) = true)
                (rotation THREAD_MAX (current_slot s))) as Hin.
  { apply list_elem_of_filter. split; [|by apply elem_of_rotation].
    rewrite is_ready_phase by done. by apply bool_decide_eq_true. }
  change (current_slot s) with (running_slot (abstract s)) in Hin.
  destruct (filter _ _); [inversion Hin|done].
Qed.

(** What leaves the stacks of the other threads alone leaves their contexts alone. *)
Lemma suspended_same s s' i :
  sched_ok s -> (i < THREAD_MAX)%nat -> state_of s i = THREAD_STATE_READY ->
  stack_pointer (slots s' !!! i) = stack_pointer (slots s !!! i) ->
  interrupted_local (slots s' !!! i) = interrupted_local (slots s !!! i) ->
  (forall a, stack_lo i <= a < stack_hi i -> words s' !! a = words s !! a) ->
  suspended s' i = suspended s i.
Proof.
  intros Hok Hi Hr Hsp Hil Hw. destruct (ok_suspended _ Hok i Hi Hr) as [Hlo Hhi].
  unfold suspended, resumed. rewrite Hsp, Hil.
  rewrite (pop_frame_same (words s) (words s')); [done|]. intros a Ha. apply Hw. lia.
Qed.

Section Handover.
Context s s' (st : thread_state) (b : bool) (next : nat) (ret : Z).
Hypothesis Hok : sched_ok s.
Hypothesis Hst : st = THREAD_STATE_READY \/
  (st = THREAD_STATE_EXITED /\ current_slot s <> O).
Hypothesis Hnext : (next < THREAD_MAX)%nat /\ next <> current_slot s /\
  state_of s next = THREAD_STATE_READY.
Hypothesis Hh : handed (leave st b s) s' (current_slot s) next ret.

Lemma handover_states i :
  state_of s' i =
    if decide (i = next) then THREAD_STATE_RUNNING
    else if decide (i = current_slot s) then st else state_of s i.
Proof.
  destruct Hnext as (Hn & Hne & _). pose proof (ok_length _ Hok) as Hl. pose proof (ok_current _ Hok).
  destruct (handed_slots s s' st b next ret) as (H1 & H2 & H3 & _); [lia|lia|done|done|].
  unfold state_of. repeat case_decide; subst; by rewrite ?H1, ?H2, ?H3.
Qed.

Lemma handover_fields i :
  boot_thread (slots s' !!! i) = boot_thread (slots s !!! i) /\
  stack_base (slots s' !!! i) = stack_base (slots s !!! i) /\
  stack_top (slots s' !!! i) = stack_top (slots s !!! i) /\
  identifier (slots s' !!! i) = identifier (slots s !!! i) /\
  (state_of s' i = THREAD_STATE_UNUSED <-> state_of s i = THREAD_STATE_UNUSED).
Proof.
  rewrite handover_states.
  destruct Hnext as (Hn & Hne & Hr). pose proof (ok_length _ Hok) as Hl. pose proof (ok_current _ Hok) as Hc.
  destruct (handed_slots s s' st b next ret) as (H1 & H2 & H3 & _); [lia|lia|done|done|].
  apply (ok_running _ Hok) in Hc as [_ Hrun].
  repeat case_decide; subst; rewrite ?H1, ?H2, ?H3 by done; split_and!; try done.
  - by rewrite Hr.
  - rewrite Hrun by done. destruct Hst as [-> | [-> _]]; done.
Qed.

Lemma handover_words i a :
  (i < THREAD_MAX)%nat -> i <> current_slot s -> stack_lo i <= a < stack_hi i ->
  words s' !! a = words s !! a.
Proof.
  intros Hi Hne Ha. pose proof (ok_current _ Hok) as Hc. pose proof (ok_processor _ Hok) as Hp.
  rewrite (h_words _ _ _ _ _ Hh); [done|]. change (processor (leave st b s)) with
    (set_rflags (Z.clearbit (rflags (processor s)) 9) (processor s)). cbn [rsp set_rflags].
  destruct (decide (rsp (processor s) - 64 <= a < rsp (processor s))); [|lia].
  exfalso. apply (stacks_apart i (current_slot s) a Hi Hc Hne Ha). lia.
Qed.

Lemma handover_processor : processor s' = suspended s next.
Proof.
  destruct Hnext as (Hn & Hne & Hr). pose proof (ok_length _ Hok) as Hl. pose proof (ok_current _ Hok) as Hc.
  destruct (leave_fields st b s) as (_ & L2 & _); [lia|].
  rewrite (h_processor _ _ _ _ _ Hh), L2 by done. unfold suspended.
  destruct (ok_suspended _ Hok next Hn Hr) as [Hlo Hhi].
  rewrite (pop_frame_same (words s) (words s')); [done|].
  intros a Ha. apply (handover_words next); [done|done|lia].
Qed.

Lemma handover_pages k : stack_page s' k <-> stack_page s k.
Proof.
  unfold stack_page. split; intros (i & p & Hi & Hu & Hp & ->); exists i, p; split_and!; try done;
    destruct (handover_fields i) as (_ & _ & _ & _ & Hiff); tauto.
Qed.

Lemma handover_used :
  sys_live (sys s') + sys_exited (sys s') = sys_live (sys s) + sys_exited (sys s).
Proof.
  destruct Hnext as (Hn & Hne & Hr). pose proof (ok_length _ Hok) as Hl. pose proof (ok_current _ Hok) as Hc.
  destruct (handed_slots s s' st b next ret) as (_ & _ & _ & Hl'); [lia|lia|done|done|].
  destruct (h_sys _ _ _ _ _ Hh) as (_ & Hcap & _).
  rewrite !recounted_used.
  - apply countb_pointwise; [done|]. intros i _. f_equal. unfold is_state.
    destruct (handover_fields i) as (_ & _ & _ & _ & Hiff). by apply bool_decide_ext.
  - apply (ok_capacity _ Hok).
  - done.
  - apply (ok_counts _ Hok).
  - rewrite Hcap. apply (ok_capacity _ Hok).
  - lia.
  - apply (h_counts _ _ _ _ _ Hh).
Qed.

Lemma handover_suspended i :
  (i < THREAD_MAX)%nat -> state_of s' i = THREAD_STATE_READY ->
  stack_lo i <= stack_pointer (slots s' !!! i) /\ stack_pointer (slots s' !!! i) + 64 <= stack_hi i.
Proof.
  intros Hi. rewrite handover_states.
  destruct Hnext as (Hn & Hne & Hr). pose proof (ok_length _ Hok) as Hl. pose proof (ok_current _ Hok) as Hc.
  pose proof (ok_processor _ Hok) as Hp.
  destruct (handed_slots s s' st b next ret) as (H1 & H2 & H3 & _); [lia|lia|done|done|].
  repeat case_decide; subst; [done| |].
  - intros _. rewrite H2. cbn [stack_pointer set_stack_pointer]. lia.
  - rewrite H3 by done. by apply (ok_suspended _ Hok).
Qed.

Lemma handover_ok : sched_ok s'.
Proof.
  destruct Hnext as (Hn & Hne & Hr). pose proof (ok_length _ Hok) as Hl. pose proof (ok_current _ Hok) as Hc.
  destruct (handed_slots s s' st b next ret) as (_ & _ & _ & Hl'); [lia|lia|done|done|].
  destruct (h_sys _ _ _ _ _ Hh) as (Ha & Hcap & Hf & Hpre & Hid).
  destruct (h_rest _ _ _ _ _ Hh) as (Htab & Hni & Hpend & Hpg & _).
  destruct (leave_fields st b s) as (_ & L2 & _); [lia|]. rewrite L2 in Hid by done.
  split.
  - rewrite Ha. apply (ok_active _ Hok).
  - rewrite Htab. apply (ok_table _ Hok).
  - rewrite Hcap. apply (ok_capacity _ Hok).
  - lia.
  - by rewrite (h_current _ _ _ _ _ Hh).
  - intros i Hi. rewrite (h_current _ _ _ _ _ Hh), handover_states.
    repeat case_decide; subst; [done| |].
    + destruct Hst as [-> | [-> _]]; done.
    + rewrite (ok_running _ Hok) by done. done.
  - intros i Hi. destruct (handover_fields i) as (-> & _). by apply (ok_boot _ Hok).
  - destruct (handover_fields 0) as (_ & _ & -> & _). destruct (ok_boot_slot _ Hok) as [Htop H0].
    split; [done|]. rewrite handover_states. repeat case_decide; [by right| |done].
    destruct Hst as [-> | [_ Hnz]]; [by left|done].
  - intros i Hi Hu. destruct (handover_fields i) as (_ & -> & -> & _ & Hiff).
    apply (ok_layout _ Hok); tauto.
  - apply handover_suspended.
  - rewrite (h_current _ _ _ _ _ Hh), handover_processor.
    destruct (ok_suspended _ Hok next Hn Hr) as [Hlo Hhi]. pose proof (stack_bounds next Hn).
    unfold suspended, resumed. destruct (_ && _); cbn [rsp set_rflags pop_frame]; unwrap; lia.
  - apply (h_counts _ _ _ _ _ Hh).
  - rewrite handover_used, Hf. apply (ok_frames _ Hok).
  - destruct (ok_names _ Hok) as (_ & Hlim & Hnames). rewrite (h_current _ _ _ _ _ Hh), Hni.
    destruct (handover_fields next) as (_ & _ & _ & -> & _). split_and!; [done|done|].
    intros i Hi Hu. destruct (handover_fields i) as (_ & _ & _ & -> & Hiff).
    apply Hnames; tauto.
  - intros i j Hi Hj Hui Huj. destruct (handover_fields i) as (_ & _ & _ & -> & Hiff).
    destruct (handover_fields j) as (_ & _ & _ & -> & Hiff').
    apply (ok_distinct _ Hok); tauto.
  - rewrite Hpend, Hpre. apply (ok_pending _ Hok).
  - rewrite Hpg. apply (ok_backend _ Hok).
  - rewrite Hpg. eapply backed_kept; [apply (ok_backed _ Hok)|by intros k ?%handover_pages|done|done].
  - rewrite Hpg. intros k. rewrite handover_pages. apply (ok_unmapped _ Hok).
Qed.

Lemma handover_abstract :
  abstract s' = Machine next (<[next := Running (suspended s next)]>
    (<[current_slot s := phase_at s' (current_slot s)]> (phases (abstract s)))).
Proof.
  destruct Hnext as (Hn & Hne & Hr). pose proof (ok_current _ Hok) as Hc. pose proof (ok_length _ Hok) as Hl.
  unfold abstract at 1. rewrite (h_current _ _ _ _ _ Hh). f_equal.
  apply abstract_update; [by rewrite !length_insert, abstract_length|]. intros i Hi.
  destruct (decide (i = next)) as [-> |Hin].
  { rewrite list_lookup_insert_eq by (by rewrite length_insert, abstract_length). f_equal.
    unfold phase_at. rewrite handover_states, decide_True by done. by rewrite handover_processor. }
  rewrite list_lookup_insert_ne by done.
  destruct (decide (i = current_slot s)) as [-> |Hic].
  { by rewrite list_lookup_insert_eq by (by rewrite abstract_length). }
  rewrite list_lookup_insert_ne, abstract_phase by done. f_equal. unfold phase_at.
  rewrite handover_states, !decide_False by done. destruct (state_of s i) eqn:E; try done.
  - f_equal. destruct (handed_slots s s' st b next ret) as (_ & _ & H3 & _); [lia|lia|done|done|].
    symmetry. apply suspended_same; rewrite ?H3; try done. intros a Ha. by apply (handover_words i).
  - apply (ok_running _ Hok) in E; [done|done].
Qed.
End Handover.

Lemma dispatch_ready st b s next ret :
  sched_ok s -> (next < THREAD_MAX)%nat -> next <> current_slot s ->
  handed (leave st b s) (dispatch (current_slot s) next ret (leave st b s)) (current_slot s) next ret.
Proof.
  intros Hok Hn Hne. pose proof (ok_current _ Hok) as Hc. pose proof (ok_length _ Hok) as Hl.
  pose proof (stack_bounds _ Hc). pose proof (ok_processor _ Hok).
  apply dispatch_handed; [done| |].
  - destruct (leave_fields st b s) as (_ & _ & ->); lia.
  - change (rsp (processor (leave st b s))) with (rsp (processor s)). lia.
Qed.

Lemma running_current s : sched_ok s -> state_of s (current_slot s) = THREAD_STATE_RUNNING.
Proof. intros Hok. apply (ok_running _ Hok); [apply (ok_current _ Hok)|done]. Qed.

Lemma running_phase s :
  sched_ok s -> phases (abstract s) !! current_slot s = Some (Running (processor s)).
Proof.
  intros Hok. rewrite abstract_phase by apply (ok_current _ Hok). unfold phase_at.
  by rewrite running_current.
Qed.

(** The context a thread that switches away will continue with is its own. *)
Lemma left_suspended s s' next :
  sched_ok s -> (next < THREAD_MAX)%nat -> next <> current_slot s ->
  handed (leave THREAD_STATE_READY (interrupts_on s) s) s' (current_slot s) next switch_return ->
  suspended s' (current_slot s) = set_rip switch_return (processor s).
Proof.
  intros Hok Hn Hne Hh. pose proof (ok_current _ Hok) as Hc. pose proof (ok_length _ Hok) as Hl.
  destruct (handed_slots s s' THREAD_STATE_READY (interrupts_on s) next switch_return)
    as (_ & H2 & _ & _); [lia|lia|done|done|].
  unfold suspended. rewrite H2. cbn [stack_pointer set_stack_pointer interrupted_local].
  change (rsp (processor s) - 64) with (rsp (processor (leave THREAD_STATE_READY (interrupts_on s) s)) - 64).
  rewrite (h_saved _ _ _ _ _ Hh).
  change (processor (leave THREAD_STATE_READY (interrupts_on s) s)) with
    (set_rflags (Z.clearbit (rflags (processor s)) 9) (processor s)).
  unfold resumed. cbn [rip set_rip interrupted_local set_stack_pointer set_state set_interrupted].
  rewrite Z.eqb_refl. unfold interrupts_on. cbn [andb].
  destruct (Z.testbit (rflags (processor s)) 9) eqn:Hf; unfold set_rflags, set_rip;
    cbn [rflags r15 r14 r13 r12 rbx rbp rip rsp].
  - by rewrite restore_flags.
  - by rewrite keep_flags.
Qed.

Lemma switch_to_next_refines s :
  sched_ok s ->
  sched_ok (switch_to_next s) /\ abstract (switch_to_next s) = rr_switch (abstract s).
Proof.
  intros Hok. pose proof (ok_current _ Hok) as Hc. pose proof (ok_length _ Hok) as Hl.
  pose proof (next_ready_abstract s s Hok (ok_capacity _ Hok) ltac:(done)) as Hnext.
  unfold rr_switch, hand_over. change (running_slot (abstract s)) with (current_slot s).
  destruct (rr_next (abstract s)) as [j|] eqn:Hrr; cbn [default] in Hnext.
  2: { by rewrite switch_alone. }
  destruct (rr_next_Some s j Hok Hrr) as (Hj & Hne & Hready).
  rewrite running_phase, abstract_phase by done. unfold phase_at. rewrite Hready.
  rewrite switch_leave by (rewrite ?Hnext; done || lia || by apply running_current). rewrite Hnext.
  pose proof (dispatch_ready THREAD_STATE_READY (interrupts_on s) s j switch_return Hok Hj Hne) as Hh.
  set (s' := dispatch _ _ _ _) in *. clearbody s'.
  assert (Hnx : (j < THREAD_MAX)%nat /\ j <> current_slot s /\ state_of s j = THREAD_STATE_READY) by done.
  pose proof (handover_states s s' _ _ j _ Hok (or_introl eq_refl) Hnx Hh (current_slot s)) as Hcs.
  rewrite decide_False, decide_True in Hcs by done.
  split; [exact (handover_ok s s' _ _ j _ Hok (or_introl eq_refl) Hnx Hh)|].
  rewrite (handover_abstract s s' _ _ j _ Hok (or_introl eq_refl) Hnx Hh). unfold phase_at at 1. rewrite Hcs.
  by rewrite (left_suspended s s' j).
Qed.

Lemma thread_exit_refines s :
  sched_ok s -> current_slot s <> O ->
  exists s', thread_exit s = inr s' /\ sched_ok s' /\
    is_Some (rr_next (abstract s)) /\ abstract s' = rr_exit (abstract s).
Proof.
  intros Hok Hnz. pose proof (ok_current _ Hok) as Hc. pose proof (ok_length _ Hok) as Hl.
  assert (Hnb : boot_thread (slots s !!! current_slot s) = false).
  { apply not_true_iff_false. by rewrite (ok_boot _ Hok) by done. }
  rewrite exit_leave by (done || lia || apply (ok_active _ Hok)).
  set (b := interrupted_local _). destruct (leave_fields THREAD_STATE_EXITED b s) as (_ & L2 & _); [lia|].
  rewrite (next_ready_abstract s (leave THREAD_STATE_EXITED b s) Hok (ok_capacity _ Hok) L2).
  unfold rr_exit, hand_over. change (running_slot (abstract s)) with (current_slot s).
  destruct (rr_next (abstract s)) as [j|] eqn:Hrr; cbn [default id].
  2: { exfalso. destruct (ok_boot_slot _ Hok) as [_ [H0|H0]].
       - by apply (rr_next_None s Hok Hrr 0%nat); [unfold THREAD_MAX; lia|].
       - apply (ok_running _ Hok) in H0; [by rewrite H0 in Hnz|unfold THREAD_MAX; lia]. }
  destruct (rr_next_Some s j Hok Hrr) as (Hj & Hne & Hready).
  rewrite (proj2 (Nat.eqb_neq _ _) Hne), running_phase, abstract_phase by done.
  unfold phase_at. rewrite Hready.
  pose proof (dispatch_ready THREAD_STATE_EXITED b s j exit_return Hok Hj Hne) as Hh.
  set (s' := dispatch _ _ _ _) in *. clearbody s'. exists s'.
  assert (Hnx : (j < THREAD_MAX)%nat /\ j <> current_slot s /\ state_of s j = THREAD_STATE_READY) by done.
  pose proof (handover_states s s' _ _ j _ Hok (or_intror (conj eq_refl Hnz)) Hnx Hh (current_slot s)) as Hcs.
  rewrite decide_False, decide_True in Hcs by done.
  split_and!; [done|exact (handover_ok s s' _ _ j _ Hok (or_intror (conj eq_refl Hnz)) Hnx Hh)|done|].
  rewrite (handover_abstract s s' _ _ j _ Hok (or_intror (conj eq_refl Hnz)) Hnx Hh). unfold phase_at at 1. by rewrite Hcs.
Qed.

(** ** Creating a thread *)

(** The pages of slot [i]'s stack. *)
Definition slot_page (i : nat) (k : Z) : Prop :=
  stack_index i 0 <= k < stack_index i 0 + Z.of_nat THREAD_STACK_PAGES.

Lemma slot_page_index i k :
  slot_page i k <-> exists p, 0 <= p < Z.of_nat THREAD_STACK_PAGES /\ k = stack_index i p.
Proof.
  unfold slot_page, stack_index. split; [|intros (p & Hp & ->); lia].
  intros Hk. exists (k - stack_index i 0). unfold stack_index. lia.
Qed.

Lemma slot_page_region i k : (i < THREAD_MAX)%nat -> slot_page i k -> region_page k.
Proof.
  unfold slot_page, region_page, stack_index, THREAD_MAX. change (Z.of_nat THREAD_STACK_PAGES) with 4. lia.
Qed.

Lemma slot_page_unused s i k :
  state_of s i = THREAD_STATE_UNUSED -> slot_page i k -> ~ stack_page s k.
Proof.
  intros Hu Hk (j & p & Hj & Huj & Hp & ->). assert (i = j) as ->; [|done].
  revert Hk Hp. unfold slot_page, stack_index. change (Z.of_nat THREAD_STACK_PAGES) with 4. lia.
Qed.

(** A change of the page tables that keeps the stacks. *)
Lemma set_pages_ok s m :
  sched_ok s -> backend_ok m -> backed m (stack_page s) ->
  unmapped m (fun k => region_page k /\ ~ stack_page s k) ->
  sched_ok (set_pages m s).
Proof.
  intros Hok ???. split; try apply Hok; try done. apply recount_set.
  exact (proj1 (recount_set s) (ok_counts _ Hok)).
Qed.

Lemma map_stack_spec s i :
  sched_ok s -> (i < THREAD_MAX)%nat -> state_of s i = THREAD_STATE_UNUSED ->
  exists st m,
    map_stack i s = (st, if decide (st = THREAD_STATUS_OK)
      then add_stack_frames (Z.of_nat THREAD_STACK_PAGES) (set_pages m s) else set_pages m s) /\
    backend_ok m /\
    ((st = THREAD_STATUS_OK /\ backed m (fun k => stack_page s k \/ slot_page i k) /\
      unmapped m (fun k => region_page k /\ ~ (stack_page s k \/ slot_page i k))) \/
     ((st = THREAD_STATUS_OUT_OF_FRAMES \/ st = THREAD_STATUS_MAPPING_FAILURE) /\
      backed m (stack_page s) /\ unmapped m (fun k => region_page k /\ ~ stack_page s k))).
Proof.
  intros Hok Hi Hu. unfold map_stack.
  assert (slot_stack_base i = page (stack_index i 0)) as -> by (rewrite <- stack_page_address; lia).
  pose proof (map_run_spec THREAD_STACK_PAGES (stack_index i 0) 0 (pages s) (stack_page s)
    (ok_backend _ Hok) (ok_backed _ Hok)) as Hm.
  destruct (map_run _ _ _ _) as [[st n] m]. unfold map_result in Hm.
  destruct Hm as (Hd & Hbo & Hb & Hun & Hs & Hst).
  { intros j Hj. by apply (slot_page_unused s i). }
  { intros j Hj. apply (ok_unmapped _ Hok). split; [by apply (slot_page_region i)|].
    by apply (slot_page_unused s i). }
  rewrite Z.sub_0_r in *. set (k0 := stack_index i 0) in *.
  (* Pages of the region outside this stack are as they were. *)
  assert (Hout : forall m', same_elsewhere m m' (slot_page i) ->
    forall k, region_page k /\ ~ (stack_page s k \/ slot_page i k) ->
    (paging_translate m' (page k)).1 = PAGING_STATUS_NOT_MAPPED).
  { intros m' Hs' k [Hr Hno]. rewrite Hs', Hs; [apply (ok_unmapped _ Hok); tauto|apply page_is_address|..].
    - intros j Hj ->%page_inj. by apply Hno; right.
    - apply page_is_address.
    - intros j Hj ->%page_inj. by apply Hno; right. }
  destruct (Nat.eqb_spec n THREAD_STACK_PAGES) as [-> |Hn]; cbn [negb].
  - exists THREAD_STATUS_OK, m. rewrite decide_True by done. split; [done|]. split; [done|left].
    split; [done|]. split; [done|]. intros k Hk. by apply (Hout m); [intros ? ? ?|].
  - exists st. destruct (unwind_run_spec n k0 m _ Hbo Hb) as (Hbo' & Hun' & Hs' & Hb').
    { intros j Hj. right. lia. }
    eexists. split; [rewrite decide_False; [reflexivity|]|]; [intros ->; lia|].
    assert (Hs2 : same_elsewhere m (unwind_run n (page k0) m) (slot_page i)).
    { intros va Hva Hne. apply Hs'; [done|]. intros k Hk. apply Hne. unfold slot_page. fold k0. lia. }
    split; [done|]. right. split; [|split].
    + destruct st; try done; auto. lia.
    + eapply backed_kept; [exact Hb'| |done|done]. intros k Hk. split; [by left|].
      intros Hin. apply (slot_page_unused s i k Hu); [|done]. unfold slot_page. fold k0. lia.
    + intros k [Hr Hno]. destruct (decide (k0 <= k < k0 + Z.of_nat THREAD_STACK_PAGES)) as [Hsl|Hsl].
      * destruct (decide (k < k0 + Z.of_nat n)) as [Hlt|Hge].
        { apply Hun'. lia. }
        rewrite Hs'; [|apply page_is_address|intros j Hj ->%page_inj; lia].
        apply Hun. lia.
      * apply Hout; [done|]. split; [done|]. unfold slot_page. fold k0. tauto.
Qed.

Lemma unused_slot_Some s i :
  sched_ok s -> unused_slot s = Some i ->
  (0 < i < THREAD_MAX)%nat /\ state_of s i = THREAD_STATE_UNUSED.
Proof.
  intros Hok. unfold unused_slot. rewrite (ok_capacity _ Hok), take_ge by (rewrite (ok_length _ Hok); lia).
  intros (j & Hj & ->)%fmap_Some. apply first_index_Some in Hj as [(t & Ht & Hu) _].
  rewrite lookup_drop in Ht. pose proof (lookup_lt_Some _ _ _ Ht) as Hlt. rewrite (ok_length _ Hok) in Hlt.
  split; [simpl in Hlt; lia|]. apply bool_decide_eq_true in Hu. unfold state_of.
  by rewrite (list_lookup_total_correct _ _ _ Ht).
Qed.

Lemma unused_slot_None s :
  sched_ok s -> unused_slot s = None ->
  forall i, (i < THREAD_MAX)%nat -> state_of s i <> THREAD_STATE_UNUSED.
Proof.
  intros Hok. unfold unused_slot. rewrite (ok_capacity _ Hok), take_ge by (rewrite (ok_length _ Hok); lia).
  intros Hn i Hi Hu. apply fmap_None in Hn. destruct i as [|i].
  { destruct (ok_boot_slot _ Hok) as [_ [E|E]]; congruence. }
  destruct (lookup_lt_is_Some_2 (slots s) (S i)) as [t Ht]; [rewrite (ok_length _ Hok); lia|].
  pose proof (proj1 (first_index_None _ _) Hn i t) as Hf. rewrite lookup_drop in Hf.
  specialize (Hf Ht). apply bool_decide_eq_false in Hf. unfold state_of in Hu.
  by rewrite (list_lookup_total_correct _ _ _ Ht) in Hu.
Qed.

(** The slot [thread_create] fills. *)
Definition created (i : nat) (f c id : Z) (b : bool) : thread :=
  Thread (slot_stack_top i - PREPARED_FRAME_SIZE) (slot_stack_base i) (slot_stack_top i) id 0
    (Some f) c THREAD_STATE_READY false b.

Definition created_words (i : nat) (f c : Z) (w : gmap Z Z) : gmap Z Z :=
  write_words (slot_stack_top i - PREPARED_FRAME_SIZE) (frame_words (initial_context f c i)) w.

Definition with_thread (i : nat) (f c : Z) (m : M) s : sched M T :=
  let x := sys s in
  recount (Sched (table s) (<[i := created i f c (next_identifier s) (interrupted_local (slots s !!! i))]> (slots s))
    (ThreadSystem (sys_active x) (sys_capacity x) (sys_live x) (sys_ready x) (sys_exited x)
      (sys_current x) (sys_switches x) (u64 (stack_frames x + Z.of_nat THREAD_STACK_PAGES))
      (preemptions x) (preemptive x))
    (current_slot s) (u64 (next_identifier s + 1)) (reschedule_pending s) (quantum_identifier s)
    (processor s) (created_words i f c (words s)) (kheap s) m (timer s)).

(** [thread_create] on a started scheduler with interrupts off. *)
Lemma thread_create_cases s f c :
  sched_ok s -> interrupts_on s = false ->
  match unused_slot s with
  | None => thread_create (Some f) c true s = (THREAD_STATUS_NO_CAPACITY, THREAD_ID_NONE, s)
  | Some i => exists m,
      (thread_create (Some f) c true s =
         (THREAD_STATUS_OK, next_identifier s, with_thread i f c m s) /\ backend_ok m /\
       backed m (fun k => stack_page s k \/ slot_page i k) /\
       unmapped m (fun k => region_page k /\ ~ (stack_page s k \/ slot_page i k))) \/
      (exists st, (st = THREAD_STATUS_OUT_OF_FRAMES \/ st = THREAD_STATUS_MAPPING_FAILURE) /\
         thread_create (Some f) c true s = (st, THREAD_ID_NONE, set_pages m s) /\
         sched_ok (set_pages m s))
  end.
Proof.
  intros Hok Hi. unfold thread_create. rewrite (ok_active _ Hok), Hi. cbn [negb].
  destruct (unused_slot s) as [i|] eqn:Hu; [|done].
  destruct (unused_slot_Some s i Hok Hu) as [Hb Hun].
  destruct (map_stack_spec s i Hok ltac:(lia) Hun) as (st & m & -> & Hbo & Hcase).
  exists m. destruct Hcase as [(-> & Hbk & Hum) | (Hst & Hbk & Hum)].
  - left. split; [|done]. rewrite decide_True by done.
    unfold with_thread, prepare_frame, on_thread, created_words.
    cbn [slots words set_slots set_words set_pages set_sys add_stack_frames next_identifier table sys
      current_slot reschedule_pending quantum_identifier processor kheap timer pages].
    assert (Hlen : (i < length (slots s))%nat) by (rewrite (ok_length _ Hok); lia).
    rewrite !list_lookup_total_insert_eq by (rewrite ?length_insert; done).
    cbn [stack_top entry context].
    rewrite !list_insert_insert_eq. done.
  - right. exists st. split; [done|]. split; [|by apply set_pages_ok].
    by destruct Hst as [-> | ->].
Qed.

Section Create.
Context s (i : nat) (f c : Z) (m : M).
Hypothesis Hok : sched_ok s.
Hypothesis Hi : (0 < i < THREAD_MAX)%nat /\ state_of s i = THREAD_STATE_UNUSED.
Hypothesis Hid : next_identifier s + 1 < 2 ^ 64.
Hypothesis Hm : backend_ok m /\ backed m (fun k => stack_page s k \/ slot_page i k) /\
  unmapped m (fun k => region_page k /\ ~ (stack_page s k \/ slot_page i k)).
Let s' : sched M T := with_thread i f c m s.

Lemma with_thread_slots j :
  slots s' !!! j = if decide (j = i)
    then created i f c (next_identifier s) (interrupted_local (slots s !!! i)) else slots s !!! j.
Proof.
  change (slots s') with (<[i := created i f c (next_identifier s) (interrupted_local (slots s !!! i))]> (slots s)).
  case_decide as Hj; [subst j; apply list_lookup_total_insert_eq; rewrite (ok_length _ Hok); lia|].
  by rewrite list_lookup_total_insert_ne.
Qed.

Lemma with_thread_length : length (slots s') = THREAD_MAX.
Proof.
  change (slots s') with (<[i := created i f c (next_identifier s) (interrupted_local (slots s !!! i))]> (slots s)).
  rewrite length_insert. apply (ok_length _ Hok).
Qed.

Lemma with_thread_states j :
  state_of s' j = if decide (j = i) then THREAD_STATE_READY else state_of s j.
Proof. unfold state_of. rewrite with_thread_slots. by case_decide. Qed.

Lemma with_thread_current : current_slot s <> i.
Proof. intros <-. destruct Hi as [_ Hu]. by rewrite running_current in Hu. Qed.

Lemma with_thread_words j a :
  (j < THREAD_MAX)%nat -> j <> i -> stack_lo j <= a < stack_hi j -> words s' !! a = words s !! a.
Proof.
  intros Hj Hne Ha. apply write_words_frame. change (8 * Z.of_nat _) with 64.
  change PREPARED_FRAME_SIZE with 64. pose proof (stacks_apart j i a Hj ltac:(lia) Hne Ha) as Hn.
  unfold stack_lo, stack_hi in Hn. rewrite (proj2 (Nat.eqb_neq i 0)) in Hn by lia.
  unfold slot_stack_top in *. change THREAD_STACK_SIZE with 16384 in *. lia.
Qed.

Lemma with_thread_suspended : suspended s' i = initial_context f c i.
Proof.
  unfold suspended. rewrite with_thread_slots, decide_True by done. cbn [stack_pointer created].
  change (words s') with (created_words i f c (words s)). unfold created_words.
  pose proof (stack_bounds i ltac:(lia)) as [Hlo Hhi]. unfold stack_lo, stack_hi in *.
  rewrite (proj2 (Nat.eqb_neq i 0)) in Hlo, Hhi by lia. change PREPARED_FRAME_SIZE with 64.
  assert (64 <= slot_stack_top i) by
    (unfold slot_stack_top; change THREAD_STACK_SIZE with 16384; lia).
  rewrite pop_written by lia. rewrite Z.sub_add. unfold resumed, initial_context.
  cbn [r15 r14 r13 r12 rbx rbp rflags rip rsp]. by destruct (_ && _).
Qed.

Lemma with_thread_pages k : stack_page s' k <-> stack_page s k \/ slot_page i k.
Proof.
  rewrite slot_page_index. unfold stack_page. split.
  - intros (j & p & Hj & Hu & Hp & ->). rewrite with_thread_states in Hu. case_decide; [subst j|].
    + right. by exists p.
    + left. by exists j, p.
  - intros [(j & p & Hj & Hu & Hp & ->)|(p & Hp & ->)]; [exists j, p|exists i, p].
    + rewrite with_thread_states. by case_decide.
    + rewrite with_thread_states, decide_True by done. by destruct Hi.
Qed.

Lemma with_thread_used :
  sys_live (sys s') + sys_exited (sys s') = sys_live (sys s) + sys_exited (sys s) + 1.
Proof.
  rewrite !recounted_used.
  - change (slots s') with (<[i := created i f c (next_identifier s) (interrupted_local (slots s !!! i))]> (slots s)).
    destruct Hi as [Hb Hu].
    rewrite (countb_insert _ _ _ (slots s !!! i)) by
      (apply list_lookup_lookup_total_lt; rewrite (ok_length _ Hok); lia).
    unfold state_of in Hu. unfold is_state at 2 3. rewrite Hu. cbn [th_state created].
    rewrite bool_decide_true, bool_decide_false by done. simpl. lia.
  - apply (ok_capacity _ Hok).
  - apply (ok_length _ Hok).
  - apply (ok_counts _ Hok).
  - apply (ok_capacity _ Hok).
  - apply with_thread_length.
  - done.
Qed.

Lemma with_thread_distinct j k :
  (j < THREAD_MAX)%nat -> (k < THREAD_MAX)%nat ->
  state_of s' j <> THREAD_STATE_UNUSED -> state_of s' k <> THREAD_STATE_UNUSED ->
  identifier (slots s' !!! j) = identifier (slots s' !!! k) -> j = k.
Proof.
  intros Hj Hk. rewrite !with_thread_states, !with_thread_slots. destruct (ok_names _ Hok) as (_ & _ & Hn).
  repeat case_decide; subst; cbn [identifier created]; try done.
  - intros _ Hu E. pose proof (Hn k Hk Hu). lia.
  - intros Hu _ E. pose proof (Hn j Hj Hu). lia.
  - by apply (ok_distinct _ Hok).
Qed.

Lemma with_thread_ok : sched_ok s'.
Proof.
  destruct Hm as (Hbo & Hbk & Hun). destruct (ok_names _ Hok) as (Hcur & Hlim & Hn).
  pose proof with_thread_current as Hci.
  assert (Hnid : 0 < next_identifier s).
  { pose proof (Hn (current_slot s) (ok_current _ Hok)) as Hp. rewrite running_current in Hp by done.
    specialize (Hp ltac:(done)). lia. }
  split.
  - exact (ok_active _ Hok).
  - exact (ok_table _ Hok).
  - exact (ok_capacity _ Hok).
  - exact with_thread_length.
  - exact (ok_current _ Hok).
  - intros j Hj. rewrite with_thread_states. change (current_slot s') with (current_slot s).
    case_decide; [subst j; split; [done|congruence]|]. by apply (ok_running _ Hok).
  - intros j Hj. rewrite with_thread_slots. case_decide; [subst j; cbn; split; [done|lia]|].
    by apply (ok_boot _ Hok).
  - rewrite with_thread_slots, with_thread_states, !decide_False by lia. apply (ok_boot_slot _ Hok).
  - intros j Hj. rewrite with_thread_slots, with_thread_states. case_decide; [by subst j|].
    by apply (ok_layout _ Hok).
  - intros j Hj. rewrite with_thread_slots, with_thread_states. case_decide; [subst j|by apply (ok_suspended _ Hok)].
    intros _. cbn [stack_pointer created]. unfold stack_lo, stack_hi.
    rewrite (proj2 (Nat.eqb_neq i 0)) by lia. change PREPARED_FRAME_SIZE with 64.
    unfold slot_stack_top. change THREAD_STACK_SIZE with 16384. lia.
  - exact (ok_processor _ Hok).
  - done.
  - rewrite with_thread_used. change (stack_frames (sys s')) with
      (u64 (stack_frames (sys s) + Z.of_nat THREAD_STACK_PAGES)).
    rewrite (ok_frames _ Hok). rewrite recounted_used by apply Hok.
    pose proof (countb_bounds (fun t => negb (is_state THREAD_STATE_UNUSED t)) (slots s)) as Hb.
    rewrite (ok_length _ Hok) in Hb. change (Z.of_nat THREAD_MAX) with 8 in Hb.
    change (Z.of_nat THREAD_STACK_PAGES) with 4. rewrite wrap_small; [lia|].
    pose proof (countb_pos (fun t => negb (is_state THREAD_STATE_UNUSED t)) (slots s) (current_slot s)
      (slots s !!! current_slot s)) as Hp.
    unfold fits. enough (0 < countb (fun t => negb (is_state THREAD_STATE_UNUSED t)) (slots s)) by lia.
    apply Hp; [apply list_lookup_lookup_total_lt; rewrite (ok_length _ Hok); apply (ok_current _ Hok)|].
    unfold is_state. pose proof (running_current s Hok) as Hr. unfold state_of in Hr. by rewrite Hr.
  - change (sys_current (sys s')) with (sys_current (sys s)).
    change (current_slot s') with (current_slot s).
    change (next_identifier s') with (u64 (next_identifier s + 1)).
    unwrap. rewrite with_thread_slots, decide_False by done. split_and!; [done|lia|].
    intros j Hj. rewrite with_thread_states, with_thread_slots. case_decide; [subst j; cbn; lia|].
    intros Hu. pose proof (Hn j Hj Hu). lia.
  - apply with_thread_distinct.
  - exact (ok_pending _ Hok).
  - done.
  - eapply backed_kept; [exact Hbk| |done|done]. intros k. apply with_thread_pages.
  - intros k [Hr Hno]. apply Hun. rewrite with_thread_pages in Hno. done.
Qed.

Lemma with_thread_abstract :
  abstract s' = Machine (current_slot s)
    (<[i := Ready (initial_context f c i)]> (phases (abstract s))).
Proof.
  unfold abstract at 1. f_equal.
  apply abstract_update; [by rewrite length_insert, abstract_length|]. intros j Hj.
  unfold phase_at. rewrite with_thread_states. case_decide as E.
  { subst j. rewrite list_lookup_insert_eq by (by rewrite abstract_length). by rewrite with_thread_suspended. }
  rewrite list_lookup_insert_ne, abstract_phase by done. unfold phase_at.
  destruct (state_of s j) eqn:Es; try done. do 2 f_equal. symmetry.
  apply suspended_same; rewrite ?with_thread_slots, ?decide_False by done; try done.
  intros a. by apply with_thread_words.
Qed.
End Create.

(** ** The steps of the system *)

(** What happens between two calls of the scheduler: the running thread computes on
    its own stack and anywhere but on the stacks of the others, and the rest of the
    kernel maps and unmaps pages outside the stacks. *)
Definition own_run s s' : Prop :=
  exists c w h m t,
    s' = Sched (table s) (slots s) (sys s) (current_slot s) (next_identifier s)
           (reschedule_pending s) (quantum_identifier s) c w h m t /\
    stack_lo (current_slot s) + 64 <= rsp c <= stack_hi (current_slot s) /\
    (forall i a, (i < THREAD_MAX)%nat -> i <> current_slot s ->
       stack_lo i <= a < stack_hi i -> w !! a = words s !! a) /\
    backend_ok m /\ backed m (stack_page s) /\
    unmapped m (fun k => region_page k /\ ~ stack_page s k).

(** [true] for the calls that hand the processor over. *)
Inductive thread_step : bool -> sched M T -> sched M T -> Prop :=
| step_yield s : thread_step true s (thread_yield s)
| step_exit s s' : thread_exit s = inr s' -> thread_step true s s'
| step_preempt s : reschedule_pending s = true -> thread_step true s (thread_on_interrupt_return s)
| step_no_preempt s : reschedule_pending s = false -> thread_step false s (thread_on_interrupt_return s)
| step_create s f c out : next_identifier s + 1 < 2 ^ 64 -> thread_step false s (thread_create f c out s).2
| step_quantum s s' : quantum_expired s = inr s' -> thread_step false s s'
| step_enable s : thread_step false s (thread_enable_preemption s).2
| step_disable s : thread_step false s (thread_disable_preemption s).2
| step_own s s' : own_run s s' -> thread_step false s s'.

(** Changes of the preemption state and the timer leave everything else. *)
Definition same_threads s s' : Prop :=
  table s' = table s /\ slots s' = slots s /\ current_slot s' = current_slot s /\
  next_identifier s' = next_identifier s /\ processor s' = processor s /\ words s' = words s /\
  pages s' = pages s /\ exists n b,
    sys s' = ThreadSystem (sys_active (sys s)) (sys_capacity (sys s)) (sys_live (sys s))
      (sys_ready (sys s)) (sys_exited (sys s)) (sys_current (sys s)) (sys_switches (sys s))
      (stack_frames (sys s)) n b.

Lemma same_threads_ok s s' :
  sched_ok s -> same_threads s s' ->
  (reschedule_pending s' = true -> preemptive (sys s') = true) ->
  sched_ok s' /\ abstract s' = abstract s.
Proof.
  intros Hok (Ht & Hs & Hc & Hn & Hp & Hw & Hpg & n & b & Hsys) Hpend. split.
  - destruct s as [t0 l0 x0 c0 n0 p0 q0 k0 w0 h0 m0 tm0], s' as [t1 l1 x1 c1 n1 p1 q1 k1 w1 h1 m1 tm1].
    cbn [table slots current_slot next_identifier processor words pages sys] in *. subst.
    destruct Hok. split; cbn in *; try done. apply recount_set. apply recount_set in ok_counts0.
    apply recount_counts in ok_counts0. by apply recount_counts.
  - unfold abstract. rewrite Hc. f_equal. apply list_fmap_ext. intros k i _.
    unfold phase_at, state_of, suspended. by rewrite Hs, Hp, Hw.
Qed.

Lemma system_same x : exists n b,
  x = ThreadSystem (sys_active x) (sys_capacity x) (sys_live x) (sys_ready x) (sys_exited x)
        (sys_current x) (sys_switches x) (stack_frames x) n b.
Proof. exists (preemptions x), (preemptive x). by destruct x. Qed.

Lemma arm_quantum_same s : same_threads s (arm_quantum s).2 /\
  reschedule_pending (arm_quantum s).2 = reschedule_pending s /\
  preemptive (sys (arm_quantum s).2) = preemptive (sys s).
Proof.
  unfold arm_quantum. destruct (arm_attempts _ _) as [[id|] t]; cbn;
    (split; [|done]); unfold same_threads; split_and!; try done; exact (system_same (sys s)).
Qed.

Lemma quantum_expired_ok s s' :
  sched_ok s -> quantum_expired s = inr s' -> sched_ok s' /\ abstract s' = abstract s.
Proof.
  intros Hok. unfold quantum_expired.
  set (s0 := set_quantum (reschedule_pending s) THREAD_ID_NONE (timer s) s).
  assert (Hsame : same_threads s s0)
    by (unfold same_threads; split_and!; try done; exact (system_same (sys s))).
  pose proof (ok_pending _ Hok) as Hp.
  destruct (negb (sys_active (sys s0)) || negb (preemptive (sys s0))) eqn:Hg.
  { intros [= <-]. by apply same_threads_ok. }
  apply orb_false_iff in Hg as [_ Hpre%negb_false_iff].
  destruct (arm_quantum_same s0) as (Ha & Hr & Hb). destruct (arm_quantum s0) as [st s1].
  cbn [snd] in *. destruct st; try done.
  assert (Hs1 : same_threads s s1).
  { destruct Hsame as (? & ? & ? & ? & ? & ? & ? & _), Ha as (? & ? & ? & ? & ? & ? & ? & Hx).
    unfold same_threads. split_and!; try congruence; exact Hx. }
  destruct (negb _); intros [= <-].
  - apply same_threads_ok; [done| |intros _; cbn; by rewrite Hb].
    destruct Hs1 as (? & ? & ? & ? & ? & ? & ? & n & b & Hx). unfold same_threads.
    cbn [table slots current_slot next_identifier processor words pages sys set_sys set_quantum].
    split_and!; try done. rewrite Hx. by eexists _, _.
  - apply same_threads_ok; [done|done|]. intros _. by rewrite Hb.
Qed.

Lemma enable_preemption_ok s :
  sched_ok s -> let s' := (thread_enable_preemption s).2 in sched_ok s' /\ abstract s' = abstract s.
Proof.
  intros Hok. unfold thread_enable_preemption.
  destruct (negb _); [done|]. destruct (preemptive (sys s)) eqn:Hpre; [done|]. destruct (negb _); [done|].
  destruct (arm_quantum_same (set_preemptive true s)) as (Ha & Hr & Hb).
  destruct (arm_quantum (set_preemptive true s)) as [st s1]. cbn [snd] in *.
  assert (Hpend : reschedule_pending s = false).
  { apply not_true_iff_false. intros Hp%(ok_pending _ Hok). congruence. }
  assert (Hs1 : same_threads s s1).
  { destruct Ha as (? & ? & ? & ? & ? & ? & ? & n & b & Hx). unfold same_threads.
    split_and!; try done. rewrite Hx. by eexists _, _. }
  case_decide; (apply same_threads_ok; [done| |cbn; rewrite Hr; cbn; congruence]); [done|].
  destruct Hs1 as (? & ? & ? & ? & ? & ? & ? & n & b & Hx). unfold same_threads.
  split_and!; try done. cbn [sys set_preemptive set_sys]. rewrite Hx. by eexists _, _.
Qed.

Lemma disable_preemption_ok s :
  sched_ok s -> let s' := (thread_disable_preemption s).2 in sched_ok s' /\ abstract s' = abstract s.
Proof.
  intros Hok. unfold thread_disable_preemption.
  destruct (negb _); [done|]. destruct (negb _); [done|]. cbn [snd].
  apply same_threads_ok; [done| |done]. unfold same_threads.
  destruct (negb _); split_and!; try done; by eexists _, _.
Qed.

Lemma own_run_ok s s' :
  sched_ok s -> own_run s s' ->
  sched_ok s' /\ abstract s' =
    Machine (current_slot s) (<[current_slot s := Running (processor s')]> (phases (abstract s))).
Proof.
  intros Hok (c & w & h & m & t & -> & Hc & Hw & Hbo & Hbk & Hun). split.
  - pose proof Hok as Hok0. destruct Hok. split; try done.
    apply recount_set. exact (proj1 (recount_set s) (ok_counts0)).
  - unfold abstract at 1. f_equal.
    apply abstract_update; [by rewrite length_insert, abstract_length|]. intros i Hi.
    destruct (decide (i = current_slot s)) as [-> |Hne].
    { rewrite list_lookup_insert_eq by (by rewrite abstract_length). f_equal.
      unfold phase_at. pose proof (running_current s Hok) as Hr. unfold state_of in *.
      cbn [slots]. by rewrite Hr. }
    rewrite list_lookup_insert_ne, abstract_phase by done. f_equal. unfold phase_at.
    change (state_of (Sched _ _ _ _ _ _ _ c w h m t) i) with (state_of s i).
    destruct (state_of s i) eqn:Es; try done.
    + f_equal. symmetry. apply suspended_same; try done. intros a. by apply Hw.
    + by apply (ok_running _ Hok) in Es.
Qed.

(** ** Every step is a step of the abstract scheduler *)

(** A step that does not hand over leaves every ready thread ready where it was. *)
Definition keeps_ready (x y : machine) : Prop :=
  running_slot y = running_slot x /\
  forall i c, i <> running_slot x -> phases x !! i = Some (Ready c) -> phases y !! i = Some (Ready c).

(** What a step labelled [b] is on the abstract scheduler. *)
Definition simulated (b : bool) (x y : machine) : Prop :=
  machine_step x y /\
  if b then y = rr_switch x \/ y = rr_exit x else keeps_ready x y.

Lemma simulated_skip x : simulated false x x.
Proof. split; [constructor|done]. Qed.

Lemma create_simulated s f c out :
  sched_ok s -> next_identifier s + 1 < 2 ^ 64 ->
  let s' := (thread_create f c out s).2 in sched_ok s' /\ simulated false (abstract s) (abstract s').
Proof.
  intros Hok Hid. destruct f as [f|]; [|split; [done|apply simulated_skip]].
  destruct out.
  2: { split; [done|apply simulated_skip]. }
  destruct (interrupts_on s) eqn:Hint.
  { unfold thread_create. rewrite (ok_active _ Hok), Hint. split; [done|apply simulated_skip]. }
  pose proof (thread_create_cases s f c Hok Hint) as Hcase.
  destruct (unused_slot s) as [i|] eqn:Hu.
  2: { rewrite Hcase. split; [done|apply simulated_skip]. }
  pose proof (unused_slot_Some s i Hok Hu) as Hi.
  destruct Hcase as (m & [(-> & Hm)|(st & _ & -> & Hok')]); cbn [snd].
  2: { split; [done|]. apply simulated_skip. }
  split; [by apply with_thread_ok|]. rewrite (with_thread_abstract s i f c m Hok Hi).
  change (current_slot s) with (running_slot (abstract s)). split; [|split; [done|]].
  - apply machine_create. rewrite abstract_phase by lia. unfold phase_at. by rewrite (proj2 Hi).
  - intros j c' _ Hj. cbn [phases]. destruct (decide (i = j)) as [-> |Hne].
    + rewrite abstract_phase in Hj by lia. unfold phase_at in Hj. by rewrite (proj2 Hi) in Hj.
    + by rewrite list_lookup_insert_ne.
Qed.

Lemma own_simulated s s' :
  sched_ok s -> own_run s s' -> simulated false (abstract s) (abstract s').
Proof.
  intros Hok Ho. destruct (own_run_ok s s' Hok Ho) as [_ ->].
  change (current_slot s) with (running_slot (abstract s)). split; [|split; [done|]].
  - eapply machine_local. by apply running_phase.
  - intros j c' Hj Hp. cbn [phases]. by rewrite list_lookup_insert_ne.
Qed.

Lemma interrupt_return_ok s :
  sched_ok s -> let s' := thread_on_interrupt_return s in
  sched_ok s' /\ abstract s' = if reschedule_pending s then rr_switch (abstract s) else abstract s.
Proof.
  intros Hok. unfold thread_on_interrupt_return. destruct (reschedule_pending s); [|done].
  cbn [negb]. set (s0 := set_quantum false (quantum_identifier s) (timer s) s).
  destruct (same_threads_ok s s0 Hok) as [Hok0 E0]; [|done|].
  { unfold same_threads. split_and!; try done. exact (system_same (sys s)). }
  change (sys_active (sys s0)) with (sys_active (sys s)). rewrite (ok_active _ Hok). cbn [negb].
  rewrite <- E0. by apply switch_to_next_refines.
Qed.

Lemma step_simulated b s s' :
  sched_ok s -> thread_step b s s' -> sched_ok s' /\ simulated b (abstract s) (abstract s').
Proof.
  intros Hok Hstep. destruct Hstep as [s|s s' He|s Hp|s Hp|s f c out Hid|s s' Hq|s|s|s s' Ho].
  - unfold thread_yield. rewrite (ok_active _ Hok). cbn [negb].
    destruct (switch_to_next_refines s Hok) as [Hok' ->]. split; [done|]. split; [constructor|by left].
  - destruct (decide (current_slot s = O)) as [H0|H0].
    { exfalso. unfold thread_exit in He. rewrite (ok_active _ Hok) in He. cbn [negb] in He.
      change (current_slot (cpu_interrupt_disable s)) with (current_slot s) in He.
      change (slots (cpu_interrupt_disable s)) with (slots s) in He.
      by rewrite (proj2 (ok_boot _ Hok _ (ok_current _ Hok)) H0) in He. }
    destruct (thread_exit_refines s Hok H0) as (s1 & E & Hok' & Hn & Ha). rewrite He in E.
    injection E as <-. rewrite Ha. split; [done|]. split; [by apply machine_exit|by right].
  - destruct (interrupt_return_ok s Hok) as [Hok' ->]. rewrite Hp. split; [done|]. split; [constructor|by left].
  - destruct (interrupt_return_ok s Hok) as [Hok' ->]. rewrite Hp. split; [done|]. apply simulated_skip.
  - by apply create_simulated.
  - destruct (quantum_expired_ok s s' Hok Hq) as [? ->]. split; [done|apply simulated_skip].
  - destruct (enable_preemption_ok s Hok) as [? ->]. split; [done|apply simulated_skip].
  - destruct (disable_preemption_ok s Hok) as [? ->]. split; [done|apply simulated_skip].
  - split; [by eapply own_run_ok|by apply own_simulated].
Qed.

(** Any number of steps. *)
Definition thread_reach : relation (sched M T) := rtc (fun s s' => exists b, thread_step b s s').

Lemma reach_ok s s' : sched_ok s -> thread_reach s s' -> sched_ok s'.
Proof.
  intros Hok Hr. induction Hr as [|s s1 s' [b Hs] _ IH]; [done|]. apply IH. by eapply step_simulated.
Qed.

Lemma reach_simulated s s' :
  sched_ok s -> thread_reach s s' -> rtc machine_step (abstract s) (abstract s').
Proof.
  intros Hok Hr. induction Hr as [|s s1 s' [b Hs] _ IH]; [constructor|].
  destruct (step_simulated b s s1 Hok Hs) as [Hok1 [Hm _]]. eapply rtc_l; [exact Hm|by apply IH].
Qed.

(** ** Fairness and isolation *)

(** [i] does not run in any state of the way from [s] to [s'], on which the
    processor is handed over [n] times. *)
Inductive away (i : nat) : nat -> sched M T -> sched M T -> Prop :=
| away_here s : current_slot s <> i -> away i 0 s s
| away_step n s s1 s2 b :
    away i n s s1 -> thread_step b s1 s2 -> current_slot s2 <> i ->
    away i (n + (if b then 1 else 0)) s s2.

Lemma rr_next_closer s i :
  sched_ok s -> (i < THREAD_MAX)%nat -> state_of s i = THREAD_STATE_READY ->
  exists j, rr_next (abstract s) = Some j /\
    (j = i \/ (ahead THREAD_MAX j i < ahead THREAD_MAX (current_slot s) i)%nat).
Proof.
  intros Hok Hi Hr. pose proof (ok_current _ Hok) as Hc.
  assert (Hne : i <> current_slot s).
  { intros ->. by rewrite running_current in Hr. }
  destruct (scan_ready_closer (slots s) THREAD_MAX (current_slot s) i Hc Hi Hne Hr) as (Hb & Hrd & Hcl).
  pose proof (next_ready_abstract s s Hok (ok_capacity _ Hok) ltac:(done)) as Hn.
  unfold next_ready_slot in Hn. rewrite (ok_capacity _ Hok) in Hn.
  destruct (rr_next (abstract s)) as [j|] eqn:E.
  - exists j. split; [done|]. by rewrite Hn in Hcl.
  - exfalso. by apply (rr_next_None s Hok E i).
Qed.

Lemma ready_phase s i c :
  (i < THREAD_MAX)%nat -> phases (abstract s) !! i = Some (Ready c) ->
  state_of s i = THREAD_STATE_READY /\ suspended s i = c.
Proof.
  intros Hi. rewrite abstract_phase by done. unfold phase_at.
  destruct (state_of s i); intros [=]; done.
Qed.

Lemma hand_over_ready p s j :
  sched_ok s -> rr_next (abstract s) = Some j ->
  hand_over p (abstract s) = Machine j (<[j := Running (suspended s j)]>
    (<[current_slot s := p (processor s)]> (phases (abstract s)))).
Proof.
  intros Hok E. destruct (rr_next_Some s j Hok E) as (Hj & Hne & Hr).
  unfold hand_over. change (running_slot (abstract s)) with (current_slot s).
  rewrite E, running_phase, abstract_phase by done. unfold phase_at. by rewrite Hr.
Qed.

(** One step of a waiting thread: it stays ready with the same context and the
    rotation gets closer to it with every handover; or it runs with that context. *)
Lemma waiting_step b s s' i :
  sched_ok s -> (i < THREAD_MAX)%nat -> state_of s i = THREAD_STATE_READY -> thread_step b s s' ->
  (current_slot s' = i /\ processor s' = suspended s i) \/
  (current_slot s' <> i /\ state_of s' i = THREAD_STATE_READY /\ suspended s' i = suspended s i /\
   (ahead THREAD_MAX (current_slot s') i + (if b then 1 else 0) <= ahead THREAD_MAX (current_slot s) i)%nat).
Proof.
  intros Hok Hi Hr Hstep. destruct (step_simulated b s s' Hok Hstep) as [Hok' [_ Hsim]].
  assert (Hne : i <> current_slot s).
  { intros ->. by rewrite running_current in Hr. }
  assert (Hph : phases (abstract s) !! i = Some (Ready (suspended s i))).
  { rewrite abstract_phase by done. unfold phase_at. by rewrite Hr. }
  destruct b.
  - destruct (rr_next_closer s i Hok Hi Hr) as (j & E & Hcl).
    destruct (rr_next_Some s j Hok E) as (Hj & Hjc & _).
    assert (exists q, abstract s' = Machine j (<[j := Running (suspended s j)]>
              (<[current_slot s := q]> (phases (abstract s))))) as [q Ha].
    { destruct Hsim as [-> | ->]; unfold rr_switch, rr_exit; erewrite hand_over_ready by done; eauto. }
    assert (Hcur : current_slot s' = j) by (change (current_slot s') with (running_slot (abstract s')); by rewrite Ha).
    rewrite Hcur. destruct (decide (j = i)) as [-> |Hji].
    + left. split; [done|]. pose proof (running_phase s' Hok') as Hrun. rewrite Hcur, Ha in Hrun.
      cbn [phases] in Hrun. rewrite list_lookup_insert_eq in Hrun
        by (by rewrite length_insert, abstract_length).
      by injection Hrun.
    + right. split; [done|]. destruct (ready_phase s' i (suspended s i) Hi) as [-> ->].
      { rewrite Ha. cbn [phases]. by rewrite !list_lookup_insert_ne by done. }
      split_and!; [done|done|]. destruct Hcl; [done|lia].
  - destruct Hsim as [Hcur Hkeep]. change (current_slot s' = current_slot s) in Hcur.
    destruct (ready_phase s' i (suspended s i) Hi) as [-> ->]; [by apply Hkeep|].
    right. rewrite Hcur. split_and!; [done|done|done|lia].
Qed.

Lemma away_waits i n s s' :
  sched_ok s -> (i < THREAD_MAX)%nat -> state_of s i = THREAD_STATE_READY -> away i n s s' ->
  sched_ok s' /\ state_of s' i = THREAD_STATE_READY /\ suspended s' i = suspended s i /\
  (ahead THREAD_MAX (current_slot s') i + n <= ahead THREAD_MAX (current_slot s) i)%nat.
Proof.
  intros Hok Hi Hr Haw. induction Haw as [s Hne|n s s1 s2 b _ IH Hstep Hne].
  { split_and!; try done. lia. }
  destruct IH as (Hok1 & Hr1 & Hs1 & Hl1); [done..|].
  destruct (waiting_step b s1 s2 i Hok1 Hi Hr1 Hstep) as [[E _]|(_ & Hr2 & Hs2 & Hl2)]; [done|].
  split_and!; [by eapply step_simulated|done|congruence|]. lia.
Qed.

(** ** The audit *)

Lemma state_is s i x : is_state x (slots s !!! i) = bool_decide (state_of s i = x).
Proof. done. Qed.

Lemma stack_mapped_ok s i :
  sched_ok s -> (0 < i < THREAD_MAX)%nat -> state_of s i <> THREAD_STATE_UNUSED ->
  stack_mapped (pages s) (slot_stack_base i) = true.
Proof.
  intros Hok Hi Hu. apply forallb_forall. intros p [_ Hp]%in_seq.
  rewrite stack_page_address.
  destruct (proj1 (ok_backed _ Hok) (stack_index i (Z.of_nat p))) as (t & -> & -> & -> & _); [|done].
  exists i, (Z.of_nat p). split_and!; try done; lia.
Qed.

Lemma guard_unmapped s i :
  sched_ok s -> (i < THREAD_MAX)%nat ->
  (paging_translate (pages s) (slot_guard_page i)).1 = PAGING_STATUS_NOT_MAPPED.
Proof.
  intros Hok Hi. rewrite guard_page_address. apply (ok_unmapped _ Hok).
  unfold region_page, stack_page, stack_index, THREAD_MAX in *.
  change (Z.of_nat THREAD_STACK_PAGES) with 4. split; [lia|]. intros (j & p & Hj & _ & Hp & E). lia.
Qed.

Lemma verify_slot_ok s i :
  sched_ok s -> (i < THREAD_MAX)%nat -> verify_slot (pages s) i (slots s !!! i) = true.
Proof.
  intros Hok Hi. unfold verify_slot. rewrite !state_is.
  case_bool_decide as Hu; [done|].
  destruct (boot_thread (slots s !!! i)) eqn:Hb.
  { apply (ok_boot _ Hok i Hi) in Hb as ->. by rewrite (proj1 (ok_boot_slot _ Hok)). }
  assert (Hi0 : (0 < i < THREAD_MAX)%nat).
  { split; [|done]. destruct i; [|lia]. by rewrite (proj2 (ok_boot _ Hok 0%nat Hi)) in Hb. }
  destruct (ok_layout _ Hok i Hi0 Hu) as [-> ->]. rewrite !Z.eqb_refl, guard_unmapped, stack_mapped_ok by done.
  rewrite bool_decide_true by done. cbn [andb].
  destruct (state_of s i) eqn:Es; try done.
  destruct (ok_suspended _ Hok i Hi Es) as [Hlo Hhi]. unfold stack_lo, stack_hi in *.
  rewrite (proj2 (Nat.eqb_neq i 0)) in Hlo, Hhi by lia.
  rewrite (proj2 (Z.ltb_ge _ _)) by lia. rewrite (proj2 (Z.ltb_ge _ _)) by lia. done.
Qed.

Lemma running_once s : sched_ok s -> countb (is_state THREAD_STATE_RUNNING) (slots s) = 1.
Proof.
  intros Hok. pose proof (ok_current _ Hok) as Hc. pose proof (ok_length _ Hok) as Hl.
  set (f := is_state THREAD_STATE_RUNNING).
  assert (Hrun : slots s !! current_slot s = Some (slots s !!! current_slot s))
    by (apply list_lookup_lookup_total_lt; lia).
  pose proof (countb_insert f (slots s) (current_slot s) _ unused_thread Hrun) as Hins.
  assert (f (slots s !!! current_slot s) = true) as Hf.
  { apply bool_decide_eq_true. by apply running_current. }
  rewrite Hf in Hins. change (f unused_thread) with false in Hins. cbv iota in Hins.
  enough (countb f (<[current_slot s := unused_thread]> (slots s)) = 0) by lia.
  apply countb_zero. intros i t [(_ & <- & _)|(Hne & Ht)]%list_lookup_insert_Some; [done|].
  apply bool_decide_eq_false. intros E. apply Hne. symmetry. apply (ok_running _ Hok).
  - rewrite <- Hl. by eapply lookup_lt_Some.
  - unfold state_of. by rewrite (list_lookup_total_correct _ _ _ Ht).
Qed.

Lemma verify_ok s : sched_ok s -> thread_verify s = THREAD_STATUS_OK.
Proof.
  intros Hok. unfold thread_verify. rewrite (ok_active _ Hok). cbn [negb].
  destruct (ok_table _ Hok) as [p Hp]. rewrite Hp, bool_decide_false by done. cbv zeta.
  rewrite (ok_capacity _ Hok), take_ge by (rewrite (ok_length _ Hok); lia).
  assert (forallb (fun p => verify_slot (pages s) p.1 p.2) (zip (seq 0 (length (slots s))) (slots s)) = true) as ->.
  { apply forallb_forall. intros [i t] Hin. apply list_elem_of_In, list_elem_of_lookup in Hin as [k Hk].
    apply lookup_zip_with_Some in Hk as (i' & t' & [= -> ->] & Hk & Ht). apply lookup_seq in Hk as [-> Hk].
    rewrite (ok_length _ Hok) in Hk. cbn [fst snd].
    rewrite <- (list_lookup_total_correct _ _ _ Ht). by apply verify_slot_ok. }
  rewrite running_once by done. rewrite recounted_used by apply Hok. by rewrite !Z.eqb_refl.
Qed.

(** ** Starting *)

Definition started (p : Z) (h : heap) (m : M) s : sched M T :=
  recount (Sched (Some p)
    (Thread 0 0 0 1 0 None 0 THREAD_STATE_RUNNING true false :: replicate (THREAD_MAX - 1) unused_thread)
    (ThreadSystem true THREAD_MAX (sys_live (sys s)) (sys_ready (sys s)) (sys_exited (sys s)) 1 0 0 0 false)
    0 2 false THREAD_ID_NONE (processor s) (words s) h m (timer s)).

Lemma started_slot p h m s i :
  slots (started p h m s) !!! i =
    if decide (i = O) then Thread 0 0 0 1 0 None 0 THREAD_STATE_RUNNING true false else unused_thread.
Proof.
  change (slots (started p h m s)) with
    (Thread 0 0 0 1 0 None 0 THREAD_STATE_RUNNING true false :: replicate (THREAD_MAX - 1) unused_thread).
  destruct i as [|i]; [done|]. rewrite decide_False by done. 
  change (replicate (THREAD_MAX - 1) unused_thread !!! i = unused_thread).
  destruct (decide (i < THREAD_MAX - 1)%nat) as [Hi|Hi].
  - by rewrite lookup_total_replicate_2.
  - rewrite list_lookup_total_alt, (proj1 (lookup_replicate_None _ _ _)) by lia. done.
Qed.

Lemma started_state p h m s i :
  state_of (started p h m s) i = if decide (i = O) then THREAD_STATE_RUNNING else THREAD_STATE_UNUSED.
Proof. unfold state_of. rewrite started_slot. by case_decide. Qed.

Lemma started_ok p h m s :
  backend_ok m -> unmapped m region_page -> boot_lo + 64 <= rsp (processor s) <= boot_hi ->
  sched_ok (started p h m s) /\
  abstract (started p h m s) = Machine 0 (Running (processor s) :: replicate (THREAD_MAX - 1) Unused).
Proof.
  intros Hbo Hun Hsp.
  assert (Hnone : forall k, ~ stack_page (started p h m s) k).
  { intros k (i & q & Hi & Hu & _). rewrite started_state, decide_False in Hu by lia. done. }
  split.
  - split; try done.
    + unfold started, THREAD_MAX. cbn. lia.
    + intros i Hi. rewrite started_state. change (current_slot (started p h m s)) with O. by case_decide.
    + intros i Hi. rewrite started_slot. by case_decide.
    + split; [done|]. by right.
    + intros i Hi. rewrite started_state, decide_False by lia. done.
    + intros i Hi. rewrite started_state. by case_decide.
    + split_and!; [done|done|]. intros i Hi. rewrite started_slot, started_state.
      change (next_identifier (started p h m s)) with 2. by case_decide.
    + intros i j Hi Hj. rewrite !started_state. by repeat case_decide; subst.
    + split; [by intros k ?%Hnone|by intros j k t u ?%Hnone].
    + intros k [Hr _]. by apply Hun.
  - reflexivity.
Qed.

Lemma heap_not_region k : region_page k -> ~ 0 <= k < 4096.
Proof.
  unfold region_page, stack_index. change region_index with 4194304. lia.
Qed.

Lemma thread_start_allocates s :
  heap_wf (kheap s) (pages s) -> unmapped (pages s) region_page ->
  boot_lo + 64 <= rsp (processor s) <= boot_hi ->
  sys_active (sys s) = false -> interrupts_on s = false -> paging_is_active (pages s) = true ->
  (exists b h m, thread_start s = (THREAD_STATUS_OK, started (HEAP_BASE + offset b) h m s) /\
     heap_wf h m /\ b ∈ used_blocks (live h) /\ Z.of_nat THREAD_MAX * thread_size <= size b /\
     sched_ok (started (HEAP_BASE + offset b) h m s) /\
     abstract (started (HEAP_BASE + offset b) h m s) =
       Machine 0 (Running (processor s) :: replicate (THREAD_MAX - 1) Unused)) \/
  (exists h m, thread_start s = (THREAD_STATUS_NO_MEMORY,
     Sched (table s) (slots s) (sys s) (current_slot s) (next_identifier s) (reschedule_pending s)
       (quantum_identifier s) (processor s) (words s) h m (timer s)) /\
     heap_core h m /\ used_blocks (live h) = used_blocks (live (kheap s))).
Proof.
  intros [Hcore Hsync] Hun Hsp Ha Hi Hp.
  unfold thread_start. rewrite (hc_active _ _ Hcore), Ha, Hi, Hp. cbn [negb orb].
  pose proof (heap_allocate_cases (Z.of_nat THREAD_MAX * thread_size) None (kheap s) (pages s) Hcore
    ltac:(by unfold fits, THREAD_MAX, thread_size)) as Hc.
  pose proof (heap_allocate_elsewhere (Z.of_nat THREAD_MAX * thread_size) None (kheap s) (pages s) Hcore
    ltac:(by unfold fits, THREAD_MAX, thread_size)) as He.
  cbv zeta in Hc.
  destruct (heap_allocate _ _ _ _) as [[[st out] h] m]. cbn [snd] in He.
  destruct st; try done.
  2-6: right; exists h, m; (split; [reflexivity|]).
  2: { by destruct Hc as (-> & -> & _). }
  2: { by destruct Hc as (-> & -> & _). }
  2: { by destruct Hc as (-> & Hc & _). }
  2: { by destruct Hc as (Hc & _ & Hu). }
  2: { by destruct Hc as (-> & Hc & _). }
  destruct Hc as (hg & l1 & b & l2 & _ & _ & _ & Hpos & _ & _ & _ & Hl & Hwf' & -> & _).
  left. exists (Block (offset b) (align_up (Z.of_nat THREAD_MAX * thread_size) HEAP_ALIGNMENT) true), h, m.
  cbn [offset size]. split; [reflexivity|]. split; [done|].
  destruct (started_ok (HEAP_BASE + offset b) h m s) as [Hok Hab]; [apply Hwf'| |done|].
  - intros k Hk. rewrite He; [by apply Hun|apply page_is_address|].
    intros j Hj ->%page_inj. by apply (heap_not_region j).
  - split_and!; [|lia|done|done]. rewrite Hl, used_blocks_app, elem_of_app. right.
    unfold carve. cbn [app]. rewrite used_blocks_cons. cbn [used]. by left.
Qed.

(** ** Stopping *)

Definition slot_used (t : thread) : bool := negb (is_state THREAD_STATE_UNUSED t).

(** Only the pages and the frame count of [s] changed. *)
Definition with_stacks (m : M) (n : Z) s : sched M T :=
  let x := sys s in
  set_pages m (set_sys (ThreadSystem (sys_active x) (sys_capacity x) (sys_live x) (sys_ready x)
    (sys_exited x) (sys_current x) (sys_switches x) n (preemptions x) (preemptive x)) s).

Lemma unmap_run_spec n k s P :
  backend_ok (pages s) -> backed (pages s) P -> (forall j, k <= j < k + Z.of_nat n -> P j) ->
  Z.of_nat n <= stack_frames (sys s) < 2 ^ 64 ->
  let '(st, s') := unmap_run n (page k) s in
  st = THREAD_STATUS_OK ->
  exists m, s' = with_stacks m (stack_frames (sys s) - Z.of_nat n) s /\ backend_ok m /\
    unmapped m (fun j => k <= j < k + Z.of_nat n) /\
    same_elsewhere (pages s) m (fun j => k <= j < k + Z.of_nat n) /\
    backed m (fun j => P j /\ ~ k <= j < k + Z.of_nat n).
Proof.
  revert k s P. induction n as [|n IH]; intros k s P Hok Hb HP Hf.
  { cbn [unmap_run]. intros _. exists (pages s). rewrite Z.sub_0_r. split_and!; [|done|intros j ?; lia|done|].
    - unfold with_stacks, set_pages. by destruct s as [?? []].
    - eapply backed_kept; [exact Hb|tauto|done|done]. }
  cbn [unmap_run]. destruct (proj1 Hb k) as (t & Ht & _); [apply HP; lia|]. rewrite Ht.
  destruct (paging_unmap (page k) PAGING_PAGE_SIZE (pages s)) as [st m1] eqn:Hu.
  destruct (backend_frame_release (physical_address t) m1) as [st' m2] eqn:Hr.
  destruct (release_one (pages s) P k t m1 m2 st st') as (-> & Hok2 & Hnm & Hs2 & Hb2);
    [done|done|apply HP; lia|done..|].
  destruct st'; try done. rewrite page_next.
  specialize (IH (k + 1) (add_stack_frames (-1) (set_pages m2 s)) _ Hok2 Hb2).
  change (stack_frames (sys (add_stack_frames (-1) (set_pages m2 s))))
    with (u64 (stack_frames (sys s) + -1)) in IH.
  rewrite wrap_small in IH by (unfold fits; lia).
  destruct (unmap_run n (page (k + 1)) _) as [st s']. intros Hst.
  destruct (IH ltac:(intros j Hj; split; [apply HP; lia|lia]) ltac:(lia) Hst) as (m & -> & Hok' & Hun' & Hs' & Hb').
  exists m. split_and!; [|done| | |].
  - replace (stack_frames (sys s) - Z.of_nat (S n)) with (stack_frames (sys s) + -1 - Z.of_nat n) by lia. done.
  - intros j Hj. destruct (decide (j = k)) as [-> |]; [|apply Hun'; lia].
    rewrite Hs'; [done|apply page_is_address|]. intros i Hi ->%page_inj. lia.
  - intros va Hva Hne. rewrite Hs'; [|done|intros i Hi; apply Hne; lia].
    apply Hs2; [done|]. intros i ->. apply Hne. lia.
  - eapply backed_kept; [exact Hb'| |done|done]. simpl. intros j ?. split; [split|]; try tauto; lia.
Qed.

(** While the stacks are released: the ones left are mapped, nothing else is. *)
Record stopping s : Prop := {
  stop_length : length (slots s) = THREAD_MAX;
  stop_states i : (0 < i < THREAD_MAX)%nat ->
    state_of s i = THREAD_STATE_UNUSED \/ state_of s i = THREAD_STATE_EXITED;
  stop_frames : stack_frames (sys s) = Z.of_nat THREAD_STACK_PAGES * countb slot_used (drop 1 (slots s));
  stop_backend : backend_ok (pages s);
  stop_backed : backed (pages s) (stack_page s);
  stop_unmapped : unmapped (pages s) (fun k => region_page k /\ ~ stack_page s k)
}.

Lemma slot_page_used s i k :
  (0 < i < THREAD_MAX)%nat -> state_of s i <> THREAD_STATE_UNUSED -> slot_page i k -> stack_page s k.
Proof. intros Hi Hu (p & Hp & ->)%slot_page_index. by exists i, p. Qed.

Lemma drop_used_insert (l : list thread) i :
  (0 < i < length l)%nat -> slot_used (l !!! i) = true ->
  countb slot_used (drop 1 (<[i := unused_thread]> l)) = countb slot_used (drop 1 l) - 1.
Proof.
  intros Hi Hu. destruct l as [|t l]; [simpl in Hi; lia|]. destruct i as [|i]; [lia|].
  change (drop 1 (<[S i := unused_thread]> (t :: l))) with (<[i := unused_thread]> l).
  change (drop 1 (t :: l)) with l. change ((t :: l) !!! S i) with (l !!! i) in Hu.
  rewrite (countb_insert slot_used l i (l !!! i)), Hu; [change (slot_used unused_thread) with false; cbv iota; lia|].
  apply list_lookup_lookup_total_lt. simpl in Hi. lia.
Qed.

(** Releasing one exited thread. *)
Lemma release_one_stack s i :
  stopping s -> (0 < i < THREAD_MAX)%nat -> state_of s i = THREAD_STATE_EXITED ->
  let '(st, s') := unmap_stack i s in
  st = THREAD_STATUS_OK ->
  stopping (on_thread i (fun _ => unused_thread) s') /\
  slots s' = slots s /\ kheap s' = kheap s /\ table s' = table s.
Proof.
  intros [Hl Hst Hf Hbo Hbk Hun] Hi He. unfold unmap_stack.
  assert (slot_stack_base i = page (stack_index i 0)) as -> by (rewrite <- stack_page_address; lia).
  assert (Hlt : (i < length (slots s))%nat) by lia.
  assert (Hus : slot_used (slots s !!! i) = true).
  { unfold slot_used, is_state. unfold state_of in He. by rewrite He. }
  pose proof (drop_used_insert (slots s) i ltac:(lia) Hus) as Hcnt.
  pose proof (countb_bounds slot_used (drop 1 (<[i := unused_thread]> (slots s)))) as Hcb.
  pose proof (countb_bounds slot_used (drop 1 (slots s))) as Hcb'. rewrite length_drop, Hl in Hcb'.
  pose proof (unmap_run_spec THREAD_STACK_PAGES (stack_index i 0) s (stack_page s) Hbo Hbk) as Hs.
  change (Z.of_nat THREAD_STACK_PAGES) with 4 in *. unfold THREAD_MAX in Hcb'.
  destruct (unmap_run _ _ _) as [st s1]. intros Hok.
  destruct Hs as (m & -> & Hbo' & Hun' & Hs' & Hb'); [|lia|done|].
  { intros j Hj. apply (slot_page_used s i); [done|by rewrite He|]. exact Hj. }
  split; [|done].
  assert (Hstate : forall j, state_of (on_thread i (fun _ => unused_thread)
            (with_stacks m (stack_frames (sys s) - 4) s)) j =
            if decide (j = i) then THREAD_STATE_UNUSED else state_of s j).
  { intros j. unfold state_of, on_thread. cbn [slots set_slots with_stacks set_pages set_sys].
    case_decide as Hj; [subst j; by rewrite list_lookup_total_insert_eq|].
    by rewrite list_lookup_total_insert_ne. }
  assert (Hpage : forall k, stack_page (on_thread i (fun _ => unused_thread)
            (with_stacks m (stack_frames (sys s) - 4) s)) k <-> stack_page s k /\ ~ slot_page i k).
  { intros k. split.
    - intros (j & p & Hj & Hu & Hp & ->). rewrite Hstate in Hu. case_decide as Hji; [done|].
      split; [by exists j, p|]. unfold slot_page, stack_index.
      change (Z.of_nat THREAD_STACK_PAGES) with 4 in *. lia.
    - intros [(j & p & Hj & Hu & Hp & ->) Hno]. exists j, p. rewrite Hstate. split; [done|]. split; [|done].
      case_decide; [subst j|done]. exfalso. apply Hno. apply slot_page_index. by exists p. }
  split.
  - cbn. by rewrite length_insert.
  - intros j Hj. rewrite Hstate. case_decide; [by left|by apply Hst].
  - cbn [stack_frames sys on_thread set_slots with_stacks set_pages set_sys slots].
    rewrite Hcnt, Hf. change (Z.of_nat THREAD_STACK_PAGES) with 4. lia.
  - done.
  - eapply backed_kept; [exact Hb'| |done|done]. intros k Hk%Hpage. exact Hk.
  - intros k [Hr Hno]. rewrite Hpage in Hno.
    destruct (decide (stack_index i 0 <= k < stack_index i 0 + 4)) as [Hin|Hout]; [by apply Hun'|].
    cbn [pages on_thread set_slots with_stacks set_pages set_sys].
    rewrite Hs'; [|apply page_is_address|by intros j Hj ->%page_inj].
    apply Hun. split; [done|]. intros Hp. apply Hno. split; [done|]. exact Hout.
Qed.

Lemma release_stacks_spec n i s :
  stopping s -> (0 < i)%nat -> (i + n = THREAD_MAX)%nat ->
  (forall j, (0 < j < i)%nat -> state_of s j = THREAD_STATE_UNUSED) ->
  let '(st, s') := release_stacks n i s in
  st = THREAD_STATUS_OK ->
  stopping s' /\ (forall j, (0 < j < THREAD_MAX)%nat -> state_of s' j = THREAD_STATE_UNUSED) /\
  kheap s' = kheap s /\ table s' = table s.
Proof.
  revert i s. induction n as [|n IH]; intros i s Hs Hi Hn Hj.
  { cbn [release_stacks]. intros _. split; [done|]. split; [|done]. intros j Hb. apply Hj. lia. }
  cbn [release_stacks]. rewrite state_is. case_bool_decide as He.
  - pose proof (release_one_stack s i Hs ltac:(lia) He) as H1.
    destruct (unmap_stack i s) as [st s1]. destruct st; try done.
    destruct (H1 eq_refl) as (Hs1 & Hsl & <- & <-).
    apply (IH (S i) (on_thread i (fun _ => unused_thread) s1)); [done|lia|lia|]. intros j Hb. unfold state_of, on_thread.
    cbn [slots set_slots]. destruct (decide (j = i)) as [-> |Hne].
    + rewrite list_lookup_total_insert_eq; [done|]. rewrite Hsl, (stop_length _ Hs). lia.
    + rewrite list_lookup_total_insert_ne, Hsl by done. apply Hj. lia.
  - apply (IH (S i)); [done|lia|lia|]. intros j Hb. destruct (decide (j = i)) as [-> |Hne]; [|apply Hj; lia].
    destruct (stop_states _ Hs i); [lia|done|done].
Qed.

Lemma ok_stopping s :
  sched_ok s -> (forall i, (0 < i < THREAD_MAX)%nat ->
    state_of s i = THREAD_STATE_UNUSED \/ state_of s i = THREAD_STATE_EXITED) -> stopping s.
Proof.
  intros Hok Hst. split; try apply Hok; try done.
  rewrite (ok_frames _ Hok), recounted_used by apply Hok. fold slot_used. f_equal.
  pose proof (ok_length _ Hok) as Hl. destruct (slots s) as [|t l] eqn:E; [done|].
  change (drop 1 (t :: l)) with l. cbn [countb].
  destruct (ok_boot_slot _ Hok) as [_ H0]. unfold state_of in H0. rewrite E in H0.
  change ((t :: l) !!! 0%nat) with t in H0. unfold slot_used, is_state.
  destruct H0 as [-> | ->]; rewrite bool_decide_false by done; cbn [negb]; lia.
Qed.

Lemma any_runnable_spec s :
  sched_ok s -> current_slot s = O ->
  any_runnable s = true <-> exists i, (i < THREAD_MAX)%nat /\ i <> O /\ state_of s i = THREAD_STATE_READY.
Proof.
  intros Hok Hc. unfold any_runnable. rewrite (ok_capacity _ Hok), take_ge by (by rewrite (ok_length _ Hok)).
  rewrite existsb_exists. split.
  - intros (t & Hin & Hr). apply list_elem_of_In, list_elem_of_lookup in Hin as [k Hk].
    rewrite lookup_drop in Hk. exists (S k). pose proof (lookup_lt_Some _ _ _ Hk) as Hlt.
    rewrite (ok_length _ Hok) in Hlt. cbn [Nat.add] in *. split_and!; [done|done|].
    unfold state_of. rewrite (list_lookup_total_correct _ _ _ Hk).
    apply orb_true_iff in Hr as [Hr|Hr]; apply bool_decide_eq_true in Hr; [done|].
    assert (S k = current_slot s) as E; [|by rewrite Hc in E]. apply (ok_running _ Hok); [done|].
    unfold state_of. by rewrite (list_lookup_total_correct _ _ _ Hk).
  - intros (i & Hi & Hne & Hr). exists (slots s !!! i). split.
    + apply list_elem_of_In, list_elem_of_lookup. exists (i - 1)%nat. rewrite lookup_drop.
      replace (1 + (i - 1))%nat with i by lia. apply list_lookup_lookup_total_lt.
      by rewrite (ok_length _ Hok).
    + rewrite state_is, Hr. by rewrite bool_decide_true.
Qed.

(** ** Theorems *)

(** C7: every state reached from a good one by any interleaving of yields, exits,
    creations, quantum expiries, preemptions on interrupt return, enabling and
    disabling of preemption and the running thread's own work is good again, and the
    whole run is a run of the abstract round-robin scheduler. *)
Theorem scheduler_refines s s' :
  sched_ok s -> thread_reach s s' ->
  sched_ok s' /\ rtc machine_step (abstract s) (abstract s').
Proof. intros Hok Hr. split; [by eapply reach_ok|by eapply reach_simulated]. Qed.

(** [thread_yield], down to the words pushed and popped on the stacks, is the
    abstract switch: the first ready slot of the rotation runs with exactly the
    context it was suspended with, the yielding thread is ready with exactly the
    registers, flags and stack pointer it had, returning into [switch_to_next], and
    no other thread's context changes; with no other thread ready nothing changes. *)
Theorem thread_yield_refines s :
  sched_ok s ->
  sched_ok (thread_yield s) /\ abstract (thread_yield s) = rr_switch (abstract s) /\
  (rr_next (abstract s) = None -> thread_yield s = s).
Proof.
  intros Hok. unfold thread_yield. rewrite (ok_active _ Hok). cbn [negb].
  destruct (switch_to_next_refines s Hok) as [Hok' Ha]. split_and!; [done|done|].
  intros E. apply switch_alone.
  by rewrite (next_ready_abstract s s Hok (ok_capacity _ Hok) ltac:(done)), E.
Qed.

(** C8: a thread that yields while another is ready, and then does not run for any
    number of steps of the others, continues with exactly the callee-saved registers,
    flags and stack pointer it yielded with, at the return point of its switch,
    whichever step hands the processor back to it. *)
Theorem thread_resumed_exactly s s2 s3 n b :
  sched_ok s -> is_Some (rr_next (abstract s)) ->
  away (current_slot s) n (thread_yield s) s2 -> thread_step b s2 s3 ->
  current_slot s3 = current_slot s ->
  processor s3 = set_rip switch_return (processor s).
Proof.
  intros Hok [j Hj] Haw Hstep Hcur. pose proof (ok_current _ Hok) as Hc.
  destruct (rr_next_Some s j Hok Hj) as (Hlt & Hne & _).
  unfold thread_yield in Haw. rewrite (ok_active _ Hok) in Haw. cbn [negb] in Haw.
  destruct (switch_to_next_refines s Hok) as [Hok1 Ha].
  unfold rr_switch in Ha. rewrite (hand_over_ready _ s j Hok Hj) in Ha.
  destruct (ready_phase (switch_to_next s) (current_slot s) (set_rip switch_return (processor s)) Hc)
    as [Hr1 Hs1].
  { rewrite Ha. cbn [phases]. rewrite list_lookup_insert_ne by done.
    by rewrite list_lookup_insert_eq by (by rewrite abstract_length). }
  destruct (away_waits _ n _ s2 Hok1 Hc Hr1 Haw) as (Hok2 & Hr2 & Hs2 & _).
  destruct (waiting_step b s2 s3 _ Hok2 Hc Hr2 Hstep) as [[_ Hp]|[Hn _]]; [congruence|done].
Qed.

Lemma yields_reach k s i :
  sched_ok s -> (i < THREAD_MAX)%nat -> state_of s i = THREAD_STATE_READY ->
  (ahead THREAD_MAX (current_slot s) i <= k)%nat ->
  exists n, (n <= k)%nat /\ current_slot (Nat.iter n thread_yield s) = i.
Proof.
  revert s. induction k as [|k IH]; intros s Hok Hi Hr Hk.
  { pose proof (ahead_spec THREAD_MAX (current_slot s) i (ok_current _ Hok) Hi). lia. }
  destruct (waiting_step true s (thread_yield s) i Hok Hi Hr (step_yield s)) as [[E _]|(_ & Hr' & _ & Hl)].
  { exists 1%nat. split; [lia|done]. }
  destruct (IH (thread_yield s)) as (n & Hn & En); [|done|done|lia|].
  { by eapply step_simulated; [|constructor]. }
  exists (S n). split; [lia|]. by rewrite Nat.iter_succ_r.
Qed.

(** C9: no ready thread starves.  However the steps of the system interleave, the
    processor is handed over at most [THREAD_MAX - 2] times without the thread
    getting it, and at most [THREAD_MAX - 1] yields give it the processor. *)
Theorem ready_thread_runs s i :
  sched_ok s -> (i < THREAD_MAX)%nat -> state_of s i = THREAD_STATE_READY ->
  (forall n s', away i n s s' -> (n <= THREAD_MAX - 2)%nat) /\
  exists n, (n <= THREAD_MAX - 1)%nat /\ current_slot (Nat.iter n thread_yield s) = i.
Proof.
  intros Hok Hi Hr. pose proof (ok_current _ Hok) as Hc.
  assert (Hle : (ahead THREAD_MAX (current_slot s) i <= THREAD_MAX - 1)%nat).
  { destruct (ahead_spec THREAD_MAX (current_slot s) i Hc Hi) as [Hb E].
    assert (ahead THREAD_MAX (current_slot s) i <> THREAD_MAX); [|lia]. intros H8. rewrite H8 in E.
    replace (current_slot s + THREAD_MAX)%nat with (current_slot s + 1 * THREAD_MAX)%nat in E by lia.
    rewrite Nat.Div0.mod_add, Nat.mod_small in E by done. subst i. by rewrite running_current in Hr. }
  split; [|by apply yields_reach].
  intros n s' Haw. destruct (away_waits i n s s' Hok Hi Hr Haw) as (Hok' & _ & _ & Hl).
  pose proof (ahead_spec THREAD_MAX (current_slot s') i (ok_current _ Hok') Hi). lia.
Qed.

(** [thread_exit] panics only in the boot thread.  Any other thread is marked
    exited and the next ready thread runs: the panics of a scheduler that is not
    started or has nothing left to run are unreachable, since the boot thread is
    always ready or running. *)
Theorem thread_exit_correct s :
  sched_ok s ->
  match thread_exit s with
  | inl p => p = panic_boot_exit /\ current_slot s = O
  | inr s' => current_slot s <> O /\ sched_ok s' /\ is_Some (rr_next (abstract s)) /\
      abstract s' = rr_exit (abstract s)
  end.
Proof.
  intros Hok. destruct (decide (current_slot s = O)) as [H0|H0].
  - unfold thread_exit. rewrite (ok_active _ Hok). cbn [negb]. cbv zeta.
    change (current_slot (cpu_interrupt_disable s)) with (current_slot s).
    change (slots (cpu_interrupt_disable s)) with (slots s).
    by rewrite (proj2 (ok_boot _ Hok _ (ok_current _ Hok)) H0).
  - by destruct (thread_exit_refines s Hok H0) as (s' & -> & Hs').
Qed.

(** [thread_create] either takes an unused slot, whose thread will start in the
    trampoline at the top of its own stack with the entry and context given, every
    other thread unchanged, under an identifier no thread has; or refuses with the
    status of its reason, [THREAD_ID_NONE] and every thread unchanged, the pages of a
    half mapped stack being unmapped again. *)
Theorem thread_create_correct s f c :
  sched_ok s -> next_identifier s + 1 < 2 ^ 64 ->
  let '(st, id, s') := thread_create (Some f) c true s in
  sched_ok s' /\
  match st with
  | THREAD_STATUS_OK =>
      interrupts_on s = false /\
      (forall j, (j < THREAD_MAX)%nat -> state_of s j <> THREAD_STATE_UNUSED ->
         identifier (slots s !!! j) <> id) /\
      exists i, phases (abstract s) !! i = Some Unused /\ identifier (slots s' !!! i) = id /\
        abstract s' = Machine (current_slot s)
          (<[i := Ready (initial_context f c i)]> (phases (abstract s)))
  | THREAD_STATUS_INTERRUPTS_ENABLED => interrupts_on s = true /\ id = THREAD_ID_NONE /\ s' = s
  | THREAD_STATUS_NO_CAPACITY => id = THREAD_ID_NONE /\ s' = s /\
      forall i, (i < THREAD_MAX)%nat -> state_of s i <> THREAD_STATE_UNUSED
  | THREAD_STATUS_OUT_OF_FRAMES | THREAD_STATUS_MAPPING_FAILURE =>
      id = THREAD_ID_NONE /\ abstract s' = abstract s
  | _ => False
  end.
Proof.
  intros Hok Hid. destruct (interrupts_on s) eqn:Hint.
  { unfold thread_create. rewrite (ok_active _ Hok), Hint. done. }
  pose proof (thread_create_cases s f c Hok Hint) as Hcase.
  destruct (unused_slot s) as [i|] eqn:Hu.
  2: { rewrite Hcase. split; [done|]. split_and!; try done. by apply unused_slot_None. }
  pose proof (unused_slot_Some s i Hok Hu) as Hi.
  destruct Hcase as (m & [(-> & Hm)|(st & [-> | ->] & -> & Hok')]); [|done|done].
  split; [by apply with_thread_ok|]. split; [done|]. split.
  - intros j Hj Huj. destruct (ok_names _ Hok) as (_ & _ & Hn). pose proof (Hn j Hj Huj). lia.
  - exists i. rewrite abstract_phase by lia. unfold phase_at. rewrite (proj2 Hi).
    rewrite (with_thread_slots s i f c m Hok Hi), decide_True by done. split_and!; try done.
    by apply with_thread_abstract.
Qed.

(** The audit accepts every state the scheduler reaches: exactly one thread
    runs, the counters are exact, every created thread has its four writable pages
    behind an unmapped guard page, and every suspended stack pointer lies in its own
    stack. *)
Theorem thread_verify_reachable s s' :
  sched_ok s -> thread_reach s s' -> thread_verify s' = THREAD_STATUS_OK.
Proof. intros Hok Hr. by apply verify_ok, (reach_ok s). Qed.

(** [thread_start] refuses, with nothing changed, a started scheduler, enabled
    interrupts and missing paging; otherwise it allocates the table in the heap and
    leaves the boot thread running alone in a good state with the processor as it
    was, or reports [NO_MEMORY] with the heap's blocks unchanged. *)
Theorem thread_start_correct s :
  heap_wf (kheap s) (pages s) -> unmapped (pages s) region_page ->
  boot_lo + 64 <= rsp (processor s) <= boot_hi ->
  let '(st, s') := thread_start s in
  match st with
  | THREAD_STATUS_OK =>
      sched_ok s' /\ heap_wf (kheap s') (pages s') /\
      abstract s' = Machine 0 (Running (processor s) :: replicate (THREAD_MAX - 1) Unused) /\
      exists b, table s' = Some (HEAP_BASE + offset b) /\ b ∈ used_blocks (live (kheap s')) /\
        Z.of_nat THREAD_MAX * thread_size <= size b
  | THREAD_STATUS_NO_MEMORY =>
      heap_core (kheap s') (pages s') /\ used_blocks (live (kheap s')) = used_blocks (live (kheap s)) /\
      sys s' = sys s /\ slots s' = slots s
  | THREAD_STATUS_ALREADY_STARTED => sys_active (sys s) = true /\ s' = s
  | THREAD_STATUS_INTERRUPTS_ENABLED => interrupts_on s = true /\ s' = s
  | THREAD_STATUS_NO_HEAP => paging_is_active (pages s) = false /\ s' = s
  | _ => False
  end.
Proof.
  intros Hwf Hun Hsp. destruct (sys_active (sys s)) eqn:Ha.
  { unfold thread_start. by rewrite Ha. }
  destruct (interrupts_on s) eqn:Hi.
  { unfold thread_start. by rewrite Ha, Hi. }
  destruct (paging_is_active (pages s)) eqn:Hp.
  2: { unfold thread_start. rewrite Ha, Hi, Hp, orb_true_r. done. }
  destruct (thread_start_allocates s Hwf Hun Hsp Ha Hi Hp) as
    [(b & h & m & -> & Hwf' & Hb & Hsz & Hok & Hab)|(h & m & -> & Hc & Hu)]; [|done].
  split_and!; [done|done|done|]. by exists b.
Qed.

(** [thread_stop] once the boot thread runs alone. *)
Lemma stop_released s :
  sched_ok s -> (forall i, (0 < i < THREAD_MAX)%nat ->
    state_of s i = THREAD_STATE_UNUSED \/ state_of s i = THREAD_STATE_EXITED) ->
  forall s', release_stacks (THREAD_MAX - 1) 1 s = (THREAD_STATUS_OK, s') ->
  stack_frames (sys s') = 0 /\ unmapped (pages s') region_page /\
  kheap s' = kheap s /\ table s' = table s.
Proof.
  intros Hok Hst s' E. pose proof (release_stacks_spec (THREAD_MAX - 1) 1 s) as Hr. rewrite E in Hr.
  destruct Hr as (Hs & Hu & Hk & Ht); [by apply ok_stopping|lia|done|lia|done|].
  split_and!; [| |done|done].
  - rewrite (stop_frames _ Hs). replace (countb slot_used (drop 1 (slots s'))) with 0; [lia|].
    symmetry. apply countb_zero. intros i t Ht'. rewrite lookup_drop in Ht'.
    pose proof (lookup_lt_Some _ _ _ Ht') as Hlt. rewrite (stop_length _ Hs) in Hlt.
    unfold slot_used. apply negb_false_iff, bool_decide_eq_true.
    rewrite <- (list_lookup_total_correct _ _ _ Ht'). apply Hu. lia.
  - intros k Hk'. apply (stop_unmapped _ Hs). split; [done|]. intros (i & p & Hi & Hui & _).
    by apply Hui, Hu.
Qed.

(** [thread_stop] dismantles nothing while it must not: with interrupts on, from
    another thread than the boot thread, or with a thread still ready it names the
    reason and every thread keeps its context.  When it succeeds the scheduler is
    stopped with preemption off, no page of any stack is mapped, no frame is
    accounted to a stack and the table is back in the heap. *)
Theorem thread_stop_correct s :
  sched_ok s ->
  let '(st, s') := thread_stop s in
  if interrupts_on s then st = THREAD_STATUS_INTERRUPTS_ENABLED /\ s' = s
  else if negb (current_slot s =? 0)%nat then st = THREAD_STATUS_NOT_THE_BOOT_THREAD /\ s' = s
  else
    match rr_next (abstract s) with
    | Some _ => st = THREAD_STATUS_THREADS_STILL_RUNNABLE /\ sched_ok s' /\ abstract s' = abstract s
    | None => st = THREAD_STATUS_OK ->
        sys_active (sys s') = false /\ preemptive (sys s') = false /\ table s' = None /\
        stack_frames (sys s') = 0 /\ unmapped (pages s') region_page /\
        heap_free (table s) (kheap s) = (HEAP_STATUS_OK, kheap s')
    end.
Proof.
  intros Hok. unfold thread_stop. rewrite (ok_active _ Hok). cbn [negb].
  destruct (interrupts_on s); [done|].
  destruct (Nat.eqb_spec (current_slot s) 0) as [H0|H0]; cbn [negb].
  2: { assert (boot_thread (slots s !!! current_slot s) = false) as ->; [|done].
       apply not_true_iff_false. by rewrite (ok_boot _ Hok) by apply (ok_current _ Hok). }
  rewrite (proj2 (ok_boot _ Hok _ (ok_current _ Hok)) H0). cbn [negb].
  set (s1 := if preemptive (sys s) then _ else s).
  assert (Hs1 : sched_ok s1 /\ abstract s1 = abstract s /\ kheap s1 = kheap s /\ table s1 = table s).
  { unfold s1. destruct (preemptive (sys s)); [|done].
    destruct (disable_preemption_ok s Hok) as [Hd Ha]. split_and!; try done;
      unfold thread_disable_preemption; by repeat destruct (negb _). }
  clearbody s1. destruct Hs1 as (Hok1 & Ha1 & Hk1 & Ht1).
  assert (Hc1 : current_slot s1 = O) by (rewrite <- H0; exact (f_equal running_slot Ha1)).
  rewrite <- Ha1. destruct (rr_next (abstract s1)) as [j|] eqn:Hrr.
  - destruct (rr_next_Some s1 j Hok1 Hrr) as (Hj & Hne & Hr).
    assert (any_runnable s1 = true) as ->; [|by rewrite Ha1].
    apply any_runnable_spec; [done|done|]. exists j. split_and!; [done|congruence|done].
  - pose proof (rr_next_None s1 Hok1 Hrr) as Hnone.
    assert (any_runnable s1 = false) as ->.
    { apply not_true_iff_false. rewrite any_runnable_spec by done. intros (i & Hi & _ & Hr). by apply (Hnone i). }
    pose proof (stop_released s1 Hok1) as Hrel. rewrite (ok_capacity _ Hok1).
    destruct (release_stacks (THREAD_MAX - 1) 1 s1) as [st s2].
    destruct (decide (st = THREAD_STATUS_OK)) as [-> |Hst]; [|by destruct st].
    destruct (Hrel ltac:(intros i Hi; destruct (state_of s1 i) eqn:E; auto;
       [by apply Hnone in E; [|lia]|apply (ok_running _ Hok1) in E; lia]) s2 eq_refl) as (Hf & Hun & Hk & Ht).
    rewrite Hf, Hk, Ht, Hk1, Ht1. cbn [Z.eqb negb].
    destruct (heap_free (table s) (kheap s)) as [hst h]. by destruct hst.
Qed.

(** [thread_join] waits for exactly the thread that carries the identifier: the
    slot it polls is used, is the only one with that identifier and is not the
    caller's; the identifiers it refuses are zero, the caller's own and those no
    thread carries. *)
Theorem thread_join_target s id :
  sched_ok s ->
  match thread_join_begin id s with
  | inr i => (i < THREAD_MAX)%nat /\ i <> current_slot s /\ state_of s i <> THREAD_STATE_UNUSED /\
      identifier (slots s !!! i) = id /\
      forall j, (j < THREAD_MAX)%nat -> state_of s j <> THREAD_STATE_UNUSED ->
        identifier (slots s !!! j) = id -> j = i
  | inl st => st = THREAD_STATUS_BAD_IDENTIFIER /\
      forall j, (j < THREAD_MAX)%nat -> state_of s j <> THREAD_STATE_UNUSED ->
        identifier (slots s !!! j) = id -> j = current_slot s
  end.
Proof.
  intros Hok. unfold thread_join_begin. rewrite (ok_active _ Hok). cbn [negb].
  unfold find. destruct (ok_table _ Hok) as [p ->]. rewrite bool_decide_false, orb_false_r by done.
  rewrite (ok_capacity _ Hok), take_ge by (by rewrite (ok_length _ Hok)).
  destruct (ok_names _ Hok) as (_ & _ & Hn).
  destruct (Z.eqb_spec id THREAD_ID_NONE) as [-> |Hid].
  { split; [done|]. intros j Hj Hu E. pose proof (Hn j Hj Hu). unfold THREAD_ID_NONE in E. lia. }
  destruct (first_index _ (slots s)) as [i|] eqn:Hf.
  - apply first_index_Some in Hf as [(t & Ht & Hp) _].
    apply andb_true_iff in Hp as [Hu%bool_decide_eq_true Hi%Z.eqb_eq].
    pose proof (lookup_lt_Some _ _ _ Ht) as Hlt. rewrite (ok_length _ Hok) in Hlt.
    rewrite <- (list_lookup_total_correct _ _ _ Ht) in Hu, Hi.
    assert (Hun : forall j, (j < THREAD_MAX)%nat -> state_of s j <> THREAD_STATE_UNUSED ->
              identifier (slots s !!! j) = id -> j = i).
    { intros j Hj Huj E. apply (ok_distinct _ Hok); [done|done|done|done|congruence]. }
    assert (Hcu : state_of s (current_slot s) <> THREAD_STATE_UNUSED) by (by rewrite running_current).
    destruct (Z.eqb_spec (identifier (slots s !!! i)) (identifier (slots s !!! current_slot s))) as [E|E].
    + assert (current_slot s = i) as -> by (apply Hun; [apply (ok_current _ Hok)|done|congruence]). done.
    + split_and!; [done| |done|done|done]. intros ->. done.
  - split; [done|]. intros j Hj Hu E. exfalso.
    assert (slots s !! j = Some (slots s !!! j)) as Hl
      by (apply list_lookup_lookup_total_lt; by rewrite (ok_length _ Hok)).
    pose proof (proj1 (first_index_None _ _) Hf j _ Hl) as Hb. apply andb_false_iff in Hb as [Hb|Hb].
    + by apply bool_decide_eq_false in Hb.
    + by apply Z.eqb_neq in Hb.
Qed.
End Scheduler.

(** ** A concrete scheduler

    The boot thread, a thread on the four free frames of the sample memory, and a
    timer that always arms. *)
Module ThreadSamples.
#[export] Instance sample_layout : code_layout :=
  {| thread_trampoline := 0x1000; switch_return := 0x2000; exit_return := 0x3000 |}.
#[export] Instance sample_timer : timer_service Z := {
  service_started _ := true;
  service_clock t := (t, t + 1);
  service_arm d t := (arm_ok d, t);
  service_cancel _ t := t
}.

Definition boot_low : Z := 0x100000.
Definition boot_high : Z := 0x104000.

Lemma boot_below : 0 <= boot_low /\ boot_high <= THREAD_STACK_REGION.
Proof. by unfold boot_low, boot_high, THREAD_STACK_REGION. Qed.

Definition sample : Type := sched mapped_memory Z.

Definition seed : sample :=
  Sched None [] (ThreadSystem false 0 0 0 0 0 0 0 0 false) 0 0 false 0
    (Cpu 15 14 13 12 11 10 2 0x5000 0x103f00) ∅ sample_heap sample_memory 0.

Lemma sample_region_unmapped : unmapped sample_memory region_page.
Proof. intros k _. done. Qed.

(** The scheduler just started, its table the first block of the heap. *)
Definition alone : sample := started HEAP_BASE sample_first.1.2 sample_memory seed.

Lemma alone_ok : sched_ok boot_low boot_high alone.
Proof.
  destruct (started_ok boot_low boot_high HEAP_BASE sample_first.1.2 sample_memory seed) as [Hok _];
    [exact sample_backend_ok|exact sample_region_unmapped|done|exact Hok].
Qed.

Definition two : sample := (thread_create (Some 0x7000) 42 true alone).2.

Lemma two_step : thread_step boot_low boot_high false alone two.
Proof. apply step_create. vm_compute. done. Qed.

Lemma two_ok : sched_ok boot_low boot_high two.
Proof. apply (step_simulated boot_low boot_high boot_below false alone two alone_ok two_step). Qed.

Lemma two_states :
  current_slot two = O /\ state_of two 1 = THREAD_STATE_READY /\ current_slot (thread_yield two) = 1%nat /\
  current_slot (thread_yield (thread_yield two)) = O.
Proof. vm_compute. done. Qed.

Definition yielded : sample := thread_yield two.

Lemma yielded_ok : sched_ok boot_low boot_high yielded.
Proof. apply (step_simulated boot_low boot_high boot_below true two yielded two_ok (step_yield _ _ two)). Qed.

Definition after_exit : sample := match thread_exit yielded with inr s => s | inl _ => yielded end.

Lemma after_exit_result : thread_exit yielded = inr after_exit /\ current_slot after_exit = O.
Proof. vm_compute. done. Qed.

Lemma after_exit_ok : sched_ok boot_low boot_high after_exit.
Proof.
  apply (step_simulated boot_low boot_high boot_below true yielded after_exit yielded_ok).
  apply step_exit. apply after_exit_result.
Qed.

Lemma new_thread_starts_witness : (trampoline_call (initial_context 0x7000 42 1)).2.(rsp) = slot_stack_top 1.
Proof. apply (new_thread_starts 0x7000 42 1). unfold THREAD_MAX. lia. Defined.

Lemma scheduler_refines_witness :
  sched_ok boot_low boot_high yielded /\ rtc machine_step (abstract alone) (abstract yielded).
Proof.
  apply (scheduler_refines boot_low boot_high boot_below alone yielded alone_ok).
  eapply rtc_l; [exists false; exact two_step|]. apply rtc_once. exists true. constructor.
Defined.

Lemma thread_yield_refines_witness : abstract (thread_yield two) = rr_switch (abstract two).
Proof. apply (thread_yield_refines boot_low boot_high boot_below two two_ok). Defined.

Lemma thread_resumed_exactly_witness :
  processor (thread_yield (thread_yield two)) = Cpu 15 14 13 12 11 10 2 0x2000 0x103f00.
Proof.
  assert (E : set_rip switch_return (processor two) = Cpu 15 14 13 12 11 10 2 0x2000 0x103f00)
    by (vm_compute; reflexivity).
  rewrite <- E.
  apply (thread_resumed_exactly boot_low boot_high boot_below two (thread_yield two)
    (thread_yield (thread_yield two)) 0 true two_ok).
  - exists 1%nat. vm_compute. reflexivity.
  - apply away_here. vm_compute. discriminate.
  - constructor.
  - vm_compute. reflexivity.
Defined.

Lemma ready_thread_runs_witness :
  exists n, (n <= 7)%nat /\ current_slot (Nat.iter n thread_yield two) = 1%nat.
Proof.
  apply (ready_thread_runs boot_low boot_high boot_below two 1 two_ok); [unfold THREAD_MAX; lia|].
  apply two_states.
Defined.

Lemma thread_exit_correct_witness :
  sched_ok boot_low boot_high after_exit /\ abstract after_exit = rr_exit (abstract yielded).
Proof.
  pose proof (thread_exit_correct boot_low boot_high boot_below yielded yielded_ok) as He.
  rewrite (proj1 after_exit_result) in He. destruct He as (_ & Hok & _ & Ha). exact (conj Hok Ha).
Defined.

Lemma two_created : thread_create (Some 0x7000) 42 true alone = (THREAD_STATUS_OK, 2, two).
Proof. vm_compute. reflexivity. Qed.

Lemma thread_create_correct_witness :
  exists i, phases (abstract alone) !! i = Some Unused /\
    abstract two = Machine 0 (<[i := Ready (initial_context 0x7000 42 i)]> (phases (abstract alone))).
Proof.
  pose proof (thread_create_correct boot_low boot_high boot_below alone 0x7000 42 alone_ok eq_refl) as Hc.
  rewrite two_created in Hc. destruct Hc as (_ & _ & _ & i & Hi & _ & Ha). exists i. exact (conj Hi Ha).
Defined.

Lemma thread_verify_reachable_witness : thread_verify two = THREAD_STATUS_OK.
Proof.
  apply (thread_verify_reachable boot_low boot_high boot_below alone two alone_ok).
  apply rtc_once. exists false. exact two_step.
Defined.

Lemma thread_start_correct_witness : (thread_start seed).1 = THREAD_STATUS_OK /\
  sched_ok boot_low boot_high (thread_start seed).2.
Proof.
  assert (E : (thread_start seed).1 = THREAD_STATUS_OK) by (vm_compute; reflexivity).
  split; [exact E|].
  pose proof (thread_start_correct boot_low boot_high seed sample_heap_wf sample_region_unmapped
    ltac:(done)) as Hs.
  rewrite (pair_eta (thread_start seed)) in Hs. rewrite E in Hs. exact (proj1 Hs).
Defined.

Lemma thread_stop_correct_witness : (thread_stop after_exit).1 = THREAD_STATUS_OK /\
  unmapped (pages (thread_stop after_exit).2) region_page.
Proof.
  assert (E : (thread_stop after_exit).1 = THREAD_STATUS_OK) by (vm_compute; reflexivity).
  split; [exact E|].
  pose proof (thread_stop_correct boot_low boot_high boot_below after_exit after_exit_ok) as Hs.
  rewrite (pair_eta (thread_stop after_exit)) in Hs. rewrite E in Hs.
  assert (interrupts_on after_exit = false) as Hi by (vm_compute; reflexivity).
  assert (rr_next (abstract after_exit) = None) as Hr by (vm_compute; reflexivity).
  rewrite Hi, (proj2 after_exit_result), Hr in Hs. exact (proj1 (proj2 (proj2 (proj2 (proj2 (Hs eq_refl)))))).
Defined.

Lemma thread_join_target_witness : thread_join_begin 2 two = inr 1%nat /\ 1%nat <> current_slot two.
Proof.
  assert (E : thread_join_begin 2 two = inr 1%nat) by (vm_compute; reflexivity).
  split; [exact E|]. pose proof (thread_join_target boot_low boot_high two 2 two_ok) as Hj.
  rewrite E in Hj. apply Hj.
Defined.
End ThreadSamples.
