(* ===== verification/Paging.v ===== *)
(** * Page tables ([src/kernel/paging.c], [include/rsd/paging.h])

    The four-level hierarchy in the words of physical memory, which the kernel sees
    at their physical addresses: the walk, mapping and unmapping of ranges with the
    reclamation of emptied tables, changing permissions, translation, the audit walk,
    the recorded supervisor mappings and the public calls on the live hierarchy.
    Table frames come from [Frames].  The state is [memory] (what the code changes
    outside its own variables) and [hierarchy]; the static variables of the live
    hierarchy are [paging]. *)

From stdpp Require Import base option list numbers gmap.
From S2P Require Import Prelude Frames.

(** ** Entries *)

Definition PAGE_PRESENT : Z := 1 .<< 0.
Definition PAGE_WRITABLE : Z := 1 .<< 1.
Definition PAGE_USER : Z := 1 .<< 2.
Definition PAGE_WRITE_THROUGH : Z := 1 .<< 3.
Definition PAGE_CACHE_DISABLE : Z := 1 .<< 4.
Definition PAGE_HUGE : Z := 1 .<< 7.
Definition PAGE_LARGE_PAT : Z := 1 .<< 12.
Definition PAGE_NO_EXECUTE : Z := 1 .<< 63.
Definition PAGE_FRAME_MASK : Z := 0x000FFFFFFFFFF000.
Definition PAGE_PHYSICAL_LIMIT : Z := 1 .<< 52.

Definition PAGING_LEVEL_COUNT : nat := 4.
Definition PAGING_ENTRIES_PER_TABLE : Z := 512.
Definition PAGING_PAGE_SIZE : Z := 4096.
Definition PAGING_HUGE_PAGE_SIZE : Z := 0x200000.

Definition PAGING_READ : Z := 0.
Definition PAGING_WRITE : Z := 1 .<< 0.
Definition PAGING_EXECUTE : Z := 1 .<< 1.
Definition PAGING_UNCACHED : Z := 1 .<< 2.
Definition PAGING_WRITE_COMBINING : Z := 1 .<< 3.

Definition PAGING_SUPERVISOR_INTENT_CAPACITY : nat := Z.to_nat 8192.

Inductive paging_status :=
| PAGING_STATUS_OK
| PAGING_STATUS_NULL_ARGUMENT
| PAGING_STATUS_ALREADY_INITIALIZED
| PAGING_STATUS_NOT_INITIALIZED
| PAGING_STATUS_INTERRUPTS_ENABLED
| PAGING_STATUS_NO_EXECUTE_UNSUPPORTED
| PAGING_STATUS_NO_EXECUTE_INACTIVE
| PAGING_STATUS_WRITE_PROTECT_INACTIVE
| PAGING_STATUS_FIVE_LEVEL_PAGING
| PAGING_STATUS_PHYSICAL_EXTENSION_DISABLED
| PAGING_STATUS_PAT_UNSUPPORTED
| PAGING_STATUS_PAT_LAYOUT_UNSAFE
| PAGING_STATUS_PAT_READBACK_MISMATCH
| PAGING_STATUS_BAD_KERNEL_LAYOUT
| PAGING_STATUS_BAD_DEVICE_WINDOW_KIND
| PAGING_STATUS_BAD_DEVICE_WINDOW_INSTANCE
| PAGING_STATUS_UNSUPPORTED_DEVICE_WINDOW_MEMORY_TYPE
| PAGING_STATUS_BAD_DEVICE_WINDOW_PERMISSIONS
| PAGING_STATUS_ZERO_LENGTH_DEVICE_WINDOW
| PAGING_STATUS_UNALIGNED_DEVICE_WINDOW
| PAGING_STATUS_DEVICE_WINDOW_RANGE_OVERFLOW
| PAGING_STATUS_DEVICE_WINDOW_UNSUPPORTED_RANGE
| PAGING_STATUS_TOO_MANY_DEVICE_WINDOWS
| PAGING_STATUS_CONFLICTING_DEVICE_WINDOW_OVERLAP
| PAGING_STATUS_OVERLAPPING_DEVICE_WINDOWS
| PAGING_STATUS_DUPLICATE_DEVICE_WINDOW
| PAGING_STATUS_REQUIRED_DEVICE_WINDOW_MISSING
| PAGING_STATUS_DEVICE_WINDOW_KERNEL_OVERLAP
| PAGING_STATUS_INSTALLED_DEVICE_WINDOW_MISMATCH
| PAGING_STATUS_ZERO_LENGTH
| PAGING_STATUS_UNALIGNED_ADDRESS
| PAGING_STATUS_NONCANONICAL_ADDRESS
| PAGING_STATUS_RANGE_OVERFLOW
| PAGING_STATUS_PHYSICAL_TOO_WIDE
| PAGING_STATUS_BAD_PERMISSIONS
| PAGING_STATUS_CONFLICTING_MEMORY_TYPES
| PAGING_STATUS_MEMORY_TYPE_CHANGE_UNSAFE
| PAGING_STATUS_WRITABLE_AND_EXECUTABLE
| PAGING_STATUS_ALREADY_MAPPED
| PAGING_STATUS_NOT_MAPPED
| PAGING_STATUS_HUGE_PAGE_PRESENT
| PAGING_STATUS_OUT_OF_FRAMES
| PAGING_STATUS_VALIDATION_FAILURE
| PAGING_STATUS_PROCESS_BUSY
| PAGING_STATUS_PROCESS_BAD_TOKEN
| PAGING_STATUS_PROCESS_BAD_STATE
| PAGING_STATUS_PROCESS_BAD_MAPPING
| PAGING_STATUS_PROCESS_ALIAS_STATE
| PAGING_STATUS_SUPERVISOR_INTENT_FULL.

#[global] Instance paging_status_eq_dec : EqDecision paging_status.
Proof. solve_decision. Defined.

Inductive paging_memory_type :=
| PAGING_MEMORY_WRITE_BACK
| PAGING_MEMORY_WRITE_COMBINING
| PAGING_MEMORY_UNCACHEABLE
| PAGING_MEMORY_WRITE_THROUGH
| PAGING_MEMORY_WRITE_PROTECTED
| PAGING_MEMORY_UNCACHED_MINUS
| PAGING_MEMORY_INVALID.

#[global] Instance paging_memory_type_eq_dec : EqDecision paging_memory_type.
Proof. solve_decision. Defined.

Record paging_translation := Translation {
  physical_address : Z;
  permissions : Z;
  memory_type : paging_memory_type;
  level : Z;
  user : bool
}.

Definition no_translation : paging_translation :=
  Translation 0 PAGING_READ PAGING_MEMORY_INVALID 0 false.

Record paging_audit := Audit {
  leaf_count : Z;
  huge_leaves : Z;
  writable_leaves : Z;
  executable_leaves : Z;
  write_execute_leaves : Z;
  user_leaves : Z
}.

(** [(entry & flag) != 0]. *)
Definition has (entry flag : Z) : bool := negb (entry .& flag =? 0).

(** ** Memory types *)

Definition PAT_TYPE_UNCACHEABLE : Z := 0x00.
Definition PAT_TYPE_WRITE_COMBINING : Z := 0x01.
Definition PAT_TYPE_WRITE_THROUGH : Z := 0x04.
Definition PAT_TYPE_WRITE_PROTECTED : Z := 0x05.
Definition PAT_TYPE_WRITE_BACK : Z := 0x06.
Definition PAT_TYPE_UNCACHED_MINUS : Z := 0x07.

Definition pat_entry (pat index : Z) : Z := u8 (pat .>> (index * 8)).

Definition pat_replace_entry (pat index memory_type : Z) : Z :=
  let shift := index * 8 in
  let mask := u64 (0xFF .<< shift) in
  (pat .& not64 mask) .| u64 (memory_type .<< shift).

Definition decode_pat_type (t : Z) : paging_memory_type :=
  if t =? PAT_TYPE_WRITE_BACK then PAGING_MEMORY_WRITE_BACK
  else if t =? PAT_TYPE_WRITE_COMBINING then PAGING_MEMORY_WRITE_COMBINING
  else if t =? PAT_TYPE_UNCACHEABLE then PAGING_MEMORY_UNCACHEABLE
  else if t =? PAT_TYPE_WRITE_THROUGH then PAGING_MEMORY_WRITE_THROUGH
  else if t =? PAT_TYPE_WRITE_PROTECTED then PAGING_MEMORY_WRITE_PROTECTED
  else if t =? PAT_TYPE_UNCACHED_MINUS then PAGING_MEMORY_UNCACHED_MINUS
  else PAGING_MEMORY_INVALID.

Definition leaf_pat_index (entry : Z) (level : nat) : Z :=
  let pat_bit := if (level =? 1)%nat then PAGE_HUGE else PAGE_LARGE_PAT in
  let index := 0 in
  let index := if has entry PAGE_WRITE_THROUGH then index .| 1 else index in
  let index := if has entry PAGE_CACHE_DISABLE then index .| 2 else index in
  if has entry pat_bit then index .| 4 else index.

Definition leaf_memory_type (entry : Z) (level : nat) (pat : Z) : paging_memory_type :=
  decode_pat_type (pat_entry pat (leaf_pat_index entry level)).

(** ** Addresses, permissions, ranges *)

Definition level_shift (level : nat) : Z := 12 + 9 * (Z.of_nat level - 1).
Definition table_index (va : Z) (level : nat) : Z :=
  (va .>> level_shift level) .& (PAGING_ENTRIES_PER_TABLE - 1).
Definition level_page_size (level : nat) : Z := 1 .<< level_shift level.

Definition address_is_canonical (va : Z) : bool :=
  let high := va .>> 47 in (high =? 0) || (high =? 0x1FFFF).

Definition permissions_to_flags (permissions : Z) : Z :=
  let flags := PAGE_PRESENT in
  let flags := if has permissions PAGING_WRITE then flags .| PAGE_WRITABLE else flags in
  let flags := if has permissions PAGING_EXECUTE then flags else flags .| PAGE_NO_EXECUTE in
  let flags :=
    if has permissions PAGING_UNCACHED then flags .| (PAGE_CACHE_DISABLE .| PAGE_WRITE_THROUGH)
    else flags in
  if has permissions PAGING_WRITE_COMBINING then flags .| PAGE_WRITE_THROUGH else flags.

Definition validate_permissions (permissions : Z) : paging_status :=
  let known := ((PAGING_WRITE .| PAGING_EXECUTE) .| PAGING_UNCACHED) .| PAGING_WRITE_COMBINING in
  if has permissions (Z.lnot known) then PAGING_STATUS_BAD_PERMISSIONS
  else if has permissions PAGING_WRITE && has permissions PAGING_EXECUTE then
    PAGING_STATUS_WRITABLE_AND_EXECUTABLE
  else if has permissions PAGING_UNCACHED && has permissions PAGING_WRITE_COMBINING then
    PAGING_STATUS_CONFLICTING_MEMORY_TYPES
  else PAGING_STATUS_OK.

Definition validate_virtual_range (va length page_size : Z) : paging_status :=
  if length =? 0 then PAGING_STATUS_ZERO_LENGTH
  else if negb (va .& (page_size - 1) =? 0) || negb (length .& (page_size - 1) =? 0) then
    PAGING_STATUS_UNALIGNED_ADDRESS
  else if negb (address_is_canonical va) then PAGING_STATUS_NONCANONICAL_ADDRESS
  else if UINT64_MAX - va <? length then PAGING_STATUS_RANGE_OVERFLOW
  else if negb (address_is_canonical (va + length - 1)) then PAGING_STATUS_NONCANONICAL_ADDRESS
  else PAGING_STATUS_OK.

Definition validate_physical_range (pa length page_size : Z) : paging_status :=
  if negb (pa .& (page_size - 1) =? 0) then PAGING_STATUS_UNALIGNED_ADDRESS
  else if UINT64_MAX - pa <? length then PAGING_STATUS_RANGE_OVERFLOW
  else if PAGE_PHYSICAL_LIMIT <? pa + length then PAGING_STATUS_PHYSICAL_TOO_WIDE
  else PAGING_STATUS_OK.

(** ** Memory and hierarchies *)

(** The injected failure of [paging_process_table_failure_arm]. *)
Record table_failure := TableFailure {
  failure_ordinal : Z;
  allocation_count : Z;
  failure_observed : bool;
  failure_armed : bool
}.

(** The words of physical memory that hold tables, the frame allocator, the root the
    processor uses, and the pages the kernel has invalidated, latest first. *)
Record memory := Memory {
  words : gmap Z Z;
  frame_state : frames;
  cr3 : Z;
  invalidated : list Z;
  failure : table_failure
}.

(** [process] says whether this is the hierarchy of a process slot, which the code
    decides by the address of the structure. *)
Record hierarchy := Hierarchy {
  root : Z;
  arena_base : Z;
  arena_capacity : Z;
  arena_used : Z;
  table_frames : Z;
  live : bool;
  process : bool
}.

Definition word (m : memory) (a : Z) : Z := default 0 (words m !! a).
Definition set_words (w : gmap Z Z) (m : memory) : memory :=
  Memory w (frame_state m) (cr3 m) (invalidated m) (failure m).
Definition set_word (a v : Z) (m : memory) : memory := set_words (<[a := v]> (words m)) m.
Definition set_frames (f : frames) (m : memory) : memory :=
  Memory (words m) f (cr3 m) (invalidated m) (failure m).
Definition set_failure (f : table_failure) (m : memory) : memory :=
  Memory (words m) (frame_state m) (cr3 m) (invalidated m) f.
Definition count_tables (used : Z) (n : Z) (h : hierarchy) : hierarchy :=
  Hierarchy (root h) (arena_base h) (arena_capacity h) used n (live h) (process h).

(** The address of entry [index] of the table at [table]. *)
Definition entry_at (table index : Z) : Z := table + 8 * index.

Fixpoint zero_words (n : nat) (a : Z) (w : gmap Z Z) : gmap Z Z :=
  match n with
  | O => w
  | S n => zero_words n (a + 8) (<[a := 0]> w)
  end.

Definition zero_table (table : Z) (m : memory) : memory :=
  set_words (zero_words (Z.to_nat PAGING_ENTRIES_PER_TABLE) table (words m)) m.

(** [inl] a failure, [inr] the table's address. *)
Definition allocate_table (h : hierarchy) (m : memory) : (paging_status + Z) * hierarchy * memory :=
  let counted := failure_armed (failure m) && process h in
  let n := u64 (allocation_count (failure m) + 1) in
  let hit := counted && (n =? failure_ordinal (failure m)) in
  let m :=
    if counted then
      set_failure (TableFailure (failure_ordinal (failure m)) n
        (failure_observed (failure m) || hit) (failure_armed (failure m))) m
    else m in
  if hit then (inl PAGING_STATUS_OUT_OF_FRAMES, h, m)
  else
    let finish frame used m :=
      if RSD_EARLY_PHYSICAL_LIMIT <=? frame then
        (inl PAGING_STATUS_PHYSICAL_TOO_WIDE, count_tables used (table_frames h) h, m)
      else (inr frame, count_tables used (u64 (table_frames h + 1)) h, zero_table frame m) in
    if negb (arena_capacity h =? 0) then
      if arena_used h =? arena_capacity h then (inl PAGING_STATUS_OUT_OF_FRAMES, h, m)
      else finish (u64 (arena_base h + arena_used h * PAGING_PAGE_SIZE)) (arena_used h + 1) m
    else
      match frame_allocate (Some 0) (frame_state m) with
      | (FRAME_STATUS_OK, out, f) => finish (default 0 out) (arena_used h) (set_frames f m)
      | (_, _, f) => (inl PAGING_STATUS_OUT_OF_FRAMES, h, set_frames f m)
      end.

Definition invalidate (h : hierarchy) (va : Z) (m : memory) : memory :=
  if live h || (negb (root h =? 0) && (cr3 m .& PAGE_FRAME_MASK =? root h)) then
    Memory (words m) (frame_state m) (cr3 m) (va :: invalidated m) (failure m)
  else m.

(** The loop of [entry_for] from the table at [level = target + n] on: [inr] the
    address of the entry. *)
Fixpoint entry_walk (n target : nat) (va : Z) (create : bool) (table : Z) (h : hierarchy) (m : memory) :
    (paging_status + Z) * hierarchy * memory :=
  match n with
  | O => (inr (entry_at table (table_index va target)), h, m)
  | S n' =>
      let slot := entry_at table (table_index va (target + n)) in
      let e := word m slot in
      if negb (has e PAGE_PRESENT) then
        if negb create then (inl PAGING_STATUS_NOT_MAPPED, h, m)
        else
          match allocate_table h m with
          | (inl status, h, m) => (inl status, h, m)
          | (inr next, h, m) =>
              entry_walk n' target va create next h
                (set_word slot ((next .| PAGE_PRESENT) .| PAGE_WRITABLE) m)
          end
      else if has e PAGE_HUGE then (inl PAGING_STATUS_HUGE_PAGE_PRESENT, h, m)
      else entry_walk n' target va create (e .& PAGE_FRAME_MASK) h m
  end.

Definition entry_for (h : hierarchy) (va : Z) (target : nat) (create : bool) (m : memory) :
    (paging_status + Z) * hierarchy * memory :=
  entry_walk (PAGING_LEVEL_COUNT - target) target va create (root h) h m.

(** The lookup without creation, which changes nothing. *)
Definition find_entry (h : hierarchy) (va : Z) (target : nat) (m : memory) : paging_status + Z :=
  (entry_for h va target false m).1.1.

Definition table_is_empty (table : Z) (m : memory) : bool :=
  forallb (fun i => negb (has (word m (entry_at table i)) PAGE_PRESENT))
    (seqZ 0 PAGING_ENTRIES_PER_TABLE).

Definition release_table (h : hierarchy) (physical : Z) (m : memory) : hierarchy * memory :=
  let m :=
    if arena_capacity h =? 0 then set_frames (frame_release physical (frame_state m)).2 m else m in
  (count_tables (arena_used h) (u64 (table_frames h - 1)) h, m).

(** The tables from level [n + 1] down to level 1 that translate [va], the lowest
    first; [None] when an entry on the way is absent or a large page. *)
Fixpoint table_path (n : nat) (table va : Z) (m : memory) : option (list Z) :=
  match n with
  | O => Some [table]
  | S n' =>
      let e := word m (entry_at table (table_index va (S n))) in
      if negb (has e PAGE_PRESENT) || has e PAGE_HUGE then None
      else path ← table_path n' (e .& PAGE_FRAME_MASK) va m; Some (path ++ [table])
  end.

(** The climb of [reclaim_empty_tables] from level [level] on. *)
Fixpoint reclaim_path (path : list Z) (level : nat) (va : Z) (h : hierarchy) (m : memory) :
    hierarchy * memory :=
  match path with
  | table :: (parent :: _) as rest =>
      if negb (table_is_empty table m) then (h, m)
      else
        let m := set_word (entry_at parent (table_index va (S level))) 0 m in
        let '(h, m) := release_table h table m in
        reclaim_path rest (S level) va h m
  | _ => (h, m)
  end.

Definition reclaim_empty_tables (h : hierarchy) (va : Z) (m : memory) : hierarchy * memory :=
  match table_path (PAGING_LEVEL_COUNT - 1) (root h) va m with
  | Some path => reclaim_path path 1 va h m
  | None => (h, m)
  end.

(** ** Ranges *)

(** The iterations of [for (offset = 0; offset < length; offset += page_size)]. *)
Definition steps (length page_size : Z) : nat := Z.to_nat ((length + (page_size - 1)) / page_size).

Fixpoint clear_run (n : nat) (va : Z) (level : nat) (h : hierarchy) (m : memory) : hierarchy * memory :=
  match n with
  | O => (h, m)
  | S n =>
      let '(h, m) :=
        match entry_for h va level false m with
        | (inr entry, h, m) =>
            let m := invalidate h va (set_word entry 0 m) in
            if (level =? 1)%nat then reclaim_empty_tables h va m else (h, m)
        | (inl _, h, m) => (h, m)
        end in
      clear_run n (va + level_page_size level) level h m
  end.

Definition clear_range (h : hierarchy) (va length : Z) (level : nat) (m : memory) : hierarchy * memory :=
  clear_run (steps length (level_page_size level)) va level h m.

(** The first pass of [map_range]: a refusal, if any page is taken. *)
Fixpoint check_run (n : nat) (va : Z) (level : nat) (h : hierarchy) (m : memory) : paging_status :=
  match n with
  | O => PAGING_STATUS_OK
  | S n =>
      match find_entry h va level m with
      | inr entry =>
          if has (word m entry) PAGE_PRESENT then PAGING_STATUS_ALREADY_MAPPED
          else check_run n (va + level_page_size level) level h m
      | inl PAGING_STATUS_NOT_MAPPED => check_run n (va + level_page_size level) level h m
      | inl status => status
      end
  end.

(** The second pass, [offset] bytes into the range. *)
Fixpoint fill_run (n : nat) (va0 pa0 offset permissions : Z) (level : nat) (h : hierarchy) (m : memory) :
    paging_status * hierarchy * memory :=
  match n with
  | O => (PAGING_STATUS_OK, h, m)
  | S n =>
      match entry_for h (va0 + offset) level true m with
      | (inl status, h, m) =>
          let '(h, m) := clear_range h va0 offset level m in (status, h, m)
      | (inr entry, h, m) =>
          let v := (pa0 + offset) .| permissions_to_flags permissions in
          let v := if (1 <? level)%nat then v .| PAGE_HUGE else v in
          let m := invalidate h (va0 + offset) (set_word entry v m) in
          fill_run n va0 pa0 (offset + level_page_size level) permissions level h m
      end
  end.

Definition map_range (h : hierarchy) (va pa length permissions : Z) (level : nat) (m : memory) :
    paging_status * hierarchy * memory :=
  let page_size := level_page_size level in
  let n := steps length page_size in
  match validate_permissions permissions with
  | PAGING_STATUS_OK =>
      match validate_virtual_range va length page_size with
      | PAGING_STATUS_OK =>
          match validate_physical_range pa length page_size with
          | PAGING_STATUS_OK =>
              match check_run n va level h m with
              | PAGING_STATUS_OK => fill_run n va pa 0 permissions level h m
              | status => (status, h, m)
              end
          | status => (status, h, m)
          end
      | status => (status, h, m)
      end
  | status => (status, h, m)
  end.

Fixpoint require_mapped (n : nat) (va : Z) (h : hierarchy) (m : memory) : paging_status :=
  match n with
  | O => PAGING_STATUS_OK
  | S n =>
      match find_entry h va 1 m with
      | inl status => status
      | inr entry =>
          if negb (has (word m entry) PAGE_PRESENT) then PAGING_STATUS_NOT_MAPPED
          else require_mapped n (va + PAGING_PAGE_SIZE) h m
      end
  end.

Definition require_mapped_range (h : hierarchy) (va length : Z) (m : memory) : paging_status :=
  require_mapped (steps length PAGING_PAGE_SIZE) va h m.

Definition unmap_range (h : hierarchy) (va length : Z) (m : memory) : paging_status * hierarchy * memory :=
  match validate_virtual_range va length PAGING_PAGE_SIZE with
  | PAGING_STATUS_OK =>
      match require_mapped_range h va length m with
      | PAGING_STATUS_OK =>
          let '(h, m) := clear_range h va length 1 m in (PAGING_STATUS_OK, h, m)
      | status => (status, h, m)
      end
  | status => (status, h, m)
  end.

Fixpoint apply_run (n : nat) (va flags : Z) (h : hierarchy) (m : memory) : memory :=
  match n with
  | O => m
  | S n =>
      let m :=
        match find_entry h va 1 m with
        | inr entry => invalidate h va (set_word entry ((word m entry .& PAGE_FRAME_MASK) .| flags) m)
        | inl _ => m
        end in
      apply_run n (va + PAGING_PAGE_SIZE) flags h m
  end.

Definition apply_permissions (h : hierarchy) (va length permissions : Z) (m : memory) : memory :=
  apply_run (steps length PAGING_PAGE_SIZE) va (permissions_to_flags permissions) h m.

(** The pass of [protect_range] that refuses a change of memory type. *)
Fixpoint same_type_run (n : nat) (va : Z) (requested : paging_memory_type) (pat : Z) (h : hierarchy)
    (m : memory) : paging_status :=
  match n with
  | O => PAGING_STATUS_OK
  | S n =>
      match find_entry h va 1 m with
      | inl status => status
      | inr entry =>
          if decide (leaf_memory_type (word m entry) 1 pat = requested)
          then same_type_run n (va + PAGING_PAGE_SIZE) requested pat h m
          else PAGING_STATUS_MEMORY_TYPE_CHANGE_UNSAFE
      end
  end.

Definition protect_range (h : hierarchy) (va length permissions pat : Z) (m : memory) :
    paging_status * memory :=
  match validate_permissions permissions with
  | PAGING_STATUS_OK =>
      let requested := leaf_memory_type (permissions_to_flags permissions) 1 pat in
      match validate_virtual_range va length PAGING_PAGE_SIZE with
      | PAGING_STATUS_OK =>
          match require_mapped_range h va length m with
          | PAGING_STATUS_OK =>
              match same_type_run (steps length PAGING_PAGE_SIZE) va requested pat h m with
              | PAGING_STATUS_OK => (PAGING_STATUS_OK, apply_permissions h va length permissions m)
              | status => (status, m)
              end
          | status => (status, m)
          end
      | status => (status, m)
      end
  | status => (status, m)
  end.

(** ** Translation *)

Definition fill_translation (entry va : Z) (level : nat) (writable executable user : bool) (pat : Z) :
    paging_translation :=
  let page_size := level_page_size level in
  let memory_type := leaf_memory_type entry level pat in
  let permissions := PAGING_READ in
  let permissions := if writable then permissions .| PAGING_WRITE else permissions in
  let permissions := if executable then permissions .| PAGING_EXECUTE else permissions in
  let permissions :=
    match memory_type with
    | PAGING_MEMORY_UNCACHEABLE => permissions .| PAGING_UNCACHED
    | PAGING_MEMORY_WRITE_COMBINING => permissions .| PAGING_WRITE_COMBINING
    | _ => permissions
    end in
  Translation (((entry .& PAGE_FRAME_MASK) .& not64 (page_size - 1)) .| (va .& (page_size - 1)))
    permissions memory_type (Z.of_nat level) user.

(** The walk of [translate_address] from the table at level [n + 1] on. *)
Fixpoint translate_walk (n : nat) (table va : Z) (writable executable user : bool) (pat : Z)
    (m : memory) : paging_status * paging_translation :=
  let level := S n in
  let e := word m (entry_at table (table_index va level)) in
  if negb (has e PAGE_PRESENT) then (PAGING_STATUS_NOT_MAPPED, no_translation)
  else
    let writable := writable && has e PAGE_WRITABLE in
    let executable := executable && negb (has e PAGE_NO_EXECUTE) in
    let user := user && has e PAGE_USER in
    match n with
    | O => (PAGING_STATUS_OK, fill_translation e va level writable executable user pat)
    | S n' =>
        if has e PAGE_HUGE then
          (PAGING_STATUS_OK, fill_translation e va level writable executable user pat)
        else translate_walk n' (e .& PAGE_FRAME_MASK) va writable executable user pat m
    end.

Definition translate_address (h : hierarchy) (va pat : Z) (m : memory) :
    paging_status * paging_translation :=
  if negb (address_is_canonical va) then (PAGING_STATUS_NONCANONICAL_ADDRESS, no_translation)
  else translate_walk (PAGING_LEVEL_COUNT - 1) (root h) va true true true pat m.

(** ** The audit walk *)

Definition count_leaf (level : nat) (writable executable user : bool) (a : paging_audit) : paging_audit :=
  let bump (b : bool) (x : Z) := if b then u64 (x + 1) else x in
  Audit (u64 (leaf_count a + 1)) (bump (1 <? level)%nat (huge_leaves a))
    (bump writable (writable_leaves a)) (bump executable (executable_leaves a))
    (bump (writable && executable) (write_execute_leaves a)) (bump user (user_leaves a)).

(** The table at level [n + 1]. *)
Fixpoint audit_table (n : nat) (table : Z) (writable executable user : bool) (m : memory)
    (a : paging_audit) : paging_audit :=
  foldl (fun a i =>
    let e := word m (entry_at table i) in
    if negb (has e PAGE_PRESENT) then a
    else
      let leaf_writable := writable && has e PAGE_WRITABLE in
      let leaf_executable := executable && negb (has e PAGE_NO_EXECUTE) in
      let leaf_user := user && has e PAGE_USER in
      match n with
      | S n' =>
          if negb (has e PAGE_HUGE) then
            audit_table n' (e .& PAGE_FRAME_MASK) leaf_writable leaf_executable leaf_user m a
          else count_leaf (S n) leaf_writable leaf_executable leaf_user a
      | O => count_leaf (S n) leaf_writable leaf_executable leaf_user a
      end) a (seqZ 0 PAGING_ENTRIES_PER_TABLE).

Definition audit_hierarchy (h : hierarchy) (m : memory) : paging_audit :=
  audit_table (PAGING_LEVEL_COUNT - 1) (root h) true true true m (Audit 0 0 0 0 0 0).

(** ** The live hierarchy *)

Record supervisor_mapping_intent := Intent {
  in_virtual : Z;
  in_physical : Z;
  in_length : Z;
  in_permissions : Z
}.

Record paging_state := PagingState {
  root_physical_address : Z;
  ps_table_frames : Z;
  fine_regions : Z;
  pat_before : Z;
  pat_after : Z;
  write_combining_pat_entry : Z;
  no_execute_active : bool;
  write_protect_active : bool;
  active : bool
}.

(** The static variables behind the public calls; the recorded mappings are the first
    [supervisor_intent_count] entries of the array. *)
Record paging := Paging {
  state : paging_state;
  live_hierarchy : hierarchy;
  supervisor_intents : list supervisor_mapping_intent;
  mem : memory
}.

Definition set_table_frames (n : Z) (s : paging_state) : paging_state :=
  PagingState (root_physical_address s) n (fine_regions s) (pat_before s) (pat_after s)
    (write_combining_pat_entry s) (no_execute_active s) (write_protect_active s) (active s).

(** [state.table_frames = live_hierarchy.table_frames]. *)
Definition settle (h : hierarchy) (intents : list supervisor_mapping_intent) (m : memory) (p : paging) : paging :=
  Paging (set_table_frames (table_frames h) (state p)) h intents m.

Definition supervisor_intent_find (va length : Z) (l : list supervisor_mapping_intent) : option nat :=
  first_index (fun x => (in_virtual x =? va) && (in_length x =? length)) l.

Definition supervisor_intent_add (x : supervisor_mapping_intent) (l : list supervisor_mapping_intent) :
    paging_status * list supervisor_mapping_intent :=
  if (length l =? PAGING_SUPERVISOR_INTENT_CAPACITY)%nat then (PAGING_STATUS_SUPERVISOR_INTENT_FULL, l)
  else (PAGING_STATUS_OK, l ++ [x]).

Definition supervisor_intent_remove (i : nat) (l : list supervisor_mapping_intent) :
    list supervisor_mapping_intent :=
  if (length l <=? i)%nat then l else delete i l.

Definition paging_map (va pa length permissions : Z) (p : paging) : paging_status * paging :=
  if negb (active (state p)) then (PAGING_STATUS_NOT_INITIALIZED, p)
  else
    match map_range (live_hierarchy p) va pa length permissions 1 (mem p) with
    | (PAGING_STATUS_OK, h, m) =>
        match supervisor_intent_add (Intent va pa length permissions) (supervisor_intents p) with
        | (PAGING_STATUS_OK, l) => (PAGING_STATUS_OK, settle h l m p)
        | (status, l) => let '(_, h, m) := unmap_range h va length m in (status, settle h l m p)
        end
    | (status, h, m) => (status, settle h (supervisor_intents p) m p)
    end.

Definition paging_unmap (va length : Z) (p : paging) : paging_status * paging :=
  if negb (active (state p)) then (PAGING_STATUS_NOT_INITIALIZED, p)
  else
    let intent := supervisor_intent_find va length (supervisor_intents p) in
    let '(status, h, m) := unmap_range (live_hierarchy p) va length (mem p) in
    let l :=
      match status, intent with
      | PAGING_STATUS_OK, Some i => supervisor_intent_remove i (supervisor_intents p)
      | _, _ => supervisor_intents p
      end in
    (status, settle h l m p).

Definition set_intent_permissions (permissions : Z) (x : supervisor_mapping_intent) :
    supervisor_mapping_intent :=
  Intent (in_virtual x) (in_physical x) (in_length x) permissions.

Definition paging_protect (va length permissions : Z) (p : paging) : paging_status * paging :=
  let intent := supervisor_intent_find va length (supervisor_intents p) in
  if negb (active (state p)) then (PAGING_STATUS_NOT_INITIALIZED, p)
  else
    let '(status, m) := protect_range (live_hierarchy p) va length permissions (pat_after (state p)) (mem p) in
    let l :=
      match status, intent with
      | PAGING_STATUS_OK, Some i => alter (set_intent_permissions permissions) i (supervisor_intents p)
      | _, _ => supervisor_intents p
      end in
    (status, Paging (state p) (live_hierarchy p) l m).

(** [out] is [translation != NULL]. *)
Definition paging_translate (va : Z) (out : bool) (p : paging) : paging_status * paging_translation :=
  if negb out then (PAGING_STATUS_NULL_ARGUMENT, no_translation)
  else if negb (active (state p)) then (PAGING_STATUS_NOT_INITIALIZED, no_translation)
  else translate_address (live_hierarchy p) va (pat_after (state p)) (mem p).

Definition paging_audit_hierarchy (out : bool) (p : paging) : paging_status * paging_audit :=
  if negb out then (PAGING_STATUS_NULL_ARGUMENT, Audit 0 0 0 0 0 0)
  else if negb (active (state p)) then (PAGING_STATUS_NOT_INITIALIZED, Audit 0 0 0 0 0 0)
  else (PAGING_STATUS_OK, audit_hierarchy (live_hierarchy p) (mem p)).

Definition paging_is_active (p : paging) : bool := active (state p).

(** [replay_supervisor_intent], the recorded mappings [l] into hierarchy [h]. *)
Fixpoint replay_supervisor_intent (l : list supervisor_mapping_intent) (h : hierarchy) (m : memory) :
    paging_status * hierarchy * memory :=
  match l with
  | [] => (PAGING_STATUS_OK, h, m)
  | x :: l =>
      match map_range h (in_virtual x) (in_physical x) (in_length x) (in_permissions x) 1 m with
      | (PAGING_STATUS_OK, h, m) => replay_supervisor_intent l h m
      | r => r
      end
  end.
