(* ===== verification/PagingSpec.v ===== *)
(** * What the page tables promise ([src/kernel/paging.c])

    The invariant [tree_ok] describes the tables in memory by a finite map from the
    address of a table to its level and the address prefix it translates: the root is
    the one table of level four, every entry that points to a table points to the one
    of its prefix, and every other table is pointed to by exactly that entry of its
    parent.  Mapping, unmapping and the reclamation of tables keep it; what they do to
    translations is stated for every address. *)

From stdpp Require Import base option list numbers gmap fin_maps.
From S2P Require Import Prelude Frames BlockTable Heap Paging.

(** ** Bits of an entry *)

Lemma has_bit e k : 0 <= k -> has e (1 .<< k) = Z.testbit e k.
Proof.
  intros Hk. unfold has. rewrite Z.shiftl_1_l.
  destruct (Z.eqb_spec (e .& 2 ^ k) 0) as [E|E]; cbn [negb].
  - symmetry. assert (Z.testbit (e .& 2 ^ k) k = false) as Hb by (rewrite E; apply Z.bits_0).
    rewrite Z.land_spec, Z.pow2_bits_true, andb_true_r in Hb by lia. done.
  - destruct (Z.testbit e k) eqn:Hb; [done|]. exfalso. apply E. apply Z.bits_inj'. intros n Hn.
    rewrite Z.land_spec, Z.bits_0, Z.pow2_bits_eqb by lia.
    destruct (Z.eqb_spec k n) as [<-|]; [by rewrite Hb|apply andb_false_r].
Qed.

Lemma has_zero f : has 0 f = false.
Proof. unfold has. by rewrite Z.land_0_l. Qed.

(** A page aligned physical address below the limit of an entry. *)
Definition page_frame (pa : Z) : Prop := 0 <= pa < 2 ^ 52 /\ pa mod 4096 = 0.

Lemma page_frame_bits pa k : page_frame pa -> k < 12 \/ 52 <= k -> Z.testbit pa k = false.
Proof.
  intros [Hb Hm] Hk. destruct (decide (k < 0)); [by apply Z.testbit_neg_r|].
  destruct Hk as [Hk|Hk].
  - rewrite <- (Z.mod_pow2_bits_low pa 12) by lia. change (2 ^ 12) with 4096. rewrite Hm. apply Z.bits_0.
  - destruct (decide (pa = 0)) as [-> |Hne]; [apply Z.bits_0|]. apply Z.bits_above_log2; [lia|].
    apply Z.lt_le_trans with 52; [|done]. apply Z.log2_lt_pow2; lia.
Qed.

Lemma frame_mask_bit k : 0 <= k -> Z.testbit PAGE_FRAME_MASK k = bool_decide (12 <= k < 52).
Proof.
  intros Hk. change PAGE_FRAME_MASK with (Z.ones 40 .<< 12).
  rewrite Z.shiftl_spec by lia. case_bool_decide as Hb.
  - rewrite Z.ones_spec_low; [done|lia].
  - destruct (decide (k < 12)); [apply Z.testbit_neg_r; lia|]. apply Z.ones_spec_high. lia.
Qed.

(** Flags outside the frame number leave the frame alone. *)
Definition flag_bits (f : Z) : Prop := forall k, 12 <= k < 52 -> Z.testbit f k = false.

Lemma entry_frame pa f : page_frame pa -> flag_bits f -> (pa .| f) .& PAGE_FRAME_MASK = pa.
Proof.
  intros Hpa Hf. apply Z.bits_inj'. intros k Hk. rewrite Z.land_spec, Z.lor_spec, frame_mask_bit by done.
  case_bool_decide as Hb; [rewrite Hf, orb_false_r, andb_true_r by done; done|].
  rewrite andb_false_r. symmetry. apply page_frame_bits; [done|]. lia.
Qed.

Lemma entry_flag pa f k :
  page_frame pa -> 0 <= k -> k < 12 \/ 52 <= k -> has (pa .| f) (1 .<< k) = has f (1 .<< k).
Proof.
  intros Hpa Hk Hb. rewrite !has_bit, Z.lor_spec by done. by rewrite page_frame_bits.
Qed.

(** Whatever is stored, the frame of an entry is a page. *)
Lemma frame_is_page e : page_frame (e .& PAGE_FRAME_MASK).
Proof.
  assert (E : e .& PAGE_FRAME_MASK = ((e .>> 12) mod 2 ^ 40) * 2 ^ 12).
  { rewrite <- Z.land_ones, <- Z.shiftl_mul_pow2 by lia. apply Z.bits_inj'. intros k Hk.
    rewrite Z.land_spec, frame_mask_bit, Z.shiftl_spec by done. case_bool_decide as Hb.
    - rewrite Z.land_spec, Z.shiftr_spec, Z.ones_spec_low, !andb_true_r by lia. f_equal. lia.
    - rewrite andb_false_r. symmetry. destruct (decide (k < 12)); [apply Z.testbit_neg_r; lia|].
      rewrite Z.land_spec, Z.ones_spec_high, andb_false_r by lia. done. }
  rewrite E. pose proof (Z.mod_pos_bound (e .>> 12) (2 ^ 40) ltac:(lia)).
  split; [lia|]. change 4096 with (2 ^ 12). by apply Z.mod_mul.
Qed.

(** ** Permissions *)

Lemma valid_permissions p :
  validate_permissions p = PAGING_STATUS_OK -> p ∈ [0; 1; 2; 4; 5; 6; 8; 9; 10].
Proof.
  intros Hv. assert (Hr : 0 <= p < 16).
  { unfold validate_permissions in Hv.
    destruct (has p (Z.lnot _)) eqn:Hh; [done|]. unfold has in Hh. apply negb_false_iff, Z.eqb_eq in Hh.
    change (((PAGING_WRITE .| PAGING_EXECUTE) .| PAGING_UNCACHED) .| PAGING_WRITE_COMBINING)
      with (Z.ones 4) in Hh.
    assert (p = p .& Z.ones 4) as ->.
    { apply Z.bits_inj'. intros n Hn. rewrite Z.land_spec.
      assert (Hb : Z.testbit (p .& Z.lnot (Z.ones 4)) n = false) by (rewrite Hh; apply Z.bits_0).
      rewrite Z.land_spec, Z.lnot_spec in Hb by done.
      destruct (Z.testbit p n), (Z.testbit (Z.ones 4) n); done. }
    rewrite Z.land_ones by lia. apply Z.mod_pos_bound. lia. }
  assert (Hin : p ∈ seqZ 0 16) by (apply elem_of_seqZ; lia).
  revert Hv. clear Hr. revert Hin. vm_compute seqZ.
  rewrite !elem_of_cons. intros Hin.
  repeat (destruct Hin as [-> |Hin]; [vm_compute; intros ?; (done || set_solver)|]).
  by apply elem_of_nil in Hin.
Qed.

(** A PAT whose entries 0, 1 and 3 are what [paging_initialize] installs. *)
Definition pat_ok (pat : Z) : Prop :=
  pat_entry pat 0 = PAT_TYPE_WRITE_BACK /\ pat_entry pat 1 = PAT_TYPE_WRITE_COMBINING /\
  pat_entry pat 3 = PAT_TYPE_UNCACHEABLE.

(** The memory type a permission set asks for. *)
Definition requested_type (p : Z) : paging_memory_type :=
  if has p PAGING_UNCACHED then PAGING_MEMORY_UNCACHEABLE
  else if has p PAGING_WRITE_COMBINING then PAGING_MEMORY_WRITE_COMBINING
  else PAGING_MEMORY_WRITE_BACK.

(** The leaf entry [map_range] writes for a 4 KiB page. *)
Definition leaf (pa p : Z) : Z := pa .| permissions_to_flags p.

Lemma leaf_fields pa p :
  page_frame pa -> validate_permissions p = PAGING_STATUS_OK ->
  leaf pa p .& PAGE_FRAME_MASK = pa /\ has (leaf pa p) PAGE_PRESENT = true /\
  has (leaf pa p) PAGE_WRITABLE = has p PAGING_WRITE /\
  has (leaf pa p) PAGE_NO_EXECUTE = negb (has p PAGING_EXECUTE) /\
  has (leaf pa p) PAGE_USER = false /\ has (leaf pa p) PAGE_HUGE = false /\
  has (leaf pa p) PAGE_WRITE_THROUGH = has p PAGING_UNCACHED || has p PAGING_WRITE_COMBINING /\
  has (leaf pa p) PAGE_CACHE_DISABLE = has p PAGING_UNCACHED.
Proof.
  intros Hpa Hp%valid_permissions. unfold leaf.
  assert (Hf : flag_bits (permissions_to_flags p)).
  { intros k Hk. rewrite !elem_of_cons in Hp.
    assert (Hgen : forall f, Z.ldiff f (Z.lor (Z.ones 12) (2 ^ 63)) = 0 -> Z.testbit f k = false).
    { intros f Hd. assert (Hb : Z.testbit (Z.ldiff f (Z.lor (Z.ones 12) (2 ^ 63))) k = false)
        by (rewrite Hd; apply Z.bits_0).
      rewrite Z.ldiff_spec, Z.lor_spec, Z.ones_spec_high, Z.pow2_bits_false in Hb by lia.
      by rewrite andb_true_r in Hb. }
    repeat (destruct Hp as [-> |Hp]; [apply Hgen; reflexivity|]). by apply elem_of_nil in Hp. }
  split; [by apply entry_frame|]. clear Hf.
  unfold PAGE_PRESENT, PAGE_WRITABLE, PAGE_NO_EXECUTE, PAGE_USER, PAGE_HUGE, PAGE_WRITE_THROUGH,
    PAGE_CACHE_DISABLE.
  rewrite !entry_flag by (done || lia). rewrite !elem_of_cons in Hp.
  repeat (destruct Hp as [-> |Hp]; [vm_compute; done|]). by apply elem_of_nil in Hp.
Qed.

Lemma leaf_type pa p pat :
  page_frame pa -> validate_permissions p = PAGING_STATUS_OK -> pat_ok pat ->
  leaf_memory_type (leaf pa p) 1 pat = requested_type p.
Proof.
  intros Hpa Hp (H0 & H1 & H3).
  destruct (leaf_fields pa p Hpa Hp) as (_ & _ & _ & _ & _ & Hh & Hwt & Hcd).
  unfold leaf_memory_type, leaf_pat_index. cbn [Nat.eqb]. rewrite Hh, Hwt, Hcd. unfold requested_type.
  apply valid_permissions in Hp. rewrite !elem_of_cons in Hp.
  repeat (destruct Hp as [-> |Hp];
    [match goal with |- context [pat_entry pat ?i] =>
       let j := eval vm_compute in i in change i with j end;
     rewrite ?H0, ?H1, ?H3; reflexivity|]). by apply elem_of_nil in Hp.
Qed.

Lemma page_lor pa x : page_frame pa -> 0 <= x < 4096 -> pa .| x = pa + x.
Proof.
  intros Hpa Hx. rewrite Z.add_nocarry_lxor; [symmetry; apply Z.lxor_lor|];
    apply Z.bits_inj'; intros k Hk; rewrite Z.land_spec, Z.bits_0;
    (destruct (decide (k < 12)); [by rewrite page_frame_bits by (done || lia)|]);
    (destruct (decide (x = 0)) as [-> |]; [by rewrite Z.bits_0, andb_false_r|]);
    (rewrite (Z.bits_above_log2 x k); [apply andb_false_r|lia|]);
    (apply Z.lt_le_trans with 12; [apply Z.log2_lt_pow2; [lia|]; change (2 ^ 12) with 4096; lia|lia]).
Qed.

(** The address a 4 KiB leaf translates to. *)
Lemma fill_physical e va w x u pat :
  physical_address (fill_translation e va 1 w x u pat) = (e .& PAGE_FRAME_MASK) + va mod 4096.
Proof.
  unfold fill_translation. cbn [physical_address]. change (level_page_size 1 - 1) with (2 ^ 12 - 1).
  pose proof (frame_is_page e) as Hpa. pose proof Hpa as [Hb Hm].
  rewrite land_not64 by (unfold fits; lia). rewrite land_mask by lia. change (2 ^ 12) with 4096.
  rewrite Hm, Z.sub_0_r. apply page_lor; [done|]. by apply Z.mod_pos_bound.
Qed.

(** A leaf translates to what it was asked for. *)
Lemma leaf_translation pa p va pat :
  page_frame pa -> validate_permissions p = PAGING_STATUS_OK -> pat_ok pat ->
  fill_translation (leaf pa p) va 1 (has (leaf pa p) PAGE_WRITABLE)
    (negb (has (leaf pa p) PAGE_NO_EXECUTE)) false pat =
  Translation (pa + va mod 4096) p (requested_type p) 1 false.
Proof.
  intros Hpa Hp Hpat. destruct (leaf_fields pa p Hpa Hp) as (Hf & _ & Hw & Hx & _).
  pose proof (fill_physical (leaf pa p) va (has p PAGING_WRITE) (has p PAGING_EXECUTE) false pat) as Hph.
  rewrite Hw, Hx, negb_involutive. rewrite Hf in Hph. rewrite <- Hph. unfold fill_translation.
  rewrite leaf_type by done. cbn [physical_address]. f_equal.
  apply valid_permissions in Hp. rewrite !elem_of_cons in Hp.
  repeat (destruct Hp as [-> |Hp]; [reflexivity|]). by apply elem_of_nil in Hp.
Qed.

(** ** Addresses

    [prefix va l] are the bits of [va] above the index of level [l]: they name the
    table of level [l] that translates it. *)

Definition prefix (va : Z) (l : nat) : Z := (va mod 2 ^ 48) / 2 ^ (12 + 9 * Z.of_nat l).

Lemma table_index_alt va l : (1 <= l)%nat -> table_index va l = (va / 2 ^ level_shift l) mod 512.
Proof.
  intros Hl. unfold table_index. rewrite Z.shiftr_div_pow2 by (unfold level_shift; lia).
  change (PAGING_ENTRIES_PER_TABLE - 1) with (2 ^ 9 - 1). by rewrite land_mask.
Qed.

Lemma table_index_range va l : 0 <= table_index va l < 512.
Proof.
  unfold table_index. change (PAGING_ENTRIES_PER_TABLE - 1) with (2 ^ 9 - 1).
  rewrite land_mask by lia. by apply Z.mod_pos_bound.
Qed.

Lemma prefix_step va l :
  (l < 4)%nat -> prefix va l = prefix va (S l) * 512 + table_index va (S l).
Proof.
  intros Hl. rewrite table_index_alt by lia. unfold prefix, level_shift.
  set (k := 12 + 9 * Z.of_nat l). set (r := va mod 2 ^ 48).
  replace (12 + 9 * (Z.of_nat (S l) - 1)) with k by lia.
  replace (12 + 9 * Z.of_nat (S l)) with (k + 9) by lia.
  assert (Hk : 12 <= k <= 39) by lia.
  assert (E : (va / 2 ^ k) mod 512 = (r / 2 ^ k) mod 512).
  { assert (va = r + (va / 2 ^ 48 * 2 ^ (39 - k) * 512) * 2 ^ k) as ->.
    { unfold r. rewrite (Z.div_mod va (2 ^ 48)) at 1 by lia.
      replace (2 ^ 48) with (2 ^ (39 - k) * 512 * 2 ^ k) at 1; [lia|].
      change 512 with (2 ^ 9). rewrite <- !Z.pow_add_r by lia. f_equal. lia. }
    rewrite Z.div_add by lia. by rewrite Z.mod_add by lia. }
  rewrite E, Z.pow_add_r by lia. rewrite <- Z.div_div by lia. change (2 ^ 9) with 512.
  rewrite (Z.div_mod (r / 2 ^ k) 512) at 1 by lia. lia.
Qed.

Lemma prefix_top va : prefix va 4 = 0.
Proof.
  unfold prefix. change (2 ^ (12 + 9 * Z.of_nat 4)) with (2 ^ 48).
  apply Z.div_small. apply Z.mod_pos_bound. lia.
Qed.

Lemma canonical_range va :
  address_is_canonical va = true <-> 0 <= va < 2 ^ 47 \/ 2 ^ 64 - 2 ^ 47 <= va < 2 ^ 64.
Proof.
  unfold address_is_canonical. rewrite Z.shiftr_div_pow2 by lia. rewrite orb_true_iff, !Z.eqb_eq.
  change (2 ^ 47) with 140737488355328. change (2 ^ 64) with 18446744073709551616. div_lia.
Qed.

(** Distinct pages have distinct prefixes. *)
Lemma prefix_page va va' :
  address_is_canonical va = true -> address_is_canonical va' = true ->
  va mod 4096 = 0 -> va' mod 4096 = 0 -> prefix va 0 = prefix va' 0 -> va = va'.
Proof.
  rewrite !canonical_range. unfold prefix. change (2 ^ (12 + 9 * Z.of_nat 0)) with 4096.
  change (2 ^ 48) with 281474976710656. change (2 ^ 47) with 140737488355328.
  change (2 ^ 64) with 18446744073709551616. div_lia.
Qed.

Lemma entry_at_inj a b i j :
  a mod 4096 = 0 -> b mod 4096 = 0 -> 0 <= i < 512 -> 0 <= j < 512 ->
  entry_at a i = entry_at b j -> a = b /\ i = j.
Proof. unfold entry_at. div_lia. Qed.

(** ** The tree of tables *)

Definition entry (m : memory) (t i : Z) : Z := word m (entry_at t i).

(** The entry points to a table. *)
Definition points (e : Z) : bool := has e PAGE_PRESENT && negb (has e PAGE_HUGE).

Definition frame_of (e : Z) : Z := e .& PAGE_FRAME_MASK.

(** A frame that was allocated on its own, as the frames of tables are. *)
Definition table_page (s : frames) (g : Z) : Prop :=
  allocated_page s g /\ frame_in_contiguous_allocation s (g / RSD_PAGE_SIZE) = false.

Abbreviation tables := (gmap Z (nat * Z)).

Record tree_ok (h : hierarchy) (m : memory) (T : tables) : Prop := {
  tree_root : T !! root h = Some (4%nat, 0);
  tree_table a l p : T !! a = Some (l, p) ->
    (1 <= l <= 4)%nat /\ 0 <= a < 2 ^ 32 /\ a mod 4096 = 0 /\ 0 <= p < 512 ^ (4 - Z.of_nat l) /\
    table_page (frame_state m) a;
  tree_down a l p i : T !! a = Some (S (S l), p) -> 0 <= i < 512 -> points (entry m a i) = true ->
    T !! frame_of (entry m a i) = Some (S l, p * 512 + i);
  tree_up a l p : T !! a = Some (l, p) -> a <> root h ->
    exists b, T !! b = Some (S l, p / 512) /\ points (entry m b (p mod 512)) = true /\
      frame_of (entry m b (p mod 512)) = a;
  tree_plain a l p i : T !! a = Some (S (S l), p) -> 0 <= i < 512 -> points (entry m a i) = true ->
    has (entry m a i) PAGE_WRITABLE = true /\ has (entry m a i) PAGE_NO_EXECUTE = false /\
    has (entry m a i) PAGE_USER = false;
  tree_count : table_frames h = u64 (Z.of_nat (base.size T))
}.

Lemma tree_level_up h m T a l p :
  tree_ok h m T -> T !! a = Some (l, p) -> a <> root h -> (l < 4)%nat.
Proof.
  intros Ht Ha Hr. destruct (tree_up _ _ _ Ht a l p Ha Hr) as (b & Hb & _).
  destruct (tree_table _ _ _ Ht b _ _ Hb) as [Hl _]. lia.
Qed.

(** A level and a prefix name at most one table. *)
Lemma tree_unique h m T a b l p :
  tree_ok h m T -> T !! a = Some (l, p) -> T !! b = Some (l, p) -> a = b.
Proof.
  intros Ht. remember (4 - l)%nat as d eqn:Hd. revert a b l p Hd.
  induction d as [|d IH]; intros a b l p Hd Ha Hb.
  - destruct (decide (a = root h)) as [-> |Hra]; [destruct (decide (b = root h)) as [-> |Hrb]; [done|]|].
    + pose proof (tree_level_up _ _ _ b l p Ht Hb Hrb). lia.
    + pose proof (tree_level_up _ _ _ a l p Ht Ha Hra). lia.
  - assert (Hnr : forall c, T !! c = Some (l, p) -> c <> root h).
    { intros c Hc ->. rewrite (tree_root _ _ _ Ht) in Hc. injection Hc as <- <-. lia. }
    destruct (tree_up _ _ _ Ht a l p Ha (Hnr a Ha)) as (a' & Ha' & _ & <-).
    destruct (tree_up _ _ _ Ht b l p Hb (Hnr b Hb)) as (b' & Hb' & _ & <-).
    by rewrite (IH a' b' (S l) (p / 512) ltac:(lia) Ha' Hb').
Qed.

(** The map is determined by the memory. *)
Lemma tree_subset h m T T' : tree_ok h m T -> tree_ok h m T' -> T ⊆ T'.
Proof.
  intros Ht Ht'. apply map_subseteq_spec. intros a [l p].
  remember (4 - l)%nat as d eqn:Hd. revert a l p Hd. induction d as [|d IH]; intros a l p Hd Ha.
  - destruct (decide (a = root h)) as [-> |Hr].
    { rewrite (tree_root _ _ _ Ht) in Ha. injection Ha as <- <-. apply (tree_root _ _ _ Ht'). }
    pose proof (tree_level_up _ _ _ a l p Ht Ha Hr). lia.
  - assert (Hr : a <> root h).
    { intros ->. rewrite (tree_root _ _ _ Ht) in Ha. injection Ha as <- <-. lia. }
    destruct (tree_up _ _ _ Ht a l p Ha Hr) as (b & Hb & Hp & Hf).
    destruct (tree_table _ _ _ Ht a l p Ha) as ((Hl & _) & _ & _ & Hpr & _).
    pose proof (IH b (S l) (p / 512) ltac:(lia) Hb) as Hb'.
    destruct l as [|l]; [lia|].
    pose proof (tree_down _ _ _ Ht' b l (p / 512) (p mod 512) Hb'
      (Z.mod_pos_bound p 512 ltac:(lia)) Hp) as Hd'.
    rewrite Hf in Hd'. rewrite Hd'. f_equal. f_equal. div_lia.
Qed.

Lemma tree_same h m T T' : tree_ok h m T -> tree_ok h m T' -> T = T'.
Proof. intros Ht Ht'. apply (anti_symm (⊆)); by eapply tree_subset. Qed.

(** ** Reading after writing *)

Lemma zero_words_lookup n a w b :
  zero_words n a w !! b =
    if bool_decide (a <= b < a + 8 * Z.of_nat n /\ (b - a) mod 8 = 0) then Some 0 else w !! b.
Proof.
  revert a w. induction n as [|n IH]; intros a w; cbn [zero_words].
  { rewrite bool_decide_false; [done|]. intros [? _]. lia. }
  rewrite IH. case_bool_decide as H1; case_bool_decide as H2; try done.
  - exfalso. div_lia.
  - destruct (decide (a = b)) as [-> |]; [apply lookup_insert_eq|]. exfalso. div_lia.
  - apply lookup_insert_ne. intros ->. apply H2. split; [lia|].
    by rewrite Z.sub_diag.
Qed.

Lemma entry_zero t m i : 0 <= i < 512 -> entry (zero_table t m) t i = 0.
Proof.
  intros Hi. unfold entry, word, zero_table. cbn [words set_words].
  rewrite zero_words_lookup, bool_decide_true; [done|]. unfold entry_at.
  change (Z.of_nat (Z.to_nat PAGING_ENTRIES_PER_TABLE)) with 512. div_lia.
Qed.

Lemma entry_zero_ne t t' m i :
  t mod 4096 = 0 -> t' mod 4096 = 0 -> t <> t' -> 0 <= i < 512 ->
  entry (zero_table t m) t' i = entry m t' i.
Proof.
  intros Ht Ht' Hne Hi. unfold entry, word, zero_table. cbn [words set_words].
  rewrite zero_words_lookup, bool_decide_false; [done|]. unfold entry_at.
  change (Z.of_nat (Z.to_nat PAGING_ENTRIES_PER_TABLE)) with 512. div_lia.
Qed.

Lemma entry_set t i v m : entry (set_word (entry_at t i) v m) t i = v.
Proof. unfold entry, word, set_word. cbn [words set_words]. by rewrite lookup_insert_eq. Qed.

Lemma entry_set_ne t i v m t' j :
  t mod 4096 = 0 -> t' mod 4096 = 0 -> 0 <= i < 512 -> 0 <= j < 512 -> (t, i) <> (t', j) ->
  entry (set_word (entry_at t i) v m) t' j = entry m t' j.
Proof.
  intros Ht Ht' Hi Hj Hne. unfold entry, word, set_word. cbn [words set_words].
  rewrite lookup_insert_ne; [done|]. intros E. apply Hne.
  destruct (entry_at_inj t t' i j) as [-> ->]; done.
Qed.

(** ** Translations *)

(** One step of the walk, at the table that translates [va]. *)
Lemma translate_walk_unfold n t va w x u pat m :
  translate_walk n t va w x u pat m =
    let e := entry m t (table_index va (S n)) in
    if negb (has e PAGE_PRESENT) then (PAGING_STATUS_NOT_MAPPED, no_translation)
    else
      let w := w && has e PAGE_WRITABLE in
      let x := x && negb (has e PAGE_NO_EXECUTE) in
      let u := u && has e PAGE_USER in
      match n with
      | O => (PAGING_STATUS_OK, fill_translation e va 1 w x u pat)
      | S n' =>
          if has e PAGE_HUGE then (PAGING_STATUS_OK, fill_translation e va (S n) w x u pat)
          else translate_walk n' (frame_of e) va w x u pat m
      end.
Proof. by destruct n. Qed.

Lemma absent_walk n t va w x u pat m :
  has (entry m t (table_index va (S n))) PAGE_PRESENT = false ->
  translate_walk n t va w x u pat m = (PAGING_STATUS_NOT_MAPPED, no_translation).
Proof. intros He. rewrite translate_walk_unfold. cbv zeta. by rewrite He. Qed.

Lemma points_spec e : points e = true <-> has e PAGE_PRESENT = true /\ has e PAGE_HUGE = false.
Proof. unfold points. by rewrite andb_true_iff, negb_true_iff. Qed.

(** The table below an entry that points. *)
Lemma tree_child h m T t n va :
  tree_ok h m T -> T !! t = Some (S (S n), prefix va (S (S n))) ->
  points (entry m t (table_index va (S (S n)))) = true ->
  T !! frame_of (entry m t (table_index va (S (S n)))) = Some (S n, prefix va (S n)).
Proof.
  intros Ht HT Hp. destruct (tree_table _ _ _ Ht t _ _ HT) as (Hl & _).
  rewrite (tree_down _ _ _ Ht t n _ _ HT (table_index_range va _) Hp).
  by rewrite (prefix_step va (S n)) by lia.
Qed.

(** Translation reads one entry per level, that of the table with the address's
    prefix: memories that agree there translate alike. *)
Lemma translate_walk_same h m m' T n t va w x u pat :
  tree_ok h m T -> T !! t = Some (S n, prefix va (S n)) ->
  (forall a l, T !! a = Some (l, prefix va l) -> (l <= S n)%nat ->
     entry m' a (table_index va l) = entry m a (table_index va l)) ->
  translate_walk n t va w x u pat m' = translate_walk n t va w x u pat m.
Proof.
  intros Ht. revert t w x u. induction n as [|n IH]; intros t w x u HT Hs;
    rewrite !(translate_walk_unfold _ t); cbv zeta; rewrite (Hs t _ HT ltac:(lia)).
  - done.
  - destruct (has _ PAGE_PRESENT) eqn:Hp; [|done]. cbn [negb]. destruct (has _ PAGE_HUGE) eqn:Hh; [done|].
    apply IH; [|intros a l Ha Hl; apply Hs; [done|lia]].
    apply (tree_child h m T); [done|done|]. by apply points_spec.
Qed.

(** Hanging an empty table under an absent entry changes no translation. *)
Lemma translate_walk_grow h m m' T a i next n t va w x u pat :
  tree_ok h m T -> T !! t = Some (S n, prefix va (S n)) ->
  (exists l p, T !! a = Some (S (S l), p)) -> has (entry m a i) PAGE_PRESENT = false ->
  points (entry m' a i) = true -> frame_of (entry m' a i) = next ->
  (forall j, 0 <= j < 512 -> entry m' next j = 0) ->
  (forall b l p j, T !! b = Some (l, p) -> 0 <= j < 512 -> (a, i) <> (b, j) -> entry m' b j = entry m b j) ->
  translate_walk n t va w x u pat m' = translate_walk n t va w x u pat m.
Proof.
  intros Ht HT (la & pa & Ha) Habs [Hpr Hnh]%points_spec Hf Hz Hother. revert t w x u HT.
  induction n as [|n IH]; intros t w x u HT; rewrite !(translate_walk_unfold _ t); cbv zeta;
    match goal with |- context [table_index va ?l] =>
      destruct (decide ((a, i) = (t, table_index va l))) as [E|Hne] end.
  - injection E as -> _. rewrite Ha in HT. by simplify_eq.
  - by rewrite (Hother t _ _ _ HT (table_index_range _ _) Hne).
  - injection E as -> ->. rewrite Habs, Hpr, Hnh, Hf. cbn [negb]. apply absent_walk.
    by rewrite Hz, has_zero by apply table_index_range.
  - rewrite (Hother t _ _ _ HT (table_index_range _ _) Hne).
    destruct (has (entry m t (table_index va (S (S n)))) PAGE_PRESENT) eqn:Hp; [|done]. cbn [negb].
    destruct (has (entry m t (table_index va (S (S n)))) PAGE_HUGE) eqn:Hh; [done|].
    apply IH. apply (tree_child h m T); [done|done|]. by apply points_spec.
Qed.

(** Taking away an entry that points to an empty table changes no translation. *)
Lemma translate_walk_prune h m m' T a i n t va w x u pat :
  tree_ok h m T -> T !! t = Some (S n, prefix va (S n)) ->
  (exists l p, T !! a = Some (S (S l), p)) -> points (entry m a i) = true ->
  (forall j, 0 <= j < 512 -> has (entry m (frame_of (entry m a i)) j) PAGE_PRESENT = false) ->
  entry m' a i = 0 ->
  (forall b l p j, T !! b = Some (l, p) -> 0 <= j < 512 -> (a, i) <> (b, j) -> entry m' b j = entry m b j) ->
  translate_walk n t va w x u pat m' = translate_walk n t va w x u pat m.
Proof.
  intros Ht HT (la & pa & Ha) [Hpr Hnh]%points_spec Hempty Hz Hother. revert t w x u HT.
  induction n as [|n IH]; intros t w x u HT; rewrite !(translate_walk_unfold _ t); cbv zeta;
    match goal with |- context [table_index va ?l] =>
      destruct (decide ((a, i) = (t, table_index va l))) as [E|Hne] end.
  - injection E as -> _. rewrite Ha in HT. by simplify_eq.
  - by rewrite (Hother t _ _ _ HT (table_index_range _ _) Hne).
  - injection E as -> ->. rewrite Hz, has_zero, Hpr, Hnh. cbn [negb]. symmetry. apply absent_walk.
    apply Hempty, table_index_range.
  - rewrite (Hother t _ _ _ HT (table_index_range _ _) Hne).
    destruct (has (entry m t (table_index va (S (S n)))) PAGE_PRESENT) eqn:Hp; [|done]. cbn [negb].
    destruct (has (entry m t (table_index va (S (S n)))) PAGE_HUGE) eqn:Hh; [done|].
    apply IH. apply (tree_child h m T); [done|done|]. by apply points_spec.
Qed.

(** ** Growing and pruning the tree *)

Lemma frame_of_0 : frame_of 0 = 0.
Proof. apply Z.land_0_l. Qed.

Lemma points_0 : points 0 = false.
Proof. done. Qed.

(** The entry that points to a new table. *)
Lemma interior_entry t :
  page_frame t -> let e := (t .| PAGE_PRESENT) .| PAGE_WRITABLE in
  points e = true /\ frame_of e = t /\ has e PAGE_WRITABLE = true /\
  has e PAGE_NO_EXECUTE = false /\ has e PAGE_USER = false.
Proof.
  intros Ht. cbv zeta. rewrite <- Z.lor_assoc. change (PAGE_PRESENT .| PAGE_WRITABLE) with 3.
  assert (Hf : flag_bits 3).
  { intros k Hk. apply Z.bits_above_log2; [done|]. change (Z.log2 3) with 1. lia. }
  unfold points, frame_of. rewrite (entry_frame t 3 Ht Hf).
  unfold PAGE_PRESENT, PAGE_HUGE, PAGE_WRITABLE, PAGE_NO_EXECUTE, PAGE_USER.
  rewrite !entry_flag by (done || lia). done.
Qed.

(** What changes only leaves, and forgets no allocated frame, keeps the tree. *)
Lemma tree_ok_leaves h h' m m' T :
  tree_ok h m T -> root h' = root h -> table_frames h' = table_frames h ->
  (forall g, table_page (frame_state m) g -> table_page (frame_state m') g) ->
  (forall a l p i, T !! a = Some (S (S l), p) -> 0 <= i < 512 -> entry m' a i = entry m a i) ->
  tree_ok h' m' T.
Proof.
  intros Ht Hr Hc Hal Hs. split.
  - rewrite Hr. apply (tree_root _ _ _ Ht).
  - intros a l p Ha. destruct (tree_table _ _ _ Ht a l p Ha) as (? & ? & ? & ? & ?). split_and!; try done; try lia. by apply Hal.
  - intros a l p i Ha Hi. rewrite (Hs a l p i Ha Hi). by apply (tree_down _ _ _ Ht).
  - intros a l p Ha Hra. rewrite Hr in Hra. destruct (tree_up _ _ _ Ht a l p Ha Hra) as (b & Hb & Hp & Hf).
    destruct (tree_table _ _ _ Ht a l p Ha) as ((Hl & _) & _). destruct l as [|l]; [lia|].
    exists b. rewrite (Hs b l _ _ Hb (Z.mod_pos_bound p 512 ltac:(lia))). done.
  - intros a l p i Ha Hi. rewrite (Hs a l p i Ha Hi). by apply (tree_plain _ _ _ Ht a l p).
  - rewrite Hc. apply (tree_count _ _ _ Ht).
Qed.

Section Grow.
Context (h h' : hierarchy) (m m' : memory) (T : tables) (a p i next : Z) (l : nat).
Hypothesis Ht : tree_ok h m T.
Hypothesis Ha : T !! a = Some (S (S l), p).
Hypothesis Hi : 0 <= i < 512.
Hypothesis Habs : has (entry m a i) PAGE_PRESENT = false.
Hypothesis Hnew : T !! next = None /\ 0 <= next < 2 ^ 32 /\ next mod 4096 = 0 /\
  table_page (frame_state m') next.
Hypothesis Hh : root h' = root h /\ table_frames h' = u64 (table_frames h + 1).
Hypothesis Halloc : forall g, table_page (frame_state m) g -> table_page (frame_state m') g.
Hypothesis Hentry : entry m' a i = (next .| PAGE_PRESENT) .| PAGE_WRITABLE.
Hypothesis Hzero : forall j, 0 <= j < 512 -> entry m' next j = 0.
Hypothesis Hother : forall b l p j, T !! b = Some (l, p) -> 0 <= j < 512 -> (a, i) <> (b, j) ->
  entry m' b j = entry m b j.
Let T' : tables := <[next := (S l, p * 512 + i)]> T.

Lemma grow_old b x : T !! b = Some x -> T' !! b = Some x.
Proof. intros Hb. unfold T'. rewrite lookup_insert_ne; [done|]. intros <-. by destruct Hnew as [E _]; rewrite E in Hb. Qed.

Lemma grow_cases b x : T' !! b = Some x -> (b = next /\ x = (S l, p * 512 + i)) \/ T !! b = Some x.
Proof. unfold T'. intros [[<- <-]|[_ ?]]%lookup_insert_Some; [by left|by right]. Qed.

Lemma grow_entry b lb pb j :
  T !! b = Some (S (S lb), pb) -> 0 <= j < 512 ->
  (b = a /\ j = i /\ entry m' b j = (next .| PAGE_PRESENT) .| PAGE_WRITABLE) \/
  ((a, i) <> (b, j) /\ entry m' b j = entry m b j).
Proof.
  intros Hb Hj. destruct (decide ((a, i) = (b, j))) as [[= <- <-]|Hne]; [by left|right].
  split; [done|]. by eapply Hother.
Qed.

Lemma grow_page : page_frame next.
Proof. destruct Hnew as (_ & Hb & Hm & _). split; [lia|done]. Qed.

Lemma grow_ok : tree_ok h' m' T'.
Proof.
  destruct (interior_entry next grow_page) as (Hp & Hf & Hw & Hx & Hu).
  destruct (tree_table _ _ _ Ht a _ _ Ha) as (Hl & _ & _ & Hpr & _).
  destruct Hnew as (Hno & Hnb & Hnm & Hna). split.
  - rewrite (proj1 Hh). apply grow_old, (tree_root _ _ _ Ht).
  - intros b lb pb [[-> [= -> ->]]|Hb]%grow_cases.
    + split_and!; try done; try lia.
      replace (4 - Z.of_nat (S l)) with (Z.succ (4 - Z.of_nat (S (S l)))) by lia.
      rewrite Z.pow_succ_r by lia. lia.
    + destruct (tree_table _ _ _ Ht b lb pb Hb) as (? & ? & ? & ? & ?). split_and!; try done; try lia. by apply Halloc.
  - intros b lb pb j [[-> [= E ->]]|Hb]%grow_cases Hj.
    + by rewrite Hzero, points_0.
    + destruct (grow_entry b lb pb j Hb Hj) as [(-> & -> & ->)|[Hne ->]]; intros Hpt.
      * rewrite Hf. unfold T'. rewrite lookup_insert_eq. rewrite Ha in Hb. by simplify_eq.
      * apply grow_old. by apply (tree_down _ _ _ Ht).
  - intros b lb pb [[-> [= -> ->]]|Hb]%grow_cases Hrb.
    + exists a. replace ((p * 512 + i) / 512) with p by div_lia.
      replace ((p * 512 + i) mod 512) with i by div_lia. rewrite Hentry. split_and!; [by apply grow_old|done|done].
    + rewrite (proj1 Hh) in Hrb. destruct (tree_up _ _ _ Ht b lb pb Hb Hrb) as (c & Hc & Hpt & Hfr).
      destruct (tree_table _ _ _ Ht b lb pb Hb) as ((Hlb & _) & _).
      exists c. rewrite (Hother c _ _ (pb mod 512) Hc (Z.mod_pos_bound pb 512 ltac:(lia))).
      * split_and!; [by apply grow_old|done|done].
      * intros [= <- E]. rewrite E in Habs. apply points_spec in Hpt as [Hpt _]. congruence.
  - intros b lb pb j [[-> [= E ->]]|Hb]%grow_cases Hj.
    + by rewrite Hzero, points_0.
    + destruct (grow_entry b lb pb j Hb Hj) as [(-> & -> & ->)|[Hne ->]]; intros Hpt; [done|].
      by apply (tree_plain _ _ _ Ht b lb pb).
  - rewrite (proj2 Hh), (tree_count _ _ _ Ht). unfold T'. rewrite map_size_insert_None by done.
    unfold wrap. rewrite Z.add_mod_idemp_l by done. f_equal. lia.
Qed.

Lemma grow_translates n t va w x u pat :
  T !! t = Some (S n, prefix va (S n)) ->
  translate_walk n t va w x u pat m' = translate_walk n t va w x u pat m.
Proof.
  intros HT. destruct (interior_entry next grow_page) as (Hp & Hf & _).
  apply (translate_walk_grow h m m' T a i next); try done; [by exists l, p|by rewrite Hentry|by rewrite Hentry].
Qed.
End Grow.

Section Prune.
Context (h h' : hierarchy) (m m' : memory) (T : tables) (t a q : Z) (l : nat).
Hypothesis Ht : tree_ok h m T.
Hypothesis HT : T !! t = Some (S l, q).
Hypothesis Hnr : t <> root h.
Hypothesis Ha : T !! a = Some (S (S l), q / 512).
Hypothesis Hpt : points (entry m a (q mod 512)) = true.
Hypothesis Hfr : frame_of (entry m a (q mod 512)) = t.
Hypothesis Hempty : forall j, 0 <= j < 512 -> has (entry m t j) PAGE_PRESENT = false.
Hypothesis Hh : root h' = root h /\ table_frames h' = u64 (table_frames h - 1).
Hypothesis Halloc : forall g, g <> t -> table_page (frame_state m) g -> table_page (frame_state m') g.
Hypothesis Hentry : entry m' a (q mod 512) = 0.
Hypothesis Hother : forall b l p j, T !! b = Some (l, p) -> 0 <= j < 512 -> (a, q mod 512) <> (b, j) ->
  entry m' b j = entry m b j.

Lemma prune_index : 0 <= q mod 512 < 512.
Proof. by apply Z.mod_pos_bound. Qed.

Lemma prune_parent b lb pb j :
  T !! b = Some (S (S lb), pb) -> 0 <= j < 512 -> points (entry m b j) = true ->
  frame_of (entry m b j) = t -> b = a /\ j = q mod 512.
Proof.
  intros Hb Hj Hp Hf. pose proof (tree_down _ _ _ Ht b lb pb j Hb Hj Hp) as Hd. rewrite Hf, HT in Hd.
  injection Hd as <- ->.
  assert ((pb * 512 + j) mod 512 = j /\ (pb * 512 + j) / 512 = pb) as [-> E] by (split; div_lia).
  split; [|done]. rewrite E in Ha. by eapply tree_unique.
Qed.

Lemma prune_ok : tree_ok h' m' (delete t T).
Proof.
  pose proof prune_index as Hq. split.
  - rewrite (proj1 Hh), lookup_delete_ne by done. apply (tree_root _ _ _ Ht).
  - intros b lb pb [Hne Hb]%lookup_delete_Some.
    destruct (tree_table _ _ _ Ht b lb pb Hb) as (? & ? & ? & ? & ?). split_and!; try done; try lia. by apply Halloc.
  - intros b lb pb j [Hne Hb]%lookup_delete_Some Hj.
    destruct (decide ((a, q mod 512) = (b, j))) as [[= <- <-]|Hab]; [by rewrite Hentry, points_0|].
    rewrite (Hother b _ _ j Hb Hj Hab). intros Hp. rewrite lookup_delete_ne; [by apply (tree_down _ _ _ Ht)|].
    intros E. destruct (prune_parent b lb pb j Hb Hj Hp (eq_sym E)) as [-> ->]. done.
  - intros b lb pb [Hne Hb]%lookup_delete_Some Hrb. rewrite (proj1 Hh) in Hrb.
    destruct (tree_up _ _ _ Ht b lb pb Hb Hrb) as (c & Hc & Hp & Hf).
    pose proof (Z.mod_pos_bound pb 512 ltac:(lia)) as Hpb.
    exists c. rewrite (Hother c _ _ (pb mod 512) Hc Hpb).
    + split_and!; [|done|done]. rewrite lookup_delete_ne; [done|]. intros <-.
      apply points_spec in Hp as [Hp _]. by rewrite Hempty in Hp.
    + intros [= <- E]. rewrite <- E in Hf. congruence.
  - intros b lb pb j [Hne Hb]%lookup_delete_Some Hj.
    destruct (decide ((a, q mod 512) = (b, j))) as [[= <- <-]|Hab]; [by rewrite Hentry, points_0|].
    rewrite (Hother b _ _ j Hb Hj Hab). by apply (tree_plain _ _ _ Ht b lb pb).
  - rewrite (proj2 Hh), (tree_count _ _ _ Ht), map_size_delete_Some by eauto.
    assert (0 < base.size T)%nat.
    { apply Nat.neq_0_lt_0. intros E%map_size_empty_inv. by rewrite E, lookup_empty in HT. }
    unfold wrap. rewrite Zminus_mod_idemp_l. f_equal. lia.
Qed.

Lemma prune_translates n c va w x u pat :
  T !! c = Some (S n, prefix va (S n)) ->
  translate_walk n c va w x u pat m' = translate_walk n c va w x u pat m.
Proof.
  intros Hc. apply (translate_walk_prune h m m' T a (q mod 512)); try done.
  - by exists l, (q / 512).
  - intros j Hj. rewrite Hfr. by apply Hempty.
Qed.
End Prune.

(** ** Allocating and releasing tables *)

(** The tables of [h] are [T], and the allocator behind them is well formed. *)
Definition space_ok (h : hierarchy) (m : memory) (T : tables) : Prop :=
  tree_ok h m T /\ frames_wf (frame_state m) /\ allocator_initialized (frame_state m) = true /\
  arena_capacity h = 0.

(** What a failed or successful allocation leaves alone. *)
Definition same_machine (m m' : memory) : Prop := cr3 m' = cr3 m /\ invalidated m' = invalidated m.

(** Allocating adds one frame to the allocated ones, releasing takes one away. *)
Lemma allocated_take s frame g :
  frames_wf s -> frame_choice s frame ->
  allocated_page (take_frame frame s) g <-> allocated_page s g \/ g = frame * RSD_PAGE_SIZE.
Proof.
  intros Hwf Hc. destruct (take_frame_law s frame Hwf Hc) as (Hk & _ & Hu).
  split; [|intros [Hg| ->]; [by apply Hk|done]].
  intros (H0 & Hm & Ha). destruct (take_frame_window s frame Hwf) as [We Wu].
  destruct (decide (g / RSD_PAGE_SIZE = frame)) as [E|Hne].
  { right. rewrite <- E. unfold RSD_PAGE_SIZE in *. clear -Hm. div_lia. }
  left. split; [done|]. split; [done|]. unfold frame_allocated in *. rewrite We, Wu in Ha.
  by rewrite decide_False in Ha by lia.
Qed.

Lemma take_single s frame :
  frames_wf s -> frame_choice s frame -> table_page (take_frame frame s) (frame * RSD_PAGE_SIZE) /\
  forall g, table_page s g -> table_page (take_frame frame s) g.
Proof.
  intros Hwf Hc. split.
  - split; [apply allocated_take; auto|].
    change (frame_in_contiguous_allocation (take_frame frame s)) with (frame_in_contiguous_allocation s).
    rewrite Z.div_mul by done. destruct (frame_in_contiguous_allocation s frame) eqn:E; [|done].
    apply in_contiguous_iff in E as (i & r & Hi & Ha & Hr). destruct Hc as (_ & Hf & _).
    apply frame_is_free_iff in Hf as [_ Hu].
    pose proof (run_used s r (wf_runs s Hwf i r Hi Ha) frame Hr) as [_ Hu']%allocated_iff. congruence.
  - intros g [Hg Hs]. split; [apply allocated_take; auto|done].
Qed.

Lemma release_single s t :
  frames_wf s -> allocator_initialized s = true -> table_page s t -> t < 2 ^ 32 ->
  let s' := (frame_release t s).2 in
  frames_wf s' /\ allocator_initialized s' = true /\
  (forall g, g <> t -> table_page s g -> table_page s' g) /\
  (forall g, allocated_page s' g <-> allocated_page s g /\ g <> t).
Proof.
  intros Hwf Hi [Ht Hs] Hb. pose proof Ht as (H0 & Hm & Ha).
  assert (Hrel : releasable s t) by (by split_and!).
  destruct (frame_release_cases s t Hi H0) as [[_ E]|[Hno _]]; [|done]. rewrite E. cbn [snd].
  pose proof (fun g => release_law s t g Hwf Hi Ht) as Hl. cbv zeta in Hl. rewrite E in Hl. cbn [snd] in Hl.
  assert (Hc : frame_in_contiguous_allocation (drop_frame (t / RSD_PAGE_SIZE) s) = frame_in_contiguous_allocation s)
    by (unfold drop_frame; by case_match).
  split; [by destruct (Hl 0)|]. split; [by destruct (Hl 0) as (_ & ? & _)|]. split.
  - intros g Hne [Hg Hgs]. split; [by apply (Hl g)|by rewrite Hc].
  - intros g. split; [|intros [Hg Hne]; by apply (Hl g)]. intros (G0 & Gm & Ga).
    destruct (drop_frame_window s (t / RSD_PAGE_SIZE) Hwf) as [We Wu].
    unfold frame_allocated in Ga. rewrite We, Wu in Ga. case_decide as Hd; [by rewrite andb_false_r in Ga|].
    split; [done|]. intros ->. lia.
Qed.

Lemma frame_allocate_law_pages s :
  frames_wf s -> allocator_initialized s = true ->
  (exists next, frame_allocate (Some 0) s = (FRAME_STATUS_OK, Some next, take_frame (next / RSD_PAGE_SIZE) s) /\
     0 <= next < 2 ^ 32 /\ next mod 4096 = 0 /\ ~ allocated_page s next /\
     let s' := take_frame (next / RSD_PAGE_SIZE) s in
     frames_wf s' /\ allocator_initialized s' = true /\ table_page s' next /\
     (forall g, table_page s g -> table_page s' g) /\
     forall g, allocated_page s' g <-> allocated_page s g \/ g = next) \/
  frame_allocate (Some 0) s = (FRAME_STATUS_OUT_OF_MEMORY, Some 0, s).
Proof.
  intros Hwf Hi. destruct (frame_allocate_cases s 0 Hwf Hi) as [(f & Hc & E)|[_ E]]; [left|by right].
  exists (f * RSD_PAGE_SIZE). rewrite Z.div_mul by done.
  destruct (take_frame_law s f Hwf Hc) as (_ & Hn & _). destruct (take_single s f Hwf Hc) as [Hs1 Hs2].
  pose proof (fun g => allocated_take s f g Hwf Hc) as Hal. destruct Hc as (Hb & Hf & _).
  split; [done|]. split.
  { change FRAME_COUNT with 1048576 in Hb. unfold RSD_PAGE_SIZE. lia. }
  split; [change 4096 with RSD_PAGE_SIZE; by apply Z.mod_mul|]. split; [done|]. cbv zeta.
  split; [by apply take_frame_wf|]. split; [done|]. done.
Qed.

Lemma allocate_frame_spec h m :
  frames_wf (frame_state m) -> allocator_initialized (frame_state m) = true -> arena_capacity h = 0 ->
  match allocate_table h m with
  | (inr next, h', m') =>
      0 <= next < 2 ^ 32 /\ next mod 4096 = 0 /\
      ~ allocated_page (frame_state m) next /\ table_page (frame_state m') next /\
      frames_wf (frame_state m') /\ allocator_initialized (frame_state m') = true /\
      (forall g, table_page (frame_state m) g -> table_page (frame_state m') g) /\
      (forall g, allocated_page (frame_state m') g <-> allocated_page (frame_state m) g \/ g = next) /\
      h' = count_tables (arena_used h) (u64 (table_frames h + 1)) h /\ same_machine m m' /\
      words m' = words (zero_table next m)
  | (inl st, h', m') =>
      st = PAGING_STATUS_OUT_OF_FRAMES /\ h' = h /\ words m' = words m /\ frame_state m' = frame_state m /\
      same_machine m m'
  end.
Proof.
  intros Hwf Hi Ha. unfold allocate_table.
  set (counted := failure_armed (failure m) && process h).
  set (hit := counted && _). clearbody hit.
  set (m0 := if counted then _ else m).
  assert (Hm0 : words m0 = words m /\ frame_state m0 = frame_state m /\ cr3 m0 = cr3 m /\
                invalidated m0 = invalidated m) by (unfold m0; by destruct counted).
  clearbody m0. clear counted. destruct Hm0 as (Hw & Hf & Hc & Hv).
  destruct hit; [by split_and!|]. rewrite Ha. cbn [Z.eqb negb]. rewrite Hf.
  destruct (frame_allocate_law_pages (frame_state m) Hwf Hi) as
    [(next & -> & Hb & Hm & Hn & Hwf' & Hi' & Hal & Hk & Hiff)| ->].
  - change (default 0 (Some next)) with next. cbv zeta. change RSD_EARLY_PHYSICAL_LIMIT with (2 ^ 32).
    destruct (Z.leb_spec (2 ^ 32) next); [lia|].
    split; [done|]. split; [done|]. split; [done|]. split; [done|]. split; [done|]. split; [done|].
    split; [done|]. split; [done|]. split; [done|]. split; [done|].
    unfold zero_table. cbn [words set_words set_frames]. by rewrite Hw.
  - cbn [frame_state set_frames words]. by split_and!.
Qed.

Lemma allocate_table_spec h m T :
  space_ok h m T ->
  match allocate_table h m with
  | (inr next, h', m') =>
      T !! next = None /\ 0 <= next < 2 ^ 32 /\ next mod 4096 = 0 /\
      ~ allocated_page (frame_state m) next /\ table_page (frame_state m') next /\
      frames_wf (frame_state m') /\ allocator_initialized (frame_state m') = true /\
      (forall g, table_page (frame_state m) g -> table_page (frame_state m') g) /\
      (forall g, allocated_page (frame_state m') g <-> allocated_page (frame_state m) g \/ g = next) /\
      h' = count_tables (arena_used h) (u64 (table_frames h + 1)) h /\ same_machine m m' /\
      words m' = words (zero_table next m)
  | (inl st, h', m') =>
      st = PAGING_STATUS_OUT_OF_FRAMES /\ h' = h /\ words m' = words m /\ frame_state m' = frame_state m /\
      same_machine m m'
  end.
Proof.
  intros (Ht & Hwf & Hi & Ha). pose proof (allocate_frame_spec h m Hwf Hi Ha) as Hs.
  destruct (allocate_table h m) as [[[st|next] h'] m']; [exact Hs|]. split; [|exact Hs].
  destruct (T !! next) as [[l p]|] eqn:E; [|done].
  destruct (tree_table _ _ _ Ht next l p E) as (_ & _ & _ & _ & Hx & _).
  destruct Hs as (_ & _ & Hn & _). by destruct Hn.
Qed.

(** ** The walk *)

(** More tables, the same translations. *)
Record extends (h h' : hierarchy) (m m' : memory) (T T' : tables) : Prop := {
  ext_space : space_ok h' m' T';
  ext_root : root h' = root h /\ live h' = live h;
  ext_machine : same_machine m m';
  ext_sub : T ⊆ T';
  ext_owned g : (allocated_page (frame_state m') g /\ T' !! g = None) <->
    (allocated_page (frame_state m) g /\ T !! g = None);
  ext_translates n t va w x u pat : T !! t = Some (S n, prefix va (S n)) ->
    translate_walk n t va w x u pat m' = translate_walk n t va w x u pat m
}.

Lemma extends_refl h m T : space_ok h m T -> extends h h m m T T.
Proof. intros Hs. by split. Qed.

Lemma extends_trans h1 h2 h3 m1 m2 m3 T1 T2 T3 :
  extends h1 h2 m1 m2 T1 T2 -> extends h2 h3 m2 m3 T2 T3 -> extends h1 h3 m1 m3 T1 T3.
Proof.
  intros E1 E2. split.
  - apply (ext_space _ _ _ _ _ _ E2).
  - destruct (ext_root _ _ _ _ _ _ E1), (ext_root _ _ _ _ _ _ E2). split; congruence.
  - destruct (ext_machine _ _ _ _ _ _ E1), (ext_machine _ _ _ _ _ _ E2). split; congruence.
  - etransitivity; [apply (ext_sub _ _ _ _ _ _ E1)|apply (ext_sub _ _ _ _ _ _ E2)].
  - intros g. by rewrite (ext_owned _ _ _ _ _ _ E2), (ext_owned _ _ _ _ _ _ E1).
  - intros n t va w x u pat HT. rewrite (ext_translates _ _ _ _ _ _ E2), (ext_translates _ _ _ _ _ _ E1); try done.
    by apply (lookup_weaken _ _ _ _ HT), (ext_sub _ _ _ _ _ _ E1).
Qed.

Lemma extends_words h m m' T :
  space_ok h m T -> words m' = words m -> frame_state m' = frame_state m -> same_machine m m' ->
  extends h h m m' T T.
Proof.
  intros (Ht & Hwf & Hi & Ha) Hw Hf Hm.
  assert (He : forall a i, entry m' a i = entry m a i) by (intros; unfold entry, word; by rewrite Hw).
  split; try done.
  - split_and!; try done; [|by rewrite Hf..].
    apply (tree_ok_leaves h h m m' T); try done. by rewrite Hf.
  - intros g. by rewrite Hf.
  - intros n t va w x u pat HT. by apply (translate_walk_same h m m' T).
Qed.

(** No table but the root and [x] is empty; none but the root. *)
Definition occupied (m : memory) (t : Z) : Prop :=
  exists i, 0 <= i < 512 /\ has (entry m t i) PAGE_PRESENT = true.

Definition tight_but (x : Z) (h : hierarchy) (m : memory) (T : tables) : Prop :=
  forall a, is_Some (T !! a) -> a <> root h -> a <> x -> occupied m a.

Definition tight (h : hierarchy) (m : memory) (T : tables) : Prop :=
  forall a, is_Some (T !! a) -> a <> root h -> occupied m a.

Section Allocate.
Context (h : hierarchy) (m : memory) (T : tables) (a : Z) (l : nat) (p i next : Z) (h1 : hierarchy) (m1 : memory).
Hypothesis Hs : space_ok h m T.
Hypothesis Ha : T !! a = Some (S (S l), p).
Hypothesis Hi : 0 <= i < 512.
Hypothesis Habs : has (entry m a i) PAGE_PRESENT = false.
Hypothesis Hal : allocate_table h m = (inr next, h1, m1).
Let m2 : memory := set_word (entry_at a i) ((next .| PAGE_PRESENT) .| PAGE_WRITABLE) m1.

Lemma allocate_entries :
  (forall j, 0 <= j < 512 -> entry m2 next j = 0) /\
  (forall b l p j, T !! b = Some (l, p) -> 0 <= j < 512 -> (a, i) <> (b, j) -> entry m2 b j = entry m b j).
Proof.
  pose proof Hs as (Ht & _). pose proof (allocate_table_spec h m T Hs) as Hspec. rewrite Hal in Hspec.
  destruct Hspec as (Hno & _ & Hm & _ & _ & _ & _ & _ & _ & _ & _ & Hw).
  destruct (tree_table _ _ _ Ht a _ _ Ha) as (_ & _ & Hma & _).
  assert (Hne : a <> next) by (intros ->; congruence).
  assert (Hw1 : forall b j, entry m1 b j = entry (zero_table next m) b j)
    by (intros; unfold entry, word; by rewrite Hw).
  split.
  - intros j Hj. unfold m2. rewrite entry_set_ne; [|exact Hma|exact Hm|exact Hi|exact Hj|congruence].
    rewrite Hw1. by apply entry_zero.
  - intros b lb pb j Hb' Hj Hab. destruct (tree_table _ _ _ Ht b _ _ Hb') as (_ & _ & Hmb & _).
    unfold m2. rewrite entry_set_ne; [|exact Hma|exact Hmb|exact Hi|exact Hj|exact Hab].
    rewrite Hw1. apply entry_zero_ne; [exact Hm|exact Hmb|intros ->; congruence|exact Hj].
Qed.

Lemma allocate_interior : points (entry m2 a i) = true /\ frame_of (entry m2 a i) = next.
Proof.
  pose proof (allocate_table_spec h m T Hs) as Hspec. rewrite Hal in Hspec.
  destruct Hspec as (_ & Hb & Hm & _). unfold m2. rewrite entry_set.
  destruct (interior_entry next) as (Hp & Hf & _); [split; [lia|done]|done].
Qed.

Lemma allocate_extends : extends h h1 m m2 T (<[next := (S l, p * 512 + i)]> T).
Proof.
  pose proof Hs as (Ht & Hwf & Hin & Har). destruct allocate_entries as [Hzero Hother].
  pose proof (allocate_table_spec h m T Hs) as Hspec. rewrite Hal in Hspec.
  destruct Hspec as (Hno & Hb & Hm & Hna & Hal' & Hwf' & Hi' & Hk & Hiff & -> & Hsm & _).
  assert (Hentry : entry m2 a i = (next .| PAGE_PRESENT) .| PAGE_WRITABLE) by apply entry_set.
  assert (Hnew : T !! next = None /\ 0 <= next < 2 ^ 32 /\ next mod 4096 = 0 /\
            table_page (frame_state m2) next) by exact (conj Hno (conj Hb (conj Hm Hal'))).
  split.
  - split; [|exact (conj Hwf' (conj Hi' Har))].
    exact (grow_ok h (count_tables (arena_used h) (u64 (table_frames h + 1)) h) m m2 T a p i next l Ht Ha Hi Habs
      Hnew (conj eq_refl eq_refl) Hk Hentry Hzero Hother).
  - exact (conj eq_refl eq_refl).
  - exact Hsm.
  - by apply insert_subseteq.
  - intros g. change (frame_state m2) with (frame_state m1). rewrite (Hiff g), lookup_insert_None.
    split; [intros [[Hg| ->] [HT Hne]]; [by split|by destruct Hne]|].
    intros [Hg HT]. split; [by left|]. split; [exact HT|]. intros <-. exact (Hna Hg).
  - intros n t va w x u pat HT.
    exact (grow_translates h m m2 T a p i next l Ht Ha Habs Hnew Hentry Hzero Hother n t va w x u pat HT).
Qed.

(** The parent is no longer empty, the new table is. *)
Lemma allocate_tight : tight_but a h m T -> tight_but next h1 m2 (<[next := (S l, p * 512 + i)]> T).
Proof.
  intros Htight b [[lb pb] [[<- _]|[_ Hb]]%lookup_insert_Some] Hr Hne; [done|].
  destruct (ext_root _ _ _ _ _ _ allocate_extends) as [Hroot _]. rewrite Hroot in Hr.
  destruct (decide (b = a)) as [-> |Hba].
  - exists i. split; [done|]. by destruct (proj1 (points_spec _) (proj1 allocate_interior)).
  - destruct (Htight b (mk_is_Some _ _ Hb) Hr Hba) as (j & Hj & Hpj). exists j. split; [done|].
    rewrite (proj2 allocate_entries b lb pb j Hb Hj) by congruence. done.
Qed.
End Allocate.

Lemma occupied_tight_but t x h m T : occupied m t -> tight_but t h m T -> tight_but x h m T.
Proof. intros Ho Ht a Ha Hr _. destruct (decide (a = t)) as [-> |]; [done|by apply Ht]. Qed.

Lemma entry_walk_create n target va table h m T :
  space_ok h m T -> (1 <= target)%nat -> T !! table = Some ((target + n)%nat, prefix va (target + n)) ->
  let '(r, h', m') := entry_walk n target va true table h m in
  exists T', extends h h' m m' T T' /\
    match r with
    | inr e => exists t, e = entry_at t (table_index va target) /\ T' !! t = Some (target, prefix va target) /\
        (tight_but table h m T -> tight_but t h' m' T')
    | inl st => st = PAGING_STATUS_OUT_OF_FRAMES \/
        st = PAGING_STATUS_HUGE_PAGE_PRESENT /\
        forall w x u pat, exists tr,
          translate_walk (pred (target + n)) table va w x u pat m = (PAGING_STATUS_OK, tr)
    end.
Proof.
  revert table h m T. induction n as [|n IH]; intros table h m T Hs Htg HT; cbn [entry_walk].
  { rewrite Nat.add_0_r in HT. exists T. split; [by apply extends_refl|]. by exists table. }
  cbv zeta. destruct target as [|tg]; [lia|]. rewrite Nat.add_succ_r in HT |- *. cbn [Nat.add pred] in HT |- *.
  fold (entry m table (table_index va (S (S (tg + n))))).
  set (i := table_index va (S (S (tg + n)))) in *. pose proof (table_index_range va (S (S (tg + n)))) as Hi. fold i in Hi.
  destruct (tree_table _ _ _ (proj1 Hs) table _ _ HT) as (Hl & _).
  destruct (has (entry m table i) PAGE_PRESENT) eqn:Hp; cbn [negb].
  - destruct (has (entry m table i) PAGE_HUGE) eqn:Hh.
    { exists T. split; [by apply extends_refl|right]. split; [done|]. intros w x u pat.
      rewrite translate_walk_unfold. cbv zeta. fold i. rewrite Hp, Hh. by eexists. }
    specialize (IH (frame_of (entry m table i)) h m T Hs Htg).
    fold (frame_of (entry m table i)).
    destruct (entry_walk n (S tg) va true (frame_of (entry m table i)) h m) as [[r h'] m'].
    destruct IH as (T' & He & Hr).
    { apply (tree_child h m T table (tg + n) va (proj1 Hs) HT). by apply points_spec. }
    exists T'. split; [done|]. destruct r as [st|e].
    + destruct Hr as [-> |[-> Hr]]; [by left|right]. split; [done|]. intros w x u pat.
      rewrite translate_walk_unfold. cbv zeta. fold i. rewrite Hp, Hh. apply Hr.
    + destruct Hr as (t & Ht & HT' & Hti). exists t. split_and!; try done. intros Htable. apply Hti.
      eapply occupied_tight_but; [|exact Htable]. by exists i.
  - pose proof (allocate_table_spec h m T Hs) as Hspec.
    destruct (allocate_table h m) as [[[st|next] h1] m1] eqn:Hal.
    { destruct Hspec as (-> & -> & Hw & Hf & Hsm). exists T. split; [by apply extends_words|by left]. }
    pose proof (allocate_extends h m T table (tg + n) _ i next h1 m1 Hs HT Hi Hp Hal) as He.
    pose proof (allocate_tight h m T table (tg + n) _ i next h1 m1 Hs HT Hi Hp Hal) as Hti.
    pose proof (allocate_interior h m T table i next h1 m1 Hs Hal) as [[Hp2 Hh2]%points_spec Hf2].
    specialize (IH next h1 _ _ (ext_space _ _ _ _ _ _ He) Htg).
    destruct (entry_walk n (S tg) va true next h1 _) as [[r h'] m'].
    destruct IH as (T' & He' & Hr).
    { rewrite lookup_insert_eq. cbn [Nat.add]. rewrite (prefix_step va (S (tg + n))) by lia. done. }
    exists T'. split; [by eapply extends_trans|]. destruct r as [st|e].
    + destruct Hr as [-> |[-> Hr]]; [by left|right]. split; [done|]. intros w x u pat.
      rewrite <- (ext_translates _ _ _ _ _ _ He) by done. rewrite translate_walk_unfold. cbv zeta. fold i.
      rewrite Hp2, Hh2, Hf2. apply Hr.
    + destruct Hr as (t & Ht & HT' & Hti'). exists t. split_and!; try done. intros Htable. by apply Hti', Hti.
Qed.

Lemma root_prefix h m T va : tree_ok h m T -> T !! root h = Some (4%nat, prefix va 4).
Proof. intros Ht. rewrite prefix_top. apply (tree_root _ _ _ Ht). Qed.

Lemma entry_for_create h m T va :
  space_ok h m T ->
  let '(r, h', m') := entry_for h va 1 true m in
  exists T', extends h h' m m' T T' /\
    match r with
    | inr e => exists t, e = entry_at t (table_index va 1) /\ T' !! t = Some (1%nat, prefix va 1) /\
        (tight h m T -> tight_but t h' m' T')
    | inl st => st = PAGING_STATUS_OUT_OF_FRAMES \/
        st = PAGING_STATUS_HUGE_PAGE_PRESENT /\
        forall pat, exists tr, translate_walk 3 (root h) va true true true pat m = (PAGING_STATUS_OK, tr)
    end.
Proof.
  intros Hs. pose proof (entry_walk_create 3 1 va (root h) h m T Hs ltac:(lia) (root_prefix h m T va (proj1 Hs))) as Hw.
  unfold entry_for. change (PAGING_LEVEL_COUNT - 1)%nat with 3%nat.
  destruct (entry_walk 3 1 va true (root h) h m) as [[r h'] m']. destruct Hw as (T' & He & Hr).
  exists T'. split; [done|]. destruct r as [st|e].
  - destruct Hr as [-> |[-> Hr]]; [by left|right]. split; [done|]. intros pat. apply Hr.
  - destruct Hr as (t & -> & HT & Hti). exists t. split_and!; try done. intros Ht. apply Hti.
    intros a Ha Hra _. by apply Ht.
Qed.

(** The lookup without creation, against the translation. *)
Lemma entry_walk_find n va table h m T w x u pat :
  tree_ok h m T -> T !! table = Some (S n, prefix va (S n)) ->
  let '(r, h', m') := entry_walk n 1 va false table h m in
  h' = h /\ m' = m /\
  match r with
  | inr e => exists t, e = entry_at t (table_index va 1) /\ T !! t = Some (1%nat, prefix va 1) /\
      translate_walk n table va w x u pat m =
        if has (word m e) PAGE_PRESENT then
          (PAGING_STATUS_OK, fill_translation (word m e) va 1 (w && has (word m e) PAGE_WRITABLE)
             (x && negb (has (word m e) PAGE_NO_EXECUTE))
             (u && (n =? 0)%nat && has (word m e) PAGE_USER) pat)
        else (PAGING_STATUS_NOT_MAPPED, no_translation)
  | inl PAGING_STATUS_NOT_MAPPED =>
      translate_walk n table va w x u pat m = (PAGING_STATUS_NOT_MAPPED, no_translation)
  | inl PAGING_STATUS_HUGE_PAGE_PRESENT =>
      exists t, translate_walk n table va w x u pat m = (PAGING_STATUS_OK, t) /\ level t <> 1
  | inl _ => False
  end.
Proof.
  intros Ht. revert table w x u. induction n as [|n IH]; intros table w x u HT; cbn [entry_walk];
    rewrite translate_walk_unfold; cbv zeta.
  { split; [done|]. split; [done|]. exists table. split; [done|]. split; [done|].
    fold (entry m table (table_index va 1)). rewrite andb_true_r.
    by destruct (has (entry m table (table_index va 1)) PAGE_PRESENT). }
  change (1 + S n)%nat with (S (S n)). fold (entry m table (table_index va (S (S n)))).
  destruct (has (entry m table (table_index va (S (S n)))) PAGE_PRESENT) eqn:Hp; cbn [negb]; [|done].
  destruct (has (entry m table (table_index va (S (S n)))) PAGE_HUGE) eqn:Hh.
  { split; [done|]. split; [done|]. eexists. split; [done|]. cbn [level fill_translation]. lia. }
  fold (frame_of (entry m table (table_index va (S (S n))))).
  assert (Hpt : points (entry m table (table_index va (S (S n)))) = true) by (by apply points_spec).
  destruct (tree_plain _ _ _ Ht table n _ _ HT (table_index_range va _) Hpt) as (Hw & Hx & Hu).
  rewrite Hw, Hx, Hu, !andb_true_r, !andb_false_r.
  pose proof (IH _ w x false (tree_child h m T table n va Ht HT Hpt)) as Hrec.
  destruct (entry_walk n 1 va false _ h m) as [[r h'] m']. by cbn [Nat.eqb andb] in *.
Qed.

Lemma table_ancestor h m T t va l k :
  tree_ok h m T -> T !! t = Some (l, prefix va l) -> (l + k <= 4)%nat ->
  exists c, T !! c = Some ((l + k)%nat, prefix va (l + k)).
Proof.
  intros Ht HT. revert l t HT. induction k as [|k IH]; intros l t HT Hk.
  { exists t. by rewrite Nat.add_0_r. }
  assert (Hr : t <> root h).
  { intros ->. rewrite (tree_root _ _ _ Ht) in HT. injection HT as <- _. lia. }
  destruct (tree_up _ _ _ Ht t l _ HT Hr) as (b & Hb & _).
  rewrite Nat.add_succ_r. apply (IH (S l) b); [|lia]. rewrite Hb. do 2 f_equal.
  rewrite (prefix_step va l) by lia. pose proof (table_index_range va (S l)). div_lia.
Qed.

(** The entry above a table that translates [va]. *)
Lemma table_parent h m T t c va l :
  tree_ok h m T -> T !! t = Some (l, prefix va l) -> T !! c = Some (S l, prefix va (S l)) -> (l < 4)%nat ->
  points (entry m c (table_index va (S l))) = true /\ frame_of (entry m c (table_index va (S l))) = t /\
  prefix va l / 512 = prefix va (S l) /\ prefix va l mod 512 = table_index va (S l) /\ t <> root h.
Proof.
  intros Ht HT Hc Hl. pose proof (table_index_range va (S l)) as Hi.
  assert (Hr : t <> root h).
  { intros ->. rewrite (tree_root _ _ _ Ht) in HT. injection HT as <- _. lia. }
  assert (E : prefix va l / 512 = prefix va (S l) /\ prefix va l mod 512 = table_index va (S l))
    by (rewrite (prefix_step va l) by lia; split; div_lia).
  destruct E as [E1 E2]. destruct (tree_up _ _ _ Ht t l _ HT Hr) as (b & Hb & Hp & Hf).
  rewrite E1 in Hb. rewrite E2 in Hp, Hf. assert (b = c) as -> by (by eapply tree_unique). done.
Qed.

(** A table of level one that translates [va] is the one the walk finds. *)
Lemma entry_walk_reached n c t h m T va :
  tree_ok h m T -> T !! t = Some (1%nat, prefix va 1) -> T !! c = Some (S n, prefix va (S n)) ->
  entry_walk n 1 va false c h m = (inr (entry_at t (table_index va 1)), h, m).
Proof.
  intros Ht HT. revert c. induction n as [|n IH]; intros c Hc; cbn [entry_walk].
  { by rewrite (tree_unique h m T c t 1 (prefix va 1) Ht Hc HT). }
  destruct (tree_table _ _ _ Ht c _ _ Hc) as (Hl & _).
  destruct (table_ancestor h m T t va 1 n Ht HT ltac:(lia)) as (d & Hd). cbn [Nat.add] in Hd.
  destruct (table_parent h m T d c va (S n) Ht Hd Hc ltac:(lia)) as (Hp & Hf & _).
  cbv zeta. change (1 + S n)%nat with (S (S n)). fold (entry m c (table_index va (S (S n)))).
  apply points_spec in Hp as [-> ->]. cbn [negb]. fold (frame_of (entry m c (table_index va (S (S n))))).
  rewrite Hf. by apply IH.
Qed.

(** ** Writing a leaf *)

Section Leaf.
Context (h : hierarchy) (m : memory) (T : tables) (t va v : Z).
Hypothesis Hs : space_ok h m T.
Hypothesis HT : T !! t = Some (1%nat, prefix va 1).
Let m' : memory := set_word (entry_at t (table_index va 1)) v m.

Lemma leaf_entries a l p i :
  T !! a = Some (S (S l), p) -> 0 <= i < 512 -> entry m' a i = entry m a i.
Proof.
  intros Ha Hi. pose proof (proj1 Hs) as Ht.
  destruct (tree_table _ _ _ Ht a _ _ Ha) as (_ & _ & Hma & _).
  destruct (tree_table _ _ _ Ht t _ _ HT) as (_ & _ & Hmt & _).
  apply entry_set_ne; try done; [apply table_index_range|]. intros [= <- _]. congruence.
Qed.

Lemma leaf_ok : space_ok h m' T.
Proof.
  destruct Hs as (Ht & Hwf & Hi & Ha). split_and!; try done.
  apply (tree_ok_leaves h h m m' T); try done. apply leaf_entries.
Qed.

(** Only the page whose leaf was written can change. *)
Lemma leaf_elsewhere n c va' w x u pat :
  prefix va' 0 <> prefix va 0 -> T !! c = Some (S n, prefix va' (S n)) ->
  translate_walk n c va' w x u pat m' = translate_walk n c va' w x u pat m.
Proof.
  intros Hne Hc. pose proof (proj1 Hs) as Ht. apply (translate_walk_same h m m' T); try done.
  intros a l Ha Hl. destruct (tree_table _ _ _ Ht a _ _ Ha) as (_ & _ & Hma & _).
  destruct (tree_table _ _ _ Ht t _ _ HT) as (_ & _ & Hmt & _).
  apply entry_set_ne; try done; [apply table_index_range..|]. intros [= <- E].
  rewrite HT in Ha. injection Ha as <- Hp. apply Hne.
  rewrite (prefix_step va' 0), (prefix_step va 0) by lia. congruence.
Qed.

Lemma leaf_here pat :
  translate_walk 3 (root h) va true true true pat m' =
    if has v PAGE_PRESENT then
      (PAGING_STATUS_OK, fill_translation v va 1 (has v PAGE_WRITABLE) (negb (has v PAGE_NO_EXECUTE)) false pat)
    else (PAGING_STATUS_NOT_MAPPED, no_translation).
Proof.
  pose proof (proj1 leaf_ok) as Ht'. pose proof (root_prefix h m' T va Ht') as Hr.
  pose proof (entry_walk_find 3 va (root h) h m' T true true true pat Ht' Hr) as Hf.
  rewrite (entry_walk_reached 3 (root h) t h m' T va Ht' HT Hr) in Hf.
  destruct Hf as (_ & _ & t' & _ & _ & ->).
  assert (word m' (entry_at t (table_index va 1)) = v) as ->; [|done].
  unfold m', word, set_word. cbn [words set_words]. by rewrite lookup_insert_eq.
Qed.
End Leaf.
