(* ===== verification/PagingRange.v ===== *)
(** * What the range operations of the page tables do ([src/kernel/paging.c])

    Over the invariant of [PagingSpec]: reclamation gives back exactly the tables that
    hold nothing, mapping, unmapping and protecting a range change the translations of
    the range as asked and no other translation, a refusal changes none, and every page
    whose translation changes on the live hierarchy is invalidated. *)

From stdpp Require Import base option list numbers gmap fin_maps.
From S2P Require Import Prelude Frames BlockTable Heap Paging PagingSpec.

(** ** What an operation changes *)

(** The translation every access goes through. *)
Definition translation (h : hierarchy) (m : memory) (va pat : Z) : paging_status * paging_translation :=
  translate_walk 3 (root h) va true true true pat m.

Definition page_of (va : Z) : Z := va - va mod 4096.

(** A page is its canonical, aligned address. *)
Definition page (va : Z) : Prop := address_is_canonical va = true /\ va mod 4096 = 0.

Lemma page_of_page va : address_is_canonical va = true -> page (page_of va).
Proof.
  unfold page, page_of. rewrite !canonical_range. change (2 ^ 47) with 140737488355328.
  change (2 ^ 64) with 18446744073709551616. div_lia.
Qed.

Lemma page_of_id va : page va -> page_of va = va.
Proof. intros [_ Hm]. unfold page_of. lia. Qed.

Lemma prefix_page_of va : prefix (page_of va) 0 = prefix va 0.
Proof.
  unfold prefix, page_of. change (2 ^ (12 + 9 * Z.of_nat 0)) with 4096.
  change (2 ^ 48) with 281474976710656. div_lia.
Qed.

Lemma page_ne va va' :
  page va -> address_is_canonical va' = true -> page_of va' <> va -> prefix va' 0 <> prefix va 0.
Proof.
  intros [Hc Hm] Hc' Hne E. apply Hne. destruct (page_of_page va' Hc') as [Hc'' Hm''].
  apply prefix_page; try done. by rewrite prefix_page_of.
Qed.

(** Pages outside [K] keep their translations, and the pages of [K] have been
    invalidated when the hierarchy is the live one; the allocated frames that hold no
    table stay the same. *)
Record evolves (K : Z -> Prop) (h h' : hierarchy) (m m' : memory) (T T' : tables) : Prop := {
  ev_space : space_ok h' m' T';
  ev_root : root h' = root h /\ live h' = live h;
  ev_cr3 : cr3 m' = cr3 m;
  ev_owned g : (allocated_page (frame_state m') g /\ T' !! g = None) <->
    (allocated_page (frame_state m) g /\ T !! g = None);
  ev_translates va pat : address_is_canonical va = true -> ~ K (page_of va) ->
    translation h' m' va pat = translation h m va pat;
  ev_flushed : exists l, invalidated m' = l ++ invalidated m /\
    (live h = true -> forall va, K va -> va ∈ l)
}.

Lemma evolves_trans K1 K2 h1 h2 h3 m1 m2 m3 T1 T2 T3 :
  evolves K1 h1 h2 m1 m2 T1 T2 -> evolves K2 h2 h3 m2 m3 T2 T3 ->
  evolves (fun va => K1 va \/ K2 va) h1 h3 m1 m3 T1 T3.
Proof.
  intros E1 E2. split.
  - apply (ev_space _ _ _ _ _ _ _ E2).
  - destruct (ev_root _ _ _ _ _ _ _ E1), (ev_root _ _ _ _ _ _ _ E2). split; congruence.
  - by rewrite (ev_cr3 _ _ _ _ _ _ _ E2), (ev_cr3 _ _ _ _ _ _ _ E1).
  - intros g. by rewrite (ev_owned _ _ _ _ _ _ _ E2), (ev_owned _ _ _ _ _ _ _ E1).
  - intros va pat Hc Hk. rewrite (ev_translates _ _ _ _ _ _ _ E2), (ev_translates _ _ _ _ _ _ _ E1); tauto.
  - destruct (ev_flushed _ _ _ _ _ _ _ E1) as (l1 & F1 & H1).
    destruct (ev_flushed _ _ _ _ _ _ _ E2) as (l2 & F2 & H2). exists (l2 ++ l1).
    destruct (ev_root _ _ _ _ _ _ _ E1) as [_ Hl]. rewrite F2, F1, (assoc (++)). split; [done|].
    intros Hlive va [Hk|Hk]; apply elem_of_app; [right; by apply H1|left]. apply H2; congruence.
Qed.

Lemma evolves_iff K K' h h' m m' T T' :
  evolves K h h' m m' T T' -> (forall va, K va <-> K' va) -> evolves K' h h' m m' T T'.
Proof.
  intros E HK. split; try apply E.
  - intros va pat Hc Hk. apply (ev_translates _ _ _ _ _ _ _ E); [done|]. by rewrite HK.
  - destruct (ev_flushed _ _ _ _ _ _ _ E) as (l & F & Hl). exists l. split; [done|].
    intros Hlive va Hk. apply Hl; [done|]. by apply HK.
Qed.

(** An operation that changes no translation. *)
Abbreviation quiet := (fun _ : Z => False).

Lemma extends_evolves h h' m m' T T' :
  space_ok h m T -> extends h h' m m' T T' -> evolves quiet h h' m m' T T'.
Proof.
  intros Hs E. pose proof (ext_machine _ _ _ _ _ _ E) as [Hc Hv]. split.
  - apply (ext_space _ _ _ _ _ _ E).
  - apply (ext_root _ _ _ _ _ _ E).
  - done.
  - apply (ext_owned _ _ _ _ _ _ E).
  - intros va pat _ _. unfold translation. destruct (ext_root _ _ _ _ _ _ E) as [-> _].
    apply (ext_translates _ _ _ _ _ _ E). apply (root_prefix h m T), Hs.
  - exists []. by rewrite Hv.
Qed.

Lemma evolves_refl h m T : space_ok h m T -> evolves quiet h h m m T T.
Proof. intros Hs. by apply extends_evolves, extends_refl. Qed.

(** ** Reclamation *)

Lemma table_is_empty_spec m t :
  if table_is_empty t m then forall i, 0 <= i < 512 -> has (entry m t i) PAGE_PRESENT = false
  else occupied m t.
Proof.
  destruct (table_is_empty t m) eqn:E; unfold table_is_empty in E.
  - rewrite forallb_forall in E. intros i Hi. apply negb_true_iff. apply (E i).
    apply list_elem_of_In, elem_of_seqZ. change PAGING_ENTRIES_PER_TABLE with 512. lia.
  - apply not_true_iff_false in E. rewrite forallb_forall in E.
    assert (Hex : Exists (fun i => has (entry m t i) PAGE_PRESENT = true) (seqZ 0 PAGING_ENTRIES_PER_TABLE)).
    { destruct (decide (Exists (fun i => has (entry m t i) PAGE_PRESENT = true)
        (seqZ 0 PAGING_ENTRIES_PER_TABLE))) as [He|Hno]; [done|].
      exfalso. apply E. intros i Hi%list_elem_of_In.
      destruct (has (word m (entry_at t i)) PAGE_PRESENT) eqn:Hp; [|done].
      exfalso. apply Hno, Exists_exists. by exists i. }
    apply Exists_exists in Hex as (i & Hi & Hp). exists i. apply elem_of_seqZ in Hi.
    change PAGING_ENTRIES_PER_TABLE with 512 in Hi. split; [lia|done].
Qed.

(** One step of the climb: the empty table [t] goes, and its parent may be next. *)
Lemma reclaim_step h m T t c va l :
  space_ok h m T -> T !! t = Some (S l, prefix va (S l)) -> T !! c = Some (S (S l), prefix va (S (S l))) ->
  (S l < 4)%nat -> (forall i, 0 <= i < 512 -> has (entry m t i) PAGE_PRESENT = false) ->
  let '(h', m') := release_table h t (set_word (entry_at c (table_index va (S (S l)))) 0 m) in
  evolves quiet h h' m m' T (delete t T) /\ (tight_but t h m T -> tight_but c h' m' (delete t T)).
Proof.
  intros Hs HT Hc Hl Hempty. pose proof Hs as (Ht & Hwf & Hi & Ha).
  set (i := table_index va (S (S l))). pose proof (table_index_range va (S (S l))) as Hri. fold i in Hri.
  destruct (table_parent h m T t c va (S l) Ht HT Hc Hl) as (Hp & Hf & Hq & Hqi & Hr). fold i in Hp, Hf, Hqi.
  destruct (tree_table _ _ _ Ht c _ _ Hc) as (_ & _ & Hmc & _).
  set (m1 := set_word (entry_at c i) 0 m). unfold release_table. rewrite Ha. cbn [Z.eqb].
  destruct (tree_table _ _ _ Ht t _ _ HT) as (_ & [_ Htb] & _ & _ & Hal).
  pose proof (release_single (frame_state m) t Hwf Hi Hal Htb) as (Hwf' & Hi' & Halloc & Hiff).
  change (frame_state m1) with (frame_state m).
  set (f' := (frame_release t (frame_state m)).2) in *. clearbody f'.
  set (m' := set_frames f' m1). set (h' := count_tables _ _ h).
  assert (Hz : entry m' c i = 0) by exact (entry_set c i 0 m).
  assert (Hother : forall b lb pb j, T !! b = Some (lb, pb) -> 0 <= j < 512 -> (c, i) <> (b, j) ->
            entry m' b j = entry m b j).
  { intros b lb pb j Hb Hj Hne. destruct (tree_table _ _ _ Ht b _ _ Hb) as (_ & _ & Hmb & _).
    exact (entry_set_ne c i 0 m b j Hmc Hmb Hri Hj Hne). }
  rewrite <- Hq in Hc. rewrite <- Hqi in Hp, Hf, Hz, Hother. split.
  - split.
    + split; [|exact (conj Hwf' (conj Hi' Ha))].
      apply (prune_ok h h' m m' T t c (prefix va (S l)) l); done.
    + done.
    + done.
    + intros g. change (frame_state m') with f'. rewrite (Hiff g), lookup_delete_None.
      split; [intros [[Hg Hne] [E|HTg]]; [by destruct Hne|by split]|].
      intros [Hg HTg]. split; [split; [done|congruence]|by right].
    + intros va' pat _ _. unfold translation.
      apply (prune_translates h m m' T t c (prefix va (S l)) l); try done. by apply (root_prefix h m T).
    + by exists [].
  - intros Htight b [[lb pb] [Hbt Hb]%lookup_delete_Some] Hrb Hbc.
    destruct (Htight b (mk_is_Some _ _ Hb) Hrb (not_eq_sym Hbt)) as (j & Hj & Hpj).
    exists j. split; [done|]. rewrite (Hother b lb pb j Hb Hj); [done|]. congruence.
Qed.

(** The tables that translate [va], from level [S l] up to the root. *)
Definition path_ok (h : hierarchy) (T : tables) (va : Z) (l : nat) (path : list Z) : Prop :=
  (S l + length path = 5)%nat /\ (1 <= length path)%nat /\ last path = Some (root h) /\
  forall k t, path !! k = Some t -> T !! t = Some ((S l + k)%nat, prefix va (S l + k)).

Lemma path_ok_tail h h' T T' va l t c path :
  path_ok h T va l (t :: c :: path) -> root h' = root h ->
  (forall a x, a <> t -> T !! a = Some x -> T' !! a = Some x) -> path_ok h' T' va (S l) (c :: path).
Proof.
  intros (Hlen & _ & Hlast & Hk) Hr HT. cbn [length] in Hlen. split; [cbn [length]; lia|].
  split; [cbn [length]; lia|]. split; [by rewrite Hr|]. intros k a Ha.
  assert (Ha' : T !! a = Some ((S l + S k)%nat, prefix va (S l + S k))) by (by apply Hk).
  replace (S (S l) + k)%nat with (S l + S k)%nat by lia. apply HT; [|done]. intros ->.
  pose proof (Hk 0%nat t eq_refl) as H0. rewrite Ha' in H0. injection H0 as E _. lia.
Qed.

Lemma reclaim_path_spec path l va h m T :
  space_ok h m T -> path_ok h T va l path ->
  let '(h', m') := reclaim_path path (S l) va h m in
  exists T', T' ⊆ T /\ evolves quiet h h' m m' T T' /\
    (tight_but (default 0 (head path)) h m T -> tight h' m' T').
Proof.
  revert l h m T. induction path as [|t path IH]; intros l h m T Hs Hpath.
  { destruct Hpath as (_ & Hpos & _). cbn [length] in Hpos. lia. }
  destruct path as [|c path].
  { cbn [reclaim_path]. exists T. split; [done|]. split; [by apply evolves_refl|].
    destruct Hpath as (_ & _ & [= ->] & _). intros Htight a Ha Hr. by apply Htight. }
  change (default 0 (head (t :: c :: path))) with t.
  change (reclaim_path (t :: c :: path) (S l) va h m) with
    (if negb (table_is_empty t m) then (h, m)
     else let m := set_word (entry_at c (table_index va (S (S l)))) 0 m in
          let '(h, m) := release_table h t m in reclaim_path (c :: path) (S (S l)) va h m).
  pose proof (table_is_empty_spec m t) as Hspec. destruct (table_is_empty t m); cbn [negb].
  2: { exists T. split; [done|]. split; [by apply evolves_refl|]. intros Htight a Ha Hr.
       destruct (decide (a = t)) as [-> |]; [done|by apply Htight]. }
  pose proof Hpath as (Hlen & _ & _ & Hk). cbn [length] in Hlen.
  pose proof (Hk 0%nat t eq_refl) as HT. pose proof (Hk 1%nat c eq_refl) as Hc.
  rewrite Nat.add_0_r in HT. replace (S l + 1)%nat with (S (S l)) in Hc by lia.
  assert (Hl : (S l < 4)%nat) by (destruct (tree_table _ _ _ (proj1 Hs) c _ _ Hc); lia).
  pose proof (reclaim_step h m T t c va l Hs HT Hc Hl Hspec) as Hstep. cbv zeta.
  destruct (release_table h t _) as [h1 m1]. destruct Hstep as [Hev Htight'].
  specialize (IH (S l) h1 m1 (delete t T) (ev_space _ _ _ _ _ _ _ Hev)).
  destruct (reclaim_path (c :: path) (S (S l)) va h1 m1) as [h' m'].
  destruct IH as (T' & Hsub & Hev' & Ht').
  - apply (path_ok_tail h h1 T (delete t T) va l t c path Hpath (proj1 (ev_root _ _ _ _ _ _ _ Hev))).
    intros a x Hne Ha. by rewrite lookup_delete_ne.
  - exists T'. split; [etransitivity; [done|apply delete_subseteq]|]. split; [|by intros ?%Htight'%Ht'].
    eapply evolves_iff; [exact (evolves_trans _ _ _ _ _ _ _ _ _ _ _ Hev Hev')|]. tauto.
Qed.

Lemma table_path_spec n c t h m T va :
  tree_ok h m T -> T !! t = Some (1%nat, prefix va 1) -> T !! c = Some (S n, prefix va (S n)) ->
  exists path, table_path n c va m = Some path /\ length path = S n /\ last path = Some c /\
    head path = Some t /\ forall k a, path !! k = Some a -> T !! a = Some (S k, prefix va (S k)).
Proof.
  intros Ht HT. revert c. induction n as [|n IH]; intros c Hc; cbn [table_path].
  { exists [c]. rewrite (tree_unique h m T c t 1 (prefix va 1) Ht Hc HT). split_and!; try done.
    intros [|k] a; cbn; [by intros [= <-]|done]. }
  destruct (tree_table _ _ _ Ht c _ _ Hc) as (Hl & _).
  destruct (table_ancestor h m T t va 1 n Ht HT ltac:(lia)) as (d & Hd). cbn [Nat.add] in Hd.
  destruct (table_parent h m T d c va (S n) Ht Hd Hc ltac:(lia)) as (Hp & Hf & _).
  fold (entry m c (table_index va (S (S n)))). cbv zeta. apply points_spec in Hp as [-> ->]. cbn [negb orb].
  fold (frame_of (entry m c (table_index va (S (S n))))). rewrite Hf.
  destruct (IH d Hd) as (path & -> & Hlen & Hlast & Hhead & Hk). exists (path ++ [c]).
  split; [done|]. split; [rewrite length_app; cbn [length]; lia|]. split; [apply last_snoc|].
  split; [by destruct path|]. intros k a [Ha|[Hge Ha]]%lookup_app_Some; [by apply Hk|].
  rewrite Hlen in Ha, Hge. apply list_lookup_singleton_Some in Ha as [E ->].
  replace (S k) with (S (S n)) by lia. done.
Qed.

(** Reclamation after the leaf of [va] in table [t] was cleared. *)
Lemma reclaim_spec h m T t va :
  space_ok h m T -> T !! t = Some (1%nat, prefix va 1) ->
  let '(h', m') := reclaim_empty_tables h va m in
  exists T', T' ⊆ T /\ evolves quiet h h' m m' T T' /\ (tight_but t h m T -> tight h' m' T').
Proof.
  intros Hs HT. unfold reclaim_empty_tables. change (PAGING_LEVEL_COUNT - 1)%nat with 3%nat.
  destruct (table_path_spec 3 (root h) t h m T va (proj1 Hs) HT (root_prefix h m T va (proj1 Hs)))
    as (path & -> & Hlen & Hlast & Hhead & Hk).
  assert (default 0 (head path) = t) as <- by (by rewrite Hhead).
  apply (reclaim_path_spec path 0); [done|]. split; [lia|]. split; [lia|]. done.
Qed.

(** ** One page *)

Lemma same_page_prefix va va' l :
  prefix va 0 = prefix va' 0 -> (l <= 4)%nat -> prefix va l = prefix va' l.
Proof.
  intros E. induction l as [|l IH]; intros Hl; [done|]. specialize (IH ltac:(lia)).
  rewrite (prefix_step va l), (prefix_step va' l) in IH by lia.
  pose proof (table_index_range va (S l)). pose proof (table_index_range va' (S l)). lia.
Qed.

Lemma same_page_index va va' l :
  prefix va 0 = prefix va' 0 -> (l < 4)%nat -> table_index va (S l) = table_index va' (S l).
Proof.
  intros E Hl. pose proof (same_page_prefix va va' l E ltac:(lia)) as E1.
  pose proof (same_page_prefix va va' (S l) E ltac:(lia)) as E2.
  rewrite (prefix_step va l), (prefix_step va' l) in E1 by lia. lia.
Qed.

Lemma entry_for_reached h m T t va :
  tree_ok h m T -> T !! t = Some (1%nat, prefix va 1) ->
  entry_for h va 1 false m = (inr (entry_at t (table_index va 1)), h, m).
Proof. intros Ht HT. by apply (entry_walk_reached 3 (root h) t h m T va Ht HT), root_prefix with m. Qed.

(** The lookup of a page against its translation. *)
Lemma entry_for_find h m T va pat :
  tree_ok h m T ->
  let '(r, h', m') := entry_for h va 1 false m in
  h' = h /\ m' = m /\
  match r with
  | inr e => exists t, e = entry_at t (table_index va 1) /\ T !! t = Some (1%nat, prefix va 1) /\
      translation h m va pat =
        if has (word m e) PAGE_PRESENT then
          (PAGING_STATUS_OK, fill_translation (word m e) va 1 (has (word m e) PAGE_WRITABLE)
             (negb (has (word m e) PAGE_NO_EXECUTE)) false pat)
        else (PAGING_STATUS_NOT_MAPPED, no_translation)
  | inl PAGING_STATUS_NOT_MAPPED =>
      translation h m va pat = (PAGING_STATUS_NOT_MAPPED, no_translation)
  | inl PAGING_STATUS_HUGE_PAGE_PRESENT =>
      exists t, translation h m va pat = (PAGING_STATUS_OK, t) /\ level t <> 1
  | inl _ => False
  end.
Proof.
  intros Ht. apply (entry_walk_find 3 va (root h) h m T true true true pat Ht).
  by apply root_prefix with m.
Qed.

Section WriteLeaf.
Context (h : hierarchy) (m : memory) (T : tables) (t va v : Z).
Hypothesis Hs : space_ok h m T.
Hypothesis HT : T !! t = Some (1%nat, prefix va 1).
Hypothesis Hva : page va.
Let m' : memory := invalidate h va (set_word (entry_at t (table_index va 1)) v m).

Lemma invalidate_words h0 a m0 :
  words (invalidate h0 a m0) = words m0 /\ frame_state (invalidate h0 a m0) = frame_state m0 /\
  cr3 (invalidate h0 a m0) = cr3 m0 /\ failure (invalidate h0 a m0) = failure m0.
Proof. unfold invalidate. by destruct (live h0 || _). Qed.

Lemma write_entry b j : entry m' b j = entry (set_word (entry_at t (table_index va 1)) v m) b j.
Proof. unfold entry, word, m'. by destruct (invalidate_words h va (set_word (entry_at t (table_index va 1)) v m)) as [-> _]. Qed.

Lemma write_translation n c a w x u pat :
  translate_walk n c a w x u pat m' =
  translate_walk n c a w x u pat (set_word (entry_at t (table_index va 1)) v m).
Proof.
  revert c w x u. induction n as [|n IH]; intros c w x u; rewrite !(translate_walk_unfold _ c); cbv zeta;
    rewrite write_entry; [done|].
  destruct (negb _); [done|]. destruct (has _ PAGE_HUGE); [done|]. apply IH.
Qed.

(** Writing the leaf of a page and invalidating it. *)
Lemma write_leaf_evolves : evolves (eq va) h h m m' T T.
Proof.
  destruct (invalidate_words h va (set_word (entry_at t (table_index va 1)) v m)) as (Hw & Hf & Hc & _).
  fold m' in Hw, Hf, Hc. pose proof (leaf_ok h m T t va v Hs HT) as Hs'.
  assert (Hok : space_ok h m' T).
  { destruct Hs' as (Ht & Hwf & Hi & Ha). split; [|by rewrite Hf].
    apply (tree_ok_leaves h h (set_word (entry_at t (table_index va 1)) v m) m' T Ht);
      [done|done|by rewrite Hf|]. intros b l p j _ _. apply write_entry. }
  split; [exact Hok|done|exact Hc|..].
  - intros g. by rewrite Hf.
  - intros a pat Hca Hne. unfold translation. rewrite write_translation.
    apply (leaf_elsewhere h m T t va v Hs HT); [|by apply root_prefix with m, Hs].
    apply page_ne; [done|done|congruence].
  - unfold m', invalidate. destruct (live h) eqn:Hl; cbn [orb].
    + exists [va]. split; [done|]. intros _ a <-. set_solver.
    + destruct (negb _ && _); [exists [va]|exists []]; done.
Qed.

Lemma write_leaf_translation a pat :
  address_is_canonical a = true -> page_of a = va ->
  translation h m' a pat =
    if has v PAGE_PRESENT then
      (PAGING_STATUS_OK, fill_translation v a 1 (has v PAGE_WRITABLE) (negb (has v PAGE_NO_EXECUTE)) false pat)
    else (PAGING_STATUS_NOT_MAPPED, no_translation).
Proof.
  intros Hc Hp. assert (E : prefix va 0 = prefix a 0) by (by rewrite <- Hp, prefix_page_of).
  unfold translation. rewrite write_translation. rewrite (same_page_index va a 0 E) by lia.
  apply (leaf_here h m T t a v Hs). by rewrite <- (same_page_prefix va a 1 E) by lia.
Qed.
End WriteLeaf.

Definition unmapped : paging_status * paging_translation := (PAGING_STATUS_NOT_MAPPED, no_translation).

(** A 4 KiB page is mapped at [va]. *)
Definition mapped (h : hierarchy) (m : memory) (va : Z) : Prop :=
  exists tr, translation h m va 0 = (PAGING_STATUS_OK, tr) /\ level tr = 1.

Lemma mapped_reached h m T va :
  tree_ok h m T -> mapped h m va <->
  exists t, T !! t = Some (1%nat, prefix va 1) /\ has (entry m t (table_index va 1)) PAGE_PRESENT = true.
Proof.
  intros Ht. pose proof (entry_for_find h m T va 0 Ht) as Hf. split.
  - intros (tr & Htr & Hl). destruct (entry_for h va 1 false m) as [[[st|e] h'] m'].
    + destruct Hf as (_ & _ & Hf). destruct st; try done; [congruence|]. destruct Hf as (tr' & E & Hne). congruence.
    + destruct Hf as (_ & _ & t & -> & HT & E). exists t. split; [done|].
      fold (entry m t (table_index va 1)) in E. destruct (has _ PAGE_PRESENT); [done|congruence].
  - intros (t & HT & Hp). rewrite (entry_for_reached h m T t va Ht HT) in Hf.
    destruct Hf as (_ & _ & t' & Ee & _ & E). fold (entry m t (table_index va 1)) in E.
    rewrite Hp in E. by eexists.
Qed.

(** Clearing one mapped page and reclaiming what that emptied. *)
Lemma clear_step h m T t va :
  space_ok h m T -> T !! t = Some (1%nat, prefix va 1) -> page va ->
  let '(h', m') := reclaim_empty_tables h va (invalidate h va (set_word (entry_at t (table_index va 1)) 0 m)) in
  exists T', T' ⊆ T /\ evolves (eq va) h h' m m' T T' /\
    (forall a pat, address_is_canonical a = true -> page_of a = va -> translation h' m' a pat = unmapped) /\
    (tight h m T -> tight h' m' T').
Proof.
  intros Hs HT Hva. pose proof (write_leaf_evolves h m T t va 0 Hs HT Hva) as Hev.
  pose proof (write_leaf_translation h m T t va 0 Hs HT) as Htr.
  pose proof (write_entry h m t va 0) as Hen.
  set (m1 := invalidate h va _) in *.
  pose proof (reclaim_spec h m1 T t va (ev_space _ _ _ _ _ _ _ Hev) HT) as Hrec.
  destruct (reclaim_empty_tables h va m1) as [h' m']. destruct Hrec as (T' & Hsub & Hev' & Htight).
  exists T'. split; [done|]. split; [|split].
  - eapply evolves_iff; [exact (evolves_trans _ _ _ _ _ _ _ _ _ _ _ Hev Hev')|]. tauto.
  - intros a pat Hc Hp. rewrite (ev_translates _ _ _ _ _ _ _ Hev') by tauto. rewrite Htr by done.
    by rewrite has_zero.
  - intros Hti. apply Htight. intros b Hb Hr Hbt. destruct (Hti b Hb Hr) as (j & Hj & Hpj).
    exists j. split; [done|]. rewrite Hen. destruct Hb as [[lb pb] Hb].
    destruct (tree_table _ _ _ (proj1 Hs) b _ _ Hb) as (_ & _ & Hmb & _).
    destruct (tree_table _ _ _ (proj1 Hs) t _ _ HT) as (_ & _ & Hmt & _).
    rewrite entry_set_ne; [done|done|done|apply table_index_range|done|congruence].
Qed.

(** ** Ranges *)

(** The [n] pages from [va] on. *)
Definition span (va : Z) (n : nat) (a : Z) : Prop := exists k : nat, (k < n)%nat /\ a = va + 4096 * Z.of_nat k.

Lemma span_alt va n a : span va n a <-> va <= a < va + 4096 * Z.of_nat n /\ (a - va) mod 4096 = 0.
Proof.
  split.
  - intros (k & Hk & ->). split; [lia|]. replace (va + 4096 * Z.of_nat k - va) with (Z.of_nat k * 4096) by lia.
    by apply Z.mod_mul.
  - intros [Hb Hm]. exists (Z.to_nat ((a - va) / 4096)). div_lia.
Qed.

#[global] Instance span_dec va n a : Decision (span va n a).
Proof. refine (cast_if (decide (va <= a < va + 4096 * Z.of_nat n /\ (a - va) mod 4096 = 0))); by rewrite span_alt. Defined.

Lemma span_0 va a : ~ span va 0 a.
Proof. intros (k & Hk & _). lia. Qed.

Lemma span_S va n a : span va (S n) a <-> va = a \/ span (va + 4096) n a.
Proof.
  split.
  - intros ([|k] & Hk & ->); [left; lia|right; exists k; lia].
  - intros [<-|(k & Hk & ->)]; [exists 0%nat; lia|exists (S k); lia].
Qed.

Lemma span_head va n : ~ span (va + 4096) n va.
Proof. intros (k & _ & E). lia. Qed.

Definition pages (va : Z) (n : nat) : Prop := forall a, span va n a -> page a.

Lemma pages_S va n : pages va (S n) -> page va /\ pages (va + 4096) n.
Proof. intros H. split; [apply H|intros a Ha; apply H]; rewrite span_S; auto. Qed.

Lemma mapped_evolves K h h' m m' T T' a :
  evolves K h h' m m' T T' -> page a -> ~ K a -> mapped h m a -> mapped h' m' a.
Proof.
  intros Hev Hp Hk (tr & Htr & Hl). exists tr. split; [|done].
  rewrite (ev_translates _ _ _ _ _ _ _ Hev); [done|apply Hp|by rewrite page_of_id].
Qed.

Lemma clear_run_spec n va h m T :
  space_ok h m T -> pages va n -> (forall a, span va n a -> mapped h m a) ->
  let '(h', m') := clear_run n va 1 h m in
  exists T', T' ⊆ T /\ evolves (span va n) h h' m m' T T' /\
    (forall a pat, address_is_canonical a = true -> span va n (page_of a) -> translation h' m' a pat = unmapped) /\
    (tight h m T -> tight h' m' T').
Proof.
  revert va h m T. induction n as [|n IH]; intros va h m T Hs Hpg Hmp; cbn [clear_run].
  { exists T. split; [done|]. split; [|split; [|done]].
    - eapply evolves_iff; [by apply evolves_refl|]. intros a. pose proof (span_0 va a). tauto.
    - by intros a pat _ ?%span_0. }
  destruct (pages_S va n Hpg) as [Hva Hpg'].
  destruct (proj1 (mapped_reached h m T va (proj1 Hs)) (Hmp va ltac:(rewrite span_S; auto))) as (t & HT & _).
  rewrite (entry_for_reached h m T t va (proj1 Hs) HT). cbv zeta. change (1 =? 1)%nat with true. cbv iota.
  pose proof (clear_step h m T t va Hs HT Hva) as Hstep.
  destruct (reclaim_empty_tables h va _) as [h1 m1]. destruct Hstep as (T1 & Hsub & Hev & Htr & Hti).
  change (level_page_size 1) with 4096.
  specialize (IH (va + 4096) h1 m1 T1 (ev_space _ _ _ _ _ _ _ Hev) Hpg').
  destruct (clear_run n (va + 4096) 1 h1 m1) as [h' m']. destruct IH as (T' & Hsub' & Hev' & Htr' & Hti').
  { intros a Ha. eapply mapped_evolves; [exact Hev|by apply Hpg'| |apply Hmp; rewrite span_S; auto].
    intros <-. by eapply span_head. }
  exists T'. split; [by etransitivity|]. split; [|split; [|auto]].
  - eapply evolves_iff; [exact (evolves_trans _ _ _ _ _ _ _ _ _ _ _ Hev Hev')|].
    intros a. by rewrite span_S.
  - intros a pat Hc [E|Ha]%span_S; [|by apply Htr'].
    rewrite (ev_translates _ _ _ _ _ _ _ Hev' a pat Hc); [by apply Htr|]. rewrite <- E. apply span_head.
Qed.

Lemma write_leaf_tight h m T t va v :
  space_ok h m T -> T !! t = Some (1%nat, prefix va 1) -> has v PAGE_PRESENT = true ->
  tight_but t h m T -> tight h (invalidate h va (set_word (entry_at t (table_index va 1)) v m)) T.
Proof.
  intros Hs HT Hv Hti b Hb Hr. pose proof (table_index_range va 1) as Hri.
  destruct (decide (b = t)) as [-> |Hbt].
  { exists (table_index va 1). split; [done|]. rewrite write_entry. by rewrite entry_set. }
  destruct (Hti b Hb Hr Hbt) as (j & Hj & Hpj). exists j. split; [done|]. rewrite write_entry.
  destruct Hb as [[lb pb] Hb]. destruct (tree_table _ _ _ (proj1 Hs) b _ _ Hb) as (_ & _ & Hmb & _).
  destruct (tree_table _ _ _ (proj1 Hs) t _ _ HT) as (_ & _ & Hmt & _).
  rewrite entry_set_ne; [done|done|done|done|done|congruence].
Qed.

(** The [n] pages from [va] translate to the frames from [pa] with permissions [p]. *)
Definition maps_to (h : hierarchy) (m : memory) (va pa p : Z) (n : nat) : Prop :=
  forall a pat, address_is_canonical a = true -> span va n (page_of a) -> pat_ok pat ->
  translation h m a pat = (PAGING_STATUS_OK, Translation (pa + (a - va)) p (requested_type p) 1 false).

Definition all_unmapped (h : hierarchy) (m : memory) (va : Z) (n : nat) : Prop :=
  forall a pat, address_is_canonical a = true -> span va n (page_of a) -> translation h m a pat = unmapped.

Lemma span_last va n a : span va (S n) a <-> span va n a \/ va + 4096 * Z.of_nat n = a.
Proof.
  split.
  - intros (k & Hk & ->). destruct (decide (k = n)) as [-> |]; [by right|left]. exists k. lia.
  - intros [(k & Hk & ->)|<-]; [exists k; lia|exists n; lia].
Qed.

Lemma span_le va n n' a : (n <= n')%nat -> span va n a -> span va n' a.
Proof. intros Hn (k & Hk & ->). exists k. lia. Qed.

(** Mapping one more page. *)
Lemma fill_step h m T a f p :
  space_ok h m T -> page a -> page_frame f -> validate_permissions p = PAGING_STATUS_OK ->
  (forall pat, translation h m a pat = unmapped) ->
  match entry_for h a 1 true m with
  | (inl st, h', m') => st = PAGING_STATUS_OUT_OF_FRAMES /\
      exists T', T ⊆ T' /\ evolves quiet h h' m m' T T'
  | (inr e, h1, m1) => let m' := invalidate h1 a (set_word e (leaf f p) m1) in
      exists T', T ⊆ T' /\ evolves (eq a) h h1 m m' T T' /\ (tight h m T -> tight h1 m' T') /\
        (forall b pat, address_is_canonical b = true -> page_of b = a -> pat_ok pat ->
           translation h1 m' b pat = (PAGING_STATUS_OK, Translation (f + (b - a)) p (requested_type p) 1 false)) /\
        mapped h1 m' a
  end.
Proof.
  intros Hs Ha Hf Hp Hun. pose proof (entry_for_create h m T a Hs) as Hc.
  destruct (entry_for h a 1 true m) as [[[st|e] h1] m1]; destruct Hc as (T' & He & Hr);
    pose proof (extends_evolves h h1 m m1 T T' Hs He) as Hev; pose proof (ext_sub _ _ _ _ _ _ He) as Hsub.
  - split; [|by exists T']. destruct Hr as [-> |[_ Hr]]; [done|]. destruct (Hr 0) as (tr & E).
    specialize (Hun 0). unfold translation in Hun. rewrite E in Hun. by injection Hun.
  - destruct Hr as (t & -> & HT & Hti). cbv zeta. exists T'.
    pose proof (ev_space _ _ _ _ _ _ _ Hev) as Hs1.
    pose proof (write_leaf_evolves h1 m1 T' t a (leaf f p) Hs1 HT Ha) as Hev'.
    destruct (leaf_fields f p Hf Hp) as (_ & Hpr & _).
    split; [done|]. split; [|split; [|split]].
    + eapply evolves_iff; [exact (evolves_trans _ _ _ _ _ _ _ _ _ _ _ Hev Hev')|]. tauto.
    + intros Ht. apply write_leaf_tight; [done|done|done|by apply Hti].
    + intros b pat Hcb Hb Hpat. rewrite (write_leaf_translation h1 m1 T' t a (leaf f p) Hs1 HT) by done.
      rewrite Hpr, leaf_translation by done. do 2 f_equal. rewrite <- Hb. unfold page_of. lia.
    + apply (mapped_reached _ _ T' a (proj1 (ev_space _ _ _ _ _ _ _ Hev'))). exists t. split; [done|].
      by rewrite write_entry, entry_set.
Qed.

Lemma steps_pages n : steps (4096 * Z.of_nat n) 4096 = n.
Proof. unfold steps. replace ((4096 * Z.of_nat n + (4096 - 1)) / 4096) with (Z.of_nat n) by div_lia. lia. Qed.

Section Fill.
Context (h0 : hierarchy) (m0 : memory) (T0 : tables) (va pa p : Z) (N : nat).
Hypothesis Hs0 : space_ok h0 m0 T0.
Hypothesis Hpg : pages va N.
Hypothesis Hfr : forall k : nat, (k < N)%nat -> page_frame (pa + 4096 * Z.of_nat k).
Hypothesis Hp : validate_permissions p = PAGING_STATUS_OK.
Hypothesis Hun : all_unmapped h0 m0 va N.

(** [k] pages have been mapped. *)
Definition filled (k : nat) (h : hierarchy) (m : memory) (T : tables) : Prop :=
  T0 ⊆ T /\ evolves (span va k) h0 h m0 m T0 T /\ maps_to h m va pa p k /\
  (forall a, span va k a -> mapped h m a) /\ (tight h0 m0 T0 -> tight h m T).

Lemma filled_0 : filled 0 h0 m0 T0.
Proof.
  split; [done|]. split; [|split; [|split; [|done]]].
  - eapply evolves_iff; [by apply evolves_refl|]. intros a. pose proof (span_0 va a). tauto.
  - by intros a pat _ ?%span_0.
  - by intros a ?%span_0.
Qed.

Lemma filled_page k h m T :
  (k < N)%nat -> filled k h m T -> let a := va + 4096 * Z.of_nat k in
  page a /\ ~ span va k a /\ forall pat, translation h m a pat = unmapped.
Proof.
  intros Hk (_ & Hev & _) a. assert (Ha : page a) by (apply Hpg; by exists k).
  assert (Hns : ~ span va k a) by (intros (j & Hj & E); lia). split; [done|]. split; [done|].
  intros pat. rewrite (ev_translates _ _ _ _ _ _ _ Hev); [|apply Ha|by rewrite page_of_id].
  apply Hun; [apply Ha|]. rewrite page_of_id by done. by exists k.
Qed.

(** Taking the mapped pages back changes no translation. *)
Lemma fill_rollback k h m T :
  (k <= N)%nat -> space_ok h m T -> evolves (span va k) h0 h m0 m T0 T -> (forall a, span va k a -> mapped h m a) ->
  let '(h', m') := clear_range h va (4096 * Z.of_nat k) 1 m in
  exists T', evolves quiet h0 h' m0 m' T0 T' /\ T' ⊆ T.
Proof.
  intros Hk Hs Hev Hmp. unfold clear_range. change (level_page_size 1) with 4096. rewrite steps_pages.
  assert (Hpg' : pages va k) by (intros a Ha; by apply Hpg, (span_le va k N)).
  pose proof (clear_run_spec k va h m T Hs Hpg' Hmp) as Hc.
  destruct (clear_run k va 1 h m) as [h' m']. destruct Hc as (T' & Hsub & Hev' & Hcl & _).
  exists T'. split; [|done]. pose proof (evolves_trans _ _ _ _ _ _ _ _ _ _ _ Hev Hev') as E.
  split; try apply E.
  - intros a pat Hca _. destruct (decide (span va k (page_of a))) as [Hin|Hout].
    + rewrite Hcl by done. symmetry. apply Hun; [done|]. by apply (span_le va k N).
    + apply (ev_translates _ _ _ _ _ _ _ E); [done|tauto].
  - destruct (ev_flushed _ _ _ _ _ _ _ E) as (l & El & _). by exists l.
Qed.

Lemma fill_run_spec n k h m T :
  (k + n = N)%nat -> filled k h m T ->
  match fill_run n va pa (4096 * Z.of_nat k) p 1 h m with
  | (PAGING_STATUS_OK, h', m') => exists T', filled N h' m' T'
  | (st, h', m') => st = PAGING_STATUS_OUT_OF_FRAMES /\ exists T', evolves quiet h0 h' m0 m' T0 T'
  end.
Proof.
  revert k h m T. induction n as [|n IH]; intros k h m T Hk Hf; cbn [fill_run].
  { exists T. by replace N with k by lia. }
  destruct (filled_page k h m T ltac:(lia) Hf) as (Ha & Hns & Hua).
  destruct Hf as (Hsub & Hev & Hmaps & Hmp & Hti). pose proof (ev_space _ _ _ _ _ _ _ Hev) as Hs.
  pose proof (fill_step h m T (va + 4096 * Z.of_nat k) (pa + 4096 * Z.of_nat k) p Hs Ha
    (Hfr k ltac:(lia)) Hp Hua) as Hstep.
  destruct (entry_for h (va + 4096 * Z.of_nat k) 1 true m) as [[[st|e] h1] m1].
  - destruct Hstep as (-> & T1 & Hsub1 & Hev1).
    assert (Hev2 : evolves (span va k) h0 h1 m0 m1 T0 T1).
    { eapply evolves_iff; [exact (evolves_trans _ _ _ _ _ _ _ _ _ _ _ Hev Hev1)|]. tauto. }
    pose proof (fill_rollback k h1 m1 T1 ltac:(lia) (ev_space _ _ _ _ _ _ _ Hev2) Hev2) as Hrb.
    destruct (clear_range h1 va (4096 * Z.of_nat k) 1 m1) as [h2 m2].
    destruct Hrb as (T2 & Hev3 & _); [|split; [done|by exists T2]].
    intros a Hsp. eapply mapped_evolves; [exact Hev1| |tauto|by apply Hmp].
    apply Hpg. by apply (span_le va k N); [lia|].
  - cbv zeta in Hstep |- *. destruct Hstep as (T1 & Hsub1 & Hev1 & Hti1 & Htr1 & Hmp1).
    change (1 <? 1)%nat with false. cbv iota. fold (leaf (pa + 4096 * Z.of_nat k) p).
    replace (4096 * Z.of_nat k + level_page_size 1) with (4096 * Z.of_nat (S k))
      by (change (level_page_size 1) with 4096; lia).
    apply (IH (S k) h1 _ T1); [lia|]. split; [by etransitivity|]. split; [|split; [|split; [|by auto]]].
    + eapply evolves_iff; [exact (evolves_trans _ _ _ _ _ _ _ _ _ _ _ Hev Hev1)|].
      intros a. by rewrite span_last.
    + intros a pat Hca [Hin|E]%span_last Hpat.
      * rewrite (ev_translates _ _ _ _ _ _ _ Hev1 a pat Hca); [by apply Hmaps|].
        intros E. by rewrite <- E in Hin.
      * rewrite (Htr1 a pat Hca (eq_sym E) Hpat). do 2 f_equal. lia.
    + intros a [Hin|<-]%span_last; [|done]. eapply mapped_evolves; [exact Hev1| | |by apply Hmp].
      * apply Hpg. by apply (span_le va k N); [lia|].
      * intros <-. done.
Qed.
End Fill.

(** ** Validation *)

Lemma virtual_range_ok va len :
  validate_virtual_range va len 4096 = PAGING_STATUS_OK ->
  len <> 0 /\ va mod 4096 = 0 /\ len mod 4096 = 0 /\ address_is_canonical va = true /\
  va + len < 2 ^ 64 /\ address_is_canonical (va + len - 1) = true.
Proof.
  unfold validate_virtual_range. change (4096 - 1) with (2 ^ 12 - 1). rewrite !land_mask by lia.
  change (2 ^ 12) with 4096. change UINT64_MAX with (2 ^ 64 - 1).
  destruct (Z.eqb_spec len 0); [done|]. destruct (Z.eqb_spec (va mod 4096) 0); [|done].
  destruct (Z.eqb_spec (len mod 4096) 0); [|done]. cbn [negb orb].
  destruct (address_is_canonical va) eqn:Hc; [|done]. cbn [negb].
  destruct (Z.ltb_spec (2 ^ 64 - 1 - va) len); [done|].
  destruct (address_is_canonical (va + len - 1)) eqn:Hc'; [|done]. intros _. split_and!; try done. lia.
Qed.

(** A range that does not reach across the hole between the canonical halves is a run
    of pages. *)
Lemma range_pages va len :
  validate_virtual_range va len 4096 = PAGING_STATUS_OK -> 0 <= len < 2 ^ 63 ->
  len = 4096 * Z.of_nat (steps len 4096) /\ pages va (steps len 4096).
Proof.
  intros (_ & Hm & Hl & Hc & Hb & Hc')%virtual_range_ok Hlen.
  assert (E : len = 4096 * Z.of_nat (steps len 4096)).
  { unfold steps. rewrite Z2Nat.id by div_lia. div_lia. }
  split; [done|]. revert Hc Hc'. unfold pages, page. setoid_rewrite canonical_range. intros Hc Hc' a (k & Hk & ->).
  assert (Z.of_nat (S k) <= Z.of_nat (steps len 4096)) by lia.
  revert Hc Hc' Hlen Hb. change (2 ^ 47) with 140737488355328. change (2 ^ 64) with 18446744073709551616.
  change (2 ^ 63) with 9223372036854775808. intros. split; [lia|]. clear -Hm. div_lia.
Qed.

Lemma physical_range_ok pa len :
  validate_physical_range pa len 4096 = PAGING_STATUS_OK -> 0 <= pa ->
  pa mod 4096 = 0 /\ pa + len <= 2 ^ 52.
Proof.
  intros Hv Hpa. revert Hv. unfold validate_physical_range. change (4096 - 1) with (2 ^ 12 - 1).
  rewrite land_mask by lia. change (2 ^ 12) with 4096. change PAGE_PHYSICAL_LIMIT with (2 ^ 52).
  destruct (Z.eqb_spec (pa mod 4096) 0); [|done]. cbn [negb].
  destruct (Z.ltb_spec (UINT64_MAX - pa) len); [done|]. destruct (Z.ltb_spec (2 ^ 52) (pa + len)); [done|]. done.
Qed.

Lemma range_frames pa len k :
  validate_physical_range pa len 4096 = PAGING_STATUS_OK -> 0 <= pa ->
  len = 4096 * Z.of_nat (steps len 4096) -> (k < steps len 4096)%nat -> page_frame (pa + 4096 * Z.of_nat k).
Proof.
  intros Hv Hpa E Hk. destruct (physical_range_ok pa len Hv Hpa) as [Hm Hb]. split; [lia|]. clear -Hm. div_lia.
Qed.

(** ** The checking passes *)

Lemma walk_unmapped n t va va' w x u w' x' u' pat pat' m :
  (n < 4)%nat -> prefix va 0 = prefix va' 0 -> translate_walk n t va w x u pat m = unmapped ->
  translate_walk n t va' w' x' u' pat' m = unmapped.
Proof.
  intros Hn E. revert t w x u w' x' u' Hn. induction n as [|n IH]; intros t w x u w' x' u' Hn;
    rewrite !(translate_walk_unfold _ t); cbv zeta; rewrite (same_page_index va va' _ E Hn);
    (destruct (negb _); [done|]); [done|].
  destruct (has _ PAGE_HUGE); [done|]. apply IH. lia.
Qed.

Lemma page_unmapped h m va :
  translation h m va 0 = unmapped ->
  forall a pat, page_of a = va -> translation h m a pat = unmapped.
Proof.
  intros H a pat Ha. apply (walk_unmapped 3 (root h) va a true true true true true true 0 pat m); [lia| |done].
  by rewrite <- Ha, prefix_page_of.
Qed.

Lemma walk_total n t va w x u pat m :
  translate_walk n t va w x u pat m = unmapped \/ exists tr, translate_walk n t va w x u pat m = (PAGING_STATUS_OK, tr).
Proof.
  revert t w x u. induction n as [|n IH]; intros t w x u; rewrite translate_walk_unfold; cbv zeta;
    (destruct (negb _); [by left|]); [right; by eexists|].
  destruct (has _ PAGE_HUGE); [right; by eexists|]. apply IH.
Qed.

(** Every address of a mapped page translates. *)
Lemma mapped_address h m a pat :
  mapped h m (page_of a) -> exists tr, translation h m a pat = (PAGING_STATUS_OK, tr).
Proof.
  intros (tr & Htr & _). destruct (walk_total 3 (root h) a true true true pat m) as [Hu|Hex]; [|done].
  exfalso. assert (E : translation h m (page_of a) 0 = unmapped).
  { apply (walk_unmapped 3 (root h) a (page_of a) true true true true true true pat 0 m); [lia| |done].
    by rewrite prefix_page_of. }
  rewrite E in Htr. by injection Htr.
Qed.

Lemma check_run_spec n va h m T :
  tree_ok h m T ->
  match check_run n va 1 h m with
  | PAGING_STATUS_OK => all_unmapped h m va n
  | PAGING_STATUS_ALREADY_MAPPED => exists a, span va n a /\ mapped h m a
  | PAGING_STATUS_HUGE_PAGE_PRESENT =>
      exists a tr, span va n a /\ translation h m a 0 = (PAGING_STATUS_OK, tr) /\ level tr <> 1
  | _ => False
  end.
Proof.
  intros Ht. revert va. induction n as [|n IH]; intros va; cbn [check_run].
  { by intros a pat _ ?%span_0. }
  pose proof (entry_for_find h m T va 0 Ht) as Hf. unfold find_entry.
  destruct (entry_for h va 1 false m) as [[r h'] m']. destruct Hf as (_ & _ & Hf). cbn [fst].
  assert (Hrest : translation h m va 0 = unmapped ->
    match check_run n (va + level_page_size 1) 1 h m with
    | PAGING_STATUS_OK => all_unmapped h m va (S n)
    | PAGING_STATUS_ALREADY_MAPPED => exists a, span va (S n) a /\ mapped h m a
    | PAGING_STATUS_HUGE_PAGE_PRESENT =>
        exists a tr, span va (S n) a /\ translation h m a 0 = (PAGING_STATUS_OK, tr) /\ level tr <> 1
    | _ => False
    end).
  { intros Hu. change (level_page_size 1) with 4096. specialize (IH (va + 4096)).
    destruct (check_run n (va + 4096) 1 h m); try done.
    - intros a pat Hca [E|Ha]%span_S; [by apply (page_unmapped h m va)|by apply IH].
    - destruct IH as (a & Ha & Hm). exists a. rewrite span_S. auto.
    - destruct IH as (a & tr & Ha & Hm). exists a, tr. rewrite span_S. auto. }
  destruct r as [st|e].
  - destruct st; try done; [by apply Hrest|]. destruct Hf as (tr & Htr & Hl). exists va, tr. rewrite span_S. auto.
  - destruct Hf as (t & -> & HT & E). destruct (has _ PAGE_PRESENT) eqn:Hp; [|by apply Hrest].
    exists va. rewrite span_S. split; [by left|]. apply (mapped_reached h m T va Ht). by exists t.
Qed.

Lemma require_mapped_spec n va h m T :
  tree_ok h m T ->
  match require_mapped n va h m with
  | PAGING_STATUS_OK => forall a, span va n a -> mapped h m a
  | PAGING_STATUS_NOT_MAPPED | PAGING_STATUS_HUGE_PAGE_PRESENT => exists a, span va n a /\ ~ mapped h m a
  | _ => False
  end.
Proof.
  intros Ht. revert va. induction n as [|n IH]; intros va; cbn [require_mapped].
  { by intros a ?%span_0. }
  pose proof (entry_for_find h m T va 0 Ht) as Hf. unfold find_entry. pose proof (mapped_reached h m T va Ht) as Hr.
  destruct (entry_for h va 1 false m) as [[[st|e] h'] m']; destruct Hf as (_ & _ & Hf); cbn [fst].
  - assert (Hn : (exists tr, translation h m va 0 = tr /\ (tr = unmapped \/ level tr.2 <> 1)) ->
              exists a, span va (S n) a /\ ~ mapped h m a).
    { intros (tr & E & Hc). exists va. rewrite span_S. split; [by left|]. intros (tr' & E' & Hl).
      rewrite E in E'. rewrite E' in Hc. destruct Hc as [Hc|Hc]; [unfold unmapped in Hc; congruence|exact (Hc Hl)]. }
    destruct st; try done; apply Hn; [eexists; by auto|]. destruct Hf as (tr & -> & Hl). eexists. split; [done|]. by right.
  - destruct Hf as (t & -> & HT & E). fold (entry m t (table_index va 1)) in *.
    destruct (has (entry m t (table_index va 1)) PAGE_PRESENT) eqn:Hp; cbn [negb].
    + change PAGING_PAGE_SIZE with 4096. specialize (IH (va + 4096)).
      destruct (require_mapped n (va + 4096) h m); try done.
      * intros a [<-|Ha]%span_S; [apply Hr; by exists t|by apply IH].
      * destruct IH as (a & Ha & Hn). exists a. rewrite span_S. auto.
      * destruct IH as (a & Ha & Hn). exists a. rewrite span_S. auto.
    + exists va. rewrite span_S. split; [by left|]. intros (tr & Htr & _). rewrite E in Htr. by injection Htr.
Qed.

(** ** Mapping and unmapping *)

Lemma map_range_spec h m T va pa len p :
  space_ok h m T -> 0 <= pa -> 0 <= len ->
  match map_range h va pa len p 1 m with
  | (PAGING_STATUS_OK, h', m') =>
      let n := steps len 4096 in
      validate_virtual_range va len 4096 = PAGING_STATUS_OK /\ len < 2 ^ 63 /\
      pages va n /\ len = 4096 * Z.of_nat n /\ validate_permissions p = PAGING_STATUS_OK /\
      all_unmapped h m va n /\
      exists T', T ⊆ T' /\ evolves (span va n) h h' m m' T T' /\ maps_to h' m' va pa p n /\
        (forall a, span va n a -> mapped h' m' a) /\ (tight h m T -> tight h' m' T')
  | (PAGING_STATUS_OUT_OF_FRAMES, h', m') => exists T', evolves quiet h h' m m' T T'
  | (_, h', m') => h' = h /\ m' = m
  end.
Proof.
  intros Hs Hpa Hlen. unfold map_range. change (level_page_size 1) with 4096. cbv zeta.
  destruct (validate_permissions p) eqn:Hp; try done; [|unfold validate_permissions in Hp; repeat case_match; done].
  destruct (validate_virtual_range va len 4096) eqn:Hv; try done;
    [|unfold validate_virtual_range in Hv; repeat case_match; done].
  destruct (validate_physical_range pa len 4096) eqn:Hph; try done;
    [|unfold validate_physical_range in Hph; repeat case_match; done].
  destruct (physical_range_ok pa len Hph Hpa) as [_ Hb].
  assert (Hl : len < 2 ^ 63)
    by (change (2 ^ 63) with 9223372036854775808; change (2 ^ 52) with 4503599627370496 in Hb; lia).
  destruct (range_pages va len Hv (conj Hlen Hl)) as [E Hpg].
  pose proof (check_run_spec (steps len 4096) va h m T (proj1 Hs)) as Hc.
  destruct (check_run (steps len 4096) va 1 h m) eqn:Hck; try done.
  pose proof (fill_run_spec h m T va pa p (steps len 4096) Hpg
    (fun k => range_frames pa len k Hph Hpa E) Hp Hc (steps len 4096) 0 h m T ltac:(lia)
    (filled_0 h m T va pa p Hs)) as Hf.
  change (4096 * Z.of_nat 0) with 0 in Hf.
  destruct (fill_run (steps len 4096) va pa 0 p 1 h m) as [[st h'] m'].
  destruct st; try (by destruct Hf). destruct Hf as (T' & Hf). split_and!; try done. by exists T'.
Qed.

Lemma unmap_range_spec h m T va len :
  space_ok h m T -> 0 <= len < 2 ^ 63 ->
  match unmap_range h va len m with
  | (PAGING_STATUS_OK, h', m') =>
      let n := steps len 4096 in
      pages va n /\ len = 4096 * Z.of_nat n /\ (forall a, span va n a -> mapped h m a) /\
      exists T', T' ⊆ T /\ evolves (span va n) h h' m m' T T' /\ all_unmapped h' m' va n /\
        (tight h m T -> tight h' m' T')
  | (_, h', m') => h' = h /\ m' = m
  end.
Proof.
  intros Hs Hlen. unfold unmap_range. change PAGING_PAGE_SIZE with 4096.
  destruct (validate_virtual_range va len 4096) eqn:Hv; try done.
  destruct (range_pages va len Hv Hlen) as [E Hpg]. unfold require_mapped_range. change PAGING_PAGE_SIZE with 4096.
  pose proof (require_mapped_spec (steps len 4096) va h m T (proj1 Hs)) as Hr.
  destruct (require_mapped (steps len 4096) va h m); try done.
  pose proof (clear_run_spec (steps len 4096) va h m T Hs Hpg Hr) as Hc.
  unfold clear_range. change (level_page_size 1) with 4096.
  destruct (clear_run (steps len 4096) va 1 h m) as [h' m']. done.
Qed.

(** ** Protecting *)

Lemma apply_step h m T t a p :
  space_ok h m T -> T !! t = Some (1%nat, prefix a 1) -> page a -> validate_permissions p = PAGING_STATUS_OK ->
  has (entry m t (table_index a 1)) PAGE_PRESENT = true ->
  let e := entry_at t (table_index a 1) in
  let m' := invalidate h a (set_word e ((word m e .& PAGE_FRAME_MASK) .| permissions_to_flags p) m) in
  evolves (eq a) h h m m' T T /\ (tight h m T -> tight h m' T) /\
  (forall b pat tr, address_is_canonical b = true -> page_of b = a -> pat_ok pat ->
     translation h m b pat = (PAGING_STATUS_OK, tr) ->
     translation h m' b pat =
       (PAGING_STATUS_OK, Translation (physical_address tr) p (requested_type p) 1 false)).
Proof.
  intros Hs HT Ha Hp Hpr e m'. set (f := word m e .& PAGE_FRAME_MASK).
  assert (Hf : page_frame f) by apply frame_is_page. fold (leaf f p) in m'.
  destruct (leaf_fields f p Hf Hp) as (_ & Hlp & _). split; [|split].
  - by apply write_leaf_evolves.
  - intros Hti. apply write_leaf_tight; try done. intros b Hb Hr _. by apply Hti.
  - intros b pat tr Hc Hb Hpat Htr.
    unfold m', e. rewrite (write_leaf_translation h m T t a (leaf f p) Hs HT) by done.
    rewrite Hlp, leaf_translation by done. do 2 f_equal.
    assert (E : prefix a 0 = prefix b 0) by (by rewrite <- Hb, prefix_page_of).
    assert (HTb : T !! t = Some (1%nat, prefix b 1)) by (by rewrite <- (same_page_prefix a b 1 E) by lia).
    pose proof (entry_for_find h m T b pat (proj1 Hs)) as Hfind.
    rewrite (entry_for_reached h m T t b (proj1 Hs) HTb) in Hfind. destruct Hfind as (_ & _ & _ & _ & _ & Hfind).
    rewrite <- (same_page_index a b 0 E) in Hfind by lia. fold e in Hfind. unfold entry in Hpr. fold e in Hpr.
    rewrite Hpr, Htr in Hfind. injection Hfind as ->. by rewrite fill_physical.
Qed.

Lemma apply_run_spec n va p h m T :
  space_ok h m T -> pages va n -> validate_permissions p = PAGING_STATUS_OK ->
  (forall a, span va n a -> mapped h m a) ->
  let m' := apply_run n va (permissions_to_flags p) h m in
  evolves (span va n) h h m m' T T /\ (tight h m T -> tight h m' T) /\
  (forall a pat tr, address_is_canonical a = true -> span va n (page_of a) -> pat_ok pat ->
     translation h m a pat = (PAGING_STATUS_OK, tr) ->
     translation h m' a pat =
       (PAGING_STATUS_OK, Translation (physical_address tr) p (requested_type p) 1 false)).
Proof.
  revert va m. induction n as [|n IH]; intros va m Hs Hpg Hp Hmp; cbn [apply_run].
  { split; [|split; [done|]].
    - eapply evolves_iff; [by apply evolves_refl|]. intros a. pose proof (span_0 va a). tauto.
    - by intros a pat tr _ ?%span_0. }
  destruct (pages_S va n Hpg) as [Hva Hpg'].
  destruct (proj1 (mapped_reached h m T va (proj1 Hs)) (Hmp va ltac:(rewrite span_S; auto))) as (t & HT & Hpr).
  unfold find_entry. rewrite (entry_for_reached h m T t va (proj1 Hs) HT). cbn [fst].
  destruct (apply_step h m T t va p Hs HT Hva Hp Hpr) as (Hev & Hti & Htr).
  set (m1 := invalidate h va _) in *. change PAGING_PAGE_SIZE with 4096.
  destruct (IH (va + 4096) m1 (ev_space _ _ _ _ _ _ _ Hev) Hpg' Hp) as (Hev' & Hti' & Htr').
  { intros a Ha. eapply mapped_evolves; [exact Hev|by apply Hpg'| |apply Hmp; rewrite span_S; auto].
    intros <-. by eapply span_head. }
  cbv zeta. set (m' := apply_run n (va + 4096) _ h m1) in *. split; [|split; [by auto|]].
  - eapply evolves_iff; [exact (evolves_trans _ _ _ _ _ _ _ _ _ _ _ Hev Hev')|]. intros a. by rewrite span_S.
  - intros a pat tr Hc [E|Ha]%span_S Hpat Ht.
    + rewrite (ev_translates _ _ _ _ _ _ _ Hev' a pat Hc); [by apply Htr|]. rewrite <- E. apply span_head.
    + apply Htr'; try done. rewrite (ev_translates _ _ _ _ _ _ _ Hev a pat Hc); [done|].
      intros E. rewrite <- E in Ha. by apply (span_head va n).
Qed.

Lemma same_type_spec n va ty pat h m T :
  tree_ok h m T -> same_type_run n va ty pat h m = PAGING_STATUS_OK ->
  forall a tr, span va n a -> translation h m a pat = (PAGING_STATUS_OK, tr) -> memory_type tr = ty.
Proof.
  intros Ht. revert va. induction n as [|n IH]; intros va; cbn [same_type_run].
  { by intros _ a tr ?%span_0. }
  unfold find_entry. pose proof (entry_for_find h m T va pat Ht) as Hf.
  destruct (entry_for h va 1 false m) as [[[st|e] h'] m']; cbn [fst]; [by destruct st; destruct Hf as (_ & _ & Hf)|].
  destruct Hf as (_ & _ & t & _ & _ & E). destruct (decide _) as [Hty|]; [|done].
  change PAGING_PAGE_SIZE with 4096. intros Hrun a tr [<-|Ha]%span_S Htr; [|by eapply IH].
  rewrite E in Htr. by destruct (has (word m e) PAGE_PRESENT); simplify_eq.
Qed.

Lemma leaf_type_flags p pat :
  validate_permissions p = PAGING_STATUS_OK -> pat_ok pat ->
  leaf_memory_type (permissions_to_flags p) 1 pat = requested_type p.
Proof.
  intros Hp Hpat. rewrite <- (leaf_type 0 p pat); [by unfold leaf; rewrite Z.lor_0_l| |done|done].
  split; [lia|done].
Qed.

Lemma protect_range_spec h m T va len p pat :
  space_ok h m T -> 0 <= len < 2 ^ 63 -> pat_ok pat ->
  match protect_range h va len p pat m with
  | (PAGING_STATUS_OK, m') =>
      let n := steps len 4096 in
      pages va n /\ len = 4096 * Z.of_nat n /\ validate_permissions p = PAGING_STATUS_OK /\
      (forall a, span va n a -> mapped h m a) /\
      (forall a tr, span va n a -> translation h m a pat = (PAGING_STATUS_OK, tr) ->
         memory_type tr = requested_type p) /\
      evolves (span va n) h h m m' T T /\ (tight h m T -> tight h m' T) /\
      (forall a tr, address_is_canonical a = true -> span va n (page_of a) ->
         translation h m a pat = (PAGING_STATUS_OK, tr) ->
         translation h m' a pat =
           (PAGING_STATUS_OK, Translation (physical_address tr) p (requested_type p) 1 false))
  | (_, m') => m' = m
  end.
Proof.
  intros Hs Hlen Hpat. unfold protect_range. change PAGING_PAGE_SIZE with 4096. cbv zeta.
  destruct (validate_permissions p) eqn:Hp; try done.
  destruct (validate_virtual_range va len 4096) eqn:Hv; try done.
  destruct (range_pages va len Hv Hlen) as [E Hpg]. unfold require_mapped_range. change PAGING_PAGE_SIZE with 4096.
  pose proof (require_mapped_spec (steps len 4096) va h m T (proj1 Hs)) as Hr.
  destruct (require_mapped (steps len 4096) va h m); try done.
  destruct (same_type_run _ _ _ _ _ _) eqn:Hty; try done.
  rewrite leaf_type_flags in Hty by done. unfold apply_permissions. change PAGING_PAGE_SIZE with 4096.
  destruct (apply_run_spec (steps len 4096) va p h m T Hs Hpg Hp Hr) as (Hev & Hti & Htr).
  split_and!; try done; [by apply (same_type_spec _ _ _ _ _ _ T (proj1 Hs) Hty)|].
  intros a tr Hc Ha. by apply Htr.
Qed.

(** ** The tables a set of mappings needs *)

(** An address with a given prefix. *)
Lemma prefix_address l q :
  (l <= 3)%nat -> 0 <= q < 512 ^ (4 - Z.of_nat l) ->
  exists va, address_is_canonical va = true /\ prefix va l = q.
Proof.
  intros Hl Hq. set (k := 12 + 9 * Z.of_nat l). set (r := q * 2 ^ k).
  assert (Hr : 0 <= r < 2 ^ 48).
  { assert (E : 2 ^ 48 = 512 ^ (4 - Z.of_nat l) * 2 ^ k).
    { change 512 with (2 ^ 9). rewrite <- Z.pow_mul_r, <- Z.pow_add_r by lia. f_equal. unfold k. lia. }
    rewrite E. unfold r. assert (0 < 2 ^ k) by lia. nia. }
  exists (if r <? 2 ^ 47 then r else r + (2 ^ 64 - 2 ^ 48)). split.
  - apply canonical_range. destruct (Z.ltb_spec r (2 ^ 47)); revert Hr H;
      change (2 ^ 47) with 140737488355328; change (2 ^ 64) with 18446744073709551616;
      change (2 ^ 48) with 281474976710656; lia.
  - unfold prefix. assert (E : (if r <? 2 ^ 47 then r else r + (2 ^ 64 - 2 ^ 48)) mod 2 ^ 48 = r).
    { destruct (r <? 2 ^ 47); [by apply Z.mod_small|].
      replace (r + (2 ^ 64 - 2 ^ 48)) with (r + 65535 * 2 ^ 48) by lia.
      rewrite Z.mod_add by lia. by apply Z.mod_small. }
    rewrite E. fold k. unfold r. apply Z.div_mul. lia.
Qed.

Lemma prefix_up va l q : (l < 4)%nat -> prefix va l = q -> prefix va (S l) = q / 512 /\ table_index va (S l) = q mod 512.
Proof.
  intros Hl E. rewrite (prefix_step va l Hl) in E. pose proof (table_index_range va (S l)). subst. split; div_lia.
Qed.

(** The walk goes through the table of every level above the leaf it finds. *)
Lemma walk_tables n l t h m T va w x u pat tr :
  tree_ok h m T -> T !! t = Some (S n, prefix va (S n)) ->
  translate_walk n t va w x u pat m = (PAGING_STATUS_OK, tr) -> level tr <= Z.of_nat l -> (l <= S n)%nat ->
  exists c, T !! c = Some (l, prefix va l).
Proof.
  intros Ht. revert t w x u. induction n as [|n IH]; intros t w x u HT; rewrite translate_walk_unfold; cbv zeta;
    (destruct (has (entry m t _) PAGE_PRESENT) eqn:Hp; cbn [negb]; [|done]).
  - intros [= <-]. cbn [level fill_translation]. intros Hle Hl. exists t. by replace l with 1%nat by lia.
  - destruct (has (entry m t _) PAGE_HUGE) eqn:Hh.
    + intros [= <-]. cbn [level fill_translation]. intros Hle Hl. exists t. by replace l with (S (S n)) by lia.
    + intros Htr Hle Hl. destruct (decide (l = S (S n))) as [-> |Hne]; [by exists t|].
      eapply IH; [|exact Htr|done|lia]. apply (tree_child h m T t n va Ht HT). by apply points_spec.
Qed.

(** A walk that reaches table [t] finds what is below it. *)
Lemma walk_below n k c t h m T va pat :
  tree_ok h m T -> T !! t = Some (S n, prefix va (S n)) -> T !! c = Some (S (n + k), prefix va (S (n + k))) ->
  forall w x u, exists w' x' u', translate_walk (n + k) c va w x u pat m = translate_walk n t va w' x' u' pat m.
Proof.
  intros Ht HT. revert c. induction k as [|k IH]; intros c Hc w x u.
  { rewrite Nat.add_0_r in Hc |- *. rewrite (tree_unique h m T c t _ _ Ht Hc HT). by exists w, x, u. }
  rewrite Nat.add_succ_r in Hc |- *. destruct (tree_table _ _ _ Ht c _ _ Hc) as (Hl & _).
  destruct (table_ancestor h m T t va (S n) k Ht HT ltac:(lia)) as (d & Hd). cbn [Nat.add] in Hd.
  destruct (table_parent h m T d c va (S (n + k)) Ht Hd Hc ltac:(lia)) as (Hp & Hf & _).
  rewrite translate_walk_unfold. cbv zeta. apply points_spec in Hp as [-> ->]. cbn [negb]. rewrite Hf. by apply IH.
Qed.

(** Below an occupied table of a tight tree something is mapped. *)
Lemma occupied_mapped l t q h m T :
  tree_ok h m T -> tight h m T -> T !! t = Some (S l, q) -> occupied m t ->
  exists va, address_is_canonical va = true /\ prefix va (S l) = q /\
    forall w x u, exists tr, translate_walk l t va w x u 0 m = (PAGING_STATUS_OK, tr) /\ level tr <= Z.of_nat (S l).
Proof.
  intros Ht Hti. revert t q. induction l as [|l IH]; intros t q HT (i & Hi & Hp);
    destruct (tree_table _ _ _ Ht t _ _ HT) as (Hl & _ & _ & Hq & _).
  - destruct (prefix_address 0 (q * 512 + i)) as (va & Hc & Hpre); [lia| |].
    { change (4 - Z.of_nat 1) with 3 in Hq. change (512 ^ (4 - Z.of_nat 0)) with 68719476736.
      change (512 ^ 3) with 134217728 in Hq. lia. }
    destruct (prefix_up va 0 _ ltac:(lia) Hpre) as [E1 E2].
    exists va. split; [done|]. split; [rewrite E1; div_lia|]. intros w x u. rewrite translate_walk_unfold. cbv zeta.
    replace (table_index va 1) with i by (rewrite E2; div_lia). rewrite Hp. cbn [negb]. eexists. split; [done|]. done.
  - assert (Hpre : exists va, address_is_canonical va = true /\ prefix va (S l) = q * 512 + i).
    { apply prefix_address; [lia|]. replace (4 - Z.of_nat (S l)) with (Z.succ (4 - Z.of_nat (S (S l)))) by lia.
      rewrite Z.pow_succ_r by lia. lia. }
    destruct (has (entry m t i) PAGE_HUGE) eqn:Hh.
    + destruct Hpre as (va & Hc & Hpre). destruct (prefix_up va (S l) _ ltac:(lia) Hpre) as [E1 E2].
      exists va. split; [done|]. split; [rewrite E1; div_lia|]. intros w x u. rewrite translate_walk_unfold. cbv zeta.
      replace (table_index va (S (S l))) with i by (rewrite E2; div_lia). rewrite Hp, Hh. cbn [negb].
      eexists. split; [done|]. cbn [level fill_translation]. lia.
    + assert (Hpt : points (entry m t i) = true) by (by apply points_spec).
      pose proof (tree_down _ _ _ Ht t l q i HT Hi Hpt) as Hc.
      destruct (IH (frame_of (entry m t i)) _ Hc) as (va & Hca & Hpr & Hw).
      { apply Hti; [by eauto|]. intros E. rewrite E, (tree_root _ _ _ Ht) in Hc. injection Hc as E4 _. lia. }
      destruct (prefix_up va (S l) _ ltac:(lia) Hpr) as [E1 E2].
      exists va. split; [done|]. split; [rewrite E1; div_lia|]. intros w x u. rewrite translate_walk_unfold. cbv zeta.
      replace (table_index va (S (S l))) with i by (rewrite E2; div_lia). rewrite Hp, Hh. cbn [negb].
      edestruct Hw as (tr & -> & Hle). eexists. split; [done|]. lia.
Qed.

(** Two tight trees with the same translations, both within a third, have the same
    tables. *)
Lemma tight_subset h1 m1 T1 h2 m2 T2 h m T :
  tree_ok h1 m1 T1 -> tight h1 m1 T1 -> tree_ok h2 m2 T2 -> tree_ok h m T -> T1 ⊆ T -> T2 ⊆ T ->
  root h1 = root h2 ->
  (forall va, address_is_canonical va = true -> translation h1 m1 va 0 = translation h2 m2 va 0) -> T1 ⊆ T2.
Proof.
  intros Ht1 Hti Ht2 Ht Hs1 Hs2 Hr Heq. apply map_subseteq_spec. intros t [l q] HT.
  destruct (decide (t = root h1)) as [-> |Hne].
  { rewrite (tree_root _ _ _ Ht1) in HT. injection HT as <- <-. rewrite Hr. apply (tree_root _ _ _ Ht2). }
  destruct (tree_table _ _ _ Ht1 t l q HT) as ([Hl1 Hl4] & _). destruct l as [|l]; [lia|].
  destruct (occupied_mapped l t q h1 m1 T1 Ht1 Hti HT (Hti t (mk_is_Some _ _ HT) Hne)) as (va & Hc & Hpr & Hw).
  subst q. pose proof (walk_below l (3 - l) (root h1) t h1 m1 T1 va 0 Ht1 HT) as Hb.
  replace (l + (3 - l))%nat with 3%nat in Hb by lia.
  destruct (Hb (root_prefix h1 m1 T1 va Ht1) true true true) as (w & x & u & E).
  destruct (Hw w x u) as (tr & Htr & Hle). rewrite Htr in E.
  assert (E2 : translation h2 m2 va 0 = (PAGING_STATUS_OK, tr)) by (rewrite <- Heq by done; exact E).
  destruct (walk_tables 3 (S l) (root h2) h2 m2 T2 va true true true 0 tr Ht2 (root_prefix h2 m2 T2 va Ht2) E2 Hle ltac:(lia))
    as (c & Hcc).
  assert (t = c) as ->; [|done].
  eapply (tree_unique h m T); [done|by apply (lookup_weaken _ _ _ _ HT)|by apply (lookup_weaken _ _ _ _ Hcc)].
Qed.
