(* ===== verification/PagingCalls.v ===== *)
(** * The public paging calls ([src/kernel/paging.c])

    What [paging_map], [paging_unmap] and [paging_protect] promise on the live hierarchy:
    their effect on every address, on the recorded supervisor mappings, on the
    processor's translation caches and on the table frames.  [page_backend paging] makes
    these calls the page tables behind the heap of [Heap]. *)

From stdpp Require Import base option list numbers gmap fin_maps.
From S2P Require Import Prelude Frames BlockTable Heap Paging PagingSpec PagingRange.

(** The installed hierarchy with its tables [T]. *)
Record paging_ok (p : paging) (T : tables) : Prop := {
  pg_space : space_ok (live_hierarchy p) (mem p) T;
  pg_active : active (state p) = true;
  pg_pat : pat_ok (pat_after (state p));
  pg_live : live (live_hierarchy p) = true;
  pg_count : ps_table_frames (state p) = table_frames (live_hierarchy p)
}.

Lemma span_range va n a :
  va mod 4096 = 0 -> span va n (page_of a) <-> va <= a < va + 4096 * Z.of_nat n.
Proof. intros Hm. rewrite span_alt. unfold page_of. div_lia. Qed.

(** What a call leaves of the paging state, with the pages [K] it may change. *)
Definition call_ok (K : Z -> Prop) (p p' : paging) (T T' : tables) : Prop :=
  evolves K (live_hierarchy p) (live_hierarchy p') (mem p) (mem p') T T' /\
  paging_ok p' T' /\ pat_after (state p') = pat_after (state p).

Lemma settled K p T h m l T' :
  paging_ok p T -> evolves K (live_hierarchy p) h (mem p) m T T' -> call_ok K p (settle h l m p) T T'.
Proof.
  intros [Hs Ha Hpat Hl Hc] Hev. split; [exact Hev|]. split; [|done].
  split; [exact (ev_space _ _ _ _ _ _ _ Hev)|exact Ha|exact Hpat| |done].
  cbn [live_hierarchy settle]. destruct (ev_root _ _ _ _ _ _ _ Hev). congruence.
Qed.

Lemma call_quiet p T : paging_ok p T -> call_ok quiet p p T T.
Proof. intros Hok. split; [apply evolves_refl, Hok|]. by split. Qed.

Lemma unmap_mapped h m T va len :
  space_ok h m T -> validate_virtual_range va len 4096 = PAGING_STATUS_OK ->
  (forall a, span va (steps len 4096) a -> mapped h m a) -> exists h' m', unmap_range h va len m = (PAGING_STATUS_OK, h', m').
Proof.
  intros Hs Hv Hmp. unfold unmap_range, require_mapped_range. change PAGING_PAGE_SIZE with 4096. rewrite Hv.
  pose proof (require_mapped_spec (steps len 4096) va h m T (proj1 Hs)) as Hr.
  destruct (require_mapped (steps len 4096) va h m); try done.
  - destruct (clear_range h va len 1 m) as [h' m']. by exists h', m'.
  - destruct Hr as (a & Ha & Hn). by destruct Hn; apply Hmp.
  - destruct Hr as (a & Ha & Hn). by destruct Hn; apply Hmp.
Qed.

(** The calls, with the pages they may change. *)
Lemma paging_map_spec p T va pa len perms :
  paging_ok p T -> 0 <= pa -> 0 <= len ->
  let n := steps len 4096 in
  let '(st, p') := paging_map va pa len perms p in
  if decide (st = PAGING_STATUS_OK) then
    (validate_virtual_range va len 4096 = PAGING_STATUS_OK /\ len < 2 ^ 63 /\
     forall a, span va n a -> mapped (live_hierarchy p') (mem p') a) /\
    pages va n /\ len = 4096 * Z.of_nat n /\ validate_permissions perms = PAGING_STATUS_OK /\
    all_unmapped (live_hierarchy p) (mem p) va n /\
    maps_to (live_hierarchy p') (mem p') va pa perms n /\
    supervisor_intents p' = supervisor_intents p ++ [Intent va pa len perms] /\
    exists T', T ⊆ T' /\ call_ok (span va n) p p' T T' /\
      (tight (live_hierarchy p) (mem p) T -> tight (live_hierarchy p') (mem p') T')
  else supervisor_intents p' = supervisor_intents p /\ exists T', call_ok quiet p p' T T'.
Proof.
  intros Hok Hpa Hlen n. unfold paging_map. rewrite (pg_active _ _ Hok). cbn [negb].
  pose proof (map_range_spec (live_hierarchy p) (mem p) T va pa len perms (pg_space _ _ Hok) Hpa Hlen) as Hm.
  destruct (map_range _ va pa len perms 1 _) as [[st h] m].
  assert (Hno : st <> PAGING_STATUS_OK -> exists T', evolves quiet (live_hierarchy p) h (mem p) m T T').
  { intros Hne. destruct st; try done; [destruct Hm as [-> ->]; exists T; apply evolves_refl, Hok..|].
    all: try (destruct Hm as [-> ->]; exists T; apply evolves_refl, Hok); try done. }
  destruct (decide (st = PAGING_STATUS_OK)) as [-> |Hne].
  2: { destruct (Hno Hne) as (T' & Hev).
       assert (E : (if decide (st = PAGING_STATUS_OK) then False else True)) by (by rewrite decide_False).
       replace (match st with PAGING_STATUS_OK => _ | _ => _ end)
         with (st, settle h (supervisor_intents p) m p) by (by destruct st).
       rewrite decide_False by done. split; [done|]. exists T'. by apply settled. }
  clear Hno. destruct Hm as (Hv & Hl & Hpg & E & Hp & Hun & T' & Hsub & Hev & Hmaps & Hmp & Hti).
  unfold supervisor_intent_add.
  destruct (length (supervisor_intents p) =? PAGING_SUPERVISOR_INTENT_CAPACITY)%nat.
  - destruct (unmap_mapped h m T' va len (ev_space _ _ _ _ _ _ _ Hev) Hv Hmp) as (h2 & m2 & Hu).
    pose proof (unmap_range_spec h m T' va len (ev_space _ _ _ _ _ _ _ Hev) (conj Hlen Hl)) as Hus.
    rewrite Hu in Hus |- *. rewrite decide_False by done. split; [done|].
    destruct Hus as (_ & _ & _ & T2 & _ & Hev2 & Hcl & _). exists T2. apply settled; [done|].
    pose proof (evolves_trans _ _ _ _ _ _ _ _ _ _ _ Hev Hev2) as E2. split; try apply E2.
    + intros a pat Hc _. destruct (decide (span va (steps len 4096) (page_of a))) as [Hin|Hout].
      * rewrite Hcl by done. symmetry. by apply Hun.
      * apply (ev_translates _ _ _ _ _ _ _ E2); [done|tauto].
    + destruct (ev_flushed _ _ _ _ _ _ _ E2) as (l & El & _). by exists l.
  - rewrite decide_True by done. split; [done|]. do 6 (split; [done|]). exists T'. split; [done|]. split; [|done]. by apply settled.
Qed.

Lemma paging_unmap_spec p T va len :
  paging_ok p T -> 0 <= len < 2 ^ 63 ->
  let n := steps len 4096 in
  let '(st, p') := paging_unmap va len p in
  if decide (st = PAGING_STATUS_OK) then
    pages va n /\ len = 4096 * Z.of_nat n /\
    (forall a, span va n a -> mapped (live_hierarchy p) (mem p) a) /\
    all_unmapped (live_hierarchy p') (mem p') va n /\
    supervisor_intents p' =
      from_option (fun i => delete i (supervisor_intents p)) (supervisor_intents p)
        (supervisor_intent_find va len (supervisor_intents p)) /\
    exists T', T' ⊆ T /\ call_ok (span va n) p p' T T' /\
      (tight (live_hierarchy p) (mem p) T -> tight (live_hierarchy p') (mem p') T')
  else p' = p.
Proof.
  intros Hok Hlen n. unfold paging_unmap. rewrite (pg_active _ _ Hok). cbn [negb]. cbv zeta.
  pose proof (unmap_range_spec (live_hierarchy p) (mem p) T va len (pg_space _ _ Hok) Hlen) as Hu.
  destruct (unmap_range _ va len _) as [[st h] m].
  destruct (decide (st = PAGING_STATUS_OK)) as [-> |Hne].
  - destruct Hu as (Hpg & E & Hmp & T' & Hsub & Hev & Hcl & Hti). split_and!; try done.
    + cbn [supervisor_intents settle]. destruct (supervisor_intent_find va len (supervisor_intents p)) as [i|] eqn:Hi; [|done].
      cbn [from_option]. unfold supervisor_intent_remove.
      apply first_index_lt in Hi. by destruct (Nat.leb_spec (length (supervisor_intents p)) i); [lia|].
    + exists T'. split; [done|]. split; [|done]. by apply settled.
  - assert (h = live_hierarchy p /\ m = mem p) as [-> ->] by (by destruct st).
    replace (match st with PAGING_STATUS_OK => _ | _ => _ end) with (supervisor_intents p) by (by destruct st).
    unfold settle. rewrite <- (pg_count _ _ Hok). by destruct p as [[] ? ? ?].
Qed.

Lemma paging_protect_spec p T va len perms :
  paging_ok p T -> 0 <= len < 2 ^ 63 ->
  let n := steps len 4096 in
  let '(st, p') := paging_protect va len perms p in
  if decide (st = PAGING_STATUS_OK) then
    pages va n /\ len = 4096 * Z.of_nat n /\ validate_permissions perms = PAGING_STATUS_OK /\
    (forall a, span va n a -> mapped (live_hierarchy p) (mem p) a) /\
    (forall a tr, span va n a -> translation (live_hierarchy p) (mem p) a (pat_after (state p)) = (PAGING_STATUS_OK, tr) ->
       memory_type tr = requested_type perms) /\
    (forall a tr, address_is_canonical a = true -> span va n (page_of a) ->
       translation (live_hierarchy p) (mem p) a (pat_after (state p)) = (PAGING_STATUS_OK, tr) ->
       translation (live_hierarchy p') (mem p') a (pat_after (state p)) =
         (PAGING_STATUS_OK, Translation (physical_address tr) perms (requested_type perms) 1 false)) /\
    supervisor_intents p' =
      from_option (fun i => alter (set_intent_permissions perms) i (supervisor_intents p)) (supervisor_intents p)
        (supervisor_intent_find va len (supervisor_intents p)) /\
    call_ok (span va n) p p' T T /\
    (tight (live_hierarchy p) (mem p) T -> tight (live_hierarchy p') (mem p') T)
  else p' = p.
Proof.
  intros Hok Hlen n. unfold paging_protect. rewrite (pg_active _ _ Hok). cbn [negb]. cbv zeta.
  pose proof (protect_range_spec (live_hierarchy p) (mem p) T va len perms _ (pg_space _ _ Hok) Hlen (pg_pat _ _ Hok)) as Hu.
  destruct (protect_range _ va len perms _ _) as [st m].
  destruct (decide (st = PAGING_STATUS_OK)) as [-> |Hne].
  - destruct Hu as (Hpg & E & Hp & Hmp & Hty & Hev & Hti & Htr). cbn [live_hierarchy mem supervisor_intents].
    do 6 (split; [done|]). split; [by destruct (supervisor_intent_find va len (supervisor_intents p))|].
    split; [|done]. split; [exact Hev|]. split; [|done]. destruct Hok. by split; [exact (ev_space _ _ _ _ _ _ _ Hev)|..].
  - assert (m = mem p) as -> by (by destruct st).
    replace (match st with PAGING_STATUS_OK => _ | _ => _ end) with (supervisor_intents p) by (by destruct st).
    by destruct p.
Qed.

(** ** The calls, as their callers see them *)

Lemma translate_canonical p T a :
  paging_ok p T -> address_is_canonical a = true ->
  paging_translate a true p = translation (live_hierarchy p) (mem p) a (pat_after (state p)).
Proof.
  intros Hok Hc. unfold paging_translate, translate_address. rewrite (pg_active _ _ Hok), Hc. done.
Qed.

Lemma translate_noncanonical p T a :
  paging_ok p T -> address_is_canonical a = false ->
  paging_translate a true p = (PAGING_STATUS_NONCANONICAL_ADDRESS, no_translation).
Proof. intros Hok Hc. unfold paging_translate, translate_address. by rewrite (pg_active _ _ Hok), Hc. Qed.

(** Outside the pages a call may change, every address translates as before. *)
Lemma call_elsewhere K p p' T T' a :
  paging_ok p T -> call_ok K p p' T T' -> (address_is_canonical a = true -> ~ K (page_of a)) ->
  paging_translate a true p' = paging_translate a true p.
Proof.
  intros Hok (Hev & Hok' & Hpat) Hk. destruct (address_is_canonical a) eqn:Hc.
  - rewrite (translate_canonical p' T' a Hok' Hc), (translate_canonical p T a Hok Hc), Hpat.
    apply (ev_translates _ _ _ _ _ _ _ Hev); auto.
  - by rewrite (translate_noncanonical p' T' a Hok' Hc), (translate_noncanonical p T a Hok Hc).
Qed.

Lemma pages_aligned va n : pages va (S n) -> va mod 4096 = 0.
Proof. intros [[_ Hm] _]%pages_S. done. Qed.

(** The addresses of the range are those of its pages. *)
Lemma range_elsewhere p p' T T' va n a :
  paging_ok p T -> pages va n -> call_ok (span va n) p p' T T' -> ~ va <= a < va + 4096 * Z.of_nat n ->
  paging_translate a true p' = paging_translate a true p.
Proof.
  intros Hok Hpg Hcall Ha. apply (call_elsewhere _ p p' T T' a Hok Hcall). intros _ Hsp. apply Ha.
  destruct n as [|n]; [by apply span_0 in Hsp|].
  by apply (span_range va (S n) a (pages_aligned va n Hpg)).
Qed.

(** An address of a run of pages is canonical. *)
Lemma pages_canonical va n a : pages va n -> va <= a < va + 4096 * Z.of_nat n -> address_is_canonical a = true /\ span va n (page_of a).
Proof.
  intros Hpg Ha. destruct n as [|n]; [lia|]. pose proof (pages_aligned va n Hpg) as Hm.
  assert (Hsp : span va (S n) (page_of a)) by (by apply span_range). split; [|done].
  destruct (Hpg _ Hsp) as [Hc Hpm]. revert Hc. rewrite !canonical_range. unfold page_of.
  change (2 ^ 47) with 140737488355328. change (2 ^ 64) with 18446744073709551616. div_lia.
Qed.

(** C10: [paging_map] either maps every address of the range to the frames asked for,
    with the permissions and the memory type asked for, all of it unmapped before, and
    records the mapping; or it refuses, and then no address translates differently and
    no mapping is recorded.  Addresses outside the range are never affected, and the
    tables stay a well-formed tree. *)
Theorem paging_map_correct p T va pa len perms :
  paging_ok p T -> fits 64 pa -> fits 64 len ->
  let '(st, p') := paging_map va pa len perms p in
  (exists T', paging_ok p' T') /\
  (forall a, (st = PAGING_STATUS_OK -> ~ va <= a < va + len) ->
     paging_translate a true p' = paging_translate a true p) /\
  (st = PAGING_STATUS_OK ->
     (forall a, va <= a < va + len ->
        paging_translate a true p = (PAGING_STATUS_NOT_MAPPED, no_translation) /\
        paging_translate a true p' =
          (PAGING_STATUS_OK, Translation (pa + (a - va)) perms (requested_type perms) 1 false)) /\
     supervisor_intents p' = supervisor_intents p ++ [Intent va pa len perms]) /\
  (st <> PAGING_STATUS_OK -> supervisor_intents p' = supervisor_intents p).
Proof.
  intros Hok [Hpa _] [Hlen _]. pose proof (paging_map_spec p T va pa len perms Hok Hpa Hlen) as Hs. cbv zeta in Hs.
  destruct (paging_map va pa len perms p) as [st p']. destruct (decide (st = PAGING_STATUS_OK)) as [-> |Hne].
  - destruct Hs as (_ & Hpg & E & Hp & Hun & Hmaps & Hi & T' & _ & Hcall & _).
    pose proof Hcall as (_ & Hok' & Hpat). split; [by exists T'|]. split; [|split; [|done]].
    + intros a Ha. apply (range_elsewhere p p' T T' va _ a Hok Hpg Hcall). rewrite <- E. by apply Ha.
    + intros _. split; [|done]. intros a Ha. rewrite E in Ha. destruct (pages_canonical va _ a Hpg Ha) as [Hc Hsp].
      rewrite (translate_canonical p T a Hok Hc), (translate_canonical p' T' a Hok' Hc), Hpat.
      split; [by apply Hun|]. apply Hmaps; [done|done|apply Hok].
  - destruct Hs as (Hi & T' & Hcall). pose proof Hcall as (_ & Hok' & _). split; [by exists T'|].
    split; [|done]. intros a _. apply (call_elsewhere _ p p' T T' a Hok Hcall). tauto.
Qed.

(** [paging_unmap] succeeds only when every page of the range is mapped by a 4 KiB
    leaf; it then leaves no address of the range mapped, drops the recorded mapping of
    exactly that range, and changes no other translation.  A refusal changes nothing at
    all. *)
Theorem paging_unmap_correct p T va len :
  paging_ok p T -> 0 <= len < 2 ^ 63 ->
  let '(st, p') := paging_unmap va len p in
  if decide (st = PAGING_STATUS_OK) then
    (exists T', paging_ok p' T' /\ T' ⊆ T) /\
    (forall a, va <= a < va + len ->
       (exists tr, paging_translate a true p = (PAGING_STATUS_OK, tr)) /\
       paging_translate a true p' = (PAGING_STATUS_NOT_MAPPED, no_translation)) /\
    (forall a, ~ va <= a < va + len -> paging_translate a true p' = paging_translate a true p) /\
    supervisor_intents p' =
      from_option (fun i => delete i (supervisor_intents p)) (supervisor_intents p)
        (supervisor_intent_find va len (supervisor_intents p))
  else p' = p.
Proof.
  intros Hok Hlen. pose proof (paging_unmap_spec p T va len Hok Hlen) as Hs. cbv zeta in Hs.
  destruct (paging_unmap va len p) as [st p']. destruct (decide (st = PAGING_STATUS_OK)) as [-> |Hne]; [|done].
  destruct Hs as (Hpg & E & Hmp & Hun & Hi & T' & Hsub & Hcall & _). pose proof Hcall as (_ & Hok' & Hpat).
  split; [by exists T'|]. split; [|split; [|done]].
  - intros a Ha. rewrite E in Ha. destruct (pages_canonical va _ a Hpg Ha) as [Hc Hsp].
    rewrite (translate_canonical p T a Hok Hc), (translate_canonical p' T' a Hok' Hc).
    split; [by apply mapped_address, Hmp|by apply Hun].
  - intros a Ha. apply (range_elsewhere p p' T T' va _ a Hok Hpg Hcall). by rewrite <- E.
Qed.

(** [paging_protect] succeeds only on pages that are mapped with the memory type the
    new permissions ask for; it then keeps every address of the range on its frame and
    gives it exactly the new permissions, updates the recorded mapping of that range, and
    changes no other translation.  A refusal changes nothing at all. *)
Theorem paging_protect_correct p T va len perms :
  paging_ok p T -> 0 <= len < 2 ^ 63 ->
  let '(st, p') := paging_protect va len perms p in
  if decide (st = PAGING_STATUS_OK) then
    paging_ok p' T /\
    (forall a, va <= a < va + len -> exists tr,
       paging_translate a true p = (PAGING_STATUS_OK, tr) /\
       paging_translate a true p' =
         (PAGING_STATUS_OK, Translation (physical_address tr) perms (requested_type perms) 1 false)) /\
    (forall a tr, va <= a < va + len -> a mod 4096 = 0 -> paging_translate a true p = (PAGING_STATUS_OK, tr) ->
       memory_type tr = requested_type perms) /\
    (forall a, ~ va <= a < va + len -> paging_translate a true p' = paging_translate a true p) /\
    supervisor_intents p' =
      from_option (fun i => alter (set_intent_permissions perms) i (supervisor_intents p)) (supervisor_intents p)
        (supervisor_intent_find va len (supervisor_intents p))
  else p' = p.
Proof.
  intros Hok Hlen. pose proof (paging_protect_spec p T va len perms Hok Hlen) as Hs. cbv zeta in Hs.
  destruct (paging_protect va len perms p) as [st p']. destruct (decide (st = PAGING_STATUS_OK)) as [-> |Hne]; [|done].
  destruct Hs as (Hpg & E & Hp & Hmp & Hty & Htr & Hi & Hcall & _). pose proof Hcall as (_ & Hok' & Hpat).
  split; [done|]. split; [|split; [|split; [|done]]].
  - intros a Ha. rewrite E in Ha. destruct (pages_canonical va _ a Hpg Ha) as [Hc Hsp].
    rewrite (translate_canonical p T a Hok Hc), (translate_canonical p' T a Hok' Hc), Hpat.
    destruct (mapped_address (live_hierarchy p) (mem p) a (pat_after (state p)) (Hmp _ Hsp)) as (tr & Ht).
    exists tr. split; [done|]. by apply Htr.
  - intros a tr Ha Hm Ht. rewrite E in Ha. destruct (pages_canonical va _ a Hpg Ha) as [Hc Hsp].
    rewrite (translate_canonical p T a Hok Hc) in Ht. apply (Hty a tr); [|done].
    rewrite <- (page_of_id a (conj Hc Hm)). done.
  - intros a Ha. apply (range_elsewhere p p' T T va _ a Hok Hpg Hcall). by rewrite <- E.
Qed.

(** ** Sequences of calls *)

Inductive paging_call : paging -> paging -> Prop :=
| call_map p va pa len perms : fits 64 pa -> fits 64 len ->
    paging_call p (paging_map va pa len perms p).2
| call_unmap p va len : 0 <= len < 2 ^ 63 -> paging_call p (paging_unmap va len p).2
| call_protect p va len perms : 0 <= len < 2 ^ 63 -> paging_call p (paging_protect va len perms p).2.

(** What a call writes is unmapped or supervisor memory with validated permissions. *)
Definition sane (r : paging_status * paging_translation) : Prop :=
  r = unmapped \/ exists pa perms, validate_permissions perms = PAGING_STATUS_OK /\
    r = (PAGING_STATUS_OK, Translation pa perms (requested_type perms) 1 false).

Lemma paging_call_spec p p' T :
  paging_ok p T -> paging_call p p' ->
  exists K T', call_ok K p p' T T' /\
    forall a, address_is_canonical a = true ->
      (K (page_of a) /\ sane (translation (live_hierarchy p') (mem p') a (pat_after (state p)))) \/ ~ K (page_of a).
Proof.
  assert (Hspan : forall (va : Z) n h m a pat,
    (span va n (page_of a) -> sane (translation h m a pat)) ->
    (span va n (page_of a) /\ sane (translation h m a pat)) \/ ~ span va n (page_of a)).
  { intros va n h m a pat Hs. destruct (decide (span va n (page_of a))); auto. }
  intros Hok Hc. revert Hok.
  destruct Hc as [p va pa len perms [Hpa _] [Hlen _]|p va len Hlen|p va len perms Hlen]; intros Hok.
  - pose proof (paging_map_spec p T va pa len perms Hok Hpa Hlen) as Hs. cbv zeta in Hs.
    destruct (paging_map va pa len perms p) as [st p1]. cbn [snd]. destruct (decide (st = PAGING_STATUS_OK)).
    + destruct Hs as (_ & _ & _ & Hp & _ & Hmaps & _ & T' & _ & Hcall & _). exists (span va (steps len 4096)), T'.
      split; [done|]. intros a Hc. apply Hspan. intros Ha. right. exists (pa + (a - va)), perms. split; [done|].
      apply Hmaps; [done|done|apply Hok].
    + destruct Hs as (_ & T' & Hcall). exists quiet, T'. split; [done|]. intros a _. right. tauto.
  - pose proof (paging_unmap_spec p T va len Hok Hlen) as Hs. cbv zeta in Hs.
    destruct (paging_unmap va len p) as [st p1]. cbn [snd]. destruct (decide (st = PAGING_STATUS_OK)).
    + destruct Hs as (_ & _ & _ & Hun & _ & T' & _ & Hcall & _). exists (span va (steps len 4096)), T'.
      split; [done|]. intros a Hc. apply Hspan. intros Ha. left. by apply Hun.
    + subst. exists quiet, T. split; [by apply call_quiet|]. intros a _. right. tauto.
  - pose proof (paging_protect_spec p T va len perms Hok Hlen) as Hs. cbv zeta in Hs.
    destruct (paging_protect va len perms p) as [st p1]. cbn [snd]. destruct (decide (st = PAGING_STATUS_OK)).
    + destruct Hs as (_ & _ & Hp & Hmp & _ & Htr & _ & Hcall & _). exists (span va (steps len 4096)), T.
      split; [done|]. intros a Hc. apply Hspan. intros Ha. right.
      destruct (mapped_address (live_hierarchy p) (mem p) a (pat_after (state p)) (Hmp _ Ha)) as (tr & Ht).
      exists (physical_address tr), perms. split; [done|]. by apply Htr.
    + subst. exists quiet, T. split; [by apply call_quiet|]. intros a _. right. tauto.
Qed.

(** No address is both writable and executable, and none is open to user mode. *)
Definition write_xor_execute (p : paging) : Prop :=
  forall a tr, paging_translate a true p = (PAGING_STATUS_OK, tr) ->
  has (permissions tr) PAGING_WRITE && has (permissions tr) PAGING_EXECUTE = false /\ user tr = false.

Lemma sane_wx r tr :
  sane r -> r = (PAGING_STATUS_OK, tr) ->
  has (permissions tr) PAGING_WRITE && has (permissions tr) PAGING_EXECUTE = false /\ user tr = false.
Proof.
  intros [-> |(pa & perms & Hp & ->)] E; [by injection E|]. injection E as <-. cbn [permissions user]. split; [|done].
  apply valid_permissions in Hp. rewrite !elem_of_cons in Hp.
  repeat (destruct Hp as [-> |Hp]; [reflexivity|]). by apply elem_of_nil in Hp.
Qed.


(** On the live hierarchy no stale translation survives a call: every address that
    translates differently after a map, unmap or protect call, successful or refused,
    lies on a page the call has invalidated in the processor. *)
Theorem paging_changes_invalidated p p' T :
  paging_ok p T -> paging_call p p' ->
  exists l, invalidated (mem p') = l ++ invalidated (mem p) /\
    forall a, paging_translate a true p' <> paging_translate a true p -> page_of a ∈ l.
Proof.
  intros Hok Hcall. destruct (paging_call_spec p p' T Hok Hcall) as (K & T1 & Hc & Hsane).
  pose proof Hc as (Hev & Hok1 & Hpat). destruct (ev_flushed _ _ _ _ _ _ _ Hev) as (l & El & Hl). exists l.
  split; [done|]. intros a Hne. destruct (address_is_canonical a) eqn:Hca.
  - destruct (Hsane a Hca) as [[Hk _]|Hk]; [apply Hl; [apply Hok|done]|].
    destruct Hne. by apply (call_elsewhere K p p' T T1 a Hok Hc).
  - destruct Hne. by rewrite (translate_noncanonical p' T1 a Hok1 Hca), (translate_noncanonical p T a Hok Hca).
Qed.

(** C17: Mapping a range and unmapping it again is a round trip on a hierarchy without
    empty tables: the unmap succeeds, every table allocated for the range is given back
    and no other, so the tables, the count of table frames and the set of allocated frames
    are what they were, and so is every translation. *)
Theorem map_unmap_roundtrip p T va pa len perms p1 :
  paging_ok p T -> tight (live_hierarchy p) (mem p) T -> fits 64 pa -> fits 64 len ->
  paging_map va pa len perms p = (PAGING_STATUS_OK, p1) ->
  exists p2, paging_unmap va len p1 = (PAGING_STATUS_OK, p2) /\
    paging_ok p2 T /\ tight (live_hierarchy p2) (mem p2) T /\
    ps_table_frames (state p2) = ps_table_frames (state p) /\
    (forall g, allocated_page (frame_state (mem p2)) g <-> allocated_page (frame_state (mem p)) g) /\
    (forall a, paging_translate a true p2 = paging_translate a true p).
Proof.
  intros Hok Hti [Hpa _] [Hlen _] Hmap.
  pose proof (paging_map_spec p T va pa len perms Hok Hpa Hlen) as Hs. cbv zeta in Hs. rewrite Hmap in Hs.
  rewrite decide_True in Hs by done.
  destruct Hs as ((Hv & Hl & Hmp) & Hpg & E & _ & Hun & _ & _ & T1 & Hsub1 & Hcall1 & Hti1).
  pose proof Hcall1 as (Hev1 & Hok1 & Hpat1). pose proof (pg_space _ _ Hok1) as Hs1.
  destruct (unmap_mapped _ _ T1 va len Hs1 Hv Hmp) as (h2 & m2 & Hu).
  pose proof (paging_unmap_spec p1 T1 va len Hok1 (conj Hlen Hl)) as Hs2. cbv zeta in Hs2.
  assert (Hst : (paging_unmap va len p1).1 = PAGING_STATUS_OK)
    by (unfold paging_unmap; rewrite (pg_active _ _ Hok1); cbn [negb]; by rewrite Hu).
  destruct (paging_unmap va len p1) as [st p2]. cbn [fst] in Hst. subst st. rewrite decide_True in Hs2 by done.
  destruct Hs2 as (_ & _ & _ & Hun2 & _ & T2 & Hsub2 & Hcall2 & Hti2).
  pose proof Hcall2 as (Hev2 & Hok2 & Hpat2).
  pose proof (evolves_trans _ _ _ _ _ _ _ _ _ _ _ Hev1 Hev2) as Hev.
  assert (Htr : forall a pat, address_is_canonical a = true ->
            translation (live_hierarchy p2) (mem p2) a pat = translation (live_hierarchy p) (mem p) a pat).
  { intros a pat Hc. destruct (decide (span va (steps len 4096) (page_of a))) as [Hin|Hout].
    - rewrite (Hun2 a pat Hc Hin). by rewrite (Hun a pat Hc Hin).
    - apply (ev_translates _ _ _ _ _ _ _ Hev); [done|tauto]. }
  pose proof (proj1 (pg_space _ _ Hok)) as Ht. pose proof (proj1 Hs1) as Ht1.
  pose proof (proj1 (pg_space _ _ Hok2)) as Ht2. pose proof (proj1 (ev_root _ _ _ _ _ _ _ Hev)) as Hr.
  pose proof (Hti2 (Hti1 Hti)) as Htight2.
  assert (T2 = T) as ->.
  { apply (anti_symm (⊆)).
    - apply (tight_subset _ _ T2 _ _ T _ _ T1 Ht2 Htight2 Ht Ht1 Hsub2 Hsub1 Hr). intros a Hc. by apply Htr.
    - apply (tight_subset _ _ T _ _ T2 _ _ T1 Ht Hti Ht2 Ht1 Hsub1 Hsub2 (eq_sym Hr)).
      intros a Hc. symmetry. by apply Htr. }
  exists p2. split; [done|]. split; [done|]. split; [done|]. split; [|split].
  - rewrite (pg_count _ _ Hok2), (pg_count _ _ Hok), (tree_count _ _ _ Ht2), (tree_count _ _ _ Ht). done.
  - intros g. destruct (T !! g) as [[l q]|] eqn:HT.
    + destruct (tree_table _ _ _ Ht g l q HT) as (_ & _ & _ & _ & Ha & _).
      destruct (tree_table _ _ _ Ht2 g l q HT) as (_ & _ & _ & _ & Ha2 & _). done.
    + pose proof (ev_owned _ _ _ _ _ _ _ Hev g). tauto.
  - intros a. destruct (address_is_canonical a) eqn:Hc.
    + rewrite (translate_canonical p2 T a Hok2 Hc), (translate_canonical p T a Hok Hc), Hpat2, Hpat1. by apply Htr.
    + by rewrite (translate_noncanonical p2 T a Hok2 Hc), (translate_noncanonical p T a Hok Hc).
Qed.

(** ** A small hierarchy *)

Module PagingSamples.

Definition sample_root : Z := 0x1000000.

(** [n] free frames from the root on, which is taken and holds nothing yet. *)
Definition small_memory (n : nat) : memory :=
  Memory ∅ (take_frame 4096 (fresh_frames n 4096)) sample_root [] (TableFailure 0 0 false false).

Definition small_paging (n : nat) : paging :=
  Paging (PagingState sample_root 1 0 0x0007040600070406 0x0007040600070106 1 true true true)
    (Hierarchy sample_root 0 0 0 1 true false) [] (small_memory n).

Definition sample_paging : paging := small_paging 8.

Definition sample_tables : tables := {[ sample_root := (4%nat, 0) ]}.

Lemma sample_lookup a x : sample_tables !! a = Some x -> a = sample_root /\ x = (4%nat, 0).
Proof. unfold sample_tables. by intros [<- <-]%lookup_singleton_Some. Qed.

Lemma small_entry n a i : entry (small_memory n) a i = 0.
Proof. unfold entry, word, small_memory. cbn [words]. by rewrite lookup_empty. Qed.

Lemma small_ok n :
  frames_wf (take_frame 4096 (fresh_frames n 4096)) ->
  table_page (take_frame 4096 (fresh_frames n 4096)) sample_root -> paging_ok (small_paging n) sample_tables.
Proof.
  intros Hwf Hpage. split; [|reflexivity|by vm_compute|reflexivity|reflexivity].
  split; [|split; [exact Hwf|split; reflexivity]]. split.
  - apply lookup_singleton_eq.
  - intros a l p [-> [= -> ->]]%sample_lookup. split; [lia|].
    split; [by vm_compute|]. split; [reflexivity|]. split; [by vm_compute|exact Hpage].
  - intros a l p i _ _ Hp. change (mem (small_paging n)) with (small_memory n) in Hp. by rewrite small_entry in Hp.
  - intros a l p [-> _]%sample_lookup Hr. by destruct Hr.
  - intros a l p i _ _ Hp. change (mem (small_paging n)) with (small_memory n) in Hp. by rewrite small_entry in Hp.
  - unfold sample_tables. by rewrite map_size_singleton.
Qed.

Lemma small_tight n : tight (live_hierarchy (small_paging n)) (mem (small_paging n)) sample_tables.
Proof. intros a [x [-> _]%sample_lookup] Hr. by destruct Hr. Qed.

Lemma small_unmapped n a tr : paging_translate a true (small_paging n) <> (PAGING_STATUS_OK, tr).
Proof.
  unfold paging_translate, translate_address. change (active (state (small_paging n))) with true. cbn [negb].
  destruct (negb (address_is_canonical a)); [done|].
  rewrite absent_walk; [done|]. change (mem (small_paging n)) with (small_memory n). by rewrite small_entry.
Qed.

Ltac small_frames :=
  first [by apply take_frame_wf; [apply fresh_frames_wf|..]
        |split; [split; [done|split; [reflexivity|]]|]; vm_compute; reflexivity].

Lemma sample_ok : paging_ok sample_paging sample_tables.
Proof. apply small_ok; small_frames. Qed.

(** One writable page at the address of the boot probe. *)
Definition sample_mapped : paging := (paging_map 0x200000000 0x5000 0x1000 PAGING_WRITE sample_paging).2.

Lemma sample_map_ok :
  paging_map 0x200000000 0x5000 0x1000 PAGING_WRITE sample_paging = (PAGING_STATUS_OK, sample_mapped).
Proof.
  assert (E : (paging_map 0x200000000 0x5000 0x1000 PAGING_WRITE sample_paging).1 = PAGING_STATUS_OK)
    by (vm_compute; reflexivity).
  unfold sample_mapped. destruct (paging_map _ _ _ _ _) as [st p]. cbn [fst snd] in *. by rewrite E.
Qed.

Lemma sample_mapped_ok : exists T, paging_ok sample_mapped T.
Proof.
  pose proof (paging_map_spec sample_paging sample_tables 0x200000000 0x5000 0x1000 PAGING_WRITE sample_ok
    ltac:(lia) ltac:(lia)) as H. cbv zeta in H. rewrite sample_map_ok, decide_True in H by done.
  destruct H as (_ & _ & _ & _ & _ & _ & _ & T & _ & (_ & Hok & _) & _). by exists T.
Qed.

Lemma paging_map_correct_witness :
  paging_ok sample_paging sample_tables /\
  paging_translate 0x200000123 true sample_mapped =
    (PAGING_STATUS_OK, Translation 0x5123 PAGING_WRITE PAGING_MEMORY_WRITE_BACK 1 false).
Proof.
  split; [exact sample_ok|].
  pose proof (paging_map_correct sample_paging sample_tables 0x200000000 0x5000 0x1000 PAGING_WRITE sample_ok
    ltac:(unfold fits; lia) ltac:(unfold fits; lia)) as H.
  rewrite sample_map_ok in H. destruct H as (_ & _ & H & _).
  exact (proj2 (proj1 (H eq_refl) 0x200000123 ltac:(lia))).
Defined.

Lemma paging_unmap_correct_witness :
  exists p', paging_unmap 0x200000000 0x1000 sample_mapped = (PAGING_STATUS_OK, p') /\
    paging_translate 0x200000123 true p' = (PAGING_STATUS_NOT_MAPPED, no_translation).
Proof.
  destruct sample_mapped_ok as (T & Hok).
  assert (E : (paging_unmap 0x200000000 0x1000 sample_mapped).1 = PAGING_STATUS_OK) by (vm_compute; reflexivity).
  pose proof (paging_unmap_correct sample_mapped T 0x200000000 0x1000 Hok ltac:(lia)) as H.
  destruct (paging_unmap 0x200000000 0x1000 sample_mapped) as [st p']. cbn [fst] in E. subst st. exists p'.
  split; [reflexivity|]. destruct (decide (PAGING_STATUS_OK = PAGING_STATUS_OK)) as [_|Hn]; [|by destruct Hn].
  destruct H as (_ & H & _). exact (proj2 (H 0x200000123 ltac:(lia))).
Defined.

Lemma paging_protect_correct_witness :
  exists p' tr, paging_protect 0x200000000 0x1000 PAGING_READ sample_mapped = (PAGING_STATUS_OK, p') /\
    paging_translate 0x200000123 true sample_mapped = (PAGING_STATUS_OK, tr) /\
    paging_translate 0x200000123 true p' = (PAGING_STATUS_OK,
      Translation (physical_address tr) PAGING_READ PAGING_MEMORY_WRITE_BACK 1 false).
Proof.
  destruct sample_mapped_ok as (T & Hok).
  assert (E : (paging_protect 0x200000000 0x1000 PAGING_READ sample_mapped).1 = PAGING_STATUS_OK)
    by (vm_compute; reflexivity).
  pose proof (paging_protect_correct sample_mapped T 0x200000000 0x1000 PAGING_READ Hok ltac:(lia)) as H.
  destruct (paging_protect 0x200000000 0x1000 PAGING_READ sample_mapped) as [st p']. cbn [fst] in E. subst st. exists p'.
  destruct (decide (PAGING_STATUS_OK = PAGING_STATUS_OK)) as [_|Hn]; [|by destruct Hn].
  destruct H as (_ & H & _). destruct (H 0x200000123 ltac:(lia)) as (tr & H1 & H2).
  exists tr. split; [reflexivity|]. split; [exact H1|exact H2].
Defined.

Lemma sample_call : paging_call sample_paging sample_mapped.
Proof. apply (call_map sample_paging 0x200000000 0x5000 0x1000 PAGING_WRITE); unfold fits; lia. Qed.


Lemma paging_changes_invalidated_witness :
  exists l, invalidated (mem sample_mapped) = l ++ [] /\
    forall a, paging_translate a true sample_mapped <> paging_translate a true sample_paging -> page_of a ∈ l.
Proof. exact (paging_changes_invalidated sample_paging sample_mapped sample_tables sample_ok sample_call). Defined.

Lemma map_unmap_roundtrip_witness :
  exists p2, paging_unmap 0x200000000 0x1000 sample_mapped = (PAGING_STATUS_OK, p2) /\
    ps_table_frames (state p2) = 1 /\
    (forall g, allocated_page (frame_state (mem p2)) g <-> allocated_page (frame_state (mem sample_paging)) g).
Proof.
  destruct (map_unmap_roundtrip sample_paging sample_tables 0x200000000 0x5000 0x1000 PAGING_WRITE sample_mapped
    sample_ok (small_tight 8) ltac:(unfold fits; lia) ltac:(unfold fits; lia) sample_map_ok)
    as (p2 & H1 & _ & _ & H2 & H3 & _).
  exists p2. split; [exact H1|]. split; [exact H2|exact H3].
Defined.

(** C20: A mapping refused for want of table frames can leave the hierarchy larger than it
    found it.  With two frames left, a page whose path needs three new tables is refused
    with [OUT_OF_FRAMES]; no address is mapped by it, but the two empty tables stay
    allocated and linked, so the allocator has no frame left where it had two. *)
Theorem refused_map_keeps_tables :
  let p := small_paging 3 in
  let '(st, p') := paging_map 0x200000000 0x5000 0x1000 PAGING_WRITE p in
  (exists T, paging_ok p T /\ tight (live_hierarchy p) (mem p) T) /\
  st = PAGING_STATUS_OUT_OF_FRAMES /\
  (forall a, paging_translate a true p' = paging_translate a true p) /\
  ps_table_frames (state p) = 1 /\ ps_table_frames (state p') = 3 /\
  free_frames (allocator_stats (frame_state (mem p))) = 2 /\
  free_frames (allocator_stats (frame_state (mem p'))) = 0.
Proof.
  cbv zeta. assert (Hok : paging_ok (small_paging 3) sample_tables) by (apply small_ok; small_frames).
  pose proof (paging_map_spec (small_paging 3) sample_tables 0x200000000 0x5000 0x1000 PAGING_WRITE Hok
    ltac:(lia) ltac:(lia)) as H. cbv zeta in H.
  assert (E : let r := paging_map 0x200000000 0x5000 0x1000 PAGING_WRITE (small_paging 3) in
    (r.1, ps_table_frames (state r.2), free_frames (allocator_stats (frame_state (mem r.2)))) =
    (PAGING_STATUS_OUT_OF_FRAMES, 3, 0)) by (vm_compute; reflexivity).
  cbv zeta in E. destruct (paging_map 0x200000000 0x5000 0x1000 PAGING_WRITE (small_paging 3)) as [st p'].
  cbn [fst snd] in E. injection E as -> E1 E2.
  rewrite decide_False in H by done. destruct H as (_ & T' & Hcall).
  split; [exists sample_tables; split; [exact Hok|exact (small_tight 3)]|]. split; [reflexivity|].
  split; [intros a; apply (call_elsewhere _ _ _ _ _ a Hok Hcall); tauto|].
  split; [reflexivity|]. split; [exact E1|]. split; [vm_compute; reflexivity|exact E2].
Qed.
End PagingSamples.
