(* ===== verification/PagingBackend.v ===== *)
(** * The page tables behind the heap ([src/kernel/paging.c] as called by
      [src/kernel/heap.c] and [src/kernel/thread.c])

    The calls of [Paging] on the live hierarchy and the allocator of [Frames] it draws
    tables from are an instance of [page_backend], and the theorems of [PagingCalls]
    discharge [page_backend_laws]: what is proved of the heap and of threads against
    that interface holds over the real page tables. *)

From stdpp Require Import base option list numbers gmap fin_maps.
From S2P Require Import Prelude Frames BlockTable Heap Paging PagingSpec PagingRange PagingCalls.

(** The paging state and whether interrupts are enabled. *)
Record kernel := Kernel {
  k_paging : paging;
  k_interrupts : bool
}.

Definition on_frames (f : frames) (k : kernel) : kernel :=
  let p := k_paging k in
  Kernel (Paging (state p) (live_hierarchy p) (supervisor_intents p) (set_frames f (mem p))) (k_interrupts k).

(** The heap tells three statuses apart and reads three fields of a translation. *)
Definition heap_status_of (st : paging_status) : Heap.paging_status :=
  match st with
  | PAGING_STATUS_OK => Heap.PAGING_STATUS_OK
  | PAGING_STATUS_NOT_MAPPED => Heap.PAGING_STATUS_NOT_MAPPED
  | _ => Heap.PAGING_STATUS_OTHER 0
  end.

Definition heap_translation_of (t : paging_translation) : Heap.paging_translation :=
  Heap.Translation (physical_address t) (permissions t) (level t).

#[global] Instance paging_backend : page_backend kernel := {
  Heap.paging_is_active k := paging_is_active (k_paging k);
  cpu_interrupts_enabled := k_interrupts;
  Heap.paging_translate k va :=
    let '(st, t) := paging_translate va true (k_paging k) in (heap_status_of st, heap_translation_of t);
  Heap.paging_map va pa len perms k :=
    let '(st, p) := paging_map va pa len perms (k_paging k) in (heap_status_of st, Kernel p (k_interrupts k));
  Heap.paging_unmap va len k :=
    let '(st, p) := paging_unmap va len (k_paging k) in (heap_status_of st, Kernel p (k_interrupts k));
  backend_frame_allocate k :=
    let '(st, out, f) := frame_allocate (Some 0) (frame_state (mem (k_paging k))) in
    (st, default 0 out, on_frames f k);
  backend_frame_release frame k :=
    let '(st, f) := frame_release frame (frame_state (mem (k_paging k))) in (st, on_frames f k)
}.

(** The last page of the address space, which the range checks refuse. *)
Definition top_page : Z := 2 ^ 64 - 4096.

Definition kernel_ok (k : kernel) : Prop :=
  exists T, paging_ok (k_paging k) T /\ ~ mapped (live_hierarchy (k_paging k)) (mem (k_paging k)) top_page.

(** Allocated, and not one of the tables. *)
Definition client_frame (k : kernel) (g : Z) : Prop :=
  exists T, paging_ok (k_paging k) T /\ allocated_page (frame_state (mem (k_paging k))) g /\ T !! g = None.

Lemma client_frame_of k T g :
  paging_ok (k_paging k) T -> client_frame k g <-> allocated_page (frame_state (mem (k_paging k))) g /\ T !! g = None.
Proof.
  intros Hok. split; [|intros Hg; by exists T]. intros (T' & Hok' & Hg).
  by rewrite (tree_same _ _ T T' (proj1 (pg_space _ _ Hok)) (proj1 (pg_space _ _ Hok'))).
Qed.

(** ** The frame allocator under the tables *)

Lemma walk_frames n t va w x u pat f m :
  translate_walk n t va w x u pat (set_frames f m) = translate_walk n t va w x u pat m.
Proof.
  revert t w x u. induction n as [|n IH]; intros t w x u; rewrite !(translate_walk_unfold _ t); cbv zeta.
  - done.
  - change (entry (set_frames f m) t) with (entry m t).
    destruct (negb _); [done|]. destruct (has _ PAGE_HUGE); [done|]. apply IH.
Qed.

Lemma set_frames_ok k T f :
  paging_ok (k_paging k) T -> frames_wf f -> allocator_initialized f = true ->
  (forall g, is_Some (T !! g) -> table_page (frame_state (mem (k_paging k))) g -> table_page f g) ->
  paging_ok (k_paging (on_frames f k)) T.
Proof.
  intros [(Ht & _ & _ & Ha) Hact Hpat Hl Hc] Hwf Hi Htb. split; [|done..].
  split; [|done]. cbn [k_paging on_frames live_hierarchy mem]. split.
  - apply (tree_root _ _ _ Ht).
  - intros a l p HT. destruct (tree_table _ _ _ Ht a l p HT) as (? & ? & ? & ? & ?).
    split_and!; try done; try lia; by apply Htb.
  - apply (tree_down _ _ _ Ht).
  - apply (tree_up _ _ _ Ht).
  - apply (tree_plain _ _ _ Ht).
  - apply (tree_count _ _ _ Ht).
Qed.

Lemma frames_translate k f va : Heap.paging_translate (on_frames f k) va = Heap.paging_translate k va.
Proof.
  cbn [Heap.paging_translate paging_backend]. unfold paging_translate, translate_address.
  cbn [k_paging on_frames state live_hierarchy mem]. destruct (negb true); [done|].
  destruct (negb (active _)); [done|]. destruct (negb (address_is_canonical va)); [done|]. by rewrite walk_frames.
Qed.

Lemma frames_mapped k f a :
  mapped (live_hierarchy (k_paging (on_frames f k))) (mem (k_paging (on_frames f k))) a <->
  mapped (live_hierarchy (k_paging k)) (mem (k_paging k)) a.
Proof. unfold mapped, translation. cbn [k_paging on_frames live_hierarchy mem]. by rewrite walk_frames. Qed.

Lemma backend_allocate k st f k' :
  kernel_ok k -> backend_frame_allocate k = (st, f, k') ->
  kernel_ok k' /\ (forall va, Heap.paging_translate k' va = Heap.paging_translate k va) /\
  (forall g, client_frame k g -> client_frame k' g) /\
  (st = FRAME_STATUS_OK -> ~ client_frame k f /\ client_frame k' f).
Proof.
  intros (T & Hok & Htop). pose proof (pg_space _ _ Hok) as (Ht & Hwf & Hi & _).
  cbn [backend_frame_allocate paging_backend].
  destruct (frame_allocate_law_pages (frame_state (mem (k_paging k))) Hwf Hi) as
    [(next & -> & Hb & Hm & Hn & Hwf' & Hi' & Hal & Hk & Hiff)| ->]; intros [= <- <- <-].
  - set (s' := take_frame _ _) in *. clearbody s'.
    assert (Hok' : paging_ok (k_paging (on_frames s' k)) T) by (apply set_frames_ok; auto).
    change (frame_state (mem (k_paging (on_frames s' k)))) with s' in *.
    split; [exists T; split; [done|by rewrite frames_mapped]|]. split; [apply frames_translate|]. split.
    + intros g [Hg HT]%(client_frame_of k T g Hok). apply (client_frame_of _ T g Hok'). split; [|done].
      apply Hiff. by left.
    + intros _. rewrite (client_frame_of k T _ Hok), (client_frame_of _ T _ Hok'). split; [tauto|].
      split; [apply Hiff; by right|]. destruct (T !! next) as [[l q]|] eqn:E; [|done].
      destruct (tree_table _ _ _ Ht next l q E) as (_ & _ & _ & _ & Hx & _). done.
  - assert (Hok' : paging_ok (k_paging (on_frames (frame_state (mem (k_paging k))) k)) T) by (apply set_frames_ok; auto).
    split; [exists T; split; [done|by rewrite frames_mapped]|]. split; [apply frames_translate|]. split; [|done].
    intros g [Hg HT]%(client_frame_of k T g Hok). by apply (client_frame_of _ T g Hok').
Qed.

Lemma backend_release k f st k' :
  kernel_ok k -> client_frame k f -> backend_frame_release f k = (st, k') ->
  kernel_ok k' /\ (forall va, Heap.paging_translate k' va = Heap.paging_translate k va) /\
  (forall g, g <> f -> client_frame k g -> client_frame k' g).
Proof.
  intros (T & Hok & Htop) [Hf HTf]%(client_frame_of k T f Hok).
  pose proof (pg_space _ _ Hok) as (Ht & Hwf & Hi & _). cbn [backend_frame_release paging_backend].
  assert (Hr : exists st0 s', frame_release f (frame_state (mem (k_paging k))) = (st0, s') /\
            frames_wf s' /\ allocator_initialized s' = true /\
            (forall g, g <> f -> table_page (frame_state (mem (k_paging k))) g -> table_page s' g) /\
            (forall g, g <> f -> allocated_page (frame_state (mem (k_paging k))) g -> allocated_page s' g)).
  { set (s := frame_state (mem (k_paging k))) in *. pose proof Hf as (H0 & _ & _).
    destruct (frame_release_cases s f Hi H0) as [[(Hm & Hlim & Ha & Hs) E]|(_ & st0 & _ & E)].
    - pose proof (release_single s f Hwf Hi (conj Hf Hs) Hlim) as Hrs. cbv zeta in Hrs. rewrite E in Hrs.
      destruct Hrs as (Hwf' & Hi' & Htp & Hiff). eexists _, _. split; [exact E|]. split_and!; try done.
      intros g Hne Hg. by apply Hiff.
    - eexists _, _. split; [exact E|]. by split_and!. }
  destruct Hr as (st0 & s' & -> & Hwf' & Hi' & Htp & Hal). intros [= <- <-].
  assert (Hok' : paging_ok (k_paging (on_frames s' k)) T).
  { apply set_frames_ok; try done. intros g [x Hg]. apply Htp. intros ->. by rewrite HTf in Hg. }
  split; [exists T; split; [done|by rewrite frames_mapped]|]. split; [apply frames_translate|].
  intros g Hne [Hg HT]%(client_frame_of k T g Hok). apply (client_frame_of _ T g Hok').
  split; [by apply Hal|done].
Qed.

(** ** The page tables *)

Lemma client_call K k p' T T' g :
  paging_ok (k_paging k) T -> call_ok K (k_paging k) p' T T' ->
  client_frame k g -> client_frame (Kernel p' (k_interrupts k)) g.
Proof.
  intros Hok (Hev & Hok' & _) Hg%(client_frame_of k T g Hok).
  apply (client_frame_of (Kernel p' (k_interrupts k)) T' g Hok'). by apply (ev_owned _ _ _ _ _ _ _ Hev).
Qed.

Lemma steps_page : steps 4096 4096 = 1%nat.
Proof. done. Qed.

Lemma span_one va a : span va 1 a <-> a = va.
Proof. rewrite span_S. pose proof (span_0 (va + 4096) a). intuition congruence. Qed.

Lemma mapped_call K p p' T T' a :
  call_ok K p p' T T' -> page a -> ~ K a ->
  mapped (live_hierarchy p') (mem p') a <-> mapped (live_hierarchy p) (mem p) a.
Proof.
  intros (Hev & _) Ha Hk. unfold mapped.
  rewrite (ev_translates _ _ _ _ _ _ _ Hev a 0); [done|apply Ha|by rewrite page_of_id].
Qed.

Lemma top_is_page : page top_page.
Proof. by split; vm_compute. Qed.

Lemma level_one_mapped h m T va pat tr :
  tree_ok h m T -> translation h m va pat = (PAGING_STATUS_OK, tr) -> level tr = 1 -> mapped h m va.
Proof.
  intros Ht Htr Hl. apply (mapped_reached h m T va Ht). pose proof (entry_for_find h m T va pat Ht) as Hf.
  destruct (entry_for h va 1 false m) as [[[st|e] h'] m']; destruct Hf as (_ & _ & Hf).
  - destruct st; try done; [congruence|]. destruct Hf as (tr' & E & Hne). congruence.
  - destruct Hf as (t & -> & HT & E). exists t. split; [done|].
    fold (entry m t (table_index va 1)) in E. destruct (has _ PAGE_PRESENT); [done|congruence].
Qed.

Lemma view_elsewhere K k p' T T' a :
  paging_ok (k_paging k) T -> call_ok K (k_paging k) p' T T' ->
  (address_is_canonical a = true -> ~ K (page_of a)) ->
  Heap.paging_translate (Kernel p' (k_interrupts k)) a = Heap.paging_translate k a.
Proof.
  intros Hok Hcall Hk. cbn [Heap.paging_translate paging_backend k_paging].
  by rewrite (call_elsewhere K _ p' T T' a Hok Hcall Hk).
Qed.

Lemma aligned_elsewhere va a :
  page_address a -> a <> va -> address_is_canonical a = true -> ~ span va 1 (page_of a).
Proof. intros Ha Hne Hc. rewrite page_of_id by done. by rewrite span_one. Qed.

Lemma heap_status_ok st : heap_status_of st = Heap.PAGING_STATUS_OK <-> st = PAGING_STATUS_OK.
Proof. by destruct st. Qed.

Lemma backend_map k va f perms st k' :
  kernel_ok k -> page_address va -> client_frame k f ->
  Heap.paging_map va f Heap.PAGING_PAGE_SIZE perms k = (st, k') ->
  kernel_ok k' /\
  (forall va', page_address va' -> va' <> va -> Heap.paging_translate k' va' = Heap.paging_translate k va') /\
  (forall g, client_frame k g -> client_frame k' g) /\
  (if decide (st = Heap.PAGING_STATUS_OK)
   then Heap.paging_translate k' va = (Heap.PAGING_STATUS_OK, Heap.Translation f perms 1)
   else Heap.paging_translate k' va = Heap.paging_translate k va).
Proof.
  intros (T & Hok & Htop) Hva Hf. pose proof Hf as [(H0 & _) _]%(client_frame_of k T f Hok).
  cbn [Heap.paging_map paging_backend]. change Heap.PAGING_PAGE_SIZE with 4096.
  pose proof (paging_map_spec (k_paging k) T va f 4096 perms Hok H0 ltac:(lia)) as Hs. cbv zeta in Hs.
  rewrite steps_page in Hs. destruct (paging_map va f 4096 perms (k_paging k)) as [st0 p']. intros [= <- <-].
  destruct (decide (st0 = PAGING_STATUS_OK)) as [-> |Hne].
  - destruct Hs as ((Hv & _) & Hpg & _ & _ & _ & Hmaps & _ & T' & _ & Hcall & _). pose proof Hcall as (Hev & Hok' & Hpat).
    apply virtual_range_ok in Hv as (_ & _ & _ & Hc & Hb & _).
    split; [|split; [|split]].
    + exists T'. split; [done|]. cbn [k_paging]. rewrite (mapped_call _ _ _ _ _ _ Hcall top_is_page); [done|].
      rewrite span_one. unfold top_page. lia.
    + intros a Ha Hne. apply (view_elsewhere _ k p' T T' a Hok Hcall). by apply aligned_elsewhere.
    + intros g. by apply (client_call _ k p' T T' g Hok Hcall).
    + rewrite decide_True by done. cbn [Heap.paging_translate paging_backend k_paging].
      rewrite (translate_canonical p' T' va Hok' Hc), Hpat.
      rewrite (Hmaps va); [|done| |apply Hok].
      * unfold heap_translation_of. cbn [heap_status_of physical_address permissions level]. do 2 f_equal. lia.
      * rewrite page_of_id by done. by rewrite span_one.
  - destruct Hs as (_ & T' & Hcall). pose proof Hcall as (Hev & Hok' & _). split; [|split; [|split]].
    + exists T'. split; [done|]. cbn [k_paging]. by rewrite (mapped_call _ _ _ _ _ _ Hcall top_is_page) by tauto.
    + intros a _ _. apply (view_elsewhere _ k p' T T' a Hok Hcall). tauto.
    + intros g. by apply (client_call _ k p' T T' g Hok Hcall).
    + rewrite decide_False by (by rewrite heap_status_ok). apply (view_elsewhere _ k p' T T' va Hok Hcall). tauto.
Qed.

Lemma page_range va :
  page va -> va <> top_page -> validate_virtual_range va 4096 4096 = PAGING_STATUS_OK.
Proof.
  intros [Hc Hm] Hne. unfold validate_virtual_range. change (4096 - 1) with (2 ^ 12 - 1). rewrite !land_mask by lia.
  change (2 ^ 12) with 4096. change UINT64_MAX with (2 ^ 64 - 1). rewrite Hm, Hc. cbn [Z.eqb negb orb].
  change (4096 mod 4096) with 0. cbn [Z.eqb negb orb].
  assert (Hc' : address_is_canonical (va + 4096 - 1) = true /\ 4096 <= 2 ^ 64 - 1 - va).
  { revert Hc Hne. unfold top_page. rewrite !canonical_range. change (2 ^ 47) with 140737488355328.
    change (2 ^ 64) with 18446744073709551616. clear -Hm. intros. div_lia. }
  destruct Hc' as [-> Hb]. cbn [negb]. by destruct (Z.ltb_spec (2 ^ 64 - 1 - va) 4096); [lia|].
Qed.

Lemma backend_unmap k va t st k' :
  kernel_ok k -> page_address va ->
  Heap.paging_translate k va = (Heap.PAGING_STATUS_OK, t) -> Heap.level t = 1 ->
  Heap.paging_unmap va Heap.PAGING_PAGE_SIZE k = (st, k') ->
  st = Heap.PAGING_STATUS_OK /\ kernel_ok k' /\
  (Heap.paging_translate k' va).1 = Heap.PAGING_STATUS_NOT_MAPPED /\
  (forall va', page_address va' -> va' <> va -> Heap.paging_translate k' va' = Heap.paging_translate k va') /\
  (forall g, client_frame k g -> client_frame k' g).
Proof.
  intros (T & Hok & Htop) Hva Ht Hl. cbn [Heap.paging_unmap paging_backend]. change Heap.PAGING_PAGE_SIZE with 4096.
  assert (Hm : address_is_canonical va = true /\ mapped (live_hierarchy (k_paging k)) (mem (k_paging k)) va).
  { cbn [Heap.paging_translate paging_backend] in Ht. destruct (address_is_canonical va) eqn:Hc.
    2: { by rewrite (translate_noncanonical _ T va Hok Hc) in Ht. }
    split; [done|]. rewrite (translate_canonical _ T va Hok Hc) in Ht.
    destruct (translation _ _ va _) as [st0 tr] eqn:E. injection Ht as Hst <-. apply heap_status_ok in Hst as ->.
    exact (level_one_mapped _ _ T va _ tr (proj1 (pg_space _ _ Hok)) E Hl). }
  destruct Hm as [Hc Hm]. assert (Hne : va <> top_page) by (intros ->; done).
  destruct (unmap_mapped _ _ T va 4096 (pg_space _ _ Hok) (page_range va (conj Hc Hva) Hne)) as (h2 & m2 & Hu).
  { rewrite steps_page. by intros a ->%span_one. }
  pose proof (paging_unmap_spec (k_paging k) T va 4096 Hok ltac:(lia)) as Hs. cbv zeta in Hs. rewrite steps_page in Hs.
  assert (Hst : (paging_unmap va 4096 (k_paging k)).1 = PAGING_STATUS_OK)
    by (unfold paging_unmap; rewrite (pg_active _ _ Hok); cbn [negb]; by rewrite Hu).
  destruct (paging_unmap va 4096 (k_paging k)) as [st0 p']. cbn [fst] in Hst. subst st0. intros [= <- <-].
  rewrite decide_True in Hs by done. destruct Hs as (Hpg & _ & _ & Hun & _ & T' & _ & Hcall & _).
  pose proof Hcall as (Hev & Hok' & Hpat). split; [done|]. split; [|split; [|split]].
  - exists T'. split; [done|]. cbn [k_paging]. rewrite (mapped_call _ _ _ _ _ _ Hcall top_is_page); [done|].
    by rewrite span_one.
  - cbn [Heap.paging_translate paging_backend k_paging]. rewrite (translate_canonical p' T' va Hok' Hc).
    rewrite (Hun va); [done|done|]. rewrite page_of_id by done. by rewrite span_one.
  - intros a Ha Hna. apply (view_elsewhere _ k p' T T' a Hok Hcall). by apply aligned_elsewhere.
  - intros g. by apply (client_call _ k p' T T' g Hok Hcall).
Qed.

#[global, refine] Instance paging_backend_laws : page_backend_laws kernel := {
  backend_ok := kernel_ok;
  frame_in_use := client_frame
}.
Proof.
  - exact backend_allocate.
  - exact backend_release.
  - exact backend_map.
  - intros k va t st k' Hok Hva Ht Hl Hu.
    destruct (backend_unmap k va t st k' Hok Hva Ht Hl Hu) as (? & ? & ? & ? & Hg). split_and!; try done.
    intros va' t' _ _. apply Hg.
Defined.

(** ** The heap over the page tables *)

(** Every address of a page mapped by a 4 KiB leaf translates with the page. *)
Lemma page_translation h m T va a pat tr :
  tree_ok h m T -> translation h m va pat = (PAGING_STATUS_OK, tr) -> level tr = 1 -> page_of a = va ->
  translation h m a pat = (PAGING_STATUS_OK,
    Translation (physical_address tr + a mod 4096) (permissions tr) (memory_type tr) 1 false) /\
  physical_address tr mod 4096 = 0.
Proof.
  intros Ht Htr Hl Ha. assert (E : prefix a 0 = prefix va 0) by (by rewrite <- Ha, prefix_page_of).
  assert (Hva : va mod 4096 = 0) by (rewrite <- Ha; unfold page_of; div_lia).
  destruct (proj1 (mapped_reached h m T va Ht) (level_one_mapped h m T va pat tr Ht Htr Hl)) as (t & HT & Hp).
  pose proof (entry_for_find h m T va pat Ht) as Hf. rewrite (entry_for_reached h m T t va Ht HT) in Hf.
  destruct Hf as (_ & _ & _ & _ & _ & Hf). unfold entry in Hp. rewrite Hp, Htr in Hf.
  assert (HTa : T !! t = Some (1%nat, prefix a 1)) by (by rewrite (same_page_prefix a va 1 E) by lia).
  pose proof (entry_for_find h m T a pat Ht) as Hg. rewrite (entry_for_reached h m T t a Ht HTa) in Hg.
  destruct Hg as (_ & _ & _ & _ & _ & Hg). rewrite (same_page_index a va 0 E), Hp in Hg by lia.
  injection Hf as ->. rewrite fill_physical, Hva, Z.add_0_r. split; [|apply frame_is_page].
  rewrite Hg. rewrite <- (fill_physical _ a (has (word m (entry_at t (table_index va 1))) PAGE_WRITABLE)
    (negb (has (word m (entry_at t (table_index va 1))) PAGE_NO_EXECUTE)) false pat). done.
Qed.

(** The addresses of the blocks in use. *)
Definition heap_byte (h : heap) (a : Z) : Prop :=
  exists b, b ∈ used_blocks (Heap.live h) /\ HEAP_BASE + offset b <= a < HEAP_BASE + offset b + size b.

Lemma heap_byte_page (h : heap) (k : kernel) a :
  heap_wf h k -> heap_byte h a ->
  exists j, 0 <= j < mapped_pages (Heap.state h) /\ page_of a = Heap.page j /\ address_is_canonical a = true.
Proof.
  intros [Hc _] (b & Hb & Ha). pose proof (hc_layout h k Hc) as Hlay.
  pose proof (hc_pages h k Hc) as Hp. pose proof (hc_bound h k Hc) as Hbd.
  assert (Hin : 0 <= offset b /\ offset b + size b <= committed_bytes (Heap.state h)).
  { apply used_blocks_In in Hb as [_ (l1 & l2 & E)%list_elem_of_split]. rewrite E in Hlay.
    pose proof (layout_block _ _ _ _ _ _ Hlay) as Hlb. tauto. }
  exists ((a - HEAP_BASE) / 4096). change Heap.PAGING_PAGE_SIZE with 4096 in Hp.
  rewrite canonical_range. unfold page_of, Heap.page. change Heap.PAGING_PAGE_SIZE with 4096.
  unfold HEAP_BASE, HEAP_SIZE in *. change (2 ^ 47) with 140737488355328.
  change (2 ^ 64) with 18446744073709551616. clear Hlay Hc. div_lia.
Qed.

Lemma backed_translation (h : heap) (k : kernel) a :
  heap_wf h k -> heap_byte h a ->
  exists j tr T, 0 <= j < mapped_pages (Heap.state h) /\ page_of a = Heap.page j /\
    Heap.paging_translate k (Heap.page j) = (Heap.PAGING_STATUS_OK, heap_translation_of tr) /\
    paging_ok (k_paging k) T /\ client_frame k (physical_address tr) /\ physical_address tr mod 4096 = 0 /\
    paging_translate a true (k_paging k) = (PAGING_STATUS_OK,
      Translation (physical_address tr + a mod 4096) PAGING_WRITE (memory_type tr) 1 false).
Proof.
  intros Hwf Ha. destruct (heap_byte_page h k a Hwf Ha) as (j & Hj & Hpj & Hca).
  destruct (hc_backed h k (proj1 Hwf)) as [Hb _]. destruct (Hb j Hj) as (t & Ht & Hp & Hl & Hu).
  destruct (hc_backend h k (proj1 Hwf)) as (T & Hok & _). cbn [Heap.paging_translate paging_backend] in Ht.
  destruct (page_of_page a Hca) as [Hcj _]. rewrite Hpj in Hcj.
  rewrite (translate_canonical _ T _ Hok Hcj) in Ht.
  destruct (translation _ _ (Heap.page j) _) as [st tr] eqn:E. injection Ht as Hst <-. apply heap_status_ok in Hst as ->.
  destruct (page_translation _ _ T _ a _ tr (proj1 (pg_space _ _ Hok)) E Hl Hpj) as [Htr Hm].
  exists j, tr, T. split; [done|]. split; [done|]. split.
  { cbn [Heap.paging_translate paging_backend]. by rewrite (translate_canonical _ T _ Hok Hcj), E. }
  split; [done|]. split; [done|]. split; [done|]. rewrite (translate_canonical _ T _ Hok Hca), Htr.
  cbn [heap_translation_of Heap.permissions] in Hp. by rewrite Hp.
Qed.


(** ** A heap over a small hierarchy *)

Module BackendSamples.
Import PagingSamples.

Definition sample_kernel : kernel := Kernel sample_paging false.

Lemma sample_kernel_ok : kernel_ok sample_kernel.
Proof.
  exists sample_tables. split; [exact sample_ok|]. intros (tr & E & _).
  apply (small_unmapped 8 top_page tr). rewrite <- E. reflexivity.
Qed.

Lemma sample_kernel_unmapped : Heap.unmapped sample_kernel (fun j => -1 <= j <= 4096).
Proof.
  intros j Hj. cbn [Heap.paging_translate paging_backend k_paging sample_kernel].
  assert (Hc : address_is_canonical (Heap.page j) = true).
  { apply canonical_range. unfold Heap.page, HEAP_BASE, Heap.PAGING_PAGE_SIZE.
    change (2 ^ 47) with 140737488355328. lia. }
  assert (Hn : forall tr, paging_translate (Heap.page j) true sample_paging <> (PAGING_STATUS_OK, tr))
    by exact (small_unmapped 8 (Heap.page j)).
  rewrite (translate_canonical _ sample_tables _ sample_ok Hc). setoid_rewrite (translate_canonical _ sample_tables _ sample_ok Hc) in Hn.
  unfold translation in *. destruct (walk_total 3 (root (live_hierarchy sample_paging)) (Heap.page j) true true true
    (pat_after (state sample_paging)) (mem sample_paging)) as [E|(tr & E)].
  - by rewrite E.
  - by destruct (Hn tr).
Qed.

Definition kernel_heap : heap := (heap_initialize empty_heap sample_kernel).2.

Definition kernel_first := heap_allocate 100 (Some None) kernel_heap sample_kernel.

Lemma kernel_first_step : heap_step (kernel_heap, sample_kernel) (kernel_first.1.2, kernel_first.2).
Proof.
  apply (step_allocate kernel_heap sample_kernel 100 None kernel_first.1.1.1 kernel_first.1.1.2); [done| |].
  - change (kernel_first = (kernel_first.1.1.1, kernel_first.1.1.2, kernel_first.1.2, kernel_first.2)).
    by rewrite <- !pair_eta.
  - vm_compute. discriminate.
Qed.

(** The first allocation takes the block at the base of the window. *)
Lemma kernel_first_byte : heap_byte kernel_first.1.2 (HEAP_BASE + 99).
Proof.
  exists (Block 0 112 true). split; [|cbn [offset size]; unfold HEAP_BASE; lia].
  assert (used_blocks (Heap.live kernel_first.1.2) = [Block 0 112 true]) as -> by (vm_compute; reflexivity).
  apply list_elem_of_singleton. reflexivity.
Qed.

End BackendSamples.
