(* ===== verification/PagingAudit.v ===== *)
(** * The audit walk ([audit_table] of [src/kernel/paging.c])

    The walk counts the leaves of the hierarchy with their effective permissions; its
    counters of writable and executable leaves and of user leaves are zero exactly when
    no address translates so. *)

From stdpp Require Import base option list numbers gmap fin_maps.
From S2P Require Import Prelude Frames BlockTable Heap Paging PagingSpec PagingRange PagingCalls.

(** A leaf: its level and whether it is writable, executable and open to user mode. *)
Abbreviation leaf_flags := (nat * bool * bool * bool)%type.

(** The leaves of the table at level [n + 1], in the order of the walk. *)
Fixpoint leaves (n : nat) (table : Z) (w x u : bool) (m : memory) : list leaf_flags :=
  flat_map (fun i =>
    let e := word m (entry_at table i) in
    if negb (has e PAGE_PRESENT) then []
    else
      let w := w && has e PAGE_WRITABLE in
      let x := x && negb (has e PAGE_NO_EXECUTE) in
      let u := u && has e PAGE_USER in
      match n with
      | S n' => if negb (has e PAGE_HUGE) then leaves n' (e .& PAGE_FRAME_MASK) w x u m else [(S n, w, x, u)]
      | O => [(S n, w, x, u)]
      end) (seqZ 0 PAGING_ENTRIES_PER_TABLE).

Definition count_flags (a : paging_audit) (l : leaf_flags) : paging_audit :=
  let '(level, w, x, u) := l in count_leaf level w x u a.

Lemma foldl_flat_map {A B C} (f : A -> B -> A) (g : C -> list B) (h : A -> C -> A) l a :
  (forall a c, h a c = foldl f a (g c)) -> foldl h a l = foldl f a (flat_map g l).
Proof.
  intros Hh. revert a. induction l as [|c l IH]; intros a; [done|]. cbn [foldl flat_map].
  by rewrite foldl_app, Hh, IH.
Qed.

Lemma audit_leaves n table w x u m a :
  audit_table n table w x u m a = foldl count_flags a (leaves n table w x u m).
Proof.
  revert table w x u a. induction n as [|n IH]; intros table w x u a; cbn [audit_table leaves];
    apply foldl_flat_map; intros b i; cbv zeta; (destruct (negb (has _ PAGE_PRESENT)); [done|]); [done|].
  destruct (negb (has _ PAGE_HUGE)); [apply IH|done].
Qed.

Lemma length_flat_map {A B} (f : A -> list B) l k :
  (forall x, (length (f x) <= k)%nat) -> (length (flat_map f l) <= length l * k)%nat.
Proof.
  intros Hf. induction l as [|x l IH]; cbn [flat_map length]; [lia|]. rewrite length_app. specialize (Hf x). lia.
Qed.

Lemma leaves_length n table w x u m : Z.of_nat (length (leaves n table w x u m)) <= 512 ^ Z.of_nat (S n).
Proof.
  revert table w x u. induction n as [|n IH]; intros table w x u.
  - cbn [leaves]. etransitivity; [apply Nat2Z.inj_le, (length_flat_map _ _ 1)|].
    + intros i. cbv zeta. destruct (negb _); cbn [length]; lia.
    + rewrite length_seqZ. done.
  - cbn [leaves]. set (k := Z.to_nat (512 ^ Z.of_nat (S n))).
    assert (Hk : Z.of_nat k = 512 ^ Z.of_nat (S n)) by (unfold k; rewrite Z2Nat.id; lia).
    etransitivity; [apply Nat2Z.inj_le, (length_flat_map _ _ k)|].
    + intros i. cbv zeta. destruct (negb _); cbn [length]; [lia|].
      destruct (negb _); [apply Nat2Z.inj_le; rewrite Hk; apply IH|]. cbn [length].
      assert (0 < 512 ^ Z.of_nat (S n)) by lia. lia.
    + rewrite length_seqZ. change (Z.to_nat PAGING_ENTRIES_PER_TABLE) with 512%nat.
      rewrite Nat2Z.inj_mul, Hk. rewrite (Nat2Z.inj_succ (S n)), Z.pow_succ_r by lia. lia.
Qed.

(** ** The counters *)

Lemma counter_exact (f : paging_audit -> Z) (g : leaf_flags -> bool) l a :
  (forall a l, f (count_flags a l) = if g l then u64 (f a + 1) else f a) ->
  0 <= f a -> f a + Z.of_nat (length l) < 2 ^ 64 ->
  f (foldl count_flags a l) = f a + countb g l.
Proof.
  intros Hf. revert a. induction l as [|y l IH]; intros a H0 Hb; cbn [foldl countb]; [lia|].
  cbn [length] in Hb. specialize (Hf a y). destruct (g y).
  - rewrite wrap_small in Hf by (unfold fits; lia). rewrite IH, Hf; lia.
  - rewrite IH, Hf; lia.
Qed.

Definition flag_wx (l : leaf_flags) : bool := let '(_, w, x, _) := l in w && x.
Definition flag_user (l : leaf_flags) : bool := let '(_, _, _, u) := l in u.

Lemma audit_counts h m :
  let l := leaves 3 (root h) true true true m in
  write_execute_leaves (audit_hierarchy h m) = countb flag_wx l /\
  user_leaves (audit_hierarchy h m) = countb flag_user l.
Proof.
  cbv zeta. unfold audit_hierarchy. change (PAGING_LEVEL_COUNT - 1)%nat with 3%nat. rewrite audit_leaves.
  pose proof (leaves_length 3 (root h) true true true m) as Hl. change (512 ^ Z.of_nat 4) with 68719476736 in Hl.
  assert (Hb : forall n : Z, n = 0 -> n + Z.of_nat (length (leaves 3 (root h) true true true m)) < 2 ^ 64)
    by (intros n ->; change (2 ^ 64) with 18446744073709551616; lia).
  split.
  - rewrite (counter_exact write_execute_leaves flag_wx); [done| |done|by apply Hb].
    by intros a [[[k []] []] u].
  - rewrite (counter_exact user_leaves flag_user); [done| |done|by apply Hb].
    by intros a [[[k w] x] []].
Qed.

Lemma countb_none {A} (f : A -> bool) l : countb f l = 0 <-> forall x, x ∈ l -> f x = false.
Proof.
  rewrite countb_zero. split.
  - intros H x (i & Hi)%list_elem_of_lookup. by apply (H i).
  - intros H i x Hi. by apply H, (list_elem_of_lookup_2 _ i).
Qed.

(** ** Leaves and translations *)

(** The permissions of a translation are the flags of its leaf. *)
Lemma fill_flags e va n w x u pat :
  let tr := fill_translation e va n w x u pat in
  has (permissions tr) PAGING_WRITE = w /\ has (permissions tr) PAGING_EXECUTE = x /\ user tr = u.
Proof.
  unfold fill_translation. cbn [permissions user].
  destruct w, x, (leaf_memory_type e n pat); vm_compute; done.
Qed.

Lemma elem_of_leaves n table w x u m l :
  l ∈ leaves n table w x u m <-> exists i, 0 <= i < 512 /\ has (entry m table i) PAGE_PRESENT = true /\
    let e := entry m table i in
    let w := w && has e PAGE_WRITABLE in
    let x := x && negb (has e PAGE_NO_EXECUTE) in
    let u := u && has e PAGE_USER in
    match n with
    | S n' => if has e PAGE_HUGE then l = (S n, w, x, u) else l ∈ leaves n' (frame_of e) w x u m
    | O => l = (S n, w, x, u)
    end.
Proof.
  assert (E : leaves n table w x u m = flat_map (fun i =>
    let e := entry m table i in
    if negb (has e PAGE_PRESENT) then []
    else
      let w := w && has e PAGE_WRITABLE in
      let x := x && negb (has e PAGE_NO_EXECUTE) in
      let u := u && has e PAGE_USER in
      match n with
      | S n' => if negb (has e PAGE_HUGE) then leaves n' (frame_of e) w x u m else [(S n, w, x, u)]
      | O => [(S n, w, x, u)]
      end) (seqZ 0 PAGING_ENTRIES_PER_TABLE)) by (by destruct n).
  rewrite E, list_elem_of_In, in_flat_map. split.
  - intros (i & Hi%list_elem_of_In%elem_of_seqZ & Hl%list_elem_of_In). exists i.
    split; [change PAGING_ENTRIES_PER_TABLE with 512 in Hi; lia|]. cbv zeta in *.
    destruct (has (entry m table i) PAGE_PRESENT); cbn [negb] in Hl; [|by apply elem_of_nil in Hl]. split; [done|].
    destruct n as [|n]; [by apply list_elem_of_singleton in Hl|].
    destruct (has (entry m table i) PAGE_HUGE); cbn [negb] in Hl; [by apply list_elem_of_singleton in Hl|done].
  - intros (i & Hi & Hp & Hl). exists i. rewrite <- !list_elem_of_In, elem_of_seqZ.
    split; [change PAGING_ENTRIES_PER_TABLE with 512; lia|]. cbv zeta in *. rewrite Hp. cbn [negb].
    destruct n as [|n]; [by apply list_elem_of_singleton|].
    destruct (has (entry m table i) PAGE_HUGE); cbn [negb]; [by apply list_elem_of_singleton|done].
Qed.

(** What translates is a leaf. *)
Lemma walk_leaf n table va w x u pat m tr :
  translate_walk n table va w x u pat m = (PAGING_STATUS_OK, tr) ->
  exists e k w' x' u', (k, w', x', u') ∈ leaves n table w x u m /\ tr = fill_translation e va k w' x' u' pat.
Proof.
  revert table w x u. induction n as [|n IH]; intros table w x u; rewrite translate_walk_unfold; cbv zeta;
    (destruct (has (entry m table _) PAGE_PRESENT) eqn:Hp; cbn [negb]; [|done]).
  - intros [= <-]. eexists _, _, _, _, _. split; [|done]. apply elem_of_leaves.
    exists (table_index va 1). split; [apply table_index_range|done].
  - destruct (has (entry m table _) PAGE_HUGE) eqn:Hh.
    + intros [= <-]. eexists _, _, _, _, _. split; [|done]. apply elem_of_leaves.
      exists (table_index va (S (S n))). split; [apply table_index_range|]. split; [done|]. cbv zeta. by rewrite Hh.
    + intros (e & k & w' & x' & u' & Hin & ->)%IH. exists e, k, w', x', u'. split; [|done]. apply elem_of_leaves.
      exists (table_index va (S (S n))). split; [apply table_index_range|]. split; [done|]. cbv zeta. by rewrite Hh.
Qed.

(** The addresses whose indices at the levels up to [S n] are those of [va]. *)
Definition same_indices (n : nat) (va a : Z) : Prop :=
  forall k, (1 <= k <= S n)%nat -> table_index a k = table_index va k.

Lemma index_low k l q va :
  (1 <= k <= l)%nat -> table_index (va + q * 2 ^ (12 + 9 * Z.of_nat l)) k = table_index va k.
Proof.
  intros Hk. rewrite !table_index_alt by lia. unfold level_shift. set (s := 12 + 9 * (Z.of_nat k - 1)).
  replace (12 + 9 * Z.of_nat l) with (9 * (Z.of_nat l - Z.of_nat k) + 9 + s) by lia.
  rewrite !Z.pow_add_r by lia. rewrite !Z.mul_assoc, Z.div_add by lia. change (2 ^ 9) with 512.
  by rewrite Z.mod_add by lia.
Qed.

Lemma index_top l i va :
  0 <= va < 2 ^ (12 + 9 * Z.of_nat l) -> 0 <= i < 512 ->
  table_index (va + i * 2 ^ (12 + 9 * Z.of_nat l)) (S l) = i.
Proof.
  intros Hva Hi. rewrite table_index_alt by lia. unfold level_shift.
  replace (12 + 9 * (Z.of_nat (S l) - 1)) with (12 + 9 * Z.of_nat l) by lia.
  rewrite Z.div_add, Z.div_small by lia. by apply Z.mod_small.
Qed.

(** Every leaf translates some address. *)
Lemma leaf_walk n table w x u m k w' x' u' pat :
  (k, w', x', u') ∈ leaves n table w x u m ->
  exists va, 0 <= va < 2 ^ (12 + 9 * Z.of_nat (S n)) /\ forall a, same_indices n va a ->
    exists e, translate_walk n table a w x u pat m = (PAGING_STATUS_OK, fill_translation e a k w' x' u' pat).
Proof.
  revert table w x u. induction n as [|n IH]; intros table w x u (i & Hi & Hp & Hl)%elem_of_leaves.
  - exists (0 + i * 2 ^ (12 + 9 * Z.of_nat 0)). split; [change (2 ^ (12 + 9 * Z.of_nat 1)) with 2097152;
      change (2 ^ (12 + 9 * Z.of_nat 0)) with 4096; lia|].
    intros a Ha. exists (entry m table i). rewrite translate_walk_unfold. cbv zeta in *.
    rewrite (Ha 1%nat ltac:(lia)), index_top by lia. rewrite Hp. cbn [negb]. by injection Hl as -> -> -> ->.
  - assert (Hpow : 2 ^ (12 + 9 * Z.of_nat (S (S n))) = 512 * 2 ^ (12 + 9 * Z.of_nat (S n))).
    { change 512 with (2 ^ 9). rewrite <- Z.pow_add_r by lia. f_equal. lia. }
    assert (Hpos : 0 < 2 ^ (12 + 9 * Z.of_nat (S n))) by lia. cbv zeta in Hl.
    destruct (has (entry m table i) PAGE_HUGE) eqn:Hh.
    + exists (0 + i * 2 ^ (12 + 9 * Z.of_nat (S n))). split; [rewrite Hpow; nia|].
      intros a Ha. exists (entry m table i). rewrite translate_walk_unfold. cbv zeta.
      rewrite (Ha (S (S n)) ltac:(lia)), index_top by lia. rewrite Hp, Hh. cbn [negb]. by injection Hl as -> -> -> ->.
    + apply IH in Hl as (va & Hva & Hw). exists (va + i * 2 ^ (12 + 9 * Z.of_nat (S n))). split; [rewrite Hpow; nia|].
      intros a Ha. rewrite translate_walk_unfold. cbv zeta.
      rewrite (Ha (S (S n)) ltac:(lia)), index_top by lia. rewrite Hp, Hh. cbn [negb]. apply Hw.
      intros j Hj. rewrite (Ha j ltac:(lia)). apply index_low. lia.
Qed.

Lemma canonical_indices va :
  0 <= va < 2 ^ 48 -> exists a, address_is_canonical a = true /\ same_indices 3 va a.
Proof.
  intros Hva. destruct (decide (va < 2 ^ 47)) as [Hlt|Hge].
  - exists va. split; [apply canonical_range; lia|by intros k _].
  - exists (va + 65535 * 2 ^ (12 + 9 * Z.of_nat 4)). split.
    + apply canonical_range. revert Hva Hge. change (2 ^ (12 + 9 * Z.of_nat 4)) with 281474976710656.
      change (2 ^ 48) with 281474976710656. change (2 ^ 47) with 140737488355328.
      change (2 ^ 64) with 18446744073709551616. lia.
    + intros k Hk. apply index_low. lia.
Qed.

(** What [paging_verify] requires of an audit. *)
Definition audit_clean (a : paging_audit) : Prop := write_execute_leaves a = 0 /\ user_leaves a = 0.

(** The counters of the walk speak of every address. *)
Lemma audit_zero_iff h m pat :
  audit_clean (audit_hierarchy h m) <->
  forall a tr, address_is_canonical a = true -> translation h m a pat = (PAGING_STATUS_OK, tr) ->
    has (permissions tr) PAGING_WRITE && has (permissions tr) PAGING_EXECUTE = false /\ user tr = false.
Proof.
  unfold audit_clean. destruct (audit_counts h m) as [-> ->]. rewrite !countb_none. split.
  - intros [Hwx Hus] a tr _ (e & k & w & x & u & Hin & ->)%walk_leaf.
    destruct (fill_flags e a k w x u pat) as (-> & -> & ->). split; [exact (Hwx _ Hin)|exact (Hus _ Hin)].
  - intros Hall.
    assert (Hleaf : forall k w x u, (k, w, x, u) ∈ leaves 3 (root h) true true true m -> w && x = false /\ u = false).
    { intros k w x u Hin. destruct (leaf_walk _ _ _ _ _ _ k w x u pat Hin) as (va & Hva & Hw).
      destruct (canonical_indices va Hva) as (a & Hc & Hsame). destruct (Hw a Hsame) as (e & E).
      destruct (fill_flags e a k w x u pat) as (E1 & E2 & E3).
      destruct (Hall a (fill_translation e a k w x u pat) Hc E) as [H1 H2].
      rewrite E1, E2 in H1. by rewrite E3 in H2. }
    split; intros [[[k w] x] u] Hin; apply (Hleaf k w x u Hin).
Qed.

(** What every access sees is what the calls report. *)
Lemma write_xor_execute_iff p :
  active (state p) = true ->
  write_xor_execute p <->
  forall a tr, address_is_canonical a = true ->
    translation (live_hierarchy p) (mem p) a (pat_after (state p)) = (PAGING_STATUS_OK, tr) ->
    has (permissions tr) PAGING_WRITE && has (permissions tr) PAGING_EXECUTE = false /\ user tr = false.
Proof.
  intros Hact. unfold write_xor_execute, paging_translate, translate_address. rewrite Hact. cbn [negb].
  split; intros Hall a tr; specialize (Hall a tr).
  - intros Hc. by rewrite Hc in Hall.
  - destruct (address_is_canonical a); [by apply Hall|done].
Qed.

(** C19: The audit of the live hierarchy is exact: it counts no writable and executable
    leaf and no user leaf if and only if no address of the machine translates to a page
    that is writable and executable, or open to user mode. *)
Theorem paging_audit_exact p :
  active (state p) = true ->
  let '(st, a) := paging_audit_hierarchy true p in
  st = PAGING_STATUS_OK /\ (audit_clean a <-> write_xor_execute p).
Proof.
  intros Hact. unfold paging_audit_hierarchy. rewrite Hact. cbn [negb]. split; [done|].
  rewrite (write_xor_execute_iff p Hact). apply audit_zero_iff.
Qed.

Module AuditSamples.
Import PagingSamples.

Lemma paging_audit_exact_witness : write_xor_execute sample_mapped.
Proof.
  pose proof (paging_audit_exact sample_mapped ltac:(vm_compute; reflexivity)) as H.
  assert (E : (paging_audit_hierarchy true sample_mapped).2 = Audit 1 0 1 0 0 0) by (vm_compute; reflexivity).
  destruct (paging_audit_hierarchy true sample_mapped) as [st a]. cbn [snd] in E. subst a.
  apply (proj2 H). split; reflexivity.
Defined.
End AuditSamples.
