(* ===== verification/PagingBoot.v ===== *)
(** * Building the boot hierarchy ([src/kernel/paging.c])

    The registry of device windows with its validation into a canonical order, the
    checks of the processor and of the kernel image, the identity map with the
    permissions of every section and window, the read-back of the finished hierarchy,
    its installation and the audits of the installed state.  The processor's registers
    are the class [processor], the linker's symbols the class [kernel_image]. *)

From stdpp Require Import base option list numbers gmap.
From S2P Require Import Prelude Frames Paging.

Definition IA32_EFER_MSR : Z := 0xC0000080.
Definition EFER_NO_EXECUTE_ENABLE : Z := 1 .<< 11.
Definition CR0_WRITE_PROTECT : Z := 1 .<< 16.
Definition CR4_PHYSICAL_ADDRESS_EXTENSION : Z := 1 .<< 5.
Definition CR4_FIVE_LEVEL_PAGING : Z := 1 .<< 12.
Definition IA32_PAT_MSR : Z := 0x277.
Definition PAT_WRITE_BACK_ENTRY : Z := 0.
Definition PAT_WRITE_COMBINING_ENTRY : Z := 1.
Definition PAT_DEVICE_ENTRY : Z := 3.
Definition CPUID_BASIC_FEATURES : Z := 1.
Definition CPUID_PAT : Z := 0x10000.
Definition CPUID_EXTENDED_ROOT : Z := 0x80000000.
Definition CPUID_EXTENDED_FEATURES : Z := 0x80000001.
Definition CPUID_NO_EXECUTE : Z := 0x100000.
Definition PAGING_KERNEL_IMAGE_LIMIT : Z := 0x3000000.
Definition ACPI_MAX_IO_APICS : Z := 8.
Definition PAGING_VGA_TEXT_BUFFER_BASE : Z := 0xB8000.
Definition PAGING_ECAM_WINDOW_SIZE : Z := PAGING_HUGE_PAGE_SIZE.
Definition PAGING_MAX_FRAMEBUFFER_REGIONS : Z := 8.
Definition PAGING_DEVICE_WINDOW_CAPACITY : Z := 4 + ACPI_MAX_IO_APICS.
Definition PAGING_DEVICE_WINDOW_MAX_LENGTH : Z := PAGING_MAX_FRAMEBUFFER_REGIONS * PAGING_HUGE_PAGE_SIZE.

(** ** Device windows *)

(** [enum paging_device_window_kind]; callers may pass any value. *)
Definition PAGING_DEVICE_WINDOW_VGA_TEXT : Z := 0.
Definition PAGING_DEVICE_WINDOW_LOCAL_APIC : Z := 1.
Definition PAGING_DEVICE_WINDOW_IO_APIC : Z := 2.
Definition PAGING_DEVICE_WINDOW_PCI_ECAM : Z := 3.
Definition PAGING_DEVICE_WINDOW_FRAMEBUFFER : Z := 4.
Definition PAGING_DEVICE_WINDOW_KIND_COUNT : Z := 5.

Definition PAGING_DEVICE_WINDOW_WRITE : Z := 1.

Record paging_device_window := DeviceWindow {
  dw_kind : Z;
  dw_instance : Z;
  dw_base : Z;
  dw_length : Z;
  dw_type : paging_memory_type;
  dw_permissions : Z
}.

#[global] Instance paging_device_window_eq_dec : EqDecision paging_device_window.
Proof. solve_decision. Defined.

(** [struct paging_device_windows]: the entries in use; [count] is their number. *)
Abbreviation paging_device_windows := (list paging_device_window).

Definition dw_end (w : paging_device_window) : Z := u64 (dw_base w + dw_length w).

Definition device_memory_type_supported (t : paging_memory_type) : bool :=
  match t with
  | PAGING_MEMORY_WRITE_BACK | PAGING_MEMORY_WRITE_COMBINING | PAGING_MEMORY_UNCACHEABLE => true
  | _ => false
  end.

Definition validate_device_window_entry (w : paging_device_window) : paging_status :=
  let of_kind k := dw_kind w =? k in
  if (dw_kind w <? PAGING_DEVICE_WINDOW_VGA_TEXT) || (PAGING_DEVICE_WINDOW_KIND_COUNT <=? dw_kind w) then
    PAGING_STATUS_BAD_DEVICE_WINDOW_KIND
  else if (negb (of_kind PAGING_DEVICE_WINDOW_IO_APIC) && negb (dw_instance w =? 0))
       || (of_kind PAGING_DEVICE_WINDOW_IO_APIC && (ACPI_MAX_IO_APICS <=? dw_instance w)) then
    PAGING_STATUS_BAD_DEVICE_WINDOW_INSTANCE
  else if negb (device_memory_type_supported (dw_type w)) then
    PAGING_STATUS_UNSUPPORTED_DEVICE_WINDOW_MEMORY_TYPE
  else if has (dw_permissions w) (u32 (Z.lnot PAGING_DEVICE_WINDOW_WRITE)) then
    PAGING_STATUS_BAD_DEVICE_WINDOW_PERMISSIONS
  else if dw_length w =? 0 then PAGING_STATUS_ZERO_LENGTH_DEVICE_WINDOW
  else if UINT64_MAX - dw_base w <? dw_length w then PAGING_STATUS_DEVICE_WINDOW_RANGE_OVERFLOW
  else if has (dw_base w) (PAGING_PAGE_SIZE - 1) || has (dw_length w) (PAGING_PAGE_SIZE - 1) then
    PAGING_STATUS_UNALIGNED_DEVICE_WINDOW
  else if of_kind PAGING_DEVICE_WINDOW_PCI_ECAM && has (dw_base w) (PAGING_HUGE_PAGE_SIZE - 1) then
    PAGING_STATUS_UNALIGNED_DEVICE_WINDOW
  else if (of_kind PAGING_DEVICE_WINDOW_VGA_TEXT && negb (dw_base w =? PAGING_VGA_TEXT_BUFFER_BASE))
       || ((of_kind PAGING_DEVICE_WINDOW_VGA_TEXT || of_kind PAGING_DEVICE_WINDOW_LOCAL_APIC
            || of_kind PAGING_DEVICE_WINDOW_IO_APIC) && negb (dw_length w =? PAGING_PAGE_SIZE))
       || (of_kind PAGING_DEVICE_WINDOW_PCI_ECAM && negb (dw_length w =? PAGING_ECAM_WINDOW_SIZE)) then
    PAGING_STATUS_DEVICE_WINDOW_UNSUPPORTED_RANGE
  else if (dw_base w =? 0) || (PAGING_DEVICE_WINDOW_MAX_LENGTH <? dw_length w)
       || (RSD_EARLY_PHYSICAL_LIMIT <? dw_base w + dw_length w) then
    PAGING_STATUS_DEVICE_WINDOW_UNSUPPORTED_RANGE
  else PAGING_STATUS_OK.

(** [windows] is [None] for a null pointer. *)
Definition paging_device_windows_add (windows : option paging_device_windows) (w : paging_device_window) :
    paging_status * option paging_device_windows :=
  match windows with
  | None => (PAGING_STATUS_NULL_ARGUMENT, None)
  | Some l =>
      if PAGING_DEVICE_WINDOW_CAPACITY <=? Z.of_nat (length l) then
        (PAGING_STATUS_TOO_MANY_DEVICE_WINDOWS, Some l)
      else
        match validate_device_window_entry w with
        | PAGING_STATUS_OK => (PAGING_STATUS_OK, Some (l ++ [w]))
        | status => (status, Some l)
        end
  end.

Definition memory_type_code (t : paging_memory_type) : Z :=
  match t with
  | PAGING_MEMORY_WRITE_BACK => 0
  | PAGING_MEMORY_WRITE_COMBINING => 1
  | PAGING_MEMORY_UNCACHEABLE => 2
  | PAGING_MEMORY_WRITE_THROUGH => 3
  | PAGING_MEMORY_WRITE_PROTECTED => 4
  | PAGING_MEMORY_UNCACHED_MINUS => 5
  | PAGING_MEMORY_INVALID => 6
  end.

(** [-1], [0] or [1]. *)
Definition compare_device_windows (a b : paging_device_window) : Z :=
  let order (x y rest : Z) := if x =? y then rest else if x <? y then -1 else 1 in
  order (dw_base a) (dw_base b)
    (order (dw_length a) (dw_length b)
      (order (dw_kind a) (dw_kind b)
        (order (dw_instance a) (dw_instance b)
          (order (memory_type_code (dw_type a)) (memory_type_code (dw_type b))
            (order (dw_permissions a) (dw_permissions b) 0))))).

Definition ranges_overlap (a b : paging_device_window) : bool :=
  (dw_base a <? dw_end b) && (dw_base b <? dw_end a).

Fixpoint validate_entries (l : paging_device_windows) : paging_status :=
  match l with
  | [] => PAGING_STATUS_OK
  | w :: l =>
      match validate_device_window_entry w with
      | PAGING_STATUS_OK => validate_entries l
      | status => status
      end
  end.

(** The three flags of the pair loop: conflicting overlap, duplicate, overlap. *)
Definition pair_fault (a b : paging_device_window) (flags : bool * bool * bool) : bool * bool * bool :=
  let '(conflicting_overlap, duplicate, overlap) := flags in
  let pair_overlaps := ranges_overlap a b in
  let conflicting_overlap :=
    if pair_overlaps && negb (bool_decide (dw_type a = dw_type b)) then true else conflicting_overlap in
  if (compare_device_windows a b =? 0) || ((dw_kind a =? dw_kind b) && (dw_instance a =? dw_instance b))
  then (conflicting_overlap, true, overlap)
  else (conflicting_overlap, duplicate, if pair_overlaps then true else overlap).

Fixpoint pair_faults (l : paging_device_windows) (flags : bool * bool * bool) : bool * bool * bool :=
  match l with
  | [] => flags
  | w :: l => pair_faults l (foldl (fun flags v => pair_fault w v flags) flags l)
  end.

(** One round of the insertion sort: [prefix] are the entries before the current one,
    the last first. *)
Fixpoint insert_window (w : paging_device_window) (prefix : list paging_device_window) :
    list paging_device_window :=
  match prefix with
  | v :: rest => if compare_device_windows w v <? 0 then v :: insert_window w rest else w :: prefix
  | [] => [w]
  end.

Definition sort_windows (l : paging_device_windows) : paging_device_windows :=
  reverse (foldl (fun prefix w => insert_window w prefix) [] l).

(** [out] is [validated != NULL]; the list is what is stored there. *)
Definition paging_device_windows_validate (windows : option paging_device_windows) (out : bool) :
    paging_status * option paging_device_windows :=
  match windows with
  | None => (PAGING_STATUS_NULL_ARGUMENT, None)
  | Some l =>
      if negb out then (PAGING_STATUS_NULL_ARGUMENT, None)
      else if PAGING_DEVICE_WINDOW_CAPACITY <? Z.of_nat (length l) then
        (PAGING_STATUS_TOO_MANY_DEVICE_WINDOWS, None)
      else
        match validate_entries l with
        | PAGING_STATUS_OK =>
            let found k := existsb (fun w => dw_kind w =? k) l in
            let '(conflicting_overlap, duplicate, overlap) := pair_faults l (false, false, false) in
            if conflicting_overlap then (PAGING_STATUS_CONFLICTING_DEVICE_WINDOW_OVERLAP, None)
            else if duplicate then (PAGING_STATUS_DUPLICATE_DEVICE_WINDOW, None)
            else if overlap then (PAGING_STATUS_OVERLAPPING_DEVICE_WINDOWS, None)
            else if negb (found PAGING_DEVICE_WINDOW_VGA_TEXT) || negb (found PAGING_DEVICE_WINDOW_LOCAL_APIC)
                 || negb (found PAGING_DEVICE_WINDOW_IO_APIC) then
              (PAGING_STATUS_REQUIRED_DEVICE_WINDOW_MISSING, None)
            else (PAGING_STATUS_OK, Some (sort_windows l))
        | status => (status, None)
        end
  end.

(** ** The processor and the kernel image *)

Record cpuid_result := CpuidResult { eax : Z; ebx : Z; ecx : Z; edx : Z }.

(** The registers paging reads and writes; the page-table root is [cr3] of [memory].
    Writing caches back changes nothing that is modelled. *)
Class processor (C : Type) := {
  cpu_interrupts_enabled : C -> bool;
  cpu_cpuid : Z -> Z -> C -> cpuid_result;
  cpu_read_msr : Z -> C -> Z;
  cpu_write_msr : Z -> Z -> C -> C;
  cpu_read_cr0 : C -> Z;
  cpu_write_cr0 : Z -> C -> C;
  cpu_read_cr4 : C -> Z
}.

(** The symbols of the linker script. *)
Class kernel_image := {
  kernel_start : Z;
  kernel_end : Z;
  text_start : Z;
  text_end : Z;
  rodata_start : Z;
  rodata_end : Z;
  data_start : Z
}.

Definition decode_processor_support (basic_features_edx extended_root_eax extended_features_edx cr4 pat : Z) :
    paging_status :=
  if (extended_root_eax <? CPUID_EXTENDED_FEATURES) || negb (has extended_features_edx CPUID_NO_EXECUTE) then
    PAGING_STATUS_NO_EXECUTE_UNSUPPORTED
  else if negb (has basic_features_edx CPUID_PAT) then PAGING_STATUS_PAT_UNSUPPORTED
  else if has cr4 CR4_FIVE_LEVEL_PAGING then PAGING_STATUS_FIVE_LEVEL_PAGING
  else if negb (has cr4 CR4_PHYSICAL_ADDRESS_EXTENSION) then PAGING_STATUS_PHYSICAL_EXTENSION_DISABLED
  else if existsb (fun i => bool_decide (decode_pat_type (pat_entry pat i) = PAGING_MEMORY_INVALID)) (seqZ 0 8) then
    PAGING_STATUS_PAT_LAYOUT_UNSAFE
  else if negb (pat_entry pat PAT_WRITE_BACK_ENTRY =? PAT_TYPE_WRITE_BACK)
       || negb (pat_entry pat PAT_DEVICE_ENTRY =? PAT_TYPE_UNCACHEABLE) then
    PAGING_STATUS_PAT_LAYOUT_UNSAFE
  else PAGING_STATUS_OK.

Definition validate_kernel_layout (start past : Z) : paging_status :=
  if (past <=? start) || has start (PAGING_PAGE_SIZE - 1) || has past (PAGING_PAGE_SIZE - 1)
     || (PAGING_KERNEL_IMAGE_LIMIT <? past) then PAGING_STATUS_BAD_KERNEL_LAYOUT
  else PAGING_STATUS_OK.

Record paging_section := Section_ {
  sec_start : Z;
  sec_end : Z;
  sec_permissions : Z
}.

Definition add_section (sections : list paging_section) (start past permissions : Z) : list paging_section :=
  if past <=? start then sections else sections ++ [Section_ start past permissions].

(** ** The identity map *)

Section Identity.
Context `{!kernel_image}.

Definition collect_kernel_sections : list paging_section :=
  let sections := add_section [] kernel_start text_start PAGING_READ in
  let sections := add_section sections text_start text_end PAGING_EXECUTE in
  let sections := add_section sections rodata_start rodata_end PAGING_READ in
  add_section sections data_start kernel_end PAGING_WRITE.

Definition device_window_at (windows : paging_device_windows) (address : Z) : option paging_device_window :=
  find (fun w => (dw_base w <=? address) && (address <? dw_end w)) windows.

Definition region_needs_page_table (windows : paging_device_windows) (base : Z) : bool :=
  let past := base + PAGING_HUGE_PAGE_SIZE in
  if (base <? kernel_end) && (kernel_start <? past) then true
  else existsb (fun w => (base <? dw_end w) && (dw_base w <? past)) windows.

Definition device_window_mapping_permissions (w : paging_device_window) : Z :=
  let permissions := PAGING_READ in
  let permissions :=
    if has (dw_permissions w) PAGING_DEVICE_WINDOW_WRITE then permissions .| PAGING_WRITE else permissions in
  match dw_type w with
  | PAGING_MEMORY_UNCACHEABLE => permissions .| PAGING_UNCACHED
  | PAGING_MEMORY_WRITE_COMBINING => permissions .| PAGING_WRITE_COMBINING
  | _ => permissions
  end.

Definition section_permissions (sections : list paging_section) (windows : paging_device_windows) (address : Z) : Z :=
  match device_window_at windows address with
  | Some w => device_window_mapping_permissions w
  | None =>
      match find (fun s => (sec_start s <=? address) && (address <? sec_end s)) sections with
      | Some s => sec_permissions s
      | None => PAGING_WRITE
      end
  end.

(** The pages of a fine region, [n] left from [address]. *)
Fixpoint build_pages (n : nat) (address : Z) (sections : list paging_section) (windows : paging_device_windows)
    (h : hierarchy) (m : memory) : paging_status * hierarchy * memory :=
  match n with
  | O => (PAGING_STATUS_OK, h, m)
  | S n =>
      if address =? 0 then build_pages n (address + PAGING_PAGE_SIZE) sections windows h m
      else
        match map_range h address address PAGING_PAGE_SIZE (section_permissions sections windows address) 1 m with
        | (PAGING_STATUS_OK, h, m) => build_pages n (address + PAGING_PAGE_SIZE) sections windows h m
        | r => r
        end
  end.

(** The regions, [n] left from [base]; threads [fine_region_count]. *)
Fixpoint build_regions (n : nat) (base : Z) (sections : list paging_section) (windows : paging_device_windows)
    (fine : Z) (h : hierarchy) (m : memory) : paging_status * Z * hierarchy * memory :=
  match n with
  | O => (PAGING_STATUS_OK, fine, h, m)
  | S n =>
      let next := base + PAGING_HUGE_PAGE_SIZE in
      if negb (region_needs_page_table windows base) then
        match map_range h base base PAGING_HUGE_PAGE_SIZE PAGING_WRITE 2 m with
        | (PAGING_STATUS_OK, h, m) => build_regions n next sections windows fine h m
        | (status, h, m) => (status, fine, h, m)
        end
      else
        let fine := u64 (fine + 1) in
        match build_pages (Z.to_nat (PAGING_HUGE_PAGE_SIZE / PAGING_PAGE_SIZE)) base sections windows h m with
        | (PAGING_STATUS_OK, h, m) => build_regions n next sections windows fine h m
        | (status, h, m) => (status, fine, h, m)
        end
  end.

Definition IDENTITY_REGIONS : nat := Z.to_nat (RSD_EARLY_PHYSICAL_LIMIT / PAGING_HUGE_PAGE_SIZE).

Definition build_identity_map (sections : list paging_section) (windows : paging_device_windows)
    (h : hierarchy) (m : memory) : paging_status * Z * hierarchy * memory :=
  build_regions IDENTITY_REGIONS 0 sections windows 0 h m.

Definition page_expected (sections : list paging_section) (windows : paging_device_windows) (h : hierarchy)
    (pat : Z) (m : memory) (address : Z) : bool :=
  if address =? 0 then bool_decide ((translate_address h address pat m).1 = PAGING_STATUS_NOT_MAPPED)
  else
    let '(status, t) := translate_address h address pat m in
    bool_decide (status = PAGING_STATUS_OK) && (physical_address t =? address) &&
    (permissions t =? section_permissions sections windows address) &&
    bool_decide (memory_type t = match device_window_at windows address with
      | Some w => dw_type w | None => PAGING_MEMORY_WRITE_BACK end) &&
    (level t =? 1).

Definition region_expected (sections : list paging_section) (windows : paging_device_windows) (h : hierarchy)
    (pat : Z) (m : memory) (base : Z) : bool :=
  if negb (region_needs_page_table windows base) then
    let '(status, t) := translate_address h base pat m in
    bool_decide (status = PAGING_STATUS_OK) && (physical_address t =? base) && (permissions t =? PAGING_WRITE) &&
    bool_decide (memory_type t = PAGING_MEMORY_WRITE_BACK) && (level t =? 2)
  else
    forallb (fun i => page_expected sections windows h pat m (base + i * PAGING_PAGE_SIZE))
      (seqZ 0 (PAGING_HUGE_PAGE_SIZE / PAGING_PAGE_SIZE)).

Definition validate_identity_map (sections : list paging_section) (windows : paging_device_windows) (h : hierarchy)
    (pat : Z) (m : memory) : paging_status :=
  if forallb (fun i => region_expected sections windows h pat m (i * PAGING_HUGE_PAGE_SIZE))
       (seqZ 0 (RSD_EARLY_PHYSICAL_LIMIT / PAGING_HUGE_PAGE_SIZE))
  then PAGING_STATUS_OK else PAGING_STATUS_VALIDATION_FAILURE.

Definition reject_kernel_device_overlap (windows : paging_device_windows) : paging_status :=
  if existsb (fun w => (dw_base w <? kernel_end) && (kernel_start <? dw_end w)) windows
  then PAGING_STATUS_DEVICE_WINDOW_KERNEL_OVERLAP else PAGING_STATUS_OK.
End Identity.

(** ** Installing the hierarchy *)

(** Everything [paging_initialize] writes: the state behind the public calls, the
    installed windows, the collected sections, the count of fine regions and the
    processor. *)
Record boot (C : Type) := Boot {
  bt_paging : paging;
  installed_device_windows : paging_device_windows;
  kernel_sections : list paging_section;
  fine_region_count : Z;
  bt_cpu : C
}.

Arguments Boot {C} _ _ _ _ _.
Arguments bt_paging {C} _.
Arguments installed_device_windows {C} _.
Arguments kernel_sections {C} _.
Arguments fine_region_count {C} _.
Arguments bt_cpu {C} _.

Definition zero_state : paging_state := PagingState 0 0 0 0 0 0 false false false.

Definition set_cr3 (v : Z) (m : memory) : memory :=
  Memory (words m) (frame_state m) v (invalidated m) (failure m).

Definition set_live (b : bool) (h : hierarchy) : hierarchy :=
  Hierarchy (root h) (arena_base h) (arena_capacity h) (arena_used h) (table_frames h) b (process h).

Definition set_root (r : Z) (h : hierarchy) : hierarchy :=
  Hierarchy r (arena_base h) (arena_capacity h) (arena_used h) (table_frames h) (live h) (process h).

Section Install.
Context {C : Type} `{!processor C} `{!kernel_image}.

Definition set_cpu (c : C) (b : boot C) : boot C :=
  Boot (bt_paging b) (installed_device_windows b) (kernel_sections b) (fine_region_count b) c.

Definition reset_state (b : boot C) : boot C :=
  let p := bt_paging b in
  Boot (Paging zero_state (live_hierarchy p) [] (mem p)) [] (kernel_sections b) (fine_region_count b) (bt_cpu b).

Definition enable_processor_features (c : C) : paging_status * C :=
  let efer := cpu_read_msr IA32_EFER_MSR c in
  let c := cpu_write_msr IA32_EFER_MSR (efer .| EFER_NO_EXECUTE_ENABLE) c in
  if negb (has (cpu_read_msr IA32_EFER_MSR c) EFER_NO_EXECUTE_ENABLE) then (PAGING_STATUS_NO_EXECUTE_INACTIVE, c)
  else
    let c := cpu_write_cr0 (cpu_read_cr0 c .| CR0_WRITE_PROTECT) c in
    if negb (has (cpu_read_cr0 c) CR0_WRITE_PROTECT) then (PAGING_STATUS_WRITE_PROTECT_INACTIVE, c)
    else (PAGING_STATUS_OK, c).

(** One row of the table of [paging_verify]. *)
Definition symbol_expected (p : paging) (address expected : Z) : bool :=
  let '(status, t) := translate_address (live_hierarchy p) address (pat_after (state p)) (mem p) in
  bool_decide (status = PAGING_STATUS_OK) && (physical_address t =? address) && (permissions t =? expected).

Definition paging_verify (p : paging) (c : C) : paging_status :=
  let s := state p in
  let h := live_hierarchy p in
  if negb (active s) then PAGING_STATUS_NOT_INITIALIZED
  else if negb (cr3 (mem p) .& PAGE_FRAME_MASK =? root_physical_address s)
       || negb (ps_table_frames s =? table_frames h) || (table_frames h =? 0) then
    PAGING_STATUS_VALIDATION_FAILURE
  else if negb (cpu_read_msr IA32_PAT_MSR c =? pat_after s)
       || negb (pat_entry (pat_after s) (write_combining_pat_entry s) =? PAT_TYPE_WRITE_COMBINING) then
    PAGING_STATUS_PAT_READBACK_MISMATCH
  else if negb (has (cpu_read_msr IA32_EFER_MSR c) EFER_NO_EXECUTE_ENABLE) then PAGING_STATUS_NO_EXECUTE_INACTIVE
  else if negb (has (cpu_read_cr0 c) CR0_WRITE_PROTECT) then PAGING_STATUS_WRITE_PROTECT_INACTIVE
  else
    let audit := audit_hierarchy h (mem p) in
    if negb (write_execute_leaves audit =? 0) || negb (user_leaves audit =? 0) then PAGING_STATUS_VALIDATION_FAILURE
    else if negb (symbol_expected p text_start PAGING_EXECUTE && symbol_expected p rodata_start PAGING_READ
                  && symbol_expected p data_start PAGING_WRITE) then PAGING_STATUS_VALIDATION_FAILURE
    else if negb (bool_decide ((translate_address h 0 (pat_after s) (mem p)).1 = PAGING_STATUS_NOT_MAPPED)) then
      PAGING_STATUS_VALIDATION_FAILURE
    else PAGING_STATUS_OK.

(** The part of [paging_initialize] after the last check of the inactive hierarchy:
    program the PAT, switch, verify, or go back. *)
Definition install (windows : paging_device_windows) (pat_before pat_after : Z) (b : boot C) :
    paging_status * boot C :=
  let c := cpu_write_msr IA32_PAT_MSR pat_after (bt_cpu b) in
  if negb (cpu_read_msr IA32_PAT_MSR c =? pat_after) then
    (PAGING_STATUS_PAT_READBACK_MISMATCH, reset_state (set_cpu (cpu_write_msr IA32_PAT_MSR pat_before c) b))
  else
    let p := bt_paging b in
    let h := live_hierarchy p in
    let previous_root := cr3 (mem p) in
    let s := PagingState (root h) (table_frames h) (fine_region_count b) pat_before pat_after
               PAT_WRITE_COMBINING_ENTRY true true true in
    let p := Paging s (set_live true h) (supervisor_intents p) (set_cr3 (root h) (mem p)) in
    let b := Boot p windows (kernel_sections b) (fine_region_count b) c in
    match paging_verify p c with
    | PAGING_STATUS_OK => (PAGING_STATUS_OK, b)
    | status =>
        let p := Paging (state p) (set_live false (live_hierarchy p)) (supervisor_intents p)
                   (set_cr3 previous_root (mem p)) in
        (status, reset_state (Boot p (installed_device_windows b) (kernel_sections b) (fine_region_count b)
                                (cpu_write_msr IA32_PAT_MSR pat_before c)))
    end.

(** Building and checking the inactive hierarchy. *)
Definition build_and_install (windows : paging_device_windows) (pat_before pat_after : Z) (b : boot C) :
    paging_status * boot C :=
  let p := bt_paging b in
  let sections := collect_kernel_sections in
  let h0 := live_hierarchy p in
  let h := Hierarchy (root h0) 0 0 0 0 false (process h0) in
  let with_tables fine h m := Boot (Paging (state p) h (supervisor_intents p) m) (installed_device_windows b)
                                sections fine (bt_cpu b) in
  match allocate_table h (mem p) with
  | (inl status, h, m) => (status, reset_state (with_tables (fine_region_count b) h m))
  | (inr root, h, m) =>
      match build_identity_map sections windows (set_root root h) m with
      | (PAGING_STATUS_OK, fine, h, m) =>
          let b := with_tables fine h m in
          match validate_identity_map sections windows h pat_after m with
          | PAGING_STATUS_OK =>
              let audit := audit_hierarchy h m in
              if negb (write_execute_leaves audit =? 0) || negb (user_leaves audit =? 0) then
                (PAGING_STATUS_VALIDATION_FAILURE, reset_state b)
              else install windows pat_before pat_after b
          | status => (status, reset_state b)
          end
      | (status, fine, h, m) => (status, reset_state (with_tables fine h m))
      end
  end.

Definition paging_initialize (windows : option paging_device_windows) (b : boot C) : paging_status * boot C :=
  match windows with
  | None => (PAGING_STATUS_NULL_ARGUMENT, b)
  | Some _ =>
      if active (state (bt_paging b)) then (PAGING_STATUS_ALREADY_INITIALIZED, b)
      else
        match paging_device_windows_validate windows true with
        | (PAGING_STATUS_OK, validated) =>
            let validated := default [] validated in
            let status :=
              match validate_kernel_layout kernel_start kernel_end with
              | PAGING_STATUS_OK => reject_kernel_device_overlap validated
              | status => status
              end in
            match status with
            | PAGING_STATUS_OK =>
                let c := bt_cpu b in
                if cpu_interrupts_enabled c then (PAGING_STATUS_INTERRUPTS_ENABLED, b)
                else
                  let basic := cpu_cpuid CPUID_BASIC_FEATURES 0 c in
                  let extended_root_eax := eax (cpu_cpuid CPUID_EXTENDED_ROOT 0 c) in
                  let extended_features_edx :=
                    if CPUID_EXTENDED_FEATURES <=? extended_root_eax then edx (cpu_cpuid CPUID_EXTENDED_FEATURES 0 c)
                    else 0 in
                  let pat_before := if has (edx basic) CPUID_PAT then cpu_read_msr IA32_PAT_MSR c else 0 in
                  match decode_processor_support (edx basic) extended_root_eax extended_features_edx
                          (cpu_read_cr4 c) pat_before with
                  | PAGING_STATUS_OK =>
                      let pat_after := pat_replace_entry pat_before PAT_WRITE_COMBINING_ENTRY PAT_TYPE_WRITE_COMBINING in
                      match enable_processor_features c with
                      | (PAGING_STATUS_OK, c) => build_and_install validated pat_before pat_after (set_cpu c b)
                      | (status, c) => (status, reset_state (set_cpu c b))
                      end
                  | status => (status, reset_state b)
                  end
            | status => (status, reset_state b)
            end
        | (status, _) => (status, reset_state b)
        end
  end.

(** ** The installed windows *)

(** One window of [paging_verify_device_windows]. *)
Definition window_installed (p : paging) (w installed : paging_device_window) : bool :=
  bool_decide (w = installed) && (dw_permissions w =? PAGING_DEVICE_WINDOW_WRITE) &&
  negb ((dw_kind w =? PAGING_DEVICE_WINDOW_VGA_TEXT) && negb (dw_base w =? PAGING_VGA_TEXT_BUFFER_BASE)) &&
  negb (negb (dw_kind w =? PAGING_DEVICE_WINDOW_FRAMEBUFFER) &&
        negb (bool_decide (dw_type w = PAGING_MEMORY_UNCACHEABLE))) &&
  forallb (fun i =>
    let address := u64 (dw_base w + i * PAGING_PAGE_SIZE) in
    let '(status, t) := translate_address (live_hierarchy p) address (pat_after (state p)) (mem p) in
    bool_decide (status = PAGING_STATUS_OK) && (physical_address t =? address) &&
    (permissions t =? device_window_mapping_permissions w) && bool_decide (memory_type t = dw_type w) &&
    (level t =? 1))
    (seqZ 0 (Z.of_nat (steps (dw_length w) PAGING_PAGE_SIZE))).

(** The index of the first window that fails, from [index] on. *)
Fixpoint failed_window (p : paging) (index : Z) (expected installed : paging_device_windows) : option Z :=
  match expected, installed with
  | w :: expected, v :: installed =>
      if window_installed p w v then failed_window p (index + 1) expected installed else Some index
  | _, _ => None
  end.

(** [out] is [failed_index != NULL]; the index is what is stored there, [None] for
    [PAGING_DEVICE_WINDOW_NONE]. *)
Definition paging_verify_device_windows (expected : option paging_device_windows) (out : bool) (b : boot C) :
    paging_status * option Z :=
  if negb out then (PAGING_STATUS_NULL_ARGUMENT, None)
  else if negb (active (state (bt_paging b))) then (PAGING_STATUS_NOT_INITIALIZED, None)
  else
    match paging_device_windows_validate expected true with
    | (PAGING_STATUS_OK, validated) =>
        let validated := default [] validated in
        if negb (length validated =? length (installed_device_windows b))%nat then
          (PAGING_STATUS_INSTALLED_DEVICE_WINDOW_MISMATCH, None)
        else
          match failed_window (bt_paging b) 0 validated (installed_device_windows b) with
          | Some i => (PAGING_STATUS_INSTALLED_DEVICE_WINDOW_MISMATCH, Some i)
          | None => (PAGING_STATUS_OK, None)
          end
    | (status, _) => (status, None)
    end.
End Install.
