(* ===== verification/PagingWindows.v ===== *)
(** * The device windows ([src/kernel/paging.c])

    A registry of windows is accepted exactly when every window is legal on its own, no
    two overlap or name the same device and the required ones are there; what is installed
    is the same windows in ascending order of address, whatever order they were added in. *)

From stdpp Require Import base option list numbers sorting.
From S2P Require Import Prelude Frames BlockTable Heap Paging PagingSpec PagingRange PagingBoot.

(** The fields as the machine holds them. *)
Definition window_fits (w : paging_device_window) : Prop :=
  fits 64 (dw_base w) /\ fits 64 (dw_length w) /\ fits 32 (dw_permissions w).

Record window_legal (w : paging_device_window) : Prop := {
  legal_kind : 0 <= dw_kind w < PAGING_DEVICE_WINDOW_KIND_COUNT;
  legal_range : 0 < dw_base w /\ 0 < dw_length w /\ dw_base w + dw_length w <= 2 ^ 32;
  legal_aligned : dw_base w mod 4096 = 0 /\ dw_length w mod 4096 = 0;
  legal_type : device_memory_type_supported (dw_type w) = true;
  legal_permissions : dw_permissions w = 0 \/ dw_permissions w = 1;
  legal_vga : dw_kind w = PAGING_DEVICE_WINDOW_VGA_TEXT ->
    dw_base w = PAGING_VGA_TEXT_BUFFER_BASE /\ dw_length w = 4096
}.

Lemma has_page_mask x : has x (PAGING_PAGE_SIZE - 1) = negb (x mod 4096 =? 0).
Proof. unfold has. change (PAGING_PAGE_SIZE - 1) with (2 ^ 12 - 1). by rewrite land_mask. Qed.

Lemma write_permission p : fits 32 p -> has p (u32 (Z.lnot PAGING_DEVICE_WINDOW_WRITE)) = false -> p = 0 \/ p = 1.
Proof.
  intros Hp Hh. change (u32 (Z.lnot PAGING_DEVICE_WINDOW_WRITE)) with (Z.ones 31 .<< 1) in Hh.
  assert (E : p / 2 = 0).
  { unfold has in Hh. apply negb_false_iff, Z.eqb_eq in Hh.
    assert (E : (p .& (Z.ones 31 .<< 1)) .>> 1 = 0) by (by rewrite Hh).
    rewrite Z.shiftr_land, Z.shiftr_shiftl_l, Z.shiftl_0_r, Z.land_ones, Z.shiftr_div_pow2 in E by lia.
    rewrite Z.mod_small in E; [done|]. unfold fits in Hp. change (2 ^ 32) with 4294967296 in Hp.
    change (2 ^ 31) with 2147483648. change (2 ^ 1) with 2. div_lia. }
  unfold fits in Hp. div_lia.
Qed.

Lemma window_entry_ok w :
  window_fits w -> validate_device_window_entry w = PAGING_STATUS_OK -> window_legal w.
Proof.
  intros ([Hb _] & [Hl _] & Hp). unfold validate_device_window_entry. cbv zeta. rewrite !has_page_mask.
  destruct ((dw_kind w <? _) || _) eqn:Hk; [done|]. apply orb_false_iff in Hk as [Hk1%Z.ltb_ge Hk2%Z.leb_gt].
  destruct (_ || _); [done|]. destruct (device_memory_type_supported (dw_type w)) eqn:Hty; [|done]. cbn [negb].
  destruct (has (dw_permissions w) _) eqn:Hperm; [done|].
  destruct (Z.eqb_spec (dw_length w) 0); [done|]. destruct (Z.ltb_spec (UINT64_MAX - dw_base w) (dw_length w)); [done|].
  destruct (Z.eqb_spec (dw_base w mod 4096) 0); [|done]. destruct (Z.eqb_spec (dw_length w mod 4096) 0); [|done].
  cbn [negb orb]. destruct (_ && _); [done|].
  destruct ((_ && _) || _ || _) eqn:Hr; [done|].
  destruct ((dw_base w =? 0) || _ || _) eqn:Hz; [done|]. intros _.
  apply orb_false_iff in Hz as [[Hz1%Z.eqb_neq _]%orb_false_iff Hz2%Z.ltb_ge].
  change RSD_EARLY_PHYSICAL_LIMIT with (2 ^ 32) in Hz2.
  split; try done; try lia.
  - by apply write_permission.
  - intros Hv. rewrite Hv in Hr. change (PAGING_DEVICE_WINDOW_VGA_TEXT =? PAGING_DEVICE_WINDOW_VGA_TEXT) with true in Hr.
    cbn [andb orb] in Hr. apply orb_false_iff in Hr as [[H1 H2]%orb_false_iff _].
    apply negb_false_iff in H1, H2. apply Z.eqb_eq in H1, H2. done.
Qed.

Lemma legal_end w : window_legal w -> dw_end w = dw_base w + dw_length w.
Proof.
  intros [_ Hr _ _ _ _]. unfold dw_end. apply wrap_small. unfold fits.
  change (2 ^ 32) with 4294967296 in Hr. change (2 ^ 64) with 18446744073709551616. lia.
Qed.

(** Two windows that may stand in one registry. *)
Definition compatible (a b : paging_device_window) : Prop :=
  ranges_overlap a b = false /\ ~ (dw_kind a = dw_kind b /\ dw_instance a = dw_instance b).

Lemma compatible_sym a b : compatible a b -> compatible b a.
Proof.
  unfold compatible, ranges_overlap. intros [H1 H2]. split; [by rewrite andb_comm|]. intros [? ?]. by apply H2.
Qed.

Lemma pair_fault_spec a b flags :
  pair_fault a b flags = (false, false, false) <-> flags = (false, false, false) /\ compatible a b.
Proof.
  assert (Hc : compare_device_windows a b = 0 -> dw_kind a = dw_kind b /\ dw_instance a = dw_instance b).
  { unfold compare_device_windows. cbv zeta beta.
    destruct (Z.eqb_spec (dw_base a) (dw_base b)); [|destruct (_ <? _); lia].
    destruct (Z.eqb_spec (dw_length a) (dw_length b)); [|destruct (_ <? _); lia].
    destruct (Z.eqb_spec (dw_kind a) (dw_kind b)); [|destruct (_ <? _); lia].
    destruct (Z.eqb_spec (dw_instance a) (dw_instance b)); [done|destruct (_ <? _); lia]. }
  unfold pair_fault, compatible. destruct flags as [[c d] o].
  destruct (Z.eqb_spec (compare_device_windows a b) 0) as [E|E]; cbn [orb].
  - split; [done|]. intros [_ [_ Hn]]. by destruct Hn; apply Hc.
  - destruct (Z.eqb_spec (dw_kind a) (dw_kind b)); [destruct (Z.eqb_spec (dw_instance a) (dw_instance b))|]; cbn [andb].
    + split; [done|]. intros [_ [_ Hn]]. by destruct Hn.
    + clear Hc. destruct (ranges_overlap a b), (bool_decide (dw_type a = dw_type b)); cbn [negb andb];
        intuition congruence.
    + clear Hc. destruct (ranges_overlap a b), (bool_decide (dw_type a = dw_type b)); cbn [negb andb];
        intuition congruence.
Qed.

Lemma pair_faults_spec l flags :
  pair_faults l flags = (false, false, false) <-> flags = (false, false, false) /\ ForallOrdPairs compatible l.
Proof.
  assert (Hrow : forall w l flags, foldl (fun flags v => pair_fault w v flags) flags l = (false, false, false) <->
            flags = (false, false, false) /\ Forall (compatible w) l).
  { clear l flags. intros w l. induction l as [|v l IH]; intros flags; cbn [foldl].
    - split; [intros ->; by split|by intros [-> _]].
    - rewrite IH, pair_fault_spec, Forall_cons. tauto. }
  revert flags. induction l as [|w l IH]; intros flags; cbn [pair_faults].
  - split; [intros ->; split; [done|constructor]|by intros [-> _]].
  - rewrite IH, Hrow. split.
    + intros [[-> Hw] Hl]. split; [done|]. by constructor.
    + intros [-> Hl]. inversion Hl as [|? ? Hw Hl']; subst. done.
Qed.

(** ** The canonical order *)

(** [a] lies wholly below [b]. *)
Definition below (a b : paging_device_window) : Prop := dw_base a + dw_length a <= dw_base b.

Lemma apart a b : window_legal a -> window_legal b -> compatible a b -> below a b \/ below b a.
Proof.
  intros Ha Hb [Ho _]. unfold ranges_overlap in Ho. rewrite !legal_end in Ho by done. unfold below.
  apply andb_false_iff in Ho as [?%Z.ltb_ge|?%Z.ltb_ge]; [right|left]; lia.
Qed.

Lemma compare_apart a b :
  window_legal a -> window_legal b -> compatible a b -> (compare_device_windows a b <? 0) = true <-> below a b.
Proof.
  intros Ha Hb Hc. pose proof (apart a b Ha Hb Hc) as Hap. unfold below in *.
  destruct (legal_range a Ha) as (_ & Hla & _), (legal_range b Hb) as (_ & Hlb & _).
  unfold compare_device_windows. cbv zeta beta. destruct (Z.eqb_spec (dw_base a) (dw_base b)); [lia|].
  destruct (Z.ltb_spec (dw_base a) (dw_base b)); cbn; split; try done; lia.
Qed.

Lemma insert_window_perm w l : insert_window w l ≡ₚ w :: l.
Proof.
  induction l as [|v l IH]; cbn [insert_window]; [done|]. destruct (_ <? _); [|done].
  rewrite IH. apply Permutation_swap.
Qed.

(** The entries before the current one, the last first, descend. *)
Lemma insert_window_sorted w l :
  window_legal w -> Forall window_legal l -> Forall (compatible w) l ->
  StronglySorted (flip below) l -> StronglySorted (flip below) (insert_window w l).
Proof.
  intros Hw Hl Hc Hs. induction Hs as [|v l Hs IH Hv]; cbn [insert_window]; [repeat constructor|].
  apply Forall_cons in Hl as [Hlv Hl]. apply Forall_cons in Hc as [Hcv Hc].
  pose proof (compare_apart w v Hw Hlv Hcv) as Hcmp.
  destruct (compare_device_windows w v <? 0) eqn:E.
  - constructor; [by apply IH|]. rewrite insert_window_perm. constructor; [|done]. by apply Hcmp.
  - assert (Hbv : below v w) by (destruct (apart w v Hw Hlv Hcv) as [Hb|Hb]; [by apply Hcmp in Hb|done]).
    constructor; [by constructor|]. constructor; [done|]. eapply Forall_impl; [exact Hv|].
    intros u Hu. unfold flip, below in *. destruct (legal_range v Hlv) as (_ & Hl0 & _). lia.
Qed.

Lemma sorted_prefix l acc :
  Forall window_legal (acc ++ l) -> ForallOrdPairs compatible l ->
  Forall (fun w => Forall (compatible w) acc) l -> StronglySorted (flip below) acc ->
  let r := foldl (fun prefix w => insert_window w prefix) acc l in
  r ≡ₚ l ++ acc /\ StronglySorted (flip below) r.
Proof.
  revert acc. induction l as [|w l IH]; intros acc Hlg Hc Hacc Hs; cbn [foldl]; [done|].
  apply Forall_app in Hlg as [Hla [Hlw Hll]%Forall_cons]. apply Forall_cons in Hacc as [Hwa Hacc].
  inversion Hc as [|? ? Hw Hc']; subst.
  destruct (IH (insert_window w acc)) as [Hp Hss].
  - apply Forall_app. rewrite insert_window_perm. split; [by constructor|done].
  - done.
  - apply Forall_forall. intros v Hv. rewrite insert_window_perm. constructor.
    + apply compatible_sym. rewrite Forall_forall in Hw. by apply Hw.
    + rewrite Forall_forall in Hacc. by apply Hacc.
  - by apply insert_window_sorted.
  - split; [|done]. rewrite Hp, insert_window_perm. symmetry. apply Permutation_middle.
Qed.

Lemma strongly_sorted_snoc {A} (R : A -> A -> Prop) l x :
  StronglySorted R l -> Forall (fun y => R y x) l -> StronglySorted R (l ++ [x]).
Proof.
  intros Hs Hx. induction Hs as [|y l Hs IH Hy]; cbn; [repeat constructor|]. apply Forall_cons in Hx as [Hyx Hx].
  constructor; [by apply IH|]. apply Forall_app. split; [done|by constructor].
Qed.

Lemma sorted_reverse {A} (R : A -> A -> Prop) l : StronglySorted (flip R) l -> StronglySorted R (reverse l).
Proof.
  induction 1 as [|x l Hs IH Hx]; [constructor|]. rewrite reverse_cons. apply strongly_sorted_snoc; [done|].
  rewrite Forall_reverse. exact Hx.
Qed.

Lemma sort_windows_spec l :
  Forall window_legal l -> ForallOrdPairs compatible l ->
  sort_windows l ≡ₚ l /\ StronglySorted below (sort_windows l).
Proof.
  intros Hl Hc. unfold sort_windows.
  destruct (sorted_prefix l [] Hl Hc) as [Hp Hs]; [by apply Forall_forall|constructor|].
  split; [rewrite reverse_Permutation, Hp; by rewrite app_nil_r|by apply sorted_reverse].
Qed.

Lemma below_unique l1 l2 :
  Forall window_legal l1 -> l1 ≡ₚ l2 -> StronglySorted below l1 -> StronglySorted below l2 -> l1 = l2.
Proof.
  intros Hlg Hp Hs1 Hs2. revert l2 Hp Hs2. induction Hs1 as [|a l1 Hs1 IH Ha]; intros l2 Hp Hs2.
  { by apply Permutation_nil in Hp as ->. }
  apply Forall_cons in Hlg as [Hla Hlg].
  destruct Hs2 as [|b l2 Hs2 Hb]; [by symmetry in Hp; apply Permutation_nil_cons in Hp|].
  assert (a = b) as ->.
  { assert (Hina : a ∈ b :: l2) by (rewrite <- Hp; by left). apply elem_of_cons in Hina as [Hab|Hina]; [done|].
    assert (Hinb : b ∈ a :: l1) by (rewrite Hp; by left). apply elem_of_cons in Hinb as [Hab|Hinb]; [done|].
    rewrite Forall_forall in Ha, Hb. specialize (Ha b Hinb). specialize (Hb a Hina). unfold below in *.
    rewrite Forall_forall in Hlg. destruct (legal_range b (Hlg b Hinb)) as (_ & ? & _), (legal_range a Hla) as (_ & ? & _).
    lia. }
  f_equal. apply IH; [done|by apply Permutation_cons_inv in Hp|done].
Qed.

(** ** The registry *)

Lemma validate_entries_ok l :
  validate_entries l = PAGING_STATUS_OK <-> Forall (fun w => validate_device_window_entry w = PAGING_STATUS_OK) l.
Proof.
  induction l as [|w l IH]; cbn [validate_entries]; [by split; [constructor|]|].
  rewrite Forall_cons, <- IH. clear IH. destruct (validate_device_window_entry w); intuition congruence.
Qed.

(** A registry that is fit to be installed. *)
Definition registry_ok (l : paging_device_windows) : Prop :=
  Z.of_nat (length l) <= PAGING_DEVICE_WINDOW_CAPACITY /\
  Forall (fun w => validate_device_window_entry w = PAGING_STATUS_OK) l /\ ForallOrdPairs compatible l /\
  Forall (fun k => exists w, w ∈ l /\ dw_kind w = k)
    [PAGING_DEVICE_WINDOW_VGA_TEXT; PAGING_DEVICE_WINDOW_LOCAL_APIC; PAGING_DEVICE_WINDOW_IO_APIC].

Lemma found_iff (l : paging_device_windows) k :
  existsb (fun w => dw_kind w =? k) l = true <-> exists w, w ∈ l /\ dw_kind w = k.
Proof.
  rewrite existsb_exists. split; intros (w & Hw & Hk); exists w; apply list_elem_of_In in Hw || rewrite list_elem_of_In in Hw;
    (split; [try done; by apply list_elem_of_In|lia]).
Qed.

Lemma validate_windows_iff l r :
  paging_device_windows_validate (Some l) true = (PAGING_STATUS_OK, r) <-> registry_ok l /\ r = Some (sort_windows l).
Proof.
  unfold paging_device_windows_validate, registry_ok. cbn [negb].
  destruct (Z.ltb_spec PAGING_DEVICE_WINDOW_CAPACITY (Z.of_nat (length l))); [split; [done|lia]|].
  rewrite <- validate_entries_ok. destruct (validate_entries l); try (split; [done|by intros ((_ & ? & _) & _)]).
  pose proof (pair_faults_spec l (false, false, false)) as Hpf. cbv zeta beta.
  rewrite !Forall_cons, Forall_nil, <- !found_iff.
  destruct (pair_faults l (false, false, false)) as [[c d] o].
  destruct c, d, o; try (split; [done|]; intros ((_ & _ & Hc & _) & _); discriminate (proj2 Hpf (conj eq_refl Hc))).
  destruct (existsb (fun w => dw_kind w =? PAGING_DEVICE_WINDOW_VGA_TEXT) l);
    [|by split; [|intros ((_ & _ & _ & ? & _) & _)]].
  destruct (existsb (fun w => dw_kind w =? PAGING_DEVICE_WINDOW_LOCAL_APIC) l);
    [|by split; [|intros ((_ & _ & _ & _ & ? & _) & _)]].
  destruct (existsb (fun w => dw_kind w =? PAGING_DEVICE_WINDOW_IO_APIC) l);
    [|by split; [|intros ((_ & _ & _ & _ & _ & ? & _) & _)]].
  cbn [negb orb]. split; [intros [= <-]|by intros [_ ->]]. split; [|done].
  split; [lia|]. split; [done|]. split; [by apply Hpf|done].
Qed.

(** A registry of device windows is accepted exactly when it is not too long, every
    window is legal on its own, no two windows overlap or describe the same device, and
    the text buffer, the local APIC and an I/O APIC are among them.  What is accepted is
    installed in ascending order of address, each window wholly below the next, and in the
    same order however the windows were added. *)
Theorem device_windows_canonical l :
  Forall window_fits l ->
  (forall r, paging_device_windows_validate (Some l) true = (PAGING_STATUS_OK, r) <->
     registry_ok l /\ r = Some (sort_windows l)) /\
  (registry_ok l -> Forall window_legal l /\ sort_windows l ≡ₚ l /\ StronglySorted below (sort_windows l)) /\
  (forall k, registry_ok l -> registry_ok k -> l ≡ₚ k ->
     paging_device_windows_validate (Some l) true = paging_device_windows_validate (Some k) true).
Proof.
  intros Hf. split; [intros r; apply validate_windows_iff|].
  assert (Hlegal : forall k, l ≡ₚ k -> registry_ok k -> Forall window_legal k).
  { intros k Hp (_ & Hv & _). rewrite Hp in Hf. rewrite Forall_forall in *. intros w Hw.
    apply window_entry_ok; [by apply Hf|by apply Hv]. }
  split.
  - intros Hok. pose proof (Hlegal l (reflexivity l) Hok) as Hlg. split; [done|]. apply sort_windows_spec; [done|apply Hok].
  - intros k Hl Hk Hp. pose proof (Hlegal l (reflexivity l) Hl) as Hlg. pose proof (Hlegal k Hp Hk) as Hkg.
    destruct (sort_windows_spec l Hlg (proj1 (proj2 (proj2 Hl)))) as [Hpl Hsl].
    destruct (sort_windows_spec k Hkg (proj1 (proj2 (proj2 Hk)))) as [Hpk Hsk].
    assert (E : sort_windows l = sort_windows k).
    { apply below_unique; [by rewrite Hpl|by rewrite Hpl, Hpk, Hp|done|done]. }
    rewrite (proj2 (validate_windows_iff l _) (conj Hl eq_refl)), (proj2 (validate_windows_iff k _) (conj Hk eq_refl)).
    by rewrite E.
Qed.

Module WindowSamples.

(** The text buffer and the interrupt controllers of a PC, in no particular order. *)
Definition pc_windows : paging_device_windows :=
  [DeviceWindow PAGING_DEVICE_WINDOW_LOCAL_APIC 0 0xFEE00000 4096 PAGING_MEMORY_UNCACHEABLE 1;
   DeviceWindow PAGING_DEVICE_WINDOW_VGA_TEXT 0 0xB8000 4096 PAGING_MEMORY_UNCACHEABLE 1;
   DeviceWindow PAGING_DEVICE_WINDOW_IO_APIC 0 0xFEC00000 4096 PAGING_MEMORY_UNCACHEABLE 1].

Lemma pc_windows_fit : Forall window_fits pc_windows.
Proof. repeat constructor; done. Qed.

Lemma device_windows_canonical_witness :
  registry_ok pc_windows /\ StronglySorted below (sort_windows pc_windows).
Proof.
  destruct (device_windows_canonical pc_windows pc_windows_fit) as (Hiff & Hok & _).
  destruct (proj1 (Hiff (Some (sort_windows pc_windows)))) as [Hr _]; [vm_compute; reflexivity|].
  split; [exact Hr|exact (proj2 (proj2 (Hok Hr)))].
Defined.
End WindowSamples.
