(* ===== verification/PagingInstall.v ===== *)
(** * What the boot hierarchy promises ([src/kernel/paging.c])

    The audit walk finds a writable and executable page exactly when there is one; the
    device windows are accepted exactly when they are individually legal, disjoint,
    distinct and complete, and come out in one canonical order; and a successful
    [paging_initialize] installs the identity map with the permissions of every section
    and window, nothing else, as a well-formed tree. *)

From stdpp Require Import base option list numbers gmap fin_maps sorting.
From S2P Require Import Prelude Frames BlockTable Heap Paging PagingSpec PagingRange PagingCalls PagingBackend PagingAudit PagingBoot PagingWindows.

(** ** Large pages *)

(** Creation below an empty table ends at an empty slot. *)
Lemma create_fresh n target va table h m T e h' m' :
  space_ok h m T -> (1 <= target)%nat -> T !! table = Some ((target + n)%nat, prefix va (target + n)) ->
  (forall j, 0 <= j < 512 -> entry m table j = 0) ->
  entry_walk n target va true table h m = (inr e, h', m') -> word m' e = 0.
Proof.
  revert table h m T. induction n as [|n IH]; intros table h m T Hs Htg HT Hz; cbn [entry_walk].
  { intros [= <- <- <-]. apply Hz, table_index_range. }
  cbv zeta. destruct target as [|tg]; [lia|]. rewrite Nat.add_succ_r in HT |- *. cbn [Nat.add] in HT |- *.
  fold (entry m table (table_index va (S (S (tg + n))))).
  set (i := table_index va (S (S (tg + n)))) in *. pose proof (table_index_range va (S (S (tg + n)))) as Hi. fold i in Hi.
  destruct (tree_table _ _ _ (proj1 Hs) table _ _ HT) as (Hl & _).
  assert (Hp : has (entry m table i) PAGE_PRESENT = false) by (by rewrite Hz, has_zero). rewrite Hp. cbn [negb].
  destruct (allocate_table h m) as [[[st|next] h1] m1] eqn:Hal; [done|].
  pose proof (allocate_extends h m T table (tg + n) _ i next h1 m1 Hs HT Hi Hp Hal) as He.
  pose proof (allocate_entries h m T table (tg + n) _ i next h1 m1 Hs HT Hi Hp Hal) as [Hz' _].
  apply (IH next h1 _ _ (ext_space _ _ _ _ _ _ He) Htg); [|done].
  rewrite lookup_insert_eq. cbn [Nat.add]. rewrite (prefix_step va (S (tg + n))) by lia. done.
Qed.

(** What the lookup found, creation finds; where it found nothing, creation makes an
    empty slot. *)
Lemma create_after_find n target va table h m T e h' m' :
  space_ok h m T -> (1 <= target)%nat -> T !! table = Some ((target + n)%nat, prefix va (target + n)) ->
  match (entry_walk n target va false table h m).1.1 with
  | inr f => has (word m f) PAGE_PRESENT = false
  | inl st => st = PAGING_STATUS_NOT_MAPPED
  end ->
  entry_walk n target va true table h m = (inr e, h', m') -> has (word m' e) PAGE_PRESENT = false.
Proof.
  revert table h m T. induction n as [|n IH]; intros table h m T Hs Htg HT; cbn [entry_walk].
  { intros Hf [= <- <- <-]. done. }
  cbv zeta. destruct target as [|tg]; [lia|]. rewrite Nat.add_succ_r in HT |- *. cbn [Nat.add] in HT |- *.
  fold (entry m table (table_index va (S (S (tg + n))))).
  set (i := table_index va (S (S (tg + n)))) in *. pose proof (table_index_range va (S (S (tg + n)))) as Hi. fold i in Hi.
  destruct (tree_table _ _ _ (proj1 Hs) table _ _ HT) as (Hl & _).
  destruct (has (entry m table i) PAGE_PRESENT) eqn:Hp; cbn [negb].
  - destruct (has (entry m table i) PAGE_HUGE) eqn:Hh; [done|].
    apply (IH _ h m T Hs Htg). apply (tree_child h m T table (tg + n) va (proj1 Hs) HT). by apply points_spec.
  - intros _. destruct (allocate_table h m) as [[[st|next] h1] m1] eqn:Hal; [done|].
    pose proof (allocate_extends h m T table (tg + n) _ i next h1 m1 Hs HT Hi Hp Hal) as He.
    pose proof (allocate_entries h m T table (tg + n) _ i next h1 m1 Hs HT Hi Hp Hal) as [Hz' _].
    intros Hw. assert (word m' e = 0) as ->; [|by rewrite has_zero].
    eapply (create_fresh n (S tg) va next h1 _ _ e h' m' (ext_space _ _ _ _ _ _ He) Htg); [|exact Hz'|exact Hw].
    rewrite lookup_insert_eq. cbn [Nat.add]. rewrite (prefix_step va (S (tg + n))) by lia. done.
Qed.

(** The address of the 2 MiB region of [va]. *)
Definition region (base a : Z) : Prop := base <= a < base + 0x200000.

Section HugeLeaf.
Context (h : hierarchy) (m : memory) (T : tables) (t base v : Z).
Hypothesis Hs : space_ok h m T.
Hypothesis HT : T !! t = Some (2%nat, prefix base 2).
Hypothesis Habs : has (entry m t (table_index base 2)) PAGE_PRESENT = false.
Hypothesis Hv : points v = false.
Let m' : memory := set_word (entry_at t (table_index base 2)) v m.

Lemma huge_other b l p j :
  T !! b = Some (l, p) -> 0 <= j < 512 -> (t, table_index base 2) <> (b, j) -> entry m' b j = entry m b j.
Proof.
  intros Hb Hj Hne. destruct (tree_table _ _ _ (proj1 Hs) b _ _ Hb) as (_ & _ & Hmb & _).
  destruct (tree_table _ _ _ (proj1 Hs) t _ _ HT) as (_ & _ & Hmt & _).
  apply entry_set_ne; try done. apply table_index_range.
Qed.

Lemma huge_points b l p j :
  T !! b = Some (l, p) -> 0 <= j < 512 -> points (entry m' b j) = true ->
  entry m' b j = entry m b j.
Proof.
  intros Hb Hj Hp. destruct (decide ((t, table_index base 2) = (b, j))) as [[= <- <-]|Hne].
  - unfold m' in Hp. rewrite entry_set, Hv in Hp. done.
  - by apply (huge_other b l p).
Qed.

Lemma huge_ok : space_ok h m' T.
Proof.
  destruct Hs as (Ht & Hwf & Hi & Ha). split; [|exact (conj Hwf (conj Hi Ha))]. split.
  - apply (tree_root _ _ _ Ht).
  - apply (tree_table _ _ _ Ht).
  - intros b l p j Hb Hj Hp. rewrite (huge_points b _ p j Hb Hj Hp) in Hp |- *. by apply (tree_down _ _ _ Ht).
  - intros b l p Hb Hr. destruct (tree_up _ _ _ Ht b l p Hb Hr) as (c & Hc & Hp & Hf). exists c.
    pose proof (Z.mod_pos_bound p 512 ltac:(lia)) as Hj.
    rewrite (huge_other c _ _ _ Hc Hj); [done|]. intros [= <- E]. rewrite <- E in Hp.
    apply points_spec in Hp as [Hp _]. congruence.
  - intros b l p j Hb Hj Hp. rewrite (huge_points b _ p j Hb Hj Hp) in Hp |- *. by apply (tree_plain _ _ _ Ht b l p j).
  - apply (tree_count _ _ _ Ht).
Qed.

Lemma huge_elsewhere a pat :
  prefix a 1 <> prefix base 1 -> translation h m' a pat = translation h m a pat.
Proof.
  intros Hne. pose proof (proj1 Hs) as Ht. apply (translate_walk_same h m m' T); try done.
  - apply (root_prefix h m T a Ht).
  - intros b l Hb Hl. destruct (tree_table _ _ _ Ht b _ _ Hb) as (_ & _ & Hmb & _).
    apply (huge_other b l (prefix a l)); [done|apply table_index_range|]. intros [= <- E].
    rewrite HT in Hb. injection Hb as <- Hp. apply Hne.
    rewrite (prefix_step a 1), (prefix_step base 1) by lia. congruence.
Qed.
End HugeLeaf.

Lemma has_lor_self x k : 0 <= k -> has (x .| (1 .<< k)) (1 .<< k) = true.
Proof.
  intros Hk. rewrite has_bit, Z.lor_spec, Z.shiftl_1_l, Z.pow2_bits_true by done. apply orb_true_r.
Qed.

Lemma region_prefix base a :
  address_is_canonical a = true -> 0 <= base < 2 ^ 32 -> base mod 0x200000 = 0 ->
  prefix a 1 = prefix base 1 -> region base (page_of a).
Proof.
  rewrite canonical_range. unfold prefix, region, page_of. change (2 ^ (12 + 9 * Z.of_nat 1)) with 2097152.
  change (2 ^ 48) with 281474976710656. change (2 ^ 47) with 140737488355328. change (2 ^ 32) with 4294967296.
  change (2 ^ 64) with 18446744073709551616. change 0x200000 with 2097152. div_lia.
Qed.

Lemma find_status n target va table h m st :
  (entry_walk n target va false table h m).1.1 = inl st ->
  st = PAGING_STATUS_NOT_MAPPED \/ st = PAGING_STATUS_HUGE_PAGE_PRESENT.
Proof.
  revert table. induction n as [|n IH]; intros table; cbn [entry_walk]; [done|]. cbv zeta.
  destruct (negb _); [intros [= <-]; by left|]. destruct (has _ PAGE_HUGE); [intros [= <-]; by right|]. apply IH.
Qed.

Lemma check_huge va h m :
  check_run 1 va 2 h m = PAGING_STATUS_OK ->
  match (entry_for h va 2 false m).1.1 with
  | inr f => has (word m f) PAGE_PRESENT = false
  | inl st => st = PAGING_STATUS_NOT_MAPPED
  end.
Proof.
  cbn [check_run]. unfold find_entry. pose proof (find_status 2 2 va (root h) h m) as Hst.
  change (entry_walk 2 2 va false (root h) h m) with (entry_for h va 2 false m) in Hst.
  destruct (entry_for h va 2 false m).1.1 as [st|f].
  - by destruct (Hst st eq_refl) as [-> | ->].
  - by destruct (has (word m f) PAGE_PRESENT).
Qed.

(** What the registers and the list of invalidations hold is no part of the tables. *)
Lemma machine_evolves h m m' T :
  space_ok h m T -> words m' = words m -> frame_state m' = frame_state m -> cr3 m' = cr3 m ->
  (exists l, invalidated m' = l ++ invalidated m) -> evolves quiet h h m m' T T.
Proof.
  intros (Ht & Hwf & Hi & Ha) Hw Hf Hc (l & Hl).
  assert (He : forall a i, entry m' a i = entry m a i) by (intros; unfold entry, word; by rewrite Hw).
  split; [|done|done| | |by exists l].
  - split; [|by rewrite Hf]. apply (tree_ok_leaves h h m m' T Ht); [done|done|by rewrite Hf|done].
  - intros g. by rewrite Hf.
  - intros a pat _ _. apply (translate_walk_same h m m' T); [done|by apply root_prefix with m|done].
Qed.

Lemma invalidate_evolves h a m T : space_ok h m T -> evolves quiet h h m (invalidate h a m) T T.
Proof.
  intros Hs. destruct (invalidate_words h a m) as (Hw & Hf & Hc & _). apply machine_evolves; try done.
  unfold invalidate. destruct (live h || _); [by exists [a]|by exists []].
Qed.

(** Mapping one large page of the inactive hierarchy. *)
Lemma map_huge_spec h m T base h' m' :
  space_ok h m T -> live h = false -> 0 <= base < 2 ^ 32 -> base mod 0x200000 = 0 ->
  map_range h base base PAGING_HUGE_PAGE_SIZE PAGING_WRITE 2 m = (PAGING_STATUS_OK, h', m') ->
  exists T', evolves (region base) h h' m m' T T'.
Proof.
  intros Hs Hlive Hb Hal. unfold map_range. cbv zeta. change (level_page_size 2) with PAGING_HUGE_PAGE_SIZE.
  change (steps PAGING_HUGE_PAGE_SIZE PAGING_HUGE_PAGE_SIZE) with 1%nat.
  destruct (validate_permissions PAGING_WRITE); try done.
  destruct (validate_virtual_range _ _ _); try done. destruct (validate_physical_range _ _ _); try done.
  destruct (check_run 1 base 2 h m) eqn:Hck; try done. apply check_huge in Hck.
  cbn [fill_run]. rewrite Z.add_0_r. unfold entry_for in *. change (PAGING_LEVEL_COUNT - 2)%nat with 2%nat in *.
  pose proof (root_prefix h m T base (proj1 Hs)) as Hroot.
  pose proof (entry_walk_create 2 2 base (root h) h m T Hs ltac:(lia) Hroot) as Hc.
  pose proof (create_after_find 2 2 base (root h) h m T) as Hfree.
  destruct (entry_walk 2 2 base true (root h) h m) as [[[st|e] h1] m1]; destruct Hc as (T' & He & Hr).
  { destruct (clear_range h1 base 0 2 m1). destruct Hr as [-> |[-> _]]; done. }
  destruct Hr as (t & -> & HT & _). specialize (Hfree _ _ _ Hs ltac:(lia) Hroot Hck eq_refl).
  fold (entry m1 t (table_index base 2)) in Hfree. cbn [Nat.ltb Nat.leb]. intros [= <- <-].
  set (v := (_ .| PAGE_HUGE)).
  assert (Hv : points v = false).
  { unfold points, v, PAGE_HUGE. rewrite has_lor_self by lia. by rewrite andb_false_r. }
  pose proof (ext_space _ _ _ _ _ _ He) as Hs1. destruct (ext_root _ _ _ _ _ _ He) as [Hr1 Hl1].
  pose proof (huge_ok h1 m1 T' t base v Hs1 HT Hfree Hv) as Hs2. exists T'.
  pose proof (invalidate_evolves h1 base _ T' Hs2) as Hinv.
  assert (Hhuge : evolves (region base) h1 h1 m1 (set_word (entry_at t (table_index base 2)) v m1) T' T').
  { split; try done.
    - intros a pat Hc Hk. apply (huge_elsewhere h1 m1 T' t base v Hs1 HT). intros E. by apply Hk, region_prefix.
    - exists []. split; [done|]. intros Hl. congruence. }
  pose proof (evolves_trans _ _ _ _ _ _ _ _ _ _ _ (extends_evolves _ _ _ _ _ _ Hs He) Hhuge) as E1.
  eapply evolves_iff; [exact (evolves_trans _ _ _ _ _ _ _ _ _ _ _ E1 Hinv)|]. tauto.
Qed.

(** ** The identity map *)

(** On a hierarchy that is not live nothing needs to be invalidated. *)
Lemma evolves_idle K K' h h' m m' T T' :
  live h = false -> evolves K h h' m m' T T' -> (forall a, K a -> K' a) -> evolves K' h h' m m' T T'.
Proof.
  intros Hl E HK. split; try apply E.
  - intros a pat Hc Hk. apply (ev_translates _ _ _ _ _ _ _ E); [done|]. intros Ha. by apply Hk, HK.
  - destruct (ev_flushed _ _ _ _ _ _ _ E) as (l & El & _). exists l. split; [done|]. congruence.
Qed.

(** The pages from [lo] up to [hi]. *)
Definition between (lo hi a : Z) : Prop := lo <= a < hi.

Lemma evolves_join h1 h2 h3 m1 m2 m3 T1 T2 T3 lo mid hi :
  live h1 = false -> lo <= mid <= hi ->
  evolves (between lo mid) h1 h2 m1 m2 T1 T2 -> evolves (between mid hi) h2 h3 m2 m3 T2 T3 ->
  evolves (between lo hi) h1 h3 m1 m3 T1 T3.
Proof.
  intros Hl Hm E1 E2. eapply evolves_idle; [done|exact (evolves_trans _ _ _ _ _ _ _ _ _ _ _ E1 E2)|].
  unfold between. lia.
Qed.

Lemma evolves_live K h h' m m' T T' : evolves K h h' m m' T T' -> live h = false -> live h' = false.
Proof. intros E Hl. destruct (ev_root _ _ _ _ _ _ _ E). congruence. Qed.

Section Build.
Context `{!kernel_image} (sections : list paging_section) (windows : paging_device_windows).

Lemma build_pages_spec n a h m T h' m' :
  space_ok h m T -> live h = false -> 0 <= a ->
  build_pages n a sections windows h m = (PAGING_STATUS_OK, h', m') ->
  exists T', evolves (between a (a + 4096 * Z.of_nat n)) h h' m m' T T'.
Proof.
  revert a h m T. induction n as [|n IH]; intros a h m T Hs Hl Ha; cbn [build_pages].
  { intros [= <- <-]. exists T. eapply evolves_idle; [done|by apply evolves_refl|done]. }
  change PAGING_PAGE_SIZE with 4096. destruct (Z.eqb_spec a 0) as [-> |Hne].
  { intros Hb. destruct (IH (0 + 4096) h m T Hs Hl ltac:(lia) Hb) as (T' & Hev). exists T'.
    eapply evolves_idle; [done|exact Hev|]. unfold between. lia. }
  pose proof (map_range_spec h m T a a 4096 (section_permissions sections windows a) Hs Ha ltac:(lia)) as Hm.
  destruct (map_range h a a 4096 _ 1 m) as [[st h1] m1]. destruct st; try done. intros Hb.
  destruct Hm as (_ & _ & _ & _ & _ & _ & T1 & _ & Hev & _). change (steps 4096 4096) with 1%nat in Hev.
  pose proof (evolves_live _ _ _ _ _ _ _ Hev Hl) as Hl1.
  destruct (IH (a + 4096) h1 m1 T1 (ev_space _ _ _ _ _ _ _ Hev) Hl1 ltac:(lia) Hb) as (T' & Hev').
  exists T'. eapply (evolves_join _ _ _ _ _ _ _ _ _ _ (a + 4096)); [done|lia| |].
  - eapply evolves_idle; [done|exact Hev|]. intros x ->%span_one. unfold between. lia.
  - eapply evolves_idle; [done|exact Hev'|]. unfold between. lia.
Qed.

Lemma build_regions_spec n base fine h m T fine' h' m' :
  space_ok h m T -> live h = false -> 0 <= base -> base mod 0x200000 = 0 ->
  base + 0x200000 * Z.of_nat n <= 2 ^ 32 ->
  build_regions n base sections windows fine h m = (PAGING_STATUS_OK, fine', h', m') ->
  exists T', evolves (between base (base + 0x200000 * Z.of_nat n)) h h' m m' T T'.
Proof.
  revert base fine h m T. induction n as [|n IH]; intros base fine h m T Hs Hl Hb Hal Hmax; cbn [build_regions].
  { intros [= _ <- <-]. exists T. eapply evolves_idle; [done|by apply evolves_refl|done]. }
  change PAGING_HUGE_PAGE_SIZE with 0x200000. cbv zeta.
  assert (Hnext : forall fine1 h1 m1 T1, evolves (between base (base + 0x200000)) h h1 m m1 T T1 ->
    build_regions n (base + 0x200000) sections windows fine1 h1 m1 = (PAGING_STATUS_OK, fine', h', m') ->
    exists T', evolves (between base (base + 0x200000 * Z.of_nat (S n))) h h' m m' T T').
  { intros fine1 h1 m1 T1 Hev Hrec. destruct (IH (base + 0x200000) fine1 h1 m1 T1) as (T' & Hev'); try done; try lia.
    - apply (ev_space _ _ _ _ _ _ _ Hev).
    - by apply (evolves_live _ _ _ _ _ _ _ Hev).
    - change 0x200000 with 2097152 in *. clear -Hal. div_lia.
    - exists T'. eapply (evolves_join _ _ _ _ _ _ _ _ _ _ (base + 0x200000)); [done|lia|exact Hev|].
      eapply evolves_idle; [by apply (evolves_live _ _ _ _ _ _ _ Hev)|exact Hev'|]. unfold between. lia. }
  destruct (negb (region_needs_page_table windows base)).
  - destruct (map_range h base base 0x200000 PAGING_WRITE 2 m) as [[st h1] m1] eqn:Hm. destruct st; try done.
    destruct (map_huge_spec h m T base h1 m1 Hs Hl) as (T1 & Hev); [lia|done|exact Hm|].
    apply (Hnext fine h1 m1 T1). eapply evolves_idle; [done|exact Hev|]. unfold between, region. lia.
  - change (Z.to_nat (0x200000 / PAGING_PAGE_SIZE)) with 512%nat.
    destruct (build_pages 512 base sections windows h m) as [[st h1] m1] eqn:Hp. destruct st; try done.
    destruct (build_pages_spec 512 base h m T h1 m1 Hs Hl Hb Hp) as (T1 & Hev).
    apply (Hnext _ h1 m1 T1). eapply evolves_idle; [done|exact Hev|]. unfold between. lia.
Qed.

Lemma identity_regions : Z.of_nat IDENTITY_REGIONS = 2048.
Proof. unfold IDENTITY_REGIONS. rewrite Z2Nat.id; vm_compute; done. Qed.

(** Unfolding never runs the loop. *)
#[local] Strategy expand [build_identity_map].

Lemma build_identity_spec h m T fine h' m' :
  space_ok h m T -> live h = false ->
  build_identity_map sections windows h m = (PAGING_STATUS_OK, fine, h', m') ->
  exists T', evolves (between 0 (2 ^ 32)) h h' m m' T T'.
Proof.
  intros Hs Hl Hb. unfold build_identity_map in Hb. pose proof identity_regions as En.
  destruct (build_regions_spec IDENTITY_REGIONS 0 0 h m T fine h' m' Hs Hl) as (T' & Hev);
    [lia|reflexivity|rewrite En; lia|exact Hb|].
  exists T'. eapply evolves_idle; [exact Hl|exact Hev|]. intros a. unfold between. rewrite En. lia.
Qed.
End Build.

(** ** Addresses of one leaf *)

Lemma lor_low s x y : 0 <= s -> x mod 2 ^ s = 0 -> 0 <= y < 2 ^ s -> x .| y = x + y.
Proof.
  intros Hs Hx Hy. assert (E : x = (x / 2 ^ s) .<< s).
  { rewrite Z.shiftl_mul_pow2 by done. pose proof (Z.div_mod x (2 ^ s)). lia. }
  assert (Hl : x .& y = 0).
  { apply Z.bits_inj'. intros k Hk. rewrite Z.land_spec, Z.bits_0, E, Z.shiftl_spec by done.
    destruct (decide (k < s)); [by rewrite Z.testbit_neg_r by lia|].
    rewrite <- (Z.mod_small y (2 ^ s)), Z.mod_pow2_bits_high by lia.
    apply andb_false_r. }
  rewrite Z.add_nocarry_lxor by done. symmetry. by apply Z.lxor_lor.
Qed.

(** The address a leaf of any level translates to. *)
Lemma fill_address e va l w x u pat :
  (1 <= l <= 4)%nat ->
  let f := e .& PAGE_FRAME_MASK in
  physical_address (fill_translation e va l w x u pat) =
  f - f mod level_page_size l + va mod level_page_size l.
Proof.
  intros Hl f. unfold fill_translation. cbn [physical_address]. unfold level_page_size. rewrite Z.shiftl_1_l.
  assert (Hk : 12 <= level_shift l <= 39) by (unfold level_shift; lia).
  assert (Hp : 0 < 2 ^ level_shift l) by lia.
  pose proof (frame_is_page e) as [Hb _]. rewrite land_not64 by (unfold fits; lia). rewrite land_mask by lia.
  fold f. apply lor_low with (level_shift l); [lia| |by apply Z.mod_pos_bound].
  rewrite Zminus_mod, Z.mod_mod, Z.sub_diag by lia. apply Z.mod_0_l. lia.
Qed.

Lemma index_above k j a va :
  (1 <= k <= j)%nat -> a / level_page_size k = va / level_page_size k -> table_index a j = table_index va j.
Proof.
  unfold level_page_size. rewrite !Z.shiftl_1_l. intros Hk E. rewrite !table_index_alt by lia.
  replace (level_shift j) with (level_shift k + 9 * (Z.of_nat j - Z.of_nat k)) by (unfold level_shift; lia).
  assert (12 <= level_shift k) by (unfold level_shift; lia).
  rewrite Z.pow_add_r by lia. rewrite <- !Z.div_div by lia. by rewrite E.
Qed.

(** What one address of a leaf tells of the others. *)
Lemma walk_same_leaf n t va w x u pat m tr :
  translate_walk n t va w x u pat m = (PAGING_STATUS_OK, tr) ->
  exists e l w' x' u', (1 <= l <= S n)%nat /\ tr = fill_translation e va l w' x' u' pat /\
    forall a, a / level_page_size l = va / level_page_size l ->
      translate_walk n t a w x u pat m = (PAGING_STATUS_OK, fill_translation e a l w' x' u' pat).
Proof.
  revert t w x u. induction n as [|n IH]; intros t w x u; rewrite translate_walk_unfold; cbv zeta;
    (destruct (has (entry m t _) PAGE_PRESENT) eqn:Hp; cbn [negb]; [|done]).
  - intros [= <-]. eexists _, 1%nat, _, _, _. split; [lia|]. split; [done|]. intros a Ha.
    rewrite translate_walk_unfold. cbv zeta. rewrite (index_above 1 1 a va ltac:(lia) Ha). by rewrite Hp.
  - destruct (has (entry m t _) PAGE_HUGE) eqn:Hh.
    + intros [= <-]. eexists _, (S (S n)), _, _, _. split; [lia|]. split; [done|]. intros a Ha.
      rewrite translate_walk_unfold. cbv zeta. rewrite (index_above (S (S n)) (S (S n)) a va ltac:(lia) Ha). by rewrite Hp, Hh.
    + intros (e & l & w' & x' & u' & Hl & -> & Hall)%IH. exists e, l, w', x', u'. split; [lia|]. split; [done|].
      intros a Ha. rewrite translate_walk_unfold. cbv zeta. rewrite (index_above l (S (S n)) a va ltac:(lia) Ha).
      rewrite Hp, Hh. cbn [negb]. by apply Hall.
Qed.

(** A leaf that maps its first address to itself maps all of them so. *)
Lemma identity_leaf h m va pat tr l a :
  translation h m va pat = (PAGING_STATUS_OK, tr) -> level tr = Z.of_nat l -> (1 <= l <= 4)%nat ->
  va mod level_page_size l = 0 -> physical_address tr = va -> va <= a < va + level_page_size l ->
  translation h m a pat =
    (PAGING_STATUS_OK, Translation a (permissions tr) (memory_type tr) (level tr) (user tr)).
Proof.
  intros Htr Hlv Hl Hal Hph Ha.
  destruct (walk_same_leaf _ _ _ _ _ _ _ _ _ Htr) as (e & k & w & x & u & Hk & -> & Hall).
  assert (k = l) as -> by (cbn [level fill_translation] in Hlv; lia).
  assert (Hpos : 0 < level_page_size l) by (unfold level_page_size; rewrite Z.shiftl_1_l; unfold level_shift; lia).
  assert (Hq : a / level_page_size l = va / level_page_size l).
  { symmetry. apply Z.div_unique with (a - va); [lia|]. pose proof (Z.div_mod va (level_page_size l)). lia. }
  unfold translation. rewrite (Hall a Hq). f_equal.
  pose proof (fill_address e a l w x u pat Hl) as E1. pose proof (fill_address e va l w x u pat Hl) as E2.
  cbv zeta in E1, E2. rewrite Hal, Hph in E2. rewrite (Z.add_0_r _) in E2.
  assert (Hm : a mod level_page_size l = a - va).
  { symmetry. apply Z.mod_unique with (va / level_page_size l); [lia|].
    pose proof (Z.div_mod va (level_page_size l)). lia. }
  rewrite Hm, <- E2 in E1. replace (va + (a - va)) with a in E1 by lia. rewrite <- E1 at 2. done.
Qed.

(** ** The empty hierarchy *)

Lemma allocate_root h m t h1 m1 :
  frames_wf (frame_state m) -> allocator_initialized (frame_state m) = true ->
  arena_capacity h = 0 -> table_frames h = 0 -> allocate_table h m = (inr t, h1, m1) ->
  space_ok (set_root t h1) m1 {[ t := (4%nat, 0) ]} /\ live h1 = live h /\ cr3 m1 = cr3 m /\
  forall a pat, translation (set_root t h1) m1 a pat = unmapped.
Proof.
  intros Hwf Hi Ha Hn Hal. pose proof (allocate_frame_spec h m Hwf Hi Ha) as Hs. rewrite Hal in Hs.
  destruct Hs as (Hb & Hm & _ & Htp & Hwf1 & Hi1 & _ & _ & -> & [Hc _] & Hw).
  assert (Hz : forall i, 0 <= i < 512 -> entry m1 t i = 0).
  { intros i Hr. unfold entry, word. rewrite Hw. by apply (entry_zero t m i). }
  assert (Hsing : forall a x, ({[ t := (4%nat, 0) ]} : tables) !! a = Some x -> a = t /\ x = (4%nat, 0)).
  { intros a x Hx. apply lookup_singleton_Some in Hx as [<- <-]. exact (conj eq_refl eq_refl). }
  split; [|split; [done|split; [done|]]].
  - split; [|by split_and!]. split.
    + apply lookup_singleton_eq.
    + intros a l p [-> [= -> ->]]%Hsing. split; [lia|]. split; [lia|]. split; [done|]. split; [|done].
      change (512 ^ (4 - Z.of_nat 4)) with 1. lia.
    + intros a l p i [-> _]%Hsing Hr Hp. by rewrite Hz, points_0 in Hp.
    + intros a l p [-> _]%Hsing Hr. by destruct Hr.
    + intros a l p i [-> _]%Hsing Hr Hp. by rewrite Hz, points_0 in Hp.
    + rewrite map_size_singleton. cbn [table_frames set_root count_tables]. by rewrite Hn.
  - intros a pat. apply absent_walk. cbn [root set_root]. rewrite Hz by apply table_index_range. apply has_zero.
Qed.

(** ** Sections and windows *)

Definition in_window (w : paging_device_window) (a : Z) : Prop := dw_base w <= a < dw_base w + dw_length w.

Lemma window_at_spec l a :
  Forall window_legal l -> ForallOrdPairs compatible l ->
  match device_window_at (sort_windows l) a with
  | Some w => w ∈ l /\ in_window w a
  | None => forall w, w ∈ l -> ~ in_window w a
  end.
Proof.
  intros Hlg Hc. destruct (sort_windows_spec l Hlg Hc) as [Hp _]. rewrite Forall_forall in Hlg.
  unfold device_window_at. destruct (find _ (sort_windows l)) as [w|] eqn:E.
  - apply find_some in E as [Hw%list_elem_of_In Hb]. rewrite Hp in Hw. split; [done|].
    rewrite (legal_end w (Hlg w Hw)) in Hb. unfold in_window. lia.
  - intros w Hw Hin. assert (Hs : w ∈ sort_windows l) by (by rewrite Hp).
    pose proof (find_none _ _ E w (proj1 (list_elem_of_In _ _) Hs)) as Hn. cbv beta in Hn.
    rewrite (legal_end w (Hlg w Hw)) in Hn. unfold in_window in Hin. lia.
Qed.

(** Windows do not share addresses. *)
Lemma window_unique l w v a :
  Forall window_legal l -> ForallOrdPairs compatible l -> w ∈ l -> v ∈ l -> in_window w a -> in_window v a -> w = v.
Proof.
  intros Hlg Hc Hw Hv Hwa Hva. rewrite Forall_forall in Hlg.
  destruct (ForallOrdPairs_In Hc w v) as [E|Hcw]; [by apply list_elem_of_In..|done|]. exfalso.
  assert (Hcm : compatible w v) by (destruct Hcw as [?|?%compatible_sym]; done).
  destruct (apart w v (Hlg w Hw) (Hlg v Hv) Hcm) as [Hb|Hb]; unfold below, in_window in *; lia.
Qed.

(** ** What the read-back establishes *)

Section Readback.
Context `{!kernel_image}.

(** The linker script: every section starts and ends on a page, in this order. *)
Definition image_laid_out : Prop :=
  Forall (fun x => x mod 4096 = 0)
    [kernel_start; text_start; text_end; rodata_start; rodata_end; data_start; kernel_end] /\
  kernel_start <= text_start <= text_end /\ text_end <= rodata_start <= rodata_end /\
  rodata_end <= data_start <= kernel_end.

(** Text is executable, the boot header and the constants are read-only, all other
    memory is writable. *)
Definition image_permissions (a : Z) : Z :=
  if (text_start <=? a) && (a <? text_end) then PAGING_EXECUTE
  else if ((kernel_start <=? a) && (a <? text_start)) || ((rodata_start <=? a) && (a <? rodata_end)) then PAGING_READ
  else PAGING_WRITE.

Lemma section_lookup windows a :
  image_laid_out -> device_window_at windows a = None ->
  section_permissions collect_kernel_sections windows a = image_permissions a.
Proof.
  intros (_ & H1 & H2 & H3) Hw. unfold section_permissions, image_permissions. rewrite Hw.
  unfold collect_kernel_sections, add_section. cbv zeta.
  destruct (Z.leb_spec text_start kernel_start), (Z.leb_spec text_end text_start),
    (Z.leb_spec rodata_end rodata_start), (Z.leb_spec kernel_end data_start); cbn [app find sec_start sec_end];
    repeat (match goal with
      | |- context [?x <=? ?y] => destruct (Z.leb_spec x y)
      | |- context [?x <? ?y] => destruct (Z.ltb_spec x y)
      end; cbn [andb orb sec_permissions]; try reflexivity; try lia).
Qed.

Lemma page_of_le x a : x mod 4096 = 0 -> (x <=? page_of a) = (x <=? a) /\ (page_of a <? x) = (a <? x).
Proof. intros Hx. unfold page_of. split; apply eq_bool_prop_intro; rewrite !Is_true_true; div_lia. Qed.

Lemma image_permissions_page a : image_laid_out -> image_permissions (page_of a) = image_permissions a.
Proof.
  intros [Hal _]. rewrite !Forall_cons in Hal. destruct Hal as (H1 & H2 & H3 & H4 & H5 & H6 & H7 & _).
  unfold image_permissions. destruct (page_of_le _ a H1) as [-> _]. destruct (page_of_le _ a H2) as [-> ->].
  destruct (page_of_le _ a H3) as [_ ->]. destruct (page_of_le _ a H4) as [-> _]. by destruct (page_of_le _ a H5) as [_ ->].
Qed.

Context (windows : paging_device_windows) (h : hierarchy) (pat : Z) (m : memory).
Hypothesis Hvalid : validate_identity_map collect_kernel_sections windows h pat m = PAGING_STATUS_OK.

Lemma region_valid a :
  0 <= a < 2 ^ 32 -> region_expected collect_kernel_sections windows h pat m (a - a mod 0x200000) = true.
Proof.
  intros Ha. unfold validate_identity_map in Hvalid.
  destruct (forallb _ _) eqn:E; [|done]. rewrite forallb_forall in E.
  replace (a - a mod 0x200000) with (a / 0x200000 * PAGING_HUGE_PAGE_SIZE)
    by (change PAGING_HUGE_PAGE_SIZE with 2097152; change 0x200000 with 2097152; div_lia).
  apply (E (a / 0x200000)), list_elem_of_In, elem_of_seqZ.
  change (RSD_EARLY_PHYSICAL_LIMIT / PAGING_HUGE_PAGE_SIZE) with 2048. change (2 ^ 32) with 4294967296 in Ha.
  change 0x200000 with 2097152. div_lia.
Qed.

Lemma low_canonical a : 0 <= a < 2 ^ 32 -> address_is_canonical a = true.
Proof. intros Ha. apply canonical_range. lia. Qed.

(** A large region. *)
Lemma region_mapped a :
  0 <= a < 2 ^ 32 -> region_needs_page_table windows (a - a mod 0x200000) = false ->
  exists u, translation h m a pat = (PAGING_STATUS_OK, Translation a PAGING_WRITE PAGING_MEMORY_WRITE_BACK 2 u).
Proof.
  intros Ha Hn. pose proof (region_valid a Ha) as Hr. unfold region_expected in Hr. rewrite Hn in Hr. cbn [negb] in Hr.
  set (base := a - a mod 0x200000) in *.
  assert (Hb : 0 <= base <= a /\ base mod 0x200000 = 0 /\ a < base + 0x200000)
    by (unfold base; change 0x200000 with 2097152; div_lia).
  unfold translate_address in Hr. rewrite (low_canonical base) in Hr by lia. cbn [negb] in Hr.
  change (translate_walk _ (root h) base true true true pat m) with (translation h m base pat) in Hr.
  destruct (translation h m base pat) as [st tr] eqn:Htr.
  apply andb_prop in Hr as [[[[Hst Hph]%andb_prop Hpm]%andb_prop Hty]%andb_prop Hlv].
  apply bool_decide_eq_true in Hst as ->. apply bool_decide_eq_true in Hty. apply Z.eqb_eq in Hph, Hpm, Hlv.
  exists (user tr). rewrite (identity_leaf h m base pat tr 2 a Htr Hlv);
    [|lia|apply Hb|done|change (level_page_size 2) with 0x200000; lia].
  by rewrite Hpm, Hty, Hlv.
Qed.

(** A page of a fine region. *)
Lemma page_valid a :
  0 <= a < 2 ^ 32 -> region_needs_page_table windows (a - a mod 0x200000) = true ->
  page_expected collect_kernel_sections windows h pat m (page_of a) = true.
Proof.
  intros Ha Hn. pose proof (region_valid a Ha) as Hr. unfold region_expected in Hr. rewrite Hn in Hr. cbn [negb] in Hr.
  rewrite forallb_forall in Hr.
  replace (page_of a) with (a - a mod 0x200000 + (a mod 0x200000) / 4096 * PAGING_PAGE_SIZE)
    by (unfold page_of; change PAGING_PAGE_SIZE with 4096; change 0x200000 with 2097152; div_lia).
  apply (Hr ((a mod 0x200000) / 4096)), list_elem_of_In, elem_of_seqZ.
  change (PAGING_HUGE_PAGE_SIZE / PAGING_PAGE_SIZE) with 512. change 0x200000 with 2097152. div_lia.
Qed.

Lemma page_mapped a :
  4096 <= a < 2 ^ 32 -> region_needs_page_table windows (a - a mod 0x200000) = true ->
  exists u, translation h m a pat =
    (PAGING_STATUS_OK, Translation a (section_permissions collect_kernel_sections windows (page_of a))
      (match device_window_at windows (page_of a) with Some w => dw_type w | None => PAGING_MEMORY_WRITE_BACK end) 1 u).
Proof.
  intros Ha Hn. pose proof (page_valid a ltac:(lia) Hn) as Hp. unfold page_expected in Hp.
  set (va := page_of a) in *.
  assert (Hb : 4096 <= va <= a /\ va mod 4096 = 0 /\ a < va + 4096) by (unfold va, page_of; div_lia).
  destruct (Z.eqb_spec va 0); [lia|].
  unfold translate_address in Hp. rewrite (low_canonical va) in Hp by lia. cbn [negb] in Hp.
  change (translate_walk _ (root h) va true true true pat m) with (translation h m va pat) in Hp.
  destruct (translation h m va pat) as [st tr] eqn:Htr.
  apply andb_prop in Hp as [[[[Hst Hph]%andb_prop Hpm]%andb_prop Hty]%andb_prop Hlv].
  apply bool_decide_eq_true in Hst as ->. apply bool_decide_eq_true in Hty. apply Z.eqb_eq in Hph, Hpm, Hlv.
  exists (user tr). rewrite (identity_leaf h m va pat tr 1 a Htr Hlv);
    [|lia|apply Hb|done|change (level_page_size 1) with 4096; lia].
  by rewrite Hpm, Hty, Hlv.
Qed.

(** The null page. *)
Lemma null_page a :
  0 <= a < 4096 -> region_needs_page_table windows 0 = true -> translation h m a pat = unmapped.
Proof.
  intros Ha Hn. assert (E : a - a mod 0x200000 = 0) by (change 0x200000 with 2097152; div_lia).
  pose proof (page_valid a ltac:(lia)) as Hp. rewrite E in Hp. specialize (Hp Hn).
  assert (Ep : page_of a = 0) by (unfold page_of; div_lia). rewrite Ep in Hp. unfold page_expected in Hp.
  cbn [Z.eqb] in Hp. apply bool_decide_eq_true in Hp.
  unfold translate_address in Hp. rewrite (low_canonical 0) in Hp by lia. cbn [negb] in Hp.
  apply (walk_unmapped 3 (root h) 0 a true true true true true true pat pat m); [lia| |].
  - by rewrite <- (prefix_page_of a), Ep.
  - destruct (walk_total 3 (root h) 0 true true true pat m) as [-> |(tr & Htr)]; [done|].
    change (PAGING_LEVEL_COUNT - 1)%nat with 3%nat in Hp. by rewrite Htr in Hp.
Qed.
End Readback.

(** ** The installed hierarchy *)

Lemma pat_entry_land x i : 0 <= i -> pat_entry x i = (x .>> (i * 8)) .& Z.ones 8.
Proof. intros Hi. unfold pat_entry, wrap. by rewrite Z.land_ones. Qed.

(** The one entry that is replaced, and the two that the mappings rely on. *)
Lemma pat_installed basic extended features cr4 pat :
  decode_processor_support basic extended features cr4 pat = PAGING_STATUS_OK ->
  pat_ok (pat_replace_entry pat PAT_WRITE_COMBINING_ENTRY PAT_TYPE_WRITE_COMBINING).
Proof.
  unfold decode_processor_support. intros Hd.
  repeat match type of Hd with (if ?c then _ else _) = _ => let E := fresh "E" in destruct c eqn:E; [done|] end.
  match goal with H : _ || _ = false |- _ => apply orb_false_iff in H as [H0%negb_false_iff%Z.eqb_eq H3%negb_false_iff%Z.eqb_eq] end.
  unfold PAT_WRITE_BACK_ENTRY, PAT_DEVICE_ENTRY in *. rewrite pat_entry_land in H0, H3 by lia.
  unfold pat_ok. rewrite !pat_entry_land by lia. unfold pat_replace_entry. cbv zeta.
  rewrite !Z.shiftr_lor, !Z.shiftr_land, !Z.land_lor_distr_l, <- !Z.land_assoc.
  split_and!.
  - rewrite <- H0. etrans; [|apply Z.lor_0_r]. apply (f_equal2 Z.lor); reflexivity.
  - etrans; [apply (f_equal2 Z.lor); [apply Z.land_0_r|reflexivity]|reflexivity].
  - rewrite <- H3. etrans; [|apply Z.lor_0_r]. apply (f_equal2 Z.lor); reflexivity.
Qed.

Lemma installed_space h m T r : space_ok h m T -> space_ok (set_live true h) (set_cr3 r m) T.
Proof.
  intros (Ht & Hwf & Hi & Ha). split; [|done]. by apply (tree_ok_leaves h (set_live true h) m (set_cr3 r m) T Ht).
Qed.

Lemma set_cr3_walk n t va w x u pat r m : translate_walk n t va w x u pat (set_cr3 r m) = translate_walk n t va w x u pat m.
Proof. revert t w x u. induction n as [|n IH]; intros t w x u; rewrite !translate_walk_unfold; [done|]. cbv zeta. by rewrite IH. Qed.

Section Initialize.
Context {C : Type} `{!processor C} `{!kernel_image}.

(** What a successful initialization leaves. *)
Record boot_installed (l : paging_device_windows) (b : boot C) : Prop := {
  bi_tables : exists T, paging_ok (bt_paging b) T;
  bi_root : cr3 (mem (bt_paging b)) = root (live_hierarchy (bt_paging b));
  bi_registers : cpu_read_msr IA32_PAT_MSR (bt_cpu b) = pat_after (state (bt_paging b)) /\
    has (cpu_read_msr IA32_EFER_MSR (bt_cpu b)) EFER_NO_EXECUTE_ENABLE = true /\
    has (cpu_read_cr0 (bt_cpu b)) CR0_WRITE_PROTECT = true;
  bi_windows : installed_device_windows b = sort_windows l /\ registry_ok l;
  bi_write_xor_execute : write_xor_execute (bt_paging b);
  bi_null a : 0 <= a < 4096 -> paging_translate a true (bt_paging b) = unmapped;
  bi_high a : address_is_canonical a = true -> 2 ^ 32 <= a -> paging_translate a true (bt_paging b) = unmapped;
  bi_device w a : w ∈ l -> in_window w a -> paging_translate a true (bt_paging b) =
    (PAGING_STATUS_OK, Translation a (device_window_mapping_permissions w) (dw_type w) 1 false);
  bi_memory a : 4096 <= a < 2 ^ 32 -> (forall w, w ∈ l -> ~ in_window w a) -> exists lvl,
    paging_translate a true (bt_paging b) =
      (PAGING_STATUS_OK, Translation a (image_permissions a) PAGING_MEMORY_WRITE_BACK lvl false)
}.

Lemma paging_verify_ok (p : paging) (c : C) :
  paging_verify p c = PAGING_STATUS_OK ->
  cpu_read_msr IA32_PAT_MSR c = pat_after (state p) /\
  has (cpu_read_msr IA32_EFER_MSR c) EFER_NO_EXECUTE_ENABLE = true /\
  has (cpu_read_cr0 c) CR0_WRITE_PROTECT = true /\ active (state p) = true /\ write_xor_execute p.
Proof.
  unfold paging_verify. cbv zeta. destruct (active (state p)) eqn:Ha; [|done]. cbn [negb].
  destruct (_ || _); [done|]. destruct (_ || _) eqn:Hpat; [done|]. apply orb_false_iff in Hpat as [Hpat _].
  destruct (has (cpu_read_msr _ c) _); [|done]. destruct (has (cpu_read_cr0 c) _); [|done]. cbn [negb].
  destruct (_ || _) eqn:Hau; [done|]. intros _. apply negb_false_iff, Z.eqb_eq in Hpat.
  apply orb_false_iff in Hau as [H1%negb_false_iff%Z.eqb_eq H2%negb_false_iff%Z.eqb_eq].
  split; [done|]. split; [done|]. split; [done|]. split; [done|].
  rewrite (write_xor_execute_iff p Ha). exact (proj1 (audit_zero_iff _ _ _) (conj H1 H2)).
Qed.

Lemma install_ok windows pat_before pat_after (b b' : boot C) :
  install windows pat_before pat_after b = (PAGING_STATUS_OK, b') ->
  let h := live_hierarchy (bt_paging b) in
  exists s, bt_paging b' = Paging s (set_live true h) (supervisor_intents (bt_paging b)) (set_cr3 (root h) (mem (bt_paging b))) /\
    Paging.pat_after s = pat_after /\ active s = true /\ ps_table_frames s = table_frames h /\
    installed_device_windows b' = windows /\ paging_verify (bt_paging b') (bt_cpu b') = PAGING_STATUS_OK.
Proof.
  unfold install. cbv zeta. destruct (negb _); [done|].
  match goal with |- context [paging_verify ?p ?c] => destruct (paging_verify p c) eqn:Hv end; try done.
  intros [= <-]. eexists. cbn [bt_paging installed_device_windows bt_cpu]. by split_and!.
Qed.

Lemma build_and_install_ok windows pat_before pat_after (b b' : boot C) :
  build_and_install windows pat_before pat_after b = (PAGING_STATUS_OK, b') ->
  exists h0 t h1 m1 fine h m b1,
    arena_capacity h0 = 0 /\ table_frames h0 = 0 /\ live h0 = false /\
    allocate_table h0 (mem (bt_paging b)) = (inr t, h1, m1) /\
    build_identity_map collect_kernel_sections windows (set_root t h1) m1 = (PAGING_STATUS_OK, fine, h, m) /\
    validate_identity_map collect_kernel_sections windows h pat_after m = PAGING_STATUS_OK /\
    live_hierarchy (bt_paging b1) = h /\ mem (bt_paging b1) = m /\
    install windows pat_before pat_after b1 = (PAGING_STATUS_OK, b').
Proof.
  unfold build_and_install. cbv zeta. set (h0 := Hierarchy _ _ _ _ _ _ _).
  destruct (allocate_table h0 _) as [[[st|t] h1] m1] eqn:Hal; [intros [= -> _]; exfalso|].
  { revert Hal. unfold allocate_table. cbv zeta. repeat case_match; by intros [=]. }
  destruct (build_identity_map _ windows _ m1) as [[[st fine] h] m] eqn:Hb. destruct st; try done.
  destruct (validate_identity_map _ windows h _ m) eqn:Hv; try done. destruct (_ || _); [done|].
  intros Hi. eexists h0, t, h1, m1, fine, h, m, _. do 6 (split; [done|]).
  split; [|split; [|exact Hi]]; done.
Qed.

Lemma paging_initialize_inv l (b b' : boot C) :
  paging_initialize (Some l) b = (PAGING_STATUS_OK, b') ->
  registry_ok l /\ exists basic extended features cr4 pat c,
    decode_processor_support basic extended features cr4 pat = PAGING_STATUS_OK /\
    build_and_install (sort_windows l) pat
      (pat_replace_entry pat PAT_WRITE_COMBINING_ENTRY PAT_TYPE_WRITE_COMBINING) (set_cpu c b) = (PAGING_STATUS_OK, b').
Proof.
  unfold paging_initialize. destruct (active _); [done|].
  destruct (paging_device_windows_validate (Some l) true) as [st r] eqn:Hv. destruct st; try done.
  apply validate_windows_iff in Hv as [Hr ->]. split; [done|]. cbn [default] in *. cbv zeta in *.
  match goal with H : match ?x with _ => _ end = _ |- _ => destruct x; try done end.
  destruct (cpu_interrupts_enabled _); [done|].
  match goal with H : context [decode_processor_support ?a ?b ?c ?d ?e] |- _ =>
    destruct (decode_processor_support a b c d e) eqn:Hd; try done end.
  destruct (enable_processor_features _) as [st c]; destruct st; try done. by eauto 10.
Qed.

(** The regions that hold a window are fine. *)
Lemma window_region_fine l w a :
  Forall window_legal l -> ForallOrdPairs compatible l -> w ∈ l -> in_window w a ->
  region_needs_page_table (sort_windows l) (a - a mod 0x200000) = true.
Proof.
  intros Hlg Hc Hw Ha. destruct (sort_windows_spec l Hlg Hc) as [Hp _]. unfold region_needs_page_table. cbv zeta.
  destruct (_ && _); [done|]. apply existsb_exists. exists w. split; [apply list_elem_of_In; by rewrite Hp|].
  rewrite Forall_forall in Hlg. rewrite (legal_end w (Hlg w Hw)). unfold in_window in Ha.
  change PAGING_HUGE_PAGE_SIZE with 2097152. change 0x200000 with 2097152. div_lia.
Qed.

(** Windows are whole pages. *)
Lemma in_window_page w a : window_legal w -> in_window w (page_of a) <-> in_window w a.
Proof. intros [_ _ [H1 H2] _ _ _]. unfold in_window, page_of. div_lia. Qed.

(** Large regions are plain memory. *)
Lemma coarse_memory windows a :
  image_laid_out -> region_needs_page_table windows (a - a mod 0x200000) = false -> image_permissions a = PAGING_WRITE.
Proof.
  intros (_ & H1 & H2 & H3) Hn. unfold region_needs_page_table in Hn. cbv zeta in Hn.
  destruct (_ && _) eqn:E; [done|]. clear Hn. unfold image_permissions.
  change PAGING_HUGE_PAGE_SIZE with 0x200000 in E.
  assert (Hr : a - a mod 0x200000 <= a < a - a mod 0x200000 + 0x200000) by (change 0x200000 with 2097152; div_lia).
  repeat match goal with |- (if ?c then _ else _) = _ => let E := fresh "E" in destruct c eqn:E; [lia|] end. reflexivity.
Qed.

Section Final.
Context (l : paging_device_windows) (h : hierarchy) (m : memory) (pat : Z).
Hypothesis Himage : image_laid_out.
Hypothesis Hlegal : Forall window_legal l.
Hypothesis Hcomp : ForallOrdPairs compatible l.
Hypothesis Hvalid : validate_identity_map collect_kernel_sections (sort_windows l) h pat m = PAGING_STATUS_OK.

Lemma final_device w a :
  w ∈ l -> in_window w a ->
  exists u, translation h m a pat =
    (PAGING_STATUS_OK, Translation a (device_window_mapping_permissions w) (dw_type w) 1 u).
Proof.
  intros Hw Ha. pose proof (proj1 (Forall_forall _ _) Hlegal w Hw) as Hlw.
  destruct (page_mapped (sort_windows l) h pat m Hvalid a) as (u & Htr).
  - destruct Hlw as [_ (B1 & B2 & B3) [A1 A2] _ _ _]. unfold in_window in Ha. change (2 ^ 32) with 4294967296 in *.
    clear -Ha B1 B2 B3 A1. div_lia.
  - by apply (window_region_fine l w a).
  - exists u. rewrite Htr. pose proof (proj2 (in_window_page w a Hlw) Ha) as Hp.
    pose proof (window_at_spec l (page_of a) Hlegal Hcomp) as Hat. unfold section_permissions.
    destruct (device_window_at (sort_windows l) (page_of a)) as [v|]; [|by destruct (Hat w Hw)].
    destruct Hat as [Hv Hva]. by rewrite (window_unique l w v (page_of a) Hlegal Hcomp Hw Hv Hp Hva).
Qed.

Lemma final_memory a :
  4096 <= a < 2 ^ 32 -> (forall w, w ∈ l -> ~ in_window w a) ->
  exists lvl u, translation h m a pat =
    (PAGING_STATUS_OK, Translation a (image_permissions a) PAGING_MEMORY_WRITE_BACK lvl u).
Proof.
  intros Ha Hnw. destruct (region_needs_page_table (sort_windows l) (a - a mod 0x200000)) eqn:Hn.
  - destruct (page_mapped (sort_windows l) h pat m Hvalid a Ha Hn) as (u & Htr). exists 1, u.
    pose proof (window_at_spec l (page_of a) Hlegal Hcomp) as Hat.
    destruct (device_window_at (sort_windows l) (page_of a)) as [v|] eqn:Hd.
    + destruct Hat as [Hv Hva]. exfalso. apply (Hnw v Hv). apply in_window_page; [|done].
      by apply (proj1 (Forall_forall _ _) Hlegal).
    + by rewrite Htr, (section_lookup _ _ Himage Hd), image_permissions_page.
  - destruct (region_mapped (sort_windows l) h pat m Hvalid a ltac:(lia) Hn) as (u & Htr). exists 2, u.
    by rewrite Htr, (coarse_memory _ a Himage Hn).
Qed.

Lemma final_null a :
  (exists w, w ∈ l /\ dw_kind w = PAGING_DEVICE_WINDOW_VGA_TEXT) -> 0 <= a < 4096 -> translation h m a pat = unmapped.
Proof.
  intros (w & Hw & Hk) Ha. apply (null_page (sort_windows l)); [done|done|].
  pose proof (proj1 (Forall_forall _ _) Hlegal w Hw) as Hlw. destruct (legal_vga w Hlw Hk) as [Hb Hln].
  apply (window_region_fine l w PAGING_VGA_TEXT_BUFFER_BASE Hlegal Hcomp Hw). unfold in_window. rewrite Hb, Hln. lia.
Qed.
End Final.
End Initialize.

(** C12: When [paging_initialize] reports success the processor runs on a well-formed
    hierarchy with the no-execute and write-protect bits set and the page attributes the
    mappings rely on; the null page and everything from 4 GiB up is absent; every address of
    a device window maps to itself with exactly the window's permissions and memory type,
    and every other address below 4 GiB to itself as write-back memory, executable in the
    kernel's text, read-only in its constants and boot header, writable elsewhere; and
    nothing is writable and executable at once or open to user mode. *)
Theorem paging_initialize_correct {C : Type} `{!processor C} `{!kernel_image} l (b b' : boot C) :
  image_laid_out -> Forall window_fits l ->
  frames_wf (frame_state (mem (bt_paging b))) ->
  allocator_initialized (frame_state (mem (bt_paging b))) = true ->
  paging_initialize (Some l) b = (PAGING_STATUS_OK, b') -> boot_installed l b'.
Proof.
  intros Himage Hfit Hwf Hal Hi. apply paging_initialize_inv in Hi as (Hreg & ba & ex & fe & cr & pat & c & Hdec & Hb).
  pose proof (pat_installed _ _ _ _ _ Hdec) as Hpat.
  apply build_and_install_ok in Hb as (h0 & t & h1 & m1 & fine & h & m & b1 & Hc0 & Hn0 & Hl0 & Hroot & Hbuild & Hvalid & Hh & Hm & Hins).
  destruct (allocate_root h0 _ t h1 m1 Hwf Hal Hc0 Hn0 Hroot) as (Hs1 & Hl1 & _ & Hun).
  destruct (build_identity_spec _ _ _ _ _ _ _ _ Hs1 ltac:(cbn; congruence) Hbuild) as (T & Hev).
  pose proof (ev_space _ _ _ _ _ _ _ Hev) as Hsp.
  apply install_ok in Hins as (s & Hp & Hpa & Hact & Hcnt & Hwin & Hver). rewrite Hh, Hm in Hp. rewrite Hh in Hcnt.
  apply paging_verify_ok in Hver as (Vpat & Vnx & Vwp & _ & Vwx).
  assert (Hlg : Forall window_legal l).
  { destruct Hreg as (_ & Hv & _). rewrite Forall_forall in *. intros w Hw. apply window_entry_ok; auto. }
  assert (Hcp : ForallOrdPairs compatible l) by apply Hreg.
  assert (Hok : paging_ok (bt_paging b') T).
  { rewrite Hp. split; cbn [live_hierarchy mem state]; [by apply installed_space|done|by rewrite Hpa|done|done]. }
  assert (Htr : forall a, address_is_canonical a = true ->
    paging_translate a true (bt_paging b') = translation h m a
      (pat_replace_entry pat PAT_WRITE_COMBINING_ENTRY PAT_TYPE_WRITE_COMBINING)).
  { intros a Hc. rewrite (translate_canonical _ T a Hok Hc), Hp. cbn [live_hierarchy mem state].
    rewrite Hpa. apply set_cr3_walk. }
  assert (Huser : forall a pa pm ty lv u, paging_translate a true (bt_paging b') =
    (PAGING_STATUS_OK, Translation pa pm ty lv u) -> u = false) by (intros * E; by apply (Vwx _ _ E)).
  split; try done.
  - by exists T.
  - by rewrite Hp.
  - intros a Ha. rewrite Htr by (apply low_canonical; lia). apply (final_null l); try done.
    destruct Hreg as (_ & _ & _ & Hreq). by inversion Hreq.
  - intros a Hc Ha. rewrite Htr by done. rewrite (ev_translates _ _ _ _ _ _ _ Hev); [apply Hun|done|].
    unfold between, page_of. change (2 ^ 32) with 4294967296 in *. clear -Ha. div_lia.
  - intros w a Hw Ha. destruct (final_device l h m _ Hlg Hcp Hvalid w a Hw Ha) as (u & E).
    rewrite <- Htr in E; [by rewrite E, (Huser _ _ _ _ _ _ E)|]. apply low_canonical.
    pose proof (proj1 (Forall_forall _ _) Hlg w Hw) as [_ ? _ _ _ _]. unfold in_window in Ha. lia.
  - intros a Ha Hnw. destruct (final_memory l h m _ Himage Hlg Hcp Hvalid a Ha Hnw) as (lvl & u & E). exists lvl.
    rewrite <- Htr in E by (apply low_canonical; lia). by rewrite E, (Huser _ _ _ _ _ _ E).
Qed.

Module InstallSamples.
Import WindowSamples.

(** The registers of a processor that does what it is told. *)
Record registers := Registers { efer : Z; page_attributes : Z; control_0 : Z; control_4 : Z }.

#[local] Instance sample_processor : processor registers := {
  cpu_interrupts_enabled _ := false;
  cpu_cpuid leaf _ _ :=
    if leaf =? CPUID_EXTENDED_ROOT then CpuidResult 0x80000008 0 0 0
    else if leaf =? CPUID_EXTENDED_FEATURES then CpuidResult 0 0 0 CPUID_NO_EXECUTE
    else CpuidResult 0 0 0 CPUID_PAT;
  cpu_read_msr r c := if r =? IA32_EFER_MSR then efer c else page_attributes c;
  cpu_write_msr r v c :=
    if r =? IA32_EFER_MSR then Registers v (page_attributes c) (control_0 c) (control_4 c)
    else Registers (efer c) v (control_0 c) (control_4 c);
  cpu_read_cr0 := control_0;
  cpu_write_cr0 v c := Registers (efer c) (page_attributes c) v (control_4 c);
  cpu_read_cr4 := control_4
}.

#[local] Instance sample_image : kernel_image := {
  kernel_start := 0x100000; text_start := 0x101000; text_end := 0x103000;
  rodata_start := 0x103000; rodata_end := 0x104000; data_start := 0x104000; kernel_end := 0x106000
}.

Definition sample_boot : boot registers :=
  Boot (Paging zero_state (Hierarchy 0 0 0 0 0 false false) []
          (Memory ∅ (fresh_frames 16 4096) 0x2000 [] (TableFailure 0 0 false false)))
    [] [] 0 (Registers 0x500 0x0007040600070406 0x80000011 0x20).

Lemma boot_sample_succeeds : (paging_initialize (Some pc_windows) sample_boot).1 = PAGING_STATUS_OK.
Proof. vm_compute. reflexivity. Qed.

Lemma paging_initialize_correct_witness :
  boot_installed pc_windows (paging_initialize (Some pc_windows) sample_boot).2.
Proof.
  apply (paging_initialize_correct pc_windows sample_boot).
  - split; [repeat constructor|]. vm_compute. intuition congruence.
  - exact pc_windows_fit.
  - apply fresh_frames_wf; vm_compute; intuition congruence.
  - reflexivity.
  - rewrite (surjective_pairing (paging_initialize (Some pc_windows) sample_boot)) at 1.
    by rewrite boot_sample_succeeds.
Defined.
End InstallSamples.
