(* ===== verification/PagingProcess.v ===== *)
(** * Process address spaces ([src/kernel/paging.c])

    Up to four private hierarchies, each with the kernel's identity map and recorded
    mappings and the user pages of one process.  A caller holds a token; the slot it names
    goes from building over installed to active and back.  The frames a process executes
    are narrowed to read-only in every identity map, through an open-addressed table of
    reference-counted global aliases.  The processor runs on the hierarchy [cr3] names. *)

From stdpp Require Import base option list numbers gmap.
From S2P Require Import Prelude Frames Paging PagingBoot.

Definition PAGE_ACCESSED : Z := 1 .<< 5.
Definition PAGE_DIRTY : Z := 1 .<< 6.
Definition PAGE_GLOBAL : Z := 1 .<< 8.

Definition PAGING_PROCESS_IMAGE_ADDRESS : Z := 0x0000400000000000.
Definition PAGING_PROCESS_STACK_GUARD : Z := 0x0000400000200000.
Definition PAGING_PROCESS_STACK_PAGES : Z := 4.
Definition PAGING_PROCESS_STACK_BASE : Z := PAGING_PROCESS_STACK_GUARD + PAGING_PAGE_SIZE.
Definition PAGING_PROCESS_STACK_END : Z := PAGING_PROCESS_STACK_BASE + PAGING_PROCESS_STACK_PAGES * PAGING_PAGE_SIZE.
Definition PAGING_LINUX_IMAGE_BASE : Z := 0x0000400001000000.
Definition PAGING_LINUX_IMAGE_PAGES : Z := 9.
Definition PAGING_LINUX_IMAGE_READ_PREFIX_PAGE : Z := 0.
Definition PAGING_LINUX_IMAGE_EXECUTE_FIRST_PAGE : Z := 1.
Definition PAGING_LINUX_IMAGE_EXECUTE_PAGES : Z := 6.
Definition PAGING_LINUX_IMAGE_READ_SUFFIX_PAGE : Z :=
  PAGING_LINUX_IMAGE_EXECUTE_FIRST_PAGE + PAGING_LINUX_IMAGE_EXECUTE_PAGES.
Definition PAGING_LINUX_IMAGE_WRITE_PAGE : Z := PAGING_LINUX_IMAGE_PAGES - 1.
Definition PAGING_LINUX_IMAGE_END : Z := PAGING_LINUX_IMAGE_BASE + PAGING_LINUX_IMAGE_PAGES * PAGING_PAGE_SIZE.
Definition PAGING_LINUX_UNAME_IMAGE_BASE : Z := PAGING_LINUX_IMAGE_BASE.
Definition PAGING_LINUX_UNAME_IMAGE_PAGES : Z := 11.
Definition PAGING_LINUX_UNAME_IMAGE_READ_PREFIX_PAGE : Z := 0.
Definition PAGING_LINUX_UNAME_IMAGE_EXECUTE_FIRST_PAGE : Z := 1.
Definition PAGING_LINUX_UNAME_IMAGE_EXECUTE_PAGES : Z := 7.
Definition PAGING_LINUX_UNAME_IMAGE_READ_SUFFIX_FIRST_PAGE : Z := 8.
Definition PAGING_LINUX_UNAME_IMAGE_READ_SUFFIX_PAGES : Z := 2.
Definition PAGING_LINUX_UNAME_IMAGE_WRITE_PAGE : Z := 10.
Definition PAGING_LINUX_UNAME_IMAGE_END : Z :=
  PAGING_LINUX_UNAME_IMAGE_BASE + PAGING_LINUX_UNAME_IMAGE_PAGES * PAGING_PAGE_SIZE.
Definition PAGING_LINUX_CAT_IMAGE_BASE : Z := PAGING_LINUX_IMAGE_BASE.
Definition PAGING_LINUX_CAT_IMAGE_PAGES : Z := 12.
Definition PAGING_LINUX_CAT_IMAGE_READ_PREFIX_PAGE : Z := 0.
Definition PAGING_LINUX_CAT_IMAGE_EXECUTE_FIRST_PAGE : Z := 1.
Definition PAGING_LINUX_CAT_IMAGE_EXECUTE_PAGES : Z := 7.
Definition PAGING_LINUX_CAT_IMAGE_READ_SUFFIX_FIRST_PAGE : Z := 8.
Definition PAGING_LINUX_CAT_IMAGE_READ_SUFFIX_PAGES : Z := 2.
Definition PAGING_LINUX_CAT_IMAGE_WRITE_FIRST_PAGE : Z := 10.
Definition PAGING_LINUX_CAT_IMAGE_WRITE_PAGES : Z := 2.
Definition PAGING_LINUX_CAT_IMAGE_END : Z :=
  PAGING_LINUX_CAT_IMAGE_BASE + PAGING_LINUX_CAT_IMAGE_PAGES * PAGING_PAGE_SIZE.
Definition PAGING_LINUX_HEAP_BASE : Z := 0x0000400001100000.
Definition PAGING_LINUX_HEAP_PAGES : Z := 2.
Definition PAGING_LINUX_ANON_ADDRESS : Z := 0x0000400001110000.
Definition PAGING_LINUX_STACK_GUARD : Z := 0x0000400001200000.
Definition PAGING_LINUX_STACK_PAGES : Z := 4.
Definition PAGING_LINUX_STACK_BASE : Z := PAGING_LINUX_STACK_GUARD + PAGING_PAGE_SIZE.
Definition PAGING_LINUX_STACK_END : Z := PAGING_LINUX_STACK_BASE + PAGING_LINUX_STACK_PAGES * PAGING_PAGE_SIZE.
Definition PAGING_PROCESS_ALIAS_MAX_PAGES : Z := 4096.
Definition PAGING_PROCESS_EXPECTED_MAX_PAGES : Z := 16384.
Definition PAGING_NATIVE_IMAGE_BASE : Z := 0x0000400000000000.
Definition PAGING_NATIVE_IMAGE_END : Z := 0x0000400100000000.
Definition PAGING_NATIVE_ANON_BASE : Z := 0x0000500000000000.
Definition PAGING_NATIVE_ANON_END : Z := 0x0000500040000000.
Definition PAGING_NATIVE_SURFACE_BASE : Z := 0x0000580000000000.
Definition PAGING_NATIVE_SURFACE_END : Z := 0x0000580010000000.
Definition PAGING_NATIVE_STACK_BASE : Z := 0x0000600000000000.
Definition PAGING_NATIVE_STACK_END : Z := 0x0000600001000000.
Definition PAGING_PROCESS_SPACE_SLOTS : nat := 4.
Definition PAGING_GLOBAL_ALIAS_CAPACITY : Z := Z.of_nat PAGING_PROCESS_SPACE_SLOTS * PAGING_PROCESS_ALIAS_MAX_PAGES.

(** ** Data *)

Inductive paging_process_space_state :=
| PAGING_PROCESS_SPACE_INVALID
| PAGING_PROCESS_SPACE_BUILDING
| PAGING_PROCESS_SPACE_INSTALLED
| PAGING_PROCESS_SPACE_ACTIVE
| PAGING_PROCESS_SPACE_RELEASED.

#[global] Instance paging_process_space_state_eq_dec : EqDecision paging_process_space_state.
Proof. solve_decision. Defined.

Inductive paging_process_mapping_kind :=
| PAGING_PROCESS_MAPPING_IMAGE
| PAGING_PROCESS_MAPPING_STACK
| PAGING_PROCESS_MAPPING_LINUX_IMAGE
| PAGING_PROCESS_MAPPING_LINUX_UNAME_IMAGE
| PAGING_PROCESS_MAPPING_LINUX_CAT_IMAGE
| PAGING_PROCESS_MAPPING_LINUX_STACK
| PAGING_PROCESS_MAPPING_LINUX_HEAP
| PAGING_PROCESS_MAPPING_LINUX_ANON
| PAGING_PROCESS_MAPPING_NATIVE_IMAGE
| PAGING_PROCESS_MAPPING_NATIVE_ANON
| PAGING_PROCESS_MAPPING_NATIVE_TLS
| PAGING_PROCESS_MAPPING_NATIVE_SURFACE
| PAGING_PROCESS_MAPPING_NATIVE_STACK.

(** The caller's token. *)
Record paging_process_space := ProcessSpace {
  ps_root : Z;
  ps_generation : Z;
  ps_frames : Z;
  ps_state : paging_process_space_state
}.

Record paging_process_image_alias := ImageAlias {
  ia_physical : Z;
  ia_generation : Z;
  ia_active : bool
}.

(** The used part of the array; [count] is its length. *)
Record paging_process_alias_set := AliasSet {
  as_physical : list Z;
  as_generation : Z;
  as_active : bool
}.

Record paging_process_expected_page := ExpectedPage {
  ep_virtual : Z;
  ep_physical : Z;
  ep_permissions : Z
}.

Record process_space_runtime := SpaceRuntime {
  sr_hierarchy : hierarchy;
  sr_generation : Z;
  sr_state : paging_process_space_state;
  sr_owned : bool
}.

(** [None] for [SIZE_MAX]. *)
Record process_alias_page_runtime := AliasPage {
  ap_physical : Z;
  ap_saved_entry : Z;
  ap_split_table : Z;
  ap_global_index : option Z;
  ap_split : bool
}.

Record process_alias_runtime := AliasRuntime {
  ar_generation : Z;
  ar_pages : gmap Z process_alias_page_runtime;
  ar_count : Z;
  ar_order : Z;
  ar_owned : bool
}.

Inductive global_alias_state := PAGING_GLOBAL_ALIAS_EMPTY | PAGING_GLOBAL_ALIAS_LIVE | PAGING_GLOBAL_ALIAS_TOMBSTONE.

#[global] Instance global_alias_state_eq_dec : EqDecision global_alias_state.
Proof. solve_decision. Defined.

Record global_alias_runtime := GlobalAlias {
  ga_physical : Z;
  ga_saved_entry : Z;
  ga_split_table : Z;
  ga_order : Z;
  ga_references : Z;
  ga_state : global_alias_state;
  ga_split : bool
}.

(** Static storage starts zeroed; an array is a map from its indices. *)
Definition zero_alias_page : process_alias_page_runtime := AliasPage 0 0 0 (Some 0) false.
Definition zero_global_alias : global_alias_runtime := GlobalAlias 0 0 0 0 0 PAGING_GLOBAL_ALIAS_EMPTY false.
Definition zero_space_runtime : process_space_runtime :=
  SpaceRuntime (Hierarchy 0 0 0 0 0 false true) 0 PAGING_PROCESS_SPACE_INVALID false.
Definition zero_alias_runtime : process_alias_runtime := AliasRuntime 0 ∅ 0 0 false.

(** The static variables of the process part, beside those of [boot]. *)
Record spaces (C : Type) := Spaces {
  sp_boot : boot C;
  process_spaces : list process_space_runtime;
  process_aliases : list process_alias_runtime;
  global_aliases : gmap Z global_alias_runtime;
  global_alias_live_count : Z;
  next_global_alias_order : Z;
  next_alias_order : Z;
  next_process_generation : Z;
  next_alias_generation : Z
}.

Arguments Spaces {C} _ _ _ _ _ _ _ _ _.
Arguments sp_boot {C} _.
Arguments process_spaces {C} _.
Arguments process_aliases {C} _.
Arguments global_aliases {C} _.
Arguments global_alias_live_count {C} _.
Arguments next_global_alias_order {C} _.
Arguments next_alias_order {C} _.
Arguments next_process_generation {C} _.
Arguments next_alias_generation {C} _.

Definition zero_process_space : paging_process_space := ProcessSpace 0 0 0 PAGING_PROCESS_SPACE_INVALID.
Definition zero_process_alias : paging_process_image_alias := ImageAlias 0 0 false.
Definition zero_process_alias_set : paging_process_alias_set := AliasSet [] 0 false.

(** ** Requests *)

Definition page_aligned (a : Z) : bool := a .& (PAGING_PAGE_SIZE - 1) =? 0.

Definition between_ (lo hi a : Z) : bool := (lo <=? a) && (a <? hi).

Definition process_mapping_request_valid (kind : paging_process_mapping_kind) (va permissions : Z) : bool :=
  let page base := (va - base) / PAGING_PAGE_SIZE in
  match kind with
  | PAGING_PROCESS_MAPPING_IMAGE => (va =? PAGING_PROCESS_IMAGE_ADDRESS) && (permissions =? PAGING_EXECUTE)
  | PAGING_PROCESS_MAPPING_STACK =>
      between_ PAGING_PROCESS_STACK_BASE PAGING_PROCESS_STACK_END va && page_aligned va && (permissions =? PAGING_WRITE)
  | PAGING_PROCESS_MAPPING_LINUX_IMAGE =>
      if negb (between_ PAGING_LINUX_IMAGE_BASE PAGING_LINUX_IMAGE_END va) || negb (page_aligned va) then false
      else
        let p := page PAGING_LINUX_IMAGE_BASE in
        if (p =? PAGING_LINUX_IMAGE_READ_PREFIX_PAGE) || (p =? PAGING_LINUX_IMAGE_READ_SUFFIX_PAGE) then
          permissions =? PAGING_READ
        else if between_ PAGING_LINUX_IMAGE_EXECUTE_FIRST_PAGE
               (PAGING_LINUX_IMAGE_EXECUTE_FIRST_PAGE + PAGING_LINUX_IMAGE_EXECUTE_PAGES) p then
          permissions =? PAGING_EXECUTE
        else (p =? PAGING_LINUX_IMAGE_WRITE_PAGE) && (permissions =? PAGING_WRITE)
  | PAGING_PROCESS_MAPPING_LINUX_UNAME_IMAGE =>
      if negb (between_ PAGING_LINUX_UNAME_IMAGE_BASE PAGING_LINUX_UNAME_IMAGE_END va) || negb (page_aligned va) then false
      else
        let p := page PAGING_LINUX_UNAME_IMAGE_BASE in
        if (p =? PAGING_LINUX_UNAME_IMAGE_READ_PREFIX_PAGE)
           || between_ PAGING_LINUX_UNAME_IMAGE_READ_SUFFIX_FIRST_PAGE
                (PAGING_LINUX_UNAME_IMAGE_READ_SUFFIX_FIRST_PAGE + PAGING_LINUX_UNAME_IMAGE_READ_SUFFIX_PAGES) p then
          permissions =? PAGING_READ
        else if between_ PAGING_LINUX_UNAME_IMAGE_EXECUTE_FIRST_PAGE
               (PAGING_LINUX_UNAME_IMAGE_EXECUTE_FIRST_PAGE + PAGING_LINUX_UNAME_IMAGE_EXECUTE_PAGES) p then
          permissions =? PAGING_EXECUTE
        else (p =? PAGING_LINUX_UNAME_IMAGE_WRITE_PAGE) && (permissions =? PAGING_WRITE)
  | PAGING_PROCESS_MAPPING_LINUX_CAT_IMAGE =>
      if negb (between_ PAGING_LINUX_CAT_IMAGE_BASE PAGING_LINUX_CAT_IMAGE_END va) || negb (page_aligned va) then false
      else
        let p := page PAGING_LINUX_CAT_IMAGE_BASE in
        if (p =? PAGING_LINUX_CAT_IMAGE_READ_PREFIX_PAGE)
           || between_ PAGING_LINUX_CAT_IMAGE_READ_SUFFIX_FIRST_PAGE
                (PAGING_LINUX_CAT_IMAGE_READ_SUFFIX_FIRST_PAGE + PAGING_LINUX_CAT_IMAGE_READ_SUFFIX_PAGES) p then
          permissions =? PAGING_READ
        else if between_ PAGING_LINUX_CAT_IMAGE_EXECUTE_FIRST_PAGE
               (PAGING_LINUX_CAT_IMAGE_EXECUTE_FIRST_PAGE + PAGING_LINUX_CAT_IMAGE_EXECUTE_PAGES) p then
          permissions =? PAGING_EXECUTE
        else between_ PAGING_LINUX_CAT_IMAGE_WRITE_FIRST_PAGE
               (PAGING_LINUX_CAT_IMAGE_WRITE_FIRST_PAGE + PAGING_LINUX_CAT_IMAGE_WRITE_PAGES) p
             && (permissions =? PAGING_WRITE)
  | PAGING_PROCESS_MAPPING_LINUX_STACK =>
      between_ PAGING_LINUX_STACK_BASE PAGING_LINUX_STACK_END va && page_aligned va && (permissions =? PAGING_WRITE)
  | PAGING_PROCESS_MAPPING_LINUX_HEAP =>
      between_ PAGING_LINUX_HEAP_BASE (PAGING_LINUX_HEAP_BASE + PAGING_LINUX_HEAP_PAGES * PAGING_PAGE_SIZE) va
      && page_aligned va && (permissions =? PAGING_WRITE)
  | PAGING_PROCESS_MAPPING_LINUX_ANON => (va =? PAGING_LINUX_ANON_ADDRESS) && (permissions =? PAGING_WRITE)
  | PAGING_PROCESS_MAPPING_NATIVE_IMAGE =>
      between_ PAGING_NATIVE_IMAGE_BASE PAGING_NATIVE_IMAGE_END va && page_aligned va
      && ((permissions =? PAGING_READ) || (permissions =? PAGING_WRITE) || (permissions =? PAGING_EXECUTE))
  | PAGING_PROCESS_MAPPING_NATIVE_ANON | PAGING_PROCESS_MAPPING_NATIVE_TLS =>
      between_ PAGING_NATIVE_ANON_BASE PAGING_NATIVE_ANON_END va && page_aligned va && (permissions =? PAGING_WRITE)
  | PAGING_PROCESS_MAPPING_NATIVE_SURFACE =>
      between_ PAGING_NATIVE_SURFACE_BASE PAGING_NATIVE_SURFACE_END va && page_aligned va && (permissions =? PAGING_WRITE)
  | PAGING_PROCESS_MAPPING_NATIVE_STACK =>
      between_ PAGING_NATIVE_STACK_BASE PAGING_NATIVE_STACK_END va && page_aligned va && (permissions =? PAGING_WRITE)
  end.

Definition process_unmap_request_valid (kind : paging_process_mapping_kind) (va : Z) : bool :=
  process_mapping_request_valid kind va PAGING_READ || process_mapping_request_valid kind va PAGING_WRITE
  || process_mapping_request_valid kind va PAGING_EXECUTE.

(** The kinds a process may ask for while it runs. *)
Definition runtime_mapping (kind : paging_process_mapping_kind) : bool :=
  match kind with
  | PAGING_PROCESS_MAPPING_LINUX_HEAP | PAGING_PROCESS_MAPPING_LINUX_ANON | PAGING_PROCESS_MAPPING_NATIVE_ANON
  | PAGING_PROCESS_MAPPING_NATIVE_TLS | PAGING_PROCESS_MAPPING_NATIVE_SURFACE | PAGING_PROCESS_MAPPING_NATIVE_STACK => true
  | _ => false
  end.

(** ** Walks *)

(** The tables below [table] at level [n + 1], given back from the bottom up. *)
Fixpoint release_table_tree (n : nat) (table : Z) (h : hierarchy) (m : memory) : hierarchy * memory :=
  let '(h, m) :=
    match n with
    | O => (h, m)
    | S n' =>
        foldl (fun '(h, m) i =>
          let e := word m (entry_at table i) in
          if has e PAGE_PRESENT && negb (has e PAGE_HUGE) then release_table_tree n' (e .& PAGE_FRAME_MASK) h m
          else (h, m)) (h, m) (seqZ 0 PAGING_ENTRIES_PER_TABLE)
    end in
  release_table h table m.

(** The loop of [entry_for_user] from the table at level [n + 1] on. *)
Fixpoint user_walk (n : nat) (va table : Z) (h : hierarchy) (m : memory) : (paging_status + Z) * hierarchy * memory :=
  match n with
  | O => (inr (entry_at table (table_index va 1)), h, m)
  | S n' =>
      let slot := entry_at table (table_index va (S n)) in
      let e := word m slot in
      if negb (has e PAGE_PRESENT) then
        match allocate_table h m with
        | (inl status, h, m) => (inl status, h, m)
        | (inr next, h, m) =>
            user_walk n' va next h (set_word slot (((next .| PAGE_PRESENT) .| PAGE_WRITABLE) .| PAGE_USER) m)
        end
      else if has e PAGE_HUGE || negb (has e PAGE_USER) then (inl PAGING_STATUS_PROCESS_BAD_MAPPING, h, m)
      else user_walk n' va (e .& PAGE_FRAME_MASK) h m
  end.

Definition entry_for_user (h : hierarchy) (va : Z) (m : memory) : (paging_status + Z) * hierarchy * memory :=
  user_walk (PAGING_LEVEL_COUNT - 1) va (root h) h m.

(** The table at level [n + 1]. *)
Fixpoint no_user_bits_in_table (n : nat) (table : Z) (m : memory) : bool :=
  forallb (fun i =>
    let e := word m (entry_at table i) in
    if negb (has e PAGE_PRESENT) then true
    else if has e PAGE_USER then false
    else
      match n with
      | S n' => if negb (has e PAGE_HUGE) then no_user_bits_in_table n' (e .& PAGE_FRAME_MASK) m else true
      | O => true
      end) (seqZ 0 PAGING_ENTRIES_PER_TABLE).

Definition no_user_bits_in_kernel_branch (h : hierarchy) (m : memory) : bool :=
  let e := word m (entry_at (root h) 0) in
  has e PAGE_PRESENT && negb (has e PAGE_HUGE) && negb (has e PAGE_USER)
  && no_user_bits_in_table (PAGING_LEVEL_COUNT - 2) (e .& PAGE_FRAME_MASK) m.

Definition flush_hierarchy (h : hierarchy) (m : memory) : memory := if live h then set_cr3 (root h) m else m.

(** ** Identity aliases *)

(** The entries of the table that replaces a large page. *)
Definition split_entries (table base leaf_flags : Z) (m : memory) : memory :=
  foldl (fun m i => set_word (entry_at table i) ((base + i * PAGING_PAGE_SIZE) .| leaf_flags) m) m
    (seqZ 0 PAGING_ENTRIES_PER_TABLE).

Definition identity_read (r : paging_status * paging_translation) (pa permissions' : Z) : bool :=
  let '(status, t) := r in
  bool_decide (status = PAGING_STATUS_OK) && (physical_address t =? pa) && (permissions t =? permissions') &&
  negb (user t) && bool_decide (memory_type t = PAGING_MEMORY_WRITE_BACK).

(** The status, [*saved_entry], [*split_table], [*split] and the hierarchy. *)
Definition narrow_identity_alias (h : hierarchy) (pa pat : Z) (m : memory) :
    paging_status * Z * Z * bool * hierarchy * memory :=
  if negb (identity_read (translate_address h pa pat m) pa PAGING_WRITE) then
    (PAGING_STATUS_PROCESS_ALIAS_STATE, 0, 0, false, h, m)
  else
    match find_entry h pa 2 m with
    | inl status => (status, 0, 0, false, h, m)
    | inr directory_entry =>
        let original := word m directory_entry in
        (* [inl] a refusal, [inr] the values after the split. *)
        let split :=
          if has original PAGE_PRESENT && has original PAGE_HUGE then
            let base := (original .& PAGE_FRAME_MASK) .& not64 (PAGING_HUGE_PAGE_SIZE - 1) in
            let leaf_flags := original .&
              ((((((((PAGE_PRESENT .| PAGE_WRITABLE) .| PAGE_USER) .| PAGE_WRITE_THROUGH) .| PAGE_CACHE_DISABLE)
                .| PAGE_ACCESSED) .| PAGE_DIRTY) .| PAGE_GLOBAL) .| PAGE_NO_EXECUTE) in
            match allocate_table h m with
            | (inl status, h, m) => inl (status, h, m)
            | (inr table, h, m) =>
                let m := split_entries table base leaf_flags m in
                let m := set_word directory_entry
                           (((table .| PAGE_PRESENT) .| PAGE_WRITABLE) .| (original .& PAGE_USER)) m in
                inr (original, table, true, h, flush_hierarchy h (invalidate h pa m))
            end
          else inr (0, 0, false, h, m) in
        match split with
        | inl (status, h, m) => (status, 0, 0, false, h, m)
        | inr (saved, table, split, h, m) =>
            match find_entry h pa 1 m with
            | inl status => (status, saved, table, split, h, m)
            | inr leaf =>
                let e := word m leaf in
                if negb (has e PAGE_PRESENT) then (PAGING_STATUS_PROCESS_ALIAS_STATE, saved, table, split, h, m)
                else
                  let saved := if negb split then e else saved in
                  let m := set_word leaf ((e .& not64 PAGE_WRITABLE) .| PAGE_NO_EXECUTE) m in
                  let m := flush_hierarchy h (invalidate h pa m) in
                  if negb (identity_read (translate_address h pa pat m) pa PAGING_READ) then
                    (PAGING_STATUS_PROCESS_ALIAS_STATE, saved, table, split, h, m)
                  else (PAGING_STATUS_OK, saved, table, split, h, m)
            end
        end
    end.

Definition restore_identity_alias (h : hierarchy) (pa saved_entry split_table : Z) (split : bool) (m : memory) :
    paging_status * hierarchy * memory :=
  match find_entry h pa (if split then 2 else 1) m with
  | inl _ => (PAGING_STATUS_PROCESS_ALIAS_STATE, h, m)
  | inr entry =>
      let e := word m entry in
      if negb (has e PAGE_PRESENT) then (PAGING_STATUS_PROCESS_ALIAS_STATE, h, m)
      else if split && (has e PAGE_HUGE || negb (e .& PAGE_FRAME_MASK =? split_table)) then
        (PAGING_STATUS_PROCESS_ALIAS_STATE, h, m)
      else
        let m := flush_hierarchy h (invalidate h pa (set_word entry saved_entry m)) in
        let '(h, m) := if split then release_table h split_table m else (h, m) in
        (PAGING_STATUS_OK, h, m)
  end.

(** ** The global aliases *)

Section Spaces.
Context {C : Type} `{!processor C} `{!kernel_image}.
Implicit Types s : spaces C.

Definition pg s : paging := bt_paging (sp_boot s).
Definition live_of s : hierarchy := live_hierarchy (pg s).
Definition mem_of s : memory := mem (pg s).
Definition pat_of s : Z := pat_after (state (pg s)).
Definition masked_cr3 s : Z := cr3 (mem_of s) .& PAGE_FRAME_MASK.
Definition on_kernel_root s : bool := masked_cr3 s =? root (live_of s).
Definition interrupts_on s : bool := cpu_interrupts_enabled (bt_cpu (sp_boot s)).

Definition set_boot (b : boot C) s : spaces C :=
  Spaces b (process_spaces s) (process_aliases s) (global_aliases s) (global_alias_live_count s)
    (next_global_alias_order s) (next_alias_order s) (next_process_generation s) (next_alias_generation s).
Definition set_pg (p : paging) s : spaces C :=
  let b := sp_boot s in
  set_boot (Boot p (installed_device_windows b) (kernel_sections b) (fine_region_count b) (bt_cpu b)) s.
Definition set_mem (m : memory) s : spaces C :=
  let p := pg s in set_pg (Paging (state p) (live_hierarchy p) (supervisor_intents p) m) s.
Definition set_live_tables (h : hierarchy) (m : memory) s : spaces C :=
  let p := pg s in set_pg (Paging (state p) h (supervisor_intents p) m) s.
(** [state.table_frames = live_hierarchy.table_frames]. *)
Definition settle_live s : spaces C :=
  let p := pg s in
  set_pg (Paging (set_table_frames (table_frames (live_hierarchy p)) (state p)) (live_hierarchy p) (supervisor_intents p) (mem p)) s.
Definition set_slot (i : nat) (r : process_space_runtime) s : spaces C :=
  Spaces (sp_boot s) (<[i := r]> (process_spaces s)) (process_aliases s) (global_aliases s) (global_alias_live_count s)
    (next_global_alias_order s) (next_alias_order s) (next_process_generation s) (next_alias_generation s).
Definition set_alias (i : nat) (a : process_alias_runtime) s : spaces C :=
  Spaces (sp_boot s) (process_spaces s) (<[i := a]> (process_aliases s)) (global_aliases s) (global_alias_live_count s)
    (next_global_alias_order s) (next_alias_order s) (next_process_generation s) (next_alias_generation s).
Definition set_globals (g : gmap Z global_alias_runtime) (live order : Z) s : spaces C :=
  Spaces (sp_boot s) (process_spaces s) (process_aliases s) g live order (next_alias_order s)
    (next_process_generation s) (next_alias_generation s).
Definition set_process_generation (g : Z) s : spaces C :=
  Spaces (sp_boot s) (process_spaces s) (process_aliases s) (global_aliases s) (global_alias_live_count s)
    (next_global_alias_order s) (next_alias_order s) g (next_alias_generation s).
Definition set_alias_counters (order generation : Z) s : spaces C :=
  Spaces (sp_boot s) (process_spaces s) (process_aliases s) (global_aliases s) (global_alias_live_count s)
    (next_global_alias_order s) order (next_process_generation s) generation.

Definition slot_at (i : nat) s : process_space_runtime := default zero_space_runtime (process_spaces s !! i).
Definition process_space_alias (i : nat) s : process_alias_runtime := default zero_alias_runtime (process_aliases s !! i).

(** The hierarchy of slot [i] and memory. *)
Definition set_slot_tables (i : nat) (h : hierarchy) (m : memory) s : spaces C :=
  let r := slot_at i s in set_mem m (set_slot i (SpaceRuntime h (sr_generation r) (sr_state r) (sr_owned r)) s).
Definition set_slot_state (i : nat) (st : paging_process_space_state) s : spaces C :=
  let r := slot_at i s in set_slot i (SpaceRuntime (sr_hierarchy r) (sr_generation r) st (sr_owned r)) s.

(** A counter that skips zero when it wraps. *)
Definition next_counter (n : Z) : Z := let n := u64 (n + 1) in if n =? 0 then 1 else n.

Definition global_alias_at (i : Z) s : global_alias_runtime := default zero_global_alias (global_aliases s !! i).

Definition global_alias_hash (pa : Z) : Z :=
  let page := pa / PAGING_PAGE_SIZE in
  u64 (page * 11400714819323198485) .& (PAGING_GLOBAL_ALIAS_CAPACITY - 1).

(** The probes, [n] left; [None] for [SIZE_MAX]. *)
Fixpoint probe_aliases (n : nat) (index : Z) (tombstone : option Z) (pa : Z) (g : Z -> global_alias_runtime) :
    option Z * bool :=
  match n with
  | O => (tombstone, false)
  | S n =>
      let next := (index + 1) .& (PAGING_GLOBAL_ALIAS_CAPACITY - 1) in
      match ga_state (g index) with
      | PAGING_GLOBAL_ALIAS_LIVE =>
          if ga_physical (g index) =? pa then (Some index, true) else probe_aliases n next tombstone pa g
      | PAGING_GLOBAL_ALIAS_TOMBSTONE =>
          probe_aliases n next (match tombstone with None => Some index | t => t end) pa g
      | PAGING_GLOBAL_ALIAS_EMPTY => (match tombstone with None => Some index | t => t end, false)
      end
  end.

Definition global_alias_find (pa : Z) s : option Z * bool :=
  probe_aliases (Z.to_nat PAGING_GLOBAL_ALIAS_CAPACITY) (global_alias_hash pa) None pa (fun i => global_alias_at i s).

Definition newest_global_alias_order s : Z :=
  foldl (fun newest i =>
    let e := global_alias_at i s in
    if bool_decide (ga_state e = PAGING_GLOBAL_ALIAS_LIVE) && (newest <? ga_order e) then ga_order e else newest)
    0 (seqZ 0 PAGING_GLOBAL_ALIAS_CAPACITY).

Definition set_alias_state (st : global_alias_state) (e : global_alias_runtime) : global_alias_runtime :=
  GlobalAlias (ga_physical e) (ga_saved_entry e) (ga_split_table e) (ga_order e) (ga_references e) st (ga_split e).
Definition set_references (n : Z) (e : global_alias_runtime) : global_alias_runtime :=
  GlobalAlias (ga_physical e) (ga_saved_entry e) (ga_split_table e) (ga_order e) n (ga_state e) (ga_split e).
Definition set_saved (saved table : Z) (split : bool) (e : global_alias_runtime) : global_alias_runtime :=
  GlobalAlias (ga_physical e) saved table (ga_order e) (ga_references e) (ga_state e) split.

Definition reset_global_aliases s : spaces C := set_globals (set_alias_state PAGING_GLOBAL_ALIAS_EMPTY <$> global_aliases s) 0 1 s.

(** The status and [*alias_index]. *)
Definition acquire_global_alias (pa : Z) s : paging_status * option Z * spaces C :=
  match global_alias_find pa s with
  | (None, _) => (PAGING_STATUS_PROCESS_ALIAS_STATE, None, s)
  | (Some index, true) =>
      let e := global_alias_at index s in
      if (ga_references e =? 2 ^ 32 - 1)
         || negb (identity_read (translate_address (live_of s) pa (pat_of s) (mem_of s)) pa PAGING_READ) then
        (PAGING_STATUS_PROCESS_ALIAS_STATE, None, s)
      else
        (PAGING_STATUS_OK, Some index,
         set_globals (<[index := set_references (ga_references e + 1) e]> (global_aliases s))
           (global_alias_live_count s) (next_global_alias_order s) s)
  | (Some index, false) =>
      let e := global_alias_at index s in
      match narrow_identity_alias (live_of s) pa (pat_of s) (mem_of s) with
      | (PAGING_STATUS_OK, saved, table, split, h, m) =>
          let s := set_live_tables h m s in
          let entry := GlobalAlias pa saved table (next_global_alias_order s) 1 PAGING_GLOBAL_ALIAS_LIVE split in
          (PAGING_STATUS_OK, Some index,
           settle_live (set_globals (<[index := entry]> (global_aliases s)) (u64 (global_alias_live_count s + 1))
             (next_counter (next_global_alias_order s)) s))
      | (status, _, _, _, h, m) =>
          let s := set_live_tables h m s in
          (status, None,
           set_globals (<[index := set_saved 0 0 false e]> (global_aliases s)) (global_alias_live_count s)
             (next_global_alias_order s) s)
      end
  end.

Definition release_global_alias (index : Z) s : paging_status * spaces C :=
  if PAGING_GLOBAL_ALIAS_CAPACITY <=? index then (PAGING_STATUS_PROCESS_ALIAS_STATE, s)
  else
    let e := global_alias_at index s in
    if negb (bool_decide (ga_state e = PAGING_GLOBAL_ALIAS_LIVE)) || (ga_references e =? 0) then
      (PAGING_STATUS_PROCESS_ALIAS_STATE, s)
    else if 1 <? ga_references e then
      (PAGING_STATUS_OK,
       set_globals (<[index := set_references (ga_references e - 1) e]> (global_aliases s)) (global_alias_live_count s)
         (next_global_alias_order s) s)
    else if negb (ga_order e =? newest_global_alias_order s) then (PAGING_STATUS_PROCESS_ALIAS_STATE, s)
    else
      match restore_identity_alias (live_of s) (ga_physical e) (ga_saved_entry e) (ga_split_table e) (ga_split e) (mem_of s) with
      | (PAGING_STATUS_OK, h, m) =>
          let s := set_live_tables h m s in
          let count := u64 (global_alias_live_count s - 1) in
          let s := settle_live (set_globals (<[index := set_alias_state PAGING_GLOBAL_ALIAS_TOMBSTONE zero_global_alias]> (global_aliases s))
                                  count (next_global_alias_order s) s) in
          (PAGING_STATUS_OK, if count =? 0 then reset_global_aliases s else s)
      | (status, h, m) => (status, set_live_tables h m s)
      end.

(** ** Slots and tokens *)

(** [token] is [None] for a null pointer. *)
Definition resolve_process_space (token : option paging_process_space) s : option nat :=
  t ← token;
  first_index (fun r =>
    sr_owned r && (ps_root t =? root (sr_hierarchy r)) && (ps_generation t =? sr_generation r)
    && bool_decide (ps_state t = sr_state r)) (process_spaces s).

Definition any_process_space_owned s : bool := existsb sr_owned (process_spaces s).
Definition any_process_alias_owned s : bool := existsb ar_owned (process_aliases s).

Definition newest_owned_alias_order s : Z :=
  foldl (fun newest a => if ar_owned a && (newest <? ar_order a) then ar_order a else newest) 0 (process_aliases s).

Definition sync_process_space (i : nat) s : paging_process_space :=
  let r := slot_at i s in
  ProcessSpace (root (sr_hierarchy r)) (sr_generation r) (table_frames (sr_hierarchy r)) (sr_state r).

Definition process_alias_contains (i : nat) (pa : Z) s : bool :=
  let a := process_space_alias i s in
  ar_owned a && existsb (fun k => ap_physical (default zero_alias_page (ar_pages a !! k)) =? pa) (seqZ 0 (ar_count a)).

Fixpoint free_slot (n i : nat) s : option nat :=
  match n with
  | O => None
  | S n =>
      if negb (sr_owned (slot_at i s)) && negb (ar_owned (process_space_alias i s)) then Some i else free_slot n (S i) s
  end.

Definition set_fine (fine : Z) s : spaces C :=
  let b := sp_boot s in
  set_boot (Boot (bt_paging b) (installed_device_windows b) (kernel_sections b) fine (bt_cpu b)) s.

(** Everything [paging_process_space_build] checks of the new hierarchy; threads the
    count of fine regions. *)
Definition populate_space (h : hierarchy) s : paging_status * Z * hierarchy * memory :=
  let b := sp_boot s in
  let windows := installed_device_windows b in
  match build_identity_map (kernel_sections b) windows h (mem_of s) with
  | (PAGING_STATUS_OK, fine, h, m) =>
      match validate_identity_map (kernel_sections b) windows h (pat_of s) m with
      | PAGING_STATUS_OK =>
          match replay_supervisor_intent (supervisor_intents (pg s)) h m with
          | (PAGING_STATUS_OK, h, m) =>
              let audit := audit_hierarchy h m in
              if negb (write_execute_leaves audit =? 0) || negb (user_leaves audit =? 0)
                 || negb (no_user_bits_in_table (PAGING_LEVEL_COUNT - 1) (root h) m) then
                (PAGING_STATUS_VALIDATION_FAILURE, fine, h, m)
              else (PAGING_STATUS_OK, fine, h, m)
          | (status, h, m) => (status, fine, h, m)
          end
      | status => (status, fine, h, m)
      end
  | r => r
  end.

(** [out] is [space != NULL]; the token is what is stored there. *)
Definition paging_process_space_build (out : bool) s : paging_status * option paging_process_space * spaces C :=
  if negb out then (PAGING_STATUS_NULL_ARGUMENT, None, s)
  else if negb (active (state (pg s))) then (PAGING_STATUS_NOT_INITIALIZED, Some zero_process_space, s)
  else
    match free_slot PAGING_PROCESS_SPACE_SLOTS 0 s with
    | None => (PAGING_STATUS_PROCESS_BUSY, Some zero_process_space, s)
    | Some i =>
        if negb (on_kernel_root s) then (PAGING_STATUS_PROCESS_BAD_STATE, Some zero_process_space, s)
        else
          match allocate_table (Hierarchy 0 0 0 0 0 false true) (mem_of s) with
          | (inl status, h, m) => (status, Some zero_process_space, set_slot_tables i h m s)
          | (inr r, h, m) =>
              let h := set_root r h in
              let s := set_mem m (set_slot i (SpaceRuntime h (next_process_generation s) PAGING_PROCESS_SPACE_BUILDING true) s) in
              let s := set_process_generation (next_counter (next_process_generation s)) s in
              match populate_space h s with
              | (PAGING_STATUS_OK, fine, h, m) =>
                  let s := set_fine fine (set_slot_tables i h m s) in
                  (PAGING_STATUS_OK, Some (sync_process_space i s), s)
              | (status, fine, h, m) =>
                  let '(h, m) := release_table_tree (PAGING_LEVEL_COUNT - 1) (root h) h m in
                  let s := set_fine fine (set_slot_tables i h m s) in
                  (status, Some zero_process_space,
                   set_slot i (SpaceRuntime h (sr_generation (slot_at i s)) PAGING_PROCESS_SPACE_INVALID false) s)
              end
          end
    end.

(** ** Injected table failures *)

Definition paging_process_table_failure_arm (ordinal : Z) s : bool * spaces C :=
  if (ordinal =? 0) || failure_armed (failure (mem_of s)) || any_process_space_owned s || any_process_alias_owned s
     || negb (active (state (pg s))) || negb (on_kernel_root s) then (false, s)
  else (true, set_mem (set_failure (TableFailure ordinal 0 false true) (mem_of s)) s).

(** [None] when it answers false. *)
Definition paging_process_table_failure_result (out : bool) s : option (Z * bool) :=
  let f := failure (mem_of s) in
  if negb out || negb (failure_armed f) then None else Some (allocation_count f, failure_observed f).

Definition paging_process_table_failure_disarm s : bool * spaces C :=
  if negb (failure_armed (failure (mem_of s))) || any_process_space_owned s || any_process_alias_owned s
     || negb (on_kernel_root s) then (false, s)
  else (true, set_mem (set_failure (TableFailure 0 0 false false) (mem_of s)) s).

Definition paging_process_table_failure_armed s : bool := failure_armed (failure (mem_of s)).

(** ** Alias sets *)

Definition alias_page_at (i : nat) (k : Z) s : process_alias_page_runtime :=
  default zero_alias_page (ar_pages (process_space_alias i s) !! k).
Definition set_alias_page (i : nat) (k : Z) (page : process_alias_page_runtime) s : spaces C :=
  let a := process_space_alias i s in
  set_alias i (AliasRuntime (ar_generation a) (<[k := page]> (ar_pages a)) (ar_count a) (ar_order a) (ar_owned a)) s.
Definition set_alias_count (i : nat) (count : Z) s : spaces C :=
  let a := process_space_alias i s in
  set_alias i (AliasRuntime (ar_generation a) (ar_pages a) count (ar_order a) (ar_owned a)) s.
Definition set_global_index (index : option Z) (p : process_alias_page_runtime) : process_alias_page_runtime :=
  AliasPage (ap_physical p) (ap_saved_entry p) (ap_split_table p) index (ap_split p).
Definition set_private (saved table : Z) (split : bool) (p : process_alias_page_runtime) : process_alias_page_runtime :=
  AliasPage (ap_physical p) saved table (ap_global_index p) split.

(** Page [k] of the aliases of slot [i]. *)
Definition restore_alias_page (i : nat) (k : Z) (private_hierarchy : bool) s : paging_status * spaces C :=
  let page := alias_page_at i k s in
  if private_hierarchy then
    if ap_saved_entry page =? 0 then (PAGING_STATUS_OK, s)
    else
      let '(status, h, m) :=
        restore_identity_alias (sr_hierarchy (slot_at i s)) (ap_physical page) (ap_saved_entry page)
          (ap_split_table page) (ap_split page) (mem_of s) in
      (status, set_slot_tables i h m s)
  else
    match ap_global_index page with
    | None => (PAGING_STATUS_OK, s)
    | Some index => release_global_alias index s
    end.

Definition rollback_private (i : nat) (r : paging_status * spaces C) (k : Z) : paging_status * spaces C :=
  let '(result, s) := r in
  match restore_alias_page i k true s with
  | (PAGING_STATUS_OK, s) => (result, s)
  | (_, s) => (PAGING_STATUS_PROCESS_ALIAS_STATE, s)
  end.

Definition rollback_global (i : nat) (r : paging_status * spaces C) (k : Z) : paging_status * spaces C :=
  let '(result, s) := r in
  match restore_alias_page i k false s with
  | (PAGING_STATUS_OK, s) => (result, set_alias_page i k (set_global_index None (alias_page_at i k s)) s)
  | (_, s) => (PAGING_STATUS_PROCESS_ALIAS_STATE, s)
  end.

Definition rollback_alias_pages (i : nat) (count : Z) s : paging_status * spaces C :=
  let down := reverse (seqZ 0 count) in
  let '(result, s) := foldl (rollback_global i) (foldl (rollback_private i) (PAGING_STATUS_OK, s) down) down in
  (result, settle_live s).

(** Every address an allocatable page, none twice. *)
Fixpoint alias_addresses_valid (prior addresses : list Z) s : bool :=
  match addresses with
  | [] => true
  | pa :: rest =>
      page_aligned pa && frame_range_overlaps_allocatable_memory pa PAGING_PAGE_SIZE (frame_state (mem_of s))
      && negb (existsb (Z.eqb pa) prior) && alias_addresses_valid (prior ++ [pa]) rest s
  end.

(** The narrowing loop from page [k] on. *)
Fixpoint narrow_pages (addresses : list Z) (k : Z) (i : nat) s : paging_status * spaces C :=
  match addresses with
  | [] => (PAGING_STATUS_OK, s)
  | pa :: rest =>
      let s := set_alias_page i k (AliasPage pa 0 0 None false) s in
      match acquire_global_alias pa s with
      | (PAGING_STATUS_OK, index, s) =>
          let s := set_alias_page i k (set_global_index index (alias_page_at i k s)) s in
          match narrow_identity_alias (sr_hierarchy (slot_at i s)) pa (pat_of s) (mem_of s) with
          | (status, saved, table, split, h, m) =>
              let s := set_slot_tables i h m s in
              let s := set_alias_page i k (set_private saved table split (alias_page_at i k s)) s in
              match status with
              | PAGING_STATUS_OK => narrow_pages rest (k + 1) i (set_alias_count i (k + 1) s)
              | _ =>
                  let s := (restore_alias_page i k true s).2 in
                  let s :=
                    match restore_alias_page i k false s with
                    | (PAGING_STATUS_OK, s) => set_alias_page i k (set_global_index None (alias_page_at i k s)) s
                    | (_, s) => s
                    end in
                  match rollback_alias_pages i k s with
                  | (PAGING_STATUS_OK, s) => (status, settle_live s)
                  | (_, s) => (PAGING_STATUS_PROCESS_ALIAS_STATE, s)
                  end
              end
          end
      | (status, _, s) =>
          match rollback_alias_pages i k s with
          | (PAGING_STATUS_OK, s) => (status, s)
          | (_, s) => (PAGING_STATUS_PROCESS_ALIAS_STATE, s)
          end
      end
  end.

(** [addresses] is [None] for a null pointer; [count] is its length. *)
Definition narrow_alias_pages (token : option paging_process_space) (addresses : option (list Z)) s :
    paging_status * spaces C :=
  match resolve_process_space token s with
  | None => (PAGING_STATUS_PROCESS_BAD_TOKEN, s)
  | Some i =>
      match addresses with
      | None => (PAGING_STATUS_PROCESS_ALIAS_STATE, s)
      | Some l =>
          if (Z.of_nat (length l) =? 0) || (PAGING_PROCESS_ALIAS_MAX_PAGES <? Z.of_nat (length l)) then
            (PAGING_STATUS_PROCESS_ALIAS_STATE, s)
          else if negb (bool_decide (sr_state (slot_at i s) = PAGING_PROCESS_SPACE_BUILDING))
               || ar_owned (process_space_alias i s) || interrupts_on s || negb (on_kernel_root s) then
            (PAGING_STATUS_PROCESS_ALIAS_STATE, s)
          else
            let s := set_alias_count i 0 s in
            if negb (alias_addresses_valid [] l s) then (PAGING_STATUS_PROCESS_ALIAS_STATE, s)
            else
              match narrow_pages l 0 i s with
              | (PAGING_STATUS_OK, s) =>
                  let a := process_space_alias i s in
                  let generation := next_alias_generation s in
                  let order := next_alias_order s in
                  let s := set_alias_counters (u64 (order + 1)) (next_counter generation) s in
                  (PAGING_STATUS_OK, set_alias i (AliasRuntime generation (ar_pages a) (ar_count a) order true) s)
              | r => r
              end
      end
  end.

(** [out] is [alias != NULL]; the alias is what is stored there. *)
Definition paging_process_image_alias_narrow (token : option paging_process_space) (pa : Z) (out : bool) s :
    paging_status * option paging_process_image_alias * spaces C :=
  if negb out then (PAGING_STATUS_NULL_ARGUMENT, None, s)
  else
    match narrow_alias_pages token (Some [pa]) s with
    | (PAGING_STATUS_OK, s) =>
        match resolve_process_space token s with
        | None => (PAGING_STATUS_PROCESS_BAD_TOKEN, Some zero_process_alias, s)
        | Some i => (PAGING_STATUS_OK, Some (ImageAlias pa (ar_generation (process_space_alias i s)) true), s)
        end
    | (status, s) => (status, Some zero_process_alias, s)
    end.

Definition paging_process_alias_set_narrow (token : option paging_process_space) (addresses : option (list Z))
    (out : bool) s : paging_status * option paging_process_alias_set * spaces C :=
  if negb out then (PAGING_STATUS_NULL_ARGUMENT, None, s)
  else
    match narrow_alias_pages token addresses s with
    | (PAGING_STATUS_OK, s) =>
        match resolve_process_space token s with
        | None => (PAGING_STATUS_PROCESS_BAD_TOKEN, Some zero_process_alias_set, s)
        | Some i =>
            (PAGING_STATUS_OK, Some (AliasSet (default [] addresses) (ar_generation (process_space_alias i s)) true), s)
        end
    | (status, s) => (status, Some zero_process_alias_set, s)
    end.

Definition restore_active_aliases (token : option paging_process_space) s : paging_status * spaces C :=
  match resolve_process_space token s with
  | None => (PAGING_STATUS_PROCESS_BAD_TOKEN, s)
  | Some i =>
      let a := process_space_alias i s in
      if negb (ar_owned a) then (PAGING_STATUS_PROCESS_BAD_TOKEN, s)
      else if bool_decide (sr_state (slot_at i s) = PAGING_PROCESS_SPACE_ACTIVE) || interrupts_on s
           || negb (user_leaves (audit_hierarchy (sr_hierarchy (slot_at i s)) (mem_of s)) =? 0)
           || negb (ar_order a =? newest_owned_alias_order s) || negb (on_kernel_root s) then
        (PAGING_STATUS_PROCESS_ALIAS_STATE, s)
      else
        let release (r : bool * spaces C) (k : Z) :=
          if r.1 then
            match restore_alias_page i k false r.2 with
            | (PAGING_STATUS_OK, s) => (true, s)
            | (_, s) => (false, s)
            end
          else r in
        match foldl release (true, s) (reverse (seqZ 0 (ar_count a))) with
        | (false, s) => (PAGING_STATUS_PROCESS_ALIAS_STATE, settle_live s)
        | (true, s) =>
            let s := settle_live s in
            let a := process_space_alias i s in
            (PAGING_STATUS_OK, set_alias i (AliasRuntime (ar_generation a) (ar_pages a) 0 0 false) s)
        end
  end.

(** [alias] is [None] for a null pointer; what is stored there afterwards is returned. *)
Definition paging_process_image_alias_restore (token : option paging_process_space)
    (alias : option paging_process_image_alias) s :
    paging_status * option paging_process_image_alias * spaces C :=
  match alias with
  | None => (PAGING_STATUS_NULL_ARGUMENT, None, s)
  | Some alias =>
      match resolve_process_space token s with
      | None => (PAGING_STATUS_PROCESS_BAD_TOKEN, Some alias, s)
      | Some i =>
          let narrowed := process_space_alias i s in
          if negb (ia_active alias) || negb (ar_owned narrowed) || negb (ar_count narrowed =? 1)
             || negb (ia_generation alias =? ar_generation narrowed)
             || negb (ia_physical alias =? ap_physical (alias_page_at i 0 s)) then
            (PAGING_STATUS_PROCESS_BAD_TOKEN, Some alias, s)
          else
            match restore_active_aliases token s with
            | (PAGING_STATUS_OK, s) => (PAGING_STATUS_OK, Some zero_process_alias, s)
            | (status, s) => (status, Some alias, s)
            end
      end
  end.

Definition paging_process_alias_set_restore (token : option paging_process_space)
    (alias : option paging_process_alias_set) s : paging_status * option paging_process_alias_set * spaces C :=
  match alias with
  | None => (PAGING_STATUS_NULL_ARGUMENT, None, s)
  | Some alias =>
      match resolve_process_space token s with
      | None => (PAGING_STATUS_PROCESS_BAD_TOKEN, Some alias, s)
      | Some i =>
          let narrowed := process_space_alias i s in
          if negb (as_active alias) || negb (ar_owned narrowed)
             || negb (as_generation alias =? ar_generation narrowed)
             || negb (Z.of_nat (length (as_physical alias)) =? ar_count narrowed)
             || negb (forallb (fun '(k, pa) => pa =? ap_physical (alias_page_at i k s))
                        (zip (seqZ 0 (ar_count narrowed)) (as_physical alias))) then
            (PAGING_STATUS_PROCESS_BAD_TOKEN, Some alias, s)
          else
            match restore_active_aliases token s with
            | (PAGING_STATUS_OK, s) => (PAGING_STATUS_OK, Some zero_process_alias_set, s)
            | (status, s) => (status, Some alias, s)
            end
      end
  end.

(** ** User pages *)

Definition translate_in (i : nat) (va : Z) s : paging_status * paging_translation :=
  translate_address (sr_hierarchy (slot_at i s)) va (pat_of s) (mem_of s).

(** The caller's token is returned as the call leaves it. *)
Definition paging_process_map_user_page (token : option paging_process_space) (kind : paging_process_mapping_kind)
    (va pa permissions' : Z) s : paging_status * option paging_process_space * spaces C :=
  match resolve_process_space token s with
  | None => (PAGING_STATUS_PROCESS_BAD_TOKEN, token, s)
  | Some i =>
      let st := sr_state (slot_at i s) in
      let executable := has permissions' PAGING_EXECUTE in
      if (negb (runtime_mapping kind) && negb (bool_decide (st = PAGING_PROCESS_SPACE_BUILDING)))
         || (runtime_mapping kind && negb (bool_decide (st = PAGING_PROCESS_SPACE_BUILDING))
             && negb (bool_decide (st = PAGING_PROCESS_SPACE_INSTALLED))
             && negb (bool_decide (st = PAGING_PROCESS_SPACE_ACTIVE)))
         || negb (process_mapping_request_valid kind va permissions') || negb (page_aligned pa)
         || negb (frame_range_overlaps_allocatable_memory pa PAGING_PAGE_SIZE (frame_state (mem_of s))) then
        (PAGING_STATUS_PROCESS_BAD_MAPPING, token, s)
      else if executable && negb (process_alias_contains i pa s) then (PAGING_STATUS_PROCESS_ALIAS_STATE, token, s)
      else if negb (identity_read (translate_in i pa s) pa (if executable then PAGING_READ else PAGING_WRITE)) then
        (PAGING_STATUS_PROCESS_BAD_MAPPING, token, s)
      else
        match entry_for_user (sr_hierarchy (slot_at i s)) va (mem_of s) with
        | (inl status, h, m) =>
            let s := set_slot_tables i h m s in (status, Some (sync_process_space i s), s)
        | (inr entry, h, m) =>
            if has (word m entry) PAGE_PRESENT then (PAGING_STATUS_ALREADY_MAPPED, token, set_slot_tables i h m s)
            else
              let m := set_word entry ((pa .| permissions_to_flags permissions') .| PAGE_USER) m in
              let s := set_slot_tables i h (invalidate h va m) s in
              (PAGING_STATUS_OK, Some (sync_process_space i s), s)
        end
  end.

Definition paging_process_unmap_user_page (token : option paging_process_space) (kind : paging_process_mapping_kind)
    (va : Z) s : paging_status * option paging_process_space * spaces C :=
  match resolve_process_space token s with
  | None => (PAGING_STATUS_PROCESS_BAD_TOKEN, token, s)
  | Some i =>
      let h := sr_hierarchy (slot_at i s) in
      if (negb (runtime_mapping kind) && bool_decide (sr_state (slot_at i s) = PAGING_PROCESS_SPACE_ACTIVE))
         || negb (process_unmap_request_valid kind va) then
        (PAGING_STATUS_PROCESS_BAD_STATE, token, s)
      else
        match find_entry h va 1 (mem_of s) with
        | inl _ => (PAGING_STATUS_NOT_MAPPED, token, s)
        | inr entry =>
            let e := word (mem_of s) entry in
            if negb (has e PAGE_PRESENT) || negb (has e PAGE_USER) then (PAGING_STATUS_NOT_MAPPED, token, s)
            else
              let m := invalidate h va (set_word entry 0 (mem_of s)) in
              let '(h, m) := reclaim_empty_tables h va m in
              let s := set_slot_tables i h m s in
              (PAGING_STATUS_OK, Some (sync_process_space i s), s)
        end
  end.

(** [out] is [translation != NULL]. *)
Definition paging_process_translate (token : option paging_process_space) (va : Z) (out : bool) s :
    paging_status * paging_translation :=
  if negb out then (PAGING_STATUS_NULL_ARGUMENT, no_translation)
  else
    match resolve_process_space token s with
    | None => (PAGING_STATUS_PROCESS_BAD_TOKEN, no_translation)
    | Some i => translate_in i va s
    end.

(** ** Validation *)

Definition not_mapped_in (i : nat) (va : Z) s : bool := bool_decide ((translate_in i va s).1 = PAGING_STATUS_NOT_MAPPED).

(** The translation is the user page [e]; [typed] when its memory type is compared. *)
Definition user_page_matches (typed : bool) (e : paging_process_expected_page) (r : paging_status * paging_translation) :
    bool :=
  let '(status, t) := r in
  bool_decide (status = PAGING_STATUS_OK) && user t && (permissions t =? ep_permissions e) && (level t =? 1)
  && (physical_address t =? ep_physical e)
  && (negb typed || bool_decide (memory_type t = PAGING_MEMORY_WRITE_BACK)).

(** The kernel's own view of an executable frame: readable and nothing else. *)
Definition supervisor_reads (pa : Z) (r : paging_status * paging_translation) : bool :=
  let '(status, t) := r in
  bool_decide (status = PAGING_STATUS_OK) && negb (user t) && (permissions t =? PAGING_READ) && (physical_address t =? pa).

(** Bit [PAGE_USER] of the entry of the root that translates [va]. *)
Definition root_user (i : nat) (va : Z) s : bool :=
  has (word (mem_of s) (entry_at (root (sr_hierarchy (slot_at i s))) (table_index va 4))) PAGE_USER.

Definition paging_process_validate (token : option paging_process_space) (image : Z) (stack_frames : option (list Z)) s :
    paging_status * option paging_process_space * spaces C :=
  match stack_frames with
  | None => (PAGING_STATUS_NULL_ARGUMENT, token, s)
  | Some frames =>
      match resolve_process_space token s with
      | None => (PAGING_STATUS_PROCESS_BAD_TOKEN, token, s)
      | Some i =>
          let alias := process_space_alias i s in
          let h := sr_hierarchy (slot_at i s) in
          if negb (bool_decide (sr_state (slot_at i s) = PAGING_PROCESS_SPACE_BUILDING))
             || negb (ar_owned alias) || negb (ar_count alias =? 1)
             || negb (ap_physical (alias_page_at i 0 s) =? image)
             || negb (no_user_bits_in_kernel_branch h (mem_of s)) then
            (PAGING_STATUS_PROCESS_BAD_STATE, token, s)
          else if negb (not_mapped_in i 0 s) || negb (not_mapped_in i PAGING_PROCESS_STACK_GUARD s) then
            (PAGING_STATUS_VALIDATION_FAILURE, token, s)
          else if negb (user_page_matches true (ExpectedPage PAGING_PROCESS_IMAGE_ADDRESS image PAGING_EXECUTE)
                          (translate_in i PAGING_PROCESS_IMAGE_ADDRESS s))
               || negb (supervisor_reads image (translate_in i image s)) then
            (PAGING_STATUS_VALIDATION_FAILURE, token, s)
          else if negb (forallb (fun k =>
                    let va := PAGING_PROCESS_STACK_BASE + Z.of_nat k * PAGING_PAGE_SIZE in
                    user_page_matches false (ExpectedPage va (default 0 (frames !! k)) PAGING_WRITE) (translate_in i va s))
                  (seq 0 (Z.to_nat PAGING_PROCESS_STACK_PAGES))) then
            (PAGING_STATUS_VALIDATION_FAILURE, token, s)
          else
            let audit := audit_hierarchy h (mem_of s) in
            if negb (write_execute_leaves audit =? 0) || negb (user_leaves audit =? 1 + PAGING_PROCESS_STACK_PAGES)
               || root_user i 0 s || negb (root_user i PAGING_PROCESS_IMAGE_ADDRESS s) then
              (PAGING_STATUS_VALIDATION_FAILURE, token, s)
            else
              let s := set_slot_state i PAGING_PROCESS_SPACE_INSTALLED s in
              (PAGING_STATUS_OK, Some (sync_process_space i s), s)
      end
  end.

Definition executable_page (e : paging_process_expected_page) : bool := has (ep_permissions e) PAGING_EXECUTE.

Definition requests (kind : paging_process_mapping_kind) (e : paging_process_expected_page) : bool :=
  process_mapping_request_valid kind (ep_virtual e) (ep_permissions e).

Definition same_page (a b : paging_process_expected_page) : bool :=
  (ep_virtual a =? ep_virtual b) || (ep_physical a =? ep_physical b).

(** An executable page is one of the aliases and read-only for the kernel. *)
Definition aliased (i : nat) (e : paging_process_expected_page) s : bool :=
  process_alias_contains i (ep_physical e) s && supervisor_reads (ep_physical e) (translate_in i (ep_physical e) s).

(** The loop over the expected pages; [Some] the number of executable ones. *)
Fixpoint linux_pages (pages prior : list paging_process_expected_page) (i : nat) (executable_pages : Z) s : option Z :=
  match pages with
  | [] => Some executable_pages
  | e :: rest =>
      let kind_ok :=
        requests PAGING_PROCESS_MAPPING_LINUX_IMAGE e || requests PAGING_PROCESS_MAPPING_LINUX_UNAME_IMAGE e
        || requests PAGING_PROCESS_MAPPING_LINUX_CAT_IMAGE e || requests PAGING_PROCESS_MAPPING_LINUX_STACK e in
      if negb kind_ok || negb (user_page_matches true e (translate_in i (ep_virtual e) s)) then None
      else if existsb (fun p => same_page p e) prior then None
      else if executable_page e then
        if negb (aliased i e s) then None else linux_pages rest (prior ++ [e]) i (executable_pages + 1) s
      else linux_pages rest (prior ++ [e]) i executable_pages s
  end.

(** [pages] is [None] for a null pointer; [page_count] is its length. *)
Definition paging_process_validate_linux (token : option paging_process_space)
    (pages : option (list paging_process_expected_page)) s : paging_status * option paging_process_space * spaces C :=
  match pages with
  | None => (PAGING_STATUS_NULL_ARGUMENT, token, s)
  | Some pages =>
      match resolve_process_space token s with
      | None => (PAGING_STATUS_PROCESS_BAD_TOKEN, token, s)
      | Some i =>
          let alias := process_space_alias i s in
          let h := sr_hierarchy (slot_at i s) in
          let page_count := Z.of_nat (length pages) in
          if negb (bool_decide (sr_state (slot_at i s) = PAGING_PROCESS_SPACE_BUILDING))
             || negb (ar_owned alias) || (page_count =? 0) || (PAGING_PROCESS_EXPECTED_MAX_PAGES <? page_count)
             || negb (no_user_bits_in_kernel_branch h (mem_of s)) then
            (PAGING_STATUS_PROCESS_BAD_STATE, token, s)
          else if negb (not_mapped_in i 0 s) || negb (not_mapped_in i PAGING_LINUX_STACK_GUARD s)
               || negb (not_mapped_in i PAGING_LINUX_HEAP_BASE s) || negb (not_mapped_in i PAGING_LINUX_ANON_ADDRESS s) then
            (PAGING_STATUS_VALIDATION_FAILURE, token, s)
          else
            match linux_pages pages [] i 0 s with
            | None => (PAGING_STATUS_VALIDATION_FAILURE, token, s)
            | Some executable_pages =>
                let audit := audit_hierarchy h (mem_of s) in
                if negb (executable_pages =? ar_count alias) || negb (write_execute_leaves audit =? 0)
                   || negb (user_leaves audit =? page_count) || root_user i 0 s
                   || negb (root_user i PAGING_LINUX_IMAGE_BASE s) || negb (root_user i PAGING_LINUX_STACK_BASE s) then
                  (PAGING_STATUS_VALIDATION_FAILURE, token, s)
                else
                  let s := set_slot_state i PAGING_PROCESS_SPACE_INSTALLED s in
                  (PAGING_STATUS_OK, Some (sync_process_space i s), s)
            end
      end
  end.

(** What the loop of [paging_process_validate_native] has seen. *)
Record native_seen := NativeSeen {
  executable_pages : Z;
  image_present : bool;
  anon_present : bool;
  surface_present : bool;
  stack_present : bool
}.

Definition see (e : paging_process_expected_page) (n : native_seen) : native_seen :=
  NativeSeen (executable_pages n + if executable_page e then 1 else 0)
    (image_present n || requests PAGING_PROCESS_MAPPING_NATIVE_IMAGE e)
    (anon_present n || requests PAGING_PROCESS_MAPPING_NATIVE_ANON e)
    (surface_present n || requests PAGING_PROCESS_MAPPING_NATIVE_SURFACE e)
    (stack_present n || requests PAGING_PROCESS_MAPPING_NATIVE_STACK e).

Fixpoint native_pages (pages prior : list paging_process_expected_page) (i : nat) (seen : native_seen) s :
    option native_seen :=
  match pages with
  | [] => Some seen
  | e :: rest =>
      let kind_ok :=
        requests PAGING_PROCESS_MAPPING_NATIVE_IMAGE e || requests PAGING_PROCESS_MAPPING_NATIVE_ANON e
        || requests PAGING_PROCESS_MAPPING_NATIVE_TLS e || requests PAGING_PROCESS_MAPPING_NATIVE_SURFACE e
        || requests PAGING_PROCESS_MAPPING_NATIVE_STACK e in
      if negb kind_ok || negb (user_page_matches true e (translate_in i (ep_virtual e) s)) then None
      else if existsb (fun p => same_page p e) prior then None
      else if executable_page e && negb (requests PAGING_PROCESS_MAPPING_NATIVE_IMAGE e && aliased i e s) then None
      else native_pages rest (prior ++ [e]) i (see e seen) s
  end.

Definition paging_process_validate_native (token : option paging_process_space)
    (pages : option (list paging_process_expected_page)) s : paging_status * option paging_process_space * spaces C :=
  match pages with
  | None => (PAGING_STATUS_NULL_ARGUMENT, token, s)
  | Some pages =>
      match resolve_process_space token s with
      | None => (PAGING_STATUS_PROCESS_BAD_TOKEN, token, s)
      | Some i =>
          let alias := process_space_alias i s in
          let h := sr_hierarchy (slot_at i s) in
          let page_count := Z.of_nat (length pages) in
          if negb (bool_decide (sr_state (slot_at i s) = PAGING_PROCESS_SPACE_BUILDING))
             || negb (ar_owned alias) || (page_count =? 0) || (PAGING_PROCESS_EXPECTED_MAX_PAGES <? page_count)
             || negb (no_user_bits_in_kernel_branch h (mem_of s)) then
            (PAGING_STATUS_PROCESS_BAD_STATE, token, s)
          else if negb (not_mapped_in i 0 s) then (PAGING_STATUS_VALIDATION_FAILURE, token, s)
          else
            match native_pages pages [] i (NativeSeen 0 false false false false) s with
            | None => (PAGING_STATUS_VALIDATION_FAILURE, token, s)
            | Some seen =>
                let audit := audit_hierarchy h (mem_of s) in
                if negb (executable_pages seen =? ar_count alias) || (executable_pages seen =? 0)
                   || negb (image_present seen) || negb (stack_present seen) || negb (write_execute_leaves audit =? 0)
                   || negb (user_leaves audit =? page_count) || root_user i 0 s
                   || negb (root_user i PAGING_NATIVE_IMAGE_BASE s) || negb (root_user i PAGING_NATIVE_STACK_BASE s)
                   || (anon_present seen && negb (root_user i PAGING_NATIVE_ANON_BASE s))
                   || (surface_present seen && negb (root_user i PAGING_NATIVE_SURFACE_BASE s)) then
                  (PAGING_STATUS_VALIDATION_FAILURE, token, s)
                else
                  let s := set_slot_state i PAGING_PROCESS_SPACE_INSTALLED s in
                  (PAGING_STATUS_OK, Some (sync_process_space i s), s)
            end
      end
  end.

(** ** Switching and release *)

Definition paging_process_activate (token : option paging_process_space) s :
    paging_status * option paging_process_space * spaces C :=
  match resolve_process_space token s with
  | None => (PAGING_STATUS_PROCESS_BAD_TOKEN, token, s)
  | Some i =>
      if negb (bool_decide (sr_state (slot_at i s) = PAGING_PROCESS_SPACE_INSTALLED)) || interrupts_on s
         || negb (ar_owned (process_space_alias i s)) || negb (on_kernel_root s) then
        (PAGING_STATUS_PROCESS_BAD_STATE, token, s)
      else
        let s := set_mem (set_cr3 (root (sr_hierarchy (slot_at i s))) (mem_of s)) s in
        if negb (masked_cr3 s =? root (sr_hierarchy (slot_at i s))) then
          (PAGING_STATUS_VALIDATION_FAILURE, token, set_mem (set_cr3 (root (live_of s)) (mem_of s)) s)
        else
          let s := set_slot_state i PAGING_PROCESS_SPACE_ACTIVE s in
          (PAGING_STATUS_OK, Some (sync_process_space i s), s)
  end.

Definition paging_process_restore_kernel (token : option paging_process_space) s :
    paging_status * option paging_process_space * spaces C :=
  match resolve_process_space token s with
  | None => (PAGING_STATUS_PROCESS_BAD_TOKEN, token, s)
  | Some i =>
      if negb (bool_decide (sr_state (slot_at i s) = PAGING_PROCESS_SPACE_ACTIVE)) || interrupts_on s
         || negb (masked_cr3 s =? root (sr_hierarchy (slot_at i s))) then
        (PAGING_STATUS_PROCESS_BAD_STATE, token, s)
      else
        let s := set_mem (set_cr3 (root (live_of s)) (mem_of s)) s in
        if negb (on_kernel_root s) then (PAGING_STATUS_VALIDATION_FAILURE, token, s)
        else
          let s := set_slot_state i PAGING_PROCESS_SPACE_INSTALLED s in
          (PAGING_STATUS_OK, Some (sync_process_space i s), s)
  end.

Definition paging_process_space_release (token : option paging_process_space) s :
    paging_status * option paging_process_space * spaces C :=
  match resolve_process_space token s with
  | None => (PAGING_STATUS_PROCESS_BAD_TOKEN, token, s)
  | Some i =>
      let r := slot_at i s in
      if bool_decide (sr_state r = PAGING_PROCESS_SPACE_ACTIVE) || ar_owned (process_space_alias i s)
         || negb (user_leaves (audit_hierarchy (sr_hierarchy r) (mem_of s)) =? 0) || negb (on_kernel_root s) then
        (PAGING_STATUS_PROCESS_BAD_STATE, token, s)
      else
        let '(h, m) :=
          release_table_tree (PAGING_LEVEL_COUNT - 1) (root (sr_hierarchy r)) (sr_hierarchy r) (mem_of s) in
        let s := set_slot_tables i h m s in
        if negb (table_frames h =? 0) then (PAGING_STATUS_VALIDATION_FAILURE, token, s)
        else
          (PAGING_STATUS_OK,
           (fun t => ProcessSpace 0 (ps_generation t) 0 PAGING_PROCESS_SPACE_RELEASED) <$> token,
           set_slot i (SpaceRuntime h (sr_generation r) PAGING_PROCESS_SPACE_RELEASED false) s)
  end.

Definition paging_process_resources_released s : bool :=
  negb (any_process_space_owned s) && negb (any_process_alias_owned s) && negb (failure_armed (failure (mem_of s)))
  && (negb (active (state (pg s))) || on_kernel_root s).
End Spaces.
