(* ===== verification/PagingIsolation.v ===== *)
(** * What a validated process can reach ([paging_process_validate*] of [src/kernel/paging.c])

    Validation looks at the listed pages one by one and compares their number with the
    number of user leaves the audit walk counts.  Together the two show that the process
    reaches the listed pages and nothing else. *)

From stdpp Require Import base option list numbers gmap.
From S2P Require Import Prelude Frames Paging PagingSpec PagingRange PagingCalls PagingAudit PagingBoot PagingWindows PagingInstall PagingProcess.

(** ** Leaves with their places *)

(** The leaves of the table at level [n + 1], each with its first address; [base] is the
    first address the table translates. *)
Fixpoint placed (n : nat) (base table : Z) (w x u : bool) (m : memory) : list (Z * leaf_flags) :=
  flat_map (fun i =>
    let e := word m (entry_at table i) in
    let here := base + i * 2 ^ level_shift (S n) in
    if negb (has e PAGE_PRESENT) then []
    else
      let w := w && has e PAGE_WRITABLE in
      let x := x && negb (has e PAGE_NO_EXECUTE) in
      let u := u && has e PAGE_USER in
      match n with
      | S n' => if negb (has e PAGE_HUGE) then placed n' here (e .& PAGE_FRAME_MASK) w x u m else [(here, (S n, w, x, u))]
      | O => [(here, (S n, w, x, u))]
      end) (seqZ 0 PAGING_ENTRIES_PER_TABLE).

Lemma fmap_flat_map {A B C} (f : B -> C) (g : A -> list B) (h : A -> list C) l :
  (forall a, f <$> g a = h a) -> f <$> flat_map g l = flat_map h l.
Proof.
  intros Hh. induction l as [|a l IH]; [done|]. cbn [flat_map]. by rewrite fmap_app, Hh, IH.
Qed.

Lemma placed_leaves n base table w x u m : snd <$> placed n base table w x u m = leaves n table w x u m.
Proof.
  revert base table w x u. induction n as [|n IH]; intros base table w x u; cbn [placed leaves];
    apply fmap_flat_map; intros i; cbv zeta; (destruct (negb (has _ PAGE_PRESENT)); [done|]); [done|].
  destruct (negb (has _ PAGE_HUGE)); [apply IH|done].
Qed.

(** The first address of the leaf of level [k] on the way to [va], from level [n + 1] on. *)
Fixpoint leaf_start (n : nat) (va : Z) (k : nat) : Z :=
  table_index va (S n) * 2 ^ level_shift (S n) +
  match n with
  | S n' => if (S n =? k)%nat then 0 else leaf_start n' va k
  | O => 0
  end.

Lemma elem_of_placed n base table w x u m i l :
  0 <= i < 512 -> has (entry m table i) PAGE_PRESENT = true ->
  (let e := entry m table i in
   let here := base + i * 2 ^ level_shift (S n) in
   let w := w && has e PAGE_WRITABLE in
   let x := x && negb (has e PAGE_NO_EXECUTE) in
   let u := u && has e PAGE_USER in
   match n with
   | S n' => if has e PAGE_HUGE then l = (here, (S n, w, x, u)) else l ∈ placed n' here (frame_of e) w x u m
   | O => l = (here, (S n, w, x, u))
   end) -> l ∈ placed n base table w x u m.
Proof.
  intros Hi Hp Hl. assert (Hin : In i (seqZ 0 PAGING_ENTRIES_PER_TABLE)).
  { apply list_elem_of_In, elem_of_seqZ. change PAGING_ENTRIES_PER_TABLE with 512. lia. }
  unfold entry, frame_of in *. cbv zeta in Hl.
  destruct n as [|n]; cbn [placed]; apply list_elem_of_In, in_flat_map; exists i; (split; [exact Hin|]);
    cbv zeta; rewrite Hp; cbn [negb]; apply list_elem_of_In; [by apply list_elem_of_singleton|].
  destruct (has (word m (entry_at table i)) PAGE_HUGE); cbn [negb]; [by apply list_elem_of_singleton|done].
Qed.

(** What translates is a leaf, at the place of the address. *)
Lemma walk_placed n base table va w x u pat m tr :
  translate_walk n table va w x u pat m = (PAGING_STATUS_OK, tr) ->
  exists e k w' x' u', (k <= S n)%nat /\ tr = fill_translation e va k w' x' u' pat /\
    (base + leaf_start n va k, (k, w', x', u')) ∈ placed n base table w x u m.
Proof.
  revert base table w x u. induction n as [|n IH]; intros base table w x u; rewrite translate_walk_unfold; cbv zeta;
    (destruct (has (entry m table _) PAGE_PRESENT) eqn:Hp; cbn [negb]; [|done]).
  - intros [= <-]. eexists _, _, _, _, _. split; [|split; [done|]]; [lia|].
    apply (elem_of_placed _ _ _ _ _ _ _ (table_index va 1)); [apply table_index_range|done|].
    cbv zeta. cbn [leaf_start]. by rewrite Z.add_0_r.
  - destruct (has (entry m table _) PAGE_HUGE) eqn:Hh.
    + intros [= <-]. eexists _, _, _, _, _. split; [|split; [done|]]; [lia|].
      apply (elem_of_placed _ _ _ _ _ _ _ (table_index va (S (S n)))); [apply table_index_range|done|].
      cbv zeta. rewrite Hh. cbn [leaf_start]. by rewrite Nat.eqb_refl, Z.add_0_r.
    + intros (e & k & w' & x' & u' & Hk & -> & Hin)%(IH (base + table_index va (S (S n)) * 2 ^ level_shift (S (S n)))).
      exists e, k, w', x', u'. split; [lia|]. split; [done|].
      apply (elem_of_placed _ _ _ _ _ _ _ (table_index va (S (S n)))); [apply table_index_range|done|].
      cbv zeta. rewrite Hh. cbn [leaf_start].
      replace (S (S n) =? k)%nat with false by (symmetry; apply Nat.eqb_neq; lia). by rewrite Z.add_assoc.
Qed.

Lemma leaf_start_page n va : leaf_start n va 1 = 4096 * ((va / 4096) mod 512 ^ Z.of_nat (S n)).
Proof.
  induction n as [|n IH]; cbn [leaf_start].
  - rewrite table_index_alt by lia. change (2 ^ level_shift 1) with 4096. change (512 ^ Z.of_nat 1) with 512. lia.
  - cbn [Nat.eqb]. rewrite IH, table_index_alt by lia.
    assert (E : 2 ^ level_shift (S (S n)) = 4096 * 512 ^ Z.of_nat (S n)).
    { change 512 with (2 ^ 9). change 4096 with (2 ^ 12). rewrite <- Z.pow_mul_r, <- Z.pow_add_r by lia.
      f_equal. unfold level_shift. lia. }
    assert (0 < 512 ^ Z.of_nat (S n)) by lia.
    rewrite E, <- Z.div_div by lia. rewrite (Nat2Z.inj_succ (S n)), Z.pow_succ_r, (Z.mul_comm 512) by lia.
    rewrite Z.rem_mul_r by lia. lia.
Qed.

(** ** User pages *)

(** The user leaves by level and place. *)
Definition user_places (h : hierarchy) (m : memory) : list (nat * Z) :=
  flat_map (fun '(a, (k, _, _, u)) => if u : bool then [(k, a)] else []) (placed 3 0 (root h) true true true m).

Lemma user_places_count h m : user_leaves (audit_hierarchy h m) = Z.of_nat (length (user_places h m)).
Proof.
  destruct (audit_counts h m) as [_ ->]. rewrite <- (placed_leaves 3 0). unfold user_places.
  induction (placed 3 0 (root h) true true true m) as [|[a [[[k w] x] u]] l IH]; [done|].
  rewrite fmap_cons. cbn [countb flat_map snd flag_user]. rewrite length_app, IH. destruct u; cbn [length]; lia.
Qed.

(** An address user mode reaches has its leaf among them. *)
Lemma user_place h m va pat tr :
  translation h m va pat = (PAGING_STATUS_OK, tr) -> user tr = true ->
  exists k, level tr = Z.of_nat k /\ (k, leaf_start 3 va k) ∈ user_places h m.
Proof.
  intros (e & k & w & x & u & _ & -> & Hin)%(walk_placed 3 0) Hu.
  cbn [fill_translation user] in Hu. subst u. exists k. split; [done|].
  apply list_elem_of_In, in_flat_map. exists (0 + leaf_start 3 va k, (k, w, x, true)).
  split; [by apply list_elem_of_In|by left].
Qed.

Lemma page_place a b :
  0 <= a < 2 ^ 47 -> address_is_canonical b = true -> leaf_start 3 a 1 = leaf_start 3 b 1 -> a / 4096 = b / 4096.
Proof.
  rewrite canonical_range, !leaf_start_page. change (512 ^ Z.of_nat 4) with 68719476736.
  change (2 ^ 47) with 140737488355328. change (2 ^ 64) with 18446744073709551616. intros Ha Hb E.
  rewrite (Z.mod_small (a / 4096)) in E by div_lia. div_lia.
Qed.

(** As many listed pages as user leaves, each a user page of its own: user mode reaches
    them and nothing else. *)
Lemma user_reach h m pat (pages : list Z) :
  user_leaves (audit_hierarchy h m) = Z.of_nat (length pages) -> NoDup pages ->
  (forall a, a ∈ pages -> 0 <= a < 2 ^ 47 /\ a mod 4096 = 0 /\
     exists tr, translation h m a pat = (PAGING_STATUS_OK, tr) /\ user tr = true /\ level tr = 1) ->
  forall a tr, address_is_canonical a = true -> translation h m a pat = (PAGING_STATUS_OK, tr) -> user tr = true ->
    exists b, b ∈ pages /\ a / 4096 = b / 4096.
Proof.
  intros Hn Hnd Hp a tr Hc Ht Hu.
  assert (Hincl : incl (user_places h m) ((fun b => (1%nat, leaf_start 3 b 1)) <$> pages)).
  { apply NoDup_length_incl.
    - apply NoDup_ListNoDup, NoDup_fmap_2_strong; [|done]. intros b c Hb Hc' [= E].
      destruct (Hp b Hb) as (Hb1 & Hb2 & _), (Hp c Hc') as (Hc1 & Hc2 & _).
      pose proof (page_place b c Hb1 ltac:(apply canonical_range; lia) E). div_lia.
    - rewrite length_fmap. rewrite user_places_count in Hn. lia.
    - intros [k p] (b & [= -> ->] & Hb)%list_elem_of_In%list_elem_of_fmap. apply list_elem_of_In.
      destruct (Hp b Hb) as (_ & _ & tr' & Ht' & Hu' & Hl).
      destruct (user_place h m b pat tr' Ht' Hu') as (k & Hk & Hin). by replace k with 1%nat in Hin by lia. }
  destruct (user_place h m a pat tr Ht Hu) as (k & _ & Hin%list_elem_of_In%Hincl%list_elem_of_In).
  apply list_elem_of_fmap in Hin as (b & [= -> E] & Hb). exists b. split; [done|].
  destruct (Hp b Hb) as (Hb1 & _). symmetry. by apply page_place.
Qed.

(** ** Requests *)

Lemma page_aligned_iff a : page_aligned a = true <-> a mod 4096 = 0.
Proof.
  unfold page_aligned. change (PAGING_PAGE_SIZE - 1) with (2 ^ 12 - 1). rewrite land_mask by lia.
  change (2 ^ 12) with 4096. lia.
Qed.

Lemma between_iff lo hi a : between_ lo hi a = true <-> lo <= a < hi.
Proof. unfold between_. lia. Qed.

(** The windows user pages may lie in are aligned and below the kernel's half. *)
Lemma request_range kind va p :
  process_mapping_request_valid kind va p = true -> 0 <= va < 2 ^ 47 /\ va mod 4096 = 0.
Proof.
  assert (Hrange : forall lo hi, 0 <= lo -> hi <= 2 ^ 47 -> between_ lo hi va = true -> page_aligned va = true ->
            0 <= va < 2 ^ 47 /\ va mod 4096 = 0).
  { intros lo hi Hlo Hhi Hb%between_iff Ha%page_aligned_iff. split; [lia|done]. }
  assert (Himage : forall lo hi (b : bool), 0 <= lo -> hi <= 2 ^ 47 ->
            (if negb (between_ lo hi va) || negb (page_aligned va) then false else b) = true ->
            0 <= va < 2 ^ 47 /\ va mod 4096 = 0).
  { intros lo hi b Hlo Hhi H. destruct (between_ lo hi va) eqn:Eb; [|done]. destruct (page_aligned va) eqn:Ea; [|done].
    by apply (Hrange lo hi). }
  assert (Hstart : forall a, (va =? a) = true -> 0 <= a < 2 ^ 47 -> a mod 4096 = 0 -> 0 <= va < 2 ^ 47 /\ va mod 4096 = 0)
    by (by intros a ->%Z.eqb_eq).
  destruct kind; cbn [process_mapping_request_valid]; cbv zeta;
    first
      [ intros [[Hb Ha]%andb_prop _]%andb_prop; eapply Hrange; [| |exact Hb|exact Ha]; vm_compute; congruence
      | intros [E _]%andb_prop; apply (Hstart _ E); vm_compute; intuition congruence
      | intros H; eapply Himage; [| |exact H]; vm_compute; congruence ].
Qed.

(** ** What validation establishes *)

Definition in_page (e : paging_process_expected_page) (a : Z) : Prop := ep_virtual e <= a < ep_virtual e + 4096.

Section Isolation.
Context {C : Type} `{!processor C} `{!kernel_image}.
Implicit Types s : spaces C.

(** What [pages] say of the address space in slot [i]. *)
Record isolated (typed : bool) (i : nat) (pages : list paging_process_expected_page) s : Prop := {
  iso_reach a tr : translate_in i a s = (PAGING_STATUS_OK, tr) -> user tr = true -> exists e, e ∈ pages /\ in_page e a;
  iso_pages e a : e ∈ pages -> in_page e a ->
    exists ty, (typed = true -> ty = PAGING_MEMORY_WRITE_BACK) /\
      translate_in i a s =
        (PAGING_STATUS_OK, Translation (ep_physical e + (a - ep_virtual e)) (ep_permissions e) ty 1 true);
  iso_wx a tr : translate_in i a s = (PAGING_STATUS_OK, tr) ->
    has (permissions tr) PAGING_WRITE && has (permissions tr) PAGING_EXECUTE = false;
  iso_code e o : e ∈ pages -> executable_page e = true -> 0 <= o < 4096 ->
    exists tr, translate_in i (ep_physical e + o) s = (PAGING_STATUS_OK, tr) /\ user tr = false /\
      permissions tr = PAGING_READ /\ physical_address tr = ep_physical e + o;
  iso_null a : 0 <= a < 4096 -> (translate_in i a s).1 = PAGING_STATUS_NOT_MAPPED
}.

(** No byte is reached by user mode at two addresses. *)
Definition private_frames (i : nat) s : Prop :=
  forall a b tra trb, translate_in i a s = (PAGING_STATUS_OK, tra) -> translate_in i b s = (PAGING_STATUS_OK, trb) ->
    user tra = true -> user trb = true -> physical_address tra = physical_address trb -> a = b.

(** What the loops check of one page. *)
Record listed (typed : bool) (i : nat) s (e : paging_process_expected_page) : Prop := {
  li_range : 0 <= ep_virtual e < 2 ^ 47;
  li_aligned : ep_virtual e mod 4096 = 0;
  li_match : user_page_matches typed e (translate_in i (ep_virtual e) s) = true;
  li_code : executable_page e = true -> supervisor_reads (ep_physical e) (translate_in i (ep_physical e) s) = true
}.

Definition distinct (pages : list paging_process_expected_page) : Prop :=
  NoDup (ep_virtual <$> pages) /\ NoDup (ep_physical <$> pages).

Lemma distinct_snoc prior e :
  distinct prior -> existsb (fun p => same_page p e) prior = false -> distinct (prior ++ [e]).
Proof.
  intros [Hv Hp] Hex.
  assert (Hno : forall p, p ∈ prior -> ep_virtual p <> ep_virtual e /\ ep_physical p <> ep_physical e).
  { intros p Hin. assert (E : same_page p e = false).
    { apply not_true_is_false. intros Ht. apply not_true_iff_false in Hex. apply Hex, existsb_exists.
      exists p. split; [by apply list_elem_of_In|done]. }
    unfold same_page in E. lia. }
  split; rewrite fmap_app; apply NoDup_app; (split; [done|]); (split; [|apply NoDup_singleton]);
    intros x (p & -> & Hin)%list_elem_of_fmap E%list_elem_of_singleton; cbn in E; by destruct (Hno p Hin).
Qed.

Lemma native_pages_listed pages prior i seen s seen' :
  distinct prior -> native_pages pages prior i seen s = Some seen' ->
  Forall (listed true i s) pages /\ distinct (prior ++ pages).
Proof.
  revert prior seen. induction pages as [|e pages IH]; intros prior seen Hd; cbn [native_pages].
  { intros _. rewrite app_nil_r. split; [constructor|done]. }
  cbv zeta. match goal with |- context [negb ?k || _] => destruct k eqn:Hk end; cbn [negb orb]; [|done].
  destruct (user_page_matches _ _ _) eqn:Hm; cbn [negb]; [|done].
  destruct (existsb _ prior) eqn:Hex; [done|].
  destruct (executable_page e && _) eqn:Hx; [done|]. intros Hr.
  destruct (IH (prior ++ [e]) _ (distinct_snoc prior e Hd Hex) Hr) as [Hl Hd']. rewrite <- app_assoc in Hd'.
  split; [|exact Hd']. constructor; [|exact Hl].
  assert (Hrange : 0 <= ep_virtual e < 2 ^ 47 /\ ep_virtual e mod 4096 = 0).
  { rewrite !orb_true_iff in Hk. destruct Hk as [[[[Hk|Hk]|Hk]|Hk]|Hk]; exact (request_range _ _ _ Hk). }
  split; [apply Hrange|apply Hrange|done|]. intros He. rewrite He in Hx. cbn [andb] in Hx.
  apply negb_false_iff in Hx. unfold aliased in Hx. by apply andb_prop in Hx as [_ [_ ?]%andb_prop].
Qed.

Lemma linux_pages_listed pages prior i n s n' :
  distinct prior -> linux_pages pages prior i n s = Some n' ->
  Forall (listed true i s) pages /\ distinct (prior ++ pages).
Proof.
  revert prior n. induction pages as [|e pages IH]; intros prior n Hd; cbn [linux_pages].
  { intros _. rewrite app_nil_r. split; [constructor|done]. }
  cbv zeta. match goal with |- context [negb ?k || _] => destruct k eqn:Hk end; cbn [negb orb]; [|done].
  destruct (user_page_matches _ _ _) eqn:Hm; cbn [negb]; [|done].
  destruct (existsb _ prior) eqn:Hex; [done|]. intros Hr.
  assert (Hgo : (executable_page e = true -> aliased i e s = true) /\
    exists n, linux_pages pages (prior ++ [e]) i n s = Some n').
  { destruct (executable_page e); [|split; [done|exact (ex_intro _ _ Hr)]]. destruct (aliased i e s); [split; [done|exact (ex_intro _ _ Hr)]|done]. }
  destruct Hgo as (Hal & n1 & Hn). destruct (IH (prior ++ [e]) _ (distinct_snoc prior e Hd Hex) Hn) as [Hl Hd'].
  rewrite <- app_assoc in Hd'. split; [|exact Hd']. constructor; [|exact Hl].
  assert (Hrange : 0 <= ep_virtual e < 2 ^ 47 /\ ep_virtual e mod 4096 = 0).
  { rewrite !orb_true_iff in Hk. destruct Hk as [[[Hk|Hk]|Hk]|Hk]; exact (request_range _ _ _ Hk). }
  split; [apply Hrange|apply Hrange|done|]. intros He. specialize (Hal He). unfold aliased in Hal.
  by apply andb_prop in Hal as [_ ?].
Qed.

(** Everything an address knows, its page knows. *)
Lemma page_walk n t va a w x u pat m tr :
  translate_walk n t va w x u pat m = (PAGING_STATUS_OK, tr) -> (n <= 3)%nat ->
  va mod 4096 = 0 -> va <= a < va + 4096 ->
  translate_walk n t a w x u pat m =
    (PAGING_STATUS_OK,
     Translation (physical_address tr + (a - va)) (permissions tr) (memory_type tr) (level tr) (user tr)).
Proof.
  intros (e & l & w' & x' & u' & Hl & -> & Hall)%walk_same_leaf Hn Hva Ha.
  assert (E : level_page_size l = 4096 * 512 ^ Z.of_nat (l - 1)).
  { unfold level_page_size, level_shift. rewrite Z.shiftl_1_l. change 512 with (2 ^ 9). change 4096 with (2 ^ 12).
    rewrite <- Z.pow_mul_r, <- Z.pow_add_r by lia. f_equal. lia. }
  assert (Hpos : 0 < 512 ^ Z.of_nat (l - 1)) by lia.
  assert (Hq : a / 4096 = va / 4096) by div_lia.
  rewrite Hall by (by rewrite E, <- !Z.div_div, Hq by lia). f_equal.
  pose proof (fill_address e a l w' x' u' pat ltac:(lia)) as E1.
  pose proof (fill_address e va l w' x' u' pat ltac:(lia)) as E2. cbv zeta in E1, E2.
  assert (Hm : a mod level_page_size l = va mod level_page_size l + (a - va)).
  { rewrite E, !Z.rem_mul_r by lia. rewrite Hq. div_lia. }
  rewrite Hm in E1. unfold fill_translation in *. cbn [physical_address] in *. rewrite E1, E2.
  cbn [permissions memory_type level user]. f_equal. lia.
Qed.

Lemma page_in i va a s tr :
  translate_in i va s = (PAGING_STATUS_OK, tr) -> va mod 4096 = 0 -> va <= a < va + 4096 ->
  translate_in i a s =
    (PAGING_STATUS_OK,
     Translation (physical_address tr + (a - va)) (permissions tr) (memory_type tr) (level tr) (user tr)).
Proof.
  unfold translate_in, translate_address. intros Ht Hva Ha.
  destruct (address_is_canonical va) eqn:Hc; [|done]. cbn [negb] in Ht.
  assert (Hca : address_is_canonical a = true).
  { revert Hc. rewrite !canonical_range. change (2 ^ 47) with 140737488355328. change (2 ^ 64) with 18446744073709551616.
    clear -Hva Ha. div_lia. }
  rewrite Hca. cbn [negb]. exact (page_walk _ _ _ _ _ _ _ _ _ _ Ht (le_n _) Hva Ha).
Qed.

Lemma listed_page typed i s e a :
  listed typed i s e -> in_page e a ->
  exists ty, (typed = true -> ty = PAGING_MEMORY_WRITE_BACK) /\
    translate_in i a s =
      (PAGING_STATUS_OK, Translation (ep_physical e + (a - ep_virtual e)) (ep_permissions e) ty 1 true).
Proof.
  intros [_ Hal Hm _] Ha. destruct (translate_in i (ep_virtual e) s) as [st tr] eqn:Ht.
  unfold user_page_matches in Hm. rewrite !andb_true_iff, bool_decide_eq_true in Hm.
  destruct Hm as (((((-> & Hu) & Hp) & Hl) & Hph) & Hty). exists (memory_type tr). split.
  - intros ->. cbn [negb orb] in Hty. by apply bool_decide_eq_true in Hty.
  - rewrite (page_in i (ep_virtual e) a s tr Ht Hal Ha), Hu. repeat f_equal; lia.
Qed.

Lemma translate_in_ok i a s tr :
  translate_in i a s = (PAGING_STATUS_OK, tr) <->
  address_is_canonical a = true /\
  translation (sr_hierarchy (slot_at i s)) (mem_of s) a (pat_of s) = (PAGING_STATUS_OK, tr).
Proof.
  unfold translate_in, translate_address, translation. destruct (address_is_canonical a); cbn [negb].
  - split; [done|by intros [_ ?]].
  - by split; [|intros [? _]].
Qed.

(** The frame of a listed page is a whole one. *)
Lemma listed_frame typed i s e : listed typed i s e -> ep_physical e mod 4096 = 0.
Proof.
  intros [_ Hal Hm _]. destruct (translate_in i (ep_virtual e) s) as [st tr] eqn:Ht.
  unfold user_page_matches in Hm. rewrite !andb_true_iff, bool_decide_eq_true in Hm.
  destruct Hm as (((((-> & _) & _) & Hl) & Hph) & _). apply translate_in_ok in Ht as [_ Ht].
  apply walk_same_leaf in Ht as (f & l & w & x & u & Hk & -> & _).
  assert (l = 1%nat) as -> by (cbn [level fill_translation] in Hl; lia).
  rewrite fill_physical in Hph. pose proof (frame_is_page f) as [_ Hf]. clear -Hph Hf Hal. div_lia.
Qed.

Lemma walk_status n t va w x u pat m :
  (translate_walk n t va w x u pat m).1 = PAGING_STATUS_OK \/ (translate_walk n t va w x u pat m).1 = PAGING_STATUS_NOT_MAPPED.
Proof.
  revert t w x u. induction n as [|n IH]; intros t w x u; rewrite translate_walk_unfold; cbv zeta;
    (destruct (has _ PAGE_PRESENT); cbn [negb]; [|by right]); [by left|].
  destruct (has _ PAGE_HUGE); [by left|apply IH].
Qed.

Lemma null_page_absent i s a : not_mapped_in i 0 s = true -> 0 <= a < 4096 -> (translate_in i a s).1 = PAGING_STATUS_NOT_MAPPED.
Proof.
  unfold not_mapped_in. rewrite bool_decide_eq_true. unfold translate_in, translate_address. intros H0 Ha.
  assert (Hca : address_is_canonical a = true) by (apply canonical_range; lia).
  rewrite Hca. change (address_is_canonical 0) with true in H0. cbn [negb] in *.
  destruct (walk_status (PAGING_LEVEL_COUNT - 1) (root (sr_hierarchy (slot_at i s))) a true true true (pat_of s) (mem_of s))
    as [Hok|?]; [exfalso|done].
  destruct (translate_walk _ _ a _ _ _ _ _) as [st tr] eqn:Ht. cbn [fst] in Hok. subst st.
  apply walk_same_leaf in Ht as (e & l & w & x & u & Hl & _ & Hall). rewrite Hall in H0; [done|].
  assert (Hpos : 4096 <= level_page_size l).
  { unfold level_page_size, level_shift. rewrite Z.shiftl_1_l. change 4096 with (2 ^ 12). apply Z.pow_le_mono_r; lia. }
  rewrite (Z.div_small a), Z.div_0_l; lia.
Qed.

Lemma listed_isolated typed i s pages :
  Forall (listed typed i s) pages -> NoDup (ep_virtual <$> pages) -> not_mapped_in i 0 s = true ->
  write_execute_leaves (audit_hierarchy (sr_hierarchy (slot_at i s)) (mem_of s)) = 0 ->
  user_leaves (audit_hierarchy (sr_hierarchy (slot_at i s)) (mem_of s)) = Z.of_nat (length pages) ->
  isolated typed i pages s.
Proof.
  intros Hl Hv H0 Hwx Hn. rewrite Forall_forall in Hl.
  assert (Hpage : forall e a, e ∈ pages -> in_page e a -> _) by (intros e a He; exact (listed_page typed i s e a (Hl e He))).
  assert (Hreach : forall a tr, translate_in i a s = (PAGING_STATUS_OK, tr) -> user tr = true -> exists e, e ∈ pages /\ in_page e a).
  { intros a tr [Hc Ht]%translate_in_ok Hu. edestruct user_reach as (b & (e & -> & He)%list_elem_of_fmap & E);
      [|exact Hv| |exact Hc|exact Ht|exact Hu|].
    - by rewrite length_fmap.
    - intros b (e & -> & He)%list_elem_of_fmap. destruct (Hl e He) as [Hr Hal _ _]. split; [done|]. split; [done|].
      destruct (Hpage e (ep_virtual e) He) as (ty & _ & Et%translate_in_ok); [unfold in_page; lia|].
      eexists. split; [apply Et|done].
    - exists e. split; [done|]. destruct (Hl e He) as [_ Hal _ _]. unfold in_page. clear -E Hal. div_lia. }
  split; [exact Hreach|exact Hpage| | |by intros a; apply null_page_absent].
  - intros a tr [_ (e & k & w & x & u & Hin & ->)%walk_leaf]%translate_in_ok.
    destruct (audit_counts (sr_hierarchy (slot_at i s)) (mem_of s)) as [Ew _]. rewrite Hwx in Ew. symmetry in Ew.
    destruct (fill_flags e a k w x u (pat_of s)) as (-> & -> & _). exact (proj1 (countb_none _ _) Ew _ Hin).
  - intros e o He Hx Ho. destruct (Hl e He) as [_ _ _ Hc]. specialize (Hc Hx).
    destruct (translate_in i (ep_physical e) s) as [st tr] eqn:Ht. unfold supervisor_reads in Hc.
    rewrite !andb_true_iff, bool_decide_eq_true, negb_true_iff in Hc. destruct Hc as (((-> & Hu) & Hr) & Hph).
    rewrite (page_in i (ep_physical e) (ep_physical e + o) s tr Ht (listed_frame typed i s e (Hl e He)) ltac:(lia)).
    eexists. split; [done|]. cbn [user permissions physical_address]. split_and!; [done|lia|lia].
Qed.

Lemma isolated_private typed i s pages :
  Forall (listed typed i s) pages -> NoDup (ep_physical <$> pages) -> isolated typed i pages s -> private_frames i s.
Proof.
  intros Hl Hp [Hreach Hpage _ _ _] a b tra trb Ha Hb Hua Hub E. rewrite Forall_forall in Hl.
  destruct (Hreach a tra Ha Hua) as (e & He & Hia), (Hreach b trb Hb Hub) as (f & Hf & Hib).
  destruct (Hpage e a He Hia) as (ta & _ & Ea), (Hpage f b Hf Hib) as (tb & _ & Eb).
  rewrite Ea in Ha. rewrite Eb in Hb. injection Ha as <-. injection Hb as <-. cbn [physical_address] in E.
  pose proof (listed_frame typed i s e (Hl e He)). pose proof (listed_frame typed i s f (Hl f Hf)). unfold in_page in *.
  assert (Epf : ep_physical e = ep_physical f) by div_lia.
  assert (e = f) as <-; [|lia]. apply list_elem_of_lookup in He as (j & Hj), Hf as (k & Hk).
  assert (j = k) as ->; [|congruence].
  apply (NoDup_lookup _ j k (ep_physical e) Hp); rewrite list_lookup_fmap; [by rewrite Hj|by rewrite Hk, Epf].
Qed.

(** ** The three calls *)

Lemma resolve_lt token s i : resolve_process_space token s = Some i -> (i < length (process_spaces s))%nat.
Proof. destruct token as [t|]; [|done]. apply first_index_lt. Qed.

Lemma space_at_set i r s : (i < length (process_spaces s))%nat -> slot_at i (set_slot i r s) = r.
Proof. intros Hi. unfold slot_at. cbn [process_spaces set_slot]. by rewrite list_lookup_insert_eq. Qed.

(** Only the state of the slot changes. *)
Lemma slot_state_frame i st s :
  (i < length (process_spaces s))%nat ->
  let s' := set_slot_state i st s in
  sr_state (slot_at i s') = st /\ sr_hierarchy (slot_at i s') = sr_hierarchy (slot_at i s) /\ mem_of s' = mem_of s /\ pat_of s' = pat_of s.
Proof.
  intros Hi s'. unfold s', set_slot_state. rewrite space_at_set by done. split_and!; done.
Qed.

(** What is said of the translations of slot [i] is said of the state the call leaves. *)
Lemma translate_state i a st s : (i < length (process_spaces s))%nat -> translate_in i a (set_slot_state i st s) = translate_in i a s.
Proof. intros Hi. destruct (slot_state_frame i st s Hi) as (_ & Eh & Em & Ep). unfold translate_in. by rewrite Eh, Em, Ep. Qed.

Lemma isolated_state typed i pages st s :
  (i < length (process_spaces s))%nat -> isolated typed i pages s -> isolated typed i pages (set_slot_state i st s).
Proof.
  intros Hi [H1 H2 H3 H4 H5]. pose proof (fun a => translate_state i a st s Hi) as E.
  split; intros *; setoid_rewrite E; eauto.
Qed.

Lemma private_state i st s :
  (i < length (process_spaces s))%nat -> private_frames i s -> private_frames i (set_slot_state i st s).
Proof. intros Hi Hpf a b tra trb. rewrite !translate_state by done. apply Hpf. Qed.

Ltac refute H := match type of H with (if ?b then _ else _) = _ => destruct b eqn:?; [discriminate H|] end.

Ltac flags := repeat match goal with
  | H : (_ || _) = false |- _ => apply orb_false_elim in H as [? ?]
  | H : negb _ = false |- _ => apply negb_false_iff in H
  end.

Lemma distinct_nil : distinct [].
Proof. split; apply NoDup_nil_2. Qed.

Lemma validated i pages s :
  (i < length (process_spaces s))%nat -> Forall (listed true i s) pages -> distinct pages -> not_mapped_in i 0 s = true ->
  (write_execute_leaves (audit_hierarchy (sr_hierarchy (slot_at i s)) (mem_of s)) =? 0) = true ->
  (user_leaves (audit_hierarchy (sr_hierarchy (slot_at i s)) (mem_of s)) =? Z.of_nat (length pages)) = true ->
  let s' := set_slot_state i PAGING_PROCESS_SPACE_INSTALLED s in
  sr_state (slot_at i s') = PAGING_PROCESS_SPACE_INSTALLED /\ isolated true i pages s' /\ private_frames i s'.
Proof.
  intros Hi Hl [Hv Hp] H0 Hw%Z.eqb_eq Hn%Z.eqb_eq s'.
  assert (Hiso : isolated true i pages s) by (by apply listed_isolated).
  split; [by apply slot_state_frame|]. split; [by apply isolated_state|].
  apply private_state; [done|]. by apply (isolated_private true i s pages).
Qed.


(** The same of a process of the Linux personality. *)
Theorem linux_process_isolated token pages s token' s' :
  paging_process_validate_linux token (Some pages) s = (PAGING_STATUS_OK, token', s') ->
  exists i, resolve_process_space token s = Some i /\ sr_state (slot_at i s') = PAGING_PROCESS_SPACE_INSTALLED /\
    token' = Some (sync_process_space i s') /\ isolated true i pages s' /\ private_frames i s'.
Proof.
  unfold paging_process_validate_linux. destruct (resolve_process_space token s) as [i|] eqn:Hr; [|done].
  cbv zeta. intros Hv. refute Hv. refute Hv.
  destruct (linux_pages _ _ _ _ _) as [seen|] eqn:Hp; [|done]. refute Hv. injection Hv as <- <-. exists i.
  pose proof (resolve_lt _ _ _ Hr) as Hi. flags.
  destruct (linux_pages_listed _ _ _ _ _ _ distinct_nil Hp) as [Hl Hd].
  edestruct (validated i pages s) as (Hst & Hiso & Hpf); eauto.
Qed.

(** The pages of the first process: its image and its stack. *)
Definition first_pages (image : Z) (frames : list Z) : list paging_process_expected_page :=
  ExpectedPage PAGING_PROCESS_IMAGE_ADDRESS image PAGING_EXECUTE ::
  ((fun k : nat => ExpectedPage (PAGING_PROCESS_STACK_BASE + Z.of_nat k * PAGING_PAGE_SIZE) (default 0 (frames !! k)) PAGING_WRITE)
     <$> seq 0 (Z.to_nat PAGING_PROCESS_STACK_PAGES)).

Lemma user_page_weaken e r : user_page_matches true e r = true -> user_page_matches false e r = true.
Proof. destruct r. unfold user_page_matches. rewrite !andb_true_iff. intuition. Qed.

Lemma first_pages_virtual image frames :
  ep_virtual <$> first_pages image frames =
  [0x0000400000000000; 0x0000400000201000; 0x0000400000202000; 0x0000400000203000; 0x0000400000204000].
Proof. reflexivity. Qed.

(** The same of the first process, whose pages are its image and its stack: it reaches
    exactly these. *)
Theorem first_process_isolated token image frames s token' s' :
  paging_process_validate token image (Some frames) s = (PAGING_STATUS_OK, token', s') ->
  exists i, resolve_process_space token s = Some i /\ sr_state (slot_at i s') = PAGING_PROCESS_SPACE_INSTALLED /\
    token' = Some (sync_process_space i s') /\ isolated false i (first_pages image frames) s'.
Proof.
  unfold paging_process_validate. destruct (resolve_process_space token s) as [i|] eqn:Hr; [|done].
  cbv zeta. intros Hv. do 5 refute Hv. injection Hv as <- <-. exists i.
  pose proof (resolve_lt _ _ _ Hr) as Hi. flags.
  split; [done|]. split; [by apply slot_state_frame|]. split; [done|]. apply isolated_state; [done|].
  assert (Hall : Forall (listed false i s) (first_pages image frames)).
  { constructor.
    - split; [by vm_compute|by vm_compute|by apply user_page_weaken|done].
    - apply Forall_fmap, Forall_forall. intros k Hk.
      match goal with Hs : forallb _ (seq 0 _) = true |- _ =>
        pose proof (proj1 (forallb_forall _ _) Hs k (proj1 (list_elem_of_In _ _) Hk)) as Hm end.
      apply elem_of_seq in Hk. change (Z.to_nat PAGING_PROCESS_STACK_PAGES) with 4%nat in Hk.
      split; [| |exact Hm|done]; cbn [compose ep_virtual].
      + unfold PAGING_PROCESS_STACK_BASE, PAGING_PROCESS_STACK_GUARD, PAGING_PAGE_SIZE.
        change (2 ^ 47) with 140737488355328. lia.
      + change (PAGING_PROCESS_STACK_BASE) with (17179869697 * 4096). change PAGING_PAGE_SIZE with 4096. clear. div_lia. }
  apply listed_isolated; [done| |done|lia|].
  - rewrite first_pages_virtual. by apply (bool_decide_unpack _).
  - change (Z.of_nat (length (first_pages image frames))) with 5.
    match goal with Hn : (user_leaves _ =? _) = true |- _ => by apply Z.eqb_eq in Hn end.
Qed.
End Isolation.

Module IsolationSamples.
Import WindowSamples InstallSamples.
#[local] Existing Instances sample_processor sample_image.

(** A machine that has booted, with sixty-four free frames. *)
Definition sample_spaces : spaces registers :=
  Spaces
    (paging_initialize (Some pc_windows)
       (Boot (Paging zero_state (Hierarchy 0 0 0 0 0 false false) []
                (Memory ∅ (fresh_frames 64 4096) 0x2000 [] (TableFailure 0 0 false false)))
          [] [] 0 (Registers 0x500 0x0007040600070406 0x80000011 0x20))).2
    (repeat zero_space_runtime PAGING_PROCESS_SPACE_SLOTS) (repeat zero_alias_runtime PAGING_PROCESS_SPACE_SLOTS) ∅ 0 1 1 1 1.

Definition native_code : paging_process_expected_page := ExpectedPage PAGING_NATIVE_IMAGE_BASE 0x1030000 PAGING_EXECUTE.
Definition native_stack : paging_process_expected_page := ExpectedPage PAGING_NATIVE_STACK_BASE 0x1031000 PAGING_WRITE.

Definition map_page (kind : paging_process_mapping_kind) (e : paging_process_expected_page)
    (ts : option paging_process_space * spaces registers) : option paging_process_space * spaces registers :=
  let '(_, t, s) := paging_process_map_user_page ts.1 kind (ep_virtual e) (ep_physical e) (ep_permissions e) ts.2 in (t, s).

(** A new space with its code narrowed. *)
Definition sample_narrowed (s : spaces registers) : option paging_process_space * spaces registers :=
  let '(_, t, s) := paging_process_space_build true s in
  let '(_, _, s) := paging_process_alias_set_narrow t (Some [ep_physical native_code]) true s in (t, s).

(** Its code and stack mapped. *)
Definition sample_ready : option paging_process_space * spaces registers :=
  map_page PAGING_PROCESS_MAPPING_NATIVE_STACK native_stack
    (map_page PAGING_PROCESS_MAPPING_NATIVE_IMAGE native_code (sample_narrowed sample_spaces)).

Lemma sample_validates :
  (paging_process_validate_native sample_ready.1 (Some [native_code; native_stack]) sample_ready.2).1.1 = PAGING_STATUS_OK.
Proof. vm_compute. reflexivity. Qed.


(** A space with hand-written tables: the kernel's branch maps the frame of the code
    read-only, the user branch is given as words. *)
Definition user_table (parent index table : Z) : Z * Z := (entry_at parent index, table .| 7).
Definition user_code (table index frame : Z) : Z * Z := (entry_at table index, frame .| (PAGE_PRESENT .| PAGE_USER)).
Definition user_data (table index frame : Z) : Z * Z :=
  (entry_at table index, frame .| (((PAGE_PRESENT .| PAGE_USER) .| PAGE_WRITABLE) .| PAGE_NO_EXECUTE)).

Definition small_spaces (branch : list (Z * Z)) : spaces registers :=
  Spaces
    (Boot (Paging (PagingState 0x100000 1 0 0x0007040600070406 0x0007040600010406 1 true true true)
             (Hierarchy 0x100000 0 0 0 1 true false) []
             (Memory (list_to_map
                [(entry_at 0x1000 0, 0x2003); (entry_at 0x2000 0, 0x3003); (entry_at 0x3000 0, 0x4003);
                 (entry_at 0x4000 16, 0x10000 .| (PAGE_PRESENT .| PAGE_NO_EXECUTE))] ∪ list_to_map branch)
                (fresh_frames 4 4096) 0x100000 [] (TableFailure 0 0 false false)))
       [] [] 0 (Registers 0x500 0x0007040600070406 0x80000011 0x20))
    (SpaceRuntime (Hierarchy 0x1000 0 0 0 8 false true) 1 PAGING_PROCESS_SPACE_BUILDING true :: repeat zero_space_runtime 3)
    (AliasRuntime 1 {[0 := AliasPage 0x10000 0 0 (Some 0) false]} 1 1 true :: repeat zero_alias_runtime 3)
    ∅ 0 1 2 2 2.

Definition small_token : option paging_process_space := Some (ProcessSpace 0x1000 1 8 PAGING_PROCESS_SPACE_BUILDING).

Definition first_spaces : spaces registers :=
  small_spaces [user_table 0x1000 128 0x5000; user_table 0x5000 0 0x6000; user_table 0x6000 0 0x7000;
    user_table 0x6000 1 0x8000; user_code 0x7000 0 0x10000; user_data 0x8000 1 0x11000; user_data 0x8000 2 0x12000;
    user_data 0x8000 3 0x13000; user_data 0x8000 4 0x14000].

Definition linux_spaces : spaces registers :=
  small_spaces [user_table 0x1000 128 0x5000; user_table 0x5000 0 0x6000; user_table 0x6000 8 0x7000;
    user_table 0x6000 9 0x8000; user_code 0x7000 1 0x10000; user_data 0x8000 1 0x11000].

Definition first_stack : list Z := [0x11000; 0x12000; 0x13000; 0x14000].
Definition linux_image : list paging_process_expected_page :=
  [ExpectedPage 0x0000400001001000 0x10000 PAGING_EXECUTE; ExpectedPage PAGING_LINUX_STACK_BASE 0x11000 PAGING_WRITE].

Lemma first_validates : (paging_process_validate small_token 0x10000 (Some first_stack) first_spaces).1.1 = PAGING_STATUS_OK.
Proof. vm_compute. reflexivity. Qed.

Lemma linux_validates : (paging_process_validate_linux small_token (Some linux_image) linux_spaces).1.1 = PAGING_STATUS_OK.
Proof. vm_compute. reflexivity. Qed.

Lemma first_process_isolated_witness :
  exists i, isolated false i (first_pages 0x10000 first_stack)
    (paging_process_validate small_token 0x10000 (Some first_stack) first_spaces).2.
Proof.
  edestruct (first_process_isolated small_token 0x10000 first_stack first_spaces) as (i & _ & _ & _ & H).
  - rewrite (surjective_pairing (paging_process_validate _ _ _ _)) at 1.
    rewrite (surjective_pairing (paging_process_validate _ _ _ _).1) at 1.
    rewrite first_validates. reflexivity.
  - exists i. exact H.
Defined.

Lemma linux_process_isolated_witness :
  exists i, isolated true i linux_image (paging_process_validate_linux small_token (Some linux_image) linux_spaces).2.
Proof.
  edestruct (linux_process_isolated small_token linux_image linux_spaces) as (i & _ & _ & _ & H & _).
  - rewrite (surjective_pairing (paging_process_validate_linux _ _ _)) at 1.
    rewrite (surjective_pairing (paging_process_validate_linux _ _ _).1) at 1.
    rewrite linux_validates. reflexivity.
  - exists i. exact H.
Defined.
End IsolationSamples.
