(* ===== verification/PagingSwitch.v ===== *)
(** * Which address space runs ([paging_process_activate] and the other process calls)

    The life of the process slots as a step relation.  The processor always runs on the
    kernel's hierarchy or on that of the one active slot; a slot runs only while its code
    is narrowed; and a token is good for one life of its slot. *)

From stdpp Require Import base option list numbers gmap relations.
From S2P Require Import Prelude Frames Paging PagingBoot PagingInstall PagingProcess.

(** ** Hierarchies

    Work on a hierarchy keeps its root and leaves [cr3] alone; with [reload] it may load the
    root of the live one. *)

Record tame (reload : bool) (h : hierarchy) (m : memory) (h' : hierarchy) (m' : memory) : Prop := {
  tame_root : root h' = root h;
  tame_live : live h' = live h;
  tame_cr3 : cr3 m' = cr3 m \/ (reload = true /\ live h = true) /\ cr3 m' = root h
}.

Create HintDb tame.

Section Tame.
Context (b : bool).

Lemma tame_refl h m : tame b h m h m.
Proof. split; auto. Qed.

Lemma tame_trans h1 m1 h2 m2 h3 m3 : tame b h1 m1 h2 m2 -> tame b h2 m2 h3 m3 -> tame b h1 m1 h3 m3.
Proof.
  intros [R1 L1 C1] [R2 L2 C2]. split; [congruence|congruence|].
  rewrite L1, R1 in C2. destruct C2 as [-> | C2]; [exact C1|by right].
Qed.

(** Where only memory changes, and [cr3] does not. *)
Lemma tame_mem h m h' m' m'' : tame b h m h' m' -> cr3 m'' = cr3 m' -> tame b h m h' m''.
Proof. intros [R L E] Hc. split; [done|done|by rewrite Hc]. Qed.

Lemma invalidate_cr3 h va m : cr3 (invalidate h va m) = cr3 m.
Proof. unfold invalidate. by destruct (live h || _). Qed.

Lemma tame_word h m h' m' a v : tame b h m h' m' -> tame b h m h' (set_word a v m').
Proof. intros Ht. by apply (tame_mem _ _ _ _ _ Ht). Qed.

Lemma tame_invalidate h m h' m' k va : tame b h m h' m' -> tame b h m h' (invalidate k va m').
Proof. intros Ht. apply (tame_mem _ _ _ _ _ Ht), invalidate_cr3. Qed.

Lemma tame_allocate h m : tame b h m (allocate_table h m).1.2 (allocate_table h m).2.
Proof.
  unfold allocate_table. cbv zeta. set (m0 := if failure_armed (failure m) && process h then _ else m).
  assert (Hm0 : cr3 m0 = cr3 m) by (unfold m0; by destruct (_ && _)). clearbody m0.
  assert (Hf : forall frame used m1, cr3 m1 = cr3 m0 ->
    let r := if RSD_EARLY_PHYSICAL_LIMIT <=? frame
      then (inl PAGING_STATUS_PHYSICAL_TOO_WIDE, count_tables used (table_frames h) h, m1)
      else (inr frame, count_tables used (u64 (table_frames h + 1)) h, zero_table frame m1) in
    tame b h m r.1.2 r.2).
  { intros frame used m1 H1. cbv zeta. destruct (_ <=? _); split; [done|done|left|done|done|left]; cbn; congruence. }
  destruct (_ && _); [split; [done|done|by left]|]. destruct (negb _).
  - destruct (_ =? _); [split; [done|done|by left]|by apply Hf].
  - destruct (frame_allocate _ _) as [[[] out] f]; try (split; [done|done|by left]). by apply Hf.
Qed.

Lemma tame_release_table h t m : tame b h m (release_table h t m).1 (release_table h t m).2.
Proof. unfold release_table. split; [done|done|left]. by destruct (_ =? _). Qed.

Lemma tame_entry_walk n target va create table h m :
  tame b h m (entry_walk n target va create table h m).1.2 (entry_walk n target va create table h m).2.
Proof.
  revert table h m. induction n as [|n IH]; intros table h m; cbn [entry_walk]; [apply tame_refl|]. cbv zeta.
  destruct (negb _).
  - destruct (negb create); [apply tame_refl|]. pose proof (tame_allocate h m) as Ha.
    destruct (allocate_table h m) as [[[st|next] h1] m1]; cbn [fst snd] in Ha |- *; [done|].
    eapply tame_trans; [|apply IH]. by apply tame_word.
  - destruct (has _ PAGE_HUGE); [apply tame_refl|apply IH].
Qed.

Lemma tame_user_walk n va table h m : tame b h m (user_walk n va table h m).1.2 (user_walk n va table h m).2.
Proof.
  revert table h m. induction n as [|n IH]; intros table h m; cbn [user_walk]; [apply tame_refl|]. cbv zeta.
  destruct (negb (has _ PAGE_PRESENT)).
  - pose proof (tame_allocate h m) as Ha.
    destruct (allocate_table h m) as [[[st|next] h1] m1]; cbn [fst snd] in Ha |- *; [done|].
    eapply tame_trans; [|apply IH]. by apply tame_word.
  - destruct (_ || _); [apply tame_refl|apply IH].
Qed.

Lemma tame_reclaim_path path l va h m : tame b h m (reclaim_path path l va h m).1 (reclaim_path path l va h m).2.
Proof.
  revert l h m. induction path as [|t path IH]; intros l h m; [apply tame_refl|]. cbn [reclaim_path].
  destruct path as [|parent path]; [apply tame_refl|]. destruct (negb _); [apply tame_refl|]. cbv zeta.
  set (m1 := set_word _ _ m). pose proof (tame_release_table h t m1) as Hr.
  destruct (release_table h t m1) as [h2 m2]. cbn [fst snd] in Hr.
  eapply tame_trans; [|apply IH]. eapply tame_trans; [|exact Hr]. apply tame_word, tame_refl.
Qed.

Lemma tame_reclaim h va m : tame b h m (reclaim_empty_tables h va m).1 (reclaim_empty_tables h va m).2.
Proof. unfold reclaim_empty_tables. destruct (table_path _ _ _ _); [apply tame_reclaim_path|apply tame_refl]. Qed.

Lemma tame_clear_run n va l h m : tame b h m (clear_run n va l h m).1 (clear_run n va l h m).2.
Proof.
  revert va h m. induction n as [|n IH]; intros va h m; cbn [clear_run]; [apply tame_refl|].
  pose proof (tame_entry_walk (PAGING_LEVEL_COUNT - l) l va false (root h) h m) as He. fold (entry_for h va l false m) in He.
  destruct (entry_for h va l false m) as [[[st|e] h1] m1]; cbn [fst snd] in He.
  - eapply tame_trans; [exact He|apply IH].
  - cbv zeta. destruct (l =? 1)%nat.
    + set (m2 := invalidate _ _ _). pose proof (tame_reclaim h1 va m2) as Hr.
      destruct (reclaim_empty_tables h1 va m2) as [h3 m3]. cbn [fst snd] in Hr.
      eapply tame_trans; [|apply IH]. eapply tame_trans; [|exact Hr]. by apply tame_invalidate, tame_word.
    + eapply tame_trans; [|apply IH]. by apply tame_invalidate, tame_word.
Qed.

Lemma tame_fill_run n va pa o p l h m : tame b h m (fill_run n va pa o p l h m).1.2 (fill_run n va pa o p l h m).2.
Proof.
  revert o h m. induction n as [|n IH]; intros o h m; cbn [fill_run]; [apply tame_refl|].
  pose proof (tame_entry_walk (PAGING_LEVEL_COUNT - l) l (va + o) true (root h) h m) as He. fold (entry_for h (va + o) l true m) in He.
  destruct (entry_for h (va + o) l true m) as [[[st|e] h1] m1]; cbn [fst snd] in He.
  - pose proof (tame_clear_run (steps o (level_page_size l)) va l h1 m1) as Hc. fold (clear_range h1 va o l m1) in Hc.
    destruct (clear_range h1 va o l m1) as [h2 m2]. cbn [fst snd] in *. by apply (tame_trans _ _ _ _ _ _ He).
  - cbv zeta. eapply tame_trans; [|apply IH]. by apply tame_invalidate, tame_word.
Qed.

Lemma tame_map_range h va pa len p l m :
  tame b h m (map_range h va pa len p l m).1.2 (map_range h va pa len p l m).2.
Proof.
  unfold map_range. cbv zeta.
  destruct (validate_permissions p); try apply tame_refl.
  destruct (validate_virtual_range _ _ _); try apply tame_refl.
  destruct (validate_physical_range _ _ _); try apply tame_refl.
  destruct (check_run _ _ _ _ _); try apply tame_refl. apply tame_fill_run.
Qed.

Lemma tame_unmap_range h va len m : tame b h m (unmap_range h va len m).1.2 (unmap_range h va len m).2.
Proof.
  unfold unmap_range. destruct (validate_virtual_range _ _ _); try apply tame_refl.
  destruct (require_mapped_range _ _ _ _); try apply tame_refl. unfold clear_range.
  pose proof (tame_clear_run (steps len (level_page_size 1)) va 1 h m) as Hc.
  by destruct (clear_run _ _ _ _ _).
Qed.

Lemma apply_run_cr3 n va flags h m : cr3 (apply_run n va flags h m) = cr3 m.
Proof.
  revert va m. induction n as [|n IH]; intros va m; cbn [apply_run]; [done|]. rewrite IH.
  destruct (find_entry _ _ _ _); [done|]. by rewrite invalidate_cr3.
Qed.

Lemma protect_range_cr3 h va len p pat m : cr3 (protect_range h va len p pat m).2 = cr3 m.
Proof.
  unfold protect_range. cbv zeta.
  destruct (validate_permissions p); try done. destruct (validate_virtual_range _ _ _); try done.
  destruct (require_mapped_range _ _ _ _); try done. destruct (same_type_run _ _ _ _ _ _); try done. apply apply_run_cr3.
Qed.

Lemma tame_replay l h m : tame b h m (replay_supervisor_intent l h m).1.2 (replay_supervisor_intent l h m).2.
Proof.
  revert h m. induction l as [|x l IH]; intros h m; cbn [replay_supervisor_intent]; [apply tame_refl|].
  pose proof (tame_map_range h (in_virtual x) (in_physical x) (in_length x) (in_permissions x) 1 m) as Ht.
  destruct (map_range _ _ _ _ _ _ _) as [[[] h1] m1]; cbn [fst snd] in Ht |- *; try exact Ht.
  exact (tame_trans _ _ _ _ _ _ Ht (IH h1 m1)).
Qed.

Section Image.
Context `{!kernel_image}.

Lemma tame_build_pages n a sections windows h m :
  tame b h m (build_pages n a sections windows h m).1.2 (build_pages n a sections windows h m).2.
Proof.
  revert a h m. induction n as [|n IH]; intros a h m; cbn [build_pages]; [apply tame_refl|].
  destruct (a =? 0); [apply IH|].
  pose proof (tame_map_range h a a PAGING_PAGE_SIZE (section_permissions sections windows a) 1 m) as Ht.
  destruct (map_range _ _ _ _ _ _ _) as [[[] h1] m1]; cbn [fst snd] in Ht |- *; try exact Ht.
  exact (tame_trans _ _ _ _ _ _ Ht (IH _ h1 m1)).
Qed.

Lemma tame_build_regions n base sections windows fine h m :
  tame b h m (build_regions n base sections windows fine h m).1.2 (build_regions n base sections windows fine h m).2.
Proof.
  revert base fine h m. induction n as [|n IH]; intros base fine h m; cbn [build_regions]; [apply tame_refl|]. cbv zeta.
  destruct (negb _).
  - pose proof (tame_map_range h base base PAGING_HUGE_PAGE_SIZE PAGING_WRITE 2 m) as Ht.
    destruct (map_range _ _ _ _ _ _ _) as [[[] h1] m1]; cbn [fst snd] in Ht |- *; try exact Ht.
    exact (tame_trans _ _ _ _ _ _ Ht (IH _ _ h1 m1)).
  - pose proof (tame_build_pages (Z.to_nat (PAGING_HUGE_PAGE_SIZE / PAGING_PAGE_SIZE)) base sections windows h m) as Ht.
    destruct (build_pages _ _ _ _ _ _) as [[[] h1] m1]; cbn [fst snd] in Ht |- *; try exact Ht.
    exact (tame_trans _ _ _ _ _ _ Ht (IH _ _ h1 m1)).
Qed.
End Image.

Lemma tame_fold {A} (f : hierarchy * memory -> A -> hierarchy * memory) l h m :
  (forall h m a, tame b h m (f (h, m) a).1 (f (h, m) a).2) -> tame b h m (foldl f (h, m) l).1 (foldl f (h, m) l).2.
Proof.
  intros Hf. revert h m. induction l as [|a l IH]; intros h m; cbn [foldl]; [apply tame_refl|].
  pose proof (Hf h m a) as Ha. destruct (f (h, m) a) as [h1 m1]. exact (tame_trans _ _ _ _ _ _ Ha (IH h1 m1)).
Qed.

Lemma tame_release_tree n table h m : tame b h m (release_table_tree n table h m).1 (release_table_tree n table h m).2.
Proof.
  revert table h m. induction n as [|n IH]; intros table h m; cbn [release_table_tree]; [apply tame_release_table|].
  match goal with |- context [foldl ?f (h, m) ?l] => pose proof (tame_fold f l h m) as Hf; destruct (foldl f (h, m) l) as [h1 m1] end.
  eapply tame_trans; [apply Hf|apply tame_release_table]. intros h0 m0 i. cbv zeta.
  destruct (_ && _); [apply IH|apply tame_refl].
Qed.

End Tame.

Arguments tame_trans {b}.
Arguments tame_mem {b}.

Lemma tame_flush h m h' m' : tame true h m h' m' -> tame true h m h' (flush_hierarchy h' m').
Proof.
  intros [R L E]. split; [done|done|]. unfold flush_hierarchy. rewrite L, R.
  destruct (live h); [by right|exact E].
Qed.

#[export] Hint Resolve tame_refl tame_word tame_invalidate tame_flush : tame.

(** ** Narrowed pages *)

Lemma split_entries_cr3 table base flags m : cr3 (split_entries table base flags m) = cr3 m.
Proof.
  unfold split_entries. generalize (seqZ 0 PAGING_ENTRIES_PER_TABLE) as l. intros l. revert m.
  induction l as [|i l IH]; intros m; cbn [foldl]; [done|]. by rewrite IH.
Qed.

Lemma tame_narrow h pa pat m :
  tame true h m (narrow_identity_alias h pa pat m).1.2 (narrow_identity_alias h pa pat m).2.
Proof.
  unfold narrow_identity_alias. destruct (negb _); [apply tame_refl|].
  destruct (find_entry h pa 2 m) as [st|d]; [apply tame_refl|]. cbv zeta.
  match goal with |- context [match ?e with inl _ => _ | inr _ => _ end] => set (sp := e) end.
  assert (Hs : match sp with inl (_, h1, m1) => tame true h m h1 m1 | inr (_, _, _, h1, m1) => tame true h m h1 m1 end).
  { unfold sp. destruct (_ && _); [|apply tame_refl]. pose proof (tame_allocate true h m) as Ha.
    destruct (allocate_table h m) as [[[st|t] h1] m1]; cbn [fst snd] in Ha; [done|].
    apply tame_flush, tame_invalidate, tame_word. apply (tame_mem _ _ _ _ _ Ha), split_entries_cr3. }
  destruct sp as [[[st h1] m1]|[[[[saved table] split] h1] m1]]; [done|].
  destruct (find_entry h1 pa 1 m1) as [st|leaf]; [done|]. destruct (negb (has _ PAGE_PRESENT)); [done|].
  destruct (negb (identity_read _ _ _)); cbn [fst snd]; by apply tame_flush, tame_invalidate, tame_word.
Qed.

Lemma tame_restore h pa saved table split m :
  tame true h m (restore_identity_alias h pa saved table split m).1.2 (restore_identity_alias h pa saved table split m).2.
Proof.
  unfold restore_identity_alias. destruct (find_entry _ _ _ _) as [st|e]; [apply tame_refl|]. cbv zeta.
  destruct (negb _); [apply tame_refl|]. destruct (split && _); [apply tame_refl|].
  set (m1 := flush_hierarchy _ _). assert (H1 : tame true h m h m1) by (unfold m1; auto with tame).
  destruct split; [|done]. pose proof (tame_release_table true h table m1) as Hr. destruct (release_table h table m1) as [h2 m2].
  exact (tame_trans _ _ _ _ _ _ H1 Hr).
Qed.

(** ** The slots as an abstract machine *)

(** What is seen of an owned slot: its state, its generation and its root. *)
Abbreviation slot_seen := (option (paging_process_space_state * Z * Z)).

Record machine := Machine {
  m_slots : list slot_seen;
  m_narrowed : list bool;
  m_cr3 : Z;
  m_kernel : Z;
  m_next : Z
}.

Definition set_seen (i : nat) (x : slot_seen) (a : machine) : machine :=
  Machine (<[i := x]> (m_slots a)) (m_narrowed a) (m_cr3 a) (m_kernel a) (m_next a).
Definition set_narrowed (i : nat) (b : bool) (a : machine) : machine :=
  Machine (m_slots a) (<[i := b]> (m_narrowed a)) (m_cr3 a) (m_kernel a) (m_next a).
Definition run_on (r : Z) (a : machine) : machine :=
  Machine (m_slots a) (m_narrowed a) r (m_kernel a) (m_next a).
Definition count_build (a : machine) : machine :=
  Machine (m_slots a) (m_narrowed a) (m_cr3 a) (m_kernel a) (next_counter (m_next a)).

(** The kernel builds, narrows, validates and releases from its own hierarchy; a space is
    entered from there when it is installed and narrowed, and left to there. *)
Inductive machine_step (a : machine) : machine -> Prop :=
| ms_idle : machine_step a a
| ms_failed : machine_step a (count_build a)
| ms_build i r :
    m_slots a !! i = Some None -> m_narrowed a !! i = Some false -> m_cr3 a = m_kernel a ->
    machine_step a (count_build (set_seen i (Some (PAGING_PROCESS_SPACE_BUILDING, m_next a, r)) a))
| ms_narrow i g r :
    m_slots a !! i = Some (Some (PAGING_PROCESS_SPACE_BUILDING, g, r)) -> m_narrowed a !! i = Some false ->
    m_cr3 a = m_kernel a -> machine_step a (set_narrowed i true a)
| ms_validate i g r :
    m_slots a !! i = Some (Some (PAGING_PROCESS_SPACE_BUILDING, g, r)) -> m_narrowed a !! i = Some true ->
    machine_step a (set_seen i (Some (PAGING_PROCESS_SPACE_INSTALLED, g, r)) a)
| ms_activate i g r :
    m_slots a !! i = Some (Some (PAGING_PROCESS_SPACE_INSTALLED, g, r)) -> m_narrowed a !! i = Some true ->
    m_cr3 a = m_kernel a ->
    machine_step a (run_on r (set_seen i (Some (PAGING_PROCESS_SPACE_ACTIVE, g, r)) a))
| ms_leave i g r :
    m_slots a !! i = Some (Some (PAGING_PROCESS_SPACE_ACTIVE, g, r)) -> m_cr3 a = r ->
    machine_step a (run_on (m_kernel a) (set_seen i (Some (PAGING_PROCESS_SPACE_INSTALLED, g, r)) a))
| ms_widen i st g r :
    m_slots a !! i = Some (Some (st, g, r)) -> st <> PAGING_PROCESS_SPACE_ACTIVE -> m_cr3 a = m_kernel a ->
    machine_step a (set_narrowed i false a)
| ms_release i st g r :
    m_slots a !! i = Some (Some (st, g, r)) -> st <> PAGING_PROCESS_SPACE_ACTIVE -> m_narrowed a !! i = Some false ->
    m_cr3 a = m_kernel a -> machine_step a (set_seen i None a).

(** ** What the machine promises *)

Definition active_at (a : machine) (i : nat) : Prop :=
  exists g r, m_slots a !! i = Some (Some (PAGING_PROCESS_SPACE_ACTIVE, g, r)).

(** The hierarchy of a slot is not the kernel's: the allocator hands out every frame once. *)
Definition apart (a : machine) : Prop :=
  forall i st g r, m_slots a !! i = Some (Some (st, g, r)) -> r <> m_kernel a.

Record machine_ok (a : machine) : Prop := {
  mo_kernel : (forall i, ~ active_at a i) -> m_cr3 a = m_kernel a;
  mo_runs i g r : m_slots a !! i = Some (Some (PAGING_PROCESS_SPACE_ACTIVE, g, r)) -> m_cr3 a = r;
  mo_one i j : active_at a i -> active_at a j -> i = j;
  mo_sealed i : active_at a i -> m_narrowed a !! i = Some true;
  mo_owner i : m_narrowed a !! i = Some true -> exists x, m_slots a !! i = Some (Some x)
}.

Lemma lookup_insert_cases {A} (l : list A) i j x y :
  <[i := x]> l !! j = Some y -> j = i /\ y = x \/ j <> i /\ l !! j = Some y.
Proof.
  destruct (decide (i = j)) as [-> |Hne].
  - intros E. left. split; [done|]. apply list_lookup_insert_Some in E as [(_ & -> & _)|(? & _)]; done.
  - rewrite list_lookup_insert_ne by done. right. split; [congruence|done].
Qed.

(** Off the kernel's hierarchy nothing can be active. *)
Lemma kernel_idle a i : machine_ok a -> apart a -> m_cr3 a = m_kernel a -> ~ active_at a i.
Proof. intros Hok Hap E (g & r & Hi). pose proof (mo_runs a Hok i g r Hi). by apply (Hap i _ g r Hi); congruence. Qed.

(** A slot changes and nothing becomes active. *)
Lemma ok_set_seen a i x :
  machine_ok a -> m_cr3 a = m_kernel a -> (forall j, ~ active_at a j) ->
  (forall g r, x <> Some (PAGING_PROCESS_SPACE_ACTIVE, g, r)) -> (x = None -> m_narrowed a !! i <> Some true) ->
  machine_ok (set_seen i x a).
Proof.
  intros Hok E Hno Hx Hn.
  assert (Hno' : forall j, ~ active_at (set_seen i x a) j).
  { intros j (g & r & [[-> E']|[_ E']]%lookup_insert_cases); [by apply (Hx g r)|apply (Hno j); by exists g, r]. }
  split; [done| |by intros ?? ?%Hno'|by intros ? ?%Hno'|].
  - intros j g r Hj. exfalso. apply (Hno' j). by exists g, r.
  - intros j Hj. cbn [set_seen m_slots m_narrowed] in *. destruct (mo_owner a Hok j Hj) as (y & Hy).
    destruct (decide (i = j)) as [<- |Hne]; [|exists y; by rewrite list_lookup_insert_ne].
    destruct x as [x|]; [exists x|by destruct Hn]. rewrite list_lookup_insert_eq; [done|]. by apply lookup_lt_Some in Hy.
Qed.

Lemma ok_count a : machine_ok a -> machine_ok (count_build a).
Proof. by intros [H1 H2 H3 H4 H5]. Qed.

(** An owned slot stays owned. *)
Lemma owner_kept a i x y k :
  machine_ok a -> m_slots a !! i = Some (Some y) -> m_narrowed a !! k = Some true ->
  exists z, <[i := Some x]> (m_slots a) !! k = Some (Some z).
Proof.
  intros Hok Hi Hk. destruct (decide (i = k)) as [<- |Hne].
  - exists x. rewrite list_lookup_insert_eq; [done|]. by apply lookup_lt_Some in Hi.
  - rewrite list_lookup_insert_ne by done. by apply (mo_owner a Hok).
Qed.

(** With nothing active, aliases come and go. *)
Lemma ok_set_narrowed a i b :
  machine_ok a -> (forall j, ~ active_at a j) -> (b = true -> exists x, m_slots a !! i = Some (Some x)) ->
  machine_ok (set_narrowed i b a).
Proof.
  intros Hok Hno Hb. split; [exact (mo_kernel a Hok)| |by intros ?? ?%Hno|by intros ? ?%Hno|].
  - intros j g r Hj. exfalso. apply (Hno j). by exists g, r.
  - intros j [[-> ?]|[_ Hj]]%lookup_insert_cases; [by apply Hb|by apply (mo_owner a Hok)].
Qed.

Lemma ok_installed a i g r :
  machine_ok a -> m_slots a !! i = Some (Some (PAGING_PROCESS_SPACE_BUILDING, g, r)) ->
  machine_ok (set_seen i (Some (PAGING_PROCESS_SPACE_INSTALLED, g, r)) a).
Proof.
  intros Hok Hi. set (b := set_seen _ _ a).
  assert (Hact : forall j, active_at b j <-> active_at a j).
  { intros j. split.
    - intros (g' & r' & [[-> E']|[_ E']]%lookup_insert_cases); [done|by exists g', r'].
    - intros (g' & r' & E'). exists g', r'. cbn [b set_seen m_slots]. rewrite list_lookup_insert_ne; [done|]. congruence. }
  split.
  - intros Hno. apply (mo_kernel a Hok). intros j Hj. by apply (Hno j), Hact.
  - intros j g' r' [[-> E']|[_ E']]%lookup_insert_cases; [done|by apply (mo_runs a Hok j g')].
  - intros j k Hj%Hact Hk%Hact. by apply (mo_one a Hok).
  - intros j Hj%Hact. by apply (mo_sealed a Hok).
  - intros j Hj. by eapply owner_kept.
Qed.

Lemma ok_activated a i g r :
  machine_ok a -> (forall j, ~ active_at a j) ->
  m_slots a !! i = Some (Some (PAGING_PROCESS_SPACE_INSTALLED, g, r)) -> m_narrowed a !! i = Some true ->
  machine_ok (run_on r (set_seen i (Some (PAGING_PROCESS_SPACE_ACTIVE, g, r)) a)).
Proof.
  intros Hok Hno Hi Hn. set (b := run_on _ _).
  assert (Honly : forall j, active_at b j -> j = i).
  { intros j (g' & r' & [[-> E']|[_ E']]%lookup_insert_cases); [done|]. exfalso. apply (Hno j). by exists g', r'. }
  assert (Hin : active_at b i).
  { exists g, r. cbn [b run_on set_seen m_slots]. rewrite list_lookup_insert_eq; [done|]. by apply lookup_lt_Some in Hi. }
  split.
  - intros Hn'. by destruct (Hn' i).
  - intros j g' r' [[_ [= _ ->]]|[Hne Hj]]%lookup_insert_cases; [done|]. exfalso. apply (Hno j). by exists g', r'.
  - intros j k Hj%Honly Hk%Honly. congruence.
  - by intros j ->%Honly.
  - intros j Hj. by eapply owner_kept.
Qed.

Lemma ok_left a i g r :
  machine_ok a -> m_slots a !! i = Some (Some (PAGING_PROCESS_SPACE_ACTIVE, g, r)) ->
  machine_ok (run_on (m_kernel a) (set_seen i (Some (PAGING_PROCESS_SPACE_INSTALLED, g, r)) a)).
Proof.
  intros Hok Hi. set (b := run_on _ _).
  assert (Hno : forall j, ~ active_at b j).
  { intros j (g' & r' & [[-> E']|[Hne E']]%lookup_insert_cases); [done|]. apply Hne.
    apply (mo_one a Hok); [by exists g', r'|by exists g, r]. }
  split; [done| |by intros ?? ?%Hno|by intros ? ?%Hno|].
  - intros j g' r' Hj. exfalso. apply (Hno j). by exists g', r'.
  - intros j Hj. by eapply owner_kept.
Qed.

Lemma machine_step_ok a b : machine_ok a -> apart a -> machine_step a b -> machine_ok b.
Proof.
  intros Hok Hap Hs. pose proof (fun j => kernel_idle a j Hok Hap) as Hidle.
  destruct Hs as [| |i r Hi Hn E|i g r Hi Hn E|i g r Hi Hn|i g r Hi Hn E|i g r Hi E|i st g r Hi Hst E|i st g r Hi Hst Hn E].
  - done.
  - by apply ok_count.
  - apply ok_count, ok_set_seen; try done. by intros j; apply Hidle.
  - apply ok_set_narrowed; [done|by intros j; apply Hidle|by eauto].
  - by apply ok_installed.
  - apply ok_activated; try done. by intros j; apply Hidle.
  - by apply ok_left.
  - apply ok_set_narrowed; [done|by intros j; apply Hidle|done].
  - apply ok_set_seen; try done; [by intros j; apply Hidle|]. intros _. by rewrite Hn.
Qed.

(** Every life of a slot has a generation of its own, as long as the counter does not
    wrap. *)
Record lives_ok (a : machine) : Prop := {
  lo_next : 0 < m_next a;
  lo_used i st g r : m_slots a !! i = Some (Some (st, g, r)) -> g < m_next a;
  lo_one i j st st' g r r' :
    m_slots a !! i = Some (Some (st, g, r)) -> m_slots a !! j = Some (Some (st', g, r')) -> i = j
}.

(** Generation [g] is over. *)
Definition over (g : Z) (a : machine) : Prop :=
  g < m_next a /\ forall i st g' r, m_slots a !! i = Some (Some (st, g', r)) -> g' <> g.

Lemma next_counter_small n : 0 < n -> n + 1 < 2 ^ 64 -> next_counter n = n + 1.
Proof.
  intros Hn Hb. unfold next_counter. cbv zeta. rewrite wrap_small by (unfold fits; lia).
  destruct (Z.eqb_spec (n + 1) 0); [lia|done].
Qed.

(** What a step does to the generations: those of the slots it leaves owned, and the next. *)
Lemma step_generations a b :
  machine_step a b -> 0 < m_next a -> m_next a + 1 < 2 ^ 64 ->
  m_next a <= m_next b <= m_next a + 1 /\
  (exists k, m_next b = m_next a + 1 /\ (forall i st g r, m_slots b !! i = Some (Some (st, g, r)) ->
     i = k /\ g = m_next a \/ i <> k /\ m_slots a !! i = Some (Some (st, g, r)))) \/
  m_next a <= m_next b <= m_next a + 1 /\
  forall i st g r, m_slots b !! i = Some (Some (st, g, r)) -> exists st' r', m_slots a !! i = Some (Some (st', g, r')).
Proof.
  intros Hs H0 Hb. pose proof (next_counter_small _ H0 Hb) as Hn.
  destruct Hs as [| |i r Hi _ _|i g r Hi _ _|i g r Hi _|i g r Hi _ _|i g r Hi _|i st g r Hi _ _|i st g r Hi _ _ _];
    cbn [m_next m_slots count_build set_seen set_narrowed run_on]; rewrite ?Hn.
  3: { left. split; [lia|]. exists i. split; [done|]. intros j st g r' [[-> [= -> -> ->]]|?]%lookup_insert_cases; auto. }
  all: right; (split; [lia|]); try (by eauto).
  all: intros j st' g' r' [[-> E]|[_ E]]%lookup_insert_cases; [|by eauto].
  4: done.
  all: injection E as -> -> ->; eauto.
Qed.

Lemma lives_step a b : lives_ok a -> machine_step a b -> m_next a + 1 < 2 ^ 64 -> lives_ok b.
Proof.
  intros [H0 Hu H1] Hs Hb. destruct (step_generations a b Hs H0 Hb) as [[Hn (k & En & Hsl)]|[Hn Hsl]].
  - split; [lia| |].
    + intros i st g r [[_ ->]|[_ E]]%Hsl; [lia|]. specialize (Hu _ _ _ _ E). lia.
    + intros i j st st' g r r' [[-> ->]|[Hi E]]%Hsl [[-> E2]|[Hj E']]%Hsl; [done| | |by eapply H1].
      * specialize (Hu _ _ _ _ E'). lia.
      * specialize (Hu _ _ _ _ E). lia.
  - split; [lia| |].
    + intros i st g r (st' & r' & E)%Hsl. specialize (Hu _ _ _ _ E). lia.
    + intros i j st st' g r r' (? & ? & E)%Hsl (? & ? & E')%Hsl. by eapply H1.
Qed.

Lemma over_step g a b : lives_ok a -> over g a -> machine_step a b -> m_next a + 1 < 2 ^ 64 -> over g b.
Proof.
  intros [H0 _ _] [Hg Ho] Hs Hb. destruct (step_generations a b Hs H0 Hb) as [[Hn (k & _ & Hsl)]|[Hn Hsl]].
  - split; [lia|]. intros i st g' r [[_ ->]|[_ E]]%Hsl; [lia|by eapply Ho].
  - split; [lia|]. intros i st g' r (? & ? & E)%Hsl. by eapply Ho.
Qed.

Definition seen (r : process_space_runtime) : slot_seen :=
  if sr_owned r then Some (sr_state r, sr_generation r, root (sr_hierarchy r)) else None.

Section Steps.
Context {C : Type} `{!processor C} `{!kernel_image}.
Implicit Types s : spaces C.

Definition abstract s : machine :=
  Machine (seen <$> process_spaces s) (ar_owned <$> process_aliases s) (masked_cr3 s) (root (live_of s))
    (next_process_generation s).

(** No slot's hierarchy counts as the live one. *)
Definition private s : Prop := Forall (fun r => live (sr_hierarchy r) = false) (process_spaces s).

(** What work on tables and aliases leaves alone; with [reload] it may load the live root
    again. *)
Record keeps (reload : bool) s s' : Prop := {
  keep_private : private s';
  keep_slots : seen <$> process_spaces s' = seen <$> process_spaces s;
  keep_narrowed : ar_owned <$> process_aliases s' = ar_owned <$> process_aliases s;
  keep_root : root (live_of s') = root (live_of s);
  keep_live : live (live_of s') = live (live_of s);
  keep_next : next_process_generation s' = next_process_generation s;
  keep_cr3 : cr3 (mem_of s') = cr3 (mem_of s) \/ reload = true /\ cr3 (mem_of s') = root (live_of s)
}.

Definition kept (reload : bool) s s' : Prop := private s -> keeps reload s s'.

Lemma kept_refl b s : kept b s s.
Proof. intros Hp. split; auto. Qed.

Lemma kept_trans b s1 s2 s3 : kept b s1 s2 -> kept b s2 s3 -> kept b s1 s3.
Proof.
  intros H1 H2 Hp. destruct (H1 Hp) as [P1 S1 N1 R1 L1 X1 C1], (H2 P1) as [P2 S2 N2 R2 L2 X2 C2].
  split; try congruence. rewrite R1 in C2. destruct C2 as [-> |C2]; [exact C1|by right].
Qed.

Lemma slot_private i s : private s -> live (sr_hierarchy (slot_at i s)) = false.
Proof.
  intros Hp. unfold slot_at. destruct (process_spaces s !! i) as [r|] eqn:E; [|done].
  exact (proj1 (Forall_lookup _ _) Hp i r E).
Qed.

Lemma fmap_insert_same {A B} (f : A -> B) (l : list A) i x :
  (forall y, l !! i = Some y -> f x = f y) -> f <$> <[i := x]> l = f <$> l.
Proof.
  intros Hf. rewrite list_fmap_insert. destruct (l !! i) as [y|] eqn:E.
  - apply list_insert_id. rewrite list_lookup_fmap, E. by rewrite (Hf y).
  - apply list_insert_ge. rewrite length_fmap. by apply lookup_ge_None.
Qed.

(** Work on the tables of a slot. *)
Lemma kept_slot_tables b i h m s :
  tame b (sr_hierarchy (slot_at i s)) (mem_of s) h m -> kept b s (set_slot_tables i h m s).
Proof.
  intros [R L E] Hp. pose proof (slot_private i s Hp) as Hl. rewrite Hl in *.
  split; try done.
  - unfold private. cbn [process_spaces set_slot_tables set_mem set_pg set_boot set_slot].
    apply Forall_insert; [exact Hp|exact L].
  - cbn [process_spaces set_slot_tables set_mem set_pg set_boot set_slot].
    apply fmap_insert_same. intros y Hy. assert (Ey : slot_at i s = y) by (unfold slot_at; by rewrite Hy).
    rewrite Ey in *. unfold seen. cbn [sr_owned sr_state sr_generation sr_hierarchy]. by rewrite R.
  - destruct E as [E|[[_ ?] _]]; [by left|done].
Qed.

(** Work on the live tables. *)
Lemma kept_live_tables h m s : tame true (live_of s) (mem_of s) h m -> kept true s (set_live_tables h m s).
Proof.
  intros [R L E] Hp. split; try done.
  destruct E as [E|[_ E]]; [by left|by right].
Qed.

Lemma kept_settle b s : kept b s (settle_live s).
Proof. intros Hp. split; try done. by left. Qed.

Lemma kept_globals b g n o s : kept b s (set_globals g n o s).
Proof. intros Hp. split; try done. by left. Qed.

Lemma kept_counters b o g s : kept b s (set_alias_counters o g s).
Proof. intros Hp. split; try done. by left. Qed.

Lemma kept_set_alias b i x s : ar_owned x = ar_owned (process_space_alias i s) -> kept b s (set_alias i x s).
Proof.
  intros E Hp. split; try done; [|by left]. cbn [process_aliases set_alias]. apply fmap_insert_same.
  intros y Hy. rewrite E. unfold process_space_alias. by rewrite Hy.
Qed.

Lemma kept_alias_page b i k p s : kept b s (set_alias_page i k p s).
Proof. by apply kept_set_alias. Qed.

Lemma kept_alias_count b i n s : kept b s (set_alias_count i n s).
Proof. by apply kept_set_alias. Qed.

(** ** Aliases *)

Lemma kept_acquire pa s : kept true s (acquire_global_alias pa s).2.
Proof.
  unfold acquire_global_alias. destruct (global_alias_find pa s) as [[index|] []]; try apply kept_refl.
  - cbv zeta. destruct (_ || _); [apply kept_refl|apply kept_globals].
  - cbv zeta. pose proof (tame_narrow (live_of s) pa (pat_of s) (mem_of s)) as Ht.
    destruct (narrow_identity_alias _ _ _ _) as [[[[[[] saved] table] split] h] m]; cbn [fst snd] in Ht |- *;
      (eapply kept_trans; [by apply kept_live_tables|]); try apply kept_globals.
    eapply kept_trans; [apply kept_globals|apply kept_settle].
Qed.

Lemma kept_release index s : kept true s (release_global_alias index s).2.
Proof.
  unfold release_global_alias. destruct (_ <=? _); [apply kept_refl|]. cbv zeta.
  destruct (_ || _); [apply kept_refl|]. destruct (1 <? _); [apply kept_globals|].
  destruct (negb _); [apply kept_refl|].
  match goal with |- context [restore_identity_alias ?h ?a ?b ?c ?d ?m] => pose proof (tame_restore h a b c d m) as Ht end.
  destruct (restore_identity_alias _ _ _ _ _ _) as [[[] h] m]; cbn [fst snd] in Ht |- *;
    try (by apply kept_live_tables).
  eapply kept_trans; [by apply kept_live_tables|].
  destruct (_ =? 0); (eapply kept_trans; [apply kept_globals|]); [|apply kept_settle].
  eapply kept_trans; [apply kept_settle|apply kept_globals].
Qed.

Lemma kept_restore_page i k b s : kept true s (restore_alias_page i k b s).2.
Proof.
  unfold restore_alias_page. cbv zeta. destruct b.
  - destruct (_ =? 0); [apply kept_refl|].
    match goal with |- context [restore_identity_alias ?h ?a ?b ?c ?d ?m] => pose proof (tame_restore h a b c d m) as Ht end.
    destruct (restore_identity_alias _ _ _ _ _ _) as [[st h] m]. by apply kept_slot_tables.
  - destruct (ap_global_index _); [apply kept_release|apply kept_refl].
Qed.

Lemma kept_fold {A R} (f : R * spaces C -> A -> R * spaces C) l r s :
  (forall r s a, kept true s (f (r, s) a).2) -> kept true s (foldl f (r, s) l).2.
Proof.
  intros Hf. revert r s. induction l as [|a l IH]; intros r s; cbn [foldl]; [apply kept_refl|].
  pose proof (Hf r s a) as Ha. destruct (f (r, s) a) as [r1 s1]. exact (kept_trans _ _ _ _ Ha (IH r1 s1)).
Qed.

Lemma kept_rollback i n s : kept true s (rollback_alias_pages i n s).2.
Proof.
  unfold rollback_alias_pages. cbv zeta. set (down := reverse (seqZ 0 n)).
  pose proof (kept_fold (rollback_private i) down PAGING_STATUS_OK s) as H1.
  destruct (foldl (rollback_private i) (PAGING_STATUS_OK, s) down) as [r1 s1].
  pose proof (kept_fold (rollback_global i) down r1 s1) as H2.
  destruct (foldl (rollback_global i) (r1, s1) down) as [r2 s2]. cbn [fst snd] in *.
  eapply kept_trans; [apply H1|eapply kept_trans; [apply H2|apply kept_settle]].
  - intros r s0 k. unfold rollback_private. pose proof (kept_restore_page i k true s0) as Hr.
    by destruct (restore_alias_page i k true s0) as [[] s3].
  - intros r s0 k. unfold rollback_global. pose proof (kept_restore_page i k false s0) as Hr.
    destruct (restore_alias_page i k false s0) as [[] s3]; try exact Hr.
    exact (kept_trans _ _ _ _ Hr (kept_alias_page _ _ _ _ _)).
Qed.

(** A failed page is undone with the pages before it. *)
Lemma kept_undo i k s :
  kept true s
    (let s := (restore_alias_page i k true s).2 in
     match restore_alias_page i k false s with
     | (PAGING_STATUS_OK, s) => set_alias_page i k (set_global_index None (alias_page_at i k s)) s
     | (_, s) => s
     end).
Proof.
  cbv zeta. pose proof (kept_restore_page i k true s) as H1.
  destruct (restore_alias_page i k true s) as [r1 s1]. cbn [snd] in *.
  pose proof (kept_restore_page i k false s1) as H2.
  destruct (restore_alias_page i k false s1) as [[] s2]; cbn [snd] in *; eapply kept_trans; try exact H1; try exact H2.
  exact (kept_trans _ _ _ _ H2 (kept_alias_page _ _ _ _ _)).
Qed.

Lemma kept_narrow_pages l k i s : kept true s (narrow_pages l k i s).2.
Proof.
  revert k s. induction l as [|pa l IH]; intros k s; cbn [narrow_pages]; [apply kept_refl|]. cbv zeta.
  eapply kept_trans; [apply (kept_alias_page true i k (AliasPage pa 0 0 None false))|].
  set (s0 := set_alias_page i k _ s). pose proof (kept_acquire pa s0) as Ha.
  destruct (acquire_global_alias pa s0) as [[st index] s1]. cbn [snd] in Ha.
  assert (Hback : forall st s2, kept true s0 s2 ->
    kept true s0 (match rollback_alias_pages i k s2 with (PAGING_STATUS_OK, s3) => (st, settle_live s3) | (_, s3) => (PAGING_STATUS_PROCESS_ALIAS_STATE, s3) end).2 /\
    kept true s0 (match rollback_alias_pages i k s2 with (PAGING_STATUS_OK, s3) => (st, s3) | (_, s3) => (PAGING_STATUS_PROCESS_ALIAS_STATE, s3) end).2).
  { intros st0 s2 H2. pose proof (kept_rollback i k s2) as Hr. pose proof (kept_trans _ _ _ _ H2 Hr) as Hr2.
    destruct (rollback_alias_pages i k s2) as [[] s3]; cbn [snd] in *; split; try exact Hr2.
    exact (kept_trans _ _ _ _ Hr2 (kept_settle _ _)). }
  destruct st; try (apply Hback; exact Ha).
  set (s2 := set_alias_page i k _ s1).
  assert (H2 : kept true s0 s2) by exact (kept_trans _ _ _ _ Ha (kept_alias_page _ _ _ _ _)).
  pose proof (tame_narrow (sr_hierarchy (slot_at i s2)) pa (pat_of s2) (mem_of s2)) as Ht.
  destruct (narrow_identity_alias _ _ _ _) as [[[[[st saved] table] split] h] m]. cbn [fst snd] in Ht.
  set (s3 := set_alias_page i k _ (set_slot_tables i h m s2)).
  assert (H3 : kept true s0 s3)
    by exact (kept_trans _ _ _ _ H2 (kept_trans _ _ _ _ (kept_slot_tables _ _ _ _ _ Ht) (kept_alias_page _ _ _ _ _))).
  destruct st; try (apply Hback; exact (kept_trans _ _ _ _ H3 (kept_undo i k s3))).
  exact (kept_trans _ _ _ _ H3 (kept_trans _ _ _ _ (kept_alias_count _ _ _ _) (IH _ _))).
Qed.

(** ** The calls as steps *)

Definition set_cpu_state (c : C) s : spaces C :=
  let b := sp_boot s in
  set_boot (Boot (bt_paging b) (installed_device_windows b) (kernel_sections b) (fine_region_count b) c) s.

(** Every call on process spaces, with any arguments; between them the kernel maps its own
    pages and the processor's flags change. *)
Inductive process_step s : spaces C -> Prop :=
| ps_build out : process_step s (paging_process_space_build out s).2
| ps_image_narrow t pa out : process_step s (paging_process_image_alias_narrow t pa out s).2
| ps_set_narrow t l out : process_step s (paging_process_alias_set_narrow t l out s).2
| ps_image_restore t a : process_step s (paging_process_image_alias_restore t a s).2
| ps_set_restore t a : process_step s (paging_process_alias_set_restore t a s).2
| ps_map t kind va pa p : process_step s (paging_process_map_user_page t kind va pa p s).2
| ps_unmap t kind va : process_step s (paging_process_unmap_user_page t kind va s).2
| ps_validate t image frames : process_step s (paging_process_validate t image frames s).2
| ps_validate_linux t pages : process_step s (paging_process_validate_linux t pages s).2
| ps_validate_native t pages : process_step s (paging_process_validate_native t pages s).2
| ps_activate t : process_step s (paging_process_activate t s).2
| ps_restore_kernel t : process_step s (paging_process_restore_kernel t s).2
| ps_release t : process_step s (paging_process_space_release t s).2
| ps_arm n : process_step s (paging_process_table_failure_arm n s).2
| ps_disarm : process_step s (paging_process_table_failure_disarm s).2
| ps_kernel_map va pa len p : process_step s (set_pg (paging_map va pa len p (pg s)).2 s)
| ps_kernel_unmap va len : process_step s (set_pg (paging_unmap va len (pg s)).2 s)
| ps_kernel_protect va len p : process_step s (set_pg (paging_protect va len p (pg s)).2 s)
| ps_cpu c : process_step s (set_cpu_state c s).

Record spaces_ok s : Prop := {
  so_slots : length (process_spaces s) = PAGING_PROCESS_SPACE_SLOTS;
  so_aliases : length (process_aliases s) = PAGING_PROCESS_SPACE_SLOTS;
  so_private : private s;
  so_root : root (live_of s) .& PAGE_FRAME_MASK = root (live_of s)
}.

Definition simulated s s' : Prop := spaces_ok s' /\ machine_step (abstract s) (abstract s').

Lemma kept_abstract b s s' :
  spaces_ok s -> kept b s s' -> (b = true -> on_kernel_root s = true) -> spaces_ok s' /\ abstract s' = abstract s.
Proof.
  intros [Hs Ha Hp Hr] Hk Hg. destruct (Hk Hp) as [P S N R L X E].
  split.
  - split; [|  |done|by rewrite R].
    + by rewrite <- (length_fmap seen), S, length_fmap.
    + by rewrite <- (length_fmap ar_owned), N, length_fmap.
  - unfold abstract. rewrite S, N, R, X. f_equal. unfold masked_cr3.
    destruct E as [-> |[Hb ->]]; [done|]. rewrite Hr. specialize (Hg Hb). unfold on_kernel_root, masked_cr3 in Hg. lia.
Qed.

Lemma sim_kept b s s' : spaces_ok s -> kept b s s' -> (b = true -> on_kernel_root s = true) -> simulated s s'.
Proof.
  intros Hok Hk Hg. destruct (kept_abstract b s s' Hok Hk Hg) as [Hok' E]. split; [done|]. rewrite E. apply ms_idle.
Qed.

Lemma sim_idle s : spaces_ok s -> simulated s s.
Proof. intros Hok. split; [done|apply ms_idle]. Qed.

(** After work that is not seen. *)
Lemma sim_after b s s1 s2 :
  spaces_ok s -> kept b s s1 -> (b = true -> on_kernel_root s = true) ->
  (spaces_ok s1 -> abstract s1 = abstract s -> simulated s1 s2) -> simulated s s2.
Proof.
  intros Hok Hk Hg H12. destruct (kept_abstract b s s1 Hok Hk Hg) as [Hok1 E]. destruct (H12 Hok1 E) as [Hok2 Hs].
  split; [done|by rewrite <- E].
Qed.

Lemma abstract_slot i r s : abstract (set_slot i r s) = set_seen i (seen r) (abstract s).
Proof. unfold abstract, set_seen. cbn [process_spaces set_slot]. by rewrite list_fmap_insert. Qed.

Lemma abstract_alias i x s : abstract (set_alias i x s) = set_narrowed i (ar_owned x) (abstract s).
Proof. unfold abstract, set_narrowed. cbn [process_aliases set_alias]. by rewrite list_fmap_insert. Qed.

Lemma ok_slot i r s : spaces_ok s -> live (sr_hierarchy r) = false -> spaces_ok (set_slot i r s).
Proof.
  intros [Hs Ha Hp Hr] Hl. split; [|done| |done].
  - cbn [process_spaces set_slot]. by rewrite length_insert.
  - unfold private. cbn [process_spaces set_slot]. by apply Forall_insert.
Qed.

Lemma ok_alias i x s : spaces_ok s -> spaces_ok (set_alias i x s).
Proof.
  intros [Hs Ha Hp Hr]. split; [done| |done|done]. cbn [process_aliases set_alias]. by rewrite length_insert.
Qed.

Lemma slot_at_lookup i r s : process_spaces s !! i = Some r -> slot_at i s = r.
Proof. unfold slot_at. by intros ->. Qed.

Lemma narrowed_at i s :
  spaces_ok s -> (i < PAGING_PROCESS_SPACE_SLOTS)%nat -> m_narrowed (abstract s) !! i = Some (ar_owned (process_space_alias i s)).
Proof.
  intros Hok Hi. rewrite <- (so_aliases s Hok) in Hi. destruct (lookup_lt_is_Some_2 _ _ Hi) as [x Hx].
  cbn [abstract m_narrowed]. rewrite list_lookup_fmap, Hx. unfold process_space_alias. by rewrite Hx.
Qed.

Lemma resolve_seen token s i :
  spaces_ok s -> resolve_process_space token s = Some i ->
  m_slots (abstract s) !! i =
    Some (Some (sr_state (slot_at i s), sr_generation (slot_at i s), root (sr_hierarchy (slot_at i s)))) /\
  m_narrowed (abstract s) !! i = Some (ar_owned (process_space_alias i s)) /\ sr_owned (slot_at i s) = true.
Proof.
  intros Hok Hr. destruct token as [t|]; [|done].
  pose proof (first_index_lt _ _ _ Hr) as Hi. rewrite (so_slots s Hok) in Hi.
  rewrite (narrowed_at i s Hok Hi).
  unfold resolve_process_space in Hr. cbn in Hr. apply first_index_Some in Hr as [(r & Hl & Hr) _].
  rewrite !andb_true_iff in Hr. destruct Hr as (((Ho & _) & _) & _).
  rewrite (slot_at_lookup i r s Hl). cbn [abstract m_slots]. rewrite list_lookup_fmap, Hl. cbn. unfold seen. by rewrite Ho.
Qed.

(** A new state in an owned slot. *)
Lemma abstract_state i st s :
  sr_owned (slot_at i s) = true ->
  abstract (set_slot_state i st s) =
    set_seen i (Some (st, sr_generation (slot_at i s), root (sr_hierarchy (slot_at i s)))) (abstract s).
Proof.
  intros Ho. unfold set_slot_state. rewrite abstract_slot. unfold seen. cbn [sr_owned sr_state sr_generation sr_hierarchy].
  by rewrite Ho.
Qed.

Lemma ok_state i st s : spaces_ok s -> spaces_ok (set_slot_state i st s).
Proof. intros Hok. apply ok_slot; [done|]. apply slot_private, so_private, Hok. Qed.

Lemma kernel_root_seen s : on_kernel_root s = true -> m_cr3 (abstract s) = m_kernel (abstract s).
Proof. unfold on_kernel_root. cbn [abstract m_cr3 m_kernel]. lia. Qed.

(** ** Every call is a step of the machine *)

Lemma sim_slot_tables i h m s :
  spaces_ok s -> tame false (sr_hierarchy (slot_at i s)) (mem_of s) h m -> simulated s (set_slot_tables i h m s).
Proof. intros Hok Ht. by apply (sim_kept false); [|apply kept_slot_tables|]. Qed.

Lemma sim_map t kind va pa p s : spaces_ok s -> simulated s (paging_process_map_user_page t kind va pa p s).2.
Proof.
  intros Hok. unfold paging_process_map_user_page. destruct (resolve_process_space t s) as [i|]; [|by apply sim_idle].
  cbv zeta. destruct (_ || _); [by apply sim_idle|]. destruct (_ && _); [by apply sim_idle|].
  destruct (negb _); [by apply sim_idle|].
  pose proof (tame_user_walk false (PAGING_LEVEL_COUNT - 1) va (root (sr_hierarchy (slot_at i s))) (sr_hierarchy (slot_at i s)) (mem_of s)) as Ht.
  fold (entry_for_user (sr_hierarchy (slot_at i s)) va (mem_of s)) in Ht.
  destruct (entry_for_user _ _ _) as [[[st|e] h] m]; cbn [fst snd] in Ht |- *; [by apply sim_slot_tables|].
  destruct (has _ PAGE_PRESENT); (apply sim_slot_tables; [done|]); [done|]. by apply tame_invalidate, tame_word.
Qed.

Lemma sim_unmap t kind va s : spaces_ok s -> simulated s (paging_process_unmap_user_page t kind va s).2.
Proof.
  intros Hok. unfold paging_process_unmap_user_page. destruct (resolve_process_space t s) as [i|]; [|by apply sim_idle].
  cbv zeta. destruct (_ || _); [by apply sim_idle|]. destruct (find_entry _ _ _ _) as [st|e]; [by apply sim_idle|].
  destruct (_ || _); [by apply sim_idle|]. set (h := sr_hierarchy (slot_at i s)). set (m := invalidate h va _).
  pose proof (tame_reclaim false h va m) as Ht. destruct (reclaim_empty_tables h va m) as [h1 m1]. cbn [fst snd] in Ht |- *.
  apply sim_slot_tables; [done|]. eapply tame_trans; [|exact Ht]. apply tame_invalidate, tame_word, tame_refl.
Qed.

Lemma sim_installed t i s :
  spaces_ok s -> resolve_process_space t s = Some i -> sr_state (slot_at i s) = PAGING_PROCESS_SPACE_BUILDING ->
  ar_owned (process_space_alias i s) = true -> simulated s (set_slot_state i PAGING_PROCESS_SPACE_INSTALLED s).
Proof.
  intros Hok Hr Hst Ha. destruct (resolve_seen t s i Hok Hr) as (Hs & Hn & Ho). rewrite Hst in Hs. rewrite Ha in Hn.
  split; [by apply ok_state|]. rewrite abstract_state by done. by eapply ms_validate.
Qed.

(** What the three validations check first. *)
Ltac building s i :=
  destruct (bool_decide_reflect (sr_state (slot_at i s) = PAGING_PROCESS_SPACE_BUILDING)) as [|]; [|by apply sim_idle];
  destruct (ar_owned (process_space_alias i s)) eqn:?; [|by apply sim_idle]; cbn [negb orb].

Lemma sim_validate t image frames s : spaces_ok s -> simulated s (paging_process_validate t image frames s).2.
Proof.
  intros Hok. unfold paging_process_validate. destruct frames as [frames|]; [|by apply sim_idle].
  destruct (resolve_process_space t s) as [i|] eqn:Hr; [|by apply sim_idle]. cbv zeta. building s i.
  repeat (match goal with |- context [if ?b then _ else _] => destruct b; [by apply sim_idle|] end).
  by apply (sim_installed t).
Qed.

Lemma sim_validate_linux t pages s : spaces_ok s -> simulated s (paging_process_validate_linux t pages s).2.
Proof.
  intros Hok. unfold paging_process_validate_linux. destruct pages as [pages|]; [|by apply sim_idle].
  destruct (resolve_process_space t s) as [i|] eqn:Hr; [|by apply sim_idle]. cbv zeta. building s i.
  repeat (match goal with |- context [if ?b then _ else _] => destruct b; [by apply sim_idle|] end).
  destruct (linux_pages _ _ _ _ _); [|by apply sim_idle].
  match goal with |- context [if ?b then _ else _] => destruct b; [by apply sim_idle|] end. by apply (sim_installed t).
Qed.

Lemma sim_validate_native t pages s : spaces_ok s -> simulated s (paging_process_validate_native t pages s).2.
Proof.
  intros Hok. unfold paging_process_validate_native. destruct pages as [pages|]; [|by apply sim_idle].
  destruct (resolve_process_space t s) as [i|] eqn:Hr; [|by apply sim_idle]. cbv zeta. building s i.
  repeat (match goal with |- context [if ?b then _ else _] => destruct b; [by apply sim_idle|] end).
  destruct (native_pages _ _ _ _ _); [|by apply sim_idle].
  match goal with |- context [if ?b then _ else _] => destruct b; [by apply sim_idle|] end. by apply (sim_installed t).
Qed.

(** Loading a root. *)
Definition load (r : Z) s : spaces C := set_mem (set_cr3 r (mem_of s)) s.

Lemma abstract_load r s : abstract (load r s) = run_on (r .& PAGE_FRAME_MASK) (abstract s).
Proof. reflexivity. Qed.

Lemma ok_load r s : spaces_ok s -> spaces_ok (load r s).
Proof. intros [Hs Ha Hp Hr]. by split. Qed.

Lemma sim_activate t s : spaces_ok s -> simulated s (paging_process_activate t s).2.
Proof.
  intros Hok. unfold paging_process_activate. destruct (resolve_process_space t s) as [i|] eqn:Hr; [|by apply sim_idle].
  destruct (resolve_seen t s i Hok Hr) as (Hs & Hn & Ho).
  destruct (bool_decide_reflect (sr_state (slot_at i s) = PAGING_PROCESS_SPACE_INSTALLED)) as [Hst|]; [|by apply sim_idle].
  destruct (interrupts_on s); [by apply sim_idle|]. destruct (ar_owned (process_space_alias i s)); [|by apply sim_idle].
  destruct (on_kernel_root s) eqn:Hk; [|by apply sim_idle]. cbn [negb orb]. cbv zeta.
  set (r := root (sr_hierarchy (slot_at i s))) in *. fold (load r s).
  change (slot_at i (load r s)) with (slot_at i s). fold r.
  destruct (masked_cr3 (load r s) =? r) eqn:Hm; cbn [negb].
  - cbn [snd]. rewrite Hst in Hs. split; [by apply ok_state, ok_load|].
    rewrite abstract_state, abstract_load by done.
    change (masked_cr3 (load r s)) with (r .& PAGE_FRAME_MASK) in Hm. apply Z.eqb_eq in Hm. rewrite Hm.
    exact (ms_activate (abstract s) i _ _ Hs Hn (kernel_root_seen s Hk)).
  - change (simulated s (load (root (live_of s)) (load r s))).
    split; [by do 2 apply ok_load|]. rewrite !abstract_load, (so_root s Hok).
    pose proof (kernel_root_seen s Hk) as E.
    replace (run_on (root (live_of s)) (run_on (r .& PAGE_FRAME_MASK) (abstract s))) with (abstract s); [apply ms_idle|].
    unfold run_on, abstract in *. cbn in *. by rewrite E.
Qed.

Lemma sim_restore_kernel t s : spaces_ok s -> simulated s (paging_process_restore_kernel t s).2.
Proof.
  intros Hok. unfold paging_process_restore_kernel. destruct (resolve_process_space t s) as [i|] eqn:Hr; [|by apply sim_idle].
  destruct (resolve_seen t s i Hok Hr) as (Hs & Hn & Ho).
  destruct (bool_decide_reflect (sr_state (slot_at i s) = PAGING_PROCESS_SPACE_ACTIVE)) as [Hst|]; [|by apply sim_idle].
  destruct (interrupts_on s); [by apply sim_idle|].
  destruct (masked_cr3 s =? root (sr_hierarchy (slot_at i s))) eqn:Hm; [|by apply sim_idle]. cbn [negb orb]. cbv zeta.
  set (r := root (live_of s)) in *. fold (load r s).
  assert (Hk : on_kernel_root (load r s) = true).
  { unfold on_kernel_root. change (masked_cr3 (load r s)) with (r .& PAGE_FRAME_MASK).
    change (live_of (load r s)) with (live_of s). fold r. pose proof (so_root s Hok) as E. fold r in E. lia. }
  rewrite Hk. cbn [negb snd]. rewrite Hst in Hs. split; [by apply ok_state, ok_load|].
  rewrite abstract_state, abstract_load by done. unfold r. rewrite (so_root s Hok).
  exact (ms_leave (abstract s) i _ _ Hs (proj1 (Z.eqb_eq _ _) Hm)).
Qed.

Lemma sim_narrow_alias t l s : spaces_ok s -> simulated s (narrow_alias_pages t l s).2.
Proof.
  intros Hok. unfold narrow_alias_pages. destruct (resolve_process_space t s) as [i|] eqn:Hr; [|by apply sim_idle].
  destruct (resolve_seen t s i Hok Hr) as (Hs & Hn & Ho). destruct l as [l|]; [|by apply sim_idle].
  destruct (_ || _); [by apply sim_idle|].
  destruct (bool_decide_reflect (sr_state (slot_at i s) = PAGING_PROCESS_SPACE_BUILDING)) as [Hst|]; [|by apply sim_idle].
  destruct (ar_owned (process_space_alias i s)) eqn:Ha; [by apply sim_idle|].
  destruct (interrupts_on s); [by apply sim_idle|]. destruct (on_kernel_root s) eqn:Hk; [|by apply sim_idle].
  cbn [negb orb]. cbv zeta. set (s1 := set_alias_count i 0 s). assert (H1 : kept true s s1) by apply kept_alias_count.
  destruct (negb _); [by apply (sim_kept true)|]. pose proof (kept_narrow_pages l 0 i s1) as H2.
  destruct (narrow_pages l 0 i s1) as [st s2]. cbn [snd] in H2.
  assert (H3 : kept true s s2) by exact (kept_trans _ _ _ _ H1 H2).
  destruct st; try (by apply (sim_kept true)). cbn [snd].
  set (s3 := set_alias_counters _ _ s2).
  apply (sim_after true s s3); [done|exact (kept_trans _ _ _ _ H3 (kept_counters _ _ _ _))|done|]. intros Hok3 E.
  split; [by apply ok_alias|]. rewrite abstract_alias, E. rewrite Hst in Hs.
  by apply (ms_narrow _ i _ _ Hs Hn), kernel_root_seen.
Qed.

Lemma sim_image_narrow t pa out s : spaces_ok s -> simulated s (paging_process_image_alias_narrow t pa out s).2.
Proof.
  intros Hok. unfold paging_process_image_alias_narrow. destruct out; [|by apply sim_idle]. cbn [negb].
  pose proof (sim_narrow_alias t (Some [pa]) s Hok) as Hs.
  destruct (narrow_alias_pages t (Some [pa]) s) as [[] s1]; cbn [snd] in Hs |- *; try exact Hs.
  by destruct (resolve_process_space t s1).
Qed.

Lemma sim_set_narrow t l out s : spaces_ok s -> simulated s (paging_process_alias_set_narrow t l out s).2.
Proof.
  intros Hok. unfold paging_process_alias_set_narrow. destruct out; [|by apply sim_idle]. cbn [negb].
  pose proof (sim_narrow_alias t l s Hok) as Hs.
  destruct (narrow_alias_pages t l s) as [[] s1]; cbn [snd] in Hs |- *; try exact Hs.
  by destruct (resolve_process_space t s1).
Qed.

Lemma sim_restore_active t s : spaces_ok s -> simulated s (restore_active_aliases t s).2.
Proof.
  intros Hok. unfold restore_active_aliases. destruct (resolve_process_space t s) as [i|] eqn:Hr; [|by apply sim_idle].
  destruct (resolve_seen t s i Hok Hr) as (Hs & Hn & Ho). cbv zeta.
  destruct (negb (ar_owned _)); [by apply sim_idle|].
  destruct (bool_decide_reflect (sr_state (slot_at i s) = PAGING_PROCESS_SPACE_ACTIVE)) as [|Hst]; [by apply sim_idle|].
  destruct (on_kernel_root s) eqn:Hk; [|rewrite orb_true_r; by apply sim_idle].
  match goal with |- context [if ?b then _ else _] => destruct b; [by apply sim_idle|] end.
  match goal with |- context [foldl ?f (true, s) ?l] =>
    assert (Hf : kept true s (foldl f (true, s) l).2); [|destruct (foldl f (true, s) l) as [[] s1]; cbn [snd] in Hf |- *] end.
  - apply kept_fold. intros r s0 k. cbn [fst snd]. destruct r; [|apply kept_refl].
    pose proof (kept_restore_page i k false s0) as Hp. by destruct (restore_alias_page i k false s0) as [[] s2].
  - apply (sim_after true s (settle_live s1)); [done|exact (kept_trans _ _ _ _ Hf (kept_settle _ _))|done|]. intros Hok1 E.
    split; [by apply ok_alias|]. rewrite abstract_alias, E.
    by apply (ms_widen _ i _ _ _ Hs Hst), kernel_root_seen.
  - by apply (sim_kept true); [|exact (kept_trans _ _ _ _ Hf (kept_settle _ _))|].
Qed.

Lemma sim_image_restore t a s : spaces_ok s -> simulated s (paging_process_image_alias_restore t a s).2.
Proof.
  intros Hok. unfold paging_process_image_alias_restore. destruct a as [a|]; [|by apply sim_idle].
  destruct (resolve_process_space t s) as [i|]; [|by apply sim_idle]. cbv zeta.
  match goal with |- context [if ?b then _ else _] => destruct b; [by apply sim_idle|] end.
  pose proof (sim_restore_active t s Hok) as Hs. by destruct (restore_active_aliases t s) as [[] s1].
Qed.

Lemma sim_set_restore t a s : spaces_ok s -> simulated s (paging_process_alias_set_restore t a s).2.
Proof.
  intros Hok. unfold paging_process_alias_set_restore. destruct a as [a|]; [|by apply sim_idle].
  destruct (resolve_process_space t s) as [i|]; [|by apply sim_idle]. cbv zeta.
  match goal with |- context [if ?b then _ else _] => destruct b; [by apply sim_idle|] end.
  pose proof (sim_restore_active t s Hok) as Hs. by destruct (restore_active_aliases t s) as [[] s1].
Qed.

Lemma sim_release t s : spaces_ok s -> simulated s (paging_process_space_release t s).2.
Proof.
  intros Hok. unfold paging_process_space_release. destruct (resolve_process_space t s) as [i|] eqn:Hr; [|by apply sim_idle].
  destruct (resolve_seen t s i Hok Hr) as (Hs & Hn & Ho). cbv zeta.
  destruct (bool_decide_reflect (sr_state (slot_at i s) = PAGING_PROCESS_SPACE_ACTIVE)) as [|Hst]; [by apply sim_idle|].
  destruct (ar_owned (process_space_alias i s)); [by apply sim_idle|].
  destruct (on_kernel_root s) eqn:Hk; [|rewrite orb_true_r; by apply sim_idle].
  match goal with |- context [if ?b then _ else _] => destruct b; [by apply sim_idle|] end.
  set (h := sr_hierarchy (slot_at i s)). pose proof (tame_release_tree false (PAGING_LEVEL_COUNT - 1) (root h) h (mem_of s)) as Ht.
  destruct (release_table_tree _ _ _ _) as [h1 m1]. cbn [fst snd] in Ht.
  destruct (negb _); [by apply sim_slot_tables|]. cbn [snd].
  apply (sim_after false s (set_slot_tables i h1 m1 s)); [done|by apply kept_slot_tables|done|]. intros Hok1 E.
  split.
  - apply ok_slot; [done|]. cbn [sr_hierarchy]. rewrite (tame_live _ _ _ _ _ Ht). apply slot_private, so_private, Hok.
  - rewrite abstract_slot, E. cbn [seen sr_owned]. by apply (ms_release _ i _ _ _ Hs Hst Hn), kernel_root_seen.
Qed.

Lemma sim_arm n s : spaces_ok s -> simulated s (paging_process_table_failure_arm n s).2.
Proof.
  intros Hok. unfold paging_process_table_failure_arm.
  match goal with |- context [if ?b then _ else _] => destruct b; [by apply sim_idle|] end.
  apply (sim_kept false); [done| |done]. intros Hp. split; try done. by left.
Qed.

Lemma sim_disarm s : spaces_ok s -> simulated s (paging_process_table_failure_disarm s).2.
Proof.
  intros Hok. unfold paging_process_table_failure_disarm.
  match goal with |- context [if ?b then _ else _] => destruct b; [by apply sim_idle|] end.
  apply (sim_kept false); [done| |done]. intros Hp. split; try done. by left.
Qed.

Lemma tame_populate h s : tame false h (mem_of s) (populate_space h s).1.2 (populate_space h s).2.
Proof.
  unfold populate_space. cbv zeta. unfold build_identity_map.
  match goal with |- context [build_regions ?n ?a ?c ?w ?f h ?m] => pose proof (tame_build_regions false n a c w f h m) as H1 end.
  destruct (build_regions _ _ _ _ _ _ _) as [[[st fine] h1] m1]. cbn [fst snd] in H1. destruct st; try exact H1.
  destruct (validate_identity_map _ _ _ _ _); try exact H1.
  pose proof (tame_replay false (supervisor_intents (pg s)) h1 m1) as H2.
  destruct (replay_supervisor_intent _ _ _) as [[st h2] m2]. cbn [fst snd] in H2.
  pose proof (tame_trans _ _ _ _ _ _ H1 H2) as H3. destruct st; try exact H3. by destruct (_ || _).
Qed.

Lemma free_space_spec n k s i :
  free_slot n k s = Some i -> (k <= i < k + n)%nat /\ sr_owned (slot_at i s) = false /\ ar_owned (process_space_alias i s) = false.
Proof.
  revert k. induction n as [|n IH]; intros k; cbn [free_slot]; [done|].
  destruct (sr_owned (slot_at k s)) eqn:Ho, (ar_owned (process_space_alias k s)) eqn:Ha; cbn [negb andb];
    try (intros Hf%IH; destruct Hf as (? & ? & ?); split_and!; [lia|lia|done|done]).
  intros [= <-]. split_and!; [lia|lia|done|done].
Qed.

(** An empty slot is seen as empty. *)
Lemma free_seen s i :
  spaces_ok s -> free_slot PAGING_PROCESS_SPACE_SLOTS 0 s = Some i ->
  m_slots (abstract s) !! i = Some None /\ m_narrowed (abstract s) !! i = Some false.
Proof.
  intros Hok (Hi & Ho & Ha)%free_space_spec. rewrite (narrowed_at i s Hok) by lia. rewrite Ha. split; [|done].
  assert (Hl : (i < length (process_spaces s))%nat) by (rewrite (so_slots s Hok); lia).
  destruct (lookup_lt_is_Some_2 _ _ Hl) as [r E]. rewrite (slot_at_lookup i r s E) in Ho.
  cbn [abstract m_slots]. rewrite list_lookup_fmap, E. cbn. unfold seen. by rewrite Ho.
Qed.

Lemma set_seen_id i x a : m_slots a !! i = Some x -> set_seen i x a = a.
Proof. intros E. unfold set_seen. rewrite list_insert_id by done. by destruct a. Qed.

Lemma set_seen_twice i x y a : set_seen i x (set_seen i y a) = set_seen i x a.
Proof. unfold set_seen. cbn [m_slots m_narrowed m_cr3 m_kernel m_next]. by rewrite list_insert_insert_eq. Qed.

Lemma abstract_mem m s : cr3 m = cr3 (mem_of s) -> abstract (set_mem m s) = abstract s.
Proof. intros E. unfold abstract, masked_cr3. cbn. by rewrite E. Qed.

Lemma ok_mem m s : spaces_ok s -> spaces_ok (set_mem m s).
Proof. intros [Hs Ha Hp Hr]. by split. Qed.

Lemma kept_fine b n s : kept b s (set_fine n s).
Proof. intros Hp. split; try done. by left. Qed.

Lemma sim_build out s : spaces_ok s -> simulated s (paging_process_space_build out s).2.
Proof.
  intros Hok. unfold paging_process_space_build. destruct out; [|by apply sim_idle]. cbn [negb].
  destruct (active _); [|by apply sim_idle]. cbn [negb].
  destruct (free_slot _ _ s) as [i|] eqn:Hf; [|by apply sim_idle].
  destruct (on_kernel_root s) eqn:Hk; [|by apply sim_idle]. cbn [negb].
  destruct (free_seen s i Hok Hf) as [Hs Hn]. pose proof (free_space_spec _ _ _ _ Hf) as (_ & Ho & _).
  set (h0 := Hierarchy 0 0 0 0 0 false true). pose proof (tame_allocate false h0 (mem_of s)) as [_ Hl Hc].
  destruct (allocate_table h0 (mem_of s)) as [[[st|r] h] m]; cbn [fst snd] in Hl, Hc |- *.
  all: destruct Hc as [Hc|[[_ ?] _]]; [|done].
  - unfold set_slot_tables. split; [by apply ok_mem, ok_slot|]. rewrite abstract_mem by done. rewrite abstract_slot.
    unfold seen. cbn [sr_owned]. rewrite Ho, set_seen_id by done. apply ms_idle.
  - cbv zeta. set (h1 := set_root r h). set (s1 := set_process_generation _ _).
    assert (Hok1 : spaces_ok s1).
    { destruct (ok_mem m _ (ok_slot i (SpaceRuntime h1 (next_process_generation s) PAGING_PROCESS_SPACE_BUILDING true) s Hok Hl)).
      by split. }
    assert (E1 : abstract s1 = count_build (set_seen i (Some (PAGING_PROCESS_SPACE_BUILDING, next_process_generation s, r)) (abstract s))).
    { transitivity (count_build (abstract (set_mem m (set_slot i (SpaceRuntime h1 (next_process_generation s)
        PAGING_PROCESS_SPACE_BUILDING true) s)))); [done|]. by rewrite abstract_mem, abstract_slot by done. }
    assert (Eh : sr_hierarchy (slot_at i s1) = h1).
    { unfold slot_at. cbn [s1 process_spaces set_process_generation set_mem set_pg set_boot set_slot].
      rewrite list_lookup_insert_eq; [done|]. rewrite (so_slots s Hok). apply free_space_spec in Hf. lia. }
    pose proof (tame_populate h1 s1) as Ht. destruct (populate_space h1 s1) as [[[st fine] h2] m2]. cbn [fst snd] in Ht.
    assert (Hfail : forall st, simulated s (let '(h, m) := release_table_tree (PAGING_LEVEL_COUNT - 1) (root h2) h2 m2 in
        let s := set_fine fine (set_slot_tables i h m s1) in
        (st : paging_status, Some zero_process_space,
         set_slot i (SpaceRuntime h (sr_generation (slot_at i s)) PAGING_PROCESS_SPACE_INVALID false) s)).2).
    { intros st0. pose proof (tame_trans _ _ _ _ _ _ Ht (tame_release_tree false (PAGING_LEVEL_COUNT - 1) (root h2) h2 m2)) as Ht3.
      destruct (release_table_tree _ _ _ _) as [h3 m3]. cbn [fst snd] in Ht3. cbv zeta. cbn [snd].
      set (s2 := set_fine fine _).
      assert (Hk2 : kept false s1 s2).
      { apply (kept_trans _ _ (set_slot_tables i h3 m3 s1)); [apply kept_slot_tables; by rewrite Eh|apply kept_fine]. }
      destruct (kept_abstract false s1 s2 Hok1 Hk2 ltac:(done)) as [Hok2 E2].
      split; [by apply ok_slot; [|cbn [sr_hierarchy]; rewrite (tame_live _ _ _ _ _ Ht3)]|].
      rewrite abstract_slot, E2, E1. cbn [seen sr_owned].
      assert (E : set_seen i None (count_build (set_seen i (Some (PAGING_PROCESS_SPACE_BUILDING, next_process_generation s, r)) (abstract s)))
        = count_build (set_seen i None (abstract s))) by exact (f_equal count_build (set_seen_twice i None _ (abstract s))).
      rewrite E, set_seen_id by done. apply ms_failed. }
    destruct st; try exact (Hfail _). cbn [snd].
    set (s2 := set_fine fine _).
    assert (Hk2 : kept false s1 s2).
    { apply (kept_trans _ _ (set_slot_tables i h2 m2 s1)); [apply kept_slot_tables; by rewrite Eh|apply kept_fine]. }
    destruct (kept_abstract false s1 s2 Hok1 Hk2 ltac:(done)) as [Hok2 E2].
    split; [done|]. rewrite E2, E1. by apply ms_build, kernel_root_seen.
Qed.

(** The kernel's own mappings never move the root. *)
Lemma sim_kernel p s :
  spaces_ok s -> root (live_hierarchy p) = root (live_of s) -> live (live_hierarchy p) = live (live_of s) ->
  cr3 (mem p) = cr3 (mem_of s) -> simulated s (set_pg p s).
Proof. intros Hok Hr Hl Hc. apply (sim_kept false); [done| |done]. intros Hp. split; try done. by left. Qed.

Lemma tame_false h m h' m' : tame false h m h' m' -> root h' = root h /\ live h' = live h /\ cr3 m' = cr3 m.
Proof. intros [R L [E|[[? _] _]]]; [done|discriminate]. Qed.

Lemma sim_settle h l m s :
  spaces_ok s -> tame false (live_of s) (mem_of s) h m -> simulated s (set_pg (settle h l m (pg s)) s).
Proof. intros Hok (R & L & E)%tame_false. by apply sim_kernel. Qed.

Lemma sim_same_pg s : spaces_ok s -> simulated s (set_pg (pg s) s).
Proof. intros Hok. by apply sim_kernel. Qed.

Lemma sim_paging_map va pa len p s : spaces_ok s -> simulated s (set_pg (paging_map va pa len p (pg s)).2 s).
Proof.
  intros Hok. unfold paging_map. destruct (negb _); [by apply sim_same_pg|].
  pose proof (tame_map_range false (live_of s) va pa len p 1 (mem_of s)) as Ht. unfold live_of, mem_of in Ht.
  destruct (map_range _ _ _ _ _ _ _) as [[st h] m]. cbn [fst snd] in Ht.
  destruct st; try (by apply sim_settle). destruct (supervisor_intent_add _ _) as [st l].
  pose proof (tame_unmap_range false h va len m) as Hu.
  destruct (unmap_range h va len m) as [[st1 h1] m1]. cbn [fst snd] in Hu.
  pose proof (tame_trans _ _ _ _ _ _ Ht Hu) as Htu. destruct st; by apply sim_settle.
Qed.

Lemma sim_paging_unmap va len s : spaces_ok s -> simulated s (set_pg (paging_unmap va len (pg s)).2 s).
Proof.
  intros Hok. unfold paging_unmap. destruct (negb _); [by apply sim_same_pg|]. cbv zeta.
  pose proof (tame_unmap_range false (live_of s) va len (mem_of s)) as Ht. unfold live_of, mem_of in Ht.
  destruct (unmap_range _ _ _ _) as [[st h] m]. by apply sim_settle.
Qed.

Lemma sim_paging_protect va len p s : spaces_ok s -> simulated s (set_pg (paging_protect va len p (pg s)).2 s).
Proof.
  intros Hok. unfold paging_protect. destruct (negb _); [by apply sim_same_pg|]. cbv zeta.
  match goal with |- context [protect_range ?h va len p ?c ?m] => pose proof (protect_range_cr3 h va len p c m) as Hc end.
  destruct (protect_range _ _ _ _ _ _) as [st m]. by apply sim_kernel.
Qed.

Lemma sim_step s s' : spaces_ok s -> process_step s s' -> simulated s s'.
Proof.
  intros Hok Hs. destruct Hs.
  - by apply sim_build.
  - by apply sim_image_narrow.
  - by apply sim_set_narrow.
  - by apply sim_image_restore.
  - by apply sim_set_restore.
  - by apply sim_map.
  - by apply sim_unmap.
  - by apply sim_validate.
  - by apply sim_validate_linux.
  - by apply sim_validate_native.
  - by apply sim_activate.
  - by apply sim_restore_kernel.
  - by apply sim_release.
  - by apply sim_arm.
  - by apply sim_disarm.
  - by apply sim_paging_map.
  - by apply sim_paging_unmap.
  - by apply sim_paging_protect.
  - apply (sim_kept false); [done| |done]. intros Hp. split; try done. by left.
Qed.

(** ** What holds in every reachable state *)

(** After boot: no slot and no alias in use, the kernel's hierarchy loaded. *)
Record idle_spaces s : Prop := {
  id_ok : spaces_ok s;
  id_slots : Forall (fun r => sr_owned r = false) (process_spaces s);
  id_aliases : Forall (fun a => ar_owned a = false) (process_aliases s);
  id_root : on_kernel_root s = true;
  id_next : next_process_generation s = 1
}.

Lemma idle_seen s i x : idle_spaces s -> m_slots (abstract s) !! i = Some x -> x = None.
Proof.
  intros [_ Hs _ _ _] Hx. cbn [abstract m_slots] in Hx. rewrite list_lookup_fmap, fmap_Some in Hx.
  destruct Hx as (r & Hr & ->). unfold seen. by rewrite (proj1 (Forall_lookup _ _) Hs i r Hr).
Qed.

Lemma idle_machine s : idle_spaces s -> machine_ok (abstract s) /\ lives_ok (abstract s).
Proof.
  intros Hid. pose proof (fun i x => idle_seen s i x Hid) as Hno. destruct Hid as [_ _ Ha Hr Hn]. split; split.
  - intros _. by apply kernel_root_seen.
  - by intros i g r ?%Hno.
  - by intros i j (g & r & ?%Hno) _.
  - by intros i (g & r & ?%Hno).
  - intros i Hi. exfalso. cbn [abstract m_narrowed] in Hi. rewrite list_lookup_fmap, fmap_Some in Hi.
    destruct Hi as (x & Hx & E). pose proof (proj1 (Forall_lookup _ _) Ha i x Hx) as E'. cbn in E'. congruence.
  - cbn [abstract m_next]. lia.
  - by intros i st g r ?%Hno.
  - by intros i j st st' g r r' ?%Hno.
Qed.

(** C14: Every sequence of calls on process spaces, with the kernel's own mapping calls
    between them, is a run of the abstract machine: a space is narrowed while it is built,
    entered only from the kernel's hierarchy when it is installed and narrowed, left only to
    the kernel's hierarchy, and widened and released only while it does not run. *)
Theorem process_calls_refine s s' :
  spaces_ok s -> rtc process_step s s' -> spaces_ok s' /\ rtc machine_step (abstract s) (abstract s').
Proof.
  intros Hok Hs. induction Hs as [s|s s1 s2 H1 _ IH]; [split; [done|apply rtc_refl]|].
  destruct (sim_step s s1 Hok H1) as [Hok1 Hm]. destruct (IH Hok1) as [Hok2 Hr]. split; [done|]. by eapply rtc_l.
Qed.

Lemma reach_machine s s' :
  spaces_ok s -> machine_ok (abstract s) -> apart (abstract s) ->
  rtc (fun s s' => process_step s s' /\ apart (abstract s')) s s' -> spaces_ok s' /\ machine_ok (abstract s').
Proof.
  intros Hok Hm Hap Hs. induction Hs as [s|s s1 s2 [H1 Ha] _ IH]; [done|].
  destruct (sim_step s s1 Hok H1) as [Hok1 Hst]. apply IH; [done| |done]. by apply (machine_step_ok (abstract s)).
Qed.

Lemma active_seen s i r :
  process_spaces s !! i = Some r ->
  active_at (abstract s) i <-> sr_owned r = true /\ sr_state r = PAGING_PROCESS_SPACE_ACTIVE.
Proof.
  intros Hr. unfold active_at. cbn [abstract m_slots]. rewrite list_lookup_fmap, Hr. unfold seen. cbn. split.
  - intros (g & p & E). destruct (sr_owned r); [|done]. by injection E as -> _ _.
  - intros [-> ->]. by eexists _, _.
Qed.

(** C15: From boot on, as long as the allocator gives no process the frame of the kernel's
    root: the processor runs on the kernel's hierarchy while no space is active, and on the
    hierarchy of the active space while there is one; there is at most one, and its code
    pages are narrowed. *)
Theorem running_space_unique s0 s :
  idle_spaces s0 -> rtc (fun s s' => process_step s s' /\ apart (abstract s')) s0 s ->
  exists o : option nat,
    masked_cr3 s = match o with Some i => root (sr_hierarchy (slot_at i s)) | None => root (live_of s) end /\
    (forall i r, process_spaces s !! i = Some r ->
       sr_owned r = true /\ sr_state r = PAGING_PROCESS_SPACE_ACTIVE <-> o = Some i) /\
    (forall i, o = Some i -> ar_owned (process_space_alias i s) = true).
Proof.
  intros Hid Hs. destruct (idle_machine s0 Hid) as [Hm _].
  destruct (reach_machine s0 s (id_ok s0 Hid) Hm) as [Hok Hm']; [|done|].
  { by intros i st g r ?%(idle_seen s0 i _ Hid). }
  destruct (decide (Exists (fun r => sr_owned r = true /\ sr_state r = PAGING_PROCESS_SPACE_ACTIVE) (process_spaces s))) as [Hex|Hno].
  - apply Exists_exists in Hex as (r & (i & Hr)%list_elem_of_lookup & Hact). exists (Some i).
    pose proof (proj2 (active_seen s i r Hr) Hact) as Hai. pose proof Hai as (g & p & Ep). split_and!.
    + rewrite (slot_at_lookup i r s Hr). pose proof (mo_runs _ Hm' i g p Ep) as Hrun. cbn [abstract m_cr3] in Hrun. rewrite Hrun.
      cbn [abstract m_slots] in Ep. rewrite list_lookup_fmap, Hr in Ep. cbn in Ep. unfold seen in Ep.
      destruct Hact as [Ho _]. rewrite Ho in Ep. by injection Ep as _ _ ->.
    + intros j x Hx. rewrite <- (active_seen s j x Hx). split; [|by intros [= <-]].
      intros Hj. f_equal. by apply (mo_one _ Hm').
    + intros j [= <-]. pose proof (mo_sealed _ Hm' i Hai) as Hn.
      rewrite (narrowed_at i s Hok) in Hn; [by injection Hn|]. rewrite <- (so_slots s Hok). by apply lookup_lt_Some in Hr.
  - exists None. assert (Hna : forall i r, process_spaces s !! i = Some r -> ~ (sr_owned r = true /\ sr_state r = PAGING_PROCESS_SPACE_ACTIVE)).
    { intros i r Hr Ha. apply Hno, Exists_exists. exists r. split; [by apply (list_elem_of_lookup_2 _ i)|done]. }
    split_and!; [|by intros i r Hr; split; [intros ?%(Hna i r Hr)|]|done].
    apply (mo_kernel _ Hm'). intros i (g & p & E). cbn [abstract m_slots] in E. rewrite list_lookup_fmap, fmap_Some in E.
    destruct E as (r & Hr & E). apply (Hna i r Hr). apply (active_seen s i r Hr). exists g, p.
    cbn [abstract m_slots]. by rewrite list_lookup_fmap, Hr, E.
Qed.

(** ** Tokens *)

Lemma resolve_generation t s i :
  resolve_process_space (Some t) s = Some i -> exists r, process_spaces s !! i = Some r /\ sr_owned r = true /\
    sr_generation r = ps_generation t.
Proof.
  intros [(r & Hr & Hm) _]%first_index_Some. exists r. split; [done|].
  rewrite !andb_true_iff in Hm. destruct Hm as (((Ho & _) & Hg) & _). split; [done|lia].
Qed.

(** A release that succeeds empties the slot of its token. *)
Lemma release_seen t s t1 s1 :
  spaces_ok s -> paging_process_space_release t s = (PAGING_STATUS_OK, t1, s1) ->
  exists i, resolve_process_space t s = Some i /\ spaces_ok s1 /\ abstract s1 = set_seen i None (abstract s).
Proof.
  intros Hok. unfold paging_process_space_release. destruct (resolve_process_space t s) as [i|] eqn:Hr; [|done]. cbv zeta.
  match goal with |- context [if ?b then _ else _] => destruct b; [done|] end.
  set (h := sr_hierarchy (slot_at i s)). pose proof (tame_release_tree false (PAGING_LEVEL_COUNT - 1) (root h) h (mem_of s)) as Ht.
  destruct (release_table_tree _ _ _ _) as [h1 m1]. cbn [fst snd] in Ht. destruct (negb _); [done|]. intros [= _ <-].
  exists i. split; [done|]. set (s2 := set_slot_tables i h1 m1 s).
  destruct (kept_abstract false s s2 Hok) as [Hok2 E]; [by apply kept_slot_tables|done|].
  split; [|by rewrite abstract_slot, E].
  apply ok_slot; [done|]. cbn [sr_hierarchy]. rewrite (tame_live _ _ _ _ _ Ht). apply slot_private, so_private, Hok.
Qed.

(** The generations along a run that does not wrap the counter. *)
Lemma lives_run n s s' :
  spaces_ok s -> lives_ok (abstract s) -> nsteps process_step n s s' -> next_process_generation s + Z.of_nat n < 2 ^ 64 ->
  spaces_ok s' /\ lives_ok (abstract s') /\ next_process_generation s' <= next_process_generation s + Z.of_nat n /\
  forall g, over g (abstract s) -> over g (abstract s').
Proof.
  intros Hok Hl Hs. revert Hok Hl. induction Hs as [s|n s s1 s2 H1 _ IH]; intros Hok Hl Hb; [split_and!; try done; lia|].
  destruct (sim_step s s1 Hok H1) as [Hok1 Hm].
  assert (Hb1 : m_next (abstract s) + 1 < 2 ^ 64) by (cbn [abstract m_next]; lia).
  assert (Hn : next_process_generation s1 <= next_process_generation s + 1).
  { destruct (step_generations _ _ Hm (lo_next _ Hl) Hb1) as [[? _]|[? _]]; cbn [abstract m_next] in *; lia. }
  destruct (IH Hok1 (lives_step _ _ Hl Hm Hb1)) as (Hok2 & Hl2 & Hn2 & Ho2); [lia|].
  split_and!; [done|done|lia|]. intros g Hg. apply Ho2. by apply (over_step g (abstract s)).
Qed.

(** C16: A released token is good for nothing: in every state reached after its release,
    no token of that generation is resolved, so that every call refuses it - also when its
    slot has a new owner.  The bound keeps the counter of generations from wrapping. *)
Theorem released_token_refused s0 k s t t1 s1 n s2 t' :
  idle_spaces s0 -> nsteps process_step k s0 s ->
  paging_process_space_release (Some t) s = (PAGING_STATUS_OK, t1, s1) ->
  nsteps process_step n s1 s2 -> Z.of_nat k + Z.of_nat n + 1 < 2 ^ 64 -> ps_generation t' = ps_generation t ->
  resolve_process_space (Some t') s2 = None.
Proof.
  intros Hid Hk Hrel Hn Hb Hg. destruct (idle_machine s0 Hid) as [_ Hl0]. pose proof (id_next s0 Hid) as H1.
  destruct (lives_run k s0 s (id_ok s0 Hid) Hl0 Hk) as (Hok & Hl & Hnx & _); [lia|].
  destruct (release_seen (Some t) s t1 s1 Hok Hrel) as (i & Hi & Hok1 & E1).
  destruct (resolve_generation t s i Hi) as (r & Hr & Ho & Hgr).
  assert (Hseen : m_slots (abstract s) !! i = Some (Some (sr_state r, ps_generation t, root (sr_hierarchy r)))).
  { cbn [abstract m_slots]. rewrite list_lookup_fmap, Hr. cbn. unfold seen. by rewrite Ho, Hgr. }
  assert (Hl1 : lives_ok (abstract s1)).
  { rewrite E1. destruct Hl as [L1 L2 L3]. split; [done| |].
    - intros j st g p [[_ ?]|[_ E]]%lookup_insert_cases; [done|by eapply L2].
    - intros j j' st st' g p p' [[_ ?]|[_ E]]%lookup_insert_cases [[_ ?]|[_ E']]%lookup_insert_cases; try done. by eapply L3. }
  assert (Hover : over (ps_generation t) (abstract s1)).
  { rewrite E1. split; [by eapply (lo_used _ Hl)|]. intros j st g p [[_ ?]|[Hne E]]%lookup_insert_cases; [done|].
    intros ->. by apply Hne, (lo_one _ Hl j i _ _ _ _ _ E Hseen). }
  assert (En : next_process_generation s1 = next_process_generation s) by (by apply (f_equal m_next) in E1).
  destruct (lives_run n s1 s2 Hok1 Hl1 Hn) as (_ & _ & _ & Hov); [lia|].
  destruct (resolve_process_space (Some t') s2) as [j|] eqn:Hj; [exfalso|done].
  destruct (resolve_generation t' s2 j Hj) as (r' & Hr' & Ho' & Hg').
  apply (proj2 (Hov _ Hover) j (sr_state r') (ps_generation t) (root (sr_hierarchy r'))); [|done].
  cbn [abstract m_slots]. rewrite list_lookup_fmap, Hr'. cbn. unfold seen. rewrite Ho'. congruence.
Qed.
End Steps.

#[export] Hint Resolve kept_refl kept_settle kept_globals kept_counters kept_alias_page kept_alias_count : tame.

Module SwitchSamples.
Import InstallSamples.
#[local] Existing Instances sample_processor sample_image.

(** A kernel whose own hierarchy maps one frame, with sixty-four free ones. *)
Definition sample_idle : spaces registers :=
  Spaces
    (Boot (Paging (PagingState 0x100000 4 0 0x0007040600070406 0x0007040600070106 1 true true true)
             (Hierarchy 0x100000 0 0 0 4 true false) []
             (Memory (list_to_map
                [(entry_at 0x100000 0, 0x101003); (entry_at 0x101000 0, 0x102003); (entry_at 0x102000 8, 0x103003);
                 (entry_at 0x103000 48, 0x1030000 .| ((PAGE_PRESENT .| PAGE_WRITABLE) .| PAGE_NO_EXECUTE))])
                (fresh_frames 64 4096) 0x100000 [] (TableFailure 0 0 false false)))
       [] collect_kernel_sections 0 (Registers 0x500 0x0007040600070406 0x80000011 0x20))
    (repeat zero_space_runtime PAGING_PROCESS_SPACE_SLOTS) (repeat zero_alias_runtime PAGING_PROCESS_SPACE_SLOTS) ∅ 0 1 1 1 1.

Definition token (st : paging_process_space_state) : option paging_process_space := Some (ProcessSpace 0x1000000 1 0 st).
Definition code : paging_process_expected_page := ExpectedPage PAGING_NATIVE_IMAGE_BASE 0x1030000 PAGING_EXECUTE.
Definition stack : paging_process_expected_page := ExpectedPage PAGING_NATIVE_STACK_BASE 0x1031000 PAGING_WRITE.

(** From nothing to a running process. *)
Definition launch : list (spaces registers -> spaces registers) :=
  let building := token PAGING_PROCESS_SPACE_BUILDING in
  [fun s => (paging_process_space_build true s).2;
   fun s => (paging_process_alias_set_narrow building (Some [ep_physical code]) true s).2;
   fun s => (paging_process_map_user_page building PAGING_PROCESS_MAPPING_NATIVE_IMAGE (ep_virtual code) (ep_physical code) PAGING_EXECUTE s).2;
   fun s => (paging_process_map_user_page building PAGING_PROCESS_MAPPING_NATIVE_STACK (ep_virtual stack) (ep_physical stack) PAGING_WRITE s).2;
   fun s => (paging_process_validate_native building (Some [code; stack]) s).2;
   fun s => (paging_process_activate (token PAGING_PROCESS_SPACE_INSTALLED) s).2].

Definition run (s : spaces registers) (l : list (spaces registers -> spaces registers)) : spaces registers := foldl (fun s f => f s) s l.

Definition slot_apart (kernel : Z) (x : slot_seen) : bool := match x with Some (_, _, r) => negb (r =? kernel) | None => true end.
Definition apartb (a : machine) : bool := forallb (slot_apart (m_kernel a)) (m_slots a).

Fixpoint all_apart (s : spaces registers) (l : list (spaces registers -> spaces registers)) : bool :=
  match l with
  | [] => true
  | f :: l => let s := f s in apartb (abstract s) && all_apart s l
  end.

Lemma apartb_apart a : apartb a = true -> apart a.
Proof.
  intros H i st g r Hi. unfold apartb in H. rewrite forallb_forall in H.
  pose proof (H _ (proj1 (list_elem_of_In _ _) (list_elem_of_lookup_2 _ _ _ Hi))) as E. cbn in E. lia.
Qed.

Lemma apart_run l s :
  Forall (fun f => forall s, process_step s (f s)) l -> all_apart s l = true ->
  rtc (fun s s' => process_step s s' /\ apart (abstract s')) s (run s l).
Proof.
  intros Hl. revert s. induction Hl as [|f l Hf Hl IH]; intros s; cbn [all_apart]; [intros _; apply rtc_refl|].
  intros [Ha Hr]%andb_prop. apply rtc_l with (f s); [split; [done|by apply apartb_apart]|by apply IH].
Qed.

Lemma run_steps l s : Forall (fun f => forall s, process_step s (f s)) l -> rtc process_step s (run s l).
Proof.
  intros Hl. revert s. induction Hl as [|f l Hf Hl IH]; intros s; [apply rtc_refl|]. by apply rtc_l with (f s).
Qed.

Lemma launch_steps : Forall (fun f => forall s, process_step s (f s)) launch.
Proof. unfold launch. cbv zeta. repeat (constructor; [intros s; constructor|]). constructor. Qed.

Lemma launch_apart : all_apart sample_idle launch = true.
Proof. vm_compute. reflexivity. Qed.

Lemma sample_idle_ok : idle_spaces sample_idle.
Proof.
  split; [split|..]; try reflexivity; [apply Forall_forall|apply Forall_forall|apply Forall_forall]; intros x Hx;
    apply list_elem_of_In in Hx; by apply repeat_spec in Hx as ->.
Qed.

Lemma process_calls_refine_witness : rtc machine_step (abstract sample_idle) (abstract (run sample_idle launch)).
Proof. exact (proj2 (process_calls_refine sample_idle (run sample_idle launch) (id_ok _ sample_idle_ok) (run_steps launch sample_idle launch_steps))). Defined.

Lemma running_space_unique_witness :
  exists o : option nat,
    masked_cr3 (run sample_idle launch) =
      match o with Some i => root (sr_hierarchy (slot_at i (run sample_idle launch))) | None => root (live_of (run sample_idle launch)) end.
Proof.
  destruct (running_space_unique sample_idle (run sample_idle launch) sample_idle_ok
    (apart_run launch sample_idle launch_steps launch_apart)) as (o & H & _).
  exists o. exact H.
Defined.

Definition new_token : paging_process_space := ProcessSpace 0x1000000 1 0 PAGING_PROCESS_SPACE_BUILDING.

Lemma sample_released :
  (paging_process_space_release (Some new_token) (paging_process_space_build true sample_idle).2).1.1 = PAGING_STATUS_OK.
Proof. vm_compute. reflexivity. Qed.

(** The slot built again, the old token is refused. *)
Lemma released_token_refused_witness :
  let s1 := (paging_process_space_release (Some new_token) (paging_process_space_build true sample_idle).2).2 in
  resolve_process_space (Some new_token) (paging_process_space_build true s1).2 = None.
Proof.
  cbv zeta. set (s := (paging_process_space_build true sample_idle).2).
  eapply (released_token_refused sample_idle 1 s new_token _ (paging_process_space_release (Some new_token) s).2 1).
  - exact sample_idle_ok.
  - apply nsteps_once, ps_build.
  - rewrite (surjective_pairing (paging_process_space_release (Some new_token) s)) at 1.
    rewrite (surjective_pairing (paging_process_space_release (Some new_token) s).1) at 1.
    unfold s. rewrite sample_released. reflexivity.
  - apply nsteps_once, ps_build.
  - reflexivity.
  - reflexivity.
Defined.
End SwitchSamples.
