(* ===== verification/WallClock.v ===== *)
(** * The wall clock ([src/kernel/wall_clock.c])

    Reading the CMOS clock: two equal samples taken outside its update window, decoded
    from binary or decimal digits and from either hour format, validated, and converted
    to seconds since 1970.  The ports are the class [port_hardware]; a read returns the
    hardware's next state, so nothing is assumed of the values it answers. *)

From stdpp Require Import base option list numbers sorting.
From S2P Require Import Prelude.

Class port_hardware (H : Type) := {
  cpu_out8 : Z -> Z -> H -> H;
  cpu_in8 : Z -> H -> Z * H;
  cpu_io_wait : H -> H;
  cpu_interrupts_enabled : H -> bool;
  cpu_interrupt_disable : H -> H;
  cpu_interrupt_enable : H -> H
}.

Definition RTC_INDEX_PORT : Z := 0x70.
Definition RTC_DATA_PORT : Z := 0x71.
Definition RTC_SECONDS : Z := 0x00.
Definition RTC_MINUTES : Z := 0x02.
Definition RTC_HOURS : Z := 0x04.
Definition RTC_WEEKDAY : Z := 0x06.
Definition RTC_DAY : Z := 0x07.
Definition RTC_MONTH : Z := 0x08.
Definition RTC_YEAR : Z := 0x09.
Definition RTC_STATUS_A : Z := 0x0A.
Definition RTC_STATUS_B : Z := 0x0B.
Definition RTC_CENTURY : Z := 0x32.
Definition RTC_UPDATE_IN_PROGRESS : Z := 0x80.
Definition RTC_UPDATE_INHIBIT : Z := 0x80.
Definition RTC_BINARY_MODE : Z := 0x04.
Definition RTC_24_HOUR_MODE : Z := 0x02.
Definition RTC_PM : Z := 0x80.
Definition RTC_UPDATE_POLLS : nat := Z.to_nat 100000.
Definition RTC_SAMPLE_ATTEMPTS : nat := 8.
Definition WALL_CLOCK_MIN_YEAR : Z := 1970.
Definition WALL_CLOCK_MAX_YEAR : Z := 9999.

Inductive wall_clock_status :=
| WALL_CLOCK_STATUS_OK
| WALL_CLOCK_STATUS_NULL_ARGUMENT
| WALL_CLOCK_STATUS_UPDATE_TIMEOUT
| WALL_CLOCK_STATUS_UNSTABLE
| WALL_CLOCK_STATUS_INVALID_DATA
| WALL_CLOCK_STATUS_RANGE.

Record wall_clock_utc := Utc {
  year : Z;
  month : Z;
  day : Z;
  hour : Z;
  minute : Z;
  second : Z;
  weekday : Z
}.

#[global] Instance wall_clock_utc_eq_dec : EqDecision wall_clock_utc.
Proof. solve_decision. Defined.

Record rtc_sample := RtcSample {
  rs_status_b : Z;
  rs_second : Z;
  rs_minute : Z;
  rs_hour : Z;
  rs_weekday : Z;
  rs_day : Z;
  rs_month : Z;
  rs_year : Z;
  rs_century : Z
}.

#[global] Instance rtc_sample_eq_dec : EqDecision rtc_sample.
Proof. solve_decision. Defined.

(** [(value & flag) != 0]. *)
Definition flagged (value flag : Z) : bool := negb (value .& flag =? 0).

(** ** Decoding *)

(** [None] when a digit is above nine. *)
Definition bcd_decode (input : Z) : option Z :=
  let low := input .& 0x0F in
  let high := input .>> 4 in
  if (9 <? low) || (9 <? high) then None else Some (u8 (high * 10 + low)).

Definition leap_year (y : Z) : bool :=
  (y mod 4 =? 0) && (negb (y mod 100 =? 0) || (y mod 400 =? 0)).

Definition month_days : list Z := [31; 28; 31; 30; 31; 30; 31; 31; 30; 31; 30; 31].

Definition days_in_month (y m : Z) : Z :=
  if (m =? 0) || (12 <? m) then 0
  else if (m =? 2) && leap_year y then 29
  else nth (Z.to_nat (m - 1)) month_days 0.

(** [utc] is [None] for a null pointer. *)
Definition validate_utc (utc : option wall_clock_utc) : wall_clock_status :=
  match utc with
  | None => WALL_CLOCK_STATUS_NULL_ARGUMENT
  | Some t =>
      if (year t <? WALL_CLOCK_MIN_YEAR) || (WALL_CLOCK_MAX_YEAR <? year t) then WALL_CLOCK_STATUS_RANGE
      else if (month t =? 0) || (12 <? month t) || (day t =? 0) || (days_in_month (year t) (month t) <? day t)
           || (23 <? hour t) || (59 <? minute t) || (59 <? second t) || (weekday t =? 0) || (7 <? weekday t) then
        WALL_CLOCK_STATUS_INVALID_DATA
      else WALL_CLOCK_STATUS_OK
  end.

(** The fields before the hour format is applied: second, minute, weekday, day, month,
    year, century, hour. *)
Definition decode_fields (binary : bool) (s : rtc_sample) (encoded_hour : Z) : option (Z * Z * Z * Z * Z * Z * Z * Z) :=
  if binary then
    Some (rs_second s, rs_minute s, rs_weekday s, rs_day s, rs_month s, rs_year s, rs_century s, encoded_hour)
  else
    second ← bcd_decode (rs_second s);
    minute ← bcd_decode (rs_minute s);
    weekday ← bcd_decode (rs_weekday s);
    day ← bcd_decode (rs_day s);
    month ← bcd_decode (rs_month s);
    year ← bcd_decode (rs_year s);
    century ← bcd_decode (rs_century s);
    hour ← bcd_decode encoded_hour;
    Some (second, minute, weekday, day, month, year, century, hour).

(** [None]: the hour is impossible in the format. *)
Definition decode_hour (hour_24 pm : bool) (hour : Z) : option Z :=
  if hour_24 then if pm || (23 <? hour) then None else Some hour
  else if (hour =? 0) || (12 <? hour) then None
  else Some (u8 (hour mod 12 + (if pm then 12 else 0))).

(** [inr] is what is stored in [*result]. *)
Definition decode_sample (s : rtc_sample) : wall_clock_status + wall_clock_utc :=
  let binary := flagged (rs_status_b s) RTC_BINARY_MODE in
  let hour_24 := flagged (rs_status_b s) RTC_24_HOUR_MODE in
  let pm := flagged (rs_hour s) RTC_PM in
  if flagged (rs_status_b s) RTC_UPDATE_INHIBIT then inl WALL_CLOCK_STATUS_INVALID_DATA
  else
    match decode_fields binary s (rs_hour s .& u8 (Z.lnot RTC_PM)) with
    | None => inl WALL_CLOCK_STATUS_INVALID_DATA
    | Some (second, minute, weekday, day, month, year, century, hour) =>
        match decode_hour hour_24 pm hour with
        | None => inl WALL_CLOCK_STATUS_INVALID_DATA
        | Some hour =>
            let decoded := Utc (u16 (century * 100 + year)) month day hour minute second weekday in
            match validate_utc (Some decoded) with
            | WALL_CLOCK_STATUS_OK => inr decoded
            | status => inl status
            end
        end
    end.

(** ** Seconds since 1970 *)

Definition leap_days_through (y : Z) : Z := u64 (y / 4 - y / 100 + y / 400).

(** The loop over the months before, [n] left from [month] on. *)
Fixpoint add_months (n : nat) (y m days : Z) : Z :=
  match n with
  | O => days
  | S n => add_months n y (m + 1) (u64 (days + days_in_month y m))
  end.

(** The conversion of [uint64_t] to [int64_t]. *)
Definition s64 (x : Z) : Z := if x <? 2 ^ 63 then x else x - 2 ^ 64.

(** [out] is [seconds != NULL]; [inr] is what is stored there. *)
Definition wall_clock_utc_to_unix (utc : option wall_clock_utc) (out : bool) : wall_clock_status + Z :=
  if negb out then inl WALL_CLOCK_STATUS_NULL_ARGUMENT
  else
    match validate_utc utc, utc with
    | WALL_CLOCK_STATUS_OK, Some t =>
        let days := u64 (u64 ((year t - WALL_CLOCK_MIN_YEAR) * 365 + leap_days_through (u16 (year t - 1)))
                         - leap_days_through (u16 (WALL_CLOCK_MIN_YEAR - 1))) in
        let days := add_months (Z.to_nat (month t - 1)) (year t) 1 days in
        let days := u64 (days + u32 (day t - 1)) in
        inr (s64 (u64 (days * 86400 + hour t * 3600 + minute t * 60 + second t)))
    | status, _ => inl status
    end.

(** ** Reading the chip *)

Section Reading.
Context {H : Type} `{!port_hardware H}.

Definition rtc_read_register (reg : Z) (h : H) : Z * H :=
  cpu_in8 RTC_DATA_PORT (cpu_io_wait (cpu_out8 RTC_INDEX_PORT reg h)).

Fixpoint rtc_poll (n : nat) (h : H) : bool * H :=
  match n with
  | O => (false, h)
  | S n =>
      let '(a, h) := rtc_read_register RTC_STATUS_A h in
      if negb (flagged a RTC_UPDATE_IN_PROGRESS) then (true, h) else rtc_poll n h
  end.

Definition rtc_wait_for_update (h : H) : bool * H := rtc_poll RTC_UPDATE_POLLS h.

(** The nine data registers, in the order they are read. *)
Definition read_fields (h : H) : rtc_sample * H :=
  let '(b, h) := rtc_read_register RTC_STATUS_B h in
  let '(second, h) := rtc_read_register RTC_SECONDS h in
  let '(minute, h) := rtc_read_register RTC_MINUTES h in
  let '(hour, h) := rtc_read_register RTC_HOURS h in
  let '(weekday, h) := rtc_read_register RTC_WEEKDAY h in
  let '(day, h) := rtc_read_register RTC_DAY h in
  let '(month, h) := rtc_read_register RTC_MONTH h in
  let '(year, h) := rtc_read_register RTC_YEAR h in
  let '(century, h) := rtc_read_register RTC_CENTURY h in
  (RtcSample b second minute hour weekday day month year century, h).

Definition rtc_read_sample (h : H) : (wall_clock_status + rtc_sample) * H :=
  let '(settled, h) := rtc_wait_for_update h in
  if negb settled then (inl WALL_CLOCK_STATUS_UPDATE_TIMEOUT, h)
  else
    let '(s, h) := read_fields h in
    let '(a, h) := rtc_read_register RTC_STATUS_A h in
    if negb (flagged a RTC_UPDATE_IN_PROGRESS) then (inr s, h) else (inl WALL_CLOCK_STATUS_UNSTABLE, h).

Definition rtc_samples_equal (a b : rtc_sample) : bool :=
  (rs_status_b a =? rs_status_b b) && (rs_second a =? rs_second b) && (rs_minute a =? rs_minute b) &&
  (rs_hour a =? rs_hour b) && (rs_weekday a =? rs_weekday b) && (rs_day a =? rs_day b) &&
  (rs_month a =? rs_month b) && (rs_year a =? rs_year b) && (rs_century a =? rs_century b).

(** The loop over [RTC_SAMPLE_ATTEMPTS]; [status] is the variable when it ends. *)
Fixpoint sample_attempts (n : nat) (status : wall_clock_status) (h : H) : (wall_clock_status + wall_clock_utc) * H :=
  match n with
  | O => (inl status, h)
  | S n =>
      match rtc_read_sample h with
      | (inl WALL_CLOCK_STATUS_UPDATE_TIMEOUT, h) => (inl WALL_CLOCK_STATUS_UPDATE_TIMEOUT, h)
      | (inl status, h) => sample_attempts n status h
      | (inr first, h) =>
          match rtc_read_sample h with
          | (inl WALL_CLOCK_STATUS_UPDATE_TIMEOUT, h) => (inl WALL_CLOCK_STATUS_UPDATE_TIMEOUT, h)
          | (inr second, h) =>
              if rtc_samples_equal first second then (decode_sample second, h)
              else sample_attempts n WALL_CLOCK_STATUS_UNSTABLE h
          | (inl _, h) => sample_attempts n WALL_CLOCK_STATUS_UNSTABLE h
          end
      end
  end.

(** [out] is [result != NULL]. *)
Definition wall_clock_read_utc (out : bool) (h : H) : (wall_clock_status + wall_clock_utc) * H :=
  if negb out then (inl WALL_CLOCK_STATUS_NULL_ARGUMENT, h)
  else
    let restore_interrupts := cpu_interrupts_enabled h in
    let h := if restore_interrupts then cpu_interrupt_disable h else h in
    let '(r, h) := sample_attempts RTC_SAMPLE_ATTEMPTS WALL_CLOCK_STATUS_UNSTABLE h in
    (r, if restore_interrupts then cpu_interrupt_enable h else h).

Definition wall_clock_read_unix_seconds (out : bool) (h : H) : (wall_clock_status + Z) * H :=
  if negb out then (inl WALL_CLOCK_STATUS_NULL_ARGUMENT, h)
  else
    match wall_clock_read_utc true h with
    | (inr utc, h) => (wall_clock_utc_to_unix (Some utc) true, h)
    | (inl status, h) => (inl status, h)
    end.
End Reading.

(** ** The calendar

    The reference: a day is numbered by the lengths of the years and months before it,
    1970-01-01 being day zero. *)

Ltac euclid := Z.to_euclidean_division_equations; lia.

(** The leap years from year 1 to [y]. *)
Definition leaps (y : Z) : Z := y / 4 - y / 100 + y / 400.

Definition year_length (y : Z) : Z := if leap_year y then 366 else 365.

Definition days_before_year (y : Z) : Z := 365 * (y - 1970) + (leaps (y - 1) - leaps 1969).

Definition days_before_month (y m : Z) : Z := sumz (days_in_month y) (seqZ 1 (m - 1)).

Definition day_number (y m d : Z) : Z := days_before_year y + days_before_month y m + (d - 1).

Lemma leaps_step y : leaps y = leaps (y - 1) + (if leap_year y then 1 else 0).
Proof.
  unfold leaps, leap_year.
  destruct (Z.eqb_spec (y mod 4) 0), (Z.eqb_spec (y mod 100) 0), (Z.eqb_spec (y mod 400) 0); cbn [andb orb negb]; euclid.
Qed.

Lemma days_before_year_step y : days_before_year (y + 1) = days_before_year y + year_length y.
Proof.
  unfold days_before_year, year_length. replace (y + 1 - 1) with y by lia. rewrite (leaps_step y).
  destruct (leap_year y); lia.
Qed.

(** Case on a month. *)
Ltac months m := assert (m = 1 \/ m = 2 \/ m = 3 \/ m = 4 \/ m = 5 \/ m = 6 \/ m = 7 \/ m = 8 \/ m = 9 \/
  m = 10 \/ m = 11 \/ m = 12) as Hcase by lia; destruct_or? Hcase; subst m.

(** The table behind the months. *)
Lemma days_before_month_table y m :
  1 <= m <= 12 ->
  days_before_month y m =
    nth (Z.to_nat (m - 1)) [0; 31; 59; 90; 120; 151; 181; 212; 243; 273; 304; 334] 0 +
    (if (2 <? m) && leap_year y then 1 else 0).
Proof.
  intros Hm. unfold days_before_month, days_in_month.
  months m; cbv -[leap_year]; destruct (leap_year y); reflexivity.
Qed.

Lemma days_before_month_step y m :
  1 <= m < 12 -> days_before_month y (m + 1) = days_before_month y m + days_in_month y m.
Proof.
  intros Hm. unfold days_before_month. replace (m + 1 - 1) with ((m - 1) + 1) by lia.
  rewrite seqZ_app, sumz_app by lia. replace (1 + (m - 1)) with m by lia.
  rewrite (seqZ_cons m) by lia. cbn [sumz]. change (Z.pred 1) with 0. change (seqZ (Z.succ m) 0) with (@nil Z). cbn [sumz]. lia.
Qed.

Lemma days_in_month_range y m : 1 <= m <= 12 -> 28 <= days_in_month y m <= 31.
Proof. intros Hm. unfold days_in_month. months m; cbv -[leap_year]; destruct (leap_year y); done. Qed.

Lemma year_end y : days_before_month y 12 + days_in_month y 12 = year_length y.
Proof. rewrite days_before_month_table by lia. unfold year_length, days_in_month. cbv -[leap_year]. by destruct (leap_year y). Qed.

(** Months do not overlap. *)
Lemma month_order y m m' :
  1 <= m -> m < m' -> m' <= 12 -> days_before_month y m + days_in_month y m <= days_before_month y m'.
Proof.
  intros H1 Hlt H2. replace m' with (m + 1 + (m' - m - 1)) by lia.
  assert (Hn : 0 <= m' - m - 1) by lia. remember (m' - m - 1) as n eqn:En.
  assert (Hb : m + 1 + n <= 12) by lia. clear En Hlt H2 m'. revert n Hn Hb.
  apply (natlike_ind (fun n => m + 1 + n <= 12 -> days_before_month y m + days_in_month y m <= days_before_month y (m + 1 + n))).
  - intros Hb. rewrite Z.add_0_r, days_before_month_step by lia. lia.
  - intros n Hn IH Hb. replace (m + 1 + Z.succ n) with (m + 1 + n + 1) by lia.
    rewrite days_before_month_step by lia. pose proof (days_in_month_range y (m + 1 + n)). lia.
Qed.

Lemma days_before_month_nonneg y m : 1 <= m <= 12 -> 0 <= days_before_month y m.
Proof. intros Hm. rewrite days_before_month_table by done. months m; cbv -[leap_year]; destruct (leap_year y); done. Qed.

Lemma day_in_year y m d :
  1 <= m <= 12 -> 1 <= d <= days_in_month y m -> 0 <= days_before_month y m + (d - 1) < year_length y.
Proof.
  intros Hm Hd. rewrite <- year_end.
  pose proof (days_before_month_nonneg y m Hm).
  destruct (decide (m = 12)) as [-> |]; [lia|].
  pose proof (month_order y m 12). pose proof (days_in_month_range y 12). lia.
Qed.

Lemma year_order y y' : y < y' -> days_before_year y + year_length y <= days_before_year y'.
Proof.
  intros Hlt. replace y' with (y + 1 + (y' - y - 1)) by lia.
  assert (Hn : 0 <= y' - y - 1) by lia. revert Hn. generalize (y' - y - 1). clear Hlt y'.
  apply (natlike_ind (fun n => days_before_year y + year_length y <= days_before_year (y + 1 + n))).
  - rewrite Z.add_0_r, days_before_year_step. lia.
  - intros n Hn IH. replace (y + 1 + Z.succ n) with (y + 1 + n + 1) by lia. rewrite days_before_year_step.
    unfold year_length at 2. destruct (leap_year _); lia.
Qed.

(** A date that exists. *)
Definition date_exists (y m d : Z) : Prop := 1 <= m <= 12 /\ 1 <= d <= days_in_month y m.

(** Earlier dates have smaller numbers. *)
Lemma day_number_order y m d y' m' d' :
  date_exists y m d -> date_exists y' m' d' ->
  day_number y m d < day_number y' m' d' <-> y < y' \/ y = y' /\ (m < m' \/ m = m' /\ d < d').
Proof.
  intros [Hm Hd] [Hm' Hd']. pose proof (day_in_year y m d Hm Hd). pose proof (day_in_year y' m' d' Hm' Hd').
  unfold day_number. destruct (Z.lt_trichotomy y y') as [Hlt|[<- |Hlt]].
  - pose proof (year_order y y' Hlt). lia.
  - destruct (Z.lt_trichotomy m m') as [Hmm|[<- |Hmm]]; [|lia|].
    + pose proof (month_order y m m' ltac:(lia) Hmm ltac:(lia)). lia.
    + pose proof (month_order y m' m ltac:(lia) Hmm ltac:(lia)). lia.
  - pose proof (year_order y' y Hlt). lia.
Qed.

(** The day after. *)
Lemma day_number_next y m d :
  date_exists y m d ->
  day_number y m d + 1 =
    if d <? days_in_month y m then day_number y m (d + 1)
    else if m =? 12 then day_number (y + 1) 1 1 else day_number y (m + 1) 1.
Proof.
  intros [Hm Hd]. unfold day_number. destruct (Z.ltb_spec d (days_in_month y m)); [lia|].
  destruct (Z.eqb_spec m 12) as [-> |Hne].
  - rewrite days_before_year_step, <- year_end. change (days_before_month (y + 1) 1) with 0. lia.
  - rewrite days_before_month_step by lia. lia.
Qed.

(** ** Conversion *)

(** The fields as the structure holds them. *)
Definition utc_fits (t : wall_clock_utc) : Prop :=
  fits 16 (year t) /\ fits 8 (month t) /\ fits 8 (day t) /\ fits 8 (hour t) /\ fits 8 (minute t) /\
  fits 8 (second t) /\ fits 8 (weekday t).

Lemma validate_utc_iff t :
  utc_fits t ->
  validate_utc (Some t) = WALL_CLOCK_STATUS_OK <->
  1970 <= year t <= 9999 /\ date_exists (year t) (month t) (day t) /\ 0 <= hour t <= 23 /\
  0 <= minute t <= 59 /\ 0 <= second t <= 59 /\ 1 <= weekday t <= 7.
Proof.
  unfold utc_fits, fits. intros Hf. unfold validate_utc, date_exists, WALL_CLOCK_MIN_YEAR, WALL_CLOCK_MAX_YEAR.
  destruct (_ || (9999 <? year t)) eqn:E1; [split; [done|lia]|].
  destruct (_ || (7 <? weekday t)) eqn:E2; [split; [done|lia]|]. split; [lia|done].
Qed.

Definition civil_seconds (t : wall_clock_utc) : Z :=
  day_number (year t) (month t) (day t) * 86400 + hour t * 3600 + minute t * 60 + second t.

Lemma leaps_range y : 1 <= y <= 9999 -> 0 <= leaps y <= 2424.
Proof. intros Hy. unfold leaps. euclid. Qed.

Lemma add_months_exact n y m days :
  1 <= m -> m + Z.of_nat n <= 13 -> 0 <= days < 4294967296 ->
  add_months n y m days = days + sumz (days_in_month y) (seqZ m (Z.of_nat n)).
Proof.
  intros H1 H2 [H0 Hd]. assert (Hb : days + 31 * Z.of_nat n < 8589934592) by lia. clear Hd. revert m days H1 H2 Hb H0.
  induction n as [|n IH]; intros m days H1 H2 Hb H0; cbn [add_months]; [change (seqZ m (Z.of_nat 0)) with (@nil Z); cbn [sumz]; lia|].
  pose proof (days_in_month_range y m ltac:(lia)).
  assert (Hbig : 8589934592 < 2 ^ 64) by reflexivity.
  rewrite wrap_small by (unfold fits; lia). rewrite IH by lia.
  rewrite (seqZ_cons m) by lia. cbn [sumz]. replace (Z.pred (Z.of_nat (S n))) with (Z.of_nat n) by lia.
  change (Z.succ m) with (m + 1). lia.
Qed.

Lemma day_number_range t :
  1970 <= year t <= 9999 -> date_exists (year t) (month t) (day t) ->
  0 <= day_number (year t) (month t) (day t) < 2932897.
Proof.
  intros Hy [Hm Hd]. pose proof (day_in_year _ _ _ Hm Hd) as Hin. unfold day_number.
  assert (0 <= days_before_year (year t)).
  { destruct (decide (year t = 1970)) as [-> |]; [done|]. pose proof (year_order 1970 (year t) ltac:(lia)) as Ho.
    change (days_before_year 1970) with 0 in Ho. change (year_length 1970) with 365 in Ho. lia. }
  assert (days_before_year (year t) + year_length (year t) <= 2932897).
  { destruct (decide (year t = 9999)) as [-> |]; [done|]. pose proof (year_order (year t) 9999 ltac:(lia)) as Ho.
    change (days_before_year 9999) with 2932532 in Ho. lia. }
  lia.
Qed.

Lemma unix_exact t :
  utc_fits t -> validate_utc (Some t) = WALL_CLOCK_STATUS_OK ->
  wall_clock_utc_to_unix (Some t) true = inr (civil_seconds t) /\ 0 <= civil_seconds t <= 253402300799.
Proof.
  intros Hf Hv. pose proof (proj1 (validate_utc_iff t Hf) Hv) as (Hy & He & Hh & Hmi & Hs & _).
  pose proof (day_number_range t Hy He) as Hr. pose proof He as [Hm Hd].
  pose proof (days_in_month_range (year t) (month t) Hm) as Hl.
  assert (Hc : 0 <= civil_seconds t <= 253402300799) by (unfold civil_seconds; lia). split; [|exact Hc].
  unfold wall_clock_utc_to_unix. cbn [negb]. rewrite Hv. cbv zeta. f_equal.
  change (u16 (WALL_CLOCK_MIN_YEAR - 1)) with 1969. change (leap_days_through 1969) with (leaps 1969).
  unfold WALL_CLOCK_MIN_YEAR. rewrite (wrap_small 16 (year t - 1)) by (unfold fits; lia).
  unfold leap_days_through. fold (leaps (year t - 1)). pose proof (leaps_range (year t - 1) ltac:(lia)) as Hlp.
  assert (Hbig : 1099511627776 < 2 ^ 64) by reflexivity. assert (H32 : 4294967296 <= 2 ^ 32) by reflexivity.
  assert (H63 : 1099511627776 < 2 ^ 63) by reflexivity.
  rewrite !(wrap_small 64 (leaps _)) by (unfold fits; lia).
  rewrite (wrap_small 64 (_ + leaps (year t - 1))) by (unfold fits; lia).
  change (leaps 1969) with 477 in *.
  assert (Hdy : 0 <= days_before_year (year t) <= 2932897).
  { pose proof (day_in_year _ _ _ Hm Hd). unfold day_number in Hr.
    pose proof (days_before_month_nonneg (year t) (month t) Hm).
    destruct (decide (year t = 1970)) as [-> |]; [split; vm_compute; discriminate|].
    pose proof (year_order 1970 (year t) ltac:(lia)) as Ho.
    change (days_before_year 1970) with 0 in Ho. change (year_length 1970) with 365 in Ho. lia. }
  replace ((year t - 1970) * 365 + leaps (year t - 1) - 477) with (days_before_year (year t))
    by (unfold days_before_year; change (leaps 1969) with 477; lia).
  rewrite (wrap_small 64 (days_before_year _)) by (unfold fits; lia).
  rewrite add_months_exact by lia. rewrite Z2Nat.id by lia. fold (days_before_month (year t) (month t)).
  rewrite (wrap_small 32) by (unfold fits; lia).
  fold (day_number (year t) (month t) (day t)).
  rewrite (wrap_small 64 (day_number _ _ _)) by (unfold fits; lia).
  fold (civil_seconds t). rewrite wrap_small by (unfold fits; lia). unfold s64.
  destruct (Z.ltb_spec (civil_seconds t) (2 ^ 63)); [done|lia].
Qed.

(** The second after [t]. *)
Definition next_second (t : wall_clock_utc) : wall_clock_utc :=
  if second t <? 59 then Utc (year t) (month t) (day t) (hour t) (minute t) (second t + 1) (weekday t)
  else if minute t <? 59 then Utc (year t) (month t) (day t) (hour t) (minute t + 1) 0 (weekday t)
  else if hour t <? 23 then Utc (year t) (month t) (day t) (hour t + 1) 0 0 (weekday t)
  else
    let w := weekday t mod 7 + 1 in
    if day t <? days_in_month (year t) (month t) then Utc (year t) (month t) (day t + 1) 0 0 0 w
    else if month t =? 12 then Utc (year t + 1) 1 1 0 0 0 w
    else Utc (year t) (month t + 1) 1 0 0 0 w.

Lemma civil_seconds_next t :
  date_exists (year t) (month t) (day t) -> hour t <= 23 -> minute t <= 59 -> second t <= 59 ->
  civil_seconds (next_second t) = civil_seconds t + 1.
Proof.
  intros He Hh Hm Hs. pose proof (day_number_next _ _ _ He) as Hn. unfold next_second, civil_seconds. cbv zeta.
  destruct (Z.ltb_spec (second t) 59); [cbn; lia|]. destruct (Z.ltb_spec (minute t) 59); [cbn; lia|].
  destruct (Z.ltb_spec (hour t) 23); [cbn; lia|].
  destruct (day t <? _); [cbn [year month day hour minute second] in *; lia|].
  destruct (month t =? 12); cbn [year month day hour minute second] in *; lia.
Qed.

(** Times in the order of a calendar. *)
Definition civil_lt (t u : wall_clock_utc) : Prop :=
  year t < year u \/ year t = year u /\ (month t < month u \/ month t = month u /\ (day t < day u \/ day t = day u /\
  (hour t < hour u \/ hour t = hour u /\ (minute t < minute u \/ minute t = minute u /\ second t < second u)))).

Lemma civil_seconds_order t u :
  date_exists (year t) (month t) (day t) -> date_exists (year u) (month u) (day u) ->
  0 <= hour t <= 23 -> 0 <= minute t <= 59 -> 0 <= second t <= 59 ->
  0 <= hour u <= 23 -> 0 <= minute u <= 59 -> 0 <= second u <= 59 ->
  civil_seconds t < civil_seconds u <-> civil_lt t u.
Proof.
  intros Ht Hu H1 H2 H3 H4 H5 H6. pose proof (day_number_order _ _ _ _ _ _ Ht Hu) as O1.
  pose proof (day_number_order _ _ _ _ _ _ Hu Ht) as O2. unfold civil_seconds, civil_lt.
  destruct (Z.lt_trichotomy (day_number (year t) (month t) (day t)) (day_number (year u) (month u) (day u)))
    as [Hlt|[Heq|Hlt]]; lia.
Qed.

(** C34: The conversion counts seconds: it never overflows, answers 0 exactly for
    1970-01-01 00:00:00, one more for the next second of the calendar (through months of
    every length, leap days and years), and orders any two times as the calendar does. *)
Theorem wall_clock_utc_to_unix_exact t :
  utc_fits t -> validate_utc (Some t) = WALL_CLOCK_STATUS_OK ->
  exists n, wall_clock_utc_to_unix (Some t) true = inr n /\ 0 <= n <= 253402300799 /\
    (n = 0 <-> t = Utc 1970 1 1 0 0 0 (weekday t)) /\
    (validate_utc (Some (next_second t)) = WALL_CLOCK_STATUS_OK ->
       wall_clock_utc_to_unix (Some (next_second t)) true = inr (n + 1)) /\
    (forall u k, utc_fits u -> wall_clock_utc_to_unix (Some u) true = inr k -> (n < k <-> civil_lt t u)).
Proof.
  intros Hf Hv. destruct (unix_exact t Hf Hv) as [E Hr]. exists (civil_seconds t). split; [done|]. split; [done|].
  pose proof (proj1 (validate_utc_iff t Hf) Hv) as (Hy & He & Hh & Hm & Hs & Hw).
  assert (Hlt : forall u k, utc_fits u -> wall_clock_utc_to_unix (Some u) true = inr k -> (civil_seconds t < k <-> civil_lt t u)).
  { intros u k Hu Ek.
    assert (Hvu : validate_utc (Some u) = WALL_CLOCK_STATUS_OK).
    { unfold wall_clock_utc_to_unix in Ek. cbn [negb] in Ek. by destruct (validate_utc (Some u)). }
    destruct (unix_exact u Hu Hvu) as [Eu _]. rewrite Eu in Ek. injection Ek as <-.
    pose proof (proj1 (validate_utc_iff u Hu) Hvu) as (_ & Hu1 & Hu2 & Hu3 & Hu4 & _).
    by apply civil_seconds_order. }
  split; [|split; [|exact Hlt]].
  - split; [|by intros ->]. intros Hz.
    pose proof (Hlt (Utc 1970 1 1 0 0 0 1) 0 ltac:(repeat split; vm_compute; congruence) eq_refl) as H0.
    assert (Hrev : civil_lt (Utc 1970 1 1 0 0 0 1) t <-> 0 < civil_seconds t).
    { symmetry. apply (civil_seconds_order (Utc 1970 1 1 0 0 0 1) t); done. }
    rewrite Hz in *. unfold civil_lt in *. cbn [year month day hour minute second] in *.
    destruct He as [He1 He2]. destruct t as [y m d hh mm ss w]. cbn [year month day hour minute second weekday] in *.
    f_equal; lia.
  - intros Hvn. assert (Hfn : utc_fits (next_second t)).
    { pose proof (days_in_month_range (year t) (month t) (proj1 He)). destruct He as [He1 He2].
      unfold utc_fits, fits, next_second in *. cbv zeta. clear -Hf Hy He1 He2 Hh Hm Hs Hw H.
      change (2 ^ 16) with 65536 in *. change (2 ^ 8) with 256 in *.
      repeat case_match; cbn [year month day hour minute second weekday]; euclid. }
    rewrite (proj1 (unix_exact _ Hfn Hvn)). f_equal. apply civil_seconds_next; [done|lia..].
Qed.

(** ** The chip's formats *)

(** Decimal or binary registers, twelve or twenty-four hours. *)
Record clock_format := ClockFormat { cf_binary : bool; cf_hour_24 : bool }.

Definition to_bcd (x : Z) : Z := x / 10 * 16 + x mod 10.

Definition encode_field (f : clock_format) (x : Z) : Z := if cf_binary f then x else to_bcd x.

(** Midnight and noon are twelve in the twelve-hour format. *)
Definition encode_hour (f : clock_format) (h : Z) : Z :=
  if cf_hour_24 f then encode_field f h
  else encode_field f (if h mod 12 =? 0 then 12 else h mod 12) + (if 12 <=? h then 0x80 else 0).

Definition encode_status (f : clock_format) : Z :=
  (if cf_binary f then RTC_BINARY_MODE else 0) + (if cf_hour_24 f then RTC_24_HOUR_MODE else 0).

(** What a chip in format [f] shows at time [t]. *)
Definition encode_sample (f : clock_format) (t : wall_clock_utc) : rtc_sample :=
  RtcSample (encode_status f) (encode_field f (second t)) (encode_field f (minute t)) (encode_hour f (hour t))
    (encode_field f (weekday t)) (encode_field f (day t)) (encode_field f (month t))
    (encode_field f (year t mod 100)) (encode_field f (year t / 100)).

Lemma bcd_decode_alt b :
  bcd_decode b = if (9 <? b mod 16) || (9 <? b / 16) then None else Some (u8 (b / 16 * 10 + b mod 16)).
Proof.
  unfold bcd_decode. change 0x0F with (2 ^ 4 - 1). rewrite land_mask, Z.shiftr_div_pow2 by lia. done.
Qed.

Lemma bcd_roundtrip x : 0 <= x <= 99 -> bcd_decode (to_bcd x) = Some x.
Proof.
  intros Hx. rewrite bcd_decode_alt. unfold to_bcd.
  assert (E1 : (x / 10 * 16 + x mod 10) mod 16 = x mod 10) by euclid.
  assert (E2 : (x / 10 * 16 + x mod 10) / 16 = x / 10) by euclid. rewrite E1, E2.
  destruct (_ || _) eqn:E; [exfalso; euclid|].
  rewrite wrap_small by (unfold fits; change (2 ^ 8) with 256; euclid). f_equal. euclid.
Qed.

(** Every byte that is accepted has one decimal reading. *)
Lemma bcd_decode_inv b x : fits 8 b -> bcd_decode b = Some x -> b = to_bcd x /\ 0 <= x <= 99.
Proof.
  unfold fits. change (2 ^ 8) with 256. intros Hb. rewrite bcd_decode_alt. destruct (_ || _) eqn:E; [done|].
  intros [= <-]. unfold to_bcd. rewrite wrap_small by (unfold fits; change (2 ^ 8) with 256; euclid). euclid.
Qed.

Definition hour_decodes (f : clock_format) (h : Z) : bool :=
  let r := encode_hour f h in
  match (if cf_binary f then Some (r .& u8 (Z.lnot RTC_PM)) else bcd_decode (r .& u8 (Z.lnot RTC_PM))) with
  | Some x => bool_decide (decode_hour (cf_hour_24 f) (flagged r RTC_PM) x = Some h)
  | None => false
  end.

Lemma hour_roundtrip f h : 0 <= h <= 23 -> hour_decodes f h = true.
Proof.
  intros Hh. assert (Hall : forallb (hour_decodes f) (seqZ 0 24) = true)
    by (destruct f as [[] []]; vm_compute; reflexivity).
  rewrite forallb_forall in Hall. apply Hall, list_elem_of_In, elem_of_seqZ. lia.
Qed.

Lemma status_flags f :
  flagged (encode_status f) RTC_BINARY_MODE = cf_binary f /\ flagged (encode_status f) RTC_24_HOUR_MODE = cf_hour_24 f /\
  flagged (encode_status f) RTC_UPDATE_INHIBIT = false.
Proof. by destruct f as [[] []]. Qed.

Lemma decode_encode_sample f t :
  utc_fits t -> validate_utc (Some t) = WALL_CLOCK_STATUS_OK -> decode_sample (encode_sample f t) = inr t.
Proof.
  intros Hf Hv. pose proof (proj1 (validate_utc_iff t Hf) Hv) as (Hy & [Hmo Hd] & Hh & Hmi & Hs & Hw).
  pose proof (days_in_month_range (year t) (month t) Hmo) as Hl.
  assert (Hc : 0 <= year t mod 100 <= 99 /\ 0 <= year t / 100 <= 99 /\ year t / 100 * 100 + year t mod 100 = year t) by euclid.
  destruct Hc as (Hc1 & Hc2 & Hc3).
  unfold decode_sample. cbn [rs_status_b rs_hour encode_sample]. destruct (status_flags f) as (-> & -> & ->).
  pose proof (hour_roundtrip f (hour t) Hh) as Hr. unfold hour_decodes in Hr. cbv zeta in *.
  set (r := encode_hour f (hour t)) in *. unfold decode_fields. cbn [rs_second rs_minute rs_weekday rs_day rs_month rs_year rs_century encode_sample].
  assert (Hfin : forall h, decode_hour (cf_hour_24 f) (flagged r RTC_PM) h = Some (hour t) ->
    match decode_hour (cf_hour_24 f) (flagged r RTC_PM) h with
    | Some hour => match validate_utc (Some (Utc (u16 (year t / 100 * 100 + year t mod 100)) (month t) (day t) hour (minute t) (second t) (weekday t))) with
                   | WALL_CLOCK_STATUS_OK => inr (Utc (u16 (year t / 100 * 100 + year t mod 100)) (month t) (day t) hour (minute t) (second t) (weekday t))
                   | status => inl status
                   end
    | None => inl WALL_CLOCK_STATUS_INVALID_DATA
    end = inr t).
  { intros h ->. rewrite Hc3, wrap_small by (apply Hf). destruct t. cbn [year month day hour minute second weekday]. by rewrite Hv. }
  unfold encode_field in *. destruct (cf_binary f).
  - case_bool_decide as Hb; [|done]. by apply Hfin.
  - rewrite !bcd_roundtrip by lia. cbn [mbind option_bind]. destruct (bcd_decode (r .& _)) as [x|]; [|done].
    case_bool_decide as Hb; [|done]. by apply Hfin.
Qed.

(** A sample is nine bytes. *)
Definition sample_fits (s : rtc_sample) : Prop :=
  Forall (fits 8) [rs_status_b s; rs_second s; rs_minute s; rs_hour s; rs_weekday s; rs_day s; rs_month s; rs_year s; rs_century s].

Definition with_status (b : Z) (s : rtc_sample) : rtc_sample :=
  RtcSample b (rs_second s) (rs_minute s) (rs_hour s) (rs_weekday s) (rs_day s) (rs_month s) (rs_year s) (rs_century s).

Definition hour_inverts (hour_24 : bool) (r : Z) : bool :=
  match bcd_decode (r .& u8 (Z.lnot RTC_PM)) with
  | Some x =>
      match decode_hour hour_24 (flagged r RTC_PM) x with
      | Some h => encode_hour (ClockFormat false hour_24) h =? r
      | None => true
      end
  | None => true
  end.

Lemma hour_inverse hour_24 r : fits 8 r -> hour_inverts hour_24 r = true.
Proof.
  unfold fits. change (2 ^ 8) with 256. intros Hr.
  assert (Hall : forallb (hour_inverts hour_24) (seqZ 0 256) = true) by (destruct hour_24; vm_compute; reflexivity).
  rewrite forallb_forall in Hall. apply Hall, list_elem_of_In, elem_of_seqZ. lia.
Qed.

Lemma decode_valid s t : decode_sample s = inr t -> validate_utc (Some t) = WALL_CLOCK_STATUS_OK.
Proof.
  unfold decode_sample. destruct (flagged _ RTC_UPDATE_INHIBIT); [done|].
  destruct (decode_fields _ _ _) as [[[[[[[[? ?] ?] ?] ?] ?] ?] ?]|]; [|done].
  destruct (decode_hour _ _ _) as [h|]; [|done]. cbv zeta.
  match goal with |- context [validate_utc (Some ?u)] => destruct (validate_utc (Some u)) eqn:E end; try done.
  by intros [= <-].
Qed.

(** Whatever the format of the chip, decimal or binary, twelve or twenty-four hours,
    a valid time it shows is decoded to itself; nothing but a valid time is ever decoded;
    and on a decimal chip only one setting of the registers decodes to a given time, so a
    digit above nine or an impossible hour is refused rather than read as something
    plausible. *)
Theorem wall_clock_decode_roundtrip :
  (forall f t, utc_fits t -> validate_utc (Some t) = WALL_CLOCK_STATUS_OK -> decode_sample (encode_sample f t) = inr t) /\
  (forall s t, decode_sample s = inr t -> validate_utc (Some t) = WALL_CLOCK_STATUS_OK) /\
  (forall s t, sample_fits s -> flagged (rs_status_b s) RTC_BINARY_MODE = false -> decode_sample s = inr t ->
     s = with_status (rs_status_b s) (encode_sample (ClockFormat false (flagged (rs_status_b s) RTC_24_HOUR_MODE)) t)).
Proof.
  split; [exact decode_encode_sample|]. split; [exact decode_valid|]. intros s t Hs Hb Hd.
  unfold decode_sample in Hd. rewrite Hb in Hd. destruct (flagged _ RTC_UPDATE_INHIBIT); [done|]. cbv zeta in Hd.
  unfold sample_fits in Hs. rewrite !Forall_cons in Hs. destruct Hs as (_ & H1 & H2 & H3 & H4 & H5 & H6 & H7 & H8 & _).
  pose proof (hour_inverse (flagged (rs_status_b s) RTC_24_HOUR_MODE) (rs_hour s) H3) as Hh. unfold hour_inverts in Hh.
  unfold decode_fields in Hd.
  destruct (bcd_decode (rs_second s)) as [x1|] eqn:E1; [|done]. destruct (bcd_decode (rs_minute s)) as [x2|] eqn:E2; [|done].
  destruct (bcd_decode (rs_weekday s)) as [x4|] eqn:E4; [|done]. destruct (bcd_decode (rs_day s)) as [x5|] eqn:E5; [|done].
  destruct (bcd_decode (rs_month s)) as [x6|] eqn:E6; [|done]. destruct (bcd_decode (rs_year s)) as [x7|] eqn:E7; [|done].
  destruct (bcd_decode (rs_century s)) as [x8|] eqn:E8; [|done]. cbn [mbind option_bind] in Hd.
  destruct (bcd_decode (rs_hour s .& _)) as [x3|]; [|done]. cbn [mbind option_bind] in Hd.
  destruct (decode_hour _ _ x3) as [h|]; [|done]. apply Z.eqb_eq in Hh.
  match type of Hd with context [validate_utc (Some ?u)] => destruct (validate_utc (Some u)); try done end.
  injection Hd as <-. unfold with_status, encode_sample. cbn [year month day hour minute second weekday rs_second rs_minute rs_hour rs_weekday rs_day rs_month rs_year rs_century].
  apply bcd_decode_inv in E1 as [E1 _]; [|done]. apply bcd_decode_inv in E2 as [E2 _]; [|done].
  apply bcd_decode_inv in E4 as [E4 _]; [|done]. apply bcd_decode_inv in E5 as [E5 _]; [|done].
  apply bcd_decode_inv in E6 as [E6 _]; [|done]. apply bcd_decode_inv in E7 as [E7 R7]; [|done].
  apply bcd_decode_inv in E8 as [E8 R8]; [|done].
  rewrite wrap_small by (unfold fits; change (2 ^ 16) with 65536; lia).
  replace ((x8 * 100 + x7) mod 100) with x7 by euclid. replace ((x8 * 100 + x7) / 100) with x8 by euclid.
  rewrite Hh. unfold encode_field. cbn [cf_binary]. destruct s. cbn in *. congruence.
Qed.

(** ** Coherent reads *)

(** The registers as one sample. *)
Definition sample_of (r : Z -> Z) : rtc_sample :=
  RtcSample (r RTC_STATUS_B) (r RTC_SECONDS) (r RTC_MINUTES) (r RTC_HOURS) (r RTC_WEEKDAY) (r RTC_DAY) (r RTC_MONTH)
    (r RTC_YEAR) (r RTC_CENTURY).

(** A chip: [updates h] is the number of times it has moved its registers on, and they hold
    [contents n] after the [n]-th.  It may move them between any two reads, but two
    samples in a row are quick enough to see at most one update. *)
Class clock_chip (H : Type) `{!port_hardware H} := {
  updates : H -> Z;
  contents : Z -> Z -> Z;
  chip_reads reg h : reg <> RTC_STATUS_A -> (rtc_read_register reg h).1 = contents (updates h) reg;
  chip_advances reg h : updates h <= updates (rtc_read_register reg h).2;
  chip_interrupts_kept reg h : cpu_interrupts_enabled (rtc_read_register reg h).2 = cpu_interrupts_enabled h;
  chip_disable h : updates (cpu_interrupt_disable h) = updates h /\ cpu_interrupts_enabled (cpu_interrupt_disable h) = false;
  chip_enable h : updates (cpu_interrupt_enable h) = updates h /\ cpu_interrupts_enabled (cpu_interrupt_enable h) = true;
  chip_pace h s1 h1 s2 h2 : rtc_read_sample h = (inr s1, h1) -> rtc_read_sample h1 = (inr s2, h2) -> updates h2 <= updates h + 1
}.

Section Coherence.
Context {H : Type} `{!port_hardware H} `{!clock_chip H}.

(** What reading leaves of the hardware. *)
Definition later (h h' : H) : Prop := updates h <= updates h' /\ cpu_interrupts_enabled h' = cpu_interrupts_enabled h.

#[local] Instance later_preorder : PreOrder later.
Proof. unfold later. split; [intros h; split; [lia|done]|intros h1 h2 h3 [? ?] [? ?]; split; [lia|congruence]]. Qed.

Lemma register_later reg (h : H) : later h (rtc_read_register reg h).2.
Proof. split; [apply chip_advances|apply chip_interrupts_kept]. Qed.

Lemma poll_later n (h : H) : later h (rtc_poll n h).2.
Proof.
  revert h. induction n as [|n IH]; intros h; cbn [rtc_poll]; [reflexivity|].
  pose proof (register_later RTC_STATUS_A h) as Hr. destruct (rtc_read_register RTC_STATUS_A h) as [a h1].
  destruct (negb _); [exact Hr|]. etrans; [exact Hr|apply IH].
Qed.

(** Reads within one update see one setting of the registers. *)
Lemma fields_coherent (h h' : H) s :
  read_fields h = (s, h') -> later h h' /\ (updates h' = updates h -> s = sample_of (contents (updates h))).
Proof.
  unfold read_fields.
  repeat match goal with |- context [rtc_read_register ?r ?h] =>
    let Hl := fresh "Hl" in let Hr := fresh "Hr" in
    pose proof (register_later r h) as Hl; pose proof (chip_reads r h ltac:(discriminate)) as Hr;
    destruct (rtc_read_register r h) as [? ?]; cbn [fst snd] in Hl, Hr end.
  intros [= <- <-]. split; [repeat (etrans; [eassumption|]); reflexivity|].
  unfold later in *. intros Heq. unfold sample_of. subst. f_equal; f_equal; lia.
Qed.

Lemma sample_coherent (h h' : H) r :
  rtc_read_sample h = (r, h') -> later h h' /\ match r with
    | inr s => updates h' = updates h -> s = sample_of (contents (updates h))
    | inl st => st <> WALL_CLOCK_STATUS_OK
    end.
Proof.
  unfold rtc_read_sample, rtc_wait_for_update. pose proof (poll_later RTC_UPDATE_POLLS h) as Hp.
  destruct (rtc_poll RTC_UPDATE_POLLS h) as [b h1]. cbn [snd] in Hp. destruct b; cbn [negb]; [|by intros [= <- <-]].
  destruct (read_fields h1) as [s h2] eqn:Hf. apply fields_coherent in Hf as [Hl Hs].
  pose proof (register_later RTC_STATUS_A h2) as Ha. destruct (rtc_read_register RTC_STATUS_A h2) as [a h3]. cbn [snd] in Ha.
  assert (Hall : later h h3) by (etrans; [exact Hp|]; etrans; eassumption).
  destruct (negb _); intros [= <- <-]; (split; [exact Hall|]); [|done].
  unfold later in *. intros E. replace (updates h) with (updates h1) by lia. apply Hs. lia.
Qed.

Lemma samples_equal_eq a b : rtc_samples_equal a b = true -> a = b.
Proof. unfold rtc_samples_equal. intros E. destruct a, b. cbn in *. f_equal; lia. Qed.

(** One of two equal samples was taken within one update. *)
Lemma attempts_coherent n st (h h' : H) r :
  st <> WALL_CLOCK_STATUS_OK -> sample_attempts n st h = (r, h') -> later h h' /\ match r with
    | inr t => exists k, updates h <= k <= updates h' /\ decode_sample (sample_of (contents k)) = inr t
    | inl st => True
    end.
Proof.
  revert st h. induction n as [|n IH]; intros st h Hst; cbn [sample_attempts]; [by intros [= <- <-]|].
  destruct (rtc_read_sample h) as [r1 h1] eqn:E1. pose proof (sample_coherent h h1 r1 E1) as [L1 C1].
  assert (Hrec : forall st h2, st <> WALL_CLOCK_STATUS_OK -> later h h2 -> sample_attempts n st h2 = (r, h') ->
    later h h' /\ match r with
      | inr t => exists k, updates h <= k <= updates h' /\ decode_sample (sample_of (contents k)) = inr t
      | inl st => True
      end).
  { intros st2 h2 Hst2 L2 E. destruct (IH st2 h2 Hst2 E) as [L3 C3]. split; [by etrans|]. destruct r as [|t]; [done|].
    destruct C3 as (k & Hk & Hd). exists k. split; [|done]. destruct L2. lia. }
  destruct r1 as [st1|s1].
  { destruct st1; try (by apply Hrec). by intros [= <- <-]. }
  destruct (rtc_read_sample h1) as [r2 h2] eqn:E2. pose proof (sample_coherent h1 h2 r2 E2) as [L2 C2].
  assert (L12 : later h h2) by (by etrans). destruct r2 as [st2|s2].
  { destruct st2; try (by apply Hrec). by intros [= <- <-]. }
  destruct (rtc_samples_equal s1 s2) eqn:Eq; [|by apply Hrec]. intros [= <- <-]. split; [done|].
  destruct (decode_sample s2) as [|t] eqn:Hd; [done|]. apply samples_equal_eq in Eq as <-.
  pose proof (chip_pace _ _ _ _ _ E1 E2) as Hpace. destruct L1 as [L1 _], L2 as [L2 _].
  destruct (decide (updates h1 = updates h)) as [Eh|Nh].
  - exists (updates h). split; [lia|]. by rewrite <- (C1 Eh).
  - exists (updates h1). split; [lia|]. rewrite <- C2 by lia. done.
Qed.

End Coherence.

Module WallSamples.

Definition leap_night : wall_clock_utc := Utc 2024 2 29 23 59 59 4.

Lemma leap_night_fits : utc_fits leap_night.
Proof. repeat split; vm_compute; congruence. Qed.

Lemma wall_clock_utc_to_unix_exact_witness :
  wall_clock_utc_to_unix (Some leap_night) true = inr 1709251199 /\
  wall_clock_utc_to_unix (Some (Utc 2024 3 1 0 0 0 5)) true = inr 1709251200.
Proof.
  destruct (wall_clock_utc_to_unix_exact leap_night leap_night_fits eq_refl) as (n & E & _ & _ & Hn & _).
  assert (n = 1709251199) as -> by (vm_compute in E; congruence). split; [exact E|exact (Hn eq_refl)].
Defined.

Lemma wall_clock_decode_roundtrip_witness :
  decode_sample (RtcSample RTC_24_HOUR_MODE 0x59 0x59 0x23 0x04 0x29 0x02 0x24 0x20) = inr leap_night.
Proof. exact (proj1 wall_clock_decode_roundtrip (ClockFormat false true) leap_night leap_night_fits eq_refl). Defined.

(** A decimal chip whose registers move on to March while the first sample is taken. *)
Record chip := Chip { selected : Z; reads : Z; interrupts : bool }.

Definition chip_updates (c : chip) : Z := if reads c <? 6 then 0 else 1.

Definition chip_contents (n reg : Z) : Z :=
  let s := encode_sample (ClockFormat false true) (if n =? 0 then leap_night else next_second leap_night) in
  if reg =? RTC_STATUS_B then rs_status_b s else if reg =? RTC_SECONDS then rs_second s
  else if reg =? RTC_MINUTES then rs_minute s else if reg =? RTC_HOURS then rs_hour s
  else if reg =? RTC_WEEKDAY then rs_weekday s else if reg =? RTC_DAY then rs_day s
  else if reg =? RTC_MONTH then rs_month s else if reg =? RTC_YEAR then rs_year s else rs_century s.

#[local] Instance sample_ports : port_hardware chip := {
  cpu_out8 _ v c := Chip v (reads c) (interrupts c);
  cpu_in8 _ c := (if selected c =? RTC_STATUS_A then 0 else chip_contents (chip_updates c) (selected c),
                  Chip (selected c) (reads c + 1) (interrupts c));
  cpu_io_wait c := c;
  cpu_interrupts_enabled := interrupts;
  cpu_interrupt_disable c := Chip (selected c) (reads c) false;
  cpu_interrupt_enable c := Chip (selected c) (reads c) true
}.

#[local] Instance sample_chip : clock_chip chip.
Proof.
  refine {| updates := chip_updates; contents := chip_contents |}.
  - intros reg h Hr. cbn. by destruct (Z.eqb_spec reg RTC_STATUS_A).
  - intros reg h. cbn. unfold chip_updates. cbn [reads]. destruct (Z.ltb_spec (reads h) 6), (Z.ltb_spec (reads h + 1) 6); lia.
  - done.
  - done.
  - done.
  - intros h s1 h1 s2 h2 _ _. unfold chip_updates. destruct (reads h2 <? 6), (reads h <? 6); lia.
Defined.

End WallSamples.
