(* ===== verification/Rtc.v ===== *)
(** * The real-time clock ([src/kernel/rtc.c])

    The second reader of the CMOS chip: it latches the chip's format once, keeps the last
    time read and carries it forward with the monotonic clock of [Clock], asking the chip
    again at most once a second.  The ports are the class [port_hardware] of [WallClock]. *)

From stdpp Require Import base option list numbers sorting.
From S2P Require Import Prelude Clock WallClock.

Definition RTC_ADDRESS_PORT : Z := 0x70.
Definition RTC_DATA_PORT : Z := 0x71.
Definition RTC_REGISTER_SECOND : Z := 0x00.
Definition RTC_REGISTER_MINUTE : Z := 0x02.
Definition RTC_REGISTER_HOUR : Z := 0x04.
Definition RTC_REGISTER_DAY : Z := 0x07.
Definition RTC_REGISTER_MONTH : Z := 0x08.
Definition RTC_REGISTER_YEAR : Z := 0x09.
Definition RTC_REGISTER_STATUS_A : Z := 0x0A.
Definition RTC_REGISTER_STATUS_B : Z := 0x0B.
Definition RTC_REGISTER_CENTURY : Z := 0x32.
Definition RTC_STATUS_A_UPDATE_IN_PROGRESS : Z := 0x80.
Definition RTC_STATUS_B_TWENTY_FOUR_HOUR : Z := 0x02.
Definition RTC_STATUS_B_BINARY : Z := 0x04.
Definition RTC_HOUR_PM : Z := 0x80.
Definition RTC_UPDATE_POLL_LIMIT : nat := Z.to_nat 250000.
Definition RTC_AGREEMENT_ATTEMPTS : nat := 16.
Definition RTC_CARRY_LIMIT_NS : Z := 1000000000.
Definition RTC_CENTURY_MINIMUM : Z := 19.
Definition RTC_CENTURY_MAXIMUM : Z := 21.
Definition RTC_CENTURY_ASSUMED : Z := 20.

Inductive rtc_status :=
| RTC_STATUS_OK
| RTC_STATUS_NULL_ARGUMENT
| RTC_STATUS_NOT_STARTED
| RTC_STATUS_ALREADY_STARTED
| RTC_STATUS_UPDATE_NEVER_SETTLED
| RTC_STATUS_UNSTABLE_READ
| RTC_STATUS_BAD_FIELD.

Record rtc_time := RtcTime {
  rt_year : Z;
  rt_month : Z;
  rt_day : Z;
  rt_hour : Z;
  rt_minute : Z;
  rt_second : Z;
  rt_weekday : Z
}.

#[global] Instance rtc_time_eq_dec : EqDecision rtc_time.
Proof. solve_decision. Defined.

Record rtc_info := RtcInfo {
  started : bool;
  binary_coded_decimal : bool;
  twelve_hour : bool;
  century_register_trusted : bool;
  century_register : Z;
  ri_reads : Z;
  retries : Z;
  refusals : Z
}.

(** The static variables. *)
Record rtc := Rtc {
  info : rtc_info;
  carried : rtc_time;
  carried_valid : bool;
  carried_ns : Z
}.

Definition zero_info : rtc_info := RtcInfo false false false false 0 0 0 0.

Definition set_started (b : bool) (i : rtc_info) : rtc_info :=
  RtcInfo b (binary_coded_decimal i) (twelve_hour i) (century_register_trusted i) (century_register i)
    (ri_reads i) (retries i) (refusals i).
Definition set_format (bcd twelve : bool) (i : rtc_info) : rtc_info :=
  RtcInfo (started i) bcd twelve (century_register_trusted i) (century_register i) (ri_reads i) (retries i) (refusals i).
Definition set_century (trusted : bool) (c : Z) (i : rtc_info) : rtc_info :=
  RtcInfo (started i) (binary_coded_decimal i) (twelve_hour i) trusted c (ri_reads i) (retries i) (refusals i).
Definition count_read (i : rtc_info) : rtc_info :=
  RtcInfo (started i) (binary_coded_decimal i) (twelve_hour i) (century_register_trusted i) (century_register i)
    (u64 (ri_reads i + 1)) (retries i) (refusals i).
Definition count_retry (i : rtc_info) : rtc_info :=
  RtcInfo (started i) (binary_coded_decimal i) (twelve_hour i) (century_register_trusted i) (century_register i)
    (ri_reads i) (u64 (retries i + 1)) (refusals i).
Definition count_refusal (i : rtc_info) : rtc_info :=
  RtcInfo (started i) (binary_coded_decimal i) (twelve_hour i) (century_register_trusted i) (century_register i)
    (ri_reads i) (retries i) (u64 (refusals i + 1)).

Definition set_info (i : rtc_info) (s : rtc) : rtc := Rtc i (carried s) (carried_valid s) (carried_ns s).

(** ** The calendar *)

Definition rtc_from_bcd (value : Z) : Z := u8 (((value .>> 4) .& 0x0F) * 10 + (value .& 0x0F)).

Definition weekday_offsets : list Z := [0; 3; 2; 5; 0; 3; 5; 1; 4; 6; 2; 4].

Definition rtc_weekday_of (year month day : Z) : Z :=
  if (month <? 1) || (12 <? month) then 0
  else
    let adjusted := if month <? 3 then u32 (year - 1) else year in
    u8 (u32 (adjusted + adjusted / 4 - adjusted / 100 + adjusted / 400 +
             nth (Z.to_nat (month - 1)) weekday_offsets 0 + day) mod 7).

Definition month_lengths : list Z := [31; 28; 31; 30; 31; 30; 31; 31; 30; 31; 30; 31].

Definition rtc_days_in_month (year month : Z) : Z :=
  let leap := ((year mod 4 =? 0) && negb (year mod 100 =? 0)) || (year mod 400 =? 0) in
  if (month <? 1) || (12 <? month) then 0
  else if (month =? 2) && leap then 29
  else nth (Z.to_nat (month - 1)) month_lengths 0.

(** [None] for a null pointer. *)
Definition rtc_time_is_valid (time : option rtc_time) : bool :=
  match time with
  | None => false
  | Some t =>
      (1900 <=? rt_year t) && (rt_year t <=? 2999) && (1 <=? rt_month t) && (rt_month t <=? 12) &&
      (1 <=? rt_day t) && (rt_day t <=? rtc_days_in_month (rt_year t) (rt_month t)) &&
      (rt_hour t <=? 23) && (rt_minute t <=? 59) && (rt_second t <=? 60) && (rt_weekday t <=? 6)
  end.

Definition rtc_times_equal (a b : rtc_time) : bool :=
  (rt_year a =? rt_year b) && (rt_month a =? rt_month b) && (rt_day a =? rt_day b) &&
  (rt_hour a =? rt_hour b) && (rt_minute a =? rt_minute b) && (rt_second a =? rt_second b).

Definition rtc_decode (time : rtc_time) (century_raw : Z) (i : rtc_info) : rtc_time * rtc_info :=
  let pm := twelve_hour i && flagged (rt_hour time) RTC_HOUR_PM in
  let bcd := if binary_coded_decimal i then rtc_from_bcd else (fun x => x) in
  let hour := bcd (rt_hour time .& u8 (Z.lnot RTC_HOUR_PM)) in
  let second := bcd (rt_second time) in
  let minute := bcd (rt_minute time) in
  let day := bcd (rt_day time) in
  let month := bcd (rt_month time) in
  let year := if binary_coded_decimal i then rtc_from_bcd (u8 (rt_year time)) else rt_year time in
  let century_raw := bcd century_raw in
  let hour :=
    if twelve_hour i then
      let hour := if hour =? 12 then 0 else hour in
      if pm then u8 (hour + 12) else hour
    else hour in
  let trusted := (RTC_CENTURY_MINIMUM <=? century_raw) && (century_raw <=? RTC_CENTURY_MAXIMUM) in
  let century := if trusted then century_raw else RTC_CENTURY_ASSUMED in
  let year := u16 (century * 100 + year) in
  (RtcTime year month day hour minute second (rtc_weekday_of year month day), set_century trusted century_raw i).

(** One round of the loop over the days. *)
Definition next_day (t : rtc_time) : rtc_time :=
  if rt_day t <? rtc_days_in_month (rt_year t) (rt_month t) then
    RtcTime (rt_year t) (rt_month t) (u8 (rt_day t + 1)) (rt_hour t) (rt_minute t) (rt_second t) (rt_weekday t)
  else if rt_month t =? 12 then
    RtcTime (u16 (rt_year t + 1)) 1 1 (rt_hour t) (rt_minute t) (rt_second t) (rt_weekday t)
  else RtcTime (rt_year t) (u8 (rt_month t + 1)) 1 (rt_hour t) (rt_minute t) (rt_second t) (rt_weekday t).

Definition set_weekday (w : Z) (t : rtc_time) : rtc_time :=
  RtcTime (rt_year t) (rt_month t) (rt_day t) (rt_hour t) (rt_minute t) (rt_second t) w.

Definition rtc_carry_seconds (t : rtc_time) (seconds : Z) : rtc_time :=
  if seconds =? 0 then t
  else
    let total := u64 (rt_hour t * 3600 + rt_minute t * 60 + rt_second t + seconds) in
    let days := total / 86400 in
    let total := total mod 86400 in
    let t := RtcTime (rt_year t) (rt_month t) (rt_day t) (u8 (total / 3600)) (u8 (total mod 3600 / 60))
               (u8 (total mod 60)) (rt_weekday t) in
    let t := Nat.iter (Z.to_nat days) next_day t in
    set_weekday (rtc_weekday_of (rt_year t) (rt_month t) (rt_day t)) t.

(** ** Reading *)

Section Reading.
Context {H : Type} `{!time_hardware H} `{!port_hardware H}.

Definition rtc_register (index : Z) (h : H) : Z * H :=
  cpu_in8 RTC_DATA_PORT (cpu_io_wait (cpu_out8 RTC_ADDRESS_PORT index h)).

Definition rtc_update_in_progress (h : H) : bool * H :=
  let '(a, h) := rtc_register RTC_REGISTER_STATUS_A h in
  (flagged a RTC_STATUS_A_UPDATE_IN_PROGRESS, h).

Fixpoint settle_polls (n : nat) (h : H) : bool * H :=
  match n with
  | O => (false, h)
  | S n =>
      let '(updating, h) := rtc_update_in_progress h in
      if negb updating then (true, h) else settle_polls n (cpu_io_wait h)
  end.

Definition rtc_wait_for_settled_chip (h : H) : bool * H := settle_polls RTC_UPDATE_POLL_LIMIT h.

(** The raw registers; the weekday is not read. *)
Definition rtc_sample_raw (h : H) : rtc_time * Z * H :=
  let '(second, h) := rtc_register RTC_REGISTER_SECOND h in
  let '(minute, h) := rtc_register RTC_REGISTER_MINUTE h in
  let '(hour, h) := rtc_register RTC_REGISTER_HOUR h in
  let '(day, h) := rtc_register RTC_REGISTER_DAY h in
  let '(month, h) := rtc_register RTC_REGISTER_MONTH h in
  let '(year, h) := rtc_register RTC_REGISTER_YEAR h in
  let '(century, h) := rtc_register RTC_REGISTER_CENTURY h in
  (RtcTime year month day hour minute second 0, century, h).

(** The loop over [RTC_AGREEMENT_ATTEMPTS], with the sample before; [inr] is what is
    stored in [*time]. *)
Fixpoint agree (n : nat) (first : rtc_time) (first_century : Z) (i : rtc_info) (h : H) :
    (rtc_status + rtc_time) * rtc_info * H :=
  match n with
  | O => (inl RTC_STATUS_UNSTABLE_READ, count_refusal i, h)
  | S n =>
      let '(settled, h) := rtc_wait_for_settled_chip h in
      if negb settled then (inl RTC_STATUS_UPDATE_NEVER_SETTLED, count_refusal i, h)
      else
        let '(second, second_century, h) := rtc_sample_raw h in
        if rtc_times_equal first second && (first_century =? second_century) then
          let '(second, i) := rtc_decode second second_century i in
          if negb (rtc_time_is_valid (Some second)) then (inl RTC_STATUS_BAD_FIELD, count_refusal i, h)
          else (inr second, count_read i, h)
        else agree n second second_century (count_retry i) h
  end.

Definition rtc_read_locked (i : rtc_info) (h : H) : (rtc_status + rtc_time) * rtc_info * H :=
  let '(settled, h) := rtc_wait_for_settled_chip h in
  if negb settled then (inl RTC_STATUS_UPDATE_NEVER_SETTLED, count_refusal i, h)
  else
    let '(first, first_century, h) := rtc_sample_raw h in
    agree RTC_AGREEMENT_ATTEMPTS first first_century i h.

(** ** The public calls

    The monotonic clock is the one of [Clock]: its state [c] and the calibrated counter
    [tsc] stand beside the state of the real-time clock. *)

Definition rtc_start (tsc : tsc_state) (s : rtc) (c : clock_state) (h : H) : rtc_status * rtc * clock_state * H :=
  if started (info s) then (RTC_STATUS_ALREADY_STARTED, s, c, h)
  else
    let '(status_b, h) := rtc_register RTC_REGISTER_STATUS_B h in
    let i := set_format (negb (flagged status_b RTC_STATUS_B_BINARY))
               (negb (flagged status_b RTC_STATUS_B_TWENTY_FOUR_HOUR)) zero_info in
    match rtc_read_locked i h with
    | (inr probe, i, h) =>
        let '(now, c, h) := clock_monotonic_ns tsc c h in
        (RTC_STATUS_OK, Rtc (set_started true i) probe true now, c, h)
    | (inl status, i, h) => (status, set_info i s, c, h)
    end.

Definition rtc_is_started (s : rtc) : bool := started (info s).

(** [out] is [time != NULL]; the option is what is stored there. *)
Definition rtc_read (out : bool) (tsc : tsc_state) (s : rtc) (c : clock_state) (h : H) :
    rtc_status * option rtc_time * rtc * clock_state * H :=
  if negb out then (RTC_STATUS_NULL_ARGUMENT, None, s, c, h)
  else if negb (started (info s)) then (RTC_STATUS_NOT_STARTED, None, s, c, h)
  else
    match rtc_read_locked (info s) h with
    | (inr time, i, h) =>
        let '(now, c, h) := clock_monotonic_ns tsc c h in
        (RTC_STATUS_OK, Some time, Rtc i time true now, c, h)
    | (inl status, i, h) => (status, None, set_info i s, c, h)
    end.

Definition rtc_now (out : bool) (tsc : tsc_state) (s : rtc) (c : clock_state) (h : H) :
    rtc_status * option rtc_time * rtc * clock_state * H :=
  if negb out then (RTC_STATUS_NULL_ARGUMENT, None, s, c, h)
  else if negb (started (info s)) then (RTC_STATUS_NOT_STARTED, None, s, c, h)
  else
    let '(now, c, h) := clock_monotonic_ns tsc c h in
    let elapsed := if carried_ns s <=? now then now - carried_ns s else 0 in
    let carry s := rtc_carry_seconds (carried s) (elapsed / 1000000000) in
    if negb (carried_valid s) || (RTC_CARRY_LIMIT_NS <=? elapsed) then
      match rtc_read_locked (info s) h with
      | (inr time, i, h) => (RTC_STATUS_OK, Some time, Rtc i time true now, c, h)
      | (inl status, i, h) =>
          let s := set_info i s in
          if negb (carried_valid s) then (status, None, s, c, h)
          else (RTC_STATUS_OK, Some (carry s), s, c, h)
      end
    else (RTC_STATUS_OK, Some (carry s), s, c, h).
End Reading.

(** ** The calendar agrees with the wall clock's *)

Lemma rtc_days_in_month_eq y m : rtc_days_in_month y m = days_in_month y m \/ m < 0.
Proof.
  unfold rtc_days_in_month, days_in_month, leap_year. cbv zeta.
  destruct (Z.ltb_spec m 1), (Z.ltb_spec 12 m), (Z.eqb_spec m 0); cbn [orb]; try lia; left; try done.
  destruct (m =? 2); [|done]. cbn [andb].
  destruct (Z.eqb_spec (y mod 4) 0), (Z.eqb_spec (y mod 100) 0), (Z.eqb_spec (y mod 400) 0); cbn [andb orb negb]; try done; euclid.
Qed.

Lemma rtc_days_eq y m : 1 <= m -> rtc_days_in_month y m = days_in_month y m.
Proof. intros Hm. destruct (rtc_days_in_month_eq y m); [done|lia]. Qed.

(** Evaluate the tables at a known month. *)
Ltac fold_tables :=
  repeat match goal with
  | |- context [nth ?i ?l 0] => let v := eval vm_compute in (nth i l 0) in change (nth i l 0) with v
  | |- context [(?a <? ?b) && _] => let v := eval vm_compute in (a <? b) in change (a <? b) with v
  | |- context [if ?a <? ?b then _ else _] => let v := eval vm_compute in (a <? b) in change (a <? b) with v
  end; cbn [andb].

(** The weekday of day zero, a Thursday, and one on for every day. *)
Lemma weekday_exact y m d :
  1 <= y < 65536 -> date_exists y m d -> rtc_weekday_of y m d = (day_number y m d + 4) mod 7.
Proof.
  intros Hy [Hm Hd]. pose proof (days_in_month_range y m Hm) as Hl. unfold rtc_weekday_of.
  destruct (Z.ltb_spec m 1), (Z.ltb_spec 12 m); try lia. cbn [orb]. cbv zeta.
  set (a := if m <? 3 then u32 (y - 1) else y).
  set (o := nth (Z.to_nat (m - 1)) weekday_offsets 0).
  assert (Ho : 0 <= o <= 6) by (unfold o, weekday_offsets; clear -Hm; months m; vm_compute; split; discriminate).
  assert (Ha : 0 <= a < 65536).
  { unfold a. destruct (m <? 3); [|lia]. rewrite wrap_small by (unfold fits; change (2 ^ 32) with 4294967296; lia). lia. }
  fold (leaps a) || change (a / 4 - a / 100 + a / 400) with (leaps a).
  assert (Hlp : 0 <= leaps a <= 65536) by (unfold leaps; clear -Ha; euclid).
  replace (a + a / 4 - a / 100 + a / 400 + o + d) with (a + leaps a + o + d) by (unfold leaps; lia).
  rewrite (wrap_small 32) by (unfold fits; change (2 ^ 32) with 4294967296; lia).
  rewrite wrap_small by (unfold fits; change (2 ^ 8) with 256; clear; euclid).
  assert (E : exists q, a + leaps a + o + d = day_number y m d + 4 + 7 * q).
  { unfold day_number, days_before_year. change (leaps 1969) with 477. rewrite days_before_month_table by done.
    unfold a, o. rewrite (wrap_small 32) by (unfold fits; change (2 ^ 32) with 4294967296; lia).
    assert (Hs : leaps y = leaps (y - 1) + (if leap_year y then 1 else 0)) by apply leaps_step.
    clear -Hm Hs. destruct (leap_year y); months m; fold_tables; rewrite ?Hs;
      (match goal with |- exists q, ?l = ?r + 7 * q => exists ((l - r) / 7) end); clear Hs; euclid. }
  destruct E as [q ->]. rewrite Z.mul_comm, Z.mod_add by lia. done.
Qed.

(** ** Carrying the time forward *)

(** A time of the calendar; the second may be a leap second. *)
Definition calendar_time (t : rtc_time) : Prop :=
  1 <= rt_year t /\ date_exists (rt_year t) (rt_month t) (rt_day t) /\ 0 <= rt_hour t <= 23 /\
  0 <= rt_minute t <= 59 /\ 0 <= rt_second t <= 60.

Definition rtc_day (t : rtc_time) : Z := day_number (rt_year t) (rt_month t) (rt_day t).

Definition rtc_seconds (t : rtc_time) : Z := rtc_day t * 86400 + rt_hour t * 3600 + rt_minute t * 60 + rt_second t.

Lemma next_day_spec t :
  date_exists (rt_year t) (rt_month t) (rt_day t) -> 1 <= rt_year t < 65535 ->
  date_exists (rt_year (next_day t)) (rt_month (next_day t)) (rt_day (next_day t)) /\
  rtc_day (next_day t) = rtc_day t + 1 /\ rt_year t <= rt_year (next_day t) <= rt_year t + 1 /\
  rt_hour (next_day t) = rt_hour t /\ rt_minute (next_day t) = rt_minute t /\ rt_second (next_day t) = rt_second t.
Proof.
  intros He Hy. pose proof (day_number_next _ _ _ He) as Hn. destruct He as [Hm Hd].
  pose proof (days_in_month_range (rt_year t) (rt_month t) Hm) as Hl.
  pose proof (days_in_month_range (rt_year t + 1) 1 ltac:(lia)) as Hl1.
  unfold next_day, rtc_day. rewrite rtc_days_eq by lia.
  destruct (Z.ltb_spec (rt_day t) (days_in_month (rt_year t) (rt_month t))).
  { cbn [rt_year rt_month rt_day rt_hour rt_minute rt_second].
    rewrite wrap_small by (unfold fits; change (2 ^ 8) with 256; lia). unfold date_exists. lia. }
  destruct (Z.eqb_spec (rt_month t) 12); cbn [rt_year rt_month rt_day rt_hour rt_minute rt_second].
  - rewrite wrap_small by (unfold fits; change (2 ^ 16) with 65536; lia). unfold date_exists. lia.
  - rewrite wrap_small by (unfold fits; change (2 ^ 8) with 256; lia).
    pose proof (days_in_month_range (rt_year t) (rt_month t + 1) ltac:(lia)). unfold date_exists. lia.
Qed.

Lemma next_days_spec n t :
  date_exists (rt_year t) (rt_month t) (rt_day t) -> 1 <= rt_year t -> rt_year t + Z.of_nat n < 65536 ->
  let t' := Nat.iter n next_day t in
  date_exists (rt_year t') (rt_month t') (rt_day t') /\ rtc_day t' = rtc_day t + Z.of_nat n /\
  rt_year t <= rt_year t' <= rt_year t + Z.of_nat n /\
  rt_hour t' = rt_hour t /\ rt_minute t' = rt_minute t /\ rt_second t' = rt_second t.
Proof.
  intros He H1 Hb. induction n as [|n IH]; cbn [Nat.iter nat_rect]; cbv zeta; [cbn; split; [done|]; lia|].
  destruct IH as (He' & Hd & Hy & Hh & Hm & Hs); [lia|].
  change (nat_rect _ t _ n) with (Nat.iter n next_day t) in *.
  destruct (next_day_spec (Nat.iter n next_day t) He' ltac:(lia)) as (He2 & Hd2 & Hy2 & Hh2 & Hm2 & Hs2).
  split; [exact He2|]. lia.
Qed.

(** Up to thirty years of carrying. *)
Lemma carry_exact t n :
  calendar_time t -> rt_year t <= 2999 -> 0 <= n <= 1000000000 ->
  let t' := rtc_carry_seconds t n in
  calendar_time t' /\ rtc_seconds t' = rtc_seconds t + n /\
  (n = 0 -> t' = t) /\ (0 < n -> rt_second t' <= 59 /\ rt_weekday t' = (rtc_day t' + 4) mod 7).
Proof.
  intros (Hy & He & Hh & Hm & Hs) Hmax Hn. cbv zeta. unfold rtc_carry_seconds.
  destruct (Z.eqb_spec n 0) as [-> |Hne]; [split; [exact (conj Hy (conj He (conj Hh (conj Hm Hs))))|]; split; [lia|]; split; [done|lia]|].
  set (total := rt_hour t * 3600 + rt_minute t * 60 + rt_second t + n).
  assert (Ht : 0 < total < 1000100000) by (unfold total; lia).
  rewrite (wrap_small 64 total) by (unfold fits; change (2 ^ 64) with 18446744073709551616; lia). cbv zeta.
  assert (Hr : 0 <= total mod 86400 < 86400 /\ total = total / 86400 * 86400 + total mod 86400 /\ 0 <= total / 86400 < 12000)
    by (clear -Ht; euclid).
  destruct Hr as (Hr & Hdm & Hdays). set (r := total mod 86400) in *.
  assert (Hf : 0 <= r / 3600 <= 23 /\ 0 <= r mod 3600 / 60 <= 59 /\ 0 <= r mod 60 <= 59 /\
               r / 3600 * 3600 + r mod 3600 / 60 * 60 + r mod 60 = r) by (clear -Hr; euclid).
  destruct Hf as (Hf1 & Hf2 & Hf3 & Hf4).
  rewrite !(wrap_small 8) by (unfold fits; change (2 ^ 8) with 256; lia).
  set (t0 := RtcTime _ _ _ _ _ _ _).
  destruct (next_days_spec (Z.to_nat (total / 86400)) t0 He Hy) as (He' & Hd & Hy' & E1 & E2 & E3).
  { rewrite Z2Nat.id by lia. cbn [rt_year t0]. lia. }
  rewrite Z2Nat.id in Hd, Hy' by lia. set (t1 := Nat.iter _ next_day t0) in *.
  cbn [rt_hour rt_minute rt_second rt_year t0] in *. change (rtc_day t0) with (rtc_day t) in Hd.
  assert (Hw : rtc_weekday_of (rt_year t1) (rt_month t1) (rt_day t1) = (rtc_day t1 + 4) mod 7) by (apply weekday_exact; [lia|done]).
  split; [|split; [|split; [done|]]].
  - unfold calendar_time, set_weekday. cbn [rt_year rt_month rt_day rt_hour rt_minute rt_second]. split; [lia|]. split; [done|]. lia.
  - unfold rtc_seconds at 1. change (rtc_day (set_weekday _ t1)) with (rtc_day t1). cbn [rt_hour rt_minute rt_second set_weekday].
    unfold rtc_seconds. unfold total in *. lia.
  - intros _. cbn [rt_second rt_weekday set_weekday]. split; [lia|exact Hw].
Qed.

(** ** What the calls promise *)

(** A time as the kernel hands it out. *)
Definition good_time (t : rtc_time) : Prop :=
  calendar_time t /\ 1900 <= rt_year t <= 2999 /\ rt_weekday t = (rtc_day t + 4) mod 7.

(** A started clock always has a time to carry. *)
Definition rtc_ok (s : rtc) : Prop := started (info s) = true -> carried_valid s = true /\ good_time (carried s).

Lemma from_bcd_nonneg v : 0 <= rtc_from_bcd v.
Proof. apply wrap_fits. lia. Qed.

Section Calls.
Context {H : Type} `{!time_hardware H} `{!port_hardware H}.

(** Ports answer bytes. *)
Hypothesis port_bytes : forall p (h : H), fits 8 (cpu_in8 p h).1.

Lemma register_byte index (h : H) : 0 <= (rtc_register index h).1 < 256.
Proof. pose proof (port_bytes RTC_DATA_PORT (cpu_io_wait (cpu_out8 RTC_ADDRESS_PORT index h))) as Hb. exact Hb. Qed.

Lemma sample_bytes (h : H) :
  let '(t, c, _) := rtc_sample_raw h in 0 <= rt_hour t /\ 0 <= rt_minute t /\ 0 <= rt_second t.
Proof.
  unfold rtc_sample_raw.
  repeat match goal with |- context [rtc_register ?r ?h] =>
    let Hb := fresh "Hb" in pose proof (register_byte r h) as Hb; destruct (rtc_register r h) as [? ?]; cbn [fst] in Hb end.
  cbn [rt_hour rt_minute rt_second]. lia.
Qed.

Lemma decode_good t c i t' i' :
  0 <= rt_hour t -> 0 <= rt_minute t -> 0 <= rt_second t ->
  rtc_decode t c i = (t', i') -> rtc_time_is_valid (Some t') = true -> good_time t' /\ started i' = started i.
Proof.
  intros Hh Hm Hs. unfold rtc_decode. cbv zeta. intros [= <- <-] Hv. split; [|done]. cbn [rtc_time_is_valid rt_year rt_month rt_day rt_hour rt_minute rt_second rt_weekday] in Hv.
  repeat (apply andb_prop in Hv as [Hv ?]).
  match goal with |- good_time (RtcTime ?y ?mo ?d ?h ?mi ?s ?w) => set (yy := y) in *; set (mm := mo) in *; set (dd := d) in *; set (hh := h) in *; set (nn := mi) in *; set (ss := s) in * end.
  assert (Hhh : 0 <= hh).
  { assert (Hb : 0 <= (if binary_coded_decimal i then rtc_from_bcd else (fun x => x)) (rt_hour t .& u8 (Z.lnot RTC_HOUR_PM))).
    { destruct (binary_coded_decimal i); [apply from_bcd_nonneg|]. apply Z.land_nonneg. by left. }
    unfold hh. destruct (twelve_hour i); [|exact Hb].
    assert (Hz : forall x : Z, 0 <= x -> 0 <= (if x =? 12 then 0 else x)) by (intros x Hx; destruct (x =? 12); lia).
    cbn [andb]. destruct (flagged (rt_hour t) RTC_HOUR_PM); [apply wrap_fits; lia|]. by apply Hz. }
  assert (Hnn : 0 <= nn) by (unfold nn; destruct (binary_coded_decimal i); [apply from_bcd_nonneg|done]).
  assert (Hss : 0 <= ss) by (unfold ss; destruct (binary_coded_decimal i); [apply from_bcd_nonneg|done]).
  clearbody yy mm dd hh nn ss. rewrite rtc_days_eq in * by lia.
  assert (He : date_exists yy mm dd) by (unfold date_exists; lia).
  split; [|split; [cbn [rt_year]; lia|]].
  - unfold calendar_time. cbn [rt_year rt_month rt_day rt_hour rt_minute rt_second]. split; [lia|]. split; [done|]. lia.
  - cbn [rt_weekday]. apply weekday_exact; [lia|done].
Qed.

Lemma agree_good n first fc i (h : H) r i' h' :
  agree n first fc i h = (r, i', h') -> started i' = started i /\ match r with inr t => good_time t | inl _ => True end.
Proof.
  revert first fc i h. induction n as [|n IH]; intros first fc i h; cbn [agree]; [by intros [= <- <- <-]|].
  destruct (rtc_wait_for_settled_chip h) as [b h1]. destruct b; cbn [negb]; [|by intros [= <- <- <-]].
  pose proof (sample_bytes h1) as Hb. destruct (rtc_sample_raw h1) as [[t c] h2]. destruct Hb as (B1 & B2 & B3).
  destruct (_ && _); [|intros E; by apply IH in E].
  destruct (rtc_decode t c i) as [t2 i2] eqn:Hd. destruct (rtc_time_is_valid (Some t2)) eqn:Hv; cbn [negb].
  - destruct (decode_good t c i t2 i2 B1 B2 B3 Hd Hv) as [Hg Hst]. by intros [= <- <- <-].
  - intros [= <- <- <-]. split; [|done]. cbn [started count_refusal]. revert Hd. unfold rtc_decode. cbv zeta. by intros [= _ <-].
Qed.

Lemma read_locked_good i (h : H) r i' h' :
  rtc_read_locked i h = (r, i', h') -> started i' = started i /\ match r with inr t => good_time t | inl _ => True end.
Proof.
  unfold rtc_read_locked. destruct (rtc_wait_for_settled_chip h) as [b h1]. destruct b; cbn [negb]; [|by intros [= <- <- <-]].
  destruct (rtc_sample_raw h1) as [[t c] h2]. apply agree_good.
Qed.

(** Any of the calls, at any time of the monotonic clock and with any answers of the
    chip. *)
Inductive rtc_call : rtc -> rtc -> Prop :=
| call_start tsc s c (h : H) : rtc_call s (rtc_start tsc s c h).1.1.2
| call_read out tsc s c (h : H) : rtc_call s (rtc_read out tsc s c h).1.1.2
| call_now out tsc s c (h : H) : rtc_call s (rtc_now out tsc s c h).1.1.2.

Lemma rtc_call_ok s s' : rtc_ok s -> rtc_call s s' -> rtc_ok s'.
Proof.
  intros Hok Hc. revert Hok. destruct Hc as [tsc s0 c h|out tsc s0 c h|out tsc s0 c h]; intros Hok.
  - unfold rtc_start. destruct (started (info s0)) eqn:Hst; [done|].
    destruct (rtc_register _ h) as [b h1]. destruct (rtc_read_locked _ h1) as [[r i] h2] eqn:E.
    apply read_locked_good in E as [Hi Hg]. destruct r as [st|t].
    + intros Hs. change (started i = true) in Hs. by rewrite Hi in Hs.
    + destruct (clock_monotonic_ns tsc c h2) as [[now c1] h3]. intros _. exact (conj eq_refl Hg).
  - unfold rtc_read. destruct out; [|done]. destruct (started (info s0)) eqn:Hst; cbn [negb]; [|done].
    destruct (rtc_read_locked _ h) as [[r i] h2] eqn:E. apply read_locked_good in E as [Hi Hg]. destruct r as [st|t].
    + intros _. by apply Hok.
    + destruct (clock_monotonic_ns tsc c h2) as [[now c1] h3]. intros _. exact (conj eq_refl Hg).
  - unfold rtc_now. destruct out; [|done]. destruct (started (info s0)) eqn:Hst; cbn [negb]; [|done].
    destruct (clock_monotonic_ns tsc c h) as [[now c1] h1]. cbv zeta. destruct (_ || _); [|done].
    destruct (rtc_read_locked _ h1) as [[r i] h2] eqn:E. apply read_locked_good in E as [Hi Hg]. destruct r as [st|t].
    + cbn [carried_valid set_info]. destruct (negb _); intros _; by apply Hok.
    + intros _. exact (conj eq_refl Hg).
Qed.

(** Once started the clock always has an answer.  Whatever calls were made before and
    whatever the chip answers, [rtc_now] succeeds: within a second of the last reading it
    repeats that reading without touching the chip; after that it is a fresh reading, or,
    when the chip refuses, the last one moved on by exactly the seconds that have passed on
    the monotonic clock, across days, months and leap years.  Every answer is a time of the
    calendar with the right weekday. *)
Theorem rtc_now_correct s0 s tsc c (h : H) :
  started (info s0) = false -> relations.rtc rtc_call s0 s -> started (info s) = true ->
  let '(now, c1, h1) := clock_monotonic_ns tsc c h in
  let elapsed := Z.max 0 (now - carried_ns s) in
  exists t s' h', rtc_now true tsc s c h = (RTC_STATUS_OK, Some t, s', c1, h') /\
    (elapsed < 1000000000 /\ t = carried s /\ s' = s /\ h' = h1 /\ good_time t \/
     1000000000 <= elapsed /\ s' = Rtc (info s') t true now /\ good_time t \/
     1000000000 <= elapsed /\ carried s' = carried s /\ carried_ns s' = carried_ns s /\
       (elapsed <= 10 ^ 18 -> calendar_time t /\ rtc_seconds t = rtc_seconds (carried s) + elapsed / 1000000000 /\
          rt_weekday t = (rtc_day t + 4) mod 7)).
Proof.
  intros H0 Hr Hst. assert (Hok : rtc_ok s).
  { assert (Hok0 : rtc_ok s0) by (unfold rtc_ok; congruence). clear -Hr Hok0 port_bytes.
    induction Hr as [|s1 s2 s3 Hc _ IH]; [done|]. by apply IH, (rtc_call_ok s1). }
  destruct (Hok Hst) as [Hcv Hg]. destruct (clock_monotonic_ns tsc c h) as [[now c1] h1] eqn:Ec. cbv zeta.
  unfold rtc_now. cbn [negb]. rewrite Hst, Ec, Hcv. cbn [negb orb].
  assert (Eel : (if carried_ns s <=? now then now - carried_ns s else 0) = Z.max 0 (now - carried_ns s))
    by (destruct (Z.leb_spec (carried_ns s) now); lia).
  rewrite Eel. set (el := Z.max 0 (now - carried_ns s)). assert (Hel : 0 <= el) by (unfold el; lia). clearbody el. clear Eel.
  unfold RTC_CARRY_LIMIT_NS. destruct (Z.leb_spec 1000000000 el) as [Hge|Hlt].
  - destruct (rtc_read_locked (info s) h1) as [[r i] h2] eqn:E. apply read_locked_good in E as [Hi Hgr]. destruct r as [st|t].
    + cbn [carried_valid set_info carried]. rewrite Hcv. cbn [negb]. eexists _, _, _. split; [done|]. right. right.
      split; [done|]. split; [done|]. split; [done|]. intros Hbig.
      destruct Hg as (Hcal & Hyr & Hw). destruct (carry_exact (carried s) (el / 1000000000) Hcal) as (C1 & C2 & C3 & C4);
        [lia|clear -Hge Hbig; change (10 ^ 18) with 1000000000000000000 in Hbig; euclid|].
      split; [done|]. split; [done|]. apply C4. clear -Hge. euclid.
    + eexists t, _, _. split; [done|]. right. left. split; [done|]. by split.
  - eexists _, _, _. split; [done|]. left. rewrite Z.div_small by lia. by split_and!.
Qed.
End Calls.

Module RtcSamples.

(** A decimal chip at the end of a leap day, and a counter of one tick per nanosecond; the
    chip can be stuck in its update. *)
Record desk := Desk { selected : Z; ticks : Z; stuck : bool }.

#[local] Instance desk_time : time_hardware desk := {
  cpu_in32 _ d := (0, d);
  cpu_read_tsc d := (ticks d, d);
  Clock.cpu_cpuid _ _ _ := CpuidResult 0 0 0 0;
  Clock.cpu_interrupts_enabled _ := false
}.

Definition desk_register (d : desk) : Z :=
  let s := encode_sample (ClockFormat false true) WallSamples.leap_night in
  let r := selected d in
  if r =? RTC_REGISTER_STATUS_A then if stuck d then 0x80 else 0
  else if r =? RTC_REGISTER_STATUS_B then rs_status_b s else if r =? RTC_REGISTER_SECOND then rs_second s
  else if r =? RTC_REGISTER_MINUTE then rs_minute s else if r =? RTC_REGISTER_HOUR then rs_hour s
  else if r =? RTC_REGISTER_DAY then rs_day s else if r =? RTC_REGISTER_MONTH then rs_month s
  else if r =? RTC_REGISTER_YEAR then rs_year s else rs_century s.

#[local] Instance desk_ports : port_hardware desk := {
  cpu_out8 _ v d := Desk v (ticks d) (stuck d);
  cpu_in8 _ d := (desk_register d, d);
  cpu_io_wait d := d;
  cpu_interrupts_enabled _ := false;
  cpu_interrupt_disable d := d;
  cpu_interrupt_enable d := d
}.

Definition desk_tsc : tsc_state := TscState 1000000000 true true true.
Definition desk_clock : clock_state := ClockState CLOCK_SOURCE_TSC 0 0 0 true.
Definition cold : rtc := Rtc zero_info (RtcTime 0 0 0 0 0 0 0) false 0.

(** Started five nanoseconds after the origin of the clock. *)
Definition warm : rtc := (rtc_start desk_tsc cold desk_clock (Desk 0 5 false)).1.1.2.

(** Two seconds later, with a chip that refuses. *)
Definition carried_answer := rtc_now true desk_tsc warm desk_clock (Desk 0 2000000005 true).

Lemma rtc_now_correct_witness :
  carried_answer.1.1.1.2 = Some (RtcTime 2024 3 1 0 0 1 5) /\
  exists t, carried_answer.1.1.1.2 = Some t /\ carried_answer.1.1.1.1 = RTC_STATUS_OK.
Proof.
  split; [vm_compute; reflexivity|].
  assert (Hb : forall p (d : desk), fits 8 (cpu_in8 p d).1).
  { intros p d. cbn [cpu_in8 desk_ports fst]. unfold desk_register.
    repeat case_match; vm_compute; split; discriminate || reflexivity. }
  assert (Hr : relations.rtc rtc_call cold warm) by (apply relations.rtc_once, (call_start desk_tsc cold desk_clock)).
  pose proof (rtc_now_correct Hb cold warm desk_tsc desk_clock (Desk 0 2000000005 true) eq_refl Hr ltac:(vm_compute; reflexivity)) as Hn.
  unfold carried_answer. destruct (clock_monotonic_ns desk_tsc desk_clock _) as [[now c1] h1].
  destruct Hn as (t & s' & h' & -> & _). by exists t.
Defined.
End RtcSamples.
