(* ===== verification/Framebuffer.v ===== *)
(** * The framebuffer ([src/kernel/framebuffer.c], [include/rsd/framebuffer.h])

    The picture in device memory, a pixel a 32-bit word at
    [address + y * pitch + 4 * x].  Memory is a store of such words, shared with the
    cached pictures of [Surface]; the padding a pitch leaves is never written. *)

From stdpp Require Import base option list numbers gmap sorting.
From S2P Require Import Prelude Frames Multiboot2 Paging PagingSpec PagingBoot.

Definition FRAMEBUFFER_BYTES_PER_PIXEL : Z := BOOT_FRAMEBUFFER_BYTES_PER_PIXEL.
Definition FRAMEBUFFER_CHANNEL_MASK : Z := 0xFF.

Inductive framebuffer_status :=
| FRAMEBUFFER_STATUS_OK
| FRAMEBUFFER_STATUS_NULL_ARGUMENT
| FRAMEBUFFER_STATUS_ALREADY_INITIALIZED
| FRAMEBUFFER_STATUS_NOT_INITIALIZED
| FRAMEBUFFER_STATUS_ABSENT
| FRAMEBUFFER_STATUS_NOT_MAPPED
| FRAMEBUFFER_STATUS_BAD_GEOMETRY
| FRAMEBUFFER_STATUS_OUT_OF_BOUNDS
| FRAMEBUFFER_STATUS_VALIDATION_FAILURE.

#[global] Instance framebuffer_status_eq_dec : EqDecision framebuffer_status.
Proof. solve_decision. Defined.

Record framebuffer_state := FramebufferState {
  fs_active : bool;
  fs_address : Z;
  fs_size : Z;
  fs_pitch : Z;
  fs_width : Z;
  fs_height : Z;
  fs_red_position : Z;
  fs_green_position : Z;
  fs_blue_position : Z
}.

(** ** Words of pixel memory *)

(** The 32-bit words at the addresses that hold pixels. *)
Abbreviation pixel_store := (gmap Z Z).

Definition load32 (a : Z) (m : pixel_store) : Z := default 0 (m !! a).
Definition store32 (a v : Z) (m : pixel_store) : pixel_store := <[a := v]> m.
Definition move32 (d s : Z) (m : pixel_store) : pixel_store := store32 d (load32 s m) m.

(** ** Operations *)

Implicit Types s : framebuffer_state.

Definition pixel_offset (x y : Z) s : Z := y * fs_pitch s + x * FRAMEBUFFER_BYTES_PER_PIXEL.

Definition inside (x y : Z) s : bool := (x <? fs_width s) && (y <? fs_height s).

Definition pixel_at (x y : Z) s : Z := u64 (fs_address s + pixel_offset x y s).

Definition framebuffer_pack (red green blue : Z) s : Z :=
  (u32 (red .<< fs_red_position s) .| u32 (green .<< fs_green_position s)) .| u32 (blue .<< fs_blue_position s).

Definition framebuffer_visible_mask s : Z :=
  (u32 (FRAMEBUFFER_CHANNEL_MASK .<< fs_red_position s) .| u32 (FRAMEBUFFER_CHANNEL_MASK .<< fs_green_position s))
  .| u32 (FRAMEBUFFER_CHANNEL_MASK .<< fs_blue_position s).

(** [framebuffer] is [None] for a null pointer; [windows] and [mapped] are what paging has
    installed. *)
Definition framebuffer_initialize (framebuffer : option boot_framebuffer) (mapped : bool)
    (windows : paging_device_windows) s : framebuffer_status * framebuffer_state :=
  match framebuffer with
  | None => (FRAMEBUFFER_STATUS_NULL_ARGUMENT, s)
  | Some f =>
      if fs_active s then (FRAMEBUFFER_STATUS_ALREADY_INITIALIZED, s)
      else if negb (fb_present f) then (FRAMEBUFFER_STATUS_ABSENT, s)
      else if negb mapped then (FRAMEBUFFER_STATUS_NOT_MAPPED, s)
      else
        match find (fun w => dw_kind w =? PAGING_DEVICE_WINDOW_FRAMEBUFFER) windows with
        | None => (FRAMEBUFFER_STATUS_NOT_MAPPED, s)
        | Some w =>
            if (UINT64_MAX - fb_address f <? fb_size f) || (fb_address f <? dw_base w)
               || (u64 (dw_base w + dw_length w) <? fb_address f + fb_size f) then (FRAMEBUFFER_STATUS_NOT_MAPPED, s)
            else if (fb_width f =? 0) || (fb_height f =? 0)
                 || (fb_pitch f <? fb_width f * FRAMEBUFFER_BYTES_PER_PIXEL)
                 || negb (fb_pitch f * fb_height f =? fb_size f) then (FRAMEBUFFER_STATUS_BAD_GEOMETRY, s)
            else
              (FRAMEBUFFER_STATUS_OK,
               FramebufferState true (fb_address f) (fb_size f) (fb_pitch f) (fb_width f) (fb_height f)
                 (fb_red_position f) (fb_green_position f) (fb_blue_position f))
        end
  end.

Definition framebuffer_is_active s : bool := fs_active s.

Definition framebuffer_write_pixel (x y pixel : Z) s (m : pixel_store) : framebuffer_status * pixel_store :=
  if negb (fs_active s) then (FRAMEBUFFER_STATUS_NOT_INITIALIZED, m)
  else if negb (inside x y s) then (FRAMEBUFFER_STATUS_OUT_OF_BOUNDS, m)
  else (FRAMEBUFFER_STATUS_OK, store32 (pixel_at x y s) pixel m).

(** [out] is [pixel != NULL]; the value is what is stored there. *)
Definition framebuffer_read_pixel (x y : Z) (out : bool) s (m : pixel_store) : framebuffer_status * option Z :=
  if negb out then (FRAMEBUFFER_STATUS_NULL_ARGUMENT, None)
  else if negb (fs_active s) then (FRAMEBUFFER_STATUS_NOT_INITIALIZED, Some 0)
  else if negb (inside x y s) then (FRAMEBUFFER_STATUS_OUT_OF_BOUNDS, Some 0)
  else (FRAMEBUFFER_STATUS_OK, Some (load32 (pixel_at x y s) m)).

(** The rows from [y] on, [n] of them. *)
Definition fill_rows (y n pixel : Z) s (m : pixel_store) : pixel_store :=
  foldl (fun m y =>
    let row := pixel_at 0 y s in
    foldl (fun m x => store32 (row + 4 * x) pixel m) m (seqZ 0 (fs_width s))) m (seqZ y n).

Definition framebuffer_fill (pixel : Z) s (m : pixel_store) : framebuffer_status * pixel_store :=
  if negb (fs_active s) then (FRAMEBUFFER_STATUS_NOT_INITIALIZED, m)
  else (FRAMEBUFFER_STATUS_OK, fill_rows 0 (fs_height s) pixel s m).

Definition framebuffer_scroll_up (rows fill : Z) s (m : pixel_store) : framebuffer_status * pixel_store :=
  if negb (fs_active s) then (FRAMEBUFFER_STATUS_NOT_INITIALIZED, m)
  else if rows =? 0 then (FRAMEBUFFER_STATUS_OK, m)
  else if fs_height s <=? rows then framebuffer_fill fill s m
  else
    let m :=
      foldl (fun m y =>
        let destination := pixel_at 0 y s in
        let source := pixel_at 0 (y + rows) s in
        foldl (fun m x => move32 (destination + 4 * x) (source + 4 * x) m) m (seqZ 0 (fs_width s)))
        m (seqZ 0 (fs_height s - rows)) in
    (FRAMEBUFFER_STATUS_OK, fill_rows (fs_height s - rows) rows fill s m).

Definition framebuffer_get_state s : framebuffer_state := s.

Definition page_matches (address : Z) (t : paging_translation) : bool :=
  (physical_address t =? address) && (level t =? 1) && (permissions t =? (PAGING_WRITE .| PAGING_WRITE_COMBINING))
  && bool_decide (memory_type t = PAGING_MEMORY_WRITE_COMBINING).

(** A loop over pages while [more] holds, ended early by what [check] reports; [None] when
    [n] iterations were not enough. *)
Fixpoint page_loop {A : Type} (n : nat) (more : Z -> bool) (check : Z -> option A) (passed : A) (address : Z) : option A :=
  match n with
  | O => None
  | S n =>
      if negb (more address) then Some passed
      else
        match check address with
        | Some status => Some status
        | None => page_loop n more check passed (u64 (address + PAGING_PAGE_SIZE))
        end
  end.

(** The body of the audit's loop. *)
Definition check_page (p : paging) (address : Z) : option framebuffer_status :=
  match paging_translate address true p with
  | (PAGING_STATUS_OK, t) => if page_matches address t then None else Some FRAMEBUFFER_STATUS_VALIDATION_FAILURE
  | _ => Some FRAMEBUFFER_STATUS_NOT_MAPPED
  end.

Definition framebuffer_verify (p : paging) s : option framebuffer_status :=
  let last := u64 (fs_address s + fs_size s - 1) in
  if negb (fs_active s) then Some FRAMEBUFFER_STATUS_NOT_INITIALIZED
  else if negb (fs_pitch s * fs_height s =? fs_size s)
       || (fs_pitch s <? fs_width s * FRAMEBUFFER_BYTES_PER_PIXEL) then Some FRAMEBUFFER_STATUS_BAD_GEOMETRY
  else
    let first := fs_address s .& not64 (PAGING_PAGE_SIZE - 1) in
    page_loop (S (Z.to_nat ((last - first) / PAGING_PAGE_SIZE + 1))) (fun address => address <=? last) (check_page p)
      FRAMEBUFFER_STATUS_OK first.

(** ** Sequences of stores and moves *)

Definition stores (l : list (Z * Z)) (m : pixel_store) : pixel_store := foldl (fun m '(a, v) => store32 a v m) m l.
Definition moves (l : list (Z * Z)) (m : pixel_store) : pixel_store := foldl (fun m '(d, s) => move32 d s m) m l.

Lemma load_store a b v m : load32 a (store32 b v m) = if decide (a = b) then v else load32 a m.
Proof.
  unfold load32, store32. destruct (decide (a = b)) as [-> |Hne]; [by rewrite lookup_insert_eq|].
  by rewrite lookup_insert_ne.
Qed.

Lemma stores_miss l a m : (forall d v, (d, v) ∈ l -> d <> a) -> load32 a (stores l m) = load32 a m.
Proof.
  revert m. induction l as [|[d v] l IH]; intros m H; [done|]. cbn [stores foldl]. fold (stores l (store32 d v m)).
  rewrite IH by (intros d' v' Hin; by apply (H d' v'), list_elem_of_further). rewrite load_store.
  destruct (decide (a = d)) as [-> |]; [|done]. by destruct (H d v (list_elem_of_here _ _)).
Qed.

Lemma stores_hit l a v m : (a, v) ∈ l -> (forall v', (a, v') ∈ l -> v' = v) -> load32 a (stores l m) = v.
Proof.
  revert m. induction l as [|[d w] l IH]; intros m Hin Hv; [by apply elem_of_nil in Hin|].
  cbn [stores foldl]. fold (stores l (store32 d w m)).
  destruct (decide (Exists (fun p => p.1 = a) l)) as [Hex|Hno].
  - apply Exists_exists in Hex as ([a' v'] & Hl & E). cbn in E. subst a'.
    rewrite (Hv v') in Hl by by apply list_elem_of_further. apply IH; [done|].
    intros v2 H2. by apply Hv, list_elem_of_further.
  - apply elem_of_cons in Hin as [[= <- <-]|Hin].
    + rewrite stores_miss; [rewrite load_store; by rewrite decide_True|].
      intros d' v' Hl ->. apply Hno, Exists_exists. by exists (a, v').
    + exfalso. apply Hno, Exists_exists. by exists (a, v).
Qed.

Lemma moves_miss l a m : (forall d o, (d, o) ∈ l -> d <> a) -> load32 a (moves l m) = load32 a m.
Proof.
  revert m. induction l as [|[d o] l IH]; intros m H; [done|]. cbn [moves foldl]. fold (moves l (move32 d o m)).
  rewrite IH by (intros d' v' Hin; by apply (H d' v'), list_elem_of_further). unfold move32. rewrite load_store.
  destruct (decide (a = d)) as [-> |]; [|done]. by destruct (H d o (list_elem_of_here _ _)).
Qed.

(** A word that is written is neither written nor read later. *)
Definition final (p q : Z * Z) : Prop := p.1 <> q.1 /\ p.1 <> q.2.

(** In such an order the moves behave as if all sources were read first. *)
Lemma moves_hit l d o m : StronglySorted final l -> (d, o) ∈ l -> load32 d (moves l m) = load32 o m.
Proof.
  revert m. induction l as [|[d0 s0] l IH]; intros m Hs Hin; [by apply elem_of_nil in Hin|].
  apply StronglySorted_inv in Hs as [Hs Hf]. rewrite Forall_forall in Hf.
  cbn [moves foldl]. fold (moves l (move32 d0 s0 m)). apply elem_of_cons in Hin as [[= -> ->]|Hin].
  - rewrite moves_miss by (intros d' s' Hl; by destruct (Hf (d', s') Hl)). unfold move32. rewrite load_store.
    by rewrite decide_True.
  - rewrite IH by done. unfold move32. rewrite load_store. destruct (Hf (d, o) Hin) as [_ Hne]. cbn in Hne.
    by rewrite decide_False.
Qed.

(** Nested loops are one sequence. *)
Definition product (ys xs : list Z) : list (Z * Z) := flat_map (fun y => (fun x => (y, x)) <$> xs) ys.

Lemma foldl_ext_in {A B} (f g : A -> B -> A) l a :
  (forall b x, x ∈ l -> f b x = g b x) -> foldl f a l = foldl g a l.
Proof.
  revert a. induction l as [|x l IH]; intros a H; [done|]. cbn [foldl]. rewrite H by apply list_elem_of_here.
  apply IH. intros b y Hy. by apply H, list_elem_of_further.
Qed.

Lemma foldl_product {A} (f : A -> Z -> Z -> A) ys xs a :
  foldl (fun a y => foldl (fun a x => f a y x) a xs) a ys = foldl (fun a p => f a p.1 p.2) a (product ys xs).
Proof.
  revert a. induction ys as [|y ys IH]; intros a; [done|]. cbn [foldl]. unfold product. cbn [flat_map].
  rewrite foldl_app. fold (product ys xs). rewrite <- IH. f_equal. clear IH. revert a.
  induction xs as [|x xs IH]; intros a; [done|]. apply IH.
Qed.

Lemma elem_of_product ys xs y x : (y, x) ∈ product ys xs <-> y ∈ ys /\ x ∈ xs.
Proof.
  unfold product. rewrite list_elem_of_In, in_flat_map. split.
  - intros (y' & Hy & (x' & [= -> ->] & Hx)%list_elem_of_In%list_elem_of_fmap). split; [by apply list_elem_of_In|done].
  - intros [Hy Hx]. exists y. split; [by apply list_elem_of_In|]. apply list_elem_of_In, list_elem_of_fmap. eauto.
Qed.

(** The order of two iterations: by the outer loop, then by the inner one. *)
Lemma product_sorted (R S : Z -> Z -> Prop) ys xs :
  StronglySorted R ys -> StronglySorted S xs ->
  StronglySorted (fun p q => R p.1 q.1 \/ p.1 = q.1 /\ S p.2 q.2) (product ys xs).
Proof.
  intros Hy Hx. induction Hy as [|y ys Hy IH Hf]; [constructor|]. unfold product. cbn [flat_map]. fold (product ys xs).
  rewrite Forall_forall in Hf.
  assert (Hrow : forall p q, p ∈ (fun x => (y, x)) <$> xs -> q ∈ product ys xs -> R p.1 q.1).
  { intros p [y' x'] (x & -> & _)%list_elem_of_fmap [Hy' _]%elem_of_product. cbn. by apply Hf. }
  clear Hf Hy. revert IH Hrow. generalize (product ys xs) as rest. intros rest IH Hrow.
  induction Hx as [|x xs' Hx IHx Hf]; [exact IH|]. rewrite fmap_cons in *. cbn [app]. constructor.
  - apply IHx. intros p q Hp. apply Hrow. by apply list_elem_of_further.
  - apply Forall_app. split.
    + apply Forall_fmap, (Forall_impl _ _ _ Hf). intros z Hz. right. by split.
    + apply Forall_forall. intros q Hq. left. apply Hrow; [apply list_elem_of_here|done].
Qed.

Lemma StronglySorted_fmap_in {A B} (R : A -> A -> Prop) (S : B -> B -> Prop) (f : A -> B) l :
  StronglySorted R l -> (forall x y, x ∈ l -> y ∈ l -> R x y -> S (f x) (f y)) -> StronglySorted S (f <$> l).
Proof.
  induction 1 as [|x l Hs IH Hf]; intros H; [constructor|]. rewrite fmap_cons. rewrite Forall_forall in Hf. constructor.
  - apply IH. intros y z Hy Hz. apply H; by apply list_elem_of_further.
  - apply Forall_fmap, Forall_forall. intros y Hy. apply H; [apply list_elem_of_here|by apply list_elem_of_further|by apply Hf].
Qed.

Lemma seqZ_sorted a n : StronglySorted Z.lt (seqZ a n).
Proof.
  unfold seqZ. generalize (Z.to_nat n) as k. intros k. generalize 0%nat as o. induction k as [|k IH]; intros o; [constructor|].
  cbn [seq]. rewrite fmap_cons. constructor; [apply IH|]. apply Forall_fmap, Forall_forall. intros i Hi%elem_of_seq. cbn. lia.
Qed.

(** ** Cells *)

(** The word of pixel [(x, y)] of a picture at [base]. *)
Definition cell (base pitch x y : Z) : Z := base + y * pitch + 4 * x.

(** Two words do not overlap. *)
Definition apart (a b : Z) : Prop := a + 4 <= b \/ b + 4 <= a.

Lemma cells_apart base pitch w x y x' y' :
  4 * w <= pitch -> 0 <= x < w -> 0 <= x' < w -> (x, y) <> (x', y') -> apart (cell base pitch x y) (cell base pitch x' y').
Proof.
  unfold cell, apart. intros Hp Hx Hx' Hne. destruct (decide (y = y')) as [-> |Hy].
  - assert (x <> x') by congruence. lia.
  - assert (Hs : y - y' <= -1 \/ 1 <= y - y') by lia. destruct Hs; [left|right]; nia.
Qed.

(** No coordinate aliases another. *)
Lemma cell_inj base pitch w x y x' y' :
  4 * w <= pitch -> 0 <= x < w -> 0 <= x' < w -> cell base pitch x y = cell base pitch x' y' -> x = x' /\ y = y'.
Proof.
  intros Hp Hx Hx' E. destruct (decide ((x, y) = (x', y'))) as [[= -> ->]|Hne]; [done|].
  pose proof (cells_apart base pitch w x y x' y' Hp Hx Hx' Hne) as Ha. unfold apart in Ha. lia.
Qed.

Lemma cell_bounds base pitch w h x y :
  4 * w <= pitch -> 0 <= x < w -> 0 <= y < h -> base <= cell base pitch x y /\ cell base pitch x y + 4 <= base + pitch * h.
Proof. unfold cell. intros Hp Hx Hy. split; nia. Qed.

Record framebuffer_ok s : Prop := {
  fo_active : fs_active s = true;
  fo_address : 0 <= fs_address s;
  fo_end : fs_address s + fs_size s < 2 ^ 64;
  fo_pitch : 4 * fs_width s <= fs_pitch s;
  fo_size : fs_pitch s * fs_height s = fs_size s
}.

(** Where the picture of [s] keeps pixel [(x, y)]. *)
Definition pixel_word s (x y : Z) : Z := cell (fs_address s) (fs_pitch s) x y.

(** A framebuffer that is adopted is well-formed. *)
Lemma initialize_adopts f mapped windows s s' :
  0 <= fb_address f -> 0 <= fb_width f -> 0 <= fb_height f ->
  framebuffer_initialize (Some f) mapped windows s = (FRAMEBUFFER_STATUS_OK, s') ->
  framebuffer_ok s' /\ 0 < fs_width s' /\ 0 < fs_height s'.
Proof.
  intros H0 Hw Hh. unfold framebuffer_initialize. destruct (fs_active s); [done|]. destruct (negb (fb_present f)); [done|].
  destruct (negb mapped); [done|]. destruct (find _ windows) as [w|]; [|done].
  match goal with |- context [if ?b then _ else _] => destruct b eqn:E1; [done|] end.
  match goal with |- context [if ?b then _ else _] => destruct b eqn:E2; [done|] end. intros [= <-].
  apply orb_false_iff in E1 as [[E1 _]%orb_false_iff _]. apply orb_false_iff in E2 as [[WH P]%orb_false_iff S].
  apply orb_false_iff in WH as [W H]. apply negb_false_iff in S.
  change FRAMEBUFFER_BYTES_PER_PIXEL with 4 in *. unfold UINT64_MAX in E1. change (2 ^ 64) with 18446744073709551616 in *.
  cbn [fs_width fs_height]. split; [|lia]. split; cbn; change (2 ^ 64) with 18446744073709551616; try done; lia.
Qed.

(** It has the loader's dimensions and lies in a window paging has carved out. *)
Lemma initialize_window f mapped windows s s' :
  framebuffer_initialize (Some f) mapped windows s = (FRAMEBUFFER_STATUS_OK, s') ->
  fs_width s' = fb_width f /\ fs_height s' = fb_height f /\
  exists w, w ∈ windows /\ dw_base w <= fs_address s' /\ fs_address s' + fs_size s' <= u64 (dw_base w + dw_length w).
Proof.
  unfold framebuffer_initialize. destruct (fs_active s); [done|]. destruct (negb (fb_present f)); [done|].
  destruct (negb mapped); [done|]. destruct (find _ windows) as [w|] eqn:Ef; [|done].
  apply find_some in Ef as [Hin _]. apply list_elem_of_In in Hin.
  match goal with |- context [if ?b then _ else _] => destruct b eqn:E1; [done|] end.
  match goal with |- context [if ?b then _ else _] => destruct b eqn:E2; [done|] end. intros [= <-].
  do 2 (split; [done|]). exists w. cbn. split; [done|]. apply orb_false_iff in E1 as [[_ E1]%orb_false_iff E3]. lia.
Qed.

Section Geometry.
Context s (Hok : framebuffer_ok s).

Lemma pixel_cell x y : 0 <= x -> 0 <= y -> inside x y s = true -> pixel_at x y s = pixel_word s x y.
Proof.
  intros Hx Hy Hin. unfold inside in Hin. destruct Hok as [_ Ha He Hp Hs].
  pose proof (cell_bounds (fs_address s) (fs_pitch s) (fs_width s) (fs_height s) x y Hp ltac:(lia) ltac:(lia)) as Hb.
  unfold pixel_at, pixel_offset, pixel_word. change FRAMEBUFFER_BYTES_PER_PIXEL with 4. unfold cell in *.
  rewrite wrap_small by (unfold fits; lia). lia.
Qed.

Lemma row_cell x y : 0 <= x < fs_width s -> 0 <= y < fs_height s -> pixel_at 0 y s + 4 * x = pixel_word s x y.
Proof. intros Hx Hy. rewrite pixel_cell; [unfold pixel_word, cell; lia|lia|lia|unfold inside; lia]. Qed.

Lemma pixel_inj x y x' y' :
  0 <= x < fs_width s -> 0 <= x' < fs_width s -> pixel_word s x y = pixel_word s x' y' -> x = x' /\ y = y'.
Proof. intros. by eapply cell_inj; [apply Hok| | |]. Qed.

Lemma fill_rows_stores y n v m :
  0 <= y -> y + n <= fs_height s ->
  fill_rows y n v s m = stores ((fun p => (pixel_word s p.2 p.1, v)) <$> product (seqZ y n) (seqZ 0 (fs_width s))) m.
Proof.
  intros Hy Hn. unfold fill_rows. cbv zeta. rewrite (foldl_product (fun m y x => store32 (pixel_at 0 y s + 4 * x) v m)).
  unfold stores. rewrite foldl_fmap. apply foldl_ext_in. intros b [y' x'] Hin. apply elem_of_product in Hin as [H1 H2].
  rewrite elem_of_seqZ in H1, H2. cbn [fst snd]. by rewrite row_cell by lia.
Qed.

Lemma fill_rows_hit y n v m x z :
  0 <= y -> y + n <= fs_height s -> y <= z < y + n -> 0 <= x < fs_width s -> load32 (pixel_word s x z) (fill_rows y n v s m) = v.
Proof.
  intros Hy Hn Hz Hx. rewrite fill_rows_stores by done. apply stores_hit.
  - apply list_elem_of_fmap. exists (z, x). split; [done|]. apply elem_of_product. rewrite !elem_of_seqZ. lia.
  - intros v' (p & [= _ ->] & _)%list_elem_of_fmap. done.
Qed.

Lemma fill_rows_miss y n v m a :
  0 <= y -> y + n <= fs_height s -> (forall x z, 0 <= x < fs_width s -> y <= z < y + n -> a <> pixel_word s x z) ->
  load32 a (fill_rows y n v s m) = load32 a m.
Proof.
  intros Hy Hn Ha. rewrite fill_rows_stores by done. apply stores_miss.
  intros d w ([z x] & [= -> _] & Hin)%list_elem_of_fmap E. apply elem_of_product in Hin. rewrite !elem_of_seqZ in Hin.
  symmetry in E. cbn in E. apply Ha in E; [done|lia|lia].
Qed.
(** The moves of a scroll, each with its destination. *)
Definition scroll_moves (rows : Z) : list (Z * Z) :=
  (fun p => (pixel_word s p.2 p.1, pixel_word s p.2 (p.1 + rows)))
    <$> product (seqZ 0 (fs_height s - rows)) (seqZ 0 (fs_width s)).

Lemma scroll_in rows d o :
  (d, o) ∈ scroll_moves rows <->
  exists x y, 0 <= x < fs_width s /\ 0 <= y < fs_height s - rows /\ d = pixel_word s x y /\ o = pixel_word s x (y + rows).
Proof.
  unfold scroll_moves. rewrite list_elem_of_fmap. split.
  - intros ([y x] & [= -> ->] & Hin). apply elem_of_product in Hin. rewrite !elem_of_seqZ in Hin. exists x, y. cbn. repeat split; lia.
  - intros (x & y & Hx & Hy & -> & ->). exists (y, x). split; [done|]. apply elem_of_product. rewrite !elem_of_seqZ. lia.
Qed.

(** Front to back, no row is read after it was overwritten. *)
Lemma scroll_final rows : 0 <= rows -> StronglySorted final (scroll_moves rows).
Proof.
  intros Hr. unfold scroll_moves.
  apply (StronglySorted_fmap_in (fun p q : Z * Z => p.1 < q.1 \/ p.1 = q.1 /\ p.2 < q.2)).
  - apply product_sorted; apply seqZ_sorted.
  - intros [y x] [y' x'] [Hy Hx]%elem_of_product [Hy' Hx']%elem_of_product. rewrite elem_of_seqZ in *. cbn.
    intros Hlt. split; cbn; intros [-> E]%pixel_inj; lia.
Qed.

Lemma scroll_body rows m :
  0 <= rows ->
  foldl (fun m y =>
    let destination := pixel_at 0 y s in
    let source := pixel_at 0 (y + rows) s in
    foldl (fun m x => move32 (destination + 4 * x) (source + 4 * x) m) m (seqZ 0 (fs_width s)))
    m (seqZ 0 (fs_height s - rows)) = moves (scroll_moves rows) m.
Proof.
  intros Hr. cbv zeta.
  rewrite (foldl_product (fun m y x => move32 (pixel_at 0 y s + 4 * x) (pixel_at 0 (y + rows) s + 4 * x) m)).
  unfold moves, scroll_moves. rewrite foldl_fmap. apply foldl_ext_in. intros b [y x] Hin. apply elem_of_product in Hin as [H1 H2].
  rewrite elem_of_seqZ in H1, H2. cbn [fst snd]. by rewrite !row_cell by lia.
Qed.
End Geometry.

(** ** The claims of the header *)

Section Adopted.
Context (f : boot_framebuffer) (mapped : bool) (windows : paging_device_windows) (s0 s : framebuffer_state).
Context (Ha : 0 <= fb_address f) (Hw : 0 <= fb_width f) (Hh : 0 <= fb_height f).
Context (Hinit : framebuffer_initialize (Some f) mapped windows s0 = (FRAMEBUFFER_STATUS_OK, s)).

(** A write to a visible pixel is read back there and nowhere else, two pixels share
    no byte, and a coordinate outside the picture is refused without a store. *)
Theorem framebuffer_pixels_independent x y x' y' v m :
  0 <= x -> 0 <= y -> 0 <= x' -> 0 <= y' ->
  let r := framebuffer_write_pixel x y v s m in
  (inside x y s = false -> r = (FRAMEBUFFER_STATUS_OUT_OF_BOUNDS, m)) /\
  (inside x y s = true ->
   r.1 = FRAMEBUFFER_STATUS_OK /\
   framebuffer_read_pixel x y true s r.2 = (FRAMEBUFFER_STATUS_OK, Some v) /\
   fs_address s <= pixel_at x y s /\ pixel_at x y s + 4 <= fs_address s + fs_size s /\
   ((x', y') <> (x, y) ->
    framebuffer_read_pixel x' y' true s r.2 = framebuffer_read_pixel x' y' true s m /\
    (inside x' y' s = true -> apart (pixel_at x y s) (pixel_at x' y' s)))).
Proof.
  intros Hx Hy Hx' Hy' r. destruct (initialize_adopts _ _ _ _ _ Ha Hw Hh Hinit) as [Hok _]. unfold r.
  unfold framebuffer_write_pixel, framebuffer_read_pixel. rewrite (fo_active _ Hok). cbn [negb].
  destruct (inside x y s) eqn:E; cbn [negb]; split; try done. intros _. cbn [fst snd]. rewrite load_store, decide_True by done.
  pose proof (fo_size _ Hok). pose proof (fo_pitch _ Hok) as Hp. rewrite (pixel_cell _ Hok x y Hx Hy E). unfold inside in E.
  destruct (cell_bounds (fs_address s) (fs_pitch s) (fs_width s) (fs_height s) x y Hp ltac:(lia) ltac:(lia)).
  fold (pixel_word s x y) in *. split_and!; try done; [lia|]. intros Hne. destruct (inside x' y' s) eqn:E'; cbn [negb]; [|done].
  rewrite (pixel_cell _ Hok x' y' Hx' Hy' E'). unfold inside in E'.
  assert (Hap : apart (pixel_word s x y) (pixel_word s x' y')) by (apply (cells_apart _ _ (fs_width s)); [done|lia|lia|congruence]).
  split; [|done]. rewrite load_store, decide_False; [done|]. unfold apart in Hap. lia.
Qed.

(** Scrolling moves every pixel up, whatever the overlap of the two bands, fills
    the rows it exposes and touches no other word. *)
Theorem framebuffer_scroll_up_correct rows fill m :
  0 <= rows ->
  let r := framebuffer_scroll_up rows fill s m in
  r.1 = FRAMEBUFFER_STATUS_OK /\
  (forall x y, 0 <= x < fs_width s -> 0 <= y < fs_height s ->
     load32 (pixel_word s x y) r.2 = if y + rows <? fs_height s then load32 (pixel_word s x (y + rows)) m else fill) /\
  (forall a, (forall x y, 0 <= x < fs_width s -> 0 <= y < fs_height s -> a <> pixel_word s x y) -> load32 a r.2 = load32 a m).
Proof.
  intros Hr r. destruct (initialize_adopts _ _ _ _ _ Ha Hw Hh Hinit) as (Hok & _ & Hpos). unfold r.
  unfold framebuffer_scroll_up, framebuffer_fill. rewrite (fo_active _ Hok). cbn [negb].
  destruct (rows =? 0) eqn:E0; [split_and!; try done|].
  { intros x y Hx Hy. assert (rows = 0) as -> by lia. rewrite Z.add_0_r. by destruct (Z.ltb_spec y (fs_height s)); [|lia]. }
  destruct (fs_height s <=? rows) eqn:E1; cbn [fst snd].
  - split_and!; [done| |].
    + intros x y Hx Hy. destruct (Z.ltb_spec (y + rows) (fs_height s)); [lia|]. apply fill_rows_hit; lia || done.
    + intros a Hno. apply fill_rows_miss; [done|lia|lia|]. intros x z Hx Hz. apply Hno; lia.
  - rewrite (scroll_body _ Hok) by done. split_and!; [done| |].
    + intros x y Hx Hy. destruct (Z.ltb_spec (y + rows) (fs_height s)).
      * rewrite fill_rows_miss; [|done|lia|lia|].
        { apply moves_hit; [by apply scroll_final|]. apply scroll_in. exists x, y. repeat split; lia. }
        intros x' z Hx' Hz E. apply (pixel_inj _ Hok) in E; [lia|done|done].
      * apply fill_rows_hit; lia || done.
    + intros a Hno. rewrite fill_rows_miss; [|done|lia|lia|intros x z Hx Hz; apply Hno; lia].
      apply moves_miss. intros d o (x & y & Hx & Hy & -> & _)%scroll_in E. symmetry in E. apply Hno in E; [done|lia|lia].
Qed.
End Adopted.

(** ** The audit at the end of boot *)

Section Pages.
Context {A : Type} (more : Z -> bool) (check : Z -> option A) (passed : A) (last : Z).
Context (Hmore : forall a, more a = (a <=? last)) (Hcheck : forall a, check a <> Some passed) (Hlast : last + PAGING_PAGE_SIZE < 2 ^ 64).

Lemma page_loop_exact n a :
  0 <= a -> last < a + PAGING_PAGE_SIZE * Z.of_nat n ->
  exists st, page_loop (S n) more check passed a = Some st /\
    (st = passed <-> forall i, 0 <= i -> a + PAGING_PAGE_SIZE * i <= last -> check (a + PAGING_PAGE_SIZE * i) = None).
Proof.
  change PAGING_PAGE_SIZE with 4096 in *. change (2 ^ 64) with 18446744073709551616 in *. revert a.
  induction n as [|n IH]; intros a H0 Hn; cbn [page_loop]; rewrite Hmore; destruct (Z.leb_spec a last) as [Hd|Hd]; try lia; cbn [negb].
  1, 3: by exists passed; split; [|split; [intros _ i ? ?; lia|]].
  destruct (check a) as [st|] eqn:E.
  - exists st. split; [done|]. split; [intros ->; by destruct (Hcheck a)|]. intros H.
    specialize (H 0 ltac:(lia) ltac:(lia)). rewrite Z.mul_0_r, Z.add_0_r in H. congruence.
  - assert (Hstep : u64 (a + PAGING_PAGE_SIZE) = a + 4096).
    { change PAGING_PAGE_SIZE with 4096. apply wrap_small. unfold fits. change (2 ^ 64) with 18446744073709551616. lia. }
    rewrite Hstep. destruct (IH (a + 4096)) as (st & Es & Hst); [lia|lia|]. cbn [page_loop] in Es. exists st. split; [exact Es|].
    rewrite Hst. split; intros H i Hi Hle.
    + destruct (decide (i = 0)) as [-> |]; [by rewrite Z.mul_0_r, Z.add_0_r|].
      replace (a + 4096 * i) with (a + 4096 + 4096 * (i - 1)) by lia. apply H; lia.
    + replace (a + 4096 + 4096 * i) with (a + 4096 * (i + 1)) by lia. apply H; lia.
Qed.

(** The page of an address. *)
Lemma page_base a : fits 64 a -> a .& not64 (PAGING_PAGE_SIZE - 1) = a - a mod PAGING_PAGE_SIZE.
Proof. intros Ha. change (PAGING_PAGE_SIZE - 1) with (2 ^ 12 - 1). by rewrite land_not64. Qed.

(** From the page of [address] on, the loop visits every page up to [last]. *)
Lemma pages_exact n address :
  0 <= address <= last -> (last - (address - address mod PAGING_PAGE_SIZE)) / PAGING_PAGE_SIZE < Z.of_nat n ->
  exists st, page_loop (S n) more check passed (address .& not64 (PAGING_PAGE_SIZE - 1)) = Some st /\
    (st = passed <-> forall a, a mod PAGING_PAGE_SIZE = 0 -> address < a + PAGING_PAGE_SIZE -> a <= last -> check a = None).
Proof.
  intros Ha Hn. change PAGING_PAGE_SIZE with 4096 in *. change (2 ^ 64) with 18446744073709551616 in *.
  change (4096 - 1) with (PAGING_PAGE_SIZE - 1). rewrite page_base by (unfold fits; change (2 ^ 64) with 18446744073709551616; lia).
  change PAGING_PAGE_SIZE with 4096.
  pose proof (Z.mod_pos_bound address 4096 ltac:(done)) as Hm. pose proof (Z.div_mod address 4096 ltac:(done)) as Hdm.
  set (first := address - address mod 4096) in *.
  assert (Hq := Z.div_mod (last - first) 4096 ltac:(done)). assert (Hqm := Z.mod_pos_bound (last - first) 4096 ltac:(done)).
  destruct (page_loop_exact n first) as (st & E & Hst); [lia|change PAGING_PAGE_SIZE with 4096; lia|].
  change PAGING_PAGE_SIZE with 4096 in *. exists st. split; [done|]. rewrite Hst. split; intros H'.
  - intros a Hal Hlo Hhi. pose proof (Z.div_mod a 4096 ltac:(done)).
    replace a with (first + 4096 * (a / 4096 - address / 4096)) by lia. apply H'; lia.
  - intros i Hi Hle. apply H'; [|lia|lia]. replace (first + 4096 * i) with ((address / 4096 + i) * 4096) by lia.
    by apply Z.mod_mul.
Qed.
End Pages.

(** What the page tables must say of the page at [a]. *)
Definition page_combines (p : paging) (a : Z) : Prop :=
  exists t, paging_translate a true p = (PAGING_STATUS_OK, t) /\ page_matches a t = true.

Lemma check_page_none p a : check_page p a = None <-> page_combines p a.
Proof.
  unfold check_page, page_combines. destruct (paging_translate a true p) as [st t].
  split; [|intros (t' & [= -> ->] & ->); done]. destruct st; try done. destruct (page_matches a t) eqn:E; [eauto|done].
Qed.

(** The audit ends, and it passes exactly when every page the picture touches is mapped to
    itself by a 4 KiB entry that is writable and write-combining. *)
Theorem framebuffer_verify_exact p s :
  framebuffer_ok s -> 0 < fs_size s -> fs_address s + fs_size s + PAGING_PAGE_SIZE < 2 ^ 64 ->
  exists st, framebuffer_verify p s = Some st /\
    (st = FRAMEBUFFER_STATUS_OK <->
     forall a, a mod PAGING_PAGE_SIZE = 0 -> fs_address s < a + PAGING_PAGE_SIZE -> a < fs_address s + fs_size s -> page_combines p a).
Proof.
  intros Hok Hpos Hend. destruct Hok as [Hact Ha He Hp Hs]. unfold framebuffer_verify. rewrite Hact. cbn [negb].
  change FRAMEBUFFER_BYTES_PER_PIXEL with 4. rewrite Hs, Z.eqb_refl. cbn [negb orb].
  destruct (Z.ltb_spec (fs_pitch s) (fs_width s * 4)); [lia|]. cbv zeta. rewrite (wrap_small 64) by (unfold fits; lia).
  set (last := fs_address s + fs_size s - 1). rewrite page_base by (unfold fits; lia).
  pose proof (Z.mod_pos_bound (fs_address s) PAGING_PAGE_SIZE ltac:(done)) as Hm.
  set (q := (last - _) / PAGING_PAGE_SIZE).
  assert (Hq : 0 <= q) by (apply Z.div_pos; [lia|done]).
  destruct (pages_exact (fun address => address <=? last) (check_page p) FRAMEBUFFER_STATUS_OK last) with (n := Z.to_nat (q + 1)) (address := fs_address s)
    as (st & E & Hst); [done| |lia|lia|fold q; lia|].
  - intros a. unfold check_page. repeat case_match; congruence.
  - rewrite page_base in E by (unfold fits; lia). exists st. split; [exact E|]. rewrite Hst.
    split; intros H' a H1 H2 H3; [apply check_page_none|apply check_page_none]; apply H'; lia || done.
Qed.

(** ** Packing *)

(** Three whole bytes of the word, as the loader's modes have them. *)
Record byte_channels s : Prop := {
  bc_red : fs_red_position s ∈ [0; 8; 16; 24];
  bc_green : fs_green_position s ∈ [0; 8; 16; 24];
  bc_blue : fs_blue_position s ∈ [0; 8; 16; 24];
  bc_distinct : NoDup [fs_red_position s; fs_green_position s; fs_blue_position s]
}.

Lemma shifted_byte c p : 0 <= c < 256 -> p ∈ [0; 8; 16; 24] -> u32 (c .<< p) = c .<< p.
Proof.
  intros Hc Hp. apply wrap_small. unfold fits. change (2 ^ 32) with 4294967296.
  repeat (apply elem_of_cons in Hp as [-> |Hp]); [..|by apply elem_of_nil in Hp]; rewrite Z.shiftl_mul_pow2 by lia.
  all: match goal with |- context [2 ^ ?k] => let v := eval vm_compute in (2 ^ k) in change (2 ^ k) with v end; lia.
Qed.

Lemma byte_high_bit c n : 0 <= c < 256 -> 8 <= n -> Z.testbit c n = false.
Proof.
  intros Hc Hn. destruct (decide (c = 0)) as [-> |]; [apply Z.bits_0|]. apply Z.bits_above_log2; [lia|].
  assert (Z.log2 c < 8); [|lia]. apply Z.log2_lt_pow2; [lia|]. change (2 ^ 8) with 256. lia.
Qed.

(** The byte at [p] of a word, of the channel that is there and of one that is not. *)
Lemma byte_here c p : 0 <= c < 256 -> 0 <= p -> ((c .<< p) .>> p) .& 255 = c.
Proof.
  intros Hc Hp. rewrite Z.shiftr_shiftl_l by done. rewrite Z.sub_diag, Z.shiftl_0_r. change 255 with (Z.ones 8).
  rewrite Z.land_ones by done. apply Z.mod_small. change (2 ^ 8) with 256. lia.
Qed.

Lemma byte_elsewhere c p q :
  0 <= c < 256 -> p ∈ [0; 8; 16; 24] -> q ∈ [0; 8; 16; 24] -> p <> q -> ((c .<< q) .>> p) .& 255 = 0.
Proof.
  intros Hc Hp Hq Hne. assert (0 <= p /\ 0 <= q /\ (p + 8 <= q \/ q + 8 <= p)) as (Hp0 & Hq0 & Hd).
  { rewrite !elem_of_cons, elem_of_nil in Hp, Hq. lia. }
  apply Z.bits_inj'. intros n Hn. change 255 with (Z.ones 8). rewrite Z.land_spec, Z.bits_0, Z.shiftr_spec, Z.shiftl_spec by lia.
  destruct (Z.ltb_spec n 8); [|rewrite Z.ones_spec_high by lia; apply andb_false_r].
  destruct Hd; [rewrite Z.testbit_neg_r by lia|rewrite byte_high_bit by lia]; done.
Qed.

(** The word holds each channel where the loader put it. *)
Theorem framebuffer_pack_unpack s r g b :
  byte_channels s -> 0 <= r < 256 -> 0 <= g < 256 -> 0 <= b < 256 ->
  let w := framebuffer_pack r g b s in
  (w .>> fs_red_position s) .& FRAMEBUFFER_CHANNEL_MASK = r /\
  (w .>> fs_green_position s) .& FRAMEBUFFER_CHANNEL_MASK = g /\
  (w .>> fs_blue_position s) .& FRAMEBUFFER_CHANNEL_MASK = b.
Proof.
  intros [Pr Pg Pb Hd] Hr Hg Hb. unfold framebuffer_pack. rewrite !shifted_byte by done. change FRAMEBUFFER_CHANNEL_MASK with 255.
  rewrite !NoDup_cons, !elem_of_cons, !elem_of_nil in Hd.
  assert (Hne : fs_red_position s <> fs_green_position s /\ fs_red_position s <> fs_blue_position s
    /\ fs_green_position s <> fs_blue_position s) by tauto.
  destruct Hne as (N1 & N2 & N3).
  assert (Hpos : forall p, p ∈ [0; 8; 16; 24] -> 0 <= p) by (intros p; rewrite !elem_of_cons, elem_of_nil; lia).
  cbv zeta. rewrite !Z.shiftr_lor, !Z.land_lor_distr_l.
  split_and!; rewrite !byte_here, !byte_elsewhere by auto; by rewrite ?Z.lor_0_l, ?Z.lor_0_r.
Qed.

(** ** The self test *)

Definition with_mode (active : bool) (address width height pitch : Z) s : framebuffer_state :=
  FramebufferState active address (pitch * height) pitch width height (fs_red_position s) (fs_green_position s) (fs_blue_position s).
Definition with_positions (red green blue : Z) s : framebuffer_state :=
  FramebufferState (fs_active s) (fs_address s) (fs_size s) (fs_pitch s) (fs_width s) (fs_height s) red green blue.

Definition with_pitch (pitch : Z) s : framebuffer_state :=
  FramebufferState (fs_active s) (fs_address s) (fs_size s) pitch (fs_width s) (fs_height s) (fs_red_position s)
    (fs_green_position s) (fs_blue_position s).

Definition offsets_are_right s : bool :=
  let t := with_positions 16 8 0 (with_mode true 0xFD000000 100 50 512 s) in
  let packed := with_pitch (fs_width t * FRAMEBUFFER_BYTES_PER_PIXEL) t in
  (pixel_offset 0 0 t =? 0) && (pixel_offset 1 0 t =? 4) && (pixel_offset 99 0 t =? 396)
  && ((pixel_offset 0 1 t =? 512) && (pixel_offset 0 2 t =? 1024) && (pixel_offset 1 1 t =? 516))
  && (pixel_offset (fs_width t - 1) (fs_height t - 1) t + FRAMEBUFFER_BYTES_PER_PIXEL <=? fs_size t)
  && (inside 99 49 t && negb (inside 100 49 t) && negb (inside 99 50 t) && negb (inside 100 50 t) && inside 0 0 t)
  && (pixel_offset 0 1 packed =? 400).

Definition packing_is_right s : bool :=
  let t := with_positions 16 8 0 s in
  let swapped := with_positions 0 8 16 t in
  (framebuffer_pack 0xFF 0 0 t =? 0x00FF0000) && (framebuffer_pack 0 0xFF 0 t =? 0x0000FF00)
  && (framebuffer_pack 0 0 0xFF t =? 0x000000FF) && (framebuffer_pack 0x12 0x34 0x56 t =? 0x00123456)
  && (framebuffer_visible_mask t =? 0x00FFFFFF)
  && ((framebuffer_pack 0x12 0x34 0x56 swapped =? 0x00563412) && (framebuffer_visible_mask swapped =? 0x00FFFFFF))
  && ((framebuffer_pack 0xFF 0xFF 0xFF swapped .& Z.lnot (framebuffer_visible_mask swapped)) =? 0).

Definition refusals_are_named (mapped : bool) (windows : paging_device_windows) (p : paging) (m : pixel_store) s : bool :=
  let off := FramebufferState false (fs_address s) (fs_size s) (fs_pitch s) (fs_width s) (fs_height s)
    (fs_red_position s) (fs_green_position s) (fs_blue_position s) in
  let absent := Framebuffer 0 0 0 0 0 0 0 0 0 false in
  let on := with_mode true (fs_address s) 100 50 400 s in
  bool_decide ((framebuffer_initialize None mapped windows off).1 = FRAMEBUFFER_STATUS_NULL_ARGUMENT)
  && bool_decide ((framebuffer_read_pixel 0 0 false off m).1 = FRAMEBUFFER_STATUS_NULL_ARGUMENT)
  && bool_decide ((framebuffer_write_pixel 0 0 0 off m).1 = FRAMEBUFFER_STATUS_NOT_INITIALIZED)
  && bool_decide ((framebuffer_read_pixel 0 0 true off m).1 = FRAMEBUFFER_STATUS_NOT_INITIALIZED)
  && bool_decide ((framebuffer_fill 0 off m).1 = FRAMEBUFFER_STATUS_NOT_INITIALIZED)
  && bool_decide (framebuffer_verify p off = Some FRAMEBUFFER_STATUS_NOT_INITIALIZED)
  && negb (framebuffer_is_active off)
  && bool_decide ((framebuffer_initialize (Some absent) mapped windows off).1 = FRAMEBUFFER_STATUS_ABSENT)
  && bool_decide ((framebuffer_write_pixel 100 0 0 on m).1 = FRAMEBUFFER_STATUS_OUT_OF_BOUNDS)
  && bool_decide ((framebuffer_write_pixel 0 50 0 on m).1 = FRAMEBUFFER_STATUS_OUT_OF_BOUNDS)
  && bool_decide ((framebuffer_read_pixel 100 0 true on m).1 = FRAMEBUFFER_STATUS_OUT_OF_BOUNDS)
  && bool_decide (framebuffer_read_pixel 0 50 true on m = (FRAMEBUFFER_STATUS_OUT_OF_BOUNDS, Some 0)).

Definition framebuffer_self_test (mapped : bool) (windows : paging_device_windows) (p : paging) (m : pixel_store) s : bool :=
  offsets_are_right s && packing_is_right s && refusals_are_named mapped windows p m s.

(** It passes in every state of the machine. *)
Theorem framebuffer_self_test_passes mapped windows p m s : framebuffer_self_test mapped windows p m s = true.
Proof. reflexivity. Qed.

(** ** A small padded mode *)

Module FramebufferSamples.

Definition sample_window : paging_device_window := 
  DeviceWindow PAGING_DEVICE_WINDOW_FRAMEBUFFER 0 0xFD000000 4096 PAGING_MEMORY_WRITE_COMBINING PAGING_DEVICE_WINDOW_WRITE.
Definition sample_mode : boot_framebuffer := Framebuffer 0xFD000000 16 3 4 64 32 16 8 0 true.
Definition idle : framebuffer_state := FramebufferState false 0 0 0 0 0 0 0 0.
Definition adopted : framebuffer_state := (framebuffer_initialize (Some sample_mode) true [sample_window] idle).2.

Lemma sample_initialize :
  framebuffer_initialize (Some sample_mode) true [sample_window] idle = (FRAMEBUFFER_STATUS_OK, adopted).
Proof. vm_compute. reflexivity. Qed.

Lemma framebuffer_pixels_independent_witness :
  inside 2 3 adopted = true /\
  framebuffer_read_pixel 2 3 true adopted (framebuffer_write_pixel 2 3 7 adopted ∅).2 = (FRAMEBUFFER_STATUS_OK, Some 7).
Proof.
  split; [reflexivity|].
  destruct (framebuffer_pixels_independent sample_mode true [sample_window] idle adopted ltac:(vm_compute; done)
    ltac:(vm_compute; done) ltac:(vm_compute; done) sample_initialize 2 3 0 0 7 ∅ ltac:(lia) ltac:(lia) ltac:(lia) ltac:(lia))
    as [_ H].
  by apply H.
Defined.

(** Rows 10, 20, 30, 40 scrolled by one. *)
Definition drawn : pixel_store :=
  fill_rows 3 1 40 adopted (fill_rows 2 1 30 adopted (fill_rows 1 1 20 adopted (fill_rows 0 1 10 adopted ∅))).

Lemma framebuffer_scroll_up_correct_witness :
  load32 (pixel_word adopted 2 0) (framebuffer_scroll_up 1 5 adopted drawn).2 = 20 /\
  load32 (pixel_word adopted 2 3) (framebuffer_scroll_up 1 5 adopted drawn).2 = 5.
Proof.
  destruct (framebuffer_scroll_up_correct sample_mode true [sample_window] idle adopted ltac:(vm_compute; done)
    ltac:(vm_compute; done) ltac:(vm_compute; done) sample_initialize 1 5 drawn ltac:(lia)) as (_ & H & _).
  split; rewrite H by (vm_compute; split; congruence); vm_compute; reflexivity.
Defined.

End FramebufferSamples.
