(* ===== verification/Surface.v ===== *)
(** * Surfaces ([src/kernel/surface.c], [include/rsd/surface.h])

    A picture in the kernel heap and the bounding rectangle of what changed since it was
    last presented.  Drawing changes words of the store of [Framebuffer] and records
    damage; [surface_present] copies the damage to the screen.  A null [struct surface *]
    is [None]. *)

From stdpp Require Import base option list numbers gmap sorting.
From S2P Require Import Prelude Frames Multiboot2 BlockTable Heap Paging PagingSpec PagingBoot PagingWindows Framebuffer.

Definition SURFACE_BYTES_PER_PIXEL : Z := 4.
Definition UINT32_MAX : Z := 2 ^ 32 - 1.

Inductive surface_status :=
| SURFACE_STATUS_OK
| SURFACE_STATUS_NULL_ARGUMENT
| SURFACE_STATUS_ALREADY_INITIALIZED
| SURFACE_STATUS_NOT_INITIALIZED
| SURFACE_STATUS_BAD_GEOMETRY
| SURFACE_STATUS_SIZE_OVERFLOW
| SURFACE_STATUS_ALLOCATION_FAILURE
| SURFACE_STATUS_RELEASE_FAILURE
| SURFACE_STATUS_OUT_OF_BOUNDS
| SURFACE_STATUS_RECTANGLE_OVERFLOW
| SURFACE_STATUS_BAD_SOURCE_PITCH
| SURFACE_STATUS_NO_FRAMEBUFFER
| SURFACE_STATUS_FRAMEBUFFER_MISMATCH
| SURFACE_STATUS_PRESENT_FAILURE
| SURFACE_STATUS_VALIDATION_FAILURE.

#[global] Instance surface_status_eq_dec : EqDecision surface_status.
Proof. solve_decision. Defined.

Record surface_rect := Rect {
  sr_x : Z;
  sr_y : Z;
  sr_width : Z;
  sr_height : Z
}.

Record surface_damage := Damage {
  pending : bool;
  rectangle : surface_rect
}.

(** [sf_pixels] is 0 for a null pointer. *)
Record surface := Surface {
  sf_active : bool;
  sf_width : Z;
  sf_height : Z;
  sf_pitch : Z;
  sf_pixels : Z;
  sf_damage : surface_damage;
  sf_presents : Z;
  sf_last_present_pixels : Z;
  sf_presented_pixels : Z
}.

Implicit Types (u : surface) (r : surface_rect) (m : pixel_store).

(** ** Damage and clipping *)

Definition minimum (left right : Z) : Z := if left <? right then left else right.

Definition row_at u (y : Z) : Z := sf_pixels u + y * sf_pitch u.

Definition set_damage (d : surface_damage) u : surface :=
  Surface (sf_active u) (sf_width u) (sf_height u) (sf_pitch u) (sf_pixels u) d (sf_presents u)
    (sf_last_present_pixels u) (sf_presented_pixels u).

Definition clear_damage u : surface := set_damage (Damage false (Rect 0 0 0 0)) u.

Definition add_damage r u : surface :=
  if (sr_width r =? 0) || (sr_height r =? 0) then u
  else if negb (pending (sf_damage u)) then set_damage (Damage true r) u
  else
    let old := rectangle (sf_damage u) in
    let left := minimum (sr_x old) (sr_x r) in
    let top := minimum (sr_y old) (sr_y r) in
    let right := u32 (sr_x old + sr_width old) in
    let bottom := u32 (sr_y old + sr_height old) in
    let right := if right <? u32 (sr_x r + sr_width r) then u32 (sr_x r + sr_width r) else right in
    let bottom := if bottom <? u32 (sr_y r + sr_height r) then u32 (sr_y r + sr_height r) else bottom in
    set_damage (Damage true (Rect left top (u32 (right - left)) (u32 (bottom - top)))) u.

(** The rectangle is what [*clipped] holds afterwards. *)
Definition clip_rectangle u (requested : surface_rect) : surface_status * surface_rect :=
  if (sr_width requested =? 0) || (sr_height requested =? 0) then
    (SURFACE_STATUS_OK, Rect (sr_x requested) (sr_y requested) 0 0)
  else if (sf_width u <=? sr_x requested) || (sf_height u <=? sr_y requested) then
    (SURFACE_STATUS_OUT_OF_BOUNDS, requested)
  else if (UINT32_MAX - sr_x requested <? sr_width requested) || (UINT32_MAX - sr_y requested <? sr_height requested) then
    (SURFACE_STATUS_RECTANGLE_OVERFLOW, requested)
  else
    (SURFACE_STATUS_OK,
     Rect (sr_x requested) (sr_y requested) (minimum (sr_width requested) (sf_width u - sr_x requested))
       (minimum (sr_height requested) (sf_height u - sr_y requested))).

(** ** Lifetime *)

Definition bind_surface (surface : option surface) (width height pitch : Z) (pixels : option Z) :
    surface_status * option Surface.surface :=
  match surface, pixels with
  | Some _, Some pixels =>
      if (width =? 0) || (height =? 0) || (UINT32_MAX / SURFACE_BYTES_PER_PIXEL <? width)
         || (pitch <? u32 (width * SURFACE_BYTES_PER_PIXEL)) || negb (pitch mod SURFACE_BYTES_PER_PIXEL =? 0) then
        (SURFACE_STATUS_BAD_GEOMETRY, surface)
      else (SURFACE_STATUS_OK, Some (clear_damage (Surface true width height pitch pixels (Damage false (Rect 0 0 0 0)) 0 0 0)))
  | _, _ => (SURFACE_STATUS_NULL_ARGUMENT, surface)
  end.

Section Lifetime.
Context {M : Type} `{!page_backend M}.

Definition surface_initialize (surface : option surface) (width height : Z) (h : heap) (k : M) :
    surface_status * option Surface.surface * heap * M :=
  match surface with
  | None => (SURFACE_STATUS_NULL_ARGUMENT, surface, h, k)
  | Some u =>
      if sf_active u then (SURFACE_STATUS_ALREADY_INITIALIZED, surface, h, k)
      else if (width =? 0) || (height =? 0) then (SURFACE_STATUS_BAD_GEOMETRY, surface, h, k)
      else if UINT32_MAX / SURFACE_BYTES_PER_PIXEL <? width then (SURFACE_STATUS_SIZE_OVERFLOW, surface, h, k)
      else
        let pitch := u32 (width * SURFACE_BYTES_PER_PIXEL) in
        let size := pitch * height in
        if HEAP_SIZE <? size then (SURFACE_STATUS_SIZE_OVERFLOW, surface, h, k)
        else
          match heap_allocate size (Some None) h k with
          | (HEAP_STATUS_OK, allocation, h, k) =>
              let '(st, surface) := bind_surface surface width height pitch (default None allocation) in (st, surface, h, k)
          | (_, _, h, k) => (SURFACE_STATUS_ALLOCATION_FAILURE, surface, h, k)
          end
  end.

Definition surface_release (surface : option surface) (h : heap) : surface_status * option Surface.surface * heap :=
  match surface with
  | None => (SURFACE_STATUS_NULL_ARGUMENT, surface, h)
  | Some u =>
      if negb (sf_active u) then (SURFACE_STATUS_NOT_INITIALIZED, surface, h)
      else
        match heap_free (if sf_pixels u =? 0 then None else Some (sf_pixels u)) h with
        | (HEAP_STATUS_OK, h) =>
            (SURFACE_STATUS_OK, Some (clear_damage (Surface false 0 0 0 0 (sf_damage u) 0 0 0)), h)
        | (_, h) => (SURFACE_STATUS_RELEASE_FAILURE, surface, h)
        end
  end.
End Lifetime.

(** ** Drawing *)

(** Status, surface and store after the call. *)
Abbreviation drawing := (surface_status * option surface * pixel_store)%type.

Definition surface_fill_rect (surface : option surface) r (pixel : Z) m : drawing :=
  match surface with
  | None => (SURFACE_STATUS_NULL_ARGUMENT, surface, m)
  | Some u =>
      if negb (sf_active u) then (SURFACE_STATUS_NOT_INITIALIZED, surface, m)
      else
        let '(status, clipped) := clip_rectangle u r in
        if negb (bool_decide (status = SURFACE_STATUS_OK)) || (sr_width clipped =? 0) || (sr_height clipped =? 0) then
          (status, surface, m)
        else
          let m :=
            foldl (fun m y =>
              let row := row_at u (u32 (sr_y clipped + y)) in
              foldl (fun m x => store32 (row + 4 * u32 (sr_x clipped + x)) pixel m) m (seqZ 0 (sr_width clipped)))
              m (seqZ 0 (sr_height clipped)) in
          (SURFACE_STATUS_OK, Some (add_damage clipped u), m)
  end.

(** [source] is [None] for a null pointer. *)
Definition surface_blit (surface : option surface) (destination_x destination_y : Z) (source : option Z)
    (source_width source_height source_pitch : Z) m : drawing :=
  match surface, source with
  | Some u, Some source =>
      if negb (sf_active u) then (SURFACE_STATUS_NOT_INITIALIZED, surface, m)
      else if (source_width =? 0) || (source_height =? 0) then (SURFACE_STATUS_OK, surface, m)
      else if (UINT32_MAX / SURFACE_BYTES_PER_PIXEL <? source_width)
           || (source_pitch <? u32 (source_width * SURFACE_BYTES_PER_PIXEL))
           || negb (source_pitch mod SURFACE_BYTES_PER_PIXEL =? 0) then (SURFACE_STATUS_BAD_SOURCE_PITCH, surface, m)
      else
        match clip_rectangle u (Rect destination_x destination_y source_width source_height) with
        | (SURFACE_STATUS_OK, clipped) =>
            let m :=
              foldl (fun m y =>
                let destination := row_at u (u32 (sr_y clipped + y)) in
                let source_row := source + y * source_pitch in
                foldl (fun m x => move32 (destination + 4 * u32 (sr_x clipped + x)) (source_row + 4 * x) m)
                  m (seqZ 0 (sr_width clipped)))
                m (seqZ 0 (sr_height clipped)) in
            (SURFACE_STATUS_OK, Some (add_damage clipped u), m)
        | (status, _) => (status, surface, m)
        end
  | _, _ => (SURFACE_STATUS_NULL_ARGUMENT, surface, m)
  end.

(** One row of a copy; [y] counts from the top of both rectangles. *)
Definition copy_row u (source : surface_rect) (destination_x destination_y y : Z) (xs : list Z) m : pixel_store :=
  let destination_row := row_at u (u32 (destination_y + y)) in
  let source_row := row_at u (u32 (sr_y source + y)) in
  foldl (fun m x => move32 (destination_row + 4 * u32 (destination_x + x)) (source_row + 4 * u32 (sr_x source + x)) m) m xs.

Definition surface_copy_rect (surface : option surface) (source : surface_rect) (destination_x destination_y : Z) m : drawing :=
  match surface with
  | None => (SURFACE_STATUS_NULL_ARGUMENT, surface, m)
  | Some u =>
      if negb (sf_active u) then (SURFACE_STATUS_NOT_INITIALIZED, surface, m)
      else
        let '(status, source_clipped) := clip_rectangle u source in
        if negb (bool_decide (status = SURFACE_STATUS_OK)) || (sr_width source_clipped =? 0)
           || (sr_height source_clipped =? 0) then (status, surface, m)
        else
          match clip_rectangle u (Rect destination_x destination_y (sr_width source) (sr_height source)) with
          | (SURFACE_STATUS_OK, destination_clipped) =>
              let copy_width := minimum (sr_width source_clipped) (sr_width destination_clipped) in
              let copy_height := minimum (sr_height source_clipped) (sr_height destination_clipped) in
              let xs := seqZ 0 copy_width in
              let m :=
                if sr_y source <? destination_y then
                  foldl (fun m y => copy_row u source destination_x destination_y y xs m) m (reverse (seqZ 0 copy_height))
                else
                  foldl (fun m y =>
                    if (destination_y =? sr_y source) && (sr_x source <? destination_x) then
                      copy_row u source destination_x destination_y y (reverse xs) m
                    else copy_row u source destination_x destination_y y xs m) m (seqZ 0 copy_height) in
              (SURFACE_STATUS_OK,
               Some (add_damage (Rect (sr_x destination_clipped) (sr_y destination_clipped) copy_width copy_height) u), m)
          | (status, _) => (status, surface, m)
          end
  end.

Definition surface_pixel (surface : option surface) (x y pixel : Z) m : drawing :=
  match surface with
  | None => (SURFACE_STATUS_NULL_ARGUMENT, surface, m)
  | Some u =>
      if negb (sf_active u) then (SURFACE_STATUS_NOT_INITIALIZED, surface, m)
      else if (sf_width u <=? x) || (sf_height u <=? y) then (SURFACE_STATUS_OUT_OF_BOUNDS, surface, m)
      else (SURFACE_STATUS_OK, Some (add_damage (Rect x y 1 1) u), store32 (row_at u y + 4 * x) pixel m)
  end.

(** [out] is [pixel != NULL]; the value is what is stored there. *)
Definition surface_read_pixel (surface : option surface) (x y : Z) (out : bool) m : surface_status * option Z :=
  match surface with
  | Some u =>
      if negb out then (SURFACE_STATUS_NULL_ARGUMENT, None)
      else if negb (sf_active u) then (SURFACE_STATUS_NOT_INITIALIZED, Some 0)
      else if (sf_width u <=? x) || (sf_height u <=? y) then (SURFACE_STATUS_OUT_OF_BOUNDS, Some 0)
      else (SURFACE_STATUS_OK, Some (load32 (row_at u y + 4 * x) m))
  | None => (SURFACE_STATUS_NULL_ARGUMENT, None)
  end.

(** [framebuffer] is the framebuffer's own state. *)
Definition surface_present (surface : option surface) (framebuffer : framebuffer_state) m : drawing :=
  match surface with
  | None => (SURFACE_STATUS_NULL_ARGUMENT, surface, m)
  | Some u =>
      let damage := rectangle (sf_damage u) in
      if negb (sf_active u) then (SURFACE_STATUS_NOT_INITIALIZED, surface, m)
      else if negb (framebuffer_is_active framebuffer) then (SURFACE_STATUS_NO_FRAMEBUFFER, surface, m)
      else
        let framebuffer := framebuffer_get_state framebuffer in
        if negb (fs_width framebuffer =? sf_width u) || negb (fs_height framebuffer =? sf_height u) then
          (SURFACE_STATUS_FRAMEBUFFER_MISMATCH, surface, m)
        else if negb (pending (sf_damage u)) then
          (SURFACE_STATUS_OK,
           Some (Surface (sf_active u) (sf_width u) (sf_height u) (sf_pitch u) (sf_pixels u) (sf_damage u) (sf_presents u) 0
                   (sf_presented_pixels u)), m)
        else
          let '(m, copied) :=
            foldl (fun mc y =>
              let source := row_at u (u32 (sr_y damage + y)) in
              let destination :=
                u64 (fs_address framebuffer + u32 (sr_y damage + y) * fs_pitch framebuffer) + 4 * sr_x damage in
              foldl (fun mc x =>
                (move32 (destination + 4 * x) (source + 4 * u32 (sr_x damage + x)) mc.1, u64 (mc.2 + 1)))
                mc (seqZ 0 (sr_width damage)))
              (m, 0) (seqZ 0 (sr_height damage)) in
          (SURFACE_STATUS_OK,
           Some (clear_damage
             (Surface (sf_active u) (sf_width u) (sf_height u) (sf_pitch u) (sf_pixels u) (sf_damage u)
                (u64 (sf_presents u + 1)) copied (u64 (sf_presented_pixels u + copied)))), m)
  end.

(** ** The audit *)

(** The body of the loop over the pages. *)
Definition write_back_page (p : paging) (page : Z) : option surface_status :=
  match paging_translate page true p with
  | (PAGING_STATUS_OK, t) =>
      if negb (permissions t =? PAGING_WRITE) || negb (bool_decide (memory_type t = PAGING_MEMORY_WRITE_BACK)) then
        Some SURFACE_STATUS_VALIDATION_FAILURE
      else None
  | _ => Some SURFACE_STATUS_VALIDATION_FAILURE
  end.

Definition surface_verify (surface : option surface) (h : heap_state) (p : paging) : option surface_status :=
  match surface with
  | None => Some SURFACE_STATUS_NULL_ARGUMENT
  | Some u =>
      let d := rectangle (sf_damage u) in
      if negb (sf_active u) then Some SURFACE_STATUS_NOT_INITIALIZED
      else if (sf_pixels u =? 0) || (sf_width u =? 0) || (sf_height u =? 0)
           || (UINT32_MAX / SURFACE_BYTES_PER_PIXEL <? sf_width u)
           || negb (sf_pitch u =? u32 (sf_width u * SURFACE_BYTES_PER_PIXEL)) then Some SURFACE_STATUS_BAD_GEOMETRY
      else if pending (sf_damage u)
           && ((sr_width d =? 0) || (sr_height d =? 0) || (sf_width u <=? sr_x d) || (sf_height u <=? sr_y d)
               || (sf_width u - sr_x d <? sr_width d) || (sf_height u - sr_y d <? sr_height d)) then
        Some SURFACE_STATUS_VALIDATION_FAILURE
      else
        let address := sf_pixels u in
        let size := sf_pitch u * sf_height u in
        let top := u64 (hs_base_address h + committed_bytes h) in
        if negb (Heap.active h) || (address <? hs_base_address h) || (top <? address) || (top - address <? size) then
          Some SURFACE_STATUS_VALIDATION_FAILURE
        else
          let page := address .& not64 (PAGING_PAGE_SIZE - 1) in
          let stop := u64 (address + size) in
          page_loop (S (Z.to_nat ((stop - page) / PAGING_PAGE_SIZE + 1))) (fun page => page <? stop) (write_back_page p)
            SURFACE_STATUS_OK page
  end.

(** ** Rectangles *)

Definition covers r (x y : Z) : Prop := sr_x r <= x < sr_x r + sr_width r /\ sr_y r <= y < sr_y r + sr_height r.

#[global] Instance covers_dec r x y : Decision (covers r x y).
Proof. unfold covers. apply _. Defined.

(** A rectangle with pixels, inside a [w] by [h] picture. *)
Record rect_in (w h : Z) r : Prop := {
  ri_x : 0 <= sr_x r;
  ri_y : 0 <= sr_y r;
  ri_width : 0 < sr_width r;
  ri_height : 0 < sr_height r;
  ri_right : sr_x r + sr_width r <= w;
  ri_bottom : sr_y r + sr_height r <= h
}.

Definition rect_typed r : Prop :=
  fits 32 (sr_x r) /\ fits 32 (sr_y r) /\ fits 32 (sr_width r) /\ fits 32 (sr_height r).

(** What every drawing call relies on and keeps. *)
Record surface_ok u : Prop := {
  so_active : sf_active u = true;
  so_width : 0 < sf_width u < 2 ^ 32;
  so_height : 0 < sf_height u < 2 ^ 32;
  so_pitch : 4 * sf_width u <= sf_pitch u;
  so_damage : pending (sf_damage u) = true -> rect_in (sf_width u) (sf_height u) (rectangle (sf_damage u))
}.

Definition same_picture u u' : Prop :=
  sf_active u' = sf_active u /\ sf_width u' = sf_width u /\ sf_height u' = sf_height u /\ sf_pitch u' = sf_pitch u /\
  sf_pixels u' = sf_pixels u.

Lemma minimum_min a b : minimum a b = Z.min a b.
Proof. unfold minimum. destruct (Z.ltb_spec a b); lia. Qed.

Lemma u32_small x : 0 <= x < 2 ^ 32 -> u32 x = x.
Proof. apply wrap_small. Qed.

(** What is pending on a surface. *)
Definition damaged u (x y : Z) : Prop := pending (sf_damage u) = true /\ covers (rectangle (sf_damage u)) x y.

Lemma add_damage_picture r u : same_picture u (add_damage r u).
Proof. unfold add_damage. repeat case_match; done. Qed.

(** The union: the bounding rectangle of what was pending and [r], and no larger. *)
Lemma add_damage_spec r u :
  surface_ok u -> rect_in (sf_width u) (sf_height u) r ->
  exists d, sf_damage (add_damage r u) = Damage true d /\ rect_in (sf_width u) (sf_height u) d /\
    (forall x y, covers r x y \/ damaged u x y -> covers d x y) /\
    (forall e, (forall x y, covers r x y \/ damaged u x y -> covers e x y) -> forall x y, covers d x y -> covers e x y).
Proof.
  intros [_ Hw Hh _ Hd] Hr. pose proof Hr as [rx ry rw rh rr rb]. unfold add_damage.
  destruct (Z.eqb_spec (sr_width r) 0); [lia|]. destruct (Z.eqb_spec (sr_height r) 0); [lia|]. cbn [orb].
  destruct (pending (sf_damage u)) eqn:Ep; cbn [negb].
  - destruct (Hd eq_refl) as [ox oy ow oh o_r ob]. set (o := rectangle (sf_damage u)) in *.
    rewrite !minimum_min, !(u32_small (_ + _)) by lia.
    set (right := if sr_x o + sr_width o <? _ then _ else _). set (bottom := if sr_y o + sr_height o <? _ then _ else _).
    assert (Hrt : right = Z.max (sr_x o + sr_width o) (sr_x r + sr_width r)) by (unfold right; case_match; lia).
    assert (Hbt : bottom = Z.max (sr_y o + sr_height o) (sr_y r + sr_height r)) by (unfold bottom; case_match; lia).
    rewrite Hrt, Hbt, !u32_small by lia. eexists. split; [reflexivity|]. split; [split; cbn; lia|]. split.
    + intros x y [Hc|[_ Hc]]; unfold covers in *; cbn; try fold o in Hc; lia.
    + intros e He x y. pose proof (He (sr_x r) (sr_y r)) as E1.
      pose proof (He (sr_x r + sr_width r - 1) (sr_y r + sr_height r - 1)) as E2.
      pose proof (He (sr_x o) (sr_y o)) as E3. pose proof (He (sr_x o + sr_width o - 1) (sr_y o + sr_height o - 1)) as E4.
      unfold damaged, covers in *. fold o in E1, E2, E3, E4. rewrite Ep in *. cbn.
      specialize (E1 ltac:(left; lia)). specialize (E2 ltac:(left; lia)).
      specialize (E3 ltac:(right; split; [done|lia])). specialize (E4 ltac:(right; split; [done|lia])). lia.
  - exists r. split; [done|]. split; [done|]. split; [intros x y [Hc|[Hp _]]; [done|congruence]|]. auto.
Qed.

(** ** What a call paints *)

(** Where pixel [(x, y)] of a surface is. *)
Definition word u (x y : Z) : Z := cell (sf_pixels u) (sf_pitch u) x y.

(** [m'] is [m] with the pixels of [r] set to [f] and no other word touched. *)
Record paints u r (f : Z -> Z -> Z) m m' : Prop := {
  pa_inside : forall x y, covers r x y -> load32 (word u x y) m' = f x y;
  pa_outside : forall a, (forall x y, covers r x y -> a <> word u x y) -> load32 a m' = load32 a m
}.

Section Painting.
Context u (Hok : surface_ok u).

Lemma word_inj w x y x' y' : w <= sf_width u -> 0 <= x < w -> 0 <= x' < w -> word u x y = word u x' y' -> x = x' /\ y = y'.
Proof. intros Hw Hx Hx'. apply cell_inj with (w := w); [|done|done]. pose proof (so_pitch _ Hok). lia. Qed.

Lemma row_word r x y :
  rect_in (sf_width u) (sf_height u) r -> 0 <= x < sr_width r -> 0 <= y < sr_height r ->
  row_at u (u32 (sr_y r + y)) + 4 * u32 (sr_x r + x) = word u (sr_x r + x) (sr_y r + y).
Proof.
  intros [] Hx Hy. pose proof (so_width _ Hok). pose proof (so_height _ Hok). rewrite !u32_small by lia.
  unfold row_at, word, cell. lia.
Qed.

(** The order of the iterations of a loop upwards or downwards. *)
Definition order (up : bool) : Z -> Z -> Prop := if up then Z.lt else Z.gt.
Definition range (up : bool) (n : Z) : list Z := if up then seqZ 0 n else reverse (seqZ 0 n).

Lemma range_elem up n i : i ∈ range up n <-> 0 <= i < n.
Proof. unfold range. destruct up; rewrite ?elem_of_reverse, elem_of_seqZ; lia. Qed.

Lemma range_sorted up n : StronglySorted (order up) (range up n).
Proof.
  destruct up; [apply seqZ_sorted|]. cbn [order range]. pose proof (seqZ_sorted 0 n) as H. revert H.
  generalize (seqZ 0 n) as l. induction 1 as [|x l Hs IH Hf]; [constructor|]. rewrite reverse_cons.
  apply StronglySorted_app_2; [|exact IH|repeat constructor].
  intros a b Ha Hb. apply list_elem_of_singleton in Hb as ->. rewrite elem_of_reverse in Ha.
  rewrite Forall_forall in Hf. specialize (Hf a Ha). lia.
Qed.

(** Moves over a rectangle in an order that never reads what it wrote. *)
Lemma moves_paint r (src : Z -> Z -> Z) ups upx m :
  rect_in (sf_width u) (sf_height u) r ->
  (forall x y x' y', covers r x y -> covers r x' y' -> order ups y y' \/ y = y' /\ order upx x x' -> word u x y <> src x' y') ->
  paints u r (fun x y => load32 (src x y) m) m
    (moves ((fun p => (word u (sr_x r + p.2) (sr_y r + p.1), src (sr_x r + p.2) (sr_y r + p.1)))
             <$> product (range ups (sr_height r)) (range upx (sr_width r))) m).
Proof.
  intros Hr Hsrc. split.
  - intros x y [Hx Hy]. apply moves_hit.
    + apply (StronglySorted_fmap_in (fun p q : Z * Z => order ups p.1 q.1 \/ p.1 = q.1 /\ order upx p.2 q.2)).
      { apply product_sorted; apply range_sorted. }
      intros [y1 x1] [y2 x2] [Hy1 Hx1]%elem_of_product [Hy2 Hx2]%elem_of_product. rewrite range_elem in *. cbn [fst snd].
      intros Ho. split; cbn [fst snd].
      * destruct Hr. intros E. apply (word_inj (sf_width u)) in E as [Ex Ey]; [|lia|lia|lia].
        assert (x1 = x2) by lia. assert (y1 = y2) by lia. unfold order in Ho. subst. destruct ups, upx; lia.
      * apply Hsrc; [unfold covers; lia|unfold covers; lia|]. unfold order in *. destruct ups, upx; lia.
    + apply list_elem_of_fmap. exists (y - sr_y r, x - sr_x r). cbn [fst snd]. split.
      { f_equal; f_equal; lia. }
      apply elem_of_product. rewrite !range_elem. lia.
  - intros a Ha. apply moves_miss. intros d o ([y x] & [= -> _] & [Hy Hx]%elem_of_product)%list_elem_of_fmap E.
    rewrite range_elem in *. cbn [fst snd] in *. symmetry in E. apply Ha in E; [done|]. unfold covers. lia.
Qed.
End Painting.

(** What a drawing call may do: refuse or do nothing, but only when not [A], or paint a
    rectangle it records. *)
Inductive drawn u m (A : Prop) (P : surface_rect -> (Z -> Z -> Z) -> Prop) : drawing -> Prop :=
| drawn_refused st : st <> SURFACE_STATUS_OK -> ~ A -> drawn u m A P (st, Some u, m)
| drawn_nothing : ~ A -> drawn u m A P (SURFACE_STATUS_OK, Some u, m)
| drawn_paint r f m' :
    rect_in (sf_width u) (sf_height u) r -> P r f -> paints u r f m m' ->
    drawn u m A P (SURFACE_STATUS_OK, Some (add_damage r u), m').

(** A rectangle with pixels and an origin on the surface, whose far corner does not wrap. *)
Definition accepted u r : Prop :=
  0 < sr_width r /\ 0 < sr_height r /\ sr_x r < sf_width u /\ sr_y r < sf_height u /\
  sr_x r + sr_width r <= UINT32_MAX /\ sr_y r + sr_height r <= UINT32_MAX.

(** The part of [r] that is visible. *)
Definition clipped u r : surface_rect :=
  Rect (sr_x r) (sr_y r) (Z.min (sr_width r) (sf_width u - sr_x r)) (Z.min (sr_height r) (sf_height u - sr_y r)).

(** The pixels a copy of [source] reaches at [(dx, dy)]. *)
Definition copied_rect u source (dx dy : Z) : surface_rect :=
  Rect dx dy (Z.min (sr_width (clipped u source)) (Z.min (sr_width source) (sf_width u - dx)))
    (Z.min (sr_height (clipped u source)) (Z.min (sr_height source) (sf_height u - dy))).

Section Calls.
Context u (Hok : surface_ok u).

Lemma clip_cases r st c :
  rect_typed r -> clip_rectangle u r = (st, c) ->
  st <> SURFACE_STATUS_OK /\ ~ accepted u r \/ st = SURFACE_STATUS_OK /\
    (sr_width c = 0 /\ ~ accepted u r /\ (sr_width r = 0 \/ sr_height r = 0) \/ c = clipped u r /\ rect_in (sf_width u) (sf_height u) c).
Proof.
  intros (Hx & Hy & Hrw & Hrh). pose proof (so_width _ Hok). pose proof (so_height _ Hok). unfold fits, accepted in *. unfold clip_rectangle.
  destruct (_ || _) eqn:E1; [intros [= <- <-]; cbn; right; split; [done|]; left; lia|].
  destruct ((sf_width u <=? _) || _) eqn:E2; [intros [= <- <-]; left; split; [done|lia]|].
  match goal with |- context [if ?b then _ else _] => destruct b eqn:E3; [intros [= <- <-]; left; split; [done|lia]|] end.
  intros [= <- <-]. right. split; [done|]. right. rewrite !minimum_min. split; [done|]. split; cbn; lia.
Qed.

Lemma fill_rect_spec r px m :
  rect_typed r -> drawn u m (accepted u r) (fun c f => c = clipped u r /\ f = fun _ _ => px) (surface_fill_rect (Some u) r px m).
Proof.
  intros Ht. unfold surface_fill_rect. rewrite (so_active _ Hok). cbn [negb].
  destruct (clip_rectangle u r) as [st c] eqn:E.
  destruct (clip_cases r st c Ht E) as [[Hst Hna]|[-> [(Hz & Hna & _)|[Hc Hr]]]].
  - rewrite bool_decide_false by done. by apply drawn_refused.
  - rewrite Hz, Z.eqb_refl, orb_true_r. by apply drawn_nothing.
  - rewrite bool_decide_true by done. pose proof Hr as [_ _ W H _ _].
    destruct (Z.eqb_spec (sr_width c) 0); [lia|]. destruct (Z.eqb_spec (sr_height c) 0); [lia|]. cbn [negb orb]. cbv zeta.
    apply drawn_paint with (f := fun _ _ => px); [done|done|].
    rewrite (foldl_product (fun m y x => store32 (row_at u (u32 (sr_y c + y)) + 4 * u32 (sr_x c + x)) px m)).
    rewrite (foldl_ext_in _ (fun m p => store32 (word u (sr_x c + p.2) (sr_y c + p.1)) px m)).
    2:{ intros b [y x] [Hy Hx]%elem_of_product. rewrite elem_of_seqZ in Hy, Hx. cbn [fst snd]. by rewrite row_word by (done || lia). }
    rewrite <- (foldl_fmap (fun m '(a, v) => store32 a v m) m _ (fun p => (word u (sr_x c + p.2) (sr_y c + p.1), px))).
    fold (stores ((fun p => (word u (sr_x c + p.2) (sr_y c + p.1), px)) <$> product (seqZ 0 (sr_height c)) (seqZ 0 (sr_width c))) m).
    split.
    + intros x y [Hx Hy]. apply stores_hit; [|by intros v (p & [= _ ->] & _)%list_elem_of_fmap].
      apply list_elem_of_fmap. exists (y - sr_y c, x - sr_x c). cbn [fst snd]. split; [f_equal; f_equal; lia|].
      apply elem_of_product. rewrite !elem_of_seqZ. lia.
    + intros a Ha. apply stores_miss. intros d v ([y x] & [= -> _] & [Hy Hx]%elem_of_product)%list_elem_of_fmap E'.
      rewrite elem_of_seqZ in Hy, Hx. cbn [fst snd] in *. symmetry in E'. apply Ha in E'; [done|]. unfold covers. lia.
Qed.

(** The words [source] keeps its pixels in. *)
Definition source_word (source pitch dx dy x y : Z) : Z := source + (y - dy) * pitch + 4 * (x - dx).

Lemma blit_moves source c pitch m :
  rect_in (sf_width u) (sf_height u) c ->
  foldl (fun m y =>
    let destination := row_at u (u32 (sr_y c + y)) in
    let source_row := source + y * pitch in
    foldl (fun m x => move32 (destination + 4 * u32 (sr_x c + x)) (source_row + 4 * x) m) m (seqZ 0 (sr_width c)))
    m (seqZ 0 (sr_height c)) =
  moves ((fun p => (word u (sr_x c + p.2) (sr_y c + p.1),
                    source_word source pitch (sr_x c) (sr_y c) (sr_x c + p.2) (sr_y c + p.1)))
          <$> product (range true (sr_height c)) (range true (sr_width c))) m.
Proof.
  intros Hr. cbv zeta.
  rewrite (foldl_product (fun m y x => move32 (row_at u (u32 (sr_y c + y)) + 4 * u32 (sr_x c + x)) (source + y * pitch + 4 * x) m)).
  unfold moves. rewrite foldl_fmap. apply foldl_ext_in. intros b [y x] [Hy Hx]%elem_of_product. rewrite range_elem in Hy, Hx.
  cbn [fst snd]. rewrite row_word by (done || lia). f_equal. unfold source_word. lia.
Qed.

(** Whatever the source is, the call paints the clipped rectangle. *)
Lemma blit_spec dx dy source sw sh sp m :
  rect_typed (Rect dx dy sw sh) ->
  drawn u m (accepted u (Rect dx dy sw sh) /\ sw <= UINT32_MAX / 4 /\ 4 * sw <= sp /\ sp mod 4 = 0)
    (fun c f => c = clipped u (Rect dx dy sw sh) /\
      ((forall x y x' y', covers c x y -> covers c x' y' -> word u x y <> source_word source sp dx dy x' y') ->
       forall x y, covers c x y -> f x y = load32 (source_word source sp dx dy x y) m))
    (surface_blit (Some u) dx dy (Some source) sw sh sp m).
Proof.
  intros Ht. unfold surface_blit. rewrite (so_active _ Hok). cbn [negb].
  destruct (_ || _) eqn:Ez; [apply drawn_nothing; unfold accepted; cbn; lia|].
  change SURFACE_BYTES_PER_PIXEL with 4. pose proof Ht as (_ & _ & Htw & _). unfold fits in Htw. cbn in Htw.
  destruct (_ || _ || _) eqn:Eb.
  { apply drawn_refused; [done|]. intros (_ & Hw & Hp & Hm). rewrite Hm in Eb.
    change (UINT32_MAX / 4) with 1073741823 in *. rewrite u32_small in Eb; lia. }
  destruct (clip_rectangle u (Rect dx dy sw sh)) as [st c] eqn:E.
  destruct (clip_cases _ st c Ht E) as [[Hst Hna]|[-> [(_ & _ & Hz)|[Hc Hr]]]].
  - destruct st; [done|apply drawn_refused; [done|tauto]..].
  - cbn in Hz. lia.
  - cbv zeta. rewrite blit_moves by done. assert (Ex : sr_x c = dx /\ sr_y c = dy) by by rewrite Hc. destruct Ex as [<- <-].
    set (l := fmap _ _). apply (drawn_paint _ _ _ _ c (fun x y => load32 (word u x y) (moves l m))); [done| |].
    + split; [done|]. intros Hsep x y Hxy. apply (pa_inside u c _ m _ (moves_paint u Hok c _ true true m Hr (fun x y x' y' A B _ => Hsep x y x' y' A B))).
      done.
    + split; [done|]. intros a Ha. apply moves_miss.
      intros d o ([y x] & [= -> _] & [Hy Hx]%elem_of_product)%list_elem_of_fmap E'. rewrite range_elem in *.
      cbn [fst snd] in *. symmetry in E'. apply Ha in E'; [done|]. unfold covers. lia.
Qed.

Lemma copy_moves source dx dy w h ups upx m :
  0 <= sr_x source -> 0 <= sr_y source -> 0 <= dx -> 0 <= dy ->
  sr_x source + w <= sf_width u -> sr_y source + h <= sf_height u -> dx + w <= sf_width u -> dy + h <= sf_height u ->
  foldl (fun m y => copy_row u source dx dy y (range upx w) m) m (range ups h) =
  moves ((fun p => (word u (dx + p.2) (dy + p.1), word u (dx + p.2 - dx + sr_x source) (dy + p.1 - dy + sr_y source)))
          <$> product (range ups h) (range upx w)) m.
Proof.
  intros. unfold copy_row. cbv zeta.
  rewrite (foldl_product (fun m y x =>
    move32 (row_at u (u32 (dy + y)) + 4 * u32 (dx + x)) (row_at u (u32 (sr_y source + y)) + 4 * u32 (sr_x source + x)) m)).
  unfold moves. rewrite foldl_fmap. apply foldl_ext_in. intros b [y x] [Hy Hx]%elem_of_product. rewrite range_elem in Hy, Hx.
  pose proof (so_width _ Hok). pose proof (so_height _ Hok). cbn [fst snd]. rewrite !u32_small by lia.
  unfold row_at, word, cell. f_equal; lia.
Qed.

(** The two decisions of the copy: bottom up when the destination is below, and in one
    row from the right when it is to the right. *)
Definition rows_up source (dy : Z) : bool := negb (sr_y source <? dy).
Definition columns_up source (dx dy : Z) : bool := negb ((dy =? sr_y source) && (sr_x source <? dx)).

(** They never read a pixel already overwritten. *)
Lemma copy_order_safe source dx dy c x y x' y' :
  sr_x c = dx -> sr_y c = dy -> 0 <= dx -> 0 <= sr_x source -> dx + sr_width c <= sf_width u ->
  sr_x source + sr_width c <= sf_width u -> covers c x y -> covers c x' y' ->
  order (rows_up source dy) y y' \/ y = y' /\ order (columns_up source dx dy) x x' ->
  word u x y <> word u (x' - dx + sr_x source) (y' - dy + sr_y source).
Proof.
  intros Ex Ey Hdx Hsx Hw Hs [Cx Cy] [Cx' Cy'] Ho E'. rewrite Ex, Ey in *.
  apply (word_inj _ Hok (sf_width u)) in E'; [|lia|lia|lia].
  revert Ho. unfold order, rows_up, columns_up. destruct (Z.ltb_spec (sr_y source) dy); cbn [negb].
  - destruct (Z.eqb_spec dy (sr_y source)); cbn [andb negb]; lia.
  - destruct (Z.eqb_spec dy (sr_y source)); cbn [andb]; [destruct (Z.ltb_spec (sr_x source) dx)|]; cbn [negb]; lia.
Qed.

Lemma copy_rect_spec source dx dy m :
  rect_typed source -> fits 32 dx -> fits 32 dy ->
  drawn u m (accepted u source /\ accepted u (Rect dx dy (sr_width source) (sr_height source)))
    (fun c f => c = copied_rect u source dx dy /\
      f = fun x y => load32 (word u (x - dx + sr_x source) (y - dy + sr_y source)) m)
    (surface_copy_rect (Some u) source dx dy m).
Proof.
  intros Ht Hdx Hdy. unfold surface_copy_rect. rewrite (so_active _ Hok). cbn [negb].
  destruct (clip_rectangle u source) as [st sc] eqn:E.
  destruct (clip_cases _ st sc Ht E) as [[Hst Hna]|[-> [(Hz & Hna & _)|[Hc Hr]]]].
  1: rewrite bool_decide_false by done; apply drawn_refused; tauto.
  1: rewrite Hz, Z.eqb_refl, orb_true_r; apply drawn_nothing; tauto.
  rewrite bool_decide_true by done. pose proof Hr as [Hsx Hsy Hsw Hsh Hsr Hsb].
  destruct (Z.eqb_spec (sr_width sc) 0); [lia|]. destruct (Z.eqb_spec (sr_height sc) 0); [lia|]. cbn [negb orb].
  destruct (clip_rectangle u (Rect dx dy (sr_width source) (sr_height source))) as [st dc] eqn:Ed.
  assert (Htd : rect_typed (Rect dx dy (sr_width source) (sr_height source))) by (destruct Ht as (? & ? & ? & ?); by split_and!).
  destruct (clip_cases _ st dc Htd Ed) as [[Hst Hna]|[-> [(_ & _ & Hz)|[Hdc Hrd]]]].
  { destruct st; [done|apply drawn_refused; [done|tauto]..]. }
  { cbn in Hz. rewrite Hc in Hsw, Hsh. cbn in Hsw, Hsh. lia. }
  cbv zeta. rewrite !minimum_min.
  assert (Ecr : Rect (sr_x dc) (sr_y dc) (Z.min (sr_width sc) (sr_width dc)) (Z.min (sr_height sc) (sr_height dc))
    = copied_rect u source dx dy) by by rewrite Hdc, Hc.
  rewrite Ecr. destruct Hrd as [Hx Hy Hw Hh Hrt Hb].
  set (c := copied_rect u source dx dy) in *.
  assert (Hcw : sr_width c = Z.min (sr_width sc) (sr_width dc)) by by rewrite <- Ecr.
  assert (Hch : sr_height c = Z.min (sr_height sc) (sr_height dc)) by by rewrite <- Ecr.
  assert (Esc : sr_x sc = sr_x source /\ sr_y sc = sr_y source) by by rewrite Hc. destruct Esc as [Esx Esy].
  assert (Edc : sr_x dc = dx /\ sr_y dc = dy) by by rewrite Hdc. destruct Edc as [Edx Edy].
  assert (Hrc : rect_in (sf_width u) (sf_height u) c) by (rewrite <- Ecr; split; cbn; lia).
  rewrite <- Hcw, <- Hch. unfold fits in *.
  apply drawn_paint with (f := fun x y => load32 (word u (x - dx + sr_x source) (y - dy + sr_y source)) m); [done|done|].
  match goal with |- paints _ _ _ _ ?b => replace b with
    (foldl (fun m y => copy_row u source dx dy y (range (columns_up source dx dy) (sr_width c)) m) m
      (range (rows_up source dy) (sr_height c))) end.
  2:{ unfold rows_up, columns_up. destruct (Z.ltb_spec (sr_y source) dy); cbn [negb range].
      - destruct (Z.eqb_spec dy (sr_y source)); [lia|done].
      - by destruct ((dy =? sr_y source) && (sr_x source <? dx)). }
  rewrite copy_moves by lia. apply (moves_paint u Hok c (fun x y => word u (x - dx + sr_x source) (y - dy + sr_y source))); [done|].
  intros x y x' y' Cxy Cxy' Ho. apply (copy_order_safe source dx dy c); done || lia.
Qed.

Lemma pixel_spec x y px m :
  0 <= x -> 0 <= y ->
  drawn u m (x < sf_width u /\ y < sf_height u) (fun c f => c = Rect x y 1 1 /\ f = fun _ _ => px) (surface_pixel (Some u) x y px m).
Proof.
  intros Hx Hy. unfold surface_pixel. rewrite (so_active _ Hok). cbn [negb].
  destruct (_ || _) eqn:E; [apply drawn_refused; [done|lia]|].
  apply drawn_paint with (f := fun _ _ => px); [split; cbn; lia|done|].
  replace (row_at u y + 4 * x) with (word u x y) by (unfold row_at, word, cell; lia). split.
  - intros x' y' [Hx' Hy']. cbn in Hx', Hy'. assert (x' = x) as -> by lia. assert (y' = y) as -> by lia. by rewrite load_store, decide_True.
  - intros a Ha. rewrite load_store, decide_False; [done|]. apply Ha. split; cbn; lia.
Qed.
End Calls.

(** ** Presenting *)

Lemma foldl_counted (g : pixel_store -> Z * Z -> pixel_store) l m c :
  foldl (fun mc p => (g mc.1 p, u64 (mc.2 + 1))) (m, c) l =
    (foldl g m l, if decide (l = []) then c else u64 (c + Z.of_nat (length l))).
Proof.
  revert m c. induction l as [|p l IH]; intros m c; [done|]. cbn [foldl]. rewrite IH. f_equal. rewrite (decide_False (P := p :: l = [])) by done.
  destruct (decide (l = [])) as [-> |]; [done|]. cbn [length]. unfold wrap. rewrite Zplus_mod_idemp_l.
  cbn [fst snd]. by replace (c + 1 + Z.of_nat (length l)) with (c + Z.of_nat (S (length l))) by lia.
Qed.

Lemma length_product ys xs : length (product ys xs) = (length ys * length xs)%nat.
Proof.
  unfold product. induction ys as [|y ys IH]; [done|]. cbn [flat_map length]. rewrite length_app, length_fmap. lia.
Qed.

(** The surface's memory and the screen's have no byte in common. *)
Definition separate u (s : framebuffer_state) : Prop :=
  sf_pixels u + sf_pitch u * sf_height u <= fs_address s \/ fs_address s + fs_size s <= sf_pixels u.

(** The copy of the damage, as one sequence of moves. *)
Definition present_moves u (s : framebuffer_state) r : list (Z * Z) :=
  (fun p => (pixel_word s (sr_x r + p.2) (sr_y r + p.1), word u (sr_x r + p.2) (sr_y r + p.1)))
    <$> product (seqZ 0 (sr_height r)) (seqZ 0 (sr_width r)).

Section Present.
Context u (s : framebuffer_state) (Hok : surface_ok u) (Hs : framebuffer_ok s).
Context (Hw : fs_width s = sf_width u) (Hh : fs_height s = sf_height u).

Lemma present_body r m :
  rect_in (sf_width u) (sf_height u) r ->
  foldl (fun mc y =>
    let source := row_at u (u32 (sr_y r + y)) in
    let destination := u64 (fs_address s + u32 (sr_y r + y) * fs_pitch s) + 4 * sr_x r in
    foldl (fun mc x => (move32 (destination + 4 * x) (source + 4 * u32 (sr_x r + x)) mc.1, u64 (mc.2 + 1)))
      mc (seqZ 0 (sr_width r)))
    (m, 0) (seqZ 0 (sr_height r)) =
  (moves (present_moves u s r) m, sr_width r * sr_height r).
Proof.
  intros Hr. pose proof Hr as [Hx Hy Hrw Hrh Hrr Hrb]. cbv zeta.
  rewrite (foldl_product (fun mc y x =>
    (move32 (u64 (fs_address s + u32 (sr_y r + y) * fs_pitch s) + 4 * sr_x r + 4 * x)
       (row_at u (u32 (sr_y r + y)) + 4 * u32 (sr_x r + x)) mc.1, u64 (mc.2 + 1)))).
  rewrite (foldl_counted (fun m p => move32 (u64 (fs_address s + u32 (sr_y r + p.1) * fs_pitch s) + 4 * sr_x r + 4 * p.2)
       (row_at u (u32 (sr_y r + p.1)) + 4 * u32 (sr_x r + p.2)) m)).
  pose proof (so_width _ Hok) as Bw. pose proof (so_height _ Hok) as Bh. f_equal.
  - unfold moves, present_moves. rewrite foldl_fmap. apply foldl_ext_in. intros b [y x] [Iy Ix]%elem_of_product.
    rewrite elem_of_seqZ in Iy, Ix. cbn [fst snd]. rewrite row_word by (done || lia). f_equal.
    pose proof (row_cell s Hs (sr_x r + x) (sr_y r + y) ltac:(lia) ltac:(lia)) as Hc.
    unfold pixel_at, pixel_offset in Hc. rewrite Z.mul_0_l, Z.add_0_r in Hc. rewrite (u32_small (sr_y r + y)) by lia. lia.
  - destruct (decide _) as [El|_].
    + apply (f_equal length) in El. rewrite length_product, !length_seqZ in El. cbn [length] in El. nia.
    + rewrite length_product, !length_seqZ, Nat2Z.inj_mul, !Z2Nat.id by lia. rewrite wrap_small; [lia|].
      unfold fits. change (2 ^ 64) with (2 ^ 32 * 2 ^ 32). change (2 ^ 32) with 4294967296 in *. nia.
Qed.

Context (Hsep : separate u s).

Definition visible (x y : Z) : Prop := 0 <= x < sf_width u /\ 0 <= y < sf_height u.

Lemma words_separate x y x' y' : visible x y -> visible x' y' -> pixel_word s x y <> word u x' y'.
Proof.
  intros [Hx Hy] [Hx' Hy'] E. destruct Hs as [_ Ha He Hp Hz].
  pose proof (cell_bounds (sf_pixels u) (sf_pitch u) (sf_width u) (sf_height u) x' y' (so_pitch _ Hok) Hx' Hy') as B1.
  pose proof (cell_bounds (fs_address s) (fs_pitch s) (fs_width s) (fs_height s) x y Hp ltac:(lia) ltac:(lia)) as B2.
  unfold pixel_word, word in E. unfold separate in Hsep. rewrite E in B2. lia.
Qed.

Lemma damaged_visible x y : damaged u x y -> visible x y.
Proof. intros [Hp Hc]. destruct (so_damage _ Hok Hp). unfold covers, visible in *. lia. Qed.

(** Present copies the damage, touches no other word and forgets the damage. *)
Lemma present_spec m :
  exists u' m', surface_present (Some u) s m = (SURFACE_STATUS_OK, Some u', m') /\ same_picture u u' /\
    pending (sf_damage u') = false /\
    sf_last_present_pixels u' =
      (if pending (sf_damage u) then sr_width (rectangle (sf_damage u)) * sr_height (rectangle (sf_damage u)) else 0) /\
    (forall x y, damaged u x y -> load32 (pixel_word s x y) m' = load32 (word u x y) m) /\
    (forall a, (forall x y, damaged u x y -> a <> pixel_word s x y) -> load32 a m' = load32 a m).
Proof.
  unfold surface_present, framebuffer_is_active, framebuffer_get_state.
  rewrite (so_active _ Hok), (fo_active _ Hs), Hw, Hh, !Z.eqb_refl. cbn [negb orb].
  destruct (pending (sf_damage u)) eqn:Ep; cbn [negb].
  2:{ do 2 eexists. split; [reflexivity|]. split; [by split; [symmetry; apply Hok|]|]. do 2 (split; [done|]). split; [|done].
      intros x y [Hd _]. congruence. }
  pose proof (so_damage _ Hok Ep) as Hr. pose proof Hr as [rx ry _ _ rr rb]. rewrite present_body by done.
  set (r := rectangle (sf_damage u)) in *. do 2 eexists. split; [reflexivity|]. split; [by split; [symmetry; apply Hok|]|]. do 2 (split; [done|]). split.
  - intros x y Hd. pose proof (damaged_visible x y Hd) as Hv. destruct Hd as [_ [Hx Hy]]. fold r in Hx, Hy. apply moves_hit.
    + apply (StronglySorted_fmap_in (fun p q : Z * Z => p.1 < q.1 \/ p.1 = q.1 /\ p.2 < q.2)).
      { apply product_sorted; apply seqZ_sorted. }
      intros [y1 x1] [y2 x2] [Hy1 Hx1]%elem_of_product [Hy2 Hx2]%elem_of_product. rewrite elem_of_seqZ in *. cbn [fst snd].
      intros Ho. split; cbn [fst snd]; [intros E|apply words_separate; unfold visible; lia].
      apply (pixel_inj s Hs) in E; lia.
    + apply list_elem_of_fmap. exists (y - sr_y r, x - sr_x r). cbn [fst snd]. split; [f_equal; f_equal; lia|].
      apply elem_of_product. rewrite !elem_of_seqZ. lia.
  - intros a Ha. apply moves_miss. intros d o ([y x] & [= -> _] & [Hy Hx]%elem_of_product)%list_elem_of_fmap E.
    rewrite elem_of_seqZ in *. cbn [fst snd] in *. symmetry in E. apply Ha in E; [done|]. split; [done|]. unfold covers. fold r. lia.
Qed.
End Present.

(** ** A surface and its screen *)

(** The calls that draw, and the one that shows. *)
Inductive draw_call :=
| Fill (r : surface_rect) (pixel : Z)
| Blit (x y source width height pitch : Z)
| Copy (source : surface_rect) (x y : Z)
| Pixel (x y pixel : Z)
| Present.

Definition call_typed (c : draw_call) : Prop :=
  match c with
  | Fill r _ => rect_typed r
  | Blit x y _ w h _ => rect_typed (Rect x y w h)
  | Copy r x y => rect_typed r /\ fits 32 x /\ fits 32 y
  | Pixel x y _ => fits 32 x /\ fits 32 y
  | Present => True
  end.

Definition perform (s : framebuffer_state) (c : draw_call) (o : option surface) m : drawing :=
  match c with
  | Fill r pixel => surface_fill_rect o r pixel m
  | Blit x y source w h pitch => surface_blit o x y (Some source) w h pitch m
  | Copy r x y => surface_copy_rect o r x y m
  | Pixel x y pixel => surface_pixel o x y pixel m
  | Present => surface_present o s m
  end.

(** The surface and the store after a sequence of calls. *)
Definition perform_all (s : framebuffer_state) (cs : list draw_call) (om : option surface * pixel_store) :
    option surface * pixel_store :=
  foldl (fun om c => let '(_, o, m) := perform s c om.1 om.2 in (o, m)) om cs.

(** Outside the pending damage the screen shows the surface. *)
Record display (s : framebuffer_state) u m : Prop := {
  di_ok : surface_ok u;
  di_width : fs_width s = sf_width u;
  di_height : fs_height s = sf_height u;
  di_separate : separate u s;
  di_agrees : forall x y, visible u x y -> ~ damaged u x y -> load32 (pixel_word s x y) m = load32 (word u x y) m
}.

Lemma same_picture_ok u u' :
  same_picture u u' -> surface_ok u -> (pending (sf_damage u') = true -> rect_in (sf_width u) (sf_height u) (rectangle (sf_damage u'))) ->
  surface_ok u'.
Proof. intros (Ea & Ew & Eh & Ep & Ex) [Ha Hw Hh Hp _] Hd. split; rewrite ?Ea, ?Ew, ?Eh, ?Ep; auto. Qed.

Lemma same_picture_word u u' x y : same_picture u u' -> word u' x y = word u x y.
Proof. intros (_ & _ & _ & Ep & Ex). unfold word. by rewrite Ep, Ex. Qed.

Section Display.
Context (s : framebuffer_state) (Hs : framebuffer_ok s).

(** A drawing call keeps the screen right outside the damage. *)
Lemma drawn_display u m A P d :
  display s u m -> drawn u m A P d -> exists u' m', d = (d.1.1, Some u', m') /\ same_picture u u' /\ display s u' m'.
Proof.
  intros Hd [st Hst _|_|r f m' Hr _ Hm]; [by exists u, m..|]. destruct Hd as [Hok Hw Hh Hsep Hag].
  destruct (add_damage_spec r u Hok Hr) as (dr & Ed & Hrd & Hcov & _). pose proof (add_damage_picture r u) as Hsame.
  exists (add_damage r u), m'. split; [done|]. split; [done|]. pose proof Hsame as (_ & Ew & Eh & Ep & Ex). split.
  - apply (same_picture_ok u); [done|done|]. by rewrite Ed.
  - congruence.
  - congruence.
  - unfold separate in *. by rewrite Ep, Eh, Ex.
  - intros x y Hv Hnd. unfold visible in Hv. rewrite Ew, Eh in Hv. rewrite (same_picture_word u) by done.
    assert (Hno : ~ covers r x y /\ ~ damaged u x y).
    { split; intros Hc; apply Hnd; unfold damaged; rewrite Ed; (split; [done|]); apply Hcov; auto. }
    destruct Hno as [Hnr Hnu]. destruct Hr as [rx ry _ _ rr rb]. rewrite !(pa_outside _ _ _ _ _ Hm).
    + by apply Hag.
    + intros x' y' Hc E. unfold covers in *. apply (word_inj u Hok (sf_width u)) in E; [|lia|lia|lia]. lia.
    + intros x' y' Hc. apply (words_separate u s Hok Hs Hw Hh Hsep); unfold covers, visible in *; lia.
Qed.

(** Present makes the screen right everywhere. *)
Lemma present_display u m :
  display s u m ->
  exists u' m', perform s Present (Some u) m = (SURFACE_STATUS_OK, Some u', m') /\ same_picture u u' /\
    display s u' m' /\ pending (sf_damage u') = false /\
    (forall x y, visible u x y -> load32 (word u x y) m' = load32 (word u x y) m).
Proof.
  intros [Hok Hw Hh Hsep Hag]. destruct (present_spec u s Hok Hs Hw Hh Hsep m) as (u' & m' & E & Hsame & Hp & _ & Hin & Hout).
  exists u', m'. split; [done|]. split; [done|]. pose proof Hsame as (_ & Ew & Eh & Ep & Ex).
  assert (Hkeep : forall x y, visible u x y -> load32 (word u x y) m' = load32 (word u x y) m).
  { intros x y Hv. apply Hout. intros x' y' Hd E'. symmetry in E'.
    by apply (words_separate u s Hok Hs Hw Hh Hsep) in E'; [|apply damaged_visible|]. }
  split; [|done]. split; [by apply (same_picture_ok u); [done|done|congruence]|congruence..| |].
  - unfold separate in *. by rewrite Ep, Eh, Ex.
  - intros x y Hv _. unfold visible in Hv. rewrite Ew, Eh in Hv. rewrite (same_picture_word u), Hkeep by done.
    destruct (decide (damaged u x y)) as [Hd|Hd]; [by apply Hin|]. rewrite Hout by (intros x' y' Hd' E';
      apply (pixel_inj s Hs) in E' as [-> ->]; [done|rewrite Hw; apply Hv|rewrite Hw; by apply (damaged_visible u Hok x' y')]).
    by apply Hag.
Qed.

Lemma perform_display c u m :
  call_typed c -> display s u m ->
  exists st u' m', perform s c (Some u) m = (st, Some u', m') /\ same_picture u u' /\ display s u' m'.
Proof.
  intros Hc Hd. pose proof (di_ok _ _ _ Hd) as Hok. destruct c as [r px|x y src w h sp|src x y|x y px|]; cbn in Hc.
  1: pose proof (drawn_display u m _ _ _ Hd (fill_rect_spec u Hok r px m Hc)) as (u' & m' & E & H).
  2: pose proof (drawn_display u m _ _ _ Hd (blit_spec u Hok x y src w h sp m Hc)) as (u' & m' & E & H).
  3: destruct Hc as (H1 & H2 & H3); pose proof (drawn_display u m _ _ _ Hd (copy_rect_spec u Hok src x y m H1 H2 H3)) as (u' & m' & E & H).
  4: destruct Hc as [H1 H2]; pose proof (drawn_display u m _ _ _ Hd (pixel_spec u Hok x y px m (proj1 H1) (proj1 H2))) as (u' & m' & E & H).
  5: destruct (present_display u m Hd) as (u' & m' & E & H1 & H2 & _); by exists SURFACE_STATUS_OK, u', m'.
  all: cbn [perform]; rewrite E; by do 3 eexists.
Qed.

Lemma perform_all_display cs u m :
  Forall call_typed cs -> display s u m ->
  exists u' m', perform_all s cs (Some u, m) = (Some u', m') /\ same_picture u u' /\ display s u' m'.
Proof.
  intros Hc. revert u m. induction Hc as [|c cs Hc _ IH]; intros u m Hd; [by exists u, m|].
  destruct (perform_display c u m Hc Hd) as (st & u1 & m1 & E & Hs1 & Hd1). destruct (IH u1 m1 Hd1) as (u2 & m2 & E2 & Hs2 & Hd2).
  exists u2, m2. unfold perform_all in *. cbn [foldl fst snd]. rewrite E. split; [done|]. split; [|done].
  destruct Hs1 as (? & ? & ? & ? & ?), Hs2 as (? & ? & ? & ? & ?). unfold same_picture. split_and!; congruence.
Qed.

(** A surface that was never presented is shown right once all of it is damaged. *)
Lemma cleared_display u px m :
  surface_ok u -> pending (sf_damage u) = false -> fs_width s = sf_width u -> fs_height s = sf_height u -> separate u s ->
  exists u' m', perform s (Fill (Rect 0 0 (sf_width u) (sf_height u)) px) (Some u) m = (SURFACE_STATUS_OK, Some u', m') /\
    same_picture u u' /\ display s u' m'.
Proof.
  intros Hok Hp Hw Hh Hsep. cbn [perform]. pose proof (so_width _ Hok) as Bw. pose proof (so_height _ Hok) as Bh.
  assert (Ht : rect_typed (Rect 0 0 (sf_width u) (sf_height u))) by (unfold rect_typed, fits; cbn; lia).
  assert (Ha : accepted u (Rect 0 0 (sf_width u) (sf_height u))) by (unfold accepted, UINT32_MAX; cbn; lia).
  destruct (fill_rect_spec u Hok _ px m Ht) as [st _ Hna|Hna|r f m' Hr [-> ->] Hm]; [done..|].
  assert (Ec : clipped u (Rect 0 0 (sf_width u) (sf_height u)) = Rect 0 0 (sf_width u) (sf_height u)).
  { unfold clipped. cbn. by rewrite !Z.sub_0_r, !Z.min_id. }
  rewrite Ec in *. exists (add_damage (Rect 0 0 (sf_width u) (sf_height u)) u), m'. split; [done|].
  pose proof (add_damage_picture (Rect 0 0 (sf_width u) (sf_height u)) u) as Hsame. split; [done|].
  destruct (add_damage_spec _ u Hok Hr) as (d & Ed & Hrd & Hcov & _). pose proof Hsame as (_ & Ew & Eh & Ep & Ex). split.
  - apply (same_picture_ok u); [done|done|]. by rewrite Ed.
  - congruence.
  - congruence.
  - unfold separate in *. by rewrite Ep, Eh, Ex.
  - intros x y Hv Hnd. destruct Hnd. unfold damaged. rewrite Ed. split; [done|]. apply Hcov. left.
    unfold visible in Hv. rewrite Ew, Eh in Hv. unfold covers. cbn. lia.
Qed.
End Display.

(** ** The claims of the header *)

(** C28: a copy inside one surface behaves like [memmove]: whatever the overlap, every
    destination pixel gets the value its source pixel had before the call, clipped to
    what both rectangles show, and no other word changes. *)
Theorem surface_copy_rect_memmove u source dx dy m :
  surface_ok u -> rect_typed source -> fits 32 dx -> fits 32 dy ->
  accepted u source -> accepted u (Rect dx dy (sr_width source) (sr_height source)) ->
  exists m', surface_copy_rect (Some u) source dx dy m = (SURFACE_STATUS_OK, Some (add_damage (copied_rect u source dx dy) u), m') /\
    paints u (copied_rect u source dx dy) (fun x y => load32 (word u (x - dx + sr_x source) (y - dy + sr_y source)) m) m m'.
Proof.
  intros Hok Ht Hdx Hdy Ha Ha'. destruct (copy_rect_spec u Hok source dx dy m Ht Hdx Hdy) as [st _ Hna|Hna|r f m' Hr [-> ->] Hm].
  1, 2: by destruct Hna. by exists m'.
Qed.

(** A refused call leaves the surface and every pixel as they were. *)
Lemma present_refused s o m st o' m' : surface_present o s m = (st, o', m') -> st <> SURFACE_STATUS_OK -> o' = o /\ m' = m.
Proof.
  unfold surface_present. intros E Hst. destruct o as [u|]; [|by simplify_eq]. revert E. cbv zeta.
  destruct (negb (sf_active u)); [by intros [= _ <- <-]|]. destruct (negb (framebuffer_is_active s)); [by intros [= _ <- <-]|].
  match goal with |- context [if ?b then _ else _] => destruct b; [by intros [= _ <- <-]|] end.
  destruct (negb _); [by intros [= <- _ _]|]. destruct (foldl _ _ _) as [m1 copied]. by intros [= <- _ _].
Qed.

(** Every drawing call on a surface, and presenting it, either succeeds or changes
    neither the surface nor a pixel. *)
Theorem surface_refusals_inert s c u m st o m' :
  surface_ok u -> call_typed c -> perform s c (Some u) m = (st, o, m') -> st <> SURFACE_STATUS_OK -> o = Some u /\ m' = m.
Proof.
  intros Hok Hc. assert (Hgen : forall A P d, drawn u m A P d -> d = (st, o, m') -> st <> SURFACE_STATUS_OK -> o = Some u /\ m' = m).
  { intros A P d Hd E Hst. destruct Hd; by simplify_eq. }
  destruct c as [r px|x y src w h sp|src x y|x y px|]; cbn [perform call_typed] in *; intros E.
  - by apply (Hgen _ _ _ (fill_rect_spec u Hok r px m Hc)).
  - by apply (Hgen _ _ _ (blit_spec u Hok x y src w h sp m Hc)).
  - destruct Hc as (H1 & H2 & H3). by apply (Hgen _ _ _ (copy_rect_spec u Hok src x y m H1 H2 H3)).
  - destruct Hc as [[H1 _] [H2 _]]. by apply (Hgen _ _ _ (pixel_spec u Hok x y px m H1 H2)).
  - by apply (present_refused s).
Qed.

Section Booted.
Context {M : Type} `{!page_backend M, !page_backend_laws M}.

(** A surface from the heap is a well-formed picture in the heap's window. *)
Lemma surface_initialize_ok (u0 : option surface) w h hp (k : M) u hp' k' :
  heap_wf hp k -> 0 <= w < 2 ^ 32 -> 0 <= h < 2 ^ 32 -> surface_initialize u0 w h hp k = (SURFACE_STATUS_OK, Some u, hp', k') ->
  heap_wf hp' k' /\ surface_ok u /\ sf_width u = w /\ sf_height u = h /\ pending (sf_damage u) = false /\ HEAP_BASE <= sf_pixels u.
Proof.
  intros [Hcore _] Hw Hh. unfold surface_initialize. destruct u0 as [u0|]; [|done]. destruct (sf_active u0); [done|].
  destruct (_ || _) eqn:Ez; [done|]. destruct (UINT32_MAX / SURFACE_BYTES_PER_PIXEL <? w) eqn:E1; [done|].
  change (UINT32_MAX / SURFACE_BYTES_PER_PIXEL) with 1073741823 in *. change SURFACE_BYTES_PER_PIXEL with 4. cbv zeta.
  rewrite u32_small by lia. destruct (HEAP_SIZE <? w * 4 * h) eqn:E2; [done|].
  pose proof (heap_allocate_cases (w * 4 * h) None hp k Hcore) as Hc. cbv zeta in Hc.
  assert (Hf : fits 64 (w * 4 * h)) by (unfold HEAP_SIZE in E2; unfold fits; change (2 ^ 64) with 18446744073709551616; nia).
  specialize (Hc Hf). destruct (heap_allocate (w * 4 * h) (Some None) hp k) as [[[st out] h1] k1]. destruct st; try done.
  destruct Hc as (hg & l1 & b & l2 & _ & _ & _ & _ & _ & _ & _ & Hl & Hwf & -> & _).
  cbn [default]. unfold bind_surface. change SURFACE_BYTES_PER_PIXEL with 4. change (UINT32_MAX / 4) with 1073741823.
  rewrite Ez, E1, u32_small, Z.mod_mul by lia. destruct (Z.ltb_spec (w * 4) (w * 4)); [lia|]. cbn [orb negb Z.eqb].
  intros [= <- <- <-]. split; [done|]. cbn. split_and!; try done; [split; cbn; (done || lia)|].
  destruct Hwf as [Hc' _]. pose proof (hc_layout h1 k1 Hc') as Hlay. rewrite Hl in Hlay. unfold carve in Hlay. cbn [app] in Hlay.
  pose proof (layout_block _ _ _ _ _ _ Hlay) as (_ & _ & Hb0 & _). cbn in Hb0. lia.
Qed.

End Booted.

(** On a well-formed surface the audit ends, and it passes exactly when every page of its
    pixels is writable, not executable, supervisor and write-back memory. *)
Theorem surface_verify_exact u (h : heap_state) p :
  surface_ok u -> sf_width u <= UINT32_MAX / 4 -> sf_pitch u = 4 * sf_width u -> Heap.active h = true ->
  0 < hs_base_address h <= sf_pixels u ->
  sf_pixels u + sf_pitch u * sf_height u <= hs_base_address h + committed_bytes h ->
  hs_base_address h + committed_bytes h + PAGING_PAGE_SIZE < 2 ^ 64 ->
  exists st, surface_verify (Some u) h p = Some st /\
    (st = SURFACE_STATUS_OK <->
     forall a, a mod PAGING_PAGE_SIZE = 0 -> sf_pixels u < a + PAGING_PAGE_SIZE -> a < sf_pixels u + sf_pitch u * sf_height u ->
       write_back_page p a = None).
Proof.
  intros Hok Hw Hp Ha [Hb0 Hb] Htop Hmax. destruct Hok as [Hact Bw Bh _ Hd]. change PAGING_PAGE_SIZE with 4096 in *.
  change (UINT32_MAX / 4) with 1073741823 in *. change (2 ^ 64) with 18446744073709551616 in *. change (2 ^ 32) with 4294967296 in *.
  assert (Hsz : 0 < sf_pitch u * sf_height u) by nia.
  unfold surface_verify. rewrite Hact, Ha. change SURFACE_BYTES_PER_PIXEL with 4. change (UINT32_MAX / 4) with 1073741823. cbn [negb].
  rewrite u32_small by (change (2 ^ 32) with 4294967296; lia).
  match goal with |- context [if ?b then _ else _] => assert (b = false) as -> by lia end.
  match goal with |- context [if ?b then _ else _] => assert (b = false) as -> end.
  { destruct (pending (sf_damage u)); [|done]. destruct (Hd eq_refl). cbn [andb]. lia. }
  cbv zeta. rewrite !(wrap_small 64) by (unfold fits; change (2 ^ 64) with 18446744073709551616; lia).
  match goal with |- context [if ?b then _ else _] => assert (b = false) as -> by (cbn; lia) end.
  set (stop := sf_pixels u + sf_pitch u * sf_height u) in *.
  rewrite page_base by (unfold fits; change (2 ^ 64) with 18446744073709551616; lia). change PAGING_PAGE_SIZE with 4096.
  pose proof (Z.mod_pos_bound (sf_pixels u) 4096 ltac:(done)) as Hm. set (first := sf_pixels u - sf_pixels u mod 4096).
  assert (Hq : 0 <= (stop - 1 - first) / 4096 <= (stop - first) / 4096).
  { split; [apply Z.div_pos; lia|apply Z.div_le_mono; lia]. }
  destruct (pages_exact (fun page => page <? stop) (write_back_page p) SURFACE_STATUS_OK (stop - 1))
    with (n := Z.to_nat ((stop - first) / 4096 + 1)) (address := sf_pixels u) as (st & E & Hst).
  - intros a. destruct (Z.ltb_spec a stop), (Z.leb_spec a (stop - 1)); lia || done.
  - intros a. unfold write_back_page. repeat case_match; congruence.
  - change PAGING_PAGE_SIZE with 4096. change (2 ^ 64) with 18446744073709551616. lia.
  - lia.
  - change PAGING_PAGE_SIZE with 4096. fold first. lia.
  - rewrite page_base in E by (unfold fits; change (2 ^ 64) with 18446744073709551616; lia). change PAGING_PAGE_SIZE with 4096 in *.
    exists st. split; [exact E|]. rewrite Hst. split; intros H' a H1 H2 H3; apply H'; lia || done.
Qed.

(** ** A small screen *)

Module SurfaceSamples.
Import FramebufferSamples.

Definition fresh : surface := Surface false 0 0 0 0 (Damage false (Rect 0 0 0 0)) 0 0 0.

(** A surface of the sample mode from the sample heap. *)
Definition sample_surface := surface_initialize (Some fresh) 3 4 sample_heap sample_memory.
Definition canvas : surface := Surface true 3 4 12 HEAP_BASE (Damage false (Rect 0 0 0 0)) 0 0 0.

Lemma sample_surface_ok : sample_surface = (SURFACE_STATUS_OK, Some canvas, sample_surface.1.2, sample_surface.2).
Proof.
  assert (E : sample_surface.1.1 = (SURFACE_STATUS_OK, Some canvas)) by (vm_compute; reflexivity).
  by rewrite <- E, <- !pair_eta.
Qed.

Lemma canvas_ok : surface_ok canvas.
Proof. split; done. Qed.

Definition numbered : pixel_store :=
  foldl (fun m p => store32 (word canvas p.2 p.1) (10 * p.1 + p.2) m) ∅ (product (seqZ 0 4) (seqZ 0 3)).

(** Rows 0 to 2 moved down by one over themselves. *)
Lemma surface_copy_rect_memmove_witness :
  load32 (word canvas 2 3) numbered = 32 /\
  load32 (word canvas 2 3) (surface_copy_rect (Some canvas) (Rect 0 0 3 3) 0 1 numbered).2 = 22.
Proof.
  split; [vm_compute; reflexivity|].
  destruct (surface_copy_rect_memmove canvas (Rect 0 0 3 3) 0 1 numbered canvas_ok) as (m' & E & Hm).
  1-3: vm_compute; repeat split; congruence.
  1-2: unfold accepted; vm_compute; repeat split; congruence.
  rewrite E. cbn [snd]. rewrite (pa_inside _ _ _ _ _ Hm) by (vm_compute; repeat split; congruence). vm_compute. reflexivity.
Defined.

Lemma surface_refusals_inert_witness : (perform adopted (Pixel 3 0 7) (Some canvas) numbered).2 = numbered.
Proof.
  apply (surface_refusals_inert adopted (Pixel 3 0 7) canvas numbered SURFACE_STATUS_OUT_OF_BOUNDS
    (perform adopted (Pixel 3 0 7) (Some canvas) numbered).1.2 _ canvas_ok); [vm_compute; repeat split; congruence|reflexivity|done].
Defined.

(** Draw, copy, show; draw again, show again. *)
Definition session : list draw_call := [Pixel 1 1 7; Copy (Rect 0 0 3 3) 0 1; Present; Pixel 2 2 9; Fill (Rect 2 3 9 9) 5].

Lemma session_typed : Forall call_typed session.
Proof. repeat constructor; vm_compute; congruence. Qed.

Lemma sample_window_valid : window_fits sample_window /\ validate_device_window_entry sample_window = PAGING_STATUS_OK.
Proof. split; [vm_compute; repeat split; congruence|vm_compute; reflexivity]. Qed.


(** What the screen shows in the end. *)
Example session_screen :
  (fun p => load32 (pixel_word adopted p.2 p.1) (perform_all adopted (Fill (Rect 0 0 3 4) 1 :: session ++ [Present]) (Some canvas, ∅)).2)
    <$> product (seqZ 0 4) (seqZ 0 3) = [1; 1; 1; 1; 1; 1; 1; 7; 9; 1; 1; 5].
Proof. vm_compute. reflexivity. Qed.

End SurfaceSamples.
