(* ===== verification/Keyboard.v ===== *)
(** * The keyboard ([src/kernel/keyboard.c], [include/rsd/keyboard.h])

    The bring-up of the 8042 controller over the ports, the decoder of scancode set 1 with
    its modifiers, and the ring of 64 events between the interrupt and the reader.  The
    I/O APIC and the handler table are the class [interrupt_routing]; what input drivers
    submit while they are polled is a list of scancodes. *)

From Stdlib Require Import String Ascii.
From stdpp Require Import base option list numbers.
From S2P Require Import Prelude WallClock.

Definition KEYBOARD_QUEUE_SIZE : Z := 64.
Definition KEYBOARD_QUEUE_MASK : Z := KEYBOARD_QUEUE_SIZE - 1.
Definition KEYBOARD_DATA_PORT : Z := 0x0060.
Definition KEYBOARD_COMMAND_PORT : Z := 0x0064.
Definition KEYBOARD_STATUS_OUTPUT_FULL : Z := 0x01.
Definition KEYBOARD_STATUS_INPUT_FULL : Z := 0x02.
Definition KEYBOARD_STATUS_AUXILIARY_DATA : Z := 0x20.
Definition KEYBOARD_COMMAND_READ_CONFIGURATION : Z := 0x20.
Definition KEYBOARD_COMMAND_WRITE_CONFIGURATION : Z := 0x60.
Definition KEYBOARD_COMMAND_DISABLE_SECOND_PORT : Z := 0xA7.
Definition KEYBOARD_COMMAND_DISABLE_FIRST_PORT : Z := 0xAD.
Definition KEYBOARD_COMMAND_ENABLE_FIRST_PORT : Z := 0xAE.
Definition KEYBOARD_COMMAND_SELF_TEST : Z := 0xAA.
Definition KEYBOARD_COMMAND_TEST_FIRST_PORT : Z := 0xAB.
Definition KEYBOARD_COMMAND_WRITE_OUTPUT_BUFFER : Z := 0xD2.
Definition KEYBOARD_SELF_TEST_PASSED : Z := 0x55.
Definition KEYBOARD_PORT_TEST_PASSED : Z := 0x00.
Definition KEYBOARD_CONFIGURATION_FIRST_INTERRUPT : Z := 0x01.
Definition KEYBOARD_CONFIGURATION_SECOND_INTERRUPT : Z := 0x02.
Definition KEYBOARD_CONFIGURATION_FIRST_CLOCK_OFF : Z := 0x10.
Definition KEYBOARD_CONFIGURATION_TRANSLATE : Z := 0x40.
Definition KEYBOARD_WAIT_LIMIT : Z := 100000.
Definition INTERRUPT_IOAPIC_BASE : Z := 48.
Definition KEYBOARD_IRQ : Z := 1.
Definition KEYBOARD_VECTOR : Z := u8 (INTERRUPT_IOAPIC_BASE + KEYBOARD_IRQ).
Definition KEYBOARD_RELEASE_BIT : Z := 0x80.
Definition KEYBOARD_EXTENDED_PREFIX : Z := 0xE0.
Definition KEYBOARD_SCANCODE_LEFT_SHIFT : Z := 0x2A.
Definition KEYBOARD_SCANCODE_RIGHT_SHIFT : Z := 0x36.
Definition KEYBOARD_SCANCODE_LEFT_CONTROL : Z := 0x1D.
Definition KEYBOARD_SCANCODE_LEFT_ALT : Z := 0x38.
Definition KEYBOARD_SCANCODE_CAPS_LOCK : Z := 0x3A.

Inductive keyboard_status :=
| KEYBOARD_STATUS_OK
| KEYBOARD_STATUS_ALREADY_INITIALIZED
| KEYBOARD_STATUS_NOT_INITIALIZED
| KEYBOARD_STATUS_INTERRUPTS_ENABLED
| KEYBOARD_STATUS_NO_IOAPIC
| KEYBOARD_STATUS_CONTROLLER_TIMEOUT
| KEYBOARD_STATUS_CONTROLLER_REFUSED
| KEYBOARD_STATUS_SELF_TEST_FAILED
| KEYBOARD_STATUS_PORT_TEST_FAILED
| KEYBOARD_STATUS_IOAPIC_FAILURE
| KEYBOARD_STATUS_HANDLER_FAILURE
| KEYBOARD_STATUS_EMPTY.

#[global] Instance keyboard_status_eq_dec : EqDecision keyboard_status.
Proof. solve_decision. Defined.

Record keyboard_event := Event {
  ke_scancode : Z;
  ke_pressed : bool;
  ke_shift : bool;
  ke_control : bool;
  ke_alt : bool;
  ke_character : Z
}.

#[global] Instance keyboard_event_inhabited : Inhabited keyboard_event := populate (Event 0 false false false false 0).

Record keyboard_state := KeyboardState {
  ks_active : bool;
  ks_interrupts : Z;
  ks_events : Z;
  ks_dropped : Z;
  ks_extended : Z;
  ks_submitted : Z;
  ks_queued : Z;
  ks_shift : bool;
  ks_control : bool;
  ks_alt : bool;
  ks_caps_lock : bool
}.

(** The static storage. *)
Record keyboard := Keyboard {
  kb_state : keyboard_state;
  queue : list keyboard_event;
  queue_head : Z;
  queue_tail : Z;
  expecting_extended : bool
}.

Implicit Types k : keyboard.

Definition set_state (s : keyboard_state) k : keyboard :=
  Keyboard s (queue k) (queue_head k) (queue_tail k) (expecting_extended k).
Definition set_expecting (e : bool) k : keyboard := Keyboard (kb_state k) (queue k) (queue_head k) (queue_tail k) e.
Definition set_modifiers (shift control alt caps : bool) (s : keyboard_state) : keyboard_state :=
  KeyboardState (ks_active s) (ks_interrupts s) (ks_events s) (ks_dropped s) (ks_extended s) (ks_submitted s) (ks_queued s)
    shift control alt caps.
Definition set_counters (interrupts events dropped extended submitted : Z) (s : keyboard_state) : keyboard_state :=
  KeyboardState (ks_active s) interrupts events dropped extended submitted (ks_queued s) (ks_shift s) (ks_control s) (ks_alt s)
    (ks_caps_lock s).

(** ** Characters *)

Definition codes (s : string) : list Z := (fun c => Z.of_nat (nat_of_ascii c)) <$> list_ascii_of_string s.

#[local] Open Scope string_scope.
#[local] Open Scope list_scope.
#[local] Open Scope Z_scope.

(** A row of the 128-entry tables: the keys from code 0 on, the rest silent. *)
Definition table (l : list Z) : list Z := l ++ replicate (128 - length l) 0.

Definition unshifted : list Z :=
  table ([0; 0] ++ codes "1234567890-=" ++ [8; 9] ++ codes "qwertyuiop[]" ++ [10; 0] ++ codes "asdfghjkl;'`" ++ [0]
         ++ codes "\zxcvbnm,./" ++ [0] ++ codes "*" ++ [0] ++ codes " ").

Definition shifted : list Z :=
  table ([0; 0] ++ codes "!@#$%^&*()_+" ++ [8; 9] ++ codes "QWERTYUIOP{}" ++ [10; 0] ++ codes "ASDFGHJKL:" ++ [34] ++ codes "~" ++ [0]
         ++ codes "|ZXCVBNM<>?" ++ [0] ++ codes "*" ++ [0] ++ codes " ").

Definition keyboard_character_for (scancode : Z) (shift caps_lock : bool) : Z :=
  let make := scancode .& u8 (Z.lnot KEYBOARD_RELEASE_BIT) in
  if 128 <=? make then 0
  else
    let character := (if shift then shifted else unshifted) !!! Z.to_nat make in
    if caps_lock then
      if (97 <=? character) && (character <=? 122) then character - 97 + 65
      else if (65 <=? character) && (character <=? 90) then character - 65 + 97
      else character
    else character.

(** ** The decoder and the ring *)

Definition enqueue (event : keyboard_event) k : keyboard :=
  let next := (queue_tail k + 1) .& KEYBOARD_QUEUE_MASK in
  let s := kb_state k in
  if next =? queue_head k then
    set_state (set_counters (ks_interrupts s) (ks_events s) (u64 (ks_dropped s + 1)) (ks_extended s) (ks_submitted s) s) k
  else
    Keyboard (set_counters (ks_interrupts s) (u64 (ks_events s + 1)) (ks_dropped s) (ks_extended s) (ks_submitted s) s)
      (<[Z.to_nat (queue_tail k) := event]> (queue k)) (queue_head k) next (expecting_extended k).

Definition handle_byte (byte : Z) k : keyboard :=
  if byte =? KEYBOARD_EXTENDED_PREFIX then
    let s := kb_state k in
    let s := set_modifiers (ks_shift s) false (ks_alt s) (ks_caps_lock s) s in
    set_expecting true
      (set_state (set_counters (ks_interrupts s) (ks_events s) (ks_dropped s) (u64 (ks_extended s + 1)) (ks_submitted s) s) k)
  else
    let extended := expecting_extended k in
    let k := set_expecting false k in
    let make := byte .& u8 (Z.lnot KEYBOARD_RELEASE_BIT) in
    let pressed := (byte .& KEYBOARD_RELEASE_BIT) =? 0 in
    let s := kb_state k in
    let s :=
      if (make =? KEYBOARD_SCANCODE_LEFT_SHIFT) || (make =? KEYBOARD_SCANCODE_RIGHT_SHIFT) then
        set_modifiers pressed (ks_control s) (ks_alt s) (ks_caps_lock s) s
      else if make =? KEYBOARD_SCANCODE_LEFT_CONTROL then
        set_modifiers (ks_shift s) (negb extended && pressed) (ks_alt s) (ks_caps_lock s) s
      else if make =? KEYBOARD_SCANCODE_LEFT_ALT then
        set_modifiers (ks_shift s) (ks_control s) (negb extended && pressed) (ks_caps_lock s) s
      else if (make =? KEYBOARD_SCANCODE_CAPS_LOCK) && pressed then
        set_modifiers (ks_shift s) (ks_control s) (ks_alt s) (negb (ks_caps_lock s)) s
      else s in
    let character := if pressed then keyboard_character_for make (ks_shift s) (ks_caps_lock s) else 0 in
    enqueue (Event make pressed (ks_shift s) (ks_control s) (ks_alt s) character) (set_state s k).

Definition keyboard_is_initialized k : bool := ks_active (kb_state k).

Definition keyboard_submit_scancode (scancode : Z) k : keyboard_status * keyboard :=
  let s := kb_state k in
  if negb (ks_active s) then (KEYBOARD_STATUS_NOT_INITIALIZED, k)
  else
    (KEYBOARD_STATUS_OK,
     handle_byte scancode
       (set_state (set_counters (ks_interrupts s) (ks_events s) (ks_dropped s) (ks_extended s) (u64 (ks_submitted s + 1)) s) k)).

(** [hwdrv_poll_input]: the drivers submit the scancodes [polled]. *)
Definition hwdrv_poll_input (polled : list Z) k : keyboard := foldl (fun k c => (keyboard_submit_scancode c k).2) k polled.

Definition keyboard_events_pending (polled : list Z) k : bool * keyboard :=
  let k := hwdrv_poll_input polled k in
  (ks_active (kb_state k) && negb (queue_head k =? queue_tail k), k).

(** [out] is [event != NULL].  Interrupts are off while the ring is used, so the call is
    one step between interrupts. *)
Definition keyboard_read (out : bool) (polled : list Z) k : keyboard_status * option keyboard_event * keyboard :=
  if negb (ks_active (kb_state k)) then (KEYBOARD_STATUS_NOT_INITIALIZED, None, k)
  else if negb out then (KEYBOARD_STATUS_CONTROLLER_REFUSED, None, k)
  else
    let k := hwdrv_poll_input polled k in
    if queue_head k =? queue_tail k then (KEYBOARD_STATUS_EMPTY, None, k)
    else
      (KEYBOARD_STATUS_OK, Some (queue k !!! Z.to_nat (queue_head k)),
       Keyboard (kb_state k) (queue k) ((queue_head k + 1) .& KEYBOARD_QUEUE_MASK) (queue_tail k) (expecting_extended k)).

Definition keyboard_get_state k : keyboard_state :=
  let s := kb_state k in
  KeyboardState (ks_active s) (ks_interrupts s) (ks_events s) (ks_dropped s) (ks_extended s) (ks_submitted s)
    (u64 (queue_tail k - queue_head k) .& KEYBOARD_QUEUE_MASK) (ks_shift s) (ks_control s) (ks_alt s) (ks_caps_lock s).

(** ** The controller *)

(** The I/O APIC and the table of handlers, as far as a driver sees them: whether the call
    succeeded and the machine afterwards. *)
Class interrupt_routing (H : Type) := {
  ioapic_is_initialized : H -> bool;
  interrupt_register_handler : Z -> H -> bool * H;
  interrupt_unregister_handler : Z -> H -> bool * H;
  ioapic_route_isa_irq : Z -> Z -> Z -> H -> bool * H;
  ioapic_mask_isa_irq : Z -> H -> bool * H
}.

Notation "'TRY' h <- e ; rest" :=
  (match e with (KEYBOARD_STATUS_OK, h) => rest | (status, h) => (status, h) end)
  (at level 10, h name, e at level 100, rest at level 200).

Section Controller.
Context {H : Type} `{!port_hardware H, !interrupt_routing H}.
Implicit Types h : H.

Definition controller_status h : Z * H := cpu_in8 KEYBOARD_COMMAND_PORT h.

(** At most [n] reads of the status, until [ready]. *)
Fixpoint wait_status (n : nat) (ready : Z -> bool) h : bool * H :=
  match n with
  | O => (false, h)
  | S n => let '(status, h) := controller_status h in if ready status then (true, h) else wait_status n ready h
  end.

Definition wait_to_write h : bool * H :=
  wait_status (Z.to_nat KEYBOARD_WAIT_LIMIT) (fun status => (status .& KEYBOARD_STATUS_INPUT_FULL) =? 0) h.
Definition wait_to_read h : bool * H :=
  wait_status (Z.to_nat KEYBOARD_WAIT_LIMIT) (fun status => negb ((status .& KEYBOARD_STATUS_OUTPUT_FULL) =? 0)) h.

Definition send_command (command : Z) h : keyboard_status * H :=
  let '(ready, h) := wait_to_write h in
  if negb ready then (KEYBOARD_STATUS_CONTROLLER_TIMEOUT, h) else (KEYBOARD_STATUS_OK, cpu_out8 KEYBOARD_COMMAND_PORT command h).

Definition send_data (value : Z) h : keyboard_status * H :=
  let '(ready, h) := wait_to_write h in
  if negb ready then (KEYBOARD_STATUS_CONTROLLER_TIMEOUT, h) else (KEYBOARD_STATUS_OK, cpu_out8 KEYBOARD_DATA_PORT value h).

(** The value is what [*value] holds afterwards, from [value] on a timeout. *)
Definition receive_data (value : Z) h : keyboard_status * Z * H :=
  let '(ready, h) := wait_to_read h in
  if negb ready then (KEYBOARD_STATUS_CONTROLLER_TIMEOUT, value, h)
  else let '(byte, h) := cpu_in8 KEYBOARD_DATA_PORT h in (KEYBOARD_STATUS_OK, byte, h).

(** No keyboard byte is waiting: none at all, or one of the mouse. *)
Definition nothing_ours (status : Z) : bool :=
  ((status .& KEYBOARD_STATUS_OUTPUT_FULL) =? 0) || negb ((status .& KEYBOARD_STATUS_AUXILIARY_DATA) =? 0).

Fixpoint drain_bytes (n : nat) h : H :=
  match n with
  | O => h
  | S n =>
      let '(status, h) := controller_status h in
      if nothing_ours status then h else drain_bytes n (cpu_in8 KEYBOARD_DATA_PORT h).2
  end.

Definition drain h : H := drain_bytes (Z.to_nat KEYBOARD_QUEUE_SIZE) h.

Fixpoint drain_output (n : nat) k h : keyboard * H :=
  match n with
  | O => (k, h)
  | S n =>
      let '(status, h) := controller_status h in
      if nothing_ours status then (k, h)
      else let '(byte, h) := cpu_in8 KEYBOARD_DATA_PORT h in drain_output n (handle_byte byte k) h
  end.

Definition keyboard_drain_output k h : keyboard * H := drain_output (Z.to_nat KEYBOARD_QUEUE_SIZE) k h.

Definition keyboard_interrupt k h : keyboard * H :=
  let s := kb_state k in
  keyboard_drain_output
    (set_state (set_counters (u64 (ks_interrupts s + 1)) (ks_events s) (ks_dropped s) (ks_extended s) (ks_submitted s) s) k) h.

(** The configuration for the tests: interrupts off, first clock on, translation on. *)
Definition test_configuration (configuration : Z) : Z :=
  (configuration .& u8 (Z.lnot (KEYBOARD_CONFIGURATION_FIRST_INTERRUPT .| KEYBOARD_CONFIGURATION_SECOND_INTERRUPT
                                .| KEYBOARD_CONFIGURATION_FIRST_CLOCK_OFF)))
  .| KEYBOARD_CONFIGURATION_TRANSLATE.

Definition write_configuration (configuration : Z) h : keyboard_status * H :=
  TRY h <- send_command KEYBOARD_COMMAND_WRITE_CONFIGURATION h; send_data configuration h.

(** A command whose answer must be [passed]. *)
Definition controller_test (command passed : Z) (failed : keyboard_status) (answer : Z) h : keyboard_status * Z * H :=
  match send_command command h with
  | (KEYBOARD_STATUS_OK, h) =>
      match receive_data answer h with
      | (KEYBOARD_STATUS_OK, answer, h) => if negb (answer =? passed) then (failed, answer, h) else (KEYBOARD_STATUS_OK, answer, h)
      | r => r
      end
  | (status, h) => (status, answer, h)
  end.

(** Up to and including the tests: the configuration that was written. *)
Definition prepare_controller h : keyboard_status * Z * H :=
  match send_command KEYBOARD_COMMAND_DISABLE_FIRST_PORT h with
  | (KEYBOARD_STATUS_OK, h) =>
      match send_command KEYBOARD_COMMAND_DISABLE_SECOND_PORT h with
      | (KEYBOARD_STATUS_OK, h) =>
          let h := drain h in
          match send_command KEYBOARD_COMMAND_READ_CONFIGURATION h with
          | (KEYBOARD_STATUS_OK, h) =>
              match receive_data 0 h with
              | (KEYBOARD_STATUS_OK, configuration, h) =>
                  let configuration := test_configuration configuration in
                  match write_configuration configuration h with
                  | (KEYBOARD_STATUS_OK, h) =>
                      match controller_test KEYBOARD_COMMAND_SELF_TEST KEYBOARD_SELF_TEST_PASSED
                              KEYBOARD_STATUS_SELF_TEST_FAILED 0 h with
                      | (KEYBOARD_STATUS_OK, answer, h) =>
                          match write_configuration configuration h with
                          | (KEYBOARD_STATUS_OK, h) =>
                              let '(status, _, h) :=
                                controller_test KEYBOARD_COMMAND_TEST_FIRST_PORT KEYBOARD_PORT_TEST_PASSED
                                  KEYBOARD_STATUS_PORT_TEST_FAILED answer h in
                              (status, configuration, h)
                          | (status, h) => (status, configuration, h)
                          end
                      | (status, _, h) => (status, configuration, h)
                      end
                  | (status, h) => (status, configuration, h)
                  end
              | r => r
              end
          | (status, h) => (status, 0, h)
          end
      | (status, h) => (status, 0, h)
      end
  | (status, h) => (status, 0, h)
  end.

(** The way back once the interrupt is routed. *)
Definition undo_route (status : keyboard_status) h : keyboard_status * H :=
  (status, (interrupt_unregister_handler KEYBOARD_VECTOR (ioapic_mask_isa_irq KEYBOARD_IRQ h).2).2).

(** From the handler on. *)
Definition go_live (configuration : Z) h : keyboard_status * H :=
  match interrupt_register_handler KEYBOARD_VECTOR h with
  | (false, h) => (KEYBOARD_STATUS_HANDLER_FAILURE, h)
  | (true, h) =>
      match ioapic_route_isa_irq KEYBOARD_IRQ KEYBOARD_VECTOR 0 h with
      | (false, h) => (KEYBOARD_STATUS_IOAPIC_FAILURE, (interrupt_unregister_handler KEYBOARD_VECTOR h).2)
      | (true, h) =>
          match send_command KEYBOARD_COMMAND_ENABLE_FIRST_PORT h with
          | (KEYBOARD_STATUS_OK, h) =>
              let configuration := configuration .| KEYBOARD_CONFIGURATION_FIRST_INTERRUPT in
              match write_configuration configuration h with
              | (KEYBOARD_STATUS_OK, h) => (KEYBOARD_STATUS_OK, drain h)
              | (status, h) => undo_route status h
              end
          | (status, h) => undo_route status h
          end
      end
  end.

Definition keyboard_initialize k h : keyboard_status * keyboard * H :=
  if ks_active (kb_state k) then (KEYBOARD_STATUS_ALREADY_INITIALIZED, k, h)
  else if cpu_interrupts_enabled h then (KEYBOARD_STATUS_INTERRUPTS_ENABLED, k, h)
  else if negb (ioapic_is_initialized h) then (KEYBOARD_STATUS_NO_IOAPIC, k, h)
  else
    match prepare_controller h with
    | (KEYBOARD_STATUS_OK, configuration, h) =>
        match go_live configuration h with
        | (KEYBOARD_STATUS_OK, h) =>
            let s := kb_state k in
            (KEYBOARD_STATUS_OK,
             Keyboard (KeyboardState true (ks_interrupts s) (ks_events s) (ks_dropped s) (ks_extended s) (ks_submitted s)
                         (ks_queued s) (ks_shift s) (ks_control s) (ks_alt s) (ks_caps_lock s))
               (queue k) 0 0 false, h)
        | (status, h) => (status, k, h)
        end
    | (status, _, h) => (status, k, h)
    end.

Definition keyboard_inject_scancode (scancode : Z) k h : keyboard_status * H :=
  if negb (ks_active (kb_state k)) then (KEYBOARD_STATUS_NOT_INITIALIZED, h)
  else TRY h <- send_command KEYBOARD_COMMAND_WRITE_OUTPUT_BUFFER h; send_data scancode h.
End Controller.

(** ** Bytes *)

Lemma every_byte (P : Z -> bool) b : forallb P (seqZ 0 256) = true -> fits 8 b -> P b = true.
Proof. intros HP Hb. rewrite forallb_forall in HP. apply HP, list_elem_of_In, elem_of_seqZ. unfold fits in Hb. lia. Qed.

Lemma make_code b : fits 8 b -> b .& u8 (Z.lnot KEYBOARD_RELEASE_BIT) = b mod 128.
Proof. intros Hb. apply Z.eqb_eq. by apply (every_byte (fun b => b .& u8 (Z.lnot KEYBOARD_RELEASE_BIT) =? b mod 128)). Qed.

Lemma release_bit b : fits 8 b -> ((b .& KEYBOARD_RELEASE_BIT) =? 0) = (b <? 128).
Proof. intros Hb. apply eqb_prop. by apply (every_byte (fun b => eqb ((b .& KEYBOARD_RELEASE_BIT) =? 0) (b <? 128))). Qed.

Lemma ring_index x : x .& KEYBOARD_QUEUE_MASK = x mod 64.
Proof. change KEYBOARD_QUEUE_MASK with (2 ^ 6 - 1). by rewrite land_mask. Qed.

(** ** The ring as a list *)

Record keyboard_ok k : Prop := {
  ko_queue : length (queue k) = 64%nat;
  ko_head : 0 <= queue_head k < 64;
  ko_tail : 0 <= queue_tail k < 64
}.

(** The events not yet read, oldest first. *)
Definition waiting k : list keyboard_event :=
  (fun i => queue k !!! Z.to_nat ((queue_head k + i) mod 64)) <$> seqZ 0 ((queue_tail k - queue_head k) mod 64).

Lemma waiting_length k : Z.of_nat (length (waiting k)) = (queue_tail k - queue_head k) mod 64.
Proof. unfold waiting. rewrite length_fmap, length_seqZ. pose proof (Z.mod_pos_bound (queue_tail k - queue_head k) 64). lia. Qed.

Lemma full_spec k : keyboard_ok k -> (((queue_tail k + 1) .& KEYBOARD_QUEUE_MASK) =? queue_head k) = (63 <=? Z.of_nat (length (waiting k))).
Proof.
  intros [_ Hh Ht]. rewrite waiting_length, ring_index.
  destruct (Z.eqb_spec ((queue_tail k + 1) mod 64) (queue_head k)), (Z.leb_spec 63 ((queue_tail k - queue_head k) mod 64)); div_lia.
Qed.

Lemma enqueue_spec e k :
  keyboard_ok k ->
  keyboard_ok (enqueue e k) /\ expecting_extended (enqueue e k) = expecting_extended k /\
  (if 63 <=? Z.of_nat (length (waiting k)) then
     waiting (enqueue e k) = waiting k /\
     kb_state (enqueue e k) = let s := kb_state k in
       set_counters (ks_interrupts s) (ks_events s) (u64 (ks_dropped s + 1)) (ks_extended s) (ks_submitted s) s
   else
     waiting (enqueue e k) = waiting k ++ [e] /\
     kb_state (enqueue e k) = let s := kb_state k in
       set_counters (ks_interrupts s) (u64 (ks_events s + 1)) (ks_dropped s) (ks_extended s) (ks_submitted s) s).
Proof.
  intros Hok. pose proof (full_spec k Hok) as Hf. pose proof (waiting_length k) as Hl. unfold enqueue. cbv zeta. rewrite Hf.
  destruct Hok as [Hq Hh Ht]. destruct (Z.leb_spec 63 (Z.of_nat (length (waiting k)))) as [H|H]; [done|]. rewrite Hl in H.
  split; [split; cbn; [by rewrite length_insert|done|rewrite ring_index; apply Z.mod_pos_bound; lia]|].
  split; [done|]. split; [|done]. unfold waiting. cbn [queue queue_head queue_tail]. rewrite ring_index.
  set (n := (queue_tail k - queue_head k) mod 64) in *.
  replace (((queue_tail k + 1) mod 64 - queue_head k) mod 64) with (n + 1) by (unfold n in *; div_lia).
  assert (Hn : 0 <= n) by (apply Z.mod_pos_bound; lia).
  rewrite seqZ_app, fmap_app by lia. f_equal.
  - apply list_fmap_ext. intros i x Hx. apply list_elem_of_lookup_2, elem_of_seqZ in Hx.
    apply list_lookup_total_insert_ne. unfold n in *. intros E%Z2Nat.inj; [|lia|apply Z.mod_pos_bound; lia]. revert E. div_lia.
  - rewrite Z.add_0_l. rewrite seqZ_cons by lia. cbn [fmap list_fmap]. f_equal.
    assert (E : (queue_head k + n) mod 64 = queue_tail k) by (unfold n; div_lia).
    rewrite E. apply list_lookup_total_insert_eq. rewrite Hq. lia.
Qed.

(** Taking the oldest event. *)
Definition advance k : keyboard :=
  Keyboard (kb_state k) (queue k) ((queue_head k + 1) .& KEYBOARD_QUEUE_MASK) (queue_tail k) (expecting_extended k).

Lemma head_spec k :
  keyboard_ok k ->
  (queue_head k =? queue_tail k) = bool_decide (waiting k = []) /\
  (waiting k <> [] -> waiting k = (queue k !!! Z.to_nat (queue_head k)) :: waiting (advance k) /\ keyboard_ok (advance k)).
Proof.
  intros Hok. pose proof (waiting_length k) as Hl. destruct Hok as [Hq Hh Ht]. split.
  - destruct (Z.eqb_spec (queue_head k) (queue_tail k)) as [E|E].
    + rewrite E, Z.sub_diag, Z.mod_0_l in Hl by done. symmetry. apply bool_decide_eq_true, nil_length_inv. lia.
    + symmetry. apply bool_decide_eq_false. intros Ew. rewrite Ew in Hl. cbn in Hl. revert Hl. div_lia.
  - intros Hne. split; [|split; cbn; [done|rewrite ring_index; apply Z.mod_pos_bound; lia|done]].
    assert (Hn : 0 < (queue_tail k - queue_head k) mod 64).
    { rewrite <- Hl. destruct (waiting k); [done|cbn; lia]. }
    unfold waiting. cbn [advance queue queue_head queue_tail]. rewrite ring_index.
    set (n := (queue_tail k - queue_head k) mod 64) in *.
    replace ((queue_tail k - (queue_head k + 1) mod 64) mod 64) with (n - 1) by (unfold n in *; div_lia).
    rewrite seqZ_cons by lia. cbn [fmap list_fmap]. f_equal; [rewrite Z.add_0_r; by rewrite Z.mod_small|].
    replace (Z.succ 0) with (1 + 0) by lia. replace (Z.pred n) with (n - 1) by lia. rewrite <- fmap_add_seqZ, <- list_fmap_compose.
    apply list_fmap_ext. intros i x _. cbn. do 2 f_equal. rewrite Z.add_mod_idemp_l by done. f_equal. lia.
Qed.

(** ** The keyboard as a desk: modifiers and a bounded queue *)

Record modifiers := Modifiers {
  mo_shift : bool;
  mo_control : bool;
  mo_alt : bool;
  mo_caps : bool;
  mo_prefix : bool
}.

Definition modifiers_of k : modifiers :=
  let s := kb_state k in Modifiers (ks_shift s) (ks_control s) (ks_alt s) (ks_caps_lock s) (expecting_extended k).

(** The meaning of a byte: below 128 a press, above a release of the key [b mod 128]. *)
Definition decode (b : Z) (d : modifiers) : modifiers * option keyboard_event :=
  if b =? 0xE0 then (Modifiers (mo_shift d) false (mo_alt d) (mo_caps d) true, None)
  else
    let key := b mod 128 in
    let pressed := b <? 128 in
    let d := Modifiers
      (if (key =? 0x2A) || (key =? 0x36) then pressed else mo_shift d)
      (if key =? 0x1D then negb (mo_prefix d) && pressed else mo_control d)
      (if key =? 0x38 then negb (mo_prefix d) && pressed else mo_alt d)
      (if (key =? 0x3A) && pressed then negb (mo_caps d) else mo_caps d) false in
    (d, Some (Event key pressed (mo_shift d) (mo_control d) (mo_alt d)
           (if pressed then keyboard_character_for key (mo_shift d) (mo_caps d) else 0))).

(** Events waiting, and how many were ever accepted and lost. *)
Record desk := Desk {
  dk_modifiers : modifiers;
  dk_waiting : list keyboard_event;
  dk_accepted : Z;
  dk_lost : Z
}.

(** The queue holds 63; an event that finds it full is lost. *)
Definition desk_byte (b : Z) (d : desk) : desk :=
  match decode b (dk_modifiers d) with
  | (md, None) => Desk md (dk_waiting d) (dk_accepted d) (dk_lost d)
  | (md, Some e) =>
      if 63 <=? Z.of_nat (length (dk_waiting d)) then Desk md (dk_waiting d) (dk_accepted d) (dk_lost d + 1)
      else Desk md (dk_waiting d ++ [e]) (dk_accepted d + 1) (dk_lost d)
  end.

Definition desk_bytes (bs : list Z) (d : desk) : desk := foldl (fun d b => desk_byte b d) d bs.

Definition desk_read (d : desk) : option keyboard_event * desk :=
  match dk_waiting d with
  | [] => (None, d)
  | e :: l => (Some e, Desk (dk_modifiers d) l (dk_accepted d) (dk_lost d))
  end.

Record simulates k (d : desk) : Prop := {
  si_ok : keyboard_ok k;
  si_active : ks_active (kb_state k) = true;
  si_modifiers : modifiers_of k = dk_modifiers d;
  si_waiting : waiting k = dk_waiting d;
  si_events : ks_events (kb_state k) = u64 (dk_accepted d);
  si_dropped : ks_dropped (kb_state k) = u64 (dk_lost d)
}.

Lemma u64_succ x : u64 (u64 x + 1) = u64 (x + 1).
Proof. unfold wrap. by rewrite Zplus_mod_idemp_l. Qed.

(** The modifier updates of the code, one key at a time, are those of [decode]. *)
Lemma modifier_chain (s : keyboard_state) key pressed extended :
  (if (key =? KEYBOARD_SCANCODE_LEFT_SHIFT) || (key =? KEYBOARD_SCANCODE_RIGHT_SHIFT) then
     set_modifiers pressed (ks_control s) (ks_alt s) (ks_caps_lock s) s
   else if key =? KEYBOARD_SCANCODE_LEFT_CONTROL then
     set_modifiers (ks_shift s) (negb extended && pressed) (ks_alt s) (ks_caps_lock s) s
   else if key =? KEYBOARD_SCANCODE_LEFT_ALT then
     set_modifiers (ks_shift s) (ks_control s) (negb extended && pressed) (ks_caps_lock s) s
   else if (key =? KEYBOARD_SCANCODE_CAPS_LOCK) && pressed then
     set_modifiers (ks_shift s) (ks_control s) (ks_alt s) (negb (ks_caps_lock s)) s
   else s) =
  set_modifiers
    (if (key =? 0x2A) || (key =? 0x36) then pressed else ks_shift s)
    (if key =? 0x1D then negb extended && pressed else ks_control s)
    (if key =? 0x38 then negb extended && pressed else ks_alt s)
    (if (key =? 0x3A) && pressed then negb (ks_caps_lock s) else ks_caps_lock s) s.
Proof.
  unfold KEYBOARD_SCANCODE_LEFT_SHIFT, KEYBOARD_SCANCODE_RIGHT_SHIFT, KEYBOARD_SCANCODE_LEFT_CONTROL, KEYBOARD_SCANCODE_LEFT_ALT,
    KEYBOARD_SCANCODE_CAPS_LOCK.
  destruct (Z.eqb_spec key 0x2A) as [-> |]; [by destruct s, pressed|]. destruct (Z.eqb_spec key 0x36) as [-> |]; [by destruct s, pressed|].
  destruct (Z.eqb_spec key 0x1D) as [-> |]; [by destruct s, pressed|]. destruct (Z.eqb_spec key 0x38) as [-> |]; [by destruct s, pressed|].
  cbn [orb]. by destruct s, (_ && _).
Qed.

Lemma byte_simulates b k d : fits 8 b -> simulates k d -> simulates (handle_byte b k) (desk_byte b d).
Proof.
  intros Hb [Hok Ha Hm Hw He Hd]. unfold handle_byte, desk_byte, decode. change KEYBOARD_EXTENDED_PREFIX with 0xE0. cbv zeta.
  destruct (b =? 0xE0); [rewrite <- Hm; destruct Hok; split; done || by split|].
  rewrite make_code, release_bit, modifier_chain by done. cbn [dk_waiting].
  assert (Ex : mo_prefix (dk_modifiers d) = expecting_extended k) by by rewrite <- Hm.
  match goal with |- simulates (enqueue ?e ?k1) _ => set (ev := e); set (k1' := k1) end.
  assert (Hok1 : keyboard_ok k1') by (destruct Hok; by split).
  assert (Hw1 : waiting k1' = dk_waiting d) by done.
  destruct (enqueue_spec ev k1' Hok1) as (Hok2 & Hx & Hq). rewrite Hw1 in Hq. rewrite <- Hm in *. clear Hm.
  destruct (63 <=? Z.of_nat (length (dk_waiting d))); destruct Hq as [Hq Hs]; split; rewrite ?Hs; try done; cbn.
  - unfold modifiers_of. by rewrite Hs, Hx.
  - by rewrite Hd, u64_succ.
  - unfold modifiers_of. by rewrite Hs, Hx.
  - by rewrite He, u64_succ.
Qed.

Lemma bytes_simulates bs k d :
  Forall (fits 8) bs -> simulates k d -> simulates (foldl (fun k b => handle_byte b k) k bs) (desk_bytes bs d).
Proof.
  intros Hb. revert k d. induction Hb as [|b bs Hb _ IH]; intros k d Hs; [done|]. apply IH. by apply byte_simulates.
Qed.

(** A count of its own is all a driver's byte adds. *)
Lemma counters_simulate i e s k d :
  simulates k d ->
  simulates (set_state (set_counters i (ks_events (kb_state k)) (ks_dropped (kb_state k)) e s (kb_state k)) k) d.
Proof. intros [Hok Ha Hm Hw He Hd]. split; try done. destruct Hok. by split. Qed.

Lemma submit_simulates b k d :
  fits 8 b -> simulates k d ->
  (keyboard_submit_scancode b k).1 = KEYBOARD_STATUS_OK /\ simulates (keyboard_submit_scancode b k).2 (desk_byte b d).
Proof.
  intros Hb Hs. unfold keyboard_submit_scancode. rewrite (si_active _ _ Hs). cbn. split; [done|].
  apply byte_simulates; [done|]. by apply counters_simulate.
Qed.

Lemma poll_simulates bs k d : Forall (fits 8) bs -> simulates k d -> simulates (hwdrv_poll_input bs k) (desk_bytes bs d).
Proof.
  intros Hb. revert k d. induction Hb as [|b bs Hb _ IH]; intros k d Hs; [done|]. apply IH. by apply submit_simulates.
Qed.

Lemma read_simulates k d polled :
  Forall (fits 8) polled -> simulates k d ->
  let '(st, out, k') := keyboard_read true polled k in
  let '(e, d') := desk_read (desk_bytes polled d) in
  simulates k' d' /\ out = e /\ st = match e with Some _ => KEYBOARD_STATUS_OK | None => KEYBOARD_STATUS_EMPTY end.
Proof.
  intros Hp Hs. pose proof (poll_simulates polled k d Hp Hs) as Hs'. unfold keyboard_read. rewrite (si_active _ _ Hs). cbn [negb].
  set (k1 := hwdrv_poll_input polled k) in *. set (d1 := desk_bytes polled d) in *. clearbody k1 d1. clear Hs Hp.
  destruct Hs' as [Hok Ha Hm Hw He Hd]. destruct (head_spec k1 Hok) as [-> Hcons]. unfold desk_read. rewrite <- Hw.
  destruct (waiting k1) as [|e l] eqn:El.
  { rewrite bool_decide_true by done. split; [split; done || congruence|done]. }
  destruct (Hcons ltac:(done)) as [[= <- ->] Hok'].
  rewrite bool_decide_false by done. split; [|done]. by split.
Qed.

(** ** Interrupts, drivers and readers in any order *)

Inductive keyboard_call :=
| Interrupt
| Submit (scancode : Z)
| Read (polled : list Z).

Definition call_typed (c : keyboard_call) : Prop :=
  match c with
  | Interrupt => True
  | Submit b => fits 8 b
  | Read polled => Forall (fits 8) polled
  end.

(** What the caller sees. *)
Abbreviation answer := (keyboard_status * option keyboard_event)%type.

Fixpoint run {S : Type} (step : keyboard_call -> S -> answer * S) (cs : list keyboard_call) (s : S) : list answer * S :=
  match cs with
  | [] => ([], s)
  | c :: cs => let '(a, s) := step c s in let '(l, s) := run step cs s in (a :: l, s)
  end.

(** A port answers a byte. *)
Class byte_ports (H : Type) `{!port_hardware H} := in8_byte p (h : H) : fits 8 (cpu_in8 p h).1.

Section Calls.
Context {H : Type} `{!port_hardware H, !byte_ports H}.
Implicit Types h : H.

(** The bytes an interrupt takes from the controller. *)
Fixpoint drained (n : nat) h : list Z * H :=
  match n with
  | O => ([], h)
  | S n =>
      let '(status, h) := controller_status h in
      if nothing_ours status then ([], h)
      else let '(byte, h) := cpu_in8 KEYBOARD_DATA_PORT h in let '(l, h) := drained n h in (byte :: l, h)
  end.

Lemma drain_output_drained n k h :
  drain_output n k h = (foldl (fun k b => handle_byte b k) k (drained n h).1, (drained n h).2).
Proof.
  revert k h. induction n as [|n IH]; intros k h; [done|]. cbn [drain_output drained]. destruct (controller_status h) as [st h1].
  destruct (nothing_ours st); [done|]. destruct (cpu_in8 KEYBOARD_DATA_PORT h1) as [b h2]. rewrite IH. by destruct (drained n h2).
Qed.

Lemma drained_bytes n h : Forall (fits 8) (drained n h).1.
Proof.
  revert h. induction n as [|n IH]; intros h; [constructor|]. cbn [drained]. destruct (controller_status h) as [st h1].
  destruct (nothing_ours st); [constructor|]. pose proof (in8_byte KEYBOARD_DATA_PORT h1) as Hb.
  destruct (cpu_in8 KEYBOARD_DATA_PORT h1) as [b h2]. specialize (IH h2). destruct (drained n h2). by constructor.
Qed.

(** The driver on the machine. *)
Definition keyboard_step (c : keyboard_call) (kh : keyboard * H) : answer * (keyboard * H) :=
  let '(k, h) := kh in
  match c with
  | Interrupt => ((KEYBOARD_STATUS_OK, None), keyboard_interrupt k h)
  | Submit b => let '(st, k) := keyboard_submit_scancode b k in ((st, None), (k, h))
  | Read polled => let '(st, e, k) := keyboard_read true polled k in ((st, e), (k, h))
  end.

(** The desk in front of the same machine. *)
Definition desk_step (c : keyboard_call) (dh : desk * H) : answer * (desk * H) :=
  let '(d, h) := dh in
  match c with
  | Interrupt => let '(bs, h) := drained (Z.to_nat KEYBOARD_QUEUE_SIZE) h in ((KEYBOARD_STATUS_OK, None), (desk_bytes bs d, h))
  | Submit b => ((KEYBOARD_STATUS_OK, None), (desk_byte b d, h))
  | Read polled =>
      let '(e, d) := desk_read (desk_bytes polled d) in
      ((match e with Some _ => KEYBOARD_STATUS_OK | None => KEYBOARD_STATUS_EMPTY end, e), (d, h))
  end.

Lemma step_simulates c k d h :
  call_typed c -> simulates k d ->
  let '(a, (k', h')) := keyboard_step c (k, h) in let '(a', (d', h'')) := desk_step c (d, h) in
  a = a' /\ h' = h'' /\ simulates k' d'.
Proof.
  intros Hc Hs. destruct c as [|b|polled]; cbn [keyboard_step desk_step].
  - unfold keyboard_interrupt, keyboard_drain_output. rewrite drain_output_drained.
    pose proof (drained_bytes (Z.to_nat KEYBOARD_QUEUE_SIZE) h) as Hb.
    destruct (drained (Z.to_nat KEYBOARD_QUEUE_SIZE) h) as [bs h1]. do 2 (split; [done|]). cbn [fst].
    apply bytes_simulates; [done|]. by apply counters_simulate.
  - destruct (submit_simulates b k d Hc Hs) as [E Hs']. destruct (keyboard_submit_scancode b k) as [st k1]. cbn in *. by subst.
  - pose proof (read_simulates k d polled Hc Hs) as Hr. destruct (keyboard_read true polled k) as [[st e] k1].
    destruct (desk_read (desk_bytes polled d)) as [e' d']. destruct Hr as (Hs' & -> & ->). done.
Qed.

(** C29: under any interleaving of interrupts, submitted scancodes and reads, the driver
    answers what a first-in first-out queue of 63 events behind the decoder answers, loses
    an event only when that queue is full, and counts what it accepted and lost. *)
Theorem keyboard_refines cs k d h :
  Forall call_typed cs -> simulates k d ->
  let '(answers, (k', h')) := run keyboard_step cs (k, h) in
  run desk_step cs (d, h) = (answers, ((run desk_step cs (d, h)).2.1, h')) /\ simulates k' (run desk_step cs (d, h)).2.1.
Proof.
  intros Hc. revert k d h. induction Hc as [|c cs Hc _ IH]; intros k d h Hs; [done|]. cbn [run].
  pose proof (step_simulates c k d h Hc Hs) as Hst. destruct (keyboard_step c (k, h)) as [a [k1 h1]].
  destruct (desk_step c (d, h)) as [a' [d1 h1']]. destruct Hst as (<- & <- & Hs1). specialize (IH k1 d1 h1 Hs1).
  destruct (run keyboard_step cs (k1, h1)) as [l [k2 h2]]. destruct (run desk_step cs (d1, h1)) as [l' [d2 h2']].
  cbn [fst snd] in *. destruct IH as [[= -> ->] Hs2]. done.
Qed.
End Calls.

(** ** Modifiers as edges of the byte stream *)

(** Some byte has [P], given the bytes before it, and every later one [Q]. *)
Definition latest (P : list Z -> Z -> Prop) (Q : Z -> Prop) (bs : list Z) : Prop :=
  exists pre b post, bs = pre ++ b :: post /\ P pre b /\ Forall Q post.

Lemma latest_nil P Q : ~ latest P Q [].
Proof. intros (pre & b & post & E & _). by destruct pre. Qed.

Lemma latest_snoc P Q bs b : latest P Q (bs ++ [b]) <-> P bs b \/ Q b /\ latest P Q bs.
Proof.
  split.
  - intros (pre & c & post & E & HP & HQ). destruct post as [|x post _] using rev_ind.
    + apply app_inj_tail in E as [-> ->]. by left.
    + rewrite app_comm_cons, app_assoc in E. apply app_inj_tail in E as [-> ->]. apply Forall_app in HQ as [HQ HQb].
      right. split; [by rewrite Forall_singleton in HQb|]. by exists pre, c, post.
  - intros [HP|(HQ & pre & c & post & -> & HP & HQs)].
    + by exists bs, b, [].
    + exists pre, c, (post ++ [b]). rewrite <- app_assoc. split; [done|]. split; [done|]. apply Forall_app. split; [done|]. by constructor.
Qed.

(** The key with [code] went down as itself, not after a prefix, and is down still. *)
Definition plain_key_held (code : Z) (undisturbed : Z -> Prop) : list Z -> Prop :=
  latest (fun pre b => b = code /\ list.last pre <> Some 0xE0) (fun b => b mod 128 <> code /\ undisturbed b).

Definition decoded (bs : list Z) (md : modifiers) : modifiers := foldl (fun md b => (decode b md).1) md bs.

Definition released : modifiers := Modifiers false false false false false.

(** What the modifiers mean in terms of the bytes alone. *)
Record edges (bs : list Z) (md : modifiers) : Prop := {
  ed_shift : mo_shift md = true <->
    latest (fun _ b => b = 0x2A \/ b = 0x36) (fun b => b mod 128 <> 0x2A /\ b mod 128 <> 0x36) bs;
  ed_control : mo_control md = true <-> plain_key_held 0x1D (fun b => b <> 0xE0) bs;
  ed_alt : mo_alt md = true <-> plain_key_held 0x38 (fun _ => True) bs;
  ed_caps : mo_caps md = Nat.odd (length (filter (fun b => b = 0x3A) bs));
  ed_prefix : mo_prefix md = true <-> list.last bs = Some 0xE0
}.

Lemma decoded_edges bs : Forall (fits 8) bs -> edges bs (decoded bs released).
Proof.
  induction bs as [|b bs IH] using rev_ind; intros Hb.
  - split; cbn; try done; by split; [|intros Hl%latest_nil || intros Hl].
  - apply Forall_app in Hb as [Hb Hb1]. rewrite Forall_singleton in Hb1. destruct (IH Hb) as [Hs Hc Ha Hk Hp]. clear IH Hb.
    unfold decoded. rewrite foldl_app. cbn [foldl]. fold (decoded bs released). set (md := decoded bs released) in *. clearbody md.
    unfold plain_key_held in *. unfold fits in Hb1. change (2 ^ 8) with 256 in Hb1.
    assert (Hpress : forall code, 0 <= code < 128 -> b = code <-> b mod 128 = code /\ b < 128) by (intros code Hcode; split; intros ?; div_lia).
    unfold decode. cbv zeta. destruct (Z.eqb_spec b 0xE0) as [-> |Hne]; cbn [fst]; split; cbn [mo_shift mo_control mo_alt mo_caps mo_prefix].
    all: unfold plain_key_held; rewrite ?latest_snoc, ?last_snoc, ?list_basics.list.filter_app.
    + rewrite Hs. change (224 mod 128) with 96. split; [intros H; by right|by intros [[]|[_ H]]].
    + split; [done|]. intros [[E _]|[[_ []] _]]; done.
    + rewrite Ha. change (224 mod 128) with 96. split; [intros H; by right|by intros [[? _]|[_ H]]].
    + rewrite Hk, filter_cons_False, list_basics.list.filter_nil, app_nil_r by done. done.
    + done.
    + rewrite (Hpress 0x2A), (Hpress 0x36), <- Hs by lia. clear Hs Hc Ha Hk Hp Hpress.
      destruct (Z.eqb_spec (b mod 128) 0x2A), (Z.eqb_spec (b mod 128) 0x36); cbn [orb]; rewrite ?Z.ltb_lt; intuition lia.
    + rewrite (Hpress 0x1D), <- Hc, <- Hp by lia. clear Hs Hc Ha Hk Hp Hpress.
      destruct (Z.eqb_spec (b mod 128) 0x1D); rewrite ?andb_true_iff, ?negb_true_iff, ?not_true_iff_false, ?Z.ltb_lt; intuition lia.
    + rewrite (Hpress 0x38), <- Ha, <- Hp by lia. clear Hs Hc Ha Hk Hp Hpress.
      destruct (Z.eqb_spec (b mod 128) 0x38); rewrite ?andb_true_iff, ?negb_true_iff, ?not_true_iff_false, ?Z.ltb_lt; intuition lia.
    + rewrite length_app, Nat.odd_add, <- Hk. specialize (Hpress 0x3A ltac:(lia)).
      destruct (decide (b = 0x3A)) as [Eb|Eb].
      * rewrite filter_cons_True by done. destruct (proj1 Hpress Eb) as [-> Hlt]. cbn [length filter Z.eqb].
        destruct (Z.ltb_spec b 128); [|lia]. by destruct (mo_caps md).
      * rewrite filter_cons_False by done. cbn [length]. rewrite xorb_false_r.
        destruct (Z.eqb_spec (b mod 128) 0x3A); [|done]. destruct (Z.ltb_spec b 128); [|done]. tauto.
    + split; [done|]. congruence.
Qed.

Lemma handle_modifiers b k : fits 8 b -> modifiers_of (handle_byte b k) = (decode b (modifiers_of k)).1.
Proof.
  intros Hb. unfold handle_byte, decode. change KEYBOARD_EXTENDED_PREFIX with 0xE0. cbv zeta. destruct (b =? 0xE0); [done|].
  rewrite make_code, release_bit, modifier_chain by done. unfold enqueue. cbv zeta. by destruct (_ =? queue_head _).
Qed.

(** C30: after any bytes the modifiers are what the bytes say: shift is down exactly when the
    last edge of a shift key was a press, left control and alt when their own key went down
    without a prefix and had no edge since, control only if no prefix came since either, and
    caps lock after an odd number of presses. *)
Theorem keyboard_modifiers_exact bs k :
  Forall (fits 8) bs -> modifiers_of k = released -> edges bs (modifiers_of (foldl (fun k b => handle_byte b k) k bs)).
Proof.
  intros Hb Hk. replace (modifiers_of _) with (decoded bs released); [by apply decoded_edges|]. rewrite <- Hk. clear Hk. revert k.
  induction Hb as [|b bs Hb _ IH]; intros k; [done|]. unfold decoded in *. cbn [foldl]. by rewrite <- handle_modifiers, IH.
Qed.

(** Caps lock changes the case of letters and nothing else, and the release bit nothing. *)
Definition letter (c : Z) : bool := (97 <=? c) && (c <=? 122) || (65 <=? c) && (c <=? 90).

Theorem keyboard_caps_letters b shift :
  fits 8 b ->
  keyboard_character_for b shift true =
    (if letter (keyboard_character_for b shift false) then keyboard_character_for b (negb shift) false
     else keyboard_character_for b shift false) /\
  keyboard_character_for b shift false = keyboard_character_for (b mod 128) shift false.
Proof.
  intros Hb. assert (Hc : forall s, (keyboard_character_for b s true =? (if letter (keyboard_character_for b s false) then
    keyboard_character_for b (negb s) false else keyboard_character_for b s false))
    && (keyboard_character_for b s false =? keyboard_character_for (b mod 128) s false) = true).
  { intros s. apply (every_byte (fun b => (keyboard_character_for b s true =? (if letter (keyboard_character_for b s false) then
      keyboard_character_for b (negb s) false else keyboard_character_for b s false))
      && (keyboard_character_for b s false =? keyboard_character_for (b mod 128) s false))); [|done].
    destruct s; vm_compute; reflexivity. }
  specialize (Hc shift). apply andb_true_iff in Hc as [H1%Z.eqb_eq H2%Z.eqb_eq]. done.
Qed.

(** The part of the self test without hardware. *)
Definition translation_is_right : bool :=
  let char b shift caps := keyboard_character_for b shift caps in
  (char 0x1E false false =? 97) && (char 0x1E true false =? 65) && (char 0x1E false true =? 65) && (char 0x1E true true =? 97)
  && (char 0x02 false true =? 49) && (char 0x02 true true =? 33) && (char (0x1E .| KEYBOARD_RELEASE_BIT) false false =? 97)
  && ((char 0x39 false false =? 32) && (char 0x1C false false =? 10) && (char 0x0E false false =? 8) && (char 0x0F false false =? 9))
  && forallb (fun '(shift, caps) =>
       (char KEYBOARD_SCANCODE_LEFT_SHIFT shift caps =? 0) && (char KEYBOARD_SCANCODE_CAPS_LOCK shift caps =? 0))
       [(false, false); (false, true); (true, false); (true, true)]
  && forallb (fun code =>
       let c := char code false false in
       (c =? 0) || (32 <=? c) && (c <=? 126) || (c =? 10) || (c =? 9) || (c =? 8)) (seqZ 0 128)
  && forallb (fun i => eqb (unshifted !!! i =? 0) (shifted !!! i =? 0)) (seq 0 128).

Theorem translation_self_test_passes : translation_is_right = true.
Proof. vm_compute. reflexivity. Qed.

(** ** The order of the bring-up *)

(** One call of a sequence: any status but [OK] ends it. *)
Ltac keep_status L :=
  let K := fresh in pose proof L as K;
  match type of K with
  | _ _ (?f).2 => destruct f as [[] ?]; cbn [snd] in K |- *; try exact K; (etrans; [exact K|clear K])
  end.
Ltac keep_value L :=
  let K := fresh in pose proof L as K;
  match type of K with
  | _ _ (?f).2 => destruct f as [[[] ?] ?]; cbn [snd] in K |- *; try exact K; (etrans; [exact K|clear K])
  end.

(** What the driver relies on of the interrupt controller and the handler table while
    interrupts are off: [installed] and [routed] say whether the keyboard's vector has its
    handler and its line reaches it.  [sound] is a monitor that only keeps watching if the
    line is routed while the handler is installed, the port is enabled while both are, and
    the handler leaves while the line is masked. *)
Class routing_laws (H : Type) `{!port_hardware H, !interrupt_routing H} := {
  installed : H -> bool;
  routed : H -> bool;
  sound : H -> Prop;
  in8_keeps p h : sound h ->
    sound (cpu_in8 p h).2 /\ installed (cpu_in8 p h).2 = installed h /\ routed (cpu_in8 p h).2 = routed h;
  out8_keeps p v h : sound h ->
    (p = KEYBOARD_COMMAND_PORT -> v = KEYBOARD_COMMAND_ENABLE_FIRST_PORT -> installed h = true /\ routed h = true) ->
    sound (cpu_out8 p v h) /\ installed (cpu_out8 p v h) = installed h /\ routed (cpu_out8 p v h) = routed h;
  register_law h : sound h ->
    let r := interrupt_register_handler KEYBOARD_VECTOR h in
    sound r.2 /\ routed r.2 = routed h /\ installed r.2 = (if r.1 then true else installed h);
  unregister_law h : sound h -> routed h = false ->
    let r := interrupt_unregister_handler KEYBOARD_VECTOR h in sound r.2 /\ routed r.2 = false /\ installed r.2 = false;
  route_law h : sound h -> installed h = true ->
    let r := ioapic_route_isa_irq KEYBOARD_IRQ KEYBOARD_VECTOR 0 h in
    sound r.2 /\ installed r.2 = true /\ routed r.2 = (if r.1 then true else routed h);
  mask_law h : sound h ->
    let r := ioapic_mask_isa_irq KEYBOARD_IRQ h in sound r.2 /\ installed r.2 = installed h /\ routed r.2 = false
}.

Section Order.
Context {H : Type} `{!port_hardware H, !interrupt_routing H, !routing_laws H}.
Implicit Types h : H.

(** Nothing the monitor watches has changed. *)
Definition keeps h h' : Prop := sound h -> sound h' /\ installed h' = installed h /\ routed h' = routed h.

#[local] Instance keeps_preorder : PreOrder keeps.
Proof.
  unfold keeps. split; [done|]. intros h1 h2 h3 H12 H23 Hs. destruct (H12 Hs) as (Hs2 & I2 & R2).
  destruct (H23 Hs2) as (Hs3 & I3 & R3). split_and!; [done|congruence..].
Qed.

Lemma wait_keeps n ready h : keeps h (wait_status n ready h).2.
Proof.
  revert h. induction n as [|n IH]; intros h; [done|]. cbn [wait_status]. unfold controller_status.
  pose proof (in8_keeps KEYBOARD_COMMAND_PORT h) as Hi. destruct (cpu_in8 KEYBOARD_COMMAND_PORT h) as [st h1].
  destruct (ready st); [exact Hi|]. etrans; [exact Hi|apply IH].
Qed.

Lemma send_data_keeps v h : keeps h (send_data v h).2.
Proof.
  unfold send_data, wait_to_write. pose proof (wait_keeps (Z.to_nat KEYBOARD_WAIT_LIMIT) (fun status => (status .& KEYBOARD_STATUS_INPUT_FULL) =? 0) h) as Hw.
  destruct (wait_status _ _ h) as [[] h1]; cbn [negb snd] in *; [|done]. etrans; [done|]. intros Hs. by apply out8_keeps.
Qed.

(** Any command but the one that enables the port. *)
Lemma send_command_keeps c h : c <> KEYBOARD_COMMAND_ENABLE_FIRST_PORT -> keeps h (send_command c h).2.
Proof.
  intros Hc. unfold send_command, wait_to_write.
  pose proof (wait_keeps (Z.to_nat KEYBOARD_WAIT_LIMIT) (fun status => (status .& KEYBOARD_STATUS_INPUT_FULL) =? 0) h) as Hw.
  destruct (wait_status _ _ h) as [[] h1]; cbn [negb snd] in *; [|done]. etrans; [done|]. intros Hs. by apply out8_keeps.
Qed.

Lemma receive_keeps v h : keeps h (receive_data v h).2.
Proof.
  unfold receive_data, wait_to_read.
  pose proof (wait_keeps (Z.to_nat KEYBOARD_WAIT_LIMIT) (fun status => negb ((status .& KEYBOARD_STATUS_OUTPUT_FULL) =? 0)) h) as Hw.
  destruct (wait_status _ _ h) as [[] h1]; cbn [negb snd] in *; [|done]. etrans; [done|].
  pose proof (in8_keeps KEYBOARD_DATA_PORT h1) as Hi. by destruct (cpu_in8 KEYBOARD_DATA_PORT h1).
Qed.

Lemma drain_keeps n h : keeps h (drain_bytes n h).
Proof.
  revert h. induction n as [|n IH]; intros h; [done|]. cbn [drain_bytes]. unfold controller_status.
  pose proof (in8_keeps KEYBOARD_COMMAND_PORT h) as Hi. destruct (cpu_in8 KEYBOARD_COMMAND_PORT h) as [st h1].
  destruct (nothing_ours st); [exact Hi|]. etrans; [exact Hi|]. etrans; [|apply IH]. exact (in8_keeps KEYBOARD_DATA_PORT h1).
Qed.

Lemma write_configuration_keeps c h : keeps h (write_configuration c h).2.
Proof.
  unfold write_configuration. pose proof (send_command_keeps KEYBOARD_COMMAND_WRITE_CONFIGURATION h ltac:(done)) as Hc.
  destruct (send_command _ h) as [[] h1]; try exact Hc. etrans; [exact Hc|apply send_data_keeps].
Qed.

Lemma controller_test_keeps c passed failed v h :
  c <> KEYBOARD_COMMAND_ENABLE_FIRST_PORT -> keeps h (controller_test c passed failed v h).2.
Proof.
  intros Hc. unfold controller_test. keep_status (send_command_keeps c h Hc). keep_value (receive_keeps v h0).
  by destruct (negb _).
Qed.

Lemma prepare_keeps h : keeps h (prepare_controller h).2.
Proof.
  unfold prepare_controller, drain. cbv zeta.
  keep_status (send_command_keeps KEYBOARD_COMMAND_DISABLE_FIRST_PORT h ltac:(done)).
  keep_status (send_command_keeps KEYBOARD_COMMAND_DISABLE_SECOND_PORT h0 ltac:(done)).
  etrans; [apply (drain_keeps (Z.to_nat KEYBOARD_QUEUE_SIZE))|]. set (hd := drain_bytes _ _). clearbody hd.
  keep_status (send_command_keeps KEYBOARD_COMMAND_READ_CONFIGURATION hd ltac:(done)).
  keep_value (receive_keeps 0 h2). set (cfg := test_configuration _).
  keep_status (write_configuration_keeps cfg h3).
  keep_value (controller_test_keeps KEYBOARD_COMMAND_SELF_TEST KEYBOARD_SELF_TEST_PASSED KEYBOARD_STATUS_SELF_TEST_FAILED 0 h4 ltac:(done)).
  keep_status (write_configuration_keeps cfg h5).
  keep_value (controller_test_keeps KEYBOARD_COMMAND_TEST_FIRST_PORT KEYBOARD_PORT_TEST_PASSED KEYBOARD_STATUS_PORT_TEST_FAILED z0 h6 ltac:(done)).
Qed.

Lemma undo_spec st h :
  sound h -> let r := undo_route st h in r.1 = st /\ sound r.2 /\ installed r.2 = false /\ routed r.2 = false.
Proof.
  intros Hs. destruct (mask_law h Hs) as (Hs1 & _ & R1). destruct (unregister_law _ Hs1 R1) as (Hs2 & R2 & I2). by split_and!.
Qed.

Lemma enable_sound h :
  sound h -> installed h = true -> routed h = true ->
  let r := send_command KEYBOARD_COMMAND_ENABLE_FIRST_PORT h in sound r.2 /\ installed r.2 = true /\ routed r.2 = true.
Proof.
  intros Hs Hi Hr. unfold send_command, wait_to_write.
  pose proof (wait_keeps (Z.to_nat KEYBOARD_WAIT_LIMIT) (fun status => (status .& KEYBOARD_STATUS_INPUT_FULL) =? 0) h Hs) as (Hs1 & I1 & R1).
  destruct (wait_status _ _ h) as [[] h1]; cbn [negb snd] in *; rewrite ?Hi, ?Hr in *; [|done].
  destruct (out8_keeps KEYBOARD_COMMAND_PORT KEYBOARD_COMMAND_ENABLE_FIRST_PORT h1 Hs1) as (Hs2 & I2 & R2); [done|].
  split_and!; [done|congruence..].
Qed.

Lemma go_live_spec c h :
  sound h -> installed h = false -> routed h = false ->
  let r := go_live c h in
  sound r.2 /\ (r.1 = KEYBOARD_STATUS_OK -> installed r.2 = true /\ routed r.2 = true) /\
  (r.1 <> KEYBOARD_STATUS_OK -> installed r.2 = false /\ routed r.2 = false).
Proof.
  intros Hs Hi Hr. unfold go_live. destruct (register_law h Hs) as (Hs1 & R1 & I1).
  destruct (interrupt_register_handler KEYBOARD_VECTOR h) as [[] h1]; cbn [fst snd] in *; [|by rewrite R1, I1].
  destruct (route_law h1 Hs1 I1) as (Hs2 & I2 & R2).
  destruct (ioapic_route_isa_irq KEYBOARD_IRQ KEYBOARD_VECTOR 0 h1) as [[] h2]; cbn [fst snd] in *.
  2:{ destruct (unregister_law h2 Hs2 ltac:(congruence)) as (Hs3 & R3 & I3). by split_and!. }
  destruct (enable_sound h2 Hs2 I2 R2) as (Hs3 & I3 & R3).
  assert (Hundo : forall st h, sound h -> st <> KEYBOARD_STATUS_OK -> let r := undo_route st h in
    sound r.2 /\ (r.1 = KEYBOARD_STATUS_OK -> installed r.2 = true /\ routed r.2 = true) /\
    (r.1 <> KEYBOARD_STATUS_OK -> installed r.2 = false /\ routed r.2 = false)).
  { intros st h' Hs' Hst. destruct (undo_spec st h' Hs') as (E & U1 & U2 & U3). by split_and!. }
  destruct (send_command KEYBOARD_COMMAND_ENABLE_FIRST_PORT h2) as [st h3]. cbn [snd] in *.
  destruct st; try by apply Hundo.
  pose proof (write_configuration_keeps (c .| KEYBOARD_CONFIGURATION_FIRST_INTERRUPT) h3 Hs3) as (Hs4 & I4 & R4).
  destruct (write_configuration (c .| KEYBOARD_CONFIGURATION_FIRST_INTERRUPT) h3) as [st h4]. cbn [snd] in *.
  destruct st; try by apply Hundo.
  destruct (drain_keeps (Z.to_nat KEYBOARD_QUEUE_SIZE) h4 Hs4) as (Hs5 & I5 & R5). cbn [fst snd]. unfold drain.
  split_and!; [done|intros _; split; congruence|done].
Qed.

End Order.

(** ** A controller *)

Module KeyboardSamples.

(** An 8042 that answers at once: its configuration, the bytes it holds, what the next data
    byte is for, the handler, the line, and whether the monitor still accepts. *)
Record controller := Controller {
  co_configuration : Z;
  co_output : list Z;
  co_command : Z;
  co_installed : bool;
  co_routed : bool;
  co_accepts : bool
}.

Definition set_output (l : list Z) (c : controller) : controller :=
  Controller (co_configuration c) l (co_command c) (co_installed c) (co_routed c) (co_accepts c).

Definition command (v : Z) (c : controller) : controller :=
  let output :=
    if v =? KEYBOARD_COMMAND_READ_CONFIGURATION then [co_configuration c]
    else if v =? KEYBOARD_COMMAND_SELF_TEST then [KEYBOARD_SELF_TEST_PASSED]
    else if v =? KEYBOARD_COMMAND_TEST_FIRST_PORT then [KEYBOARD_PORT_TEST_PASSED]
    else [] in
  Controller (co_configuration c) (co_output c ++ output) v (co_installed c) (co_routed c)
    (co_accepts c && (negb (v =? KEYBOARD_COMMAND_ENABLE_FIRST_PORT) || co_installed c && co_routed c)).

Definition data (v : Z) (c : controller) : controller :=
  if co_command c =? KEYBOARD_COMMAND_WRITE_CONFIGURATION then
    Controller v (co_output c) 0 (co_installed c) (co_routed c) (co_accepts c)
  else if co_command c =? KEYBOARD_COMMAND_WRITE_OUTPUT_BUFFER then
    Controller (co_configuration c) (co_output c ++ [v]) 0 (co_installed c) (co_routed c) (co_accepts c)
  else c.

#[local] Instance sample_ports : port_hardware controller := {
  cpu_out8 p v c := if p =? KEYBOARD_COMMAND_PORT then command v c else data v c;
  cpu_in8 p c :=
    if p =? KEYBOARD_COMMAND_PORT then ((if decide (co_output c = []) then 0 else 1), c)
    else match co_output c with [] => (0, c) | b :: l => (u8 b, set_output l c) end;
  cpu_io_wait c := c;
  cpu_interrupts_enabled _ := false;
  cpu_interrupt_disable c := c;
  cpu_interrupt_enable c := c
}.

Definition set_lines (i r : bool) (accepts : bool) (c : controller) : controller :=
  Controller (co_configuration c) (co_output c) (co_command c) i r (co_accepts c && accepts).

#[local] Instance sample_routing : interrupt_routing controller := {
  ioapic_is_initialized _ := true;
  interrupt_register_handler _ c := if co_installed c then (false, c) else (true, set_lines true (co_routed c) true c);
  interrupt_unregister_handler _ c := (co_installed c, set_lines false (co_routed c) (negb (co_routed c)) c);
  ioapic_route_isa_irq _ _ _ c := (true, set_lines (co_installed c) true (co_installed c) c);
  ioapic_mask_isa_irq _ c := (true, set_lines (co_installed c) false true c)
}.

#[local] Instance sample_bytes : byte_ports controller.
Proof.
  intros p c. cbn. destruct (p =? KEYBOARD_COMMAND_PORT); [by destruct (decide _)|]. destruct (co_output c); [done|]. by apply wrap_fits.
Qed.

Lemma data_lines v c :
  co_accepts (data v c) = co_accepts c /\ co_installed (data v c) = co_installed c /\ co_routed (data v c) = co_routed c.
Proof. unfold data. by repeat case_match. Qed.

#[local, refine] Instance sample_laws : routing_laws controller := {
  installed := co_installed;
  routed := co_routed;
  sound c := co_accepts c = true
}.
Proof.
  - intros p h Hs. cbn. by repeat case_match.
  - intros p v h Hs He. cbn. destruct (Z.eqb_spec p KEYBOARD_COMMAND_PORT) as [Ep|_].
    + cbn. rewrite Hs. destruct (Z.eqb_spec v KEYBOARD_COMMAND_ENABLE_FIRST_PORT) as [Ev|_]; [|done].
      destruct (He Ep Ev) as [-> ->]. done.
    + destruct (data_lines v h) as (-> & -> & ->). done.
  - intros h Hs. cbn. destruct (co_installed h) eqn:E; cbn; [done|]. by rewrite Hs.
  - intros h Hs Hr. cbn. by rewrite Hs, Hr.
  - intros h Hs Hi. cbn. by rewrite Hs, Hi.
  - intros h Hs. cbn. by rewrite Hs.
Defined.

Definition cold : keyboard :=
  Keyboard (KeyboardState false 0 0 0 0 0 0 false false false false) (replicate 64 inhabitant) 0 0 false.

(** A stale byte in the output buffer, interrupts on in the configuration. *)
Definition found : controller := Controller 0x63 [0x1C] 0 false false true.

Definition brought_up := keyboard_initialize cold found.

Lemma triple_eta {A B C} (r : A * B * C) a : r.1.1 = a -> r = (a, r.1.2, r.2).
Proof. destruct r as [[x y] z]. cbn. by intros ->. Qed.

Lemma brought_up_status : (keyboard_initialize cold found).1.1 = KEYBOARD_STATUS_OK.
Proof. vm_compute. reflexivity. Qed.

Definition ready_keyboard : keyboard := brought_up.1.2.
Definition ready_machine : controller := set_output [0x2A; 0x1E] brought_up.2.


(** Shift down, [a] down and up, control down, a cursor key, [d]. *)
Definition typed : list Z := [0x2A; 0x1E; 0x9E; 0x1D; 0xE0; 0x48; 0x20].

Lemma typed_bytes : Forall (fits 8) typed.
Proof. by apply (bool_decide_unpack _). Qed.

Lemma keyboard_modifiers_exact_witness :
  modifiers_of (foldl (fun k b => handle_byte b k) cold typed) = Modifiers true false false false false /\
  ~ plain_key_held 0x1D (fun b => b <> 0xE0) typed.
Proof.
  assert (E : modifiers_of (foldl (fun k b => handle_byte b k) cold typed) = Modifiers true false false false false) by (vm_compute; reflexivity).
  split; [exact E|]. destruct (keyboard_modifiers_exact typed cold typed_bytes eq_refl) as [_ Hc _ _ _].
  rewrite E in Hc. intros Hh. by apply Hc in Hh.
Defined.

Lemma ready_simulates : simulates ready_keyboard (Desk released [] 0 0).
Proof. split; try (vm_compute; reflexivity). split; vm_compute; [reflexivity|split; congruence..]. Qed.

Definition calls : list keyboard_call := [Interrupt; Submit 0x9E; Read []; Read [0x02]; Read []; Read []; Read []].

Lemma calls_typed : Forall call_typed calls.
Proof. repeat (apply Forall_cons_2; [cbn [call_typed]; done || by apply (bool_decide_unpack _)|]). by apply Forall_nil_2. Qed.

Lemma keyboard_refines_witness :
  (run keyboard_step calls (ready_keyboard, ready_machine)).1 = (run desk_step calls (Desk released [] 0 0, ready_machine)).1.
Proof.
  pose proof (keyboard_refines calls ready_keyboard (Desk released [] 0 0) ready_machine calls_typed ready_simulates) as Hr.
  destruct (run keyboard_step calls (ready_keyboard, ready_machine)) as [l [k h]]. destruct Hr as [E _]. by rewrite E.
Defined.

(** What the reader gets: the shift, a capital A, its release, an exclamation mark, nothing more. *)
Example calls_answers :
  map (fun a : answer => (a.1, option_map ke_character a.2)) (run keyboard_step calls (ready_keyboard, ready_machine)).1 =
  [(KEYBOARD_STATUS_OK, None); (KEYBOARD_STATUS_OK, None); (KEYBOARD_STATUS_OK, Some 0); (KEYBOARD_STATUS_OK, Some 65);
   (KEYBOARD_STATUS_OK, Some 0); (KEYBOARD_STATUS_OK, Some 33); (KEYBOARD_STATUS_EMPTY, None)].
Proof. vm_compute. reflexivity. Qed.

End KeyboardSamples.
